(* ===== verification/_CoqProject ===== *)
-Q . S2P
Prelude.v
Libc.v
Files.v
Db.v
DbFormat.v
DbWp.v
DbChain.v
DbOps.v
DbSpec.v
DbScan.v
DbLocks.v
DbTheorems.v
Inotify.v
InotifyCache.v
InotifyInv.v
InotifyLoop.v
InotifyToy.v
InotifyTheorems.v
PrintQueue.v
Print.v
PrintFormat.v
PrintOps.v
PrintStatus.v
PrintTurn.v
PrintMessage.v
PrintClient.v
PrintTheorems.v
Calld.v
CalldOps.v
CalldTheorems.v
Sem.v
SemInv.v
SemSteps.v
SemTheorems.v
Acl.v
AclSpec.v
AclTheorems.v
GetNum.v
SockIo.v
SockIoSpec.v
Sockets.v
SeqNum.v
SockTheorems.v
Opend.v
OpendOps.v
OpendLoop.v
OpendTheorems.v
IoMem.v
IoTheorems.v
Threads.v
ThreadsTheorems.v
Motor.v
ShmXfr.v
ShmXfrTheorems.v
Ftw.v
FtwTheorems.v
TtyModes.v
TtyTheorems.v
Env.v
CondVar.v
SvMsg.v
MultiJoin.v
FileLocks.v
PidFile.v
FcntlCmd.v
FileLockTheorems.v
SimpleInit.v
Diag.v
TellWait.v
Popen.v
SysFn.v
SvInit.v
Call.v
CallTheorems.v
CallCopy.v
Daemon.v
PrintMain.v
OpenFe.v
