(* ===== verification/Prelude.v ===== *)
(** * Verification of the system programs of the repository

    The repository collects C programs for study.  Most of its C files are
    demonstrations of one system call each; this development is about the programs
    that have a state and logic of their own:

    - the key/data database library of APUE chapter 20, apue.2e/db/db.c;
    - the monitor of directory trees of TLPI chapter 19,
      tlpi-dist/inotify/inotify_dtree.c;
    - the network print spooler of APUE chapter 21: the daemon
      apue.2e/ipp/printd.c, the command print.c, the shared util.c;
    - the dialer daemon apue.2e/calld and its client call;
    - the semaphore library apue.2e/lib/semaph.c;
    - the editor of access control lists tlpi-dist/acl/acl_update.c;
    - the open server apue.2e/opend and its client open, which passes descriptors
      with lib/sendfd.c, senderr.c and recvfd.c, and the variant that the client
      starts by fork and exec, opend.fe and open.fe;
    - the socket routines of TLPI, tlpi-dist/sockets (rdwrn.c, read_line.c,
      read_line_buf.c, inet_sockets.c, unix_sockets.c), lib/get_num.c, and the
      sequence number service is_seqnum_sv.c and is_seqnum_cl.c that uses them;
    - programs that share memory: the transfer svshm_xfr_writer.c and
      svshm_xfr_reader.c over the semaphores of svsem/binary_sems.c; the queue and
      the table of apue.2e/threads (rwlock.c, mutex3.c); the producers and consumer
      of tlpi-dist/threads/prod_condvar.c; the main thread of thread_multijoin.c;
      the file server over message queues tlpi-dist/svmsg/svmsg_file_server.c with
      its client; the initialisation of a semaphore by several processes
      (svsem_good_init.c); parent and child that take turns (apue.2e/ipc/tellwait.c,
      lib/tellwait.c, advio/devzero.c);
    - processes: becoming a daemon (apue.2e/lib/daemonize.c, tlpi-dist/daemons/
      become_daemon.c), the init process of tlpi-dist/namespaces/simple_init.c, PID
      files and record locks (tlpi-dist/filelock, apue.2e/daemons), popen (apue.2e/
      lib/popen.c) and system (tlpi-dist/procexec/system.c, apue.2e/signals/system.c);
    - smaller libraries: terminal modes (apue.2e/lib/ttymodes.c), the walk of a
      directory tree (apue.2e/file/ftw4.c), the environment and the search of PATH
      (tlpi-dist/proc/setenv.c, procexec/execlp.c), the error functions of both
      books, the memory utility src/io.c and the motor proxy of design_pattern.

    They do not call each other, apart from the pairs of server and client (print.c
    and printd.c, call and calld, open.c and opend, is_seqnum_cl.c and is_seqnum_sv.c,
    the writer and the reader), which talk over sockets, shared memory and common
    structures, and apart from the routines they share (lock_reg, readn, writen,
    buf_args, send_fd, recv_fd, daemonize, the terminal modes, readLine, getInt, the
    binary semaphores).

    ** Files and sources

    - Prelude, Libc, Files: byte strings, machine integers and tactics; the string
      and number functions of the C library the programs use (atol, sprintf of
      numbers, strchr, byte order); regular files behind descriptors (lseek, read,
      write) and record locks.
    - Db: every function of db.c.  [DB] is the structure of the same name with
      the open files in place of their descriptors.  DbFormat relates the bytes of
      the index file to a list of entries, DbWp gives total correctness of the
      internal functions, DbChain holds the invariant [wf] of the hash chains and
      the free list, DbOps the functions that relink them, DbSpec the refinement of
      a finite map, DbScan opening and scanning, DbLocks the locking protocol,
      DbTheorems the properties and the interface [KeyStore].
    - Inotify: every function of inotify_dtree.c over the class [Kernel] of what it
      asks of the kernel and of nftw.  [state] has the program's static variables.
      InotifyCache: the operations of the watch cache; InotifyInv: the invariant
      through every handler and command; InotifyLoop: decoding of events and the
      read loop; InotifyToy: a kernel that satisfies the assumptions;
      InotifyTheorems: the properties.
    - PrintQueue: the job list and the worker list of printd.c as linked structures
      in a heap.  Print: the rest of printd.c, util.c, the structures of print.h and
      ipp.h, and the request print.c builds; [env] has the daemon's globals, the
      spool files and the outcomes of the calls to come.  PrintFormat, PrintOps,
      PrintStatus, PrintTurn: formats, client threads, the printer's answer, a turn
      of the printer thread.  PrintMessage: an independent reader of what is sent
      to the printer.  PrintClient: print.c with readn.c and writen.c, state [cst].
      PrintTheorems: the properties.  PrintMain: main of printd.c over Daemon and
      Print, with sockets/initsrv2.c and clconn.c and the property.
    - Calld: all of calld but its main, and lib/bufargs.c; [cst] of Calld has the
      client array, the line locks, the three configuration files and the
      terminal.  CalldOps: lemmas; CalldTheorems: the properties.
    - Call: all of apue.2e/call, over the terminal of TtyModes and the messages of
      Opend; [cst] of Call has what the user types, the line to the remote system and
      the local files.  CallTheorems: the request against Calld, the session, the
      terminal; CallCopy: the copies of files.
    - Daemon: daemonize.c, become_daemon.c and the mains of calld and opend, on the
      process [proc] that calls them, with the property.
    - Sem: every function of semaph.c, one step per system call, for any number of
      processes; SemInv: the invariant; SemSteps: each step keeps it; SemTheorems:
      the properties.
    - Acl: acl_update.c with the name look-ups of ugid_functions.c, over the class
      [AclLib] of the operations of libacl; AclSpec: ACLs as maps, the text of an
      ACL; AclTheorems: an implementation of the class, and the properties.
    - GetNum: get_num.c, over strtol and strtoul.  SockIo: rdwrn.c, read_line.c and
      read_line_buf.c, over descriptors that deliver segments ([stream]) and accept
      parts of a write; SockIoSpec: what each of them returns.  Sockets:
      inet_sockets.c and unix_sockets.c over the class [NetKernel], state [net].
      SeqNum: the server's loop and the client.  SockTheorems: the properties.
    - Opend: opend/client.c, request.c, loop.select.c and loop.poll.c with
      opend.fe/cliargs.c, open/open.c, and lib/sendfd.c, senderr.c, recvfd.c and
      bufargs.c; [ost] has the server's globals and the events seen outside.
      What the server logs passes through log_doit of errorlog.c.
      OpendOps: the client array and requests; OpendLoop: both loops against a map
      of clients; OpendTheorems: the properties.  OpenFe: open.fe and opend.fe over
      the same messages, and client and server together.
    - IoMem: io.c, its command line, the mapping, the loops on the mapped pages;
      IoTheorems: the properties.
    - Threads: rwlock.c (over the heap of PrintQueue) and mutex3.c;
      ThreadsTheorems: the properties.
    - Motor: MotorProxy.c and its headers, with the properties.
    - ShmXfr: binary_sems.c, svshm_xfr_writer.c and svshm_xfr_reader.c as step
      functions of the state [xst], with the invariant; ShmXfrTheorems: the
      properties.
    - Ftw: ftw4.c and lib/pathalloc.c; FtwTheorems: the properties.
    - TtyModes: ttymodes.c over the class [TtyKernel], with the invariant;
      TtyTheorems: the properties.
    - Env: setenv.c and execlp.c, with the properties.
    - CondVar: prod_condvar.c as step functions of the state [pst], with the
      invariant and the properties.
    - SvMsg: svmsg_file_server.c and svmsg_file_client.c as step functions of the
      state [st], with the invariant and the properties.
    - MultiJoin: thread_multijoin.c, threads and main as step functions of the state
      [jst], with the invariant and the property.
    - FileLocks: region_locking.c, lockreg.c, locktest.c, lockfile.c, single.c and
      create_pid_file.c as trees of system calls over the class [RecordLocks];
      locks kept in a list satisfy the class; PidFile: processes that run them at once; FcntlCmd: i_fcntl_locking.c; FileLockTheorems.
    - SimpleInit: simple_init.c and its handler, steps of the state [ist], with the
      property.
    - Diag: error_functions.c, lib/error.c and errorlog.c.
    - TellWait: both tellwait.c as instances of the classes [Sync] and [SyncLive], and
      devzero.c as their client.
    - Popen: popen.c and openmax.c.  SysFn: both functions system.
    - SvInit: svsem_good_init.c and svsem_bad_init.c for any number of processes.

    ** How code is modelled

    A function is a computation of a small state and error monad ([M] in Db, [N] in
    Inotify, [P] in Print, [K] in PrintClient, [C] in Calld, [M] in Call, [SM] in
    Opend), or a function to an option or a sum in the smaller files, and follows the source
    statement by statement, with its early returns.  Besides returning, it can end
    the process or thread, and it can run into undefined behaviour (an invalid
    pointer, a write past an array), which is an outcome of its own, so that a
    theorem that a call returns also says that it does neither.  long is 64 bits,
    int 32, and both wrap where the code relies on it; a size_t of -1 is 2^64 - 1.

    Code that runs under one mutex is one operation, and runs of the print daemon
    are sequences of operations; so are those of the queue and the table of Threads.
    The processes of Sem, ShmXfr, SvMsg, SvInit, PidFile, SimpleInit and TellWait are
    interleaved at every system call, the threads of CondVar and MultiJoin at every
    call of the pthread library.

    Loops that are not structural take fuel.  A walk along a chain of the database
    has the length of the index file as fuel, more than there are records;
    [treadn], [readn] and [writen] have the number of bytes asked for, of which
    every turn moves one; [request] of calld the length of the files it reads,
    which every line shortens; the line readers of SockIo the number of bytes and
    events still to come; [job_find] the number of structures; the search of PATH its
    length; the loops of take in the call client the bytes and reads still to come; the
    session of i_fcntl_locking.c the length of its input.  The walk of ftw4.c takes the
    depth of the tree.  In all of these running out of fuel is excluded by the theorems.  Where the loop depends on what arrives from outside (the read
    loop of inotify_dtree, the loops of client threads, of the printer's answer and
    of the modem) fuel is an argument and the theorems say how much is enough; the
    theorems on loops that never end say so for every fuel.

    ** What is shown

    - Database: any sequence of calls answers as a finite map would and leaves
      files that represent the updated map; a session of create, calls, close,
      reopen and scan returns exactly the pairs; writes happen under the lock of
      the chain; fetch, delete and store case by case; read-only handles cannot
      write; two kinds of keys that break a database.
    - Directory monitor: the invariant of the cache in every reachable state,
      whatever the kernel does; exact effects of watching, renaming and removing
      subtrees; renames recognized from two events; the read loop ends.
    - Print spooler: the job list is a queue; a document goes from the command
      through the network into the spool and the queue under the number the user
      is told; the spool survives a restart; what is sent to the printer parses as
      HTTP and IPP with the right length and attributes; a turn of the printer
      thread with any answer; a job is never lost; rejected and unreachable cases;
      three faults of the daemon (worker list, split response, long names); the daemon
      starts its threads only as an unprivileged user, and only once it has the lock.
    - Dialer: the lock table is a map; a request starts a child only on a free
      line of the right kind; expect strings are found at their first occurrence;
      a silent modem hangs the child.  Its client: the daemon recovers from the request
      exactly what is on the client's command line; the session passes on what is typed
      and shows what comes, in any interleaving; copied files arrive; the terminal is
      given back however the client exits.
    - Semaphores, for processes that open a semaphore with sem_create, signal only what
      they have waited for and leave sem_rm alone: accounting of the three members, use
      is safe until closed, mutual exclusion even across exits, the lock is always released; two races
      that the library does not handle.
    - ACLs: an update is a sequence of insertions or deletions in a map, each followed by
      the computation of the mask unless -n is given, of which a failing run has done a
      beginning; parsing inverts printing.
    - Sockets: messages and lines get through whatever way the stream is cut up, and
      the buffered line reader is equivalent to the one that reads byte by byte;
      setting up a socket leaves no descriptor behind, but for one case; numbers on
      command lines are read back as they were written or refused; the sequence
      number server never grants a number twice, and its client is told the range.
    - Open server: both of its loops implement a map of connected clients, and serve
      every client that has input and nobody else, inside their arrays (and sets, but for
      a descriptor of FD_SETSIZE or more); a descriptor
      or an error sent is the one received; a file opened through the server is the
      file asked for; three ways in which one client ends the server for all; files are
      printed through the server that the client starts itself.
    - Shared memory: the transfer copies up to INT_MAX bytes exactly, in every
      interleaving, and ends;
      the queue is a list as long as its tail is not removed; the table never finds
      anything; the consumer misses no wake-up and consumes everything; main joins every
      thread once and ends; every client of the file server gets its own file; no
      operation on a semaphore is lost while it is initialised; parent and child take
      turns over any synchronisation that satisfies the interface.
    - Processes: a daemon is detached from session and terminal, and both functions
      make the same one; init leaves no zombie; a PID file admits one instance; lock
      commands are carried out as typed; popen and pclose, and the two functions system,
      do what is asked and leave the caller as it was.
    - Smaller libraries: terminals are restored after any calls and failures; a walk
      visits every file once and its counts are right; the environment is a map; the
      search of PATH tries the directories in order; the pages io.c maps hold the
      request; the motor's register is packed field by field; diagnostics stay in their
      buffers but for one byte.

    ** Assumptions

    The kernel's side of inotify, nftw and lstat is the class [Kernel]; what is
    relied on is in [KernelOk] (watch descriptors are not negative, watched
    pathnames are shorter than PATH_MAX, what nftw reports are strings) and [KernelFeed] (reads deliver well-formed events
    and come to an end).  What libacl documents of its operations, which is
    nothing of the order of entries, is the class [AclLaws].  The outcomes of the socket calls are the class [NetKernel], with new
    descriptors that are not in use and not negative ([NetKernelOk]); those of the
    terminal driver [TtyKernel], with settings that can be set again
    ([Restorable]); record locks keep the laws of [RecordLocks], and a stream pipe those
    of [PipeOk].  New process ids are not in use.  strerror, wordexp, the resolver, the user and group databases and
    uninitialized memory are arguments.  Files, sockets and System V semaphores behave as POSIX documents
    them: short transfers and errors wherever they may occur, EIDRM for a set that
    is removed during a call, adjust values undone at exit.

    ** Not modelled

    getaddrlist and the other functions that only call the resolver; the rest of
    apue.2e/lib (signal, pty and connection wrappers of one or a few system calls);
    apue.2e/db/t4.c, a fixed sequence of the calls that DbTheorems covers; the
    demonstrations of apue.2e and tlpi-dist that show one system call each and keep no
    state; output that is only shown to a reader (usage texts, prompts, displays of
    events and of file attributes); uboot_analyze (annotated copies of boot-loader files
    for hardware registers, configured by macros that are not in the repository); what is
    not C.  Of the demonstrations, userns_child_exec.c, rand_dtree.c and mutex2.c have the
    most logic of their own. *)

From stdpp Require Export base decidable numbers list gmap strings.
From Stdlib Require Export ZArith Lia.

#[global] Set Default Goal Selector "!".

(** Byte sequences: a byte is an integer of [0, 255]; a C string is the
    sequence of its bytes without the terminating NUL. *)
Abbreviation bytes := (list Z).

(** String literals of the sources, as byte sequences. *)
Definition str (s : string) : bytes :=
  map (fun c => Z.of_N (Ascii.N_of_ascii c)) (String.list_ascii_of_string s).

(** ** Machine integers *)

(** Reduction of an integer to an unsigned [w]-bit word. *)
Definition wrap_u (w : Z) (z : Z) : Z := z mod 2 ^ w.

(** Reduction of an integer to a signed [w]-bit word (two's complement). *)
Definition wrap_s (w : Z) (z : Z) : Z := (z + 2 ^ (w - 1)) mod 2 ^ w - 2 ^ (w - 1).

(** ** Automation *)

Create HintDb mod_db.

(** Case analysis on the innermost boolean test of the goal, with the
    arithmetic comparisons turned into propositions. *)
Ltac bool_to_prop :=
  repeat match goal with
  | H : (_ && _)%bool = true |- _ => apply andb_true_iff in H; destruct H
  | H : (_ || _)%bool = false |- _ => apply orb_false_iff in H; destruct H
  | H : (_ =? _)%Z = true |- _ => apply Z.eqb_eq in H
  | H : (_ =? _)%Z = false |- _ => apply Z.eqb_neq in H
  | H : (_ <? _)%Z = true |- _ => apply Z.ltb_lt in H
  | H : (_ <? _)%Z = false |- _ => apply Z.ltb_ge in H
  | H : (_ <=? _)%Z = true |- _ => apply Z.leb_le in H
  | H : (_ <=? _)%Z = false |- _ => apply Z.leb_gt in H
  | H : negb _ = true |- _ => apply negb_true_iff in H
  | H : negb _ = false |- _ => apply negb_false_iff in H
  end.

Ltac case_if :=
  match goal with
  | |- context [if ?b then _ else _] =>
      let E := fresh "E" in destruct b eqn:E; bool_to_prop
  end.

(** Length arithmetic: normalise every list length, then [lia]. *)
Ltac len :=
  repeat rewrite ?length_app, ?length_take, ?length_drop, ?length_replicate,
    ?length_insert, ?length_map, ?length_fmap, ?length_nil, ?length_cons in *;
  simpl in *; lia.

(** Membership in lists built with [++] and [::]. *)
Ltac in_list := repeat rewrite ?elem_of_app, ?elem_of_cons in *; tauto.

(** ** Lists *)

Lemma insert_middle {A} (a : list A) x y b : <[length a := x]> (a ++ y :: b) = a ++ x :: b.
Proof. replace (length a) with (length a + 0)%nat by lia. by rewrite insert_app_r. Qed.

(** ** Sums over lists *)

Section Sums.
Local Open Scope Z_scope.

Fixpoint zsum {A} (f : A -> Z) (l : list A) : Z := match l with [] => 0 | x :: l' => f x + zsum f l' end.

Lemma zsum_insert {A} (f : A -> Z) l p x y : l !! p = Some x -> zsum f (<[p := y]> l) = zsum f l - f x + f y.
Proof.
  revert p. induction l as [|z l IH]; intros [|p] H; simpl in *; try done; [injection H as ->; lia|]. rewrite (IH p H). lia.
Qed.

Lemma zsum_nonneg {A} (f : A -> Z) l : (forall x, 0 <= f x) -> 0 <= zsum f l.
Proof. intros H. induction l as [|x l IH]; simpl; [lia|]. specialize (H x). lia. Qed.

Lemma zsum_le {A} (f : A -> Z) l p x : (forall x, 0 <= f x) -> l !! p = Some x -> f x <= zsum f l.
Proof.
  intros Hf H. pose proof (zsum_insert f l p x x H). rewrite list_insert_id in H0 by done.
  revert p H H0. induction l as [|z l IH]; intros [|p] H _; simpl in *; try done.
  - injection H as ->. pose proof (zsum_nonneg f l Hf). lia.
  - pose proof (Hf z). pose proof (IH p H). lia.
Qed.

Lemma zsum_two {A} (f : A -> Z) l p q x y :
  (forall x, 0 <= f x) -> p <> q -> l !! p = Some x -> l !! q = Some y -> f x + f y <= zsum f l.
Proof.
  intros Hf. revert p q. induction l as [|z l IH]; intros [|p] [|q] Hne Hp Hq; simpl in *; try done.
  - injection Hp as ->. pose proof (zsum_le f l q y Hf Hq). lia.
  - injection Hq as ->. pose proof (zsum_le f l p x Hf Hp). lia.
  - pose proof (Hf z). pose proof (IH p q ltac:(congruence) Hp Hq). lia.
Qed.

Lemma zsum_le_fun {A} (f g : A -> Z) l : (forall x, f x <= g x) -> zsum f l <= zsum g l.
Proof. intros H. induction l as [|x l IH]; simpl; [lia|]. specialize (H x). lia. Qed.

Lemma zsum_replicate {A} (f : A -> Z) n x : f x = 0 -> zsum f (replicate n x) = 0.
Proof. intros H. induction n as [|n IH]; simpl; lia. Qed.

Lemma zsum_zero {A} (f : A -> Z) l : (forall p x, l !! p = Some x -> f x = 0) -> zsum f l = 0.
Proof.
  induction l as [|x l IH]; intros H; simpl; [done|]. rewrite (H 0%nat x eq_refl), IH; [done|]. intros p y Hy. by apply (H (S p)).
Qed.

Lemma zsum_nil {A} (f : A -> Z) : zsum f [] = 0.
Proof. done. Qed.

Lemma zsum_cons {A} (f : A -> Z) x l : zsum f (x :: l) = f x + zsum f l.
Proof. done. Qed.

Lemma zsum_app {A} (f : A -> Z) l k : zsum f (l ++ k) = zsum f l + zsum f k.
Proof. induction l as [|x l IH]; simpl; lia. Qed.

Lemma zsum_Forall {A} (f : A -> Z) l : Forall (fun x => 0 <= f x) l -> 0 <= zsum f l.
Proof. induction 1; simpl; lia. Qed.

End Sums.
