(* ===== verification/Libc.v ===== *)
(** * Libc: the parts of the C library the programs use on byte strings. *)
From S2P Require Import Prelude.
Local Open Scope Z_scope.

(** ** C strings inside buffers *)

(** The C string that starts at the beginning of a buffer: its bytes up to
    the first NUL ([strlen] is the length of this). *)
Fixpoint cstring (buf : bytes) : bytes :=
  match buf with
  | [] => []
  | c :: buf' => if c =? 0 then [] else c :: cstring buf'
  end.

(** [strchr]: the suffix of the string that starts at the first [c]; the
    result keeps the offset instead of a pointer. *)
Fixpoint strchr (s : bytes) (c : Z) : option nat :=
  match s with
  | [] => None
  | x :: s' => if x =? c then Some O else option_map S (strchr s' c)
  end.

(** [isspace] and [isdigit] in the C locale. *)
Definition isspace (c : Z) : bool := (c =? 32) || ((9 <=? c) && (c <=? 13)).
Definition isdigit (c : Z) : bool := (48 <=? c) && (c <=? 57).

(** ** Decimal output: [%d], [%ld], [%*d] *)

Fixpoint udec (fuel : nat) (n : Z) : bytes :=
  match fuel with
  | O => []
  | S f => if n <? 10 then [48 + n] else udec f (n / 10) ++ [48 + n mod 10]
  end.

(** Decimal digits of a natural number, most significant first. *)
Definition dec_u (n : Z) : bytes := udec (S (Z.to_nat (Z.log2 n))) n.

(** [%ld]: a minus sign for negative numbers, no padding. *)
Definition fmt_ld (z : Z) : bytes :=
  if z <? 0 then 45 :: dec_u (- z) else dec_u z.

(** [%*ld] with width [w]: padded on the left with blanks, never truncated. *)
Definition fmt_width (w : nat) (s : bytes) : bytes :=
  replicate (w - length s)%nat 32 ++ s.

(** ** Decimal input: [atol], [atoi] *)

Definition LONG_MAX : Z := 2 ^ 63 - 1.
Definition LONG_MIN : Z := - 2 ^ 63.

Fixpoint skip_space (s : bytes) : bytes :=
  match s with
  | c :: s' => if isspace c then skip_space s' else s
  | [] => []
  end.

Fixpoint digits_val (acc : Z) (s : bytes) : Z :=
  match s with
  | c :: s' => if isdigit c then digits_val (acc * 10 + (c - 48)) s' else acc
  | [] => acc
  end.

(** [atol] is [strtol] in base 10: leading white space, an optional sign,
    digits; a value out of range saturates. *)
Definition atol (s : bytes) : Z :=
  let v :=
    match skip_space s with
    | 45 :: s' => - digits_val 0 s'
    | 43 :: s' => digits_val 0 s'
    | s' => digits_val 0 s'
    end in
  Z.max LONG_MIN (Z.min LONG_MAX v).

(** [atoi] is [(int) strtol]. *)
Definition atoi (s : bytes) : Z := wrap_s 32 (atol s).

(** ** Lemmas *)

Lemma cstring_nonzero s rest :
  Forall (fun c => c <> 0) s -> cstring (s ++ 0 :: rest) = s.
Proof.
  induction 1 as [|c s Hc _ IH]; [done|]. simpl.
  destruct (Z.eqb_spec c 0); [lia|]. by rewrite IH.
Qed.

Lemma cstring_all_nonzero s : Forall (fun c => c <> 0) s -> cstring s = s.
Proof.
  induction 1 as [|c s Hc _ IH]; [done|]. simpl.
  destruct (Z.eqb_spec c 0); [lia|]. by rewrite IH.
Qed.

Lemma cstring_Forall s : Forall (fun c => c <> 0) (cstring s).
Proof.
  induction s as [|c s IH]; simpl; [done|].
  destruct (Z.eqb_spec c 0); by constructor.
Qed.

Lemma strchr_app s c rest :
  Forall (fun x => x <> c) s -> strchr (s ++ c :: rest) c = Some (length s).
Proof.
  induction 1 as [|x s Hx _ IH]; simpl; [by rewrite Z.eqb_refl|].
  destruct (Z.eqb_spec x c); [lia|]. by rewrite IH.
Qed.

Lemma strchr_None s c : Forall (fun x => x <> c) s -> strchr s c = None.
Proof.
  induction 1 as [|x s Hx _ IH]; simpl; [done|].
  destruct (Z.eqb_spec x c); [lia|]. by rewrite IH.
Qed.

Lemma strchr_None_inv s c : strchr s c = None -> Forall (fun x => x <> c) s.
Proof.
  induction s as [|x s IH]; cbn [strchr]; [by constructor|].
  destruct (Z.eqb_spec x c); [done|]. destruct (strchr s c); [done|]. intros _. constructor; [done|by apply IH].
Qed.

Lemma strchr_Some_inv s c i :
  strchr s c = Some i -> s = take i s ++ c :: drop (S i) s /\ Forall (fun x => x <> c) (take i s).
Proof.
  revert i. induction s as [|x s IH]; intros i; cbn [strchr]; [done|].
  destruct (Z.eqb_spec x c) as [->|Hx].
  - intros [= <-]. split; [done|constructor].
  - destruct (strchr s c) as [j|]; [|done]. intros [= <-]. destruct (IH j eq_refl) as [E F].
    cbn [take drop app]. split; [by f_equal|by constructor].
Qed.

Lemma udec_digits f n : 0 <= n -> Forall (fun c => 48 <= c <= 57) (udec f n).
Proof.
  revert n. induction f as [|f IH]; intros n Hn; simpl; [done|].
  destruct (Z.ltb_spec n 10); [constructor; [lia|done]|].
  apply Forall_app; split; [apply IH; apply Z.div_pos; lia|].
  constructor; [|done]. pose proof (Z.mod_pos_bound n 10). lia.
Qed.

Lemma dec_u_digits n : 0 <= n -> Forall (fun c => 48 <= c <= 57) (dec_u n).
Proof. apply udec_digits. Qed.

Lemma digits_val_app s1 s2 acc :
  Forall (fun c => 48 <= c <= 57) s1 ->
  digits_val acc (s1 ++ s2) = digits_val (digits_val acc s1) s2.
Proof.
  intros H. revert acc. induction H as [|c s1 Hc _ IH]; intros acc; [done|].
  simpl. unfold isdigit.
  destruct (Z.leb_spec 48 c); [|lia]. destruct (Z.leb_spec c 57); [|lia].
  apply IH.
Qed.

Lemma digits_val_stop acc s :
  (match s with c :: _ => isdigit c = false | [] => True end) ->
  digits_val acc s = acc.
Proof. destruct s; simpl; [done|]. by intros ->. Qed.

Lemma udec_val f n :
  0 <= n < 2 ^ Z.of_nat f -> digits_val 0 (udec f n) = n.
Proof.
  revert n. induction f as [|f IH]; intros n Hn.
  { simpl in *. change (2 ^ 0) with 1 in Hn. lia. }
  cbn [udec]. destruct (Z.ltb_spec n 10).
  { cbn. unfold isdigit.
    destruct (Z.leb_spec 48 (48 + n)); [|lia].
    destruct (Z.leb_spec (48 + n) 57); [|lia]. simpl. lia. }
  assert (Hdiv : 0 <= n / 10 < 2 ^ Z.of_nat f).
  { rewrite Nat2Z.inj_succ, Z.pow_succ_r in Hn by lia.
    split; [apply Z.div_pos; lia|]. apply Z.div_lt_upper_bound; lia. }
  rewrite digits_val_app by (apply udec_digits; lia).
  rewrite IH by done. cbn. unfold isdigit.
  pose proof (Z.mod_pos_bound n 10 ltac:(lia)).
  destruct (Z.leb_spec 48 (48 + n mod 10)); [|lia].
  destruct (Z.leb_spec (48 + n mod 10) 57); [|lia]. simpl.
  pose proof (Z.div_mod n 10). lia.
Qed.

Lemma dec_u_val n : 0 <= n -> digits_val 0 (dec_u n) = n.
Proof.
  intros Hn. unfold dec_u. apply udec_val. split; [done|].
  destruct (Z.eq_dec n 0) as [->|]; [done|].
  pose proof (Z.log2_spec n ltac:(lia)) as [_ H].
  pose proof (Z.log2_nonneg n).
  by rewrite Nat2Z.inj_succ, Z2Nat.id by lia.
Qed.

Lemma udec_nonempty f n : udec (S f) n <> [].
Proof. cbn. destruct (n <? 10); [done|]. by destruct (udec f (n / 10)). Qed.

Lemma dec_u_nonempty n : dec_u n <> [].
Proof. apply udec_nonempty. Qed.

Lemma udec_length f n k :
  (1 <= k)%nat -> 0 <= n < 10 ^ Z.of_nat k -> (length (udec f n) <= k)%nat.
Proof.
  revert n k. induction f as [|f IH]; intros n k Hk Hn; simpl; [lia|].
  destruct (Z.ltb_spec n 10); [simpl; lia|].
  rewrite length_app. simpl.
  destruct k as [|[|k]]; [lia|simpl in *; lia|].
  assert (length (udec f (n / 10)) <= S k)%nat; [|lia].
  apply IH; [lia|]. rewrite (Nat2Z.inj_succ (S k)), Z.pow_succ_r in Hn by lia.
  split; [apply Z.div_pos; lia|]. apply Z.div_lt_upper_bound; lia.
Qed.

(** A number below [10^k] prints on at most [k] digits. *)
Lemma dec_u_length n k :
  (1 <= k)%nat -> 0 <= n < 10 ^ Z.of_nat k -> (length (dec_u n) <= k)%nat.
Proof. apply udec_length. Qed.

Lemma skip_space_replicate k s :
  skip_space (replicate k 32 ++ s) = skip_space s.
Proof. induction k; simpl; auto. Qed.

(** What [%*ld] or [%ld] prints is read back by [atol], whatever follows
    that is not a digit. *)
Lemma atol_fmt k n rest :
  0 <= n <= LONG_MAX ->
  (match rest with c :: _ => isdigit c = false | [] => True end) ->
  atol (replicate k 32 ++ dec_u n ++ rest) = n.
Proof.
  intros Hn Hrest. unfold atol. rewrite skip_space_replicate.
  pose proof (dec_u_digits n ltac:(lia)) as Hd.
  pose proof (digits_val_app _ rest 0 Hd) as Hv.
  rewrite dec_u_val in Hv by lia. rewrite (digits_val_stop n rest) in Hv by done.
  destruct (dec_u n) as [|c s] eqn:E; [by apply dec_u_nonempty in E|].
  apply Forall_cons in Hd as [Hc _]. simpl app in *. cbn [skip_space].
  assert (isspace c = false) as ->.
  { unfold isspace. destruct (Z.eqb_spec c 32); [lia|].
    destruct (Z.leb_spec 9 c), (Z.leb_spec c 13); done || lia. }
  assert (Hm : match c :: s ++ rest with
    | 45 :: s' => - digits_val 0 s'
    | 43 :: s' => digits_val 0 s'
    | s' => digits_val 0 s'
    end = digits_val 0 (c :: s ++ rest)).
  { destruct (decide (c = 45)); [lia|]. destruct (decide (c = 43)); [lia|].
    destruct c as [|p|p]; try done.
    do 6 (destruct p as [p|p|]; try done). }
  rewrite Hm, Hv. unfold LONG_MIN, LONG_MAX in *. lia.
Qed.

(** ** Words in memory, least significant byte first *)

Fixpoint le_word (b : bytes) : Z :=
  match b with [] => 0 | x :: b' => x + 256 * le_word b' end.

Fixpoint le_bytes (n : nat) (z : Z) : bytes :=
  match n with O => [] | S n' => z mod 256 :: le_bytes n' (z / 256) end.

Lemma length_le_bytes n z : length (le_bytes n z) = n.
Proof. revert z. induction n as [|n IH]; intros z; simpl; [done|]. by rewrite IH. Qed.

Lemma le_word_bytes n z : 0 <= z < 256 ^ Z.of_nat n -> le_word (le_bytes n z) = z.
Proof.
  revert z. induction n as [|n IH]; intros z Hz.
  - change (256 ^ Z.of_nat 0) with 1 in Hz. simpl. lia.
  - rewrite Nat2Z.inj_succ, Z.pow_succ_r in Hz by lia. cbn [le_bytes le_word].
    pose proof (Z_div_mod_eq_full z 256). pose proof (Z.mod_pos_bound z 256 ltac:(lia)).
    rewrite IH; [lia|]. split; [apply Z.div_pos; lia|]. apply Z.div_lt_upper_bound; lia.
Qed.

Lemma cstring_length s : (length (cstring s) <= length s)%nat.
Proof. induction s as [|c s IH]; simpl; [lia|]. destruct (c =? 0); simpl; lia. Qed.
