(* ===== verification/Files.v ===== *)
(** * Files: regular files behind open descriptors, and record locks.

    [ofile] is an open file description: the contents of the regular file,
    the current offset, the access mode it was opened with and the largest
    size the file system allows.  [sys_lseek], [sys_read] and [sys_write] are
    lseek(2), read(2) and write(2) on it; [readv]/[writev] are the same calls on
    the concatenation of their buffers.  Record locks (fcntl F_SETLKW, never
    contended within one process) are kept as the trace of the calls. *)
From S2P Require Import Prelude.
Local Open Scope Z_scope.

Record ofile := mkFile {
  f_data : bytes;
  f_pos  : Z;
  f_rd   : bool;   (* opened for reading *)
  f_wr   : bool;   (* opened for writing *)
  f_lim  : Z       (* no byte can be written at or beyond this offset *)
}.

Definition f_seek (p : Z) (f : ofile) : ofile :=
  mkFile (f_data f) p (f_rd f) (f_wr f) (f_lim f).

Inductive whence := SEEK_SET | SEEK_CUR | SEEK_END.

#[export] Instance whence_eq_dec : EqDecision whence.
Proof. solve_decision. Defined.

(** Size of a file, as [st_size]. *)
Definition f_size (f : ofile) : Z := Z.of_nat (length (f_data f)).

Definition sys_lseek (f : ofile) (off : Z) (w : whence) : Z * ofile :=
  let new :=
    match w with
    | SEEK_SET => off
    | SEEK_CUR => f_pos f + off
    | SEEK_END => f_size f + off
    end in
  if new <? 0 then (-1, f) else (new, f_seek new f).

(** [n] bytes of [d] from offset [off] on, fewer at the end of the file. *)
Definition slice (d : bytes) (off n : nat) : bytes := take n (drop off d).

Definition sys_read (f : ofile) (n : Z) : Z * bytes * ofile :=
  if f_rd f then
    let bs := slice (f_data f) (Z.to_nat (f_pos f)) (Z.to_nat n) in
    (Z.of_nat (length bs), bs, f_seek (f_pos f + Z.of_nat (length bs)) f)
  else (-1, [], f).

(** Overwrite [d] with [bs] from offset [off] on, filling a hole with NULs. *)
Definition splice (d : bytes) (off : nat) (bs : bytes) : bytes :=
  take off d ++ replicate (off - length d)%nat 0 ++ bs
    ++ drop (off + length bs)%nat d.

Definition sys_write (f : ofile) (bs : bytes) : Z * ofile :=
  if f_wr f then
    let n := Z.min (Z.of_nat (length bs)) (Z.max 0 (f_lim f - f_pos f)) in
    if (n =? 0) && negb (bool_decide (bs = [])) then (-1, f)
    else
      let bs' := take (Z.to_nat n) bs in
      (n, mkFile (splice (f_data f) (Z.to_nat (f_pos f)) bs')
            (f_pos f + n) (f_rd f) (f_wr f) (f_lim f))
  else (-1, f).

(** ** Record locks *)

Inductive lock_type := F_RDLCK | F_WRLCK | F_UNLCK.

#[export] Instance lock_type_eq_dec : EqDecision lock_type.
Proof. solve_decision. Defined.

(** fcntl with a lock request: a read lock needs a descriptor open for
    reading, a write lock one open for writing. *)
Definition fcntl_lock (f : ofile) (t : lock_type) : Z :=
  match t with
  | F_RDLCK => if f_rd f then 0 else -1
  | F_WRLCK => if f_wr f then 0 else -1
  | F_UNLCK => 0
  end.

(** Whether a lock request on [len] bytes from [off] (to the end of the file
    when [len] is 0) covers byte [b]. *)
Definition covers (off len b : Z) : bool :=
  (off <=? b) && ((len =? 0) || (b <? off + len)).

(** ** Lemmas on [slice] and [splice] *)

Lemma length_slice d off n : length (slice d off n) = (n `min` (length d - off))%nat.
Proof. unfold slice. rewrite length_take, length_drop. lia. Qed.

Lemma length_splice d off bs :
  length (splice d off bs) = Nat.max (length d) (off + length bs).
Proof. unfold splice. rewrite !length_app, length_take, length_drop, length_replicate. lia. Qed.

(** Bytes outside the written range keep their value. *)
Lemma lookup_splice_out d off bs i :
  (i < length d)%nat -> (i < off \/ off + length bs <= i)%nat ->
  splice d off bs !! i = d !! i.
Proof.
  intros Hi Hout. unfold splice. destruct Hout as [Hlt|Hge].
  - rewrite lookup_app_l by (rewrite length_take; lia).
    by rewrite lookup_take_lt.
  - rewrite lookup_app_r by (rewrite length_take; lia).
    rewrite length_take. rewrite lookup_app_r by (rewrite length_replicate; lia).
    rewrite length_replicate.
    rewrite lookup_app_r by lia. rewrite lookup_drop. f_equal. lia.
Qed.

(** Bytes inside the written range are the ones written. *)
Lemma lookup_splice_in d off bs i :
  (off <= i < off + length bs)%nat ->
  splice d off bs !! i = bs !! (i - off)%nat.
Proof.
  intros Hi. unfold splice.
  rewrite lookup_app_r by (rewrite length_take; lia). rewrite length_take.
  rewrite lookup_app_r by (rewrite length_replicate; lia). rewrite length_replicate.
  rewrite lookup_app_l by lia. f_equal. lia.
Qed.

Lemma lookup_slice d off n i :
  (i < n)%nat -> slice d off n !! i = d !! (off + i)%nat.
Proof. intros. unfold slice. rewrite lookup_take_lt by lia. by rewrite lookup_drop. Qed.

(** Reading a range disjoint from a write sees the old bytes. *)
Lemma slice_splice_out d off bs o n :
  (o + n <= length d)%nat -> (o + n <= off \/ off + length bs <= o)%nat ->
  slice (splice d off bs) o n = slice d o n.
Proof.
  intros Hlen Hd. apply list_eq_same_length with n.
  - rewrite length_slice. lia.
  - rewrite length_slice, length_splice. lia.
  - intros i x y Hi. rewrite !lookup_slice by done.
    rewrite lookup_splice_out by lia. congruence.
Qed.

(** Reading back exactly what was written. *)
Lemma slice_splice_in d off bs :
  slice (splice d off bs) off (length bs) = bs.
Proof.
  apply list_eq_same_length with (length bs); [done| |].
  - rewrite length_slice, length_splice. lia.
  - intros i x y Hi. rewrite lookup_slice, lookup_splice_in by lia.
    replace (off + i - off)%nat with i by lia. congruence.
Qed.

Lemma slice_app_l d e o n :
  (o + n <= length d)%nat -> slice (d ++ e) o n = slice d o n.
Proof.
  intros H. unfold slice. rewrite drop_app_le by lia.
  apply take_app_le. rewrite length_drop. lia.
Qed.

Lemma slice_middle (a b c : bytes) off n :
  off = length a -> n = length b -> slice (a ++ b ++ c) off n = b.
Proof.
  intros -> ->. unfold slice. rewrite drop_app_length. apply take_app_length.
Qed.

Lemma splice_middle (a b c bs : bytes) off :
  off = length a -> length bs = length b ->
  splice (a ++ b ++ c) off bs = a ++ bs ++ c.
Proof.
  intros -> Hlen. unfold splice. rewrite take_app_length.
  replace (length a - length (a ++ b ++ c))%nat with O
    by (rewrite length_app; lia). simpl. do 2 f_equal.
  rewrite Hlen, drop_app_ge by lia.
  replace (length a + length b - length a)%nat with (length b) by lia.
  apply drop_app_length.
Qed.

Lemma splice_end (d bs : bytes) : splice d (length d) bs = d ++ bs.
Proof.
  unfold splice. rewrite take_ge, Nat.sub_diag by lia. simpl.
  rewrite drop_ge by lia. by rewrite app_nil_r.
Qed.

Lemma slice_all (d : bytes) n : length d = n -> slice d 0 n = d.
Proof. intros <-. unfold slice. rewrite drop_0. by apply take_ge. Qed.

Lemma splice_start (d bs : bytes) : splice d 0 bs = bs ++ drop (length bs) d.
Proof. by unfold splice. Qed.

Lemma splice_mid (a r bs : bytes) : splice (a ++ r) (length a) bs = a ++ bs ++ drop (length bs) r.
Proof.
  unfold splice. rewrite take_app_length, length_app.
  replace (length a - (length a + length r))%nat with O by lia. simpl.
  rewrite drop_app_ge by lia. by replace (length a + length bs - length a)%nat with (length bs) by lia.
Qed.
