(* ===== verification/Db.v ===== *)
(** * Db: the database library of apue.2e/db/db.c, definitions.

    A database is an index file and a data file.  The index file starts with
    138 chain pointers of six ASCII characters (the free list, then 137 hash
    chains) and a newline; index records follow, each a chain pointer, a
    four-character length and the text "key:offset:length" closed by a newline.
    The data file holds the data records, each closed by a newline.

    [DB] is the C structure of the same name with the two open files in place
    of their descriptors.  Every function of db.c is a definition of the state
    and error monad [M]: it returns with a new [DB], or dies in [err_dump],
    [err_quit], [err_sys] or in undefined behaviour. *)
From S2P Require Import Prelude Libc Files.
Local Open Scope Z_scope.

(** ** Constants of db.c and apue_db.h *)

Definition IDXLEN_SZ : Z := 4.
Definition SEP : Z := 58.
Definition SPACE : Z := 32.
Definition NEWLINE : Z := 10.
Definition PTR_SZ : Z := 6.
Definition PTR_MAX : Z := 999999.
Definition NHASH_DEF : Z := 137.
Definition FREE_OFF : Z := 0.
Definition HASH_OFF : Z := PTR_SZ.

Definition DB_INSERT : Z := 1.
Definition DB_REPLACE : Z := 2.
Definition DB_STORE : Z := 3.
Definition IDXLEN_MIN : Z := 6.
Definition IDXLEN_MAX : Z := 1024.
Definition DATLEN_MIN : Z := 2.
Definition DATLEN_MAX : Z := 1024.

Definition EINVAL : Z := 22.
Definition ENOENT : Z := 2.

(** ** State *)

Inductive fdname := IDX | DAT.

#[export] Instance fdname_eq_dec : EqDecision fdname.
Proof. solve_decision. Defined.

(** What a handle does to its files besides reading them. *)
Inductive event :=
  | EvLock (t : lock_type) (fd : fdname) (off len : Z)
  | EvWrite (fd : fdname) (off len : Z).

(** The COUNT members of the structure (unsigned long counters). *)
Record counts := mkCounts {
  cnt_delok : Z; cnt_delerr : Z; cnt_fetchok : Z; cnt_fetcherr : Z;
  cnt_nextrec : Z; cnt_stor1 : Z; cnt_stor2 : Z; cnt_stor3 : Z;
  cnt_stor4 : Z; cnt_storerr : Z
}.

Inductive counter :=
  | DelOk | DelErr | FetchOk | FetchErr | NextRec
  | Stor1 | Stor2 | Stor3 | Stor4 | StorErr.

(** [db->cnt_x++]. *)
Definition bump (c : counter) (k : counts) : counts :=
  let inc (b : bool) (z : Z) := if b then wrap_u 64 (z + 1) else z in
  let hit (c' : counter) :=
    match c, c' with
    | DelOk, DelOk | DelErr, DelErr | FetchOk, FetchOk | FetchErr, FetchErr
    | NextRec, NextRec | Stor1, Stor1 | Stor2, Stor2 | Stor3, Stor3
    | Stor4, Stor4 | StorErr, StorErr => true
    | _, _ => false
    end in
  {| cnt_delok := inc (hit DelOk) (cnt_delok k);
     cnt_delerr := inc (hit DelErr) (cnt_delerr k);
     cnt_fetchok := inc (hit FetchOk) (cnt_fetchok k);
     cnt_fetcherr := inc (hit FetchErr) (cnt_fetcherr k);
     cnt_nextrec := inc (hit NextRec) (cnt_nextrec k);
     cnt_stor1 := inc (hit Stor1) (cnt_stor1 k);
     cnt_stor2 := inc (hit Stor2) (cnt_stor2 k);
     cnt_stor3 := inc (hit Stor3) (cnt_stor3 k);
     cnt_stor4 := inc (hit Stor4) (cnt_stor4 k);
     cnt_storerr := inc (hit StorErr) (cnt_storerr k) |}.

(** [DB], the library's private representation of the database. *)
Record DB := mkDB {
  idxfd : ofile;  (* open index file *)
  datfd : ofile;  (* open data file *)
  idxbuf : bytes;  (* buffer for an index record, IDXLEN_MAX + 2 bytes *)
  datbuf : bytes;  (* buffer for a data record, DATLEN_MAX + 2 bytes *)
  name : bytes;  (* name the database was opened under *)
  idxoff : Z;  (* offset of the index record *)
  idxlen : Z;  (* length of the index record (size_t) *)
  datoff : Z;  (* offset of the data record *)
  datlen : Z;  (* length of the data record with its newline (size_t) *)
  ptrval : Z;  (* chain ptr of the index record *)
  ptroff : Z;  (* offset of the chain ptr pointing to this record *)
  chainoff : Z;  (* offset of the hash chain of this record *)
  hashoff : Z;  (* offset of the hash table *)
  nhash : Z;  (* hash table size *)
  cnt : counts;  (* operation counters *)
  errno : Z;  (* the C global errno *)
  trace : list event  (* lock requests and writes issued, newest first *)
}.

(** Assignments to the members. *)
Definition set_idxfd (v : ofile) (db : DB) : DB :=
  mkDB v (datfd db) (idxbuf db) (datbuf db) (name db) (idxoff db) (idxlen db) (datoff db) (datlen db) (ptrval db) (ptroff db) (chainoff db) (hashoff db) (nhash db) (cnt db) (errno db) (trace db).
Definition set_datfd (v : ofile) (db : DB) : DB :=
  mkDB (idxfd db) v (idxbuf db) (datbuf db) (name db) (idxoff db) (idxlen db) (datoff db) (datlen db) (ptrval db) (ptroff db) (chainoff db) (hashoff db) (nhash db) (cnt db) (errno db) (trace db).
Definition set_idxbuf (v : bytes) (db : DB) : DB :=
  mkDB (idxfd db) (datfd db) v (datbuf db) (name db) (idxoff db) (idxlen db) (datoff db) (datlen db) (ptrval db) (ptroff db) (chainoff db) (hashoff db) (nhash db) (cnt db) (errno db) (trace db).
Definition set_datbuf (v : bytes) (db : DB) : DB :=
  mkDB (idxfd db) (datfd db) (idxbuf db) v (name db) (idxoff db) (idxlen db) (datoff db) (datlen db) (ptrval db) (ptroff db) (chainoff db) (hashoff db) (nhash db) (cnt db) (errno db) (trace db).
Definition set_idxoff (v : Z) (db : DB) : DB :=
  mkDB (idxfd db) (datfd db) (idxbuf db) (datbuf db) (name db) v (idxlen db) (datoff db) (datlen db) (ptrval db) (ptroff db) (chainoff db) (hashoff db) (nhash db) (cnt db) (errno db) (trace db).
Definition set_idxlen (v : Z) (db : DB) : DB :=
  mkDB (idxfd db) (datfd db) (idxbuf db) (datbuf db) (name db) (idxoff db) v (datoff db) (datlen db) (ptrval db) (ptroff db) (chainoff db) (hashoff db) (nhash db) (cnt db) (errno db) (trace db).
Definition set_datoff (v : Z) (db : DB) : DB :=
  mkDB (idxfd db) (datfd db) (idxbuf db) (datbuf db) (name db) (idxoff db) (idxlen db) v (datlen db) (ptrval db) (ptroff db) (chainoff db) (hashoff db) (nhash db) (cnt db) (errno db) (trace db).
Definition set_datlen (v : Z) (db : DB) : DB :=
  mkDB (idxfd db) (datfd db) (idxbuf db) (datbuf db) (name db) (idxoff db) (idxlen db) (datoff db) v (ptrval db) (ptroff db) (chainoff db) (hashoff db) (nhash db) (cnt db) (errno db) (trace db).
Definition set_ptrval (v : Z) (db : DB) : DB :=
  mkDB (idxfd db) (datfd db) (idxbuf db) (datbuf db) (name db) (idxoff db) (idxlen db) (datoff db) (datlen db) v (ptroff db) (chainoff db) (hashoff db) (nhash db) (cnt db) (errno db) (trace db).
Definition set_ptroff (v : Z) (db : DB) : DB :=
  mkDB (idxfd db) (datfd db) (idxbuf db) (datbuf db) (name db) (idxoff db) (idxlen db) (datoff db) (datlen db) (ptrval db) v (chainoff db) (hashoff db) (nhash db) (cnt db) (errno db) (trace db).
Definition set_chainoff (v : Z) (db : DB) : DB :=
  mkDB (idxfd db) (datfd db) (idxbuf db) (datbuf db) (name db) (idxoff db) (idxlen db) (datoff db) (datlen db) (ptrval db) (ptroff db) v (hashoff db) (nhash db) (cnt db) (errno db) (trace db).
Definition set_cnt (v : counts) (db : DB) : DB :=
  mkDB (idxfd db) (datfd db) (idxbuf db) (datbuf db) (name db) (idxoff db) (idxlen db) (datoff db) (datlen db) (ptrval db) (ptroff db) (chainoff db) (hashoff db) (nhash db) v (errno db) (trace db).
Definition set_errno (v : Z) (db : DB) : DB :=
  mkDB (idxfd db) (datfd db) (idxbuf db) (datbuf db) (name db) (idxoff db) (idxlen db) (datoff db) (datlen db) (ptrval db) (ptroff db) (chainoff db) (hashoff db) (nhash db) (cnt db) v (trace db).
Definition set_trace (v : list event) (db : DB) : DB :=
  mkDB (idxfd db) (datfd db) (idxbuf db) (datbuf db) (name db) (idxoff db) (idxlen db) (datoff db) (datlen db) (ptrval db) (ptroff db) (chainoff db) (hashoff db) (nhash db) (cnt db) (errno db) v.

(** ** The monad *)

Inductive fatal :=
  | ErrDump (msg : string)    (* err_dump: message and abort() *)
  | ErrQuit (msg : string)    (* err_quit: message and exit(1) *)
  | ErrSys (msg : string)     (* err_sys: message and exit(1) *)
  | Undefined (msg : string). (* the C program has no defined behaviour *)

Inductive result (A : Type) :=
  | Ok (a : A) (db : DB)
  | Fatal (e : fatal) (db : DB)
  | NoFuel.
Arguments Ok {A} a db.
Arguments Fatal {A} e db.
Arguments NoFuel {A}.

Definition M (A : Type) : Type := DB -> result A.

#[export] Instance M_ret : MRet M := fun A a db => Ok a db.
#[export] Instance M_bind : MBind M := fun A B k m db =>
  match m db with
  | Ok a db' => k a db'
  | Fatal e db' => Fatal e db'
  | NoFuel => NoFuel
  end.

Definition get : M DB := fun db => Ok db db.
Definition modify (f : DB -> DB) : M unit := fun db => Ok tt (f db).
Definition die {A} (e : fatal) : M A := fun db => Fatal e db.
Definition err_dump {A} (msg : string) : M A := die (ErrDump msg).
Definition err_quit {A} (msg : string) : M A := die (ErrQuit msg).
Definition err_sys {A} (msg : string) : M A := die (ErrSys msg).
Definition undefined {A} (msg : string) : M A := die (Undefined msg).
Definition nofuel {A} : M A := fun _ => NoFuel.

(** [if (cond) err_dump(msg);] *)
Definition dump_if (b : bool) (msg : string) : M unit :=
  if b then err_dump msg else mret tt.

(** ** System calls on the two descriptors *)

Definition the_file (fd : fdname) (db : DB) : ofile :=
  match fd with IDX => idxfd db | DAT => datfd db end.
Definition set_file (fd : fdname) (f : ofile) (db : DB) : DB :=
  match fd with IDX => set_idxfd f db | DAT => set_datfd f db end.
Definition log_event (e : event) (db : DB) : DB := set_trace (e :: trace db) db.

Definition lseek (fd : fdname) (off : Z) (w : whence) : M Z := fun db =>
  let '(r, f) := sys_lseek (the_file fd db) off w in Ok r (set_file fd f db).

Definition read (fd : fdname) (n : Z) : M (Z * bytes) := fun db =>
  let '(r, bs, f) := sys_read (the_file fd db) n in
  Ok (r, bs) (set_file fd f db).

Definition write (fd : fdname) (bs : bytes) : M Z := fun db =>
  let '(r, f) := sys_write (the_file fd db) bs in
  Ok r (log_event (EvWrite fd (f_pos (the_file fd db)) r) (set_file fd f db)).

(** [lock_reg] of lib/lockreg.c, under its macros readw_lock, writew_lock and
    un_lock; every caller passes SEEK_SET. *)
Definition lock_reg (fd : fdname) (t : lock_type) (off len : Z) : M Z := fun db =>
  Ok (fcntl_lock (the_file fd db) t) (log_event (EvLock t fd off len) db).
Definition readw_lock fd off len := lock_reg fd F_RDLCK off len.
Definition writew_lock fd off len := lock_reg fd F_WRLCK off len.
Definition un_lock fd off len := lock_reg fd F_UNLCK off len.

(** ** Internal functions *)

(** A [char] of the string, sign-extended as on the platforms where plain
    [char] is signed. *)
Definition schar (c : Z) : Z := wrap_s 8 c.

Fixpoint hash_loop (hval i : Z) (key : bytes) : Z :=
  match key with
  | [] => hval
  | c :: key' => hash_loop (wrap_u 64 (hval + schar c * i)) (i + 1) key'
  end.

(** The hash value of a key: each character times its 1-based index. *)
Definition _db_hash (db : DB) (key : bytes) : Z := hash_loop 0 1 key mod nhash db.

(** Read a chain pointer: the free list's, a hash chain's or a record's. *)
Definition _db_readptr (offset : Z) : M Z :=
  r ← lseek IDX offset SEEK_SET;
  dump_if (r =? -1) "_db_readptr: lseek error to ptr field";;
  '(i, asciiptr) ← read IDX PTR_SZ;
  dump_if (negb (i =? PTR_SZ)) "_db_readptr: read error of ptr field";;
  mret (atol asciiptr).

(** Store a byte in the index buffer. *)
Definition poke_idxbuf (i : nat) (c : Z) (db : DB) : DB :=
  set_idxbuf (<[i := c]> (idxbuf db)) db.

(** Parsing of an index record once it is in [idxbuf], its newline replaced:
    the two separators become NULs, [datoff] and [datlen] are set. *)
Definition readidx_parse : M Z :=
  db ← get;
  match strchr (cstring (idxbuf db)) SEP with
  | None => err_dump "_db_readidx: missing first separator"
  | Some p1 =>
    modify (poke_idxbuf p1 0);;
    db ← get;
    match strchr (cstring (drop (p1 + 1) (idxbuf db))) SEP with
    | None => err_dump "_db_readidx: missing second separator"
    | Some q =>
      let p2 := (p1 + 1 + q)%nat in
      modify (poke_idxbuf p2 0);;
      db ← get;
      match strchr (cstring (drop (p2 + 1) (idxbuf db))) SEP with
      | Some _ => err_dump "_db_readidx: too many separators"
      | None =>
        let off := atol (cstring (drop (p1 + 1) (idxbuf db))) in
        modify (set_datoff off);;
        dump_if (off <? 0) "_db_readidx: starting offset < 0";;
        let dlen := wrap_u 64 (atol (cstring (drop (p2 + 1) (idxbuf db)))) in
        modify (set_datlen dlen);;
        dump_if ((dlen <=? 0) || (DATLEN_MAX <? dlen)) "_db_readidx: invalid length";;
        db ← get;
        mret (ptrval db)
      end
    end
  end.

(** Read the index record at [offset], or at the current offset when it is 0. *)
Definition _db_readidx (offset : Z) : M Z :=
  r ← lseek IDX offset (if offset =? 0 then SEEK_CUR else SEEK_SET);
  modify (set_idxoff r);;
  dump_if (r =? -1) "_db_readidx: lseek error";;
  '(i, iov) ← read IDX (PTR_SZ + IDXLEN_SZ);
  if negb (i =? PTR_SZ + IDXLEN_SZ) then
    if (i =? 0) && (offset =? 0) then mret (-1)
    else err_dump "_db_readidx: readv error of index record"
  else
    modify (set_ptrval (atol (take (Z.to_nat PTR_SZ) iov)));;
    let ilen := wrap_u 64 (atoi (drop (Z.to_nat PTR_SZ) iov)) in
    modify (set_idxlen ilen);;
    dump_if ((ilen <? IDXLEN_MIN) || (IDXLEN_MAX <? ilen)) "_db_readidx: invalid length";;
    '(i, rec) ← read IDX ilen;
    modify (fun db => set_idxbuf (splice (idxbuf db) 0 rec) db);;
    dump_if (negb (i =? ilen)) "_db_readidx: read error of index record";;
    db ← get;
    dump_if (negb (bool_decide (idxbuf db !! Z.to_nat (ilen - 1) = Some NEWLINE)))
      "_db_readidx: missing newline";;
    modify (poke_idxbuf (Z.to_nat (ilen - 1)) 0);;
    readidx_parse.

(** Read the current data record into [datbuf]; the result is the string. *)
Definition _db_readdat : M bytes :=
  db ← get;
  r ← lseek DAT (datoff db) SEEK_SET;
  dump_if (r =? -1) "_db_readdat: lseek error";;
  '(i, bs) ← read DAT (datlen db);
  modify (fun db => set_datbuf (splice (datbuf db) 0 bs) db);;
  dump_if (negb (i =? datlen db)) "_db_readdat: read error";;
  db ← get;
  dump_if (negb (bool_decide (datbuf db !! Z.to_nat (datlen db - 1) = Some NEWLINE)))
    "_db_readdat: missing newline";;
  modify (fun db => set_datbuf (<[Z.to_nat (datlen db - 1) := 0]> (datbuf db)) db);;
  db ← get;
  mret (cstring (datbuf db)).

(** Walk a hash chain from [offset] until the key is found or the chain ends;
    the result is the offset of the record, 0 when there is none. *)
Fixpoint find_loop (fuel : nat) (key : bytes) (offset : Z) : M Z :=
  if offset =? 0 then mret 0
  else
    match fuel with
    | O => nofuel
    | S fuel' =>
      nextoffset ← _db_readidx offset;
      db ← get;
      if bool_decide (cstring (idxbuf db) = key) then mret offset
      else
        modify (set_ptroff offset);;
        find_loop fuel' key nextoffset
    end.

(** Enough for any acyclic chain: each record takes at least one byte. *)
Definition chain_fuel (db : DB) : nat := S (length (f_data (idxfd db))).

Definition _db_find_and_lock (key : bytes) (writelock : bool) : M Z :=
  db ← get;
  let off := _db_hash db key * PTR_SZ + hashoff db in
  modify (set_chainoff off);;
  modify (set_ptroff off);;
  (if writelock then
     r ← writew_lock IDX off 1;
     dump_if (r <? 0) "_db_find_and_lock: writew_lock error"
   else
     r ← readw_lock IDX off 1;
     dump_if (r <? 0) "_db_find_and_lock: readw_lock error");;
  offset ← _db_readptr off;
  offset ← find_loop (chain_fuel db) key offset;
  mret (if offset =? 0 then -1 else 0).

(** Write a data record at [offset] relative to [w]. *)
Definition _db_writedat (data : bytes) (offset : Z) (w : whence) : M unit :=
  (if decide (w = SEEK_END) then
     r ← writew_lock DAT 0 0;
     dump_if (r <? 0) "_db_writedat: writew_lock error"
   else mret tt);;
  r ← lseek DAT offset w;
  modify (set_datoff r);;
  dump_if (r =? -1) "_db_writedat: lseek error";;
  let dlen := Z.of_nat (length data) + 1 in
  modify (set_datlen dlen);;
  n ← write DAT (data ++ [NEWLINE]);
  dump_if (negb (n =? dlen)) "_db_writedat: writev error of data record";;
  if decide (w = SEEK_END) then
    r ← un_lock DAT 0 0;
    dump_if (r <? 0) "_db_writedat: un_lock error"
  else mret tt.

(** The text of an index record: what sprintf leaves in [idxbuf]. *)
Definition idx_text (key : bytes) (doff dlen : Z) : bytes :=
  key ++ [SEP] ++ fmt_ld doff ++ [SEP] ++ fmt_ld (wrap_s 32 dlen) ++ [NEWLINE].

(** Write an index record at [offset] relative to [w]. *)
Definition _db_writeidx (key : bytes) (offset : Z) (w : whence) (ptr : Z) : M unit :=
  modify (set_ptrval ptr);;
  (if (ptr <? 0) || (PTR_MAX <? ptr) then err_quit "_db_writeidx: invalid ptr" else mret tt);;
  db ← get;
  let text := idx_text key (datoff db) (datlen db) in
  (if (length (idxbuf db) <? length text + 1)%nat
   then undefined "_db_writeidx: sprintf past the end of idxbuf" else mret tt);;
  modify (fun db => set_idxbuf (splice (idxbuf db) 0 (text ++ [0])) db);;
  let len := Z.of_nat (length text) in
  dump_if ((len <? IDXLEN_MIN) || (IDXLEN_MAX <? len)) "_db_writeidx: invalid length";;
  let asciiptrlen := fmt_width (Z.to_nat PTR_SZ) (fmt_ld ptr)
                     ++ fmt_width (Z.to_nat IDXLEN_SZ) (fmt_ld len) in
  (if decide (w = SEEK_END) then
     r ← writew_lock IDX ((nhash db + 1) * PTR_SZ + 1) 0;
     dump_if (r <? 0) "_db_writeidx: writew_lock error"
   else mret tt);;
  r ← lseek IDX offset w;
  modify (set_idxoff r);;
  dump_if (r =? -1) "_db_writeidx: lseek error";;
  n ← write IDX (take (Z.to_nat (PTR_SZ + IDXLEN_SZ)) asciiptrlen ++ text);
  dump_if (negb (n =? PTR_SZ + IDXLEN_SZ + len)) "_db_writeidx: writev error of index record";;
  if decide (w = SEEK_END) then
    r ← un_lock IDX ((nhash db + 1) * PTR_SZ + 1) 0;
    dump_if (r <? 0) "_db_writeidx: un_lock error"
  else mret tt.

(** Write a chain pointer. *)
Definition _db_writeptr (offset ptr : Z) : M unit :=
  (if (ptr <? 0) || (PTR_MAX <? ptr) then err_quit "_db_writeptr: invalid ptr" else mret tt);;
  r ← lseek IDX offset SEEK_SET;
  dump_if (r =? -1) "_db_writeptr: lseek error to ptr field";;
  n ← write IDX (take (Z.to_nat PTR_SZ) (fmt_width (Z.to_nat PTR_SZ) (fmt_ld ptr)));
  dump_if (negb (n =? PTR_SZ)) "_db_writeptr: write error of ptr field".

(** Blank the buffers: [datlen - 1] spaces and a NUL in [datbuf], every
    character of the key in [idxbuf] a space. *)
Definition blank_buffers (db : DB) : DB :=
  let n := Z.to_nat (datlen db - 1) in
  let k := length (cstring (idxbuf db)) in
  set_idxbuf (splice (idxbuf db) 0 (replicate k SPACE))
    (set_datbuf (splice (datbuf db) 0 (replicate n SPACE ++ [0])) db).

(** Delete the current record, found by [_db_find_and_lock]. *)
Definition _db_dodelete : M unit :=
  modify blank_buffers;;
  r ← writew_lock IDX FREE_OFF 1;
  dump_if (r <? 0) "_db_dodelete: writew_lock error";;
  db ← get;
  _db_writedat (cstring (datbuf db)) (datoff db) SEEK_SET;;
  freeptr ← _db_readptr FREE_OFF;
  db ← get;
  let saveptr := ptrval db in
  _db_writeidx (cstring (idxbuf db)) (idxoff db) SEEK_SET freeptr;;
  db ← get;
  _db_writeptr FREE_OFF (idxoff db);;
  db ← get;
  _db_writeptr (ptroff db) saveptr;;
  r ← un_lock IDX FREE_OFF 1;
  dump_if (r <? 0) "_db_dodelete: un_lock error".

(** Walk the free list from [offset] for a record of the given sizes; the
    result is the offset that holds the pointer to it and its offset. *)
Fixpoint findfree_loop (fuel : nat) (keylen dlen saveoffset offset : Z) : M (Z * Z) :=
  if offset =? 0 then mret (saveoffset, 0)
  else
    match fuel with
    | O => nofuel
    | S fuel' =>
      nextoffset ← _db_readidx offset;
      db ← get;
      if (Z.of_nat (length (cstring (idxbuf db))) =? keylen) && (datlen db =? dlen)
      then mret (saveoffset, offset)
      else findfree_loop fuel' keylen dlen offset nextoffset
    end.

Definition _db_findfree (keylen dlen : Z) : M Z :=
  r ← writew_lock IDX FREE_OFF 1;
  dump_if (r <? 0) "_db_findfree: writew_lock error";;
  offset ← _db_readptr FREE_OFF;
  db ← get;
  '(saveoffset, offset) ← findfree_loop (chain_fuel db) keylen dlen FREE_OFF offset;
  rc ← (if offset =? 0 then mret (-1)
        else
          db ← get;
          _db_writeptr saveoffset (ptrval db);;
          mret 0);
  r ← un_lock IDX FREE_OFF 1;
  dump_if (r <? 0) "_db_findfree: un_lock error";;
  mret rc.

(** ** The library's interface *)

(** [db_fetch]: the data of the record, [None] for a null pointer. *)
Definition db_fetch (key : bytes) : M (option bytes) :=
  rc ← _db_find_and_lock key false;
  ptr ← (if rc <? 0 then
           modify (fun db => set_cnt (bump FetchErr (cnt db)) db);; mret None
         else
           d ← _db_readdat;
           modify (fun db => set_cnt (bump FetchOk (cnt db)) db);; mret (Some d));
  db ← get;
  r ← un_lock IDX (chainoff db) 1;
  dump_if (r <? 0) "db_fetch: un_lock error";;
  mret ptr.

Definition db_delete (key : bytes) : M Z :=
  found ← _db_find_and_lock key true;
  rc ← (if found =? 0 then
          _db_dodelete;;
          modify (fun db => set_cnt (bump DelOk (cnt db)) db);; mret 0
        else
          modify (fun db => set_cnt (bump DelErr (cnt db)) db);; mret (-1));
  db ← get;
  r ← un_lock IDX (chainoff db) 1;
  dump_if (r <? 0) "db_delete: un_lock error";;
  mret rc.

(** The branch of [db_store] where the key is not in the database. *)
Definition store_new (key data : bytes) (flag keylen dlen : Z) : M Z :=
  if flag =? DB_REPLACE then
    modify (fun db => set_cnt (bump StorErr (cnt db)) db);;
    modify (set_errno ENOENT);;
    mret (-1)
  else
    db ← get;
    ptr ← _db_readptr (chainoff db);
    free ← _db_findfree keylen dlen;
    if free <? 0 then
      _db_writedat data 0 SEEK_END;;
      _db_writeidx key 0 SEEK_END ptr;;
      db ← get;
      _db_writeptr (chainoff db) (idxoff db);;
      modify (fun db => set_cnt (bump Stor1 (cnt db)) db);;
      mret 0
    else
      db ← get;
      _db_writedat data (datoff db) SEEK_SET;;
      db ← get;
      _db_writeidx key (idxoff db) SEEK_SET ptr;;
      db ← get;
      _db_writeptr (chainoff db) (idxoff db);;
      modify (fun db => set_cnt (bump Stor2 (cnt db)) db);;
      mret 0.

(** The branch of [db_store] where the key is in the database. *)
Definition store_existing (key data : bytes) (flag dlen : Z) : M Z :=
  if flag =? DB_INSERT then
    modify (fun db => set_cnt (bump StorErr (cnt db)) db);;
    mret 1
  else
    db ← get;
    if negb (dlen =? datlen db) then
      _db_dodelete;;
      db ← get;
      ptr ← _db_readptr (chainoff db);
      _db_writedat data 0 SEEK_END;;
      _db_writeidx key 0 SEEK_END ptr;;
      db ← get;
      _db_writeptr (chainoff db) (idxoff db);;
      modify (fun db => set_cnt (bump Stor3 (cnt db)) db);;
      mret 0
    else
      _db_writedat data (datoff db) SEEK_SET;;
      modify (fun db => set_cnt (bump Stor4 (cnt db)) db);;
      mret 0.

(** [db_store]: 0 if OK, 1 if the record exists and DB_INSERT was specified,
    -1 on error. *)
Definition db_store (key data : bytes) (flag : Z) : M Z :=
  if negb (flag =? DB_INSERT) && negb (flag =? DB_REPLACE) && negb (flag =? DB_STORE)
  then modify (set_errno EINVAL);; mret (-1)
  else
    let keylen := Z.of_nat (length key) in
    let dlen := Z.of_nat (length data) + 1 in
    dump_if ((dlen <? DATLEN_MIN) || (DATLEN_MAX <? dlen)) "db_store: invalid data length";;
    found ← _db_find_and_lock key true;
    rc ← (if found <? 0 then store_new key data flag keylen dlen
          else store_existing key data flag dlen);
    db ← get;
    r ← un_lock IDX (chainoff db) 1;
    dump_if (r <? 0) "db_store: un_lock error";;
    mret rc.

Definition db_rewind : M unit :=
  db ← get;
  let offset := (nhash db + 1) * PTR_SZ in
  r ← lseek IDX (offset + 1) SEEK_SET;
  modify (set_idxoff r);;
  dump_if (r =? -1) "db_rewind: lseek error".

(** The scan of a key for a character other than a blank: the key of a
    deleted record is all blanks. *)
Definition all_blank (key : bytes) : bool := forallb (fun c => c =? SPACE) key.

(** Step through the index file to the next record with a nonblank key;
    [false] at the end of the file. *)
Fixpoint nextrec_loop (fuel : nat) : M bool :=
  match fuel with
  | O => nofuel
  | S fuel' =>
    r ← _db_readidx 0;
    if r <? 0 then mret false
    else
      db ← get;
      if all_blank (cstring (idxbuf db)) then nextrec_loop fuel' else mret true
  end.

(** [db_nextrec]: the next key and its data, [None] at the end. *)
Definition db_nextrec : M (option (bytes * bytes)) :=
  r ← readw_lock IDX FREE_OFF 1;
  dump_if (r <? 0) "db_nextrec: readw_lock error";;
  db ← get;
  found ← nextrec_loop (chain_fuel db);
  res ← (if (found : bool) then
           db ← get;
           let key := cstring (idxbuf db) in
           d ← _db_readdat;
           modify (fun db => set_cnt (bump NextRec (cnt db)) db);;
           mret (Some (key, d))
         else mret None);
  r ← un_lock IDX FREE_OFF 1;
  dump_if (r <? 0) "db_nextrec: un_lock error";;
  mret res.

(** ** Opening and closing *)

Definition O_ACCMODE : Z := 3.
Definition O_RDONLY : Z := 0.
Definition O_WRONLY : Z := 1.
Definition O_RDWR : Z := 2.
Definition O_CREAT : Z := 64.
Definition O_EXCL : Z := 128.
Definition O_TRUNC : Z := 512.

Definition has_flags (oflag f : Z) : bool := Z.land oflag f =? f.

(** open(2) on a path whose present contents are [old] ([None] when the file
    does not exist): the flags used with this library. *)
Definition sys_open (old : option bytes) (oflag lim : Z) : option ofile :=
  let acc := Z.land oflag O_ACCMODE in
  let rd := negb (acc =? O_WRONLY) in
  let wr := negb (acc =? O_RDONLY) in
  match old with
  | None => if has_flags oflag O_CREAT then Some (mkFile [] 0 rd wr lim) else None
  | Some d =>
    if has_flags oflag (Z.lor O_CREAT O_EXCL) then None
    else Some (mkFile (if has_flags oflag O_TRUNC then [] else d) 0 rd wr lim)
  end.

Definition zero_counts : counts := mkCounts 0 0 0 0 0 0 0 0 0 0.

(** [_db_alloc]: calloc zeroes the structure; the buffers come from malloc, so
    their contents [ibuf] and [dbuf] are arbitrary.  The two files stand for
    the descriptors that [db_open] stores next. *)
Definition _db_alloc (ibuf dbuf nm : bytes) (fi fd : ofile) : DB :=
  mkDB fi fd ibuf dbuf nm 0 0 0 0 0 0 0 HASH_OFF NHASH_DEF zero_counts 0 [].

(** The image of an empty index file: NHASH_DEF + 1 null chain pointers and a
    newline. *)
Definition empty_index : bytes :=
  concat (replicate (Z.to_nat (NHASH_DEF + 1)) (fmt_width (Z.to_nat PTR_SZ) (fmt_ld 0)))
  ++ [NEWLINE].

(** Initialisation of a database that is being created. *)
Definition db_open_init : M unit :=
  r ← writew_lock IDX 0 0;
  dump_if (r <? 0) "db_open: writew_lock error";;
  db ← get;
  (if f_size (idxfd db) =? 0 then
     n ← write IDX empty_index;
     dump_if (negb (n =? Z.of_nat (length empty_index))) "db_open: index file init write error"
   else mret tt);;
  r ← un_lock IDX 0 0;
  dump_if (r <? 0) "db_open: un_lock error".

(** What [db_open] returns: a handle, built by the run [r], or a null pointer,
    the files then being as the two calls of open(2) left them. *)
Inductive opened :=
  | Opened (r : result unit)
  | OpenFailed (idx dat : option bytes).

(** The contents of a path after an attempt to open it. *)
Definition after_open (old : option bytes) (f : option ofile) : option bytes :=
  match f with Some f => Some (f_data f) | None => old end.

(** [db_open] on files whose present contents are [idx] and [dat]. *)
Definition db_open (ibuf dbuf pathname : bytes) (oflag lim : Z) (idx dat : option bytes) : opened :=
  match sys_open idx oflag lim, sys_open dat oflag lim with
  | Some fi, Some fd =>
    Opened
      (((if has_flags oflag (Z.lor O_CREAT O_TRUNC) then db_open_init else mret tt);;
        db_rewind)
       (_db_alloc ibuf dbuf (pathname ++ str ".dat") fi fd))
  | fi, fd => OpenFailed (after_open idx fi) (after_open dat fd)
  end.

(** [db_close]: the handle is gone, what remains is the contents of the files. *)
Definition db_close (db : DB) : bytes * bytes := (f_data (idxfd db), f_data (datfd db)).
