(* ===== verification/DbFormat.v ===== *)
(** * DbFormat: the index file as a list of entries, and the parsing of one.

    An [entry] is what an index record says together with the data record it
    refers to.  [enc_index hdr es] is the image of the index file with chain
    pointers [hdr] and records [es]; the lemmas relate reads and writes at byte
    offsets of that image to lookups and updates of [hdr] and [es]. *)
From S2P Require Import Prelude Libc Files Db.
Local Open Scope Z_scope.

Record entry := mkEntry {
  e_ptr  : Z;       (* chain pointer *)
  e_key  : bytes;   (* key, all blanks when the record is free *)
  e_off  : Z;       (* offset of the data record *)
  e_data : bytes    (* data without its newline *)
}.

Definition e_dlen (e : entry) : Z := Z.of_nat (length (e_data e)) + 1.
Definition e_text (e : entry) : bytes := idx_text (e_key e) (e_off e) (e_dlen e).
Definition set_ptr (p : Z) (e : entry) : entry := mkEntry p (e_key e) (e_off e) (e_data e).

Definition enc_ptr (p : Z) : bytes := fmt_width (Z.to_nat PTR_SZ) (fmt_ld p).
Definition enc_entry (e : entry) : bytes :=
  enc_ptr (e_ptr e)
  ++ fmt_width (Z.to_nat IDXLEN_SZ) (fmt_ld (Z.of_nat (length (e_text e))))
  ++ e_text e.
Definition enc_index (hdr : list Z) (es : list entry) : bytes :=
  concat (map enc_ptr hdr) ++ [NEWLINE] ++ concat (map enc_entry es).

Definition ptr_ok (p : Z) : Prop := 0 <= p <= PTR_MAX.

(** A key the format can hold: a C string without the separator. *)
Definition key_ok (k : bytes) : Prop := Forall (fun c => c <> 0 /\ c <> SEP) k.
Definition data_ok (d : bytes) : Prop :=
  Forall (fun c => c <> 0) d /\ DATLEN_MIN <= Z.of_nat (length d) + 1 <= DATLEN_MAX.

Record entry_ok (e : entry) : Prop := {
  eo_ptr : ptr_ok (e_ptr e);
  eo_key : key_ok (e_key e);
  eo_off : 0 <= e_off e <= LONG_MAX;
  eo_data : data_ok (e_data e);
  eo_len : IDXLEN_MIN <= Z.of_nat (length (e_text e)) <= IDXLEN_MAX
}.

(** Offset of the [i]-th index record. *)
Definition eoff (es : list entry) (i : nat) : Z :=
  829 + Z.of_nat (length (concat (map enc_entry (take i es)))).

(** ** Lengths *)

Lemma fmt_ld_nonneg n : 0 <= n -> fmt_ld n = dec_u n.
Proof. intros H. unfold fmt_ld. destruct (Z.ltb_spec n 0); [lia|done]. Qed.

Lemma length_fmt_width k n :
  (1 <= k)%nat -> 0 <= n < 10 ^ Z.of_nat k -> length (fmt_width k (fmt_ld n)) = k.
Proof.
  intros Hk Hn. rewrite fmt_ld_nonneg by lia. unfold fmt_width.
  pose proof (dec_u_length n k Hk Hn). rewrite length_app, length_replicate. lia.
Qed.

Lemma atol_fmt_width k n : 0 <= n <= LONG_MAX -> atol (fmt_width k (fmt_ld n)) = n.
Proof.
  intros Hn. rewrite fmt_ld_nonneg by lia. unfold fmt_width.
  rewrite <- (app_nil_r (dec_u n)) at 2. by apply atol_fmt.
Qed.

Lemma length_enc_ptr p : ptr_ok p -> length (enc_ptr p) = 6%nat.
Proof. intros [??]. unfold PTR_MAX in *. apply length_fmt_width; simpl; lia. Qed.

Lemma atol_enc_ptr p : ptr_ok p -> atol (enc_ptr p) = p.
Proof. intros [??]. unfold PTR_MAX in *. apply atol_fmt_width. unfold LONG_MAX. lia. Qed.

Lemma length_enc_entry e :
  entry_ok e -> length (enc_entry e) = (10 + length (e_text e))%nat.
Proof.
  intros [Hp _ _ _ Hl]. unfold IDXLEN_MIN, IDXLEN_MAX in Hl.
  unfold enc_entry. rewrite !length_app, length_enc_ptr by done.
  change (Z.to_nat IDXLEN_SZ) with 4%nat.
  rewrite length_fmt_width; change (10 ^ Z.of_nat 4) with 10000; lia.
Qed.

Lemma length_concat_enc_ptr hdr :
  Forall ptr_ok hdr -> length (concat (map enc_ptr hdr)) = (6 * length hdr)%nat.
Proof.
  induction 1 as [|p hdr Hp _ IH]; [done|]. simpl.
  rewrite length_app, IH, length_enc_ptr by done. lia.
Qed.

(** ** Decomposition of the image *)

Lemma map_concat_split {A} (f : A -> bytes) (l : list A) i x :
  l !! i = Some x ->
  concat (map f l) = concat (map f (take i l)) ++ f x ++ concat (map f (drop (S i) l)).
Proof.
  intros H. rewrite <- (take_drop_middle l i x H) at 1.
  by rewrite map_app, concat_app.
Qed.

Lemma map_concat_insert {A} (f : A -> bytes) (l : list A) i x y :
  l !! i = Some x ->
  concat (map f (<[i:=y]> l)) =
  concat (map f (take i l)) ++ f y ++ concat (map f (drop (S i) l)).
Proof.
  intros H. assert (i < length l)%nat by (by eapply lookup_lt_Some).
  rewrite (map_concat_split f (<[i:=y]> l) i y) by (by apply list_lookup_insert_eq).
  rewrite take_insert_ge by lia. by rewrite drop_insert_lt by lia.
Qed.

Lemma enc_index_hdr hdr es j p :
  hdr !! j = Some p ->
  enc_index hdr es =
  concat (map enc_ptr (take j hdr)) ++ enc_ptr p
  ++ (concat (map enc_ptr (drop (S j) hdr)) ++ [NEWLINE] ++ concat (map enc_entry es)).
Proof. intros H. unfold enc_index. rewrite (map_concat_split _ _ _ _ H). by rewrite !app_assoc. Qed.

Lemma enc_index_hdr_insert hdr es j p q :
  hdr !! j = Some p ->
  enc_index (<[j:=q]> hdr) es =
  concat (map enc_ptr (take j hdr)) ++ enc_ptr q
  ++ (concat (map enc_ptr (drop (S j) hdr)) ++ [NEWLINE] ++ concat (map enc_entry es)).
Proof. intros H. unfold enc_index. rewrite (map_concat_insert _ _ _ _ _ H). by rewrite !app_assoc. Qed.

(** Everything before the [i]-th record. *)
Definition before (hdr : list Z) (es : list entry) (i : nat) : bytes :=
  concat (map enc_ptr hdr) ++ [NEWLINE] ++ concat (map enc_entry (take i es)).
Definition after (es : list entry) (i : nat) : bytes := concat (map enc_entry (drop (S i) es)).

Lemma enc_index_entry hdr es i e :
  es !! i = Some e -> enc_index hdr es = before hdr es i ++ enc_entry e ++ after es i.
Proof.
  intros H. unfold enc_index, before, after. rewrite (map_concat_split _ _ _ _ H).
  by rewrite <- !app_assoc.
Qed.

Lemma enc_index_insert hdr es i e e' :
  es !! i = Some e ->
  enc_index hdr (<[i:=e']> es) = before hdr es i ++ enc_entry e' ++ after es i.
Proof.
  intros H. unfold enc_index, before, after. rewrite (map_concat_insert _ _ _ _ _ H).
  by rewrite <- !app_assoc.
Qed.

Lemma length_before hdr es i :
  Forall ptr_ok hdr -> length hdr = 138%nat ->
  Z.of_nat (length (before hdr es i)) = eoff es i.
Proof.
  intros Hp Hl. unfold before, eoff. rewrite !length_app, length_concat_enc_ptr by done.
  rewrite Hl. simpl length. lia.
Qed.

Lemma eoff_pos es i : 0 < eoff es i.
Proof. unfold eoff. lia. Qed.

Lemma length_enc_index hdr es :
  Forall ptr_ok hdr -> length hdr = 138%nat ->
  Z.of_nat (length (enc_index hdr es)) = eoff es (length es).
Proof.
  intros Hp Hl. rewrite <- (length_before hdr) by done.
  unfold enc_index, before. by rewrite take_ge by lia.
Qed.

Lemma eoff_succ es i e :
  es !! i = Some e -> eoff es (S i) = eoff es i + Z.of_nat (length (enc_entry e)).
Proof.
  intros H. unfold eoff. rewrite (take_S_r es i e H), map_app, concat_app, length_app.
  simpl. rewrite app_nil_r. lia.
Qed.

Lemma eoff_le es i j : (i <= j <= length es)%nat -> eoff es i <= eoff es j.
Proof.
  intros [Hij Hj]. induction Hij as [|j Hij IH]; [lia|].
  destruct (lookup_lt_is_Some_2 es j ltac:(lia)) as [e He].
  rewrite (eoff_succ _ _ _ He). lia.
Qed.

Lemma enc_entry_pos e : entry_ok e -> (16 <= length (enc_entry e))%nat.
Proof.
  intros H. rewrite length_enc_entry by done. destruct H as [_ _ _ _ Hl].
  unfold IDXLEN_MIN in Hl. lia.
Qed.

Lemma eoff_lt es i j :
  Forall entry_ok es -> (i < j <= length es)%nat -> eoff es i + 16 <= eoff es j.
Proof.
  intros Hes Hij. destruct (lookup_lt_is_Some_2 es i ltac:(lia)) as [e He].
  pose proof (eoff_le es (S i) j ltac:(lia)) as Hle. rewrite (eoff_succ _ _ _ He) in Hle.
  pose proof (enc_entry_pos e (Forall_lookup_1 _ _ _ _ Hes He)). lia.
Qed.

Lemma eoff_inj es i j :
  Forall entry_ok es -> (i < length es)%nat -> (j < length es)%nat ->
  eoff es i = eoff es j -> i = j.
Proof.
  intros Hes Hi Hj Heq. destruct (lt_eq_lt_dec i j) as [[Hlt|]|Hlt]; [|done|].
  - pose proof (eoff_lt es i j Hes ltac:(lia)). lia.
  - pose proof (eoff_lt es j i Hes ltac:(lia)). lia.
Qed.

Lemma length_es_bound hdr es :
  Forall ptr_ok hdr -> Forall entry_ok es -> (length es < length (enc_index hdr es))%nat.
Proof.
  intros Hp Hes. unfold enc_index. rewrite !length_app. simpl.
  assert (length es <= length (concat (map enc_entry es)))%nat; [|lia].
  clear Hp. induction Hes as [|e es He _ IH]; simpl; [lia|].
  rewrite length_app. pose proof (enc_entry_pos e He). lia.
Qed.

(** Updating a record without changing its size moves no other record. *)
Lemma eoff_insert es i e e' j :
  es !! i = Some e -> length (enc_entry e') = length (enc_entry e) ->
  eoff (<[i:=e']> es) j = eoff es j.
Proof.
  intros Hi Hlen. unfold eoff. do 2 f_equal.
  destruct (decide (j <= i)%nat) as [Hji|Hji].
  - by rewrite take_insert_ge by lia.
  - rewrite take_insert_lt by lia.
    assert (take j es !! i = Some e) by (rewrite lookup_take_lt by lia; done).
    rewrite (map_concat_insert _ _ _ _ e') by done.
    rewrite (map_concat_split _ (take j es) i e) by done.
    rewrite !length_app. lia.
Qed.

Lemma eoff_app es e j : (j <= length es)%nat -> eoff (es ++ [e]) j = eoff es j.
Proof. intros H. unfold eoff. by rewrite take_app_le. Qed.

(** ** Reads and writes of the image *)

Lemma index_read_hdr hdr es j p :
  Forall ptr_ok hdr -> hdr !! j = Some p ->
  slice (enc_index hdr es) (6 * j) 6 = enc_ptr p.
Proof.
  intros Hp Hj. rewrite (enc_index_hdr _ _ _ _ Hj). apply slice_middle.
  - rewrite length_concat_enc_ptr by (by apply Forall_take).
    apply lookup_lt_Some in Hj. rewrite length_take. lia.
  - by rewrite length_enc_ptr by (eapply Forall_lookup_1; eauto).
Qed.

Lemma index_write_hdr hdr es j p q :
  Forall ptr_ok hdr -> hdr !! j = Some p -> ptr_ok q ->
  splice (enc_index hdr es) (6 * j) (enc_ptr q) = enc_index (<[j:=q]> hdr) es.
Proof.
  intros Hp Hj Hq. rewrite (enc_index_hdr _ _ _ _ Hj), (enc_index_hdr_insert _ _ _ _ _ Hj).
  apply splice_middle.
  - rewrite length_concat_enc_ptr by (by apply Forall_take).
    apply lookup_lt_Some in Hj. rewrite length_take. lia.
  - rewrite !length_enc_ptr; [done|eapply Forall_lookup_1; eauto|done].
Qed.

Lemma index_write_entry hdr es i e e' :
  Forall ptr_ok hdr -> length hdr = 138%nat -> es !! i = Some e ->
  length (enc_entry e') = length (enc_entry e) ->
  splice (enc_index hdr es) (Z.to_nat (eoff es i)) (enc_entry e')
  = enc_index hdr (<[i:=e']> es).
Proof.
  intros Hp Hl Hi Hlen. rewrite (enc_index_entry _ _ _ _ Hi), (enc_index_insert _ _ _ _ _ Hi).
  apply splice_middle; [|done]. rewrite <- (length_before hdr) by done. lia.
Qed.

Lemma enc_entry_set_ptr p e :
  enc_entry (set_ptr p e) =
  enc_ptr p ++ fmt_width (Z.to_nat IDXLEN_SZ) (fmt_ld (Z.of_nat (length (e_text e)))) ++ e_text e.
Proof. done. Qed.

Lemma length_enc_entry_set_ptr p e :
  ptr_ok p -> ptr_ok (e_ptr e) -> length (enc_entry (set_ptr p e)) = length (enc_entry e).
Proof.
  intros Hp He. rewrite enc_entry_set_ptr. unfold enc_entry.
  by rewrite !length_app, !length_enc_ptr.
Qed.

Lemma index_write_ptr hdr es i e p :
  Forall ptr_ok hdr -> length hdr = 138%nat -> es !! i = Some e ->
  ptr_ok (e_ptr e) -> ptr_ok p ->
  splice (enc_index hdr es) (Z.to_nat (eoff es i)) (enc_ptr p)
  = enc_index hdr (<[i:=set_ptr p e]> es).
Proof.
  intros Hp Hl Hi He Hq. rewrite (enc_index_entry _ _ _ _ Hi), (enc_index_insert _ _ _ _ _ Hi).
  rewrite enc_entry_set_ptr. unfold enc_entry. rewrite <- !app_assoc.
  apply splice_middle.
  - rewrite <- (length_before hdr) by done. lia.
  - by rewrite !length_enc_ptr.
Qed.

Lemma index_append hdr es e :
  splice (enc_index hdr es) (length (enc_index hdr es)) (enc_entry e)
  = enc_index hdr (es ++ [e]).
Proof.
  rewrite splice_end. unfold enc_index. rewrite map_app, concat_app. simpl.
  by rewrite app_nil_r, <- !app_assoc.
Qed.
