(* ===== verification/DbWp.v ===== *)
(** * DbWp: total correctness of the primitives of db.c.

    [wp m Q db]: run from [db], [m] returns (it neither dies nor diverges) with
    a value and a handle that satisfy [Q].  The lemmas give this for each
    internal function, on an index file that is the image of entries. *)
From S2P Require Import Prelude Libc Files Db DbFormat.
Local Open Scope Z_scope.

Definition wp {A} (m : M A) (Q : A -> DB -> Prop) (db : DB) : Prop :=
  match m db with Ok a db' => Q a db' | _ => False end.

Lemma wp_ret {A} (a : A) Q db : Q a db -> wp (mret a) Q db.
Proof. done. Qed.

Lemma wp_bind {A B} (m : M A) (k : A -> M B) Q db :
  wp m (fun a db' => wp (k a) Q db') db -> wp (m ≫= k) Q db.
Proof. unfold wp, mbind, M_bind. destruct (m db); done. Qed.

Lemma wp_mono {A} (m : M A) (Q Q' : A -> DB -> Prop) db :
  wp m Q db -> (forall a db', Q a db' -> Q' a db') -> wp m Q' db.
Proof. unfold wp. destruct (m db); auto. Qed.

Lemma wp_get Q db : Q db db -> wp get Q db.
Proof. done. Qed.

Lemma wp_modify f Q db : Q tt (f db) -> wp (modify f) Q db.
Proof. done. Qed.

Lemma wp_dump_if b msg Q db : b = false -> Q tt db -> wp (dump_if b msg) Q db.
Proof. by intros ->. Qed.

Lemma wp_if_false {A} (b : bool) (m1 m2 : M A) Q db :
  b = false -> wp m2 Q db -> wp (if b then m1 else m2) Q db.
Proof. by intros ->. Qed.

Lemma wp_if_true {A} (b : bool) (m1 m2 : M A) Q db :
  b = true -> wp m1 Q db -> wp (if b then m1 else m2) Q db.
Proof. by intros ->. Qed.

Lemma wp_run {A} (m : M A) Q db : wp m Q db -> exists a db', m db = Ok a db' /\ Q a db'.
Proof. unfold wp. destruct (m db) as [a db'| |]; [eauto|done|done]. Qed.

(** Boolean side conditions of the checks the code makes. *)
Lemma eqb_neq_m1 r : 0 <= r -> (r =? -1) = false.
Proof. intros. apply Z.eqb_neq. lia. Qed.

Lemma negb_eqb_refl r : negb (r =? r) = false.
Proof. by rewrite Z.eqb_refl. Qed.

Ltac range_check :=
  apply orb_false_iff; split; apply Z.ltb_ge; lia.

(** One step through the monadic sequence. *)
Ltac wp_step :=
  lazymatch goal with
  | |- wp (mret _) _ _ => apply wp_ret
  | |- wp get _ _ => apply wp_get
  | |- wp (modify _) _ _ => apply wp_modify
  | |- wp (_ ≫= _) _ _ => apply wp_bind
  | |- wp (let '(_, _) := _ in _) _ _ => cbn beta iota
  end.
Ltac wp_steps := repeat (wp_step; cbn beta iota).

(** ** What an operation keeps *)

(** The part of a handle no internal function changes. *)
Definition frame (db : DB) :=
  (f_rd (idxfd db), f_wr (idxfd db), f_lim (idxfd db),
   f_rd (datfd db), f_wr (datfd db), f_lim (datfd db),
   (name db, hashoff db, nhash db, cnt db, errno db, chainoff db)).

(** The cursor: the record the structure presently describes. *)
Definition cursor (db : DB) := (idxoff db, ptrval db, datoff db, datlen db, ptroff db).

(** From [db] to [db'] the files became [i] and [d] and the events [evs] were
    logged; nothing else but positions, buffers and cursor changed. *)
Record upd (i d : bytes) (evs : list event) (db db' : DB) : Prop := {
  u_frame : frame db' = frame db;
  u_idx : f_data (idxfd db') = i;
  u_dat : f_data (datfd db') = d;
  u_ibuf : length (idxbuf db') = length (idxbuf db);
  u_dbuf : length (datbuf db') = length (datbuf db);
  u_trace : trace db' = evs ++ trace db
}.

Abbreviation keeps db db' := (upd (f_data (idxfd db)) (f_data (datfd db)) [] db db').

Lemma upd_trans i1 d1 e1 i2 d2 e2 db db1 db2 :
  upd i1 d1 e1 db db1 -> upd i2 d2 e2 db1 db2 -> upd i2 d2 (e2 ++ e1) db db2.
Proof.
  intros [] []. split; try congruence.
  rewrite u_trace1, u_trace0. by rewrite app_assoc.
Qed.

Lemma upd_keeps i d e db db1 db2 :
  upd i d e db db1 -> keeps db1 db2 -> upd i d e db db2.
Proof.
  intros [] []. split; try congruence. by rewrite u_trace1, u_trace0.
Qed.

Lemma keeps_upd i d e db db1 db2 :
  keeps db db1 -> upd i d e db1 db2 -> upd i d e db db2.
Proof. intros H1 H2. pose proof (upd_trans _ _ _ _ _ _ _ _ _ H1 H2) as H. by rewrite app_nil_r in H. Qed.

Lemma keeps_refl db : keeps db db.
Proof. by split. Qed.

(** A handle in working order: both files readable, buffers of the sizes
    [_db_alloc] gives them, the constants of [db_open]. *)
Record ready (db : DB) : Prop := {
  rd_idx : f_rd (idxfd db) = true;
  rd_dat : f_rd (datfd db) = true;
  rd_ibuf : length (idxbuf db) = 1026%nat;
  rd_dbuf : length (datbuf db) = 1026%nat;
  rd_nhash : nhash db = NHASH_DEF;
  rd_hashoff : hashoff db = HASH_OFF
}.

Lemma ready_upd i d e db db' : upd i d e db db' -> ready db -> ready db'.
Proof. intros [Hf _ _ Hi Hd _] []. unfold frame in Hf. simplify_eq. split; congruence. Qed.

Record writable (db : DB) : Prop := {
  wr_idx : f_wr (idxfd db) = true;
  wr_dat : f_wr (datfd db) = true
}.

Lemma writable_upd i d e db db' : upd i d e db db' -> writable db -> writable db'.
Proof. intros [Hf _ _ _ _ _] []. unfold frame in Hf. simplify_eq. split; congruence. Qed.

(** ** System calls *)

Lemma wp_lseek_idx_set off Q db :
  0 <= off -> Q off (set_idxfd (f_seek off (idxfd db)) db) -> wp (lseek IDX off SEEK_SET) Q db.
Proof.
  intros Hoff HQ. unfold wp, lseek, sys_lseek; simpl.
  destruct (Z.ltb_spec off 0); [lia|]. done.
Qed.

Lemma wp_lseek_dat_set off Q db :
  0 <= off -> Q off (set_datfd (f_seek off (datfd db)) db) -> wp (lseek DAT off SEEK_SET) Q db.
Proof.
  intros Hoff HQ. unfold wp, lseek, sys_lseek; simpl.
  destruct (Z.ltb_spec off 0); [lia|]. done.
Qed.

Lemma wp_read_idx n bs Q db :
  f_rd (idxfd db) = true -> 0 <= n ->
  slice (f_data (idxfd db)) (Z.to_nat (f_pos (idxfd db))) (Z.to_nat n) = bs ->
  Q (Z.of_nat (length bs), bs)
    (set_idxfd (f_seek (f_pos (idxfd db) + Z.of_nat (length bs)) (idxfd db)) db) ->
  wp (read IDX n) Q db.
Proof. intros Hrd Hn Hs HQ. unfold wp, read, sys_read; simpl. by rewrite Hrd, Hs. Qed.

Lemma wp_read_dat n bs Q db :
  f_rd (datfd db) = true -> 0 <= n ->
  slice (f_data (datfd db)) (Z.to_nat (f_pos (datfd db))) (Z.to_nat n) = bs ->
  Q (Z.of_nat (length bs), bs)
    (set_datfd (f_seek (f_pos (datfd db) + Z.of_nat (length bs)) (datfd db)) db) ->
  wp (read DAT n) Q db.
Proof. intros Hrd Hn Hs HQ. unfold wp, read, sys_read; simpl. by rewrite Hrd, Hs. Qed.

Lemma sys_write_ok f bs :
  f_wr f = true -> bs <> [] -> f_pos f + Z.of_nat (length bs) <= f_lim f ->
  sys_write f bs =
  (Z.of_nat (length bs),
   mkFile (splice (f_data f) (Z.to_nat (f_pos f)) bs) (f_pos f + Z.of_nat (length bs))
     (f_rd f) (f_wr f) (f_lim f)).
Proof.
  intros Hwr Hbs Hlim. unfold sys_write. rewrite Hwr.
  replace (Z.min (Z.of_nat (length bs)) (Z.max 0 (f_lim f - f_pos f)))
    with (Z.of_nat (length bs)) by lia.
  destruct (Z.eqb_spec (Z.of_nat (length bs)) 0) as [H0|_].
  { destruct bs; [done|simpl in H0; lia]. }
  simpl. by rewrite Nat2Z.id, take_ge by lia.
Qed.

Lemma wp_write_idx bs Q db :
  f_wr (idxfd db) = true -> bs <> [] ->
  f_pos (idxfd db) + Z.of_nat (length bs) <= f_lim (idxfd db) ->
  (let f := idxfd db in
   Q (Z.of_nat (length bs))
     (log_event (EvWrite IDX (f_pos f) (Z.of_nat (length bs)))
       (set_idxfd (mkFile (splice (f_data f) (Z.to_nat (f_pos f)) bs)
                     (f_pos f + Z.of_nat (length bs)) (f_rd f) (f_wr f) (f_lim f)) db))) ->
  wp (write IDX bs) Q db.
Proof. intros Hwr Hbs Hlim HQ. unfold wp, write; simpl. by rewrite sys_write_ok. Qed.

Lemma wp_write_dat bs Q db :
  f_wr (datfd db) = true -> bs <> [] ->
  f_pos (datfd db) + Z.of_nat (length bs) <= f_lim (datfd db) ->
  (let f := datfd db in
   Q (Z.of_nat (length bs))
     (log_event (EvWrite DAT (f_pos f) (Z.of_nat (length bs)))
       (set_datfd (mkFile (splice (f_data f) (Z.to_nat (f_pos f)) bs)
                     (f_pos f + Z.of_nat (length bs)) (f_rd f) (f_wr f) (f_lim f)) db))) ->
  wp (write DAT bs) Q db.
Proof. intros Hwr Hbs Hlim HQ. unfold wp, write; simpl. by rewrite sys_write_ok. Qed.

(** A lock request that the access mode allows. *)
Lemma wp_lock fd t off len Q db :
  fcntl_lock (the_file fd db) t = 0 ->
  Q 0 (log_event (EvLock t fd off len) db) ->
  wp (lock_reg fd t off len) Q db.
Proof. intros H HQ. unfold wp, lock_reg. by rewrite H. Qed.

Lemma upd_log e db : upd (f_data (idxfd db)) (f_data (datfd db)) [e] db (log_event e db).
Proof. by split. Qed.

(** ** Chain pointers *)

Lemma wp_readptr off p Q db :
  ready db -> 0 <= off -> ptr_ok p ->
  slice (f_data (idxfd db)) (Z.to_nat off) 6 = enc_ptr p ->
  (forall db', keeps db db' -> cursor db' = cursor db -> idxbuf db' = idxbuf db -> Q p db') ->
  wp (_db_readptr off) Q db.
Proof.
  intros Hr Hoff Hp Hs HQ. unfold _db_readptr.
  wp_step. apply wp_lseek_idx_set; [done|]. wp_step.
  apply wp_dump_if; [by apply eqb_neq_m1|]. wp_step.
  apply (wp_read_idx PTR_SZ (enc_ptr p)); [apply Hr|done|done|]. cbn beta iota.
  wp_step. apply wp_dump_if; [by rewrite length_enc_ptr|].
  wp_step. rewrite atol_enc_ptr by done. apply HQ; by try split.
Qed.

Lemma wp_writeptr off p Q db :
  ready db -> writable db -> 0 <= off -> ptr_ok p ->
  off + 6 <= f_lim (idxfd db) ->
  (forall db',
     upd (splice (f_data (idxfd db)) (Z.to_nat off) (enc_ptr p)) (f_data (datfd db))
       [EvWrite IDX off 6] db db' ->
     cursor db' = cursor db -> idxbuf db' = idxbuf db -> Q tt db') ->
  wp (_db_writeptr off p) Q db.
Proof.
  intros Hr Hw Hoff Hp Hlim HQ. unfold _db_writeptr.
  assert (Hlen : length (enc_ptr p) = 6%nat) by (by apply length_enc_ptr).
  destruct Hp as [Hp1 Hp2].
  wp_step. apply wp_if_false; [range_check|]. wp_step. wp_step.
  apply wp_lseek_idx_set; [done|]. wp_step.
  apply wp_dump_if; [by apply eqb_neq_m1|]. wp_step.
  fold (enc_ptr p). change (Z.to_nat PTR_SZ) with 6%nat. rewrite take_ge by lia.
  apply wp_write_idx.
  - apply Hw.
  - by destruct (enc_ptr p).
  - rewrite Hlen. simpl. lia.
  - cbn beta iota. rewrite Hlen. apply wp_dump_if; [done|]. apply HQ; by try split.
Qed.

(** ** Index records *)

Lemma dec_u_nonsep n : 0 <= n -> Forall (fun c => c <> 0 /\ c <> SEP) (dec_u n).
Proof. intros H. eapply Forall_impl; [by apply dec_u_digits|]. unfold SEP. simpl. lia. Qed.

Lemma strchr_cstring_app (s : bytes) t rest :
  Forall (fun c => c <> 0 /\ c <> SEP) s ->
  strchr (cstring (s ++ SEP :: t ++ rest)) SEP = Some (length s).
Proof.
  intros H. induction H as [|c s [Hc0 HcS] _ IH]; [done|]. cbn [app cstring].
  destruct (Z.eqb_spec c 0); [lia|]. cbn [strchr].
  destruct (Z.eqb_spec c SEP); [lia|]. by rewrite IH.
Qed.

Lemma strchr_cstring_none (s rest : bytes) :
  Forall (fun c => c <> 0 /\ c <> SEP) s -> strchr (cstring (s ++ 0 :: rest)) SEP = None.
Proof.
  intros H. rewrite cstring_nonzero by (eapply Forall_impl; [done|]; simpl; tauto).
  apply strchr_None. eapply Forall_impl; [done|]. simpl. tauto.
Qed.

Lemma cstring_dec_u n rest : 0 <= n -> cstring (dec_u n ++ 0 :: rest) = dec_u n.
Proof.
  intros H. apply cstring_nonzero.
  eapply Forall_impl; [by apply dec_u_nonsep|]. simpl. tauto.
Qed.

Lemma atol_dec_u n : 0 <= n <= LONG_MAX -> atol (dec_u n) = n.
Proof.
  intros H. pose proof (atol_fmt 0 n [] H I) as E. by rewrite app_nil_r in E.
Qed.

Lemma drop_app_S (a : bytes) c b : drop (length a + 1) (a ++ c :: b) = b.
Proof.
  rewrite drop_app_ge by lia. by replace (length a + 1 - length a)%nat with 1%nat by lia.
Qed.

Lemma wp_readidx_parse k doff dlen rest Q db :
  idxbuf db = k ++ SEP :: dec_u doff ++ SEP :: dec_u dlen ++ 0 :: rest ->
  key_ok k -> 0 <= doff <= LONG_MAX -> 1 <= dlen <= DATLEN_MAX ->
  (forall buf, cstring buf = k -> length buf = length (idxbuf db) ->
     Q (ptrval db) (set_datlen dlen (set_datoff doff (set_idxbuf buf db)))) ->
  wp readidx_parse Q db.
Proof.
  intros Hb Hk Hoff Hdl HQ.
  assert (HDM : DATLEN_MAX = 1024) by done.
  assert (HL : 0 <= dlen <= LONG_MAX) by (unfold LONG_MAX; lia).
  unfold readidx_parse. wp_steps. rewrite Hb.
  rewrite strchr_cstring_app by done. wp_steps.
  assert (E1 : idxbuf (poke_idxbuf (length k) 0 db)
    = k ++ 0 :: dec_u doff ++ SEP :: dec_u dlen ++ 0 :: rest).
  { simpl. by rewrite Hb, insert_middle. }
  rewrite E1, drop_app_S, strchr_cstring_app by (apply dec_u_nonsep; lia). wp_steps.
  set (db2 := poke_idxbuf _ 0 (poke_idxbuf _ _ _)).
  assert (E2 : idxbuf db2 = (k ++ 0 :: dec_u doff) ++ 0 :: dec_u dlen ++ 0 :: rest).
  { unfold db2, poke_idxbuf at 1. cbn [idxbuf set_idxbuf].
    rewrite E1.
    replace (length k + 1 + length (dec_u doff))%nat
      with (length (k ++ 0 :: dec_u doff)) by (rewrite length_app; simpl; lia).
    rewrite app_comm_cons, app_assoc. by rewrite insert_middle. }
  rewrite E2.
  replace (length k + 1 + length (dec_u doff) + 1)%nat
    with (length (k ++ 0%Z :: dec_u doff) + 1)%nat by (rewrite length_app; simpl; lia).
  rewrite drop_app_S, strchr_cstring_none by (apply dec_u_nonsep; lia).
  rewrite <- app_assoc, <- app_comm_cons, drop_app_S, !cstring_dec_u by lia.
  rewrite !atol_dec_u by done.
  assert (Hw : wrap_u 64 dlen = dlen) by (apply Z.mod_small; lia).
  wp_steps. apply wp_dump_if; [apply Z.ltb_ge; lia|]. wp_steps. rewrite Hw.
  apply wp_dump_if.
  { apply orb_false_iff; split; [apply Z.leb_gt|apply Z.ltb_ge]; lia. }
  wp_steps.
  apply (HQ (idxbuf db2)).
  - rewrite E2, <- app_assoc. apply cstring_nonzero.
    eapply Forall_impl; [done|]. simpl; tauto.
  - unfold db2. simpl. by rewrite !length_insert.
Qed.

(** The structure describes the entry [e] whose index record is at [off]. *)
Record loaded (off : Z) (e : entry) (db : DB) : Prop := {
  ld_idxoff : idxoff db = off;
  ld_ptrval : ptrval db = e_ptr e;
  ld_datoff : datoff db = e_off e;
  ld_datlen : datlen db = e_dlen e;
  ld_key : cstring (idxbuf db) = e_key e
}.

Lemma e_dlen_range e : entry_ok e -> 2 <= e_dlen e <= 1024.
Proof. intros [_ _ _ [_ H] _]. done. Qed.

Lemma wrap_s32_small n : 0 <= n <= 1024 -> wrap_s 32 n = n.
Proof. intros H. unfold wrap_s. rewrite Z.mod_small; simpl; lia. Qed.

(** The text of an entry, its numbers printed. *)
Lemma e_text_eq e :
  entry_ok e ->
  e_text e = e_key e ++ SEP :: dec_u (e_off e) ++ SEP :: dec_u (e_dlen e) ++ [NEWLINE].
Proof.
  intros H. pose proof (e_dlen_range e H). pose proof (eo_off e H).
  unfold e_text, idx_text. rewrite wrap_s32_small by lia.
  rewrite !fmt_ld_nonneg by lia. done.
Qed.

Lemma splice_0 (d bs : bytes) :
  (length bs <= length d)%nat -> splice d 0 bs = bs ++ drop (length bs) d.
Proof. intros H. unfold splice. by rewrite take_0, Nat.sub_0_l. Qed.

(** The index buffer once the text of [e] was read into it and its newline
    replaced. *)
Lemma idxbuf_after_read e buf :
  entry_ok e -> length buf = 1026%nat ->
  let buf1 := splice buf 0 (e_text e) in
  buf1 !! (length (e_text e) - 1)%nat = Some NEWLINE /\
  exists rest, <[(length (e_text e) - 1)%nat := 0]> buf1 =
    e_key e ++ SEP :: dec_u (e_off e) ++ SEP :: dec_u (e_dlen e) ++ 0 :: rest.
Proof.
  intros He Hb buf1. pose proof (eo_len e He) as [_ Hlen]. unfold IDXLEN_MAX in Hlen.
  set (pre := e_key e ++ SEP :: dec_u (e_off e) ++ SEP :: dec_u (e_dlen e)).
  assert (Ht : e_text e = pre ++ [NEWLINE]).
  { unfold pre. rewrite e_text_eq by done.
    by rewrite <- !app_assoc, <- !app_comm_cons, <- !app_assoc, <- !app_comm_cons. }
  assert (Hn : (length (e_text e) - 1 = length pre)%nat) by (rewrite Ht; rewrite length_app; simpl; lia).
  unfold buf1. rewrite splice_0 by lia. rewrite Hn, Ht, <- app_assoc. simpl app.
  split; [by rewrite list_lookup_middle|].
  eexists. rewrite insert_middle. unfold pre.
  by rewrite <- !app_assoc, <- !app_comm_cons, <- !app_assoc, <- !app_comm_cons.
Qed.

(** Reading the record of [e], from an explicit offset or from the current one. *)
(** The seek to a record: relative when the offset is 0. *)
Lemma wp_readidx_seek off n db :
  0 <= n -> (if off =? 0 then f_pos (idxfd db) = n else off = n) ->
  wp (lseek IDX off (if off =? 0 then SEEK_CUR else SEEK_SET))
    (fun r db1 => r = n /\ db1 = set_idxfd (f_seek n (idxfd db)) db) db.
Proof.
  intros Hn Hoff. unfold wp, lseek, sys_lseek; simpl. destruct (Z.eqb_spec off 0) as [->|].
  - rewrite Hoff, Z.add_0_r. destruct (Z.ltb_spec n 0); [lia|done].
  - rewrite Hoff. destruct (Z.ltb_spec n 0); [lia|done].
Qed.

Lemma atoi_fmt_width w n : 0 <= n <= 1024 -> wrap_u 64 (atoi (fmt_width w (fmt_ld n))) = n.
Proof.
  intros Hn. unfold atoi. rewrite atol_fmt_width by (unfold LONG_MAX; lia).
  rewrite wrap_s32_small by lia. apply Z.mod_small. lia.
Qed.

Lemma wp_readidx_at off e pre post Q db :
  ready db -> entry_ok e -> f_data (idxfd db) = pre ++ enc_entry e ++ post ->
  (if off =? 0 then f_pos (idxfd db) = Z.of_nat (length pre) else off = Z.of_nat (length pre)) ->
  (forall db', keeps db db' -> loaded (Z.of_nat (length pre)) e db' ->
     ptroff db' = ptroff db ->
     f_pos (idxfd db') = Z.of_nat (length pre + length (enc_entry e)) -> Q (e_ptr e) db') ->
  wp (_db_readidx off) Q db.
Proof.
  intros Hr He Hd Hoff HQ.
  pose proof (eo_len e He) as Hlen. unfold IDXLEN_MIN, IDXLEN_MAX in Hlen.
  pose proof (length_enc_entry e He) as HlenE.
  set (n := Z.of_nat (length pre)) in *.
  unfold _db_readidx. wp_step. eapply wp_mono; [exact (wp_readidx_seek off n db ltac:(lia) Hoff)|].
  intros r db1 [-> ->]. wp_steps. apply wp_dump_if; [apply eqb_neq_m1; lia|]. wp_steps.
  set (lenf := fmt_width (Z.to_nat IDXLEN_SZ) (fmt_ld (Z.of_nat (length (e_text e))))).
  assert (Hlenf : length lenf = 4%nat).
  { apply length_fmt_width; [simpl; lia|]. change (10 ^ Z.of_nat _) with 10000. lia. }
  pose proof (length_enc_ptr _ (eo_ptr e He)) as Hptr.
  apply (wp_read_idx _ (enc_ptr (e_ptr e) ++ lenf)); [apply Hr|done| |].
  { cbn [f_data f_pos idxfd set_idxfd set_idxoff f_seek]. rewrite Hd.
    unfold enc_entry. fold lenf. rewrite <- !app_assoc, (app_assoc (enc_ptr _) lenf).
    apply slice_middle; [lia|]. rewrite length_app, Hptr, Hlenf. done. }
  cbn beta iota. rewrite length_app, Hptr, Hlenf.
  change (negb (Z.of_nat (6 + 4) =? PTR_SZ + IDXLEN_SZ)) with false. cbn beta iota.
  change (Z.to_nat PTR_SZ) with 6%nat.
  rewrite (take_app_length' _ lenf 6) by done. rewrite (drop_app_length' _ lenf 6) by done.
  rewrite atol_enc_ptr by apply He.
  pose proof (atoi_fmt_width (Z.to_nat IDXLEN_SZ) (Z.of_nat (length (e_text e))) ltac:(lia)) as Hatoi. fold lenf in Hatoi.
  wp_steps. rewrite Hatoi. apply wp_dump_if; [unfold IDXLEN_MIN, IDXLEN_MAX; range_check|]. wp_steps.
  apply (wp_read_idx _ (e_text e)); [apply Hr|lia| |].
  { cbn [f_data f_pos idxfd set_idxfd set_idxoff set_ptrval set_idxlen f_seek]. rewrite Hd.
    unfold enc_entry. fold lenf. rewrite <- !app_assoc, (app_assoc (enc_ptr _) lenf), (app_assoc pre).
    apply slice_middle; [rewrite !length_app, Hptr, Hlenf; lia|lia]. }
  destruct (idxbuf_after_read e (idxbuf db) He (rd_ibuf db Hr)) as [Hnl [rest Hrest]].
  replace (Z.to_nat (Z.of_nat (length (e_text e)) - 1)) with (length (e_text e) - 1)%nat by lia.
  wp_steps. apply wp_dump_if; [apply negb_eqb_refl|]. wp_steps.
  apply wp_dump_if.
  { apply negb_false_iff, bool_decide_eq_true_2. exact Hnl. }
  wp_steps. eapply wp_readidx_parse.
  - exact Hrest.
  - apply He.
  - apply He.
  - pose proof (e_dlen_range e He). unfold DATLEN_MAX. lia.
  - intros buf Hbuf Hblen. apply HQ.
    + split; try done. simpl in *. rewrite Hblen, length_insert, length_splice.
      rewrite (rd_ibuf db Hr). lia.
    + by split.
    + done.
    + simpl. lia.
Qed.

(** ** Data records *)

Lemma wp_readdat e Q db :
  ready db -> entry_ok e -> datoff db = e_off e -> datlen db = e_dlen e ->
  slice (f_data (datfd db)) (Z.to_nat (e_off e)) (Z.to_nat (e_dlen e)) = e_data e ++ [NEWLINE] ->
  (forall db', keeps db db' -> cursor db' = cursor db -> idxbuf db' = idxbuf db -> Q (e_data e) db') ->
  wp _db_readdat Q db.
Proof.
  intros Hr He Hoff Hlen Hs HQ.
  pose proof (e_dlen_range e He) as Hdl. pose proof (eo_off e He) as Ho.
  destruct (eo_data e He) as [Hnz _].
  assert (Hl : Z.of_nat (length (e_data e ++ [NEWLINE])) = e_dlen e).
  { unfold e_dlen. rewrite length_app. simpl. lia. }
  unfold _db_readdat. wp_steps. rewrite Hoff.
  apply wp_lseek_dat_set; [lia|]. wp_steps. apply wp_dump_if; [apply eqb_neq_m1; lia|]. wp_steps.
  rewrite Hlen. apply (wp_read_dat _ (e_data e ++ [NEWLINE])); [apply Hr|lia|done|].
  wp_steps. rewrite Hl. apply wp_dump_if; [apply negb_eqb_refl|]. wp_steps.
  cbn [datbuf datlen set_datbuf set_datfd]. rewrite Hlen.
  replace (Z.to_nat (e_dlen e - 1)) with (length (e_data e)) by (unfold e_dlen; lia).
  rewrite splice_0 by (rewrite (rd_dbuf db Hr); lia). rewrite <- app_assoc. simpl app.
  apply wp_dump_if.
  { apply negb_false_iff, bool_decide_eq_true_2. by rewrite list_lookup_middle. }
  wp_steps. cbn [datbuf datlen set_datbuf set_datfd]. rewrite Hlen.
  replace (Z.to_nat (e_dlen e - 1)) with (length (e_data e)) by (unfold e_dlen; lia).
  rewrite insert_middle, cstring_nonzero by done.
  apply HQ; [|done..]. split; try done. cbn [datbuf set_datbuf].
  rewrite !length_app in *. simpl in *. rewrite length_drop, (rd_dbuf db Hr). simpl. lia.
Qed.

(** Events of a write that is bracketed by a lock when it appends. *)
Definition append_events (w : whence) (fd : fdname) (lockoff off n : Z) : list event :=
  if decide (w = SEEK_END)
  then [EvLock F_UNLCK fd lockoff 0; EvWrite fd off n; EvLock F_WRLCK fd lockoff 0]
  else [EvWrite fd off n].

(** Where a write relative to [w] goes. *)
Definition target (f : ofile) (off : Z) (w : whence) (pos : Z) : Prop :=
  match w with
  | SEEK_SET => pos = off
  | SEEK_END => pos = f_size f + off
  | SEEK_CUR => False
  end.

Lemma sys_lseek_target f off w pos :
  target f off w pos -> 0 <= pos -> sys_lseek f off w = (pos, f_seek pos f).
Proof.
  intros Ht Hp. unfold sys_lseek. destruct w; simpl in Ht; [|done|]; subst;
    by match goal with |- context [?x <? 0] => destruct (Z.ltb_spec x 0); [lia|] end.
Qed.

Lemma wp_writedat data off w pos Q db :
  writable db -> target (datfd db) off w pos -> 0 <= pos ->
  pos + Z.of_nat (length data) + 1 <= f_lim (datfd db) ->
  (forall db',
     upd (f_data (idxfd db)) (splice (f_data (datfd db)) (Z.to_nat pos) (data ++ [NEWLINE]))
       (append_events w DAT 0 pos (Z.of_nat (length data) + 1)) db db' ->
     cursor db' = (idxoff db, ptrval db, pos, Z.of_nat (length data) + 1, ptroff db) ->
     idxbuf db' = idxbuf db -> Q tt db') ->
  wp (_db_writedat data off w) Q db.
Proof.
  intros Hw Ht Hpos Hlim HQ.
  assert (Hl : Z.of_nat (length (data ++ [NEWLINE])) = Z.of_nat (length data) + 1).
  { rewrite length_app. simpl. lia. }
  assert (Hne : data ++ [NEWLINE] <> []) by (by destruct data).
  unfold _db_writedat, append_events in *. destruct (decide (w = SEEK_END)).
  - wp_step. wp_step. apply wp_lock; [simpl; by rewrite (wr_dat db Hw)|].
    apply wp_dump_if; [done|]. wp_step.
    unfold wp at 1, lseek. cbn [the_file set_file].
    rewrite (sys_lseek_target _ _ _ pos) by done. cbn beta iota.
    wp_steps. apply wp_dump_if; [apply eqb_neq_m1; lia|]. wp_steps.
    apply wp_write_dat; [apply Hw|done|rewrite Hl; simpl; lia|]. cbn beta iota zeta.
    rewrite Hl. wp_steps. apply wp_dump_if; [apply negb_eqb_refl|]. wp_steps.
    apply wp_lock; [done|]. apply wp_dump_if; [done|].
    apply HQ; by try split.
  - wp_step. wp_step. wp_step.
    unfold wp at 1, lseek. cbn [the_file set_file].
    rewrite (sys_lseek_target _ _ _ pos) by done. cbn beta iota.
    wp_steps. apply wp_dump_if; [apply eqb_neq_m1; lia|]. wp_steps.
    apply wp_write_dat; [apply Hw|done|rewrite Hl; simpl; lia|]. cbn beta iota zeta.
    rewrite Hl. wp_steps. apply wp_dump_if; [apply negb_eqb_refl|]. wp_steps.
    apply HQ; by try split.
Qed.

Lemma wp_writeidx e off w pos Q db :
  ready db -> writable db -> entry_ok e -> target (idxfd db) off w pos -> 0 <= pos ->
  datoff db = e_off e -> datlen db = e_dlen e ->
  pos + Z.of_nat (length (enc_entry e)) <= f_lim (idxfd db) ->
  (forall db',
     upd (splice (f_data (idxfd db)) (Z.to_nat pos) (enc_entry e)) (f_data (datfd db))
       (append_events w IDX 829 pos (Z.of_nat (length (enc_entry e)))) db db' ->
     cursor db' = (pos, e_ptr e, datoff db, datlen db, ptroff db) -> Q tt db') ->
  wp (_db_writeidx (e_key e) off w (e_ptr e)) Q db.
Proof.
  intros Hr Hw He Ht Hpos Hoff Hlen Hlim HQ.
  pose proof (eo_len e He) as Htl. unfold IDXLEN_MIN, IDXLEN_MAX in Htl.
  pose proof (length_enc_entry e He) as HlenE.
  destruct (eo_ptr e He) as [Hp1 Hp2]. unfold PTR_MAX in Hp2.
  unfold _db_writeidx. wp_steps. apply wp_if_false; [unfold PTR_MAX; range_check|].
  wp_steps. cbn [datoff datlen idxbuf set_ptrval]. rewrite Hoff, Hlen. fold (e_text e).
  apply wp_if_false.
  { apply Nat.ltb_ge. rewrite (rd_ibuf db Hr). lia. }
  wp_steps. apply wp_dump_if; [unfold IDXLEN_MIN, IDXLEN_MAX; range_check|].
  set (lenf := fmt_width (Z.to_nat IDXLEN_SZ) (fmt_ld (Z.of_nat (length (e_text e))))).
  assert (Hlenf : length lenf = 4%nat).
  { apply length_fmt_width; [simpl; lia|]. change (10 ^ Z.of_nat _) with 10000. lia. }
  assert (Henc : take (Z.to_nat (PTR_SZ + IDXLEN_SZ)) (fmt_width (Z.to_nat PTR_SZ) (fmt_ld (e_ptr e)) ++ lenf)
    ++ e_text e = enc_entry e).
  { rewrite take_ge; [unfold enc_entry, enc_ptr; by rewrite <- app_assoc|].
    fold (enc_ptr (e_ptr e)). rewrite length_app, Hlenf, length_enc_ptr by apply He. done. }
  assert (Hn : negb (Z.of_nat (length (enc_entry e)) =? PTR_SZ + IDXLEN_SZ + Z.of_nat (length (e_text e))) = false).
  { apply negb_false_iff, Z.eqb_eq. rewrite HlenE. unfold PTR_SZ, IDXLEN_SZ. lia. }
  assert (Hne : enc_entry e <> []) by (destruct (enc_entry e); [simpl in HlenE; lia|done]).
  assert (Hib : length (splice (idxbuf db) 0 (e_text e ++ [0])) = length (idxbuf db)).
  { rewrite length_splice, length_app, (rd_ibuf db Hr). simpl. lia. }
  cbn [nhash set_ptrval]. rewrite (rd_nhash db Hr).
  change ((NHASH_DEF + 1) * PTR_SZ + 1) with 829.
  unfold append_events in *. destruct (decide (w = SEEK_END)).
  - wp_step. wp_step. apply wp_lock; [simpl; by rewrite (wr_idx db Hw)|].
    apply wp_dump_if; [done|]. wp_step.
    unfold wp at 1, lseek. cbn [the_file set_file].
    rewrite (sys_lseek_target _ _ _ pos) by done. cbn beta iota.
    wp_steps. apply wp_dump_if; [apply eqb_neq_m1; lia|]. wp_steps. rewrite Henc.
    apply wp_write_idx; [apply Hw|done|simpl; lia|]. cbn beta iota zeta.
    wp_steps. apply wp_dump_if; [done|]. wp_steps.
    apply wp_lock; [done|]. apply wp_dump_if; [done|].
    apply HQ; [by split|]. unfold cursor. simpl. congruence.
  - wp_step. wp_step. wp_step.
    unfold wp at 1, lseek. cbn [the_file set_file].
    rewrite (sys_lseek_target _ _ _ pos) by done. cbn beta iota.
    wp_steps. apply wp_dump_if; [apply eqb_neq_m1; lia|]. wp_steps. rewrite Henc.
    apply wp_write_idx; [apply Hw|done|simpl; lia|]. cbn beta iota zeta.
    wp_steps. apply wp_dump_if; [done|]. wp_steps.
    apply HQ; [by split|]. unfold cursor. simpl. congruence.
Qed.
