(* ===== verification/DbChain.v ===== *)
(** * DbChain: hash chains and the free list as linked lists over the entries.

    [wf hdr es dd ls] is the representation invariant of a database: the lists
    [ls] (the free list first, then one list per hash chain) are the ones the
    pointers of [hdr] and [es] describe, they partition the records, every key
    is in the chain of its hash value and in no other record of it, and every
    entry's data is at its place in the data file [dd], apart from the others. *)
From S2P Require Import Prelude Libc Files Db DbFormat.
Local Open Scope Z_scope.

(** Where a chain pointer is: in the header or in a record. *)
Inductive loc := LHdr (j : nat) | LEnt (i : nat).

#[global] Instance loc_eq_dec : EqDecision loc.
Proof. solve_decision. Defined.

Definition loc_off (es : list entry) (l : loc) : Z :=
  match l with LHdr j => 6 * Z.of_nat j | LEnt i => eoff es i end.

Definition getp (l : loc) (hdr : list Z) (es : list entry) : option Z :=
  match l with LHdr j => hdr !! j | LEnt i => e_ptr <$> es !! i end.

Definition setp_hdr (l : loc) (p : Z) (hdr : list Z) : list Z :=
  match l with LHdr j => <[j:=p]> hdr | LEnt _ => hdr end.
Definition setp_es (l : loc) (p : Z) (es : list entry) : list entry :=
  match l with LHdr _ => es | LEnt i => alter (set_ptr p) i es end.

(** [ns] are the records of the chain that starts with pointer [p]. *)
Fixpoint chain (es : list entry) (p : Z) (ns : list nat) : Prop :=
  match ns with
  | [] => p = 0
  | i :: ns' => exists e, es !! i = Some e /\ p = eoff es i /\ chain es (e_ptr e) ns'
  end.

Definition lchain (hdr : list Z) (es : list entry) (l : loc) (ns : list nat) : Prop :=
  exists p, getp l hdr es = Some p /\ chain es p ns.

(** The pointer to the record that follows the records [ns] of a chain. *)
Fixpoint pred_loc (l : loc) (ns : list nat) : loc :=
  match ns with [] => l | i :: ns' => pred_loc (LEnt i) ns' end.

(** The list of a key in [ls]. *)
Definition hidx (k : bytes) : nat := Z.to_nat (hash_loop 0 1 k mod NHASH_DEF).

(** A free record: every byte of its key and of its data is a blank. *)
Definition blank_entry (e : entry) : Prop :=
  Forall (fun c => c = SPACE) (e_key e) /\ Forall (fun c => c = SPACE) (e_data e).

Definition well_placed (j : nat) (e : entry) : Prop :=
  if decide (j = O) then blank_entry e else j = S (hidx (e_key e)).

Definition data_at (dd : bytes) (e : entry) : Prop :=
  slice dd (Z.to_nat (e_off e)) (Z.to_nat (e_dlen e)) = e_data e ++ [NEWLINE].

Definition apart (e e' : entry) : Prop :=
  e_off e + e_dlen e <= e_off e' \/ e_off e' + e_dlen e' <= e_off e.

Record wf (hdr : list Z) (es : list entry) (dd : bytes) (ls : list (list nat)) : Prop := {
  wf_len : length hdr = 138%nat;
  wf_lsl : length ls = 138%nat;
  wf_ptrs : Forall ptr_ok hdr;
  wf_es : Forall entry_ok es;
  wf_chain : forall j l, ls !! j = Some l -> lchain hdr es (LHdr j) l;
  wf_nodup : forall j l, ls !! j = Some l -> NoDup l;
  wf_disj : forall j j' l l' i,
    ls !! j = Some l -> ls !! j' = Some l' -> i ∈ l -> i ∈ l' -> j = j';
  wf_cover : forall i, (i < length es)%nat -> exists j l, ls !! j = Some l /\ i ∈ l;
  wf_place : forall j l i e,
    ls !! j = Some l -> i ∈ l -> es !! i = Some e -> well_placed j e;
  wf_uniq : forall j l i i' e e',
    j <> O -> ls !! j = Some l -> i ∈ l -> i' ∈ l ->
    es !! i = Some e -> es !! i' = Some e' -> e_key e = e_key e' -> i = i';
  wf_data : forall i e, es !! i = Some e -> data_at dd e;
  wf_apart : forall i i' e e',
    i <> i' -> es !! i = Some e -> es !! i' = Some e' -> apart e e'
}.

(** The finite map a database stands for. *)
Definition models (es : list entry) (ls : list (list nat)) (m : gmap bytes bytes) : Prop :=
  forall k d, m !! k = Some d <->
    exists j l i e, j <> O /\ ls !! j = Some l /\ i ∈ l /\ es !! i = Some e
      /\ e_key e = k /\ e_data e = d.

(** ** Chains *)

Lemma well_placed_pos j e : j <> O -> well_placed j e -> j = S (hidx (e_key e)).
Proof. intros Hj. unfold well_placed. by rewrite decide_False. Qed.

Lemma hidx_lt k : (hidx k < 137)%nat.
Proof.
  unfold hidx, NHASH_DEF. pose proof (Z.mod_pos_bound (hash_loop 0 1 k) 137 ltac:(lia)). lia.
Qed.

Lemma chain_lookup es p ns i : chain es p ns -> i ∈ ns -> exists e, es !! i = Some e.
Proof.
  revert p. induction ns as [|k ns IH]; simpl; intros p Hc Hi; [by apply not_elem_of_nil in Hi|].
  destruct Hc as (e & He & _ & Hc). apply elem_of_cons in Hi as [->|Hi]; eauto.
Qed.

Lemma chain_ptr_ok es p ns i :
  Forall entry_ok es -> ptr_ok p -> chain es p ns -> i ∈ ns -> ptr_ok (eoff es i).
Proof.
  intros Hes. revert p. induction ns as [|k ns IH]; simpl; intros p Hp Hc Hi;
    [by apply not_elem_of_nil in Hi|].
  destruct Hc as (e & He & -> & Hc). apply elem_of_cons in Hi as [->|Hi]; [done|].
  apply (IH (e_ptr e)); [|done|done]. apply (eo_ptr e). by eapply Forall_lookup_1.
Qed.

(** A chain depends only on the pointers and offsets of its own records. *)
Lemma chain_frame es es' p ns :
  (forall i, i ∈ ns -> e_ptr <$> es' !! i = e_ptr <$> es !! i /\ eoff es' i = eoff es i) ->
  chain es p ns -> chain es' p ns.
Proof.
  revert p. induction ns as [|k ns IH]; simpl; intros p Hf Hc; [done|].
  destruct Hc as (e & He & -> & Hc).
  destruct (Hf k ltac:(by constructor)) as [Hk Hoff]. rewrite He in Hk.
  destruct (es' !! k) as [e'|] eqn:He'; [|done]. simpl in Hk. injection Hk as Hk.
  exists e'. repeat split; [done|]. rewrite Hk. apply IH; [|done]. intros i Hi. apply Hf. by constructor.
Qed.

Lemma setp_es_lookup_ne l p es i :
  l <> LEnt i -> setp_es l p es !! i = es !! i.
Proof.
  intros Hl. destruct l as [j|k]; [done|]. simpl.
  apply list_lookup_alter_ne. congruence.
Qed.

Lemma setp_es_Some l p es i e :
  es !! i = Some e -> setp_es l p es !! i = Some e \/ setp_es l p es !! i = Some (set_ptr p e).
Proof.
  intros He. destruct (decide (l = LEnt i)) as [->|Hne].
  - right. simpl. by rewrite list_lookup_alter_eq, He.
  - left. by rewrite setp_es_lookup_ne.
Qed.

Lemma setp_es_insert i p es e :
  es !! i = Some e -> setp_es (LEnt i) p es = <[i:=set_ptr p e]> es.
Proof.
  intros He. simpl. apply list_eq. intros k. destruct (decide (k = i)) as [->|Hk].
  - rewrite list_lookup_alter_eq, list_lookup_insert_eq by (by eapply lookup_lt_Some).
    by rewrite He.
  - by rewrite list_lookup_alter_ne, list_lookup_insert_ne.
Qed.

Lemma length_setp_es l p es : length (setp_es l p es) = length es.
Proof. destruct l; simpl; [done|]. apply length_alter. Qed.

Lemma length_setp_hdr l p hdr : length (setp_hdr l p hdr) = length hdr.
Proof. destruct l; simpl; [|done]. apply length_insert. Qed.

Lemma setp_es_ok l p es : ptr_ok p -> Forall entry_ok es -> Forall entry_ok (setp_es l p es).
Proof.
  intros Hp Hes. destruct l as [j|k]; [done|]. simpl. apply Forall_alter; [done|].
  intros e He Hok. pose proof (Forall_lookup_1 _ _ _ _ Hes He) as []. by split.
Qed.

Lemma setp_hdr_ok l p hdr : ptr_ok p -> Forall ptr_ok hdr -> Forall ptr_ok (setp_hdr l p hdr).
Proof. intros Hp Hh. destruct l as [j|k]; [|done]. simpl. by apply Forall_insert. Qed.

Lemma eoff_setp l p es j :
  ptr_ok p -> Forall entry_ok es -> eoff (setp_es l p es) j = eoff es j.
Proof.
  intros Hp Hes. destruct l as [k|k]; [done|].
  destruct (es !! k) as [e|] eqn:He.
  - rewrite (setp_es_insert _ _ _ _ He). eapply eoff_insert; [done|].
    apply length_enc_entry_set_ptr; [done|]. apply (eo_ptr e). by eapply Forall_lookup_1.
  - f_equal. simpl. apply list_eq. intros i. destruct (decide (i = k)) as [->|].
    + by rewrite list_lookup_alter_eq, He.
    + by rewrite list_lookup_alter_ne.
Qed.

(** ** Moving a record from one list to the front of another *)

Lemma pred_loc_cases l ns :
  (ns = [] /\ pred_loc l ns = l) \/ exists i, i ∈ ns /\ pred_loc l ns = LEnt i.
Proof.
  revert l. induction ns as [|k ns IH]; intros l; [by left|]. right. simpl.
  destruct (IH (LEnt k)) as [[-> ->]|(i & Hi & ->)]; [exists k|exists i]; in_list.
Qed.

(** Taking record [j] out of a chain: its predecessor gets its pointer. *)
Lemma lchain_unlink hdr es l l1 j l2 e :
  Forall entry_ok es -> es !! j = Some e ->
  NoDup (l1 ++ j :: l2) ->
  (forall i, l = LEnt i -> i ∉ l1 ++ j :: l2) ->
  lchain hdr es l (l1 ++ j :: l2) ->
  lchain (setp_hdr (pred_loc l l1) (e_ptr e) hdr) (setp_es (pred_loc l l1) (e_ptr e) es) l (l1 ++ l2).
Proof.
  intros Hes He. assert (Hpe : ptr_ok (e_ptr e)).
  { apply (eo_ptr e). by eapply Forall_lookup_1. }
  revert l. induction l1 as [|k l1 IH]; intros l Hnd Hl (p & Hp & Hc); simpl in *.
  - destruct Hc as (e' & He' & -> & Hc). simplify_eq. exists (e_ptr e). split.
    + destruct l as [j'|i]; simpl in *.
      * apply list_lookup_insert_eq. by eapply lookup_lt_Some.
      * rewrite list_lookup_alter_eq. destruct (es !! i); [done|done].
    + eapply chain_frame; [|exact Hc]. intros i Hi. split; [|by apply eoff_setp].
      rewrite setp_es_lookup_ne; [done|]. intros ->. apply (Hl i); in_list.
  - destruct Hc as (e' & He' & -> & Hc). apply NoDup_cons in Hnd as [Hk Hnd].
    destruct (IH (LEnt k)) as (p' & Hp' & Hc'); [done| | |].
    { intros i [= ->]. done. }
    { exists (e_ptr e'). simpl. by rewrite He'. }
    assert (Hne : pred_loc (LEnt k) l1 <> l).
    { destruct (pred_loc_cases (LEnt k) l1) as [[-> ->]|(i & Hi & ->)].
      - intros <-. apply (Hl k); in_list.
      - intros <-. apply (Hl i); in_list. }
    simpl in Hp'. apply fmap_Some in Hp' as (e'' & He'' & ->).
    exists (eoff es k). split.
    + destruct l as [j'|i]; simpl in *.
      * destruct (pred_loc_cases (LEnt k) l1) as [[-> ->]|(i & Hi & Hpl)]; [done|].
        by rewrite Hpl.
      * rewrite setp_es_lookup_ne by done. done.
    + exists e''. repeat split; [done| |done]. by rewrite eoff_setp.
Qed.

(** Replacing the contents of a record that is in none of the chain's. *)
Lemma lchain_insert_out hdr es l ns j e e' :
  es !! j = Some e -> length (enc_entry e') = length (enc_entry e) ->
  l <> LEnt j -> j ∉ ns -> lchain hdr es l ns -> lchain hdr (<[j:=e']> es) l ns.
Proof.
  intros He Hlen Hl Hj (p & Hp & Hc). exists p. split.
  - destruct l as [j'|i]; [done|]. simpl in *. by rewrite list_lookup_insert_ne by congruence.
  - eapply chain_frame; [|exact Hc]. intros i Hi. split; [|by eapply eoff_insert].
    by rewrite list_lookup_insert_ne by (intros ->; done).
Qed.

Lemma lchain_setp_out hdr es l ns l' p :
  Forall entry_ok es -> ptr_ok p -> l <> l' -> (forall i, i ∈ ns -> l' <> LEnt i) ->
  lchain hdr es l ns -> lchain (setp_hdr l' p hdr) (setp_es l' p es) l ns.
Proof.
  intros Hes Hp Hne Hout (q & Hq & Hc). exists q. split.
  - destruct l as [j|i]; simpl in *.
    + destruct l'; simpl; [|done]. by rewrite list_lookup_insert_ne by congruence.
    + by rewrite setp_es_lookup_ne.
  - eapply chain_frame; [|exact Hc]. intros i Hi. split; [|by apply eoff_setp].
    rewrite setp_es_lookup_ne; [done|]. by apply Hout.
Qed.

Lemma lchain_insert_hdr hdr es j j' p ns :
  j <> j' -> lchain hdr es (LHdr j) ns -> lchain (<[j':=p]> hdr) es (LHdr j) ns.
Proof.
  intros Hne (q & Hq & Hc). exists q. split; [|done]. simpl in *.
  by rewrite list_lookup_insert_ne by done.
Qed.

(** Data in the file after another entry's data was overwritten. *)
Lemma data_at_splice_other dd e eo bs :
  entry_ok e -> entry_ok eo -> data_at dd eo -> apart e eo ->
  Z.of_nat (length bs) = e_dlen e ->
  data_at (splice dd (Z.to_nat (e_off e)) bs) eo.
Proof.
  intros He Ho Hd Hap Hbs. unfold data_at in *. rewrite slice_splice_out; [done| |].
  - apply (f_equal length) in Hd. rewrite length_slice, length_app in Hd. simpl in Hd.
    unfold e_dlen in *. lia.
  - pose proof (eo_off e He). pose proof (eo_off eo Ho). unfold apart, e_dlen in *. lia.
Qed.

Lemma data_at_splice_self dd e :
  data_at (splice dd (Z.to_nat (e_off e)) (e_data e ++ [NEWLINE])) e.
Proof.
  unfold data_at.
  replace (Z.to_nat (e_dlen e)) with (length (e_data e ++ [NEWLINE]))
    by (unfold e_dlen; rewrite length_app; simpl; lia).
  apply slice_splice_in.
Qed.

(** The file an entry's data lies in is long enough for it. *)
Lemma data_at_bound dd e : data_at dd e -> 0 <= e_off e -> e_off e + e_dlen e <= Z.of_nat (length dd).
Proof.
  intros Hd Ho. apply (f_equal length) in Hd. rewrite length_slice, length_app in Hd. simpl in Hd.
  unfold e_dlen in *. lia.
Qed.

Section Move.
(** Record [j] goes from list [a] to the front of list [b], and its entry
    from [e] to [e'] of the same size. *)
Context (hdr : list Z) (es : list entry) (dd : bytes) (ls : list (list nat)).
Context (a b : nat) (l1 l2 lb : list nat) (j : nat) (e e' : entry) (pb : Z).
Hypothesis Hwf : wf hdr es dd ls.
Hypothesis Hab : a <> b.
Hypothesis Ha : ls !! a = Some (l1 ++ j :: l2).
Hypothesis Hb : ls !! b = Some lb.
Hypothesis Hpb : hdr !! b = Some pb.
Hypothesis He : es !! j = Some e.
Hypothesis Hok' : entry_ok e'.
Hypothesis Hsize : length (enc_entry e') = length (enc_entry e).
Hypothesis Hptr' : e_ptr e' = pb.
Hypothesis Hoff' : e_off e' = e_off e.
Hypothesis Hdlen' : length (e_data e') = length (e_data e).
Hypothesis Hplace : well_placed b e'.
Hypothesis Hnew : b <> O -> forall i ei, i ∈ lb -> es !! i = Some ei -> e_key ei <> e_key e'.

Let L := pred_loc (LHdr a) l1.
Let es1 := setp_es L (e_ptr e) es.
Let hdr1 := setp_hdr L (e_ptr e) hdr.
Definition move_hdr := <[b := eoff es j]> hdr1.
Definition move_es := <[j := e']> es1.
Definition move_ls := <[b := j :: lb]> (<[a := l1 ++ l2]> ls).
Definition move_dd := splice dd (Z.to_nat (e_off e)) (e_data e' ++ [NEWLINE]).

Let Hes := wf_es _ _ _ _ Hwf.

Lemma move_eok : entry_ok e.
Proof. by eapply Forall_lookup_1. Qed.

Lemma move_nodup : NoDup (l1 ++ j :: l2).
Proof. by apply (wf_nodup _ _ _ _ Hwf a). Qed.

Lemma move_j_out c l : ls !! c = Some l -> c <> a -> j ∉ l.
Proof.
  intros Hc Hca Hj. apply Hca. eapply (wf_disj _ _ _ _ Hwf); [exact Hc|exact Ha|exact Hj|].
  in_list.
Qed.

Lemma move_j_rest : j ∉ l1 ++ l2.
Proof.
  pose proof move_nodup as Hnd. apply NoDup_app in Hnd as (_ & Hd & Hn).
  apply NoDup_cons in Hn as [Hn _]. intros [Hj|Hj]%elem_of_app; [|done].
  apply (Hd j Hj). by constructor.
Qed.

Lemma move_L_ne_j : L <> LEnt j.
Proof.
  unfold L. destruct (pred_loc_cases (LHdr a) l1) as [[_ ->]|(i & Hi & ->)]; [done|].
  intros [= ->]. apply move_j_rest. in_list.
Qed.

Lemma move_L_out c l : ls !! c = Some l -> c <> a ->
  LHdr c <> L /\ forall i, i ∈ l -> L <> LEnt i.
Proof.
  intros Hc Hca. unfold L. destruct (pred_loc_cases (LHdr a) l1) as [[_ ->]|(k & Hk & ->)].
  - split; [congruence|done].
  - split; [done|]. intros i Hi [= ->]. apply Hca.
    eapply (wf_disj _ _ _ _ Hwf); [exact Hc|exact Ha|exact Hi|in_list].
Qed.

Lemma move_es1_j : es1 !! j = Some e.
Proof. unfold es1. rewrite setp_es_lookup_ne by apply move_L_ne_j. done. Qed.

Lemma move_ptr_e : ptr_ok (e_ptr e).
Proof. apply (eo_ptr e), move_eok. Qed.

Lemma move_eoff i : eoff move_es i = eoff es i.
Proof.
  unfold move_es. rewrite (eoff_insert _ _ _ _ _ move_es1_j Hsize).
  apply eoff_setp; [apply move_ptr_e|done].
Qed.

Lemma move_lookup i : i <> j ->
  exists p, move_es !! i = (set_ptr p <$> es !! i) \/ move_es !! i = es !! i.
Proof.
  intros Hi. unfold move_es. rewrite list_lookup_insert_ne by done. unfold es1.
  exists (e_ptr e). destruct (decide (L = LEnt i)) as [->|Hne].
  - left. simpl. by rewrite list_lookup_alter_eq.
  - right. by rewrite setp_es_lookup_ne.
Qed.

(** Apart from [j], entries change at most their pointer. *)
Lemma move_old i ei : i <> j -> move_es !! i = Some ei ->
  exists eo, es !! i = Some eo /\ e_key ei = e_key eo /\ e_off ei = e_off eo /\ e_data ei = e_data eo.
Proof.
  intros Hi Hei. destruct (move_lookup i Hi) as [p [H|H]]; rewrite H in Hei.
  - apply fmap_Some in Hei as (eo & Heo & ->). by exists eo.
  - by exists ei.
Qed.

Lemma move_new : move_es !! j = Some e'.
Proof.
  unfold move_es. apply list_lookup_insert_eq.
  unfold es1. rewrite length_setp_es. by eapply lookup_lt_Some.
Qed.

Lemma move_ls_cases c l : move_ls !! c = Some l ->
  (c = b /\ l = j :: lb) \/ (c = a /\ l = l1 ++ l2) \/ (c <> a /\ c <> b /\ ls !! c = Some l).
Proof.
  unfold move_ls. intros Hc. apply list_lookup_insert_Some in Hc as [(-> & <- & _)|[Hcb Hc]]; [by left|].
  apply list_lookup_insert_Some in Hc as [(-> & <- & _)|[Hca Hc]]; auto.
Qed.

Lemma move_eoff_ok : ptr_ok (eoff es j).
Proof.
  destruct (wf_chain _ _ _ _ Hwf a _ Ha) as (p & Hp & Hc).
  eapply chain_ptr_ok; [done| |exact Hc|in_list].
  eapply Forall_lookup_1; [apply Hwf|exact Hp].
Qed.

Lemma move_chain c l : move_ls !! c = Some l -> lchain move_hdr move_es (LHdr c) l.
Proof.
  intros Hc. apply move_ls_cases in Hc as [[-> ->]|[[-> ->]|(Hca & Hcb & Hc)]].
  - destruct (move_L_out b lb Hb ltac:(done)) as [HLb HLlb].
    assert (Hlb : lchain hdr1 es1 (LHdr b) lb).
    { apply lchain_setp_out; [done|apply move_ptr_e|done|done|].
      by apply (wf_chain _ _ _ _ Hwf). }
    exists (eoff es j). split.
    + simpl. unfold move_hdr. apply list_lookup_insert_eq. unfold hdr1.
      rewrite length_setp_hdr. by eapply lookup_lt_Some.
    + exists e'. split; [apply move_new|]. split; [by rewrite move_eoff|].
      rewrite Hptr'.
      destruct (lchain_insert_out hdr1 es1 (LHdr b) lb j e e' move_es1_j Hsize ltac:(done)
        (move_j_out b lb Hb ltac:(congruence)) Hlb) as (p & Hp & Hch).
      assert (p = pb) as ->; [|done]. simpl in Hp. unfold hdr1 in Hp.
      destruct L as [jj|ii] eqn:EL; simpl in Hp; [|congruence].
      rewrite list_lookup_insert_ne in Hp by congruence. congruence.
  - apply lchain_insert_hdr; [done|].
    eapply lchain_insert_out; [apply move_es1_j|done|done|apply move_j_rest|].
    apply (lchain_unlink hdr es (LHdr a) l1 j l2 e); [done|done|apply move_nodup|done|].
    by apply (wf_chain _ _ _ _ Hwf).
  - destruct (move_L_out c l Hc Hca) as [HLc HLl].
    apply lchain_insert_hdr; [done|].
    eapply lchain_insert_out; [apply move_es1_j|done|done|by apply (move_j_out c)|].
    apply lchain_setp_out; [done|apply move_ptr_e|done|done|].
    by apply (wf_chain _ _ _ _ Hwf).
Qed.

(** Where a record is after the move. *)
Lemma move_owner c l i : move_ls !! c = Some l -> i ∈ l ->
  (i = j /\ c = b) \/ (i <> j /\ exists lo, ls !! c = Some lo /\ i ∈ lo).
Proof.
  intros Hc Hi. apply move_ls_cases in Hc as [[-> ->]|[[-> ->]|(Hca & Hcb & Hc)]].
  - apply elem_of_cons in Hi as [->|Hi]; [by left|]. right.
    split; [|by eauto]. intros ->. by apply (move_j_out b lb Hb).
  - right. split; [intros ->; by apply move_j_rest|]. eexists; split; [exact Ha|].
    apply elem_of_app in Hi as [Hi|Hi]; apply elem_of_app; [by left|right; by constructor].
  - right. split; [|by eauto]. intros ->. by apply (move_j_out c l Hc).
Qed.

Lemma move_place c l i ei :
  move_ls !! c = Some l -> i ∈ l -> move_es !! i = Some ei -> well_placed c ei.
Proof.
  intros Hc Hi Hei.
  destruct (move_owner c l i Hc Hi) as [[-> ->]|(Hij & lo & Hlo & Hi')].
  - rewrite move_new in Hei. congruence.
  - destruct (move_old i ei Hij Hei) as (eo & Heo & Hk & _ & Hd).
    pose proof (wf_place _ _ _ _ Hwf c lo i eo Hlo Hi' Heo) as Hw.
    unfold well_placed, blank_entry in *. by rewrite Hk, Hd.
Qed.

Lemma move_uniq c l i i' ei ei' :
  c <> O -> move_ls !! c = Some l -> i ∈ l -> i' ∈ l ->
  move_es !! i = Some ei -> move_es !! i' = Some ei' -> e_key ei = e_key ei' -> i = i'.
Proof.
  intros Hc0 Hc Hi Hi' Hei Hei' Hk.
  assert (Hold : forall lo, ls !! c = Some lo -> i ∈ lo -> i' ∈ lo -> i <> j -> i' <> j -> i = i').
  { intros lo Hlo H H' Hn Hn'.
    destruct (move_old i ei Hn Hei) as (eo & Heo & Hko & _).
    destruct (move_old i' ei' Hn' Hei') as (eo' & Heo' & Hko' & _).
    eapply (wf_uniq _ _ _ _ Hwf c lo i i'); eauto. congruence. }
  assert (Hnewj : forall k ek, b <> O -> k ∈ lb -> move_es !! k = Some ek -> e_key ek = e_key e' -> False).
  { intros k ek Hb0 Hkl Hek Hkey.
    assert (k <> j) by (intros ->; by apply (move_j_out b lb Hb)).
    destruct (move_old k ek ltac:(done) Hek) as (eo & Heo & Hko & _).
    apply (Hnew Hb0 k eo Hkl Heo). congruence. }
  apply move_ls_cases in Hc as [[-> ->]|[[-> ->]|(Hca & Hcb & Hc)]].
  - apply elem_of_cons in Hi as [->|Hi]; apply elem_of_cons in Hi' as [->|Hi']; [done| | |].
    + rewrite move_new in Hei. exfalso. eapply (Hnewj i'); eauto. congruence.
    + rewrite move_new in Hei'. exfalso. eapply (Hnewj i); eauto. congruence.
    + apply (Hold lb Hb Hi Hi'); intros ->; by apply (move_j_out b lb Hb).
  - apply (Hold _ Ha); [in_list|in_list| |]; intros ->; by apply move_j_rest.
  - apply (Hold l Hc Hi Hi'); intros ->; by apply (move_j_out c l Hc).
Qed.

Lemma move_wf_lists :
  (forall c l, move_ls !! c = Some l -> NoDup l) /\
  (forall c c' l l' i, move_ls !! c = Some l -> move_ls !! c' = Some l' -> i ∈ l -> i ∈ l' -> c = c') /\
  (forall i, (i < length move_es)%nat -> exists c l, move_ls !! c = Some l /\ i ∈ l).
Proof.
  split; [|split].
  - intros c l Hc. apply move_ls_cases in Hc as [[-> ->]|[[-> ->]|(Hca & Hcb & Hc)]].
    + apply NoDup_cons; split; [by apply (move_j_out b)|]. by apply (wf_nodup _ _ _ _ Hwf b).
    + pose proof move_nodup as Hnd. apply NoDup_app in Hnd as (? & Hd & Hn).
      apply NoDup_cons in Hn as [_ ?]. apply NoDup_app; split; [done|]. split; [|done].
      intros x Hx Hx'. apply (Hd x Hx). by constructor.
    + by apply (wf_nodup _ _ _ _ Hwf c).
  - intros c c' l l' i Hc Hc' Hi Hi'.
    destruct (move_owner c l i Hc Hi) as [[-> ->]|(Hij & lo & Hlo & Hil)];
      destruct (move_owner c' l' _ Hc' Hi') as [[? ->]|(Hij' & lo' & Hlo' & Hil')]; try done.
    by eapply (wf_disj _ _ _ _ Hwf).
  - intros i Hi. assert (Hli : (i < length es)%nat).
    { unfold move_es, es1 in Hi. by rewrite length_insert, length_setp_es in Hi. }
    assert (Hlen : forall c l, ls !! c = Some l -> (c < length ls)%nat) by (intros; by eapply lookup_lt_Some).
    destruct (decide (i = j)) as [->|Hij].
    { exists b, (j :: lb). split; [|by constructor]. unfold move_ls.
      apply list_lookup_insert_eq. rewrite length_insert. by apply (Hlen _ _ Hb). }
    destruct (wf_cover _ _ _ _ Hwf i Hli) as (c & l & Hc & Hil).
    destruct (decide (c = a)) as [->|Hca].
    { rewrite Ha in Hc. simplify_eq. exists a, (l1 ++ l2). split; [|in_list].
      unfold move_ls. rewrite list_lookup_insert_ne by done.
      apply list_lookup_insert_eq. by apply (Hlen _ _ Ha). }
    destruct (decide (c = b)) as [->|Hcb].
    { rewrite Hb in Hc. simplify_eq. exists b, (j :: lb). split; [|by constructor].
      unfold move_ls. apply list_lookup_insert_eq. rewrite length_insert. by apply (Hlen _ _ Hb). }
    exists c, l. split; [|done]. unfold move_ls. by rewrite !list_lookup_insert_ne by done.
Qed.

Lemma move_dlen : e_dlen e' = e_dlen e.
Proof. unfold e_dlen. by rewrite Hdlen'. Qed.

Lemma move_apart i i' ei ei' :
  i <> i' -> move_es !! i = Some ei -> move_es !! i' = Some ei' -> apart ei ei'.
Proof.
  assert (Hrange : forall k ek, move_es !! k = Some ek ->
    exists eo, es !! k = Some eo /\ e_off ek = e_off eo /\ e_dlen ek = e_dlen eo).
  { intros k ek Hek. destruct (decide (k = j)) as [->|Hk].
    - rewrite move_new in Hek. injection Hek as <-. exists e. by rewrite move_dlen.
    - destruct (move_old k ek Hk Hek) as (eo & Heo & _ & Ho & Hd).
      exists eo. unfold e_dlen. by rewrite Hd. }
  intros Hne Hi Hi'. destruct (Hrange _ _ Hi) as (eo & Heo & Ho & Hl).
  destruct (Hrange _ _ Hi') as (eo' & Heo' & Ho' & Hl').
  pose proof (wf_apart _ _ _ _ Hwf i i' eo eo' Hne Heo Heo') as Hap.
  unfold apart in *. rewrite Ho, Ho', Hl, Hl'. done.
Qed.

Lemma move_data i ei : move_es !! i = Some ei -> data_at move_dd ei.
Proof.
  intros Hei. unfold move_dd. destruct (decide (i = j)) as [->|Hij].
  - rewrite move_new in Hei. injection Hei as <-. rewrite <- Hoff'. apply data_at_splice_self.
  - destruct (move_old i ei Hij Hei) as (eo & Heo & Hk & Ho & Hd).
    assert (data_at (splice dd (Z.to_nat (e_off e)) (e_data e' ++ [NEWLINE])) eo) as Hda.
    { apply data_at_splice_other; [apply move_eok|by eapply Forall_lookup_1| | |].
      - by apply (wf_data _ _ _ _ Hwf i).
      - apply (wf_apart _ _ _ _ Hwf j i); auto.
      - rewrite length_app, Hdlen'. unfold e_dlen. simpl. lia. }
    unfold data_at, e_dlen in *. by rewrite Ho, Hd.
Qed.

Lemma wf_move : wf move_hdr move_es move_dd move_ls.
Proof.
  destruct move_wf_lists as (Hnd & Hdisj & Hcov). split.
  - unfold move_hdr, hdr1. rewrite length_insert, length_setp_hdr. apply Hwf.
  - unfold move_ls. rewrite !length_insert. apply Hwf.
  - apply Forall_insert; [|apply move_eoff_ok].
    apply setp_hdr_ok; [apply move_ptr_e|apply Hwf].
  - apply Forall_insert; [|done]. apply setp_es_ok; [apply move_ptr_e|done].
  - apply move_chain.
  - done.
  - done.
  - done.
  - apply move_place.
  - apply move_uniq.
  - apply move_data.
  - apply move_apart.
Qed.

(** What the database holds without record [j]. *)
Lemma move_models_del m k d :
  models es ls m ->
  (if decide (a = O) then m else delete (e_key e) m) !! k = Some d <->
  exists c l i ei, c <> O /\ ls !! c = Some l /\ i ∈ l /\ i <> j /\ es !! i = Some ei
    /\ e_key ei = k /\ e_data ei = d.
Proof.
  intros Hm. assert (Hja : j ∈ l1 ++ j :: l2) by (apply elem_of_app; right; by constructor).
  destruct (decide (a = O)) as [Ha0|Ha0].
  - rewrite (Hm k d). split; intros (c & l & i & ei & Hc0 & Hc & Hi & Hrest).
    + exists c, l, i, ei. repeat split; try tauto. intros ->.
      apply (move_j_out c l Hc); [lia|done].
    + exists c, l, i, ei. tauto.
  - rewrite lookup_delete_Some, (Hm k d). split.
    + intros (Hne & c & l & i & ei & Hc0 & Hc & Hi & Hei & Hk & Hd).
      exists c, l, i, ei. repeat split; try done. intros ->. congruence.
    + intros (c & l & i & ei & Hc0 & Hc & Hi & Hij & Hei & Hk & Hd).
      split; [|by exists c, l, i, ei]. intros Hkey.
      pose proof (wf_place _ _ _ _ Hwf _ _ _ _ Hc Hi Hei) as Hp1.
      pose proof (wf_place _ _ _ _ Hwf _ _ _ _ Ha Hja He) as Hp2.
      apply well_placed_pos in Hp1; [|done]. apply well_placed_pos in Hp2; [|done].
      assert (Hca : c = a) by congruence. rewrite Hca, Ha in Hc. injection Hc as <-.
      apply Hij. apply (wf_uniq _ _ _ _ Hwf a (l1 ++ j :: l2) i j ei e); try done. congruence.
Qed.

(** The other records stay where they were. *)
Lemma move_models_keep c l i ei :
  c <> O -> ls !! c = Some l -> i ∈ l -> i <> j -> es !! i = Some ei ->
  exists l' ei', move_ls !! c = Some l' /\ i ∈ l' /\ move_es !! i = Some ei'
    /\ e_key ei' = e_key ei /\ e_data ei' = e_data ei.
Proof.
  intros Hc0 Hc Hi Hij Hei.
  destruct (proj2 (proj2 move_wf_lists) i) as (c' & l' & Hc' & Hi').
  { unfold move_es, es1. rewrite length_insert, length_setp_es. by eapply lookup_lt_Some. }
  destruct (move_owner c' l' i Hc' Hi') as [[-> _]|(_ & lo & Hlo & Hio)]; [done|].
  assert (c' = c) as -> by (by eapply (wf_disj _ _ _ _ Hwf)).
  destruct (move_lookup i Hij) as [p [Hp|Hp]]; rewrite Hei in Hp; simpl in Hp;
    eexists l', _; by rewrite Hp.
Qed.

Lemma move_models_rest c l i ei :
  c <> O -> move_ls !! c = Some l -> i ∈ l -> i <> j -> move_es !! i = Some ei ->
  exists l' eo, ls !! c = Some l' /\ i ∈ l' /\ es !! i = Some eo
    /\ e_key eo = e_key ei /\ e_data eo = e_data ei.
Proof.
  intros Hc0 Hc Hi Hij Hei.
  destruct (move_owner c l i Hc Hi) as [[-> _]|(_ & lo & Hlo & Hio)]; [done|].
  destruct (move_old i ei Hij Hei) as (eo & Heo & Hk & _ & Hd). by exists lo, eo.
Qed.

(** No record that stays has the key of the record that moved in. *)
Lemma move_models_fresh c l i ei :
  b <> O -> c <> O -> move_ls !! c = Some l -> i ∈ l -> i <> j -> move_es !! i = Some ei ->
  e_key ei <> e_key e'.
Proof.
  intros Hb0 Hc0 Hc Hi Hij Hei Hkey.
  pose proof (move_place c l i ei Hc Hi Hei) as Hp1. pose proof Hplace as Hp2.
  apply well_placed_pos in Hp1; [|done]. apply well_placed_pos in Hp2; [|done].
  assert (Hcb : c = b) by congruence.
  destruct (move_models_rest c l i ei Hc0 Hc Hi Hij Hei) as (lo & eo & Hlo & Hio & Heo & Hk & _).
  rewrite Hcb, Hb in Hlo. injection Hlo as <-. apply (Hnew Hb0 i eo Hio Heo). congruence.
Qed.

(** The move replaces whatever [e] stood for by what [e'] stands for. *)
Lemma models_move m :
  models es ls m ->
  models move_es move_ls
    (let m1 := if decide (a = O) then m else delete (e_key e) m in
     if decide (b = O) then m1 else <[e_key e' := e_data e']> m1).
Proof.
  intros Hm k d. cbn zeta. destruct (decide (b = O)) as [Hb0|Hb0].
  - rewrite move_models_del by done. split.
    + intros (c & l & i & ei & Hc0 & Hc & Hi & Hij & Hei & <- & <-).
      destruct (move_models_keep c l i ei Hc0 Hc Hi Hij Hei) as (l' & ei' & H).
      exists c, l', i, ei'. tauto.
    + intros (c & l & i & ei & Hc0 & Hc & Hi & Hei & <- & <-).
      destruct (move_owner c l i Hc Hi) as [[_ ->]|(Hij & _)]; [done|].
      destruct (move_models_rest c l i ei Hc0 Hc Hi Hij Hei) as (l' & eo & H).
      exists c, l', i, eo. tauto.
  - rewrite lookup_insert_Some, move_models_del by done. split.
    + intros [[<- <-]|(Hne & c & l & i & ei & Hc0 & Hc & Hi & Hij & Hei & <- & <-)].
      * exists b, (j :: lb), j, e'. repeat split; [done| |by constructor|apply move_new].
        unfold move_ls. apply list_lookup_insert_eq. rewrite length_insert. by eapply lookup_lt_Some.
      * destruct (move_models_keep c l i ei Hc0 Hc Hi Hij Hei) as (l' & ei' & H).
        exists c, l', i, ei'. tauto.
    + intros (c & l & i & ei & Hc0 & Hc & Hi & Hei & <- & <-).
      destruct (decide (i = j)) as [->|Hij].
      * left. rewrite move_new in Hei. by injection Hei as <-.
      * right. split; [intros ?; by eapply (move_models_fresh c l i ei)|].
        destruct (move_models_rest c l i ei Hc0 Hc Hi Hij Hei) as (l' & eo & H).
        exists c, l', i, eo. tauto.
Qed.
End Move.

(** ** Appending a record at the front of a chain *)

Section Append.
Context (hdr : list Z) (es : list entry) (dd : bytes) (ls : list (list nat)).
Context (b : nat) (lb : list nat) (e : entry).
Hypothesis Hwf : wf hdr es dd ls.
Hypothesis Hb0 : b <> O.
Hypothesis Hb : ls !! b = Some lb.
Hypothesis Hpb : hdr !! b = Some (e_ptr e).
Hypothesis Hok : entry_ok e.
Hypothesis Hroom : ptr_ok (eoff es (length es)).
Hypothesis Hoff : e_off e = Z.of_nat (length dd).
Hypothesis Hplace : well_placed b e.
Hypothesis Hnew : forall i ei, i ∈ lb -> es !! i = Some ei -> e_key ei <> e_key e.

Definition app_hdr := <[b := eoff es (length es)]> hdr.
Definition app_es := es ++ [e].
Definition app_ls := <[b := length es :: lb]> ls.
Definition app_dd := dd ++ e_data e ++ [NEWLINE].

Lemma app_lookup i ei : app_es !! i = Some ei ->
  (i < length es)%nat /\ es !! i = Some ei \/ i = length es /\ ei = e.
Proof.
  unfold app_es. intros H. apply lookup_app_Some in H as [H|[Hi H]].
  - left. split; [by eapply lookup_lt_Some|done].
  - right. apply list_lookup_singleton_Some in H as [H <-]. split; [lia|done].
Qed.

Lemma app_lookup_old i : (i < length es)%nat -> app_es !! i = es !! i.
Proof. intros. unfold app_es. by rewrite lookup_app_l. Qed.

Lemma app_member c l i : ls !! c = Some l -> i ∈ l -> (i < length es)%nat.
Proof.
  intros Hc Hi. destruct (wf_chain _ _ _ _ Hwf c l Hc) as (p & _ & Hch).
  destruct (chain_lookup _ _ _ _ Hch Hi) as [ei Hei]. by eapply lookup_lt_Some.
Qed.

Lemma app_ls_cases c l i : app_ls !! c = Some l -> i ∈ l ->
  (c = b /\ i = length es) \/ ((i < length es)%nat /\ exists lo, ls !! c = Some lo /\ i ∈ lo).
Proof.
  intros Hc Hi. unfold app_ls in Hc.
  apply list_lookup_insert_Some in Hc as [(<- & <- & _)|[Hcb Hc]].
  - apply elem_of_cons in Hi as [->|Hi]; [by left|]. right. split; [by eapply app_member|eauto].
  - right. split; [by eapply app_member|eauto].
Qed.

Lemma app_chain_frame p l :
  (forall i, i ∈ l -> (i < length es)%nat) -> chain es p l -> chain app_es p l.
Proof.
  intros Hl. apply chain_frame. intros i Hi. specialize (Hl i Hi). split.
  - by rewrite app_lookup_old.
  - apply eoff_app. lia.
Qed.

Lemma app_chain c l : app_ls !! c = Some l -> lchain app_hdr app_es (LHdr c) l.
Proof.
  unfold app_ls. intros Hc. apply list_lookup_insert_Some in Hc as [(<- & <- & _)|[Hcb Hc]].
  - destruct (wf_chain _ _ _ _ Hwf b lb Hb) as (p & Hp & Hch). simpl in Hp.
    exists (eoff es (length es)). split.
    + simpl. apply list_lookup_insert_eq. by eapply lookup_lt_Some.
    + exists e. split; [|split].
      * unfold app_es. by rewrite list_lookup_middle.
      * symmetry. apply eoff_app. lia.
      * apply app_chain_frame; [by eauto using app_member|]. congruence.
  - apply lchain_insert_hdr; [done|]. destruct (wf_chain _ _ _ _ Hwf c l Hc) as (p & Hp & Hch).
    exists p. split; [done|]. apply app_chain_frame; [by eauto using app_member|done].
Qed.

Lemma app_data i ei : app_es !! i = Some ei -> data_at app_dd ei.
Proof.
  intros Hei. unfold app_dd. destruct (app_lookup i ei Hei) as [[_ H]|[-> ->]].
  - pose proof (wf_data _ _ _ _ Hwf i ei H) as Hd.
    pose proof (Forall_lookup_1 _ _ _ _ (wf_es _ _ _ _ Hwf) H) as Hok'.
    pose proof (data_at_bound dd ei Hd (proj1 (eo_off ei Hok'))).
    pose proof (eo_off ei Hok').
    unfold data_at in *. rewrite slice_app_l; [done|]. unfold e_dlen in *. lia.
  - unfold data_at. rewrite <- (app_nil_r (dd ++ e_data e ++ [NEWLINE])), <- app_assoc.
    apply slice_middle; [lia|]. unfold e_dlen. rewrite length_app. simpl. lia.
Qed.

Lemma app_apart i i' ei ei' :
  i <> i' -> app_es !! i = Some ei -> app_es !! i' = Some ei' -> apart ei ei'.
Proof.
  assert (Hend : forall k ek, es !! k = Some ek -> e_off ek + e_dlen ek <= e_off e).
  { intros k ek Hk. rewrite Hoff. apply data_at_bound; [by apply (wf_data _ _ _ _ Hwf k)|].
    apply (eo_off ek). eapply Forall_lookup_1; [apply Hwf|done]. }
  intros Hne Hi Hi'. destruct (app_lookup i ei Hi) as [[_ H]|[-> ->]];
    destruct (app_lookup i' ei' Hi') as [[_ H']|[-> ->]]; [| | |done].
  - by eapply (wf_apart _ _ _ _ Hwf i i').
  - left. eauto.
  - right. eauto.
Qed.

Lemma app_nodup c l : app_ls !! c = Some l -> NoDup l.
Proof.
  unfold app_ls. intros Hc. apply list_lookup_insert_Some in Hc as [(<- & <- & _)|[Hcb Hc]].
  - apply NoDup_cons; split; [|by apply (wf_nodup _ _ _ _ Hwf b)].
    intros Hi. pose proof (app_member b lb _ Hb Hi). lia.
  - by apply (wf_nodup _ _ _ _ Hwf c).
Qed.

Lemma app_cover i : (i < length app_es)%nat -> exists c l, app_ls !! c = Some l /\ i ∈ l.
Proof.
  intros Hi. unfold app_es in Hi. rewrite length_app in Hi. simpl in Hi.
  assert (Hbl : app_ls !! b = Some (length es :: lb)).
  { apply list_lookup_insert_eq. by eapply lookup_lt_Some. }
  destruct (decide (i = length es)) as [->|].
  { exists b, (length es :: lb). split; [done|by constructor]. }
  destruct (wf_cover _ _ _ _ Hwf i ltac:(lia)) as (c & l & Hc & Hil).
  destruct (decide (c = b)) as [Hcb|Hcb].
  - exists b, (length es :: lb). split; [done|]. rewrite Hcb, Hb in Hc. injection Hc as <-. by constructor.
  - exists c, l. split; [|done]. unfold app_ls. by rewrite list_lookup_insert_ne.
Qed.

Lemma app_fresh i ei : (i < length es)%nat -> es !! i = Some ei ->
  (exists lo, ls !! b = Some lo /\ i ∈ lo) -> e_key ei <> e_key e.
Proof. intros _ Hei (lo & Hlo & Hi). rewrite Hb in Hlo. injection Hlo as <-. by apply (Hnew i). Qed.

Lemma wf_append : wf app_hdr app_es app_dd app_ls.
Proof.
  split.
  - unfold app_hdr. rewrite length_insert. apply Hwf.
  - unfold app_ls. rewrite length_insert. apply Hwf.
  - apply Forall_insert; [apply Hwf|done].
  - apply Forall_app; split; [apply Hwf|by constructor].
  - apply app_chain.
  - apply app_nodup.
  - intros c c' l l' i Hc Hc' Hi Hi'.
    destruct (app_ls_cases c l i Hc Hi) as [[-> ->]|(Hlt & lo & Hlo & Hio)];
      destruct (app_ls_cases c' l' _ Hc' Hi') as [[-> Heq]|(Hlt' & lo' & Hlo' & Hio')];
      [done|lia|lia|by eapply (wf_disj _ _ _ _ Hwf)].
  - apply app_cover.
  - intros c l i ei Hc Hi Hei. destruct (app_ls_cases c l i Hc Hi) as [[-> ->]|(Hlt & lo & Hlo & Hio)].
    + destruct (app_lookup _ _ Hei) as [[? _]|[_ ->]]; [lia|done].
    + rewrite app_lookup_old in Hei by done. by eapply (wf_place _ _ _ _ Hwf).
  - intros c l i i' ei ei' Hc0 Hc Hi Hi' Hei Hei' Hk.
    destruct (app_ls_cases c l i Hc Hi) as [[Hcb ->]|(Hlt & lo & Hlo & Hio)];
      destruct (app_ls_cases c l _ Hc Hi') as [[Hcb' ->]|(Hlt' & lo' & Hlo' & Hio')]; [done| | |].
    + destruct (app_lookup _ _ Hei) as [[? _]|[_ ->]]; [lia|].
      rewrite app_lookup_old in Hei' by done. exfalso. subst c.
      apply (app_fresh i' ei' Hlt' Hei'); [by eauto|done].
    + destruct (app_lookup _ _ Hei') as [[? _]|[_ ->]]; [lia|].
      rewrite app_lookup_old in Hei by done. exfalso. subst c.
      apply (app_fresh i ei Hlt Hei); [by eauto|done].
    + rewrite app_lookup_old in Hei, Hei' by done. assert (lo' = lo) as -> by congruence.
      by eapply (wf_uniq _ _ _ _ Hwf c lo).
  - apply app_data.
  - apply app_apart.
Qed.

Lemma models_append m : models es ls m -> models app_es app_ls (<[e_key e := e_data e]> m).
Proof.
  intros Hm k d. rewrite lookup_insert_Some, (Hm k d). split.
  - intros [[<- <-]|(Hne & c & l & i & ei & Hc0 & Hc & Hi & Hei & Hrest)].
    + exists b, (length es :: lb), (length es), e. repeat split; [done| |by constructor|].
      * apply list_lookup_insert_eq. by eapply lookup_lt_Some.
      * unfold app_es. by rewrite list_lookup_middle.
    + assert (Hlt : (i < length es)%nat) by (by eapply app_member).
      destruct (decide (c = b)) as [Hcb|Hcb].
      * exists b, (length es :: lb), i, ei. rewrite Hcb, Hb in Hc. injection Hc as <-.
        repeat split; try tauto; [|by constructor|by rewrite app_lookup_old].
        apply list_lookup_insert_eq. by eapply lookup_lt_Some.
      * exists c, l, i, ei. repeat split; try tauto; [|by rewrite app_lookup_old].
        unfold app_ls. by rewrite list_lookup_insert_ne.
  - intros (c & l & i & ei & Hc0 & Hc & Hi & Hei & <- & <-).
    destruct (app_ls_cases c l i Hc Hi) as [[-> ->]|(Hlt & lo & Hlo & Hio)].
    + left. destruct (app_lookup _ _ Hei) as [[? _]|[_ ->]]; [lia|done].
    + right. rewrite app_lookup_old in Hei by done. split; [|by exists c, lo, i, ei].
      intros Hk. pose proof (wf_place _ _ _ _ Hwf _ _ _ _ Hlo Hio Hei) as Hp1.
      pose proof Hplace as Hp2.
      apply well_placed_pos in Hp1; [|done]. apply well_placed_pos in Hp2; [|done].
      assert (Hcb : c = b) by congruence. rewrite Hcb in Hlo.
      by apply (app_fresh i ei Hlt Hei); eauto.
Qed.
End Append.

(** ** Replacing the data of a record by data of the same length *)

Definition set_data (d : bytes) (e : entry) : entry := mkEntry (e_ptr e) (e_key e) (e_off e) d.

Section SetData.
Context (hdr : list Z) (es : list entry) (dd : bytes) (ls : list (list nat)).
Context (c : nat) (l : list nat) (j : nat) (e : entry) (d : bytes).
Hypothesis Hwf : wf hdr es dd ls.
Hypothesis Hc0 : c <> O.
Hypothesis Hc : ls !! c = Some l.
Hypothesis Hj : j ∈ l.
Hypothesis He : es !! j = Some e.
Hypothesis Hd : data_ok d.
Hypothesis Hlen : length d = length (e_data e).

Let e' := set_data d e.
Definition sd_es := <[j := e']> es.
Definition sd_dd := splice dd (Z.to_nat (e_off e)) (d ++ [NEWLINE]).

Lemma sd_dlen : e_dlen e' = e_dlen e.
Proof. unfold e_dlen. simpl. by rewrite Hlen. Qed.

(** The index record is the same: same key, same offset, same length. *)
Lemma sd_enc : enc_entry e' = enc_entry e.
Proof. unfold enc_entry, e_text. by rewrite sd_dlen. Qed.

Lemma sd_index : enc_index hdr sd_es = enc_index hdr es.
Proof.
  unfold sd_es. rewrite (enc_index_insert _ _ _ _ _ He), sd_enc.
  by rewrite <- (enc_index_entry hdr es j e He).
Qed.

Lemma sd_eoff i : eoff sd_es i = eoff es i.
Proof. eapply eoff_insert; [exact He|]. by rewrite sd_enc. Qed.

Lemma sd_lookup i ei : sd_es !! i = Some ei ->
  exists eo, es !! i = Some eo /\ e_ptr ei = e_ptr eo /\ e_key ei = e_key eo /\ e_off ei = e_off eo
    /\ e_dlen ei = e_dlen eo /\ (i <> j -> ei = eo).
Proof.
  unfold sd_es. intros H. apply list_lookup_insert_Some in H as [(<- & <- & _)|[Hij H]].
  - exists e. by rewrite sd_dlen.
  - by exists ei.
Qed.

Lemma sd_lookup_old i eo : es !! i = Some eo -> exists ei, sd_es !! i = Some ei /\ e_ptr ei = e_ptr eo
  /\ e_key ei = e_key eo /\ (i <> j -> ei = eo).
Proof.
  intros H. destruct (decide (i = j)) as [->|Hij].
  - exists e'. unfold sd_es. rewrite list_lookup_insert_eq by (by eapply lookup_lt_Some).
    assert (eo = e) as -> by congruence. done.
  - exists eo. unfold sd_es. by rewrite list_lookup_insert_ne.
Qed.

Lemma sd_ok : Forall entry_ok sd_es.
Proof.
  apply Forall_insert; [apply Hwf|].
  pose proof (Forall_lookup_1 _ _ _ _ (wf_es _ _ _ _ Hwf) He) as [Hp Hk Ho _ Hl].
  split; try done. unfold e_text. by rewrite sd_dlen.
Qed.

Lemma sd_data i ei : sd_es !! i = Some ei -> data_at sd_dd ei.
Proof.
  intros Hei. unfold sd_dd. destruct (decide (i = j)) as [->|Hij].
  - assert (ei = e') as ->.
    { unfold sd_es in Hei. rewrite list_lookup_insert_eq in Hei by (by eapply lookup_lt_Some). congruence. }
    apply (data_at_splice_self dd e').
  - destruct (sd_lookup i ei Hei) as (eo & Heo & _ & _ & _ & _ & Heq). rewrite (Heq Hij).
    pose proof (wf_es _ _ _ _ Hwf) as Hes.
    apply data_at_splice_other.
    + by eapply Forall_lookup_1.
    + by eapply Forall_lookup_1.
    + by apply (wf_data _ _ _ _ Hwf i).
    + apply (wf_apart _ _ _ _ Hwf j i); auto.
    + rewrite length_app. unfold e_dlen. simpl. lia.
Qed.

Lemma wf_set_data : wf hdr sd_es sd_dd ls.
Proof.
  split; try apply Hwf.
  - apply sd_ok.
  - intros c' l' Hc'. destruct (wf_chain _ _ _ _ Hwf c' l' Hc') as (p & Hp & Hch).
    exists p. split; [done|]. eapply chain_frame; [|exact Hch]. intros i Hi.
    split; [|apply sd_eoff]. destruct (chain_lookup _ _ _ _ Hch Hi) as [eo Heo].
    destruct (sd_lookup_old i eo Heo) as (ei & Hei & Hptr & _). rewrite Hei, Heo. simpl. by f_equal.
  - intros i Hi. unfold sd_es in Hi. rewrite length_insert in Hi. by apply (wf_cover _ _ _ _ Hwf).
  - intros c' l' i ei Hc' Hi Hei. destruct (sd_lookup i ei Hei) as (eo & Heo & _ & Hk & _ & _ & Heq).
    pose proof (wf_place _ _ _ _ Hwf c' l' i eo Hc' Hi Heo) as Hw.
    destruct (decide (i = j)) as [->|Hij]; [|by rewrite (Heq Hij)].
    assert (c' = c) as -> by (by eapply (wf_disj _ _ _ _ Hwf)).
    apply well_placed_pos in Hw; [|done]. unfold well_placed. rewrite decide_False by done. congruence.
  - intros c' l' i i' ei ei' Hc0' Hc' Hi Hi' Hei Hei' Hk.
    destruct (sd_lookup i ei Hei) as (eo & Heo & _ & Hko & _).
    destruct (sd_lookup i' ei' Hei') as (eo' & Heo' & _ & Hko' & _).
    eapply (wf_uniq _ _ _ _ Hwf c' l' i i' eo eo'); try done. congruence.
  - apply sd_data.
  - intros i i' ei ei' Hne Hi Hi'. destruct (sd_lookup i ei Hi) as (eo & Heo & _ & _ & Ho & Hl & _).
    destruct (sd_lookup i' ei' Hi') as (eo' & Heo' & _ & _ & Ho' & Hl' & _).
    pose proof (wf_apart _ _ _ _ Hwf i i' eo eo' Hne Heo Heo') as Hap.
    unfold apart in *. by rewrite Ho, Ho', Hl, Hl'.
Qed.

Lemma models_set_data m : models es ls m -> models sd_es ls (<[e_key e := d]> m).
Proof.
  intros Hm k v. assert (Hj' : sd_es !! j = Some e').
  { unfold sd_es. apply list_lookup_insert_eq. by eapply lookup_lt_Some. }
  rewrite lookup_insert_Some, (Hm k v). split.
  - intros [[<- <-]|(Hne & c' & l' & i & ei & Hc0' & Hc' & Hi & Hei & Hk & Hv)].
    + by exists c, l, j, e'.
    + destruct (sd_lookup_old i ei Hei) as (ei' & Hei' & _ & _ & Heq).
      assert (Hij : i <> j) by (intros ->; congruence).
      rewrite (Heq Hij) in Hei'. by exists c', l', i, ei.
  - intros (c' & l' & i & ei & Hc0' & Hc' & Hi & Hei & <- & <-).
    destruct (decide (i = j)) as [->|Hij].
    + left. assert (ei = e') as -> by congruence. done.
    + right. destruct (sd_lookup i ei Hei) as (eo & Heo & _ & Hk & _ & _ & Heq).
      rewrite (Heq Hij) in *. split; [|by exists c', l', i, eo].
      intros Hkey. pose proof (wf_place _ _ _ _ Hwf _ _ _ _ Hc Hj He) as Hp1.
      pose proof (wf_place _ _ _ _ Hwf _ _ _ _ Hc' Hi Heo) as Hp2.
      apply well_placed_pos in Hp1; [|done]. apply well_placed_pos in Hp2; [|done].
      assert (Hcc : c' = c) by congruence. rewrite Hcc, Hc in Hc'. injection Hc' as <-.
      apply Hij. by apply (wf_uniq _ _ _ _ Hwf c l i j eo e).
Qed.
End SetData.
