(* ===== verification/DbOps.v ===== *)
(** * DbOps: the functions of db.c that walk and relink the chains. *)
From S2P Require Import Prelude Libc Files Db DbFormat DbWp DbChain.
Local Open Scope Z_scope.

(** The files of [db] are the image of [hdr] and [es] and the data [dd]. *)
Record image (hdr : list Z) (es : list entry) (dd : bytes) (db : DB) : Prop := {
  im_ready : ready db;
  im_idx : f_data (idxfd db) = enc_index hdr es;
  im_dat : f_data (datfd db) = dd;
  im_len : length hdr = 138%nat;
  im_ptrs : Forall ptr_ok hdr;
  im_es : Forall entry_ok es
}.

(** A handle that can be written, with both files within their limits. *)
Record can_write (db : DB) : Prop := {
  cw_writable : writable db;
  cw_idx : f_size (idxfd db) <= f_lim (idxfd db);
  cw_dat : f_size (datfd db) <= f_lim (datfd db)
}.

Lemma image_keeps hdr es dd db db' : keeps db db' -> image hdr es dd db -> image hdr es dd db'.
Proof.
  intros Hk Hi. pose proof (ready_upd _ _ _ _ _ Hk (im_ready _ _ _ _ Hi)).
  destruct Hk, Hi. split; congruence.
Qed.

Lemma image_upd hdr es dd hdr' es' dd' evs db db' :
  image hdr es dd db -> upd (enc_index hdr' es') dd' evs db db' ->
  length hdr' = 138%nat -> Forall ptr_ok hdr' -> Forall entry_ok es' -> image hdr' es' dd' db'.
Proof.
  intros Hi Hu Hl Hp He. pose proof (ready_upd _ _ _ _ _ Hu (im_ready _ _ _ _ Hi)).
  destruct Hu. by split.
Qed.

(** Files that do not grow stay within their limits. *)
Lemma can_write_upd i d evs db db' :
  can_write db -> upd i d evs db db' ->
  Z.of_nat (length i) <= f_lim (idxfd db) -> Z.of_nat (length d) <= f_lim (datfd db) ->
  can_write db'.
Proof.
  intros [Hw _ _] Hu Hi Hd. pose proof (writable_upd _ _ _ _ _ Hu Hw).
  destruct Hu as [Hf Hfi Hfd _ _ _]. unfold frame in Hf. simplify_eq.
  split; [done| |]; unfold f_size; congruence.
Qed.

(** ** Chain pointers by location *)

Lemma wp_readptr_hdr hdr es dd j p Q db :
  image hdr es dd db -> hdr !! j = Some p ->
  (forall db', keeps db db' -> cursor db' = cursor db -> idxbuf db' = idxbuf db -> Q p db') ->
  wp (_db_readptr (6 * Z.of_nat j)) Q db.
Proof.
  intros Hi Hj HQ. apply (wp_readptr _ p).
  - apply Hi.
  - lia.
  - eapply Forall_lookup_1; [apply Hi|done].
  - rewrite (im_idx _ _ _ _ Hi). replace (Z.to_nat (6 * Z.of_nat j)) with (6 * j)%nat by lia.
    apply index_read_hdr; [apply Hi|done].
  - done.
Qed.

Lemma loc_off_bound hdr es l q :
  length hdr = 138%nat -> Forall ptr_ok hdr -> Forall entry_ok es -> getp l hdr es = Some q ->
  0 <= loc_off es l /\ loc_off es l + 6 <= Z.of_nat (length (enc_index hdr es)).
Proof.
  intros Hl Hp Hes Hq. rewrite length_enc_index by done.
  destruct l as [j|i]; simpl in *.
  - apply lookup_lt_Some in Hq. unfold eoff. lia.
  - destruct (es !! i) as [e|] eqn:He; [|done].
    assert (i < length es)%nat by (by eapply lookup_lt_Some).
    pose proof (eoff_pos es i). pose proof (eoff_lt es i (length es) Hes ltac:(lia)). lia.
Qed.

Lemma index_write_loc hdr es l q p :
  length hdr = 138%nat -> Forall ptr_ok hdr -> Forall entry_ok es ->
  getp l hdr es = Some q -> ptr_ok p ->
  splice (enc_index hdr es) (Z.to_nat (loc_off es l)) (enc_ptr p)
  = enc_index (setp_hdr l p hdr) (setp_es l p es).
Proof.
  intros Hl Hh Hes Hq Hp. destruct l as [j|i]; simpl in Hq |- *.
  - replace (Z.to_nat (6 * Z.of_nat j)) with (6 * j)%nat by lia. by eapply index_write_hdr.
  - destruct (es !! i) as [e|] eqn:He; [|done].
    change (alter (set_ptr p) i es) with (setp_es (LEnt i) p es).
    rewrite (setp_es_insert _ _ _ _ He). apply index_write_ptr; try done.
    apply (eo_ptr e). by eapply Forall_lookup_1.
Qed.

Lemma length_splice_within d off bs :
  (off + length bs <= length d)%nat -> length (splice d off bs) = length d.
Proof. rewrite length_splice. lia. Qed.

Lemma wp_writeptr_loc hdr es dd l q p Q db :
  image hdr es dd db -> can_write db -> getp l hdr es = Some q -> ptr_ok p ->
  (forall db',
     upd (enc_index (setp_hdr l p hdr) (setp_es l p es)) dd [EvWrite IDX (loc_off es l) 6] db db' ->
     image (setp_hdr l p hdr) (setp_es l p es) dd db' -> can_write db' ->
     cursor db' = cursor db -> idxbuf db' = idxbuf db -> Q tt db') ->
  wp (_db_writeptr (loc_off es l) p) Q db.
Proof.
  intros Hi Hw Hq Hp HQ. destruct Hi as [Hr Hfi Hfd Hl Hh Hes].
  destruct (loc_off_bound hdr es l q Hl Hh Hes Hq) as [Ho1 Ho2].
  pose proof (cw_idx _ Hw) as Hlim. unfold f_size in Hlim. rewrite Hfi in Hlim.
  apply wp_writeptr; [done|apply Hw|done|done|lia|]. intros db' Hu Hc Hb.
  rewrite Hfi, Hfd in Hu. rewrite (index_write_loc _ _ _ q) in Hu by done.
  assert (Hi' : image (setp_hdr l p hdr) (setp_es l p es) dd db').
  { eapply image_upd; [by split|exact Hu|by rewrite length_setp_hdr|by apply setp_hdr_ok|by apply setp_es_ok]. }
  apply HQ; try done. eapply can_write_upd; [exact Hw|exact Hu| |].
  - rewrite <- (index_write_loc _ _ _ q) by done. rewrite length_splice_within; [lia|].
    rewrite length_enc_ptr by done. lia.
  - rewrite <- Hfd. apply Hw.
Qed.

(** ** Reading a record of a chain *)

Lemma wp_readidx hdr es dd i e Q db :
  image hdr es dd db -> es !! i = Some e ->
  (forall db', keeps db db' -> loaded (eoff es i) e db' -> ptroff db' = ptroff db -> Q (e_ptr e) db') ->
  wp (_db_readidx (eoff es i)) Q db.
Proof.
  intros Hi He HQ. destruct Hi as [Hr Hfi Hfd Hl Hh Hes].
  pose proof (length_before hdr es i Hh Hl) as Hlen. pose proof (eoff_pos es i) as Hpos.
  apply (wp_readidx_at _ e (before hdr es i) (after es i)).
  - done.
  - by eapply Forall_lookup_1.
  - rewrite Hfi. by apply enc_index_entry.
  - destruct (Z.eqb_spec (eoff es i) 0); lia.
  - intros db' Hk Hld Hpt _. rewrite Hlen in Hld. by apply HQ.
Qed.

Lemma wp_find_loop hdr es dd fuel key ns : forall p l Q db,
  image hdr es dd db -> chain es p ns -> (length ns <= fuel)%nat -> ptroff db = loc_off es l ->
  (forall db', keeps db db' ->
     (forall i e, i ∈ ns -> es !! i = Some e -> e_key e <> key) -> Q 0 db') ->
  (forall db' l1 j l2 e, keeps db db' -> ns = l1 ++ j :: l2 -> es !! j = Some e -> e_key e = key ->
     loaded (eoff es j) e db' -> ptroff db' = loc_off es (pred_loc l l1) -> Q (eoff es j) db') ->
  wp (find_loop fuel key p) Q db.
Proof.
  revert fuel. induction ns as [|i ns IH]; intros fuel p l Q db Hi Hc Hfuel Hpt HQ0 HQ1.
  - simpl in Hc. subst p. destruct fuel; (simpl; apply wp_ret, HQ0; [by split|];
      intros i e Hin; by apply not_elem_of_nil in Hin).
  - destruct Hc as (e & He & -> & Hc). destruct fuel as [|fuel]; simpl in Hfuel; [lia|].
    cbn [find_loop]. pose proof (eoff_pos es i) as Hpos.
    apply wp_if_false; [apply Z.eqb_neq; lia|].
    wp_step. apply (wp_readidx hdr es dd i e); [done|done|]. intros db1 Hk1 Hld Hpt1.
    wp_steps. rewrite (ld_key _ _ _ Hld). destruct (bool_decide_reflect (e_key e = key)) as [Hkey|Hkey].
    + wp_step. apply (HQ1 db1 [] i ns e); try done. simpl. congruence.
    + wp_steps. assert (Hk2 : keeps db1 (set_ptroff (eoff es i) db1)) by (by split).
      pose proof (upd_keeps _ _ _ _ _ _ Hk1 Hk2) as Hk.
      apply (IH fuel (e_ptr e) (LEnt i)); [by eapply image_keeps|done|lia|done| |].
      * intros db' Hk' Hall. apply HQ0; [by eapply upd_keeps|].
        intros i' e' [->|Hin]%elem_of_cons He'; [congruence|by eapply Hall].
      * intros db' l1 j l2 e' Hk' -> Hj Hkey' Hld' Hpt'.
        apply (HQ1 db' (i :: l1) j l2 e'); try done. by eapply upd_keeps.
Qed.

(** A free record of the wanted sizes. *)
Definition fits_sizes (keylen dlen : Z) (e : entry) : bool :=
  (Z.of_nat (length (e_key e)) =? keylen) && (e_dlen e =? dlen).

Lemma wp_findfree_loop hdr es dd fuel keylen dlen ns : forall p l Q db,
  image hdr es dd db -> chain es p ns -> (length ns <= fuel)%nat ->
  (forall db' s, keeps db db' ->
     (forall i e, i ∈ ns -> es !! i = Some e -> fits_sizes keylen dlen e = false) -> Q (s, 0) db') ->
  (forall db' l1 j l2 e, keeps db db' -> ns = l1 ++ j :: l2 -> es !! j = Some e ->
     fits_sizes keylen dlen e = true ->
     loaded (eoff es j) e db' -> Q (loc_off es (pred_loc l l1), eoff es j) db') ->
  wp (findfree_loop fuel keylen dlen (loc_off es l) p) Q db.
Proof.
  revert fuel. induction ns as [|i ns IH]; intros fuel p l Q db Hi Hc Hfuel HQ0 HQ1.
  - simpl in Hc. subst p. destruct fuel; (simpl; apply wp_ret, HQ0; [by split|];
      intros i e Hin; by apply not_elem_of_nil in Hin).
  - destruct Hc as (e & He & -> & Hc). destruct fuel as [|fuel]; simpl in Hfuel; [lia|].
    cbn [findfree_loop]. pose proof (eoff_pos es i) as Hpos.
    apply wp_if_false; [apply Z.eqb_neq; lia|].
    wp_step. apply (wp_readidx hdr es dd i e); [done|done|]. intros db1 Hk1 Hld Hpt1.
    wp_steps. rewrite (ld_key _ _ _ Hld), (ld_datlen _ _ _ Hld). fold (fits_sizes keylen dlen e).
    destruct (fits_sizes keylen dlen e) eqn:Hfit.
    + wp_step. by apply (HQ1 db1 [] i ns e).
    + apply (IH fuel (e_ptr e) (LEnt i)); [by eapply image_keeps|done|lia| |].
      * intros db' s Hk' Hall. apply HQ0; [by eapply upd_keeps|].
        intros i' e' [->|Hin]%elem_of_cons He'; [congruence|by eapply Hall].
      * intros db' l1 j l2 e' Hk' -> Hj Hfit' Hld'.
        apply (HQ1 db' (i :: l1) j l2 e'); try done. by eapply upd_keeps.
Qed.

(** A chain without repetition is shorter than the index file. *)
Lemma chain_short hdr es dd ls j l db :
  wf hdr es dd ls -> ls !! j = Some l -> image hdr es dd db -> (length l <= chain_fuel db)%nat.
Proof.
  intros Hwf Hj Hi. unfold chain_fuel. rewrite (im_idx _ _ _ _ Hi).
  pose proof (length_es_bound hdr es (wf_ptrs _ _ _ _ Hwf) (wf_es _ _ _ _ Hwf)).
  assert (length l <= length es)%nat; [|lia].
  rewrite <- (length_seq (length es) 0). apply submseteq_length.
  apply NoDup_submseteq; [by apply (wf_nodup _ _ _ _ Hwf j)|]. intros i Hin.
  destruct (wf_chain _ _ _ _ Hwf j l Hj) as (p & _ & Hc).
  destruct (chain_lookup _ _ _ _ Hc Hin) as [e He]. apply lookup_lt_Some in He.
  apply elem_of_seq. lia.
Qed.

Lemma chainoff_eq db key :
  nhash db = NHASH_DEF -> hashoff db = HASH_OFF ->
  _db_hash db key * PTR_SZ + hashoff db = 6 * Z.of_nat (S (hidx key)).
Proof.
  intros Hn Hh. unfold _db_hash, hidx. rewrite Hn, Hh. unfold NHASH_DEF, PTR_SZ, HASH_OFF.
  pose proof (Z.mod_pos_bound (hash_loop 0 1 key) 137 ltac:(lia)). unfold PTR_SZ. lia.
Qed.

(** Where the search for [key] starts: its hash chain is locked. *)
Definition locked_at (t : lock_type) (key : bytes) (db : DB) : DB :=
  let off := 6 * Z.of_nat (S (hidx key)) in
  log_event (EvLock t IDX off 1) (set_ptroff off (set_chainoff off db)).

Lemma wp_find_and_lock hdr es dd ls key writelock ns Q db :
  image hdr es dd db -> wf hdr es dd ls -> ls !! S (hidx key) = Some ns ->
  (writelock = true -> writable db) ->
  (forall db', keeps (locked_at (if writelock then F_WRLCK else F_RDLCK) key db) db' ->
     (forall i e, i ∈ ns -> es !! i = Some e -> e_key e <> key) -> Q (-1) db') ->
  (forall db' l1 j l2 e,
     keeps (locked_at (if writelock then F_WRLCK else F_RDLCK) key db) db' ->
     ns = l1 ++ j :: l2 -> es !! j = Some e -> e_key e = key ->
     loaded (eoff es j) e db' ->
     ptroff db' = loc_off es (pred_loc (LHdr (S (hidx key))) l1) -> Q 0 db') ->
  wp (_db_find_and_lock key writelock) Q db.
Proof.
  intros Hi Hwf Hls Hw HQ0 HQ1. pose proof (im_ready _ _ _ _ Hi) as Hr.
  destruct (wf_chain _ _ _ _ Hwf _ _ Hls) as (p & Hp & Hc). simpl in Hp.
  unfold _db_find_and_lock. wp_steps.
  rewrite chainoff_eq by apply Hr.
  set (db0 := locked_at (if writelock then F_WRLCK else F_RDLCK) key db) in *.
  assert (Hi0 : image hdr es dd db0) by (destruct Hi as [[]]; by split).
  apply (wp_mono _ (fun _ db' => db' = db0)).
  { destruct writelock; wp_step; apply wp_lock.
    - simpl. by rewrite (wr_idx _ (Hw eq_refl)).
    - by apply wp_dump_if.
    - simpl. by rewrite (rd_idx _ Hr).
    - by apply wp_dump_if. }
  intros _ ? ->. wp_step. apply (wp_readptr_hdr hdr es dd _ p); [done|done|].
  intros db1 Hk1 Hcur1 Hbuf1. wp_step.
  apply (wp_find_loop hdr es dd _ key ns p (LHdr (S (hidx key)))).
  - by eapply image_keeps.
  - done.
  - by eapply chain_short.
  - exact (f_equal snd Hcur1).
  - intros db' Hk Hall. wp_step. apply HQ0; [by eapply upd_keeps|done].
  - intros db' l1 j l2 e Hk Hns Hj Hkey Hld Hpt. wp_step.
    pose proof (eoff_pos es j). destruct (Z.eqb_spec (eoff es j) 0); [lia|].
    eapply HQ1; try done. by eapply upd_keeps.
Qed.

Lemma loaded_cursor off e db db' :
  cursor db' = cursor db -> idxbuf db' = idxbuf db -> loaded off e db -> loaded off e db'.
Proof. intros Hc Hb []. unfold cursor in Hc. simplify_eq. split; congruence. Qed.

Lemma image_log hdr es dd e db : image hdr es dd db -> image hdr es dd (log_event e db).
Proof. intros [[]]. by split. Qed.

Lemma can_write_log e db : can_write db -> can_write (log_event e db).
Proof. intros [[]]. by split. Qed.

Lemma can_write_keeps db db' : keeps db db' -> can_write db -> can_write db'.
Proof. intros Hk Hw. eapply can_write_upd; [exact Hw|exact Hk|apply Hw|apply Hw]. Qed.

Lemma chain_getp hdr es l l1 j l2 :
  lchain hdr es l (l1 ++ j :: l2) -> exists q, getp (pred_loc l l1) hdr es = Some q.
Proof.
  revert l. induction l1 as [|i l1 IH]; intros l (p & Hp & Hc); simpl in *; [by eauto|].
  destruct Hc as (e & He & -> & Hc). apply IH. exists (e_ptr e). split; [|done].
  simpl. by rewrite He.
Qed.

Lemma upd_log_r i d evs e db db' : upd i d evs db db' -> upd i d (e :: evs) db (log_event e db').
Proof. intros []. split; try done. simpl. congruence. Qed.

Lemma upd_log_l i d evs e db db' : upd i d evs (log_event e db) db' -> upd i d (evs ++ [e]) db db'.
Proof. intros []. split; try done. by rewrite <- app_assoc. Qed.

(** A lock, a write, reads, and a second write. *)
Lemma upd_lock_writes i1 d1 e1 i2 d2 e2 ev db db1 db2 db3 :
  upd i1 d1 e1 (log_event ev db) db1 -> keeps db1 db2 -> upd i2 d2 e2 db2 db3 -> upd i2 d2 (e2 ++ e1 ++ [ev]) db db3.
Proof. intros H1 Hk H2. rewrite app_assoc. apply upd_log_l. eapply upd_trans; [|exact H2]. by eapply upd_keeps. Qed.

(** Take a record of the given sizes off the free list. *)
Lemma wp_findfree hdr es dd ls keylen dlen fl Q db :
  image hdr es dd db -> wf hdr es dd ls -> can_write db -> ls !! O = Some fl ->
  (forall db', upd (enc_index hdr es) dd [EvLock F_UNLCK IDX 0 1; EvLock F_WRLCK IDX 0 1] db db' ->
     image hdr es dd db' -> can_write db' -> Q (-1) db') ->
  (forall db' l1 j l2 e (L := pred_loc (LHdr 0) l1),
     fl = l1 ++ j :: l2 -> es !! j = Some e -> fits_sizes keylen dlen e = true ->
     upd (enc_index (setp_hdr L (e_ptr e) hdr) (setp_es L (e_ptr e) es)) dd
       [EvLock F_UNLCK IDX 0 1; EvWrite IDX (loc_off es L) 6; EvLock F_WRLCK IDX 0 1] db db' ->
     image (setp_hdr L (e_ptr e) hdr) (setp_es L (e_ptr e) es) dd db' -> can_write db' ->
     loaded (eoff es j) e db' -> Q 0 db') ->
  wp (_db_findfree keylen dlen) Q db.
Proof.
  intros Hi Hwf Hw Hfl HQ0 HQ1.
  destruct (wf_chain _ _ _ _ Hwf _ _ Hfl) as (p & Hp & Hc). simpl in Hp.
  unfold _db_findfree. wp_step. apply wp_lock; [simpl; by rewrite (wr_idx _ (cw_writable _ Hw))|].
  wp_step. apply wp_dump_if; [done|]. wp_step.
  set (db0 := log_event _ db).
  assert (Hi0 : image hdr es dd db0) by (by apply image_log).
  assert (Hw0 : can_write db0) by (by apply can_write_log).
  change FREE_OFF with (6 * Z.of_nat 0). apply (wp_readptr_hdr hdr es dd 0 p); [done|done|].
  intros db1 Hk1 _ _. wp_steps.
  assert (Hi1 : image hdr es dd db1) by (by eapply image_keeps).
  change (6 * Z.of_nat 0) with (loc_off es (LHdr 0)).
  apply (wp_findfree_loop hdr es dd _ keylen dlen fl p (LHdr 0)); [done|done|by eapply chain_short| |].
  - intros db2 s Hk2 Hnone. cbn beta iota. wp_step. simpl. wp_step. wp_step.
    apply wp_lock; [done|]. wp_step. apply wp_dump_if; [done|]. wp_step.
    pose proof (upd_keeps _ _ _ _ _ _ Hk1 Hk2) as Hk.
    apply HQ0.
    + apply upd_log_r, (upd_log_l _ _ []).
      destruct Hk as [? Hki Hkd ???]. rewrite (im_idx _ _ _ _ Hi0), (im_dat _ _ _ _ Hi0) in *. by split.
    + apply image_log. by eapply image_keeps.
    + apply can_write_log. by eapply can_write_keeps.
  - intros db2 l1 j l2 e Hk2 Hns Hj Hfit Hld. cbn beta iota. wp_step.
    pose proof (eoff_pos es j). destruct (Z.eqb_spec (eoff es j) 0); [lia|].
    wp_steps. rewrite (ld_ptrval _ _ _ Hld).
    pose proof (upd_keeps _ _ _ _ _ _ Hk1 Hk2) as Hk. subst fl.
    destruct (chain_getp hdr es (LHdr 0) l1 j l2) as [q Hq]; [by exists p|].
    apply (wp_writeptr_loc hdr es dd _ q).
    + by eapply image_keeps.
    + by eapply can_write_keeps.
    + done.
    + apply (eo_ptr e). eapply Forall_lookup_1; [apply Hwf|done].
    + intros db3 Hu Hi3 Hw3 Hcur Hbuf. wp_step. wp_step. apply wp_lock; [done|].
      wp_step. apply wp_dump_if; [done|]. wp_step.
      eapply HQ1; [done|done|done| | | |].
      * apply upd_log_r, (upd_log_l _ _ [EvWrite IDX _ 6]). by eapply keeps_upd.
      * by apply image_log.
      * by apply can_write_log.
      * eapply loaded_cursor; [| |exact Hld]; done.
Qed.

(** ** Deleting the current record *)

(** The entry of a record after its deletion. *)
Definition blanked (p : Z) (e : entry) : entry :=
  mkEntry p (replicate (length (e_key e)) SPACE) (e_off e) (replicate (length (e_data e)) SPACE).

Lemma Forall_replicate_eq {A} (P : A -> Prop) n x : P x -> Forall P (replicate n x).
Proof. intros H. by apply Forall_replicate. Qed.

Lemma e_dlen_blanked p e : e_dlen (blanked p e) = e_dlen e.
Proof. unfold e_dlen. simpl. by rewrite length_replicate. Qed.

Lemma length_idx_text k k' o n : length k = length k' -> length (idx_text k o n) = length (idx_text k' o n).
Proof. intros H. unfold idx_text. rewrite !length_app. lia. Qed.

Lemma length_e_text e e' :
  length (e_key e) = length (e_key e') -> e_off e = e_off e' -> e_dlen e = e_dlen e' ->
  length (e_text e) = length (e_text e').
Proof. intros Hk Ho Hd. unfold e_text. rewrite Ho, Hd. by apply length_idx_text. Qed.

Lemma blanked_ok p e : ptr_ok p -> entry_ok e -> entry_ok (blanked p e).
Proof.
  intros Hp [_ Hk Ho [Hd1 Hd2] Hl]. split; [done| |done| |].
  - apply Forall_replicate_eq. unfold SEP, SPACE. lia.
  - split; [apply Forall_replicate_eq; unfold SPACE; lia|]. simpl. by rewrite length_replicate.
  - rewrite (length_e_text (blanked p e) e); [done|apply length_replicate|done|apply e_dlen_blanked].
Qed.

Lemma blanked_size p e :
  ptr_ok p -> entry_ok e -> length (enc_entry (blanked p e)) = length (enc_entry e).
Proof.
  intros Hp He. rewrite !length_enc_entry by (done || by apply blanked_ok).
  f_equal. apply length_e_text; [apply length_replicate|done|apply e_dlen_blanked].
Qed.

Lemma cstring_overwrite (buf r : bytes) :
  Forall (fun c => c <> 0) r -> length r = length (cstring buf) ->
  cstring (r ++ drop (length r) buf) = r.
Proof.
  revert buf. induction r as [|c r IH]; intros buf Hnz Hlen; simpl.
  - destruct buf as [|c buf]; [done|]. simpl in Hlen |- *. by destruct (c =? 0).
  - apply Forall_cons in Hnz as [Hc Hnz]. destruct (Z.eqb_spec c 0); [lia|].
    destruct buf as [|c' buf]; simpl in Hlen; [lia|]. destruct (c' =? 0); [simpl in Hlen; lia|].
    simpl. f_equal. apply IH; [done|simpl in Hlen; lia].
Qed.

Lemma length_cstring buf : (length (cstring buf) <= length buf)%nat.
Proof. induction buf as [|c buf IH]; simpl; [lia|]. destruct (c =? 0); simpl; lia. Qed.

Lemma blank_buffers_spec off e db :
  ready db -> entry_ok e -> loaded off e db ->
  keeps db (blank_buffers db) /\ cursor (blank_buffers db) = cursor db /\
  cstring (idxbuf (blank_buffers db)) = replicate (length (e_key e)) SPACE /\
  cstring (datbuf (blank_buffers db)) = replicate (length (e_data e)) SPACE.
Proof.
  intros Hr He Hld. pose proof (e_dlen_range e He) as Hdl.
  pose proof (length_cstring (idxbuf db)) as Hcs. unfold blank_buffers.
  rewrite (ld_datlen _ _ _ Hld), (ld_key _ _ _ Hld) in *.
  replace (Z.to_nat (e_dlen e - 1)) with (length (e_data e)) by (unfold e_dlen; lia).
  pose proof (rd_dbuf _ Hr) as Hdb. unfold e_dlen in Hdl.
  rewrite (splice_0 (datbuf db)) by (rewrite length_app, length_replicate; simpl; lia).
  rewrite (splice_0 (idxbuf db)) by (rewrite length_replicate; lia).
  split; [|split; [done|split]].
  - split; try done; simpl; rewrite !length_app, length_drop, ?length_app, length_replicate; simpl; lia.
  - cbn [idxbuf set_idxbuf]. apply cstring_overwrite.
    + apply Forall_replicate_eq. by unfold SPACE.
    + by rewrite length_replicate, (ld_key _ _ _ Hld).
  - cbn [datbuf set_idxbuf set_datbuf]. rewrite <- app_assoc. apply cstring_nonzero.
    apply Forall_replicate_eq. by unfold SPACE.
Qed.

(** Updates of different places commute. *)
Lemma setp_hdr_insert_comm l p j q hdr :
  l <> LHdr j -> setp_hdr l p (<[j:=q]> hdr) = <[j:=q]> (setp_hdr l p hdr).
Proof. intros Hl. destruct l as [k|]; [|done]. simpl. apply list_insert_insert_ne. congruence. Qed.

Lemma setp_es_insert_comm l p j e es :
  l <> LEnt j -> setp_es l p (<[j:=e]> es) = <[j:=e]> (setp_es l p es).
Proof.
  intros Hl. destruct l as [|k]; [done|]. simpl. assert (k <> j) by congruence.
  apply list_eq. intros i. destruct (decide (i = k)) as [->|Hik].
  - rewrite list_lookup_alter_eq, !list_lookup_insert_ne by done. by rewrite list_lookup_alter_eq.
  - rewrite list_lookup_alter_ne by done. destruct (decide (i = j)) as [->|Hij].
    + destruct (decide (j < length es)%nat).
      * by rewrite !list_lookup_insert_eq by (rewrite ?length_alter; done).
      * rewrite !(list_insert_ge _ j) by (rewrite ?length_alter; lia).
        by rewrite list_lookup_alter_ne.
    + rewrite !list_lookup_insert_ne by done. by rewrite list_lookup_alter_ne.
Qed.

Lemma loc_off_insert es j e e' l :
  es !! j = Some e -> length (enc_entry e') = length (enc_entry e) ->
  loc_off (<[j:=e']> es) l = loc_off es l.
Proof. intros He Hs. destruct l; simpl; [done|]. by eapply eoff_insert. Qed.

Lemma getp_insert_es l j e es hdr q :
  l <> LEnt j -> getp l hdr es = Some q -> getp l hdr (<[j:=e]> es) = Some q.
Proof. intros Hl Hq. destruct l; simpl in *; [done|]. by rewrite list_lookup_insert_ne by congruence. Qed.

Lemma getp_insert_hdr l j p es hdr q :
  l <> LHdr j -> getp l hdr es = Some q -> getp l (<[j:=p]> hdr) es = Some q.
Proof. intros Hl Hq. destruct l; simpl in *; [|done]. by rewrite list_lookup_insert_ne by congruence. Qed.

(** ** Writes in place *)

Lemma wp_writeidx_inplace hdr es dd j e e' Q db :
  image hdr es dd db -> can_write db -> es !! j = Some e -> entry_ok e' ->
  length (enc_entry e') = length (enc_entry e) ->
  datoff db = e_off e' -> datlen db = e_dlen e' ->
  (forall db',
     upd (enc_index hdr (<[j:=e']> es)) dd
       [EvWrite IDX (eoff es j) (Z.of_nat (length (enc_entry e)))] db db' ->
     image hdr (<[j:=e']> es) dd db' -> can_write db' ->
     idxoff db' = eoff es j -> ptroff db' = ptroff db -> Q tt db') ->
  wp (_db_writeidx (e_key e') (eoff es j) SEEK_SET (e_ptr e')) Q db.
Proof.
  intros Hi Hw He Hok Hs Ho Hd HQ. destruct Hi as [Hr Hfi Hfd Hl Hh Hes].
  assert (Hj : (j < length es)%nat) by (by eapply lookup_lt_Some).
  pose proof (cw_idx _ Hw) as Hlim. unfold f_size in Hlim. rewrite Hfi, length_enc_index in Hlim by done.
  pose proof (eoff_le es (S j) (length es) ltac:(lia)) as Hle. rewrite (eoff_succ _ _ _ He) in Hle.
  pose proof (eoff_pos es j) as Hpos.
  apply (wp_writeidx e' _ _ (eoff es j)); try done; [apply Hw|lia|lia|].
  intros db' Hu Hc. rewrite Hfi, Hfd, (index_write_entry _ _ _ e), Hs in Hu by done.
  assert (Hi' : image hdr (<[j:=e']> es) dd db').
  { eapply image_upd; [by split|exact Hu|done|done|by apply Forall_insert]. }
  unfold cursor in Hc. simplify_eq.
  apply HQ; try done.
  eapply can_write_upd; [exact Hw|exact Hu| |].
  - rewrite length_enc_index, length_insert, (eoff_insert _ _ e) by done. lia.
  - apply Hw.
Qed.

Lemma wp_writedat_inplace hdr es dd e data Q db :
  image hdr es dd db -> can_write db -> data_at dd e -> 0 <= e_off e ->
  length data = length (e_data e) ->
  (forall db' (dd' := splice dd (Z.to_nat (e_off e)) (data ++ [NEWLINE])),
     upd (enc_index hdr es) dd' [EvWrite DAT (e_off e) (e_dlen e)] db db' ->
     image hdr es dd' db' -> can_write db' ->
     cursor db' = (idxoff db, ptrval db, e_off e, e_dlen e, ptroff db) ->
     idxbuf db' = idxbuf db -> Q tt db') ->
  wp (_db_writedat data (e_off e) SEEK_SET) Q db.
Proof.
  intros Hi Hw Hda Ho Hlen HQ. destruct Hi as [Hr Hfi Hfd Hl Hh Hes].
  pose proof (data_at_bound _ _ Hda Ho) as Hb.
  pose proof (cw_dat _ Hw) as Hlim. unfold f_size in Hlim. rewrite Hfd in Hlim.
  assert (Hdl : Z.of_nat (length data) + 1 = e_dlen e) by (unfold e_dlen; lia).
  apply (wp_writedat data _ _ (e_off e)); try done; [apply Hw|lia|].
  intros db' Hu Hc Hbuf. rewrite Hdl in Hu, Hc. rewrite Hfi, Hfd in Hu.
  assert (Hi' : image hdr es (splice dd (Z.to_nat (e_off e)) (data ++ [NEWLINE])) db').
  { eapply image_upd; [by split|exact Hu|done|done|done]. }
  apply HQ; try done. eapply can_write_upd; [exact Hw|exact Hu| |].
  - rewrite <- Hfi. apply Hw.
  - rewrite length_splice_within; [lia|]. rewrite length_app. unfold e_dlen in *. simpl. lia.
Qed.

(** The events of a deletion: everything happens under the free list lock. *)
Definition delete_events (es : list entry) (L : loc) (j : nat) (e : entry) : list event :=
  [EvLock F_UNLCK IDX 0 1; EvWrite IDX (loc_off es L) 6; EvWrite IDX 0 6;
   EvWrite IDX (eoff es j) (Z.of_nat (length (enc_entry e)));
   EvWrite DAT (e_off e) (e_dlen e); EvLock F_WRLCK IDX 0 1].

(** The offset of a record on a list fits a pointer field. *)
Lemma member_ptr_ok hdr es dd ls a l1 j l2 : wf hdr es dd ls -> ls !! a = Some (l1 ++ j :: l2) -> ptr_ok (eoff es j).
Proof.
  intros Hwf Hla. destruct (wf_chain _ _ _ _ Hwf _ _ Hla) as (p & Hp & Hch). eapply chain_ptr_ok; [apply Hwf| |exact Hch|].
  - eapply Forall_lookup_1; [apply Hwf|exact Hp].
  - apply elem_of_app; right; by constructor.
Qed.

Lemma wp_dodelete hdr es dd ls a l1 j l2 e fl fp Q db :
  image hdr es dd db -> can_write db -> wf hdr es dd ls -> a <> O ->
  ls !! a = Some (l1 ++ j :: l2) -> es !! j = Some e -> ls !! O = Some fl -> hdr !! O = Some fp ->
  loaded (eoff es j) e db -> ptroff db = loc_off es (pred_loc (LHdr a) l1) ->
  (forall db' (hdr' := move_hdr hdr es a 0 l1 j e) (es' := move_es es a l1 j e (blanked fp e))
              (dd' := move_dd dd e (blanked fp e)),
     upd (enc_index hdr' es') dd' (delete_events es (pred_loc (LHdr a) l1) j e) db db' ->
     image hdr' es' dd' db' -> can_write db' -> Q tt db') ->
  wp _db_dodelete Q db.
Proof.
  intros Hi Hw Hwf Ha Hla He Hl0 Hfp Hld Hpt HQ.
  pose proof (Forall_lookup_1 _ _ _ _ (wf_es _ _ _ _ Hwf) He) as Hok.
  pose proof (Forall_lookup_1 _ _ _ _ (wf_ptrs _ _ _ _ Hwf) Hfp) as Hfpok.
  set (L := pred_loc (LHdr a) l1) in *. set (e' := blanked fp e) in *.
  assert (Hok' : entry_ok e') by (by apply blanked_ok).
  assert (Hs : length (enc_entry e') = length (enc_entry e)) by (by apply blanked_size).
  destruct (blank_buffers_spec _ e db (im_ready _ _ _ _ Hi) Hok Hld) as (Hk0 & Hc0 & Hib & Hdb).
  pose proof (wf_chain _ _ _ _ Hwf _ _ Hla) as Hch.
  destruct (chain_getp hdr es (LHdr a) l1 j l2 Hch) as [q Hq]. fold L in Hq.
  assert (HLj : L <> LEnt j) by (by eapply (move_L_ne_j hdr es dd ls a l1 l2 j)).
  assert (HL0 : L <> LHdr 0) by (unfold L; destruct (pred_loc_cases (LHdr a) l1) as [[_ ->]|(i & _ & ->)]; congruence).
  pose proof (member_ptr_ok hdr es dd ls a l1 j l2 Hwf Hla) as Hjok.
  unfold _db_dodelete. wp_steps. apply wp_lock; [simpl; by rewrite (wr_idx _ (cw_writable _ Hw))|].
  wp_step. apply wp_dump_if; [done|]. wp_steps.
  set (db0 := log_event _ _). change (datbuf db0) with (datbuf (blank_buffers db)).
  assert (Hi0 : image hdr es dd db0) by (by apply image_log; eapply image_keeps).
  assert (Hw0 : can_write db0) by (by apply can_write_log; eapply can_write_keeps).
  rewrite Hdb. replace (datoff db0) with (e_off e) by (symmetry; apply Hld).
  apply (wp_writedat_inplace hdr es dd e); [done|done|by apply (wf_data _ _ _ _ Hwf j)|apply (eo_off e Hok)|apply length_replicate|].
  intros db1 dd' Hu1 Hi1 Hw1 Hc1 Hb1. wp_step.
  change FREE_OFF with (6 * Z.of_nat 0). apply (wp_readptr_hdr hdr es dd' 0 fp); [done|done|].
  intros db2 Hk2 Hc2 Hb2. wp_steps.
  assert (Hc2' : cursor db2 = (eoff es j, e_ptr e, e_off e, e_dlen e, loc_off es L)).
  { rewrite Hc2, Hc1. change (idxoff db0) with (idxoff db). change (ptrval db0) with (ptrval db).
    change (ptroff db0) with (ptroff db). by rewrite (ld_idxoff _ _ _ Hld), (ld_ptrval _ _ _ Hld), Hpt. }
  unfold cursor in Hc2'. injection Hc2' as Hio Hpv Hdo Hdl Hpo.
  rewrite Hb2, Hb1. change (idxbuf db0) with (idxbuf (blank_buffers db)). rewrite Hib, Hio, Hpv.
  apply (wp_writeidx_inplace hdr es dd' j e e'); [by eapply image_keeps|by eapply can_write_keeps|done|done|done|done| |].
  { rewrite Hdl. symmetry. apply e_dlen_blanked. }
  intros db3 Hu3 Hi3 Hw3 Hio3 Hpo3. wp_steps. rewrite Hio3.
  change (6 * Z.of_nat 0) with (loc_off (<[j:=e']> es) (LHdr 0)).
  apply (wp_writeptr_loc hdr (<[j:=e']> es) dd' (LHdr 0) fp); try done.
  intros db4 Hu4 Hi4 Hw4 Hc4 Hb4. wp_steps.
  assert (Hpo4 : ptroff db4 = loc_off (<[j:=e']> es) L).
  { rewrite (loc_off_insert _ _ e) by done. pose proof (f_equal snd Hc4) as E. simpl in E. congruence. }
  rewrite Hpo4.
  apply (wp_writeptr_loc (<[O:=eoff es j]> hdr) (<[j:=e']> es) dd' L q); try done.
  { apply getp_insert_hdr; [done|]. by apply getp_insert_es. }
  { apply Hok. }
  rewrite setp_hdr_insert_comm, setp_es_insert_comm, (loc_off_insert _ _ e) by done.
  intros db5 Hu5 Hi5 Hw5 _ _. wp_step. apply wp_lock; [done|]. apply wp_dump_if; [done|].
  apply HQ.
  - apply upd_log_r.
    pose proof (keeps_upd _ _ _ _ _ _ Hk0 (upd_lock_writes _ _ _ _ _ _ _ _ _ _ _ Hu1 Hk2 Hu3)) as Hu'.
    exact (upd_trans _ _ _ _ _ _ _ _ _ (upd_trans _ _ _ _ _ _ _ _ _ Hu' Hu4) Hu5).
  - by apply image_log.
  - by apply can_write_log.
Qed.
