(* ===== verification/DbSpec.v ===== *)
(** * DbSpec: the database library refines a finite map.

    [db_rep db m]: the handle [db] is in working order and its files represent
    the finite map [m] from keys to data.  Each interface function is shown to
    return, with the answer the map gives, in a state that represents the
    updated map. *)
From S2P Require Import Prelude Libc Files Db DbFormat DbWp DbChain DbOps.
Local Open Scope Z_scope.

Definition db_rep (db : DB) (m : gmap bytes bytes) : Prop :=
  exists hdr es dd ls, image hdr es dd db /\ wf hdr es dd ls /\ models es ls m.

(** There is room to append a record: its index text has an admissible length,
    the present end of the index file is an admissible pointer, and neither file
    outgrows its limit. *)
Record room (db : DB) (key data : bytes) : Prop := {
  rm_text : IDXLEN_MIN <= Z.of_nat (length (idx_text key (f_size (datfd db)) (Z.of_nat (length data) + 1)))
            <= IDXLEN_MAX;
  rm_ptr : f_size (idxfd db) <= PTR_MAX;
  rm_off : f_size (datfd db) <= LONG_MAX;
  rm_idx : f_size (idxfd db) + 10
           + Z.of_nat (length (idx_text key (f_size (datfd db)) (Z.of_nat (length data) + 1)))
           <= f_lim (idxfd db);
  rm_dat : f_size (datfd db) + Z.of_nat (length data) + 1 <= f_lim (datfd db)
}.

(** ** Looking a key up *)

Lemma ls_lookup hdr es dd ls j : wf hdr es dd ls -> (j < 138)%nat -> exists l, ls !! j = Some l.
Proof. intros Hwf Hj. apply lookup_lt_is_Some_2. rewrite (wf_lsl _ _ _ _ Hwf). done. Qed.

Lemma hdr_lookup hdr es dd ls j : wf hdr es dd ls -> (j < 138)%nat -> exists p, hdr !! j = Some p.
Proof. intros Hwf Hj. apply lookup_lt_is_Some_2. rewrite (wf_len _ _ _ _ Hwf). done. Qed.

Lemma models_absent hdr es dd ls ns m key :
  wf hdr es dd ls -> models es ls m -> ls !! S (hidx key) = Some ns ->
  (forall i e, i ∈ ns -> es !! i = Some e -> e_key e <> key) -> m !! key = None.
Proof.
  intros Hwf Hm Hls Hall. apply eq_None_not_Some. intros [d Hd].
  apply Hm in Hd as (c & l & i & e & Hc0 & Hc & Hi & He & Hk & _).
  pose proof (wf_place _ _ _ _ Hwf _ _ _ _ Hc Hi He) as Hp. apply well_placed_pos in Hp; [|done].
  rewrite Hk in Hp. subst c. rewrite Hls in Hc. injection Hc as <-. by apply (Hall i e).
Qed.

Lemma models_present es ls m ns l1 j l2 e :
  models es ls m -> ls !! S (hidx (e_key e)) = Some ns -> ns = l1 ++ j :: l2 -> es !! j = Some e ->
  m !! e_key e = Some (e_data e).
Proof.
  intros Hm Hls -> He. apply Hm. exists (S (hidx (e_key e))), (l1 ++ j :: l2), j, e.
  repeat split; try done. in_list.
Qed.

Lemma locked_at_image t key hdr es dd db :
  image hdr es dd db -> image hdr es dd (locked_at t key db).
Proof. intros [[]]. by split. Qed.

Lemma locked_at_write t key db : can_write db -> can_write (locked_at t key db).
Proof. intros [[]]. by split. Qed.

Lemma chainoff_frame db db' : frame db' = frame db -> chainoff db' = chainoff db.
Proof. unfold frame. intros. by simplify_eq. Qed.

Lemma lim_frame db db' : frame db' = frame db -> f_lim (idxfd db') = f_lim (idxfd db).
Proof. unfold frame. intros. by simplify_eq. Qed.

Lemma cnt_frame db db' : frame db' = frame db -> cnt db' = cnt db.
Proof. unfold frame. intros. by simplify_eq. Qed.

Lemma chainoff_upd i d evs t key db db' :
  upd i d evs (locked_at t key db) db' -> chainoff db' = 6 * Z.of_nat (S (hidx key)).
Proof. intros Hu. by rewrite (chainoff_frame _ _ (u_frame _ _ _ _ _ Hu)). Qed.

Lemma image_cnt hdr es dd c db : image hdr es dd db -> image hdr es dd (set_cnt c db).
Proof. intros [[]]. by split. Qed.

Lemma can_write_cnt c db : can_write db -> can_write (set_cnt c db).
Proof. intros [[]]. by split. Qed.

(** ** Fetch *)

Lemma frame_bump ev c db db' :
  frame db' = frame db ->
  frame (log_event ev (set_cnt (bump c (cnt db')) db')) = frame (set_cnt (bump c (cnt db)) db).
Proof. unfold frame. cbn. intros H. injection H. intros. congruence. Qed.

(** What a fetch leaves: the same files, one counter incremented, the hash
    chain locked and unlocked. *)
Lemma fetch_spec db m key :
  db_rep db m ->
  wp (db_fetch key) (fun r db' =>
    r = m !! key /\ db_rep db' m /\ db_close db' = db_close db /\
    frame db' = frame (set_cnt (bump (if m !! key is Some _ then FetchOk else FetchErr) (cnt db))
                        (set_chainoff (6 * Z.of_nat (S (hidx key))) db)) /\
    trace db' = EvLock F_UNLCK IDX (6 * Z.of_nat (S (hidx key))) 1
                :: EvLock F_RDLCK IDX (6 * Z.of_nat (S (hidx key))) 1 :: trace db) db.
Proof.
  intros (hdr & es & dd & ls & Hi & Hwf & Hm).
  destruct (ls_lookup _ _ _ _ (S (hidx key)) Hwf) as [ns Hns]; [pose proof (hidx_lt key); lia|].
  unfold db_fetch. wp_step.
  apply (wp_find_and_lock hdr es dd ls key false ns); [done|done|done|done| |].
  - intros db1 Hk Hall. wp_step. simpl. wp_steps. apply wp_lock; [done|]. wp_step.
    apply wp_dump_if; [done|]. wp_step.
    rewrite (models_absent hdr es dd ls ns m key) by done.
    change (chainoff (set_cnt _ db1)) with (chainoff db1).
    rewrite (chainoff_upd _ _ _ _ _ _ _ Hk).
    assert (Hi1 : image hdr es dd db1) by (eapply image_keeps; [exact Hk|by apply locked_at_image]).
    destruct Hk as [Hf Hfi Hfd _ _ Ht]. repeat split.
    + exists hdr, es, dd, ls. split; [|done]. by apply image_log, image_cnt.
    + unfold db_close. simpl. by rewrite Hfi, Hfd.
    + apply (frame_bump _ _ (locked_at F_RDLCK key db)), Hf.
    + simpl. by rewrite Ht.
  - intros db1 l1 j l2 e Hk Hs He Hkey Hld Hpt. wp_step. simpl. wp_step.
    assert (Hi1 : image hdr es dd db1) by (eapply image_keeps; [exact Hk|by apply locked_at_image]).
    apply (wp_readdat e).
    + apply Hi1.
    + eapply Forall_lookup_1; [apply Hwf|done].
    + apply Hld.
    + apply Hld.
    + rewrite (im_dat _ _ _ _ Hi1). by apply (wf_data _ _ _ _ Hwf j).
    + intros db2 Hk2 _ _. wp_steps. apply wp_lock; [done|]. wp_step.
      apply wp_dump_if; [done|]. wp_step. subst key.
      rewrite (models_present es ls m ns l1 j l2 e) by done.
      pose proof (upd_keeps _ _ _ _ _ _ Hk Hk2) as Hk'.
      change (chainoff (set_cnt _ db2)) with (chainoff db2).
      rewrite (chainoff_upd _ _ _ _ _ _ _ Hk').
      assert (Hi2 : image hdr es dd db2) by (eapply image_keeps; [exact Hk2|done]).
      destruct Hk' as [Hf Hfi Hfd _ _ Ht]. repeat split.
      * exists hdr, es, dd, ls. split; [|done]. by apply image_log, image_cnt.
      * unfold db_close. simpl. by rewrite Hfi, Hfd.
      * apply (frame_bump _ _ (locked_at F_RDLCK (e_key e) db)), Hf.
      * simpl. by rewrite Ht.
Qed.

(** ** Delete *)

Lemma move_index_size hdr es a b l1 j e e' :
  Forall ptr_ok hdr -> length hdr = 138%nat -> Forall entry_ok es ->
  ptr_ok (eoff es j) -> es !! j = Some e -> pred_loc (LHdr a) l1 <> LEnt j ->
  length (enc_entry e') = length (enc_entry e) ->
  length (enc_index (move_hdr hdr es a b l1 j e) (move_es es a l1 j e e')) = length (enc_index hdr es).
Proof.
  intros Hp Hl Hes Hjok He Hne Hs. apply Nat2Z.inj.
  assert (Hpe : ptr_ok (e_ptr e)) by (apply (eo_ptr e); by eapply Forall_lookup_1).
  assert (Hj : setp_es (pred_loc (LHdr a) l1) (e_ptr e) es !! j = Some e) by (by rewrite setp_es_lookup_ne).
  rewrite !length_enc_index; try done.
  - unfold move_es. rewrite length_insert, length_setp_es, (eoff_insert _ _ e) by done.
    by apply eoff_setp.
  - apply Forall_insert; [by apply setp_hdr_ok|done].
  - unfold move_hdr. by rewrite length_insert, length_setp_hdr.
Qed.

(** What [_db_dodelete] leaves represents the map without the key, in files of
    the same sizes. *)
Lemma delete_repr hdr es dd ls m a l1 j l2 e fl fp :
  wf hdr es dd ls -> models es ls m -> a <> O ->
  ls !! a = Some (l1 ++ j :: l2) -> es !! j = Some e -> ls !! O = Some fl -> hdr !! O = Some fp ->
  let hdr' := move_hdr hdr es a 0 l1 j e in
  let es' := move_es es a l1 j e (blanked fp e) in
  let dd' := move_dd dd e (blanked fp e) in
  let ls' := move_ls ls a 0 l1 l2 fl j in
  wf hdr' es' dd' ls' /\ models es' ls' (delete (e_key e) m) /\
  length (enc_index hdr' es') = length (enc_index hdr es) /\ length dd' = length dd.
Proof.
  intros Hwf Hm Ha Hla He Hfl Hfp hdr' es' dd' ls'.
  pose proof (Forall_lookup_1 _ _ _ _ (wf_es _ _ _ _ Hwf) He) as Hok.
  pose proof (Forall_lookup_1 _ _ _ _ (wf_ptrs _ _ _ _ Hwf) Hfp) as Hfpok.
  assert (Hblank : well_placed 0 (blanked fp e)) by (split; by apply Forall_replicate_eq).
  pose proof (blanked_size fp e Hfpok Hok) as Hs.
  assert (Hd : length (e_data (blanked fp e)) = length (e_data e)) by apply length_replicate.
  split; [|split; [|split]].
  - eapply wf_move; try done. by apply blanked_ok.
  - pose proof (models_move hdr es dd ls a 0 l1 l2 fl j e (blanked fp e) fp Hwf Ha Hla Hfl Hfp He
      Hs eq_refl Hd Hblank ltac:(done) m Hm) as Hmm.
    cbn zeta in Hmm. by rewrite (decide_False (P := a = O)) in Hmm by done.
  - apply move_index_size; try apply Hwf; try done; [|by eapply move_L_ne_j].
    destruct (wf_chain _ _ _ _ Hwf _ _ Hla) as (p & Hp & Hch).
    eapply chain_ptr_ok; [apply Hwf| |exact Hch|in_list].
    eapply Forall_lookup_1; [apply Hwf|exact Hp].
  - pose proof (data_at_bound _ _ (wf_data _ _ _ _ Hwf j e He) (proj1 (eo_off e Hok))).
    pose proof (eo_off e Hok).
    apply length_splice_within. simpl. rewrite length_app, length_replicate. unfold e_dlen in *. simpl. lia.
Qed.

Lemma delete_spec db m key :
  db_rep db m -> can_write db ->
  wp (db_delete key) (fun r db' =>
    r = (if m !! key is Some _ then 0 else -1) /\ db_rep db' (delete key m) /\ can_write db' /\
    f_size (idxfd db') = f_size (idxfd db) /\ f_size (datfd db') = f_size (datfd db) /\
    frame db' = frame (set_cnt (bump (if m !! key is Some _ then DelOk else DelErr) (cnt db))
                        (set_chainoff (6 * Z.of_nat (S (hidx key))) db))) db.
Proof.
  intros (hdr & es & dd & ls & Hi & Hwf & Hm) Hw.
  destruct (ls_lookup _ _ _ _ (S (hidx key)) Hwf) as [ns Hns]; [pose proof (hidx_lt key); lia|].
  unfold db_delete. wp_step.
  apply (wp_find_and_lock hdr es dd ls key true ns); [done|done|done|intros _; apply Hw| |].
  - intros db1 Hk Hall. wp_step. simpl. wp_steps. apply wp_lock; [done|]. wp_step.
    apply wp_dump_if; [done|]. wp_step.
    rewrite (models_absent hdr es dd ls ns m key) by done.
    rewrite delete_id by (by apply (models_absent hdr es dd ls ns)).
    assert (Hi1 : image hdr es dd db1) by (eapply image_keeps; [exact Hk|by apply locked_at_image]).
    assert (Hw1 : can_write db1) by (eapply can_write_keeps; [exact Hk|by apply locked_at_write]).
    split; [done|]. split; [|split; [|split; [|split]]].
    + exists hdr, es, dd, ls. split; [|done]. by apply image_log, image_cnt.
    + by apply can_write_log, can_write_cnt.
    + unfold f_size. simpl. by rewrite (u_idx _ _ _ _ _ Hk).
    + unfold f_size. simpl. by rewrite (u_dat _ _ _ _ _ Hk).
    + apply (frame_bump _ _ (locked_at F_WRLCK key db)), (u_frame _ _ _ _ _ Hk).
  - intros db1 l1 j l2 e Hk Hs He Hkey Hld Hpt. wp_step. simpl. wp_step. subst key ns.
    assert (Hi1 : image hdr es dd db1) by (eapply image_keeps; [exact Hk|by apply locked_at_image]).
    assert (Hw1 : can_write db1) by (eapply can_write_keeps; [exact Hk|by apply locked_at_write]).
    destruct (ls_lookup _ _ _ _ O Hwf) as [fl Hfl]; [lia|].
    destruct (hdr_lookup _ _ _ _ O Hwf) as [fp Hfp]; [lia|].
    apply (wp_dodelete hdr es dd ls (S (hidx (e_key e))) l1 j l2 e fl fp); try done.
    intros db2 hdr' es' dd' Hu Hi2 Hw2. wp_steps. apply wp_lock; [done|]. wp_step.
    apply wp_dump_if; [done|]. wp_step.
    rewrite (models_present es ls m (l1 ++ j :: l2) l1 j l2 e) by done.
    destruct (delete_repr hdr es dd ls m _ l1 j l2 e fl fp Hwf Hm (Nat.neq_succ_0 _) Hns He Hfl Hfp)
      as (Hwf' & Hm' & Hsi & Hsd).
    split; [done|]. split; [|split; [|split; [|split]]].
    + eexists hdr', es', dd', _. split; [by apply image_log, image_cnt|done].
    + by apply can_write_log, can_write_cnt.
    + unfold f_size. simpl. rewrite (u_idx _ _ _ _ _ Hu), (im_idx _ _ _ _ Hi). by f_equal.
    + unfold f_size. simpl. rewrite (u_dat _ _ _ _ _ Hu), (im_dat _ _ _ _ Hi). by f_equal.
    + apply (frame_bump _ _ (locked_at F_WRLCK (e_key e) db)).
      rewrite (u_frame _ _ _ _ _ Hu). exact (u_frame _ _ _ _ _ Hk).
Qed.

(** ** Store *)

(** Appending a record: the three writes shared by two branches of [db_store]. *)
Lemma wp_append {A} hdr es dd ls key data pb lb (k : unit -> M A) Q db :
  image hdr es dd db -> wf hdr es dd ls -> can_write db ->
  key_ok key -> data_ok data -> room db key data ->
  ls !! S (hidx key) = Some lb -> hdr !! S (hidx key) = Some pb ->
  chainoff db = 6 * Z.of_nat (S (hidx key)) ->
  (forall db' (e := mkEntry pb key (Z.of_nat (length dd)) data) (b := S (hidx key)),
     image (app_hdr hdr es b) (app_es es e) (app_dd dd e) db' -> can_write db' ->
     frame db' = frame db ->
     entry_ok e -> ptr_ok (eoff es (length es)) -> wp (k tt) Q db') ->
  wp (_db_writedat data 0 SEEK_END;; _db_writeidx key 0 SEEK_END pb;;
      db ← get; _db_writeptr (chainoff db) (idxoff db) ≫= k) Q db.
Proof.
  intros Hi Hwf Hw Hk Hd Hroom Hlb Hpb Hch HQ.
  destruct Hroom as [Rt Rp Ro Ri Rd]. pose proof Hi as [Hr Hfi Hfd Hl Hh Hes].
  set (e := mkEntry pb key (Z.of_nat (length dd)) data).
  assert (Hsd : f_size (datfd db) = Z.of_nat (length dd)) by (unfold f_size; by rewrite Hfd).
  assert (Hsi : f_size (idxfd db) = eoff es (length es)).
  { unfold f_size. by rewrite Hfi, length_enc_index. }
  rewrite Hsd in *. rewrite Hsi in *.
  change (idx_text key (Z.of_nat (length dd)) (Z.of_nat (length data) + 1)) with (e_text e) in Rt, Ri.
  assert (Hok : entry_ok e).
  { split; try done; [eapply Forall_lookup_1; [apply Hwf|exact Hpb]|simpl; lia]. }
  pose proof (eoff_pos es (length es)) as Hpos.
  assert (Hend : ptr_ok (eoff es (length es))) by (split; lia).
  pose proof (length_enc_entry e Hok) as Hle.
  wp_step. apply (wp_writedat data 0 SEEK_END (Z.of_nat (length dd))).
  { apply Hw. } { simpl. lia. } { lia. } { lia. }
  intros db1 Hu1 Hc1 Hb1. rewrite Hfi, Hfd, Nat2Z.id, splice_end in Hu1.
  pose proof (u_frame _ _ _ _ _ Hu1) as Hf1.
  unfold cursor in Hc1. injection Hc1 as _ _ Hdo1 Hdl1 _.
  wp_step. apply (wp_writeidx e 0 SEEK_END (eoff es (length es))); try done.
  { by eapply ready_upd. } { by eapply writable_upd; [|apply Hw]. }
  { simpl. unfold f_size. rewrite (u_idx _ _ _ _ _ Hu1), length_enc_index by done. lia. }
  { lia. }
  { rewrite Hle, (lim_frame _ _ Hf1). lia. }
  intros db2 Hu2 Hc2. rewrite (u_idx _ _ _ _ _ Hu1), (u_dat _ _ _ _ _ Hu1) in Hu2.
  rewrite <- (length_enc_index hdr es), Nat2Z.id, index_append in Hu2 by done.
  pose proof (upd_trans _ _ _ _ _ _ _ _ _ Hu1 Hu2) as Hu12.
  unfold cursor in Hc2. injection Hc2 as Hio2 _ _ _ _.
  assert (Hi2 : image hdr (es ++ [e]) (app_dd dd e) db2).
  { eapply image_upd; [exact Hi|exact Hu12|done|done|]. apply Forall_app; split; [done|by constructor]. }
  assert (Hsz : Z.of_nat (length (enc_index hdr (es ++ [e]))) = eoff es (length es) + Z.of_nat (length (enc_entry e))).
  { rewrite length_enc_index, length_app by done. simpl. rewrite Nat.add_1_r.
    rewrite (eoff_succ _ _ e) by (by rewrite list_lookup_middle). by rewrite eoff_app by lia. }
  assert (Hw2 : can_write db2).
  { eapply can_write_upd; [exact Hw|exact Hu12|rewrite Hsz; lia|]. rewrite !length_app. simpl. lia. }
  wp_steps. rewrite (chainoff_frame _ _ (u_frame _ _ _ _ _ Hu12)), Hch, Hio2.
  change (6 * Z.of_nat (S (hidx key))) with (loc_off (es ++ [e]) (LHdr (S (hidx key)))).
  apply (wp_writeptr_loc hdr (es ++ [e]) (app_dd dd e) (LHdr (S (hidx key))) pb); try done.
  intros db3 Hu3 Hi3 Hw3 _ _. apply HQ; try done.
  rewrite (u_frame _ _ _ _ _ Hu3). apply (u_frame _ _ _ _ _ Hu12).
Qed.

(** The answer and the new map of [db_store]. *)
Definition store_result (m : gmap bytes bytes) (key data : bytes) (flag : Z)
    : Z * gmap bytes bytes :=
  match m !! key with
  | None => if flag =? DB_REPLACE then (-1, m) else (0, <[key:=data]> m)
  | Some _ => if flag =? DB_INSERT then (1, m) else (0, <[key:=data]> m)
  end.

Definition valid_flag (flag : Z) : Prop := flag = DB_INSERT \/ flag = DB_REPLACE \/ flag = DB_STORE.

(** A handle after a mutating call: it represents [m], can be written, and its
    files and limits are within the budget of the call. *)
Record after_store (db : DB) (m : gmap bytes bytes) (db' : DB) : Prop := {
  as_rep : db_rep db' m;
  as_write : can_write db';
  as_lims : f_lim (idxfd db') = f_lim (idxfd db) /\ f_lim (datfd db') = f_lim (datfd db);
  as_idx : f_size (idxfd db') <= f_size (idxfd db) + 10 + IDXLEN_MAX;
  as_dat : f_size (datfd db') <= f_size (datfd db) + DATLEN_MAX
}.

Lemma lims_frame db db' :
  frame db' = frame db -> f_lim (idxfd db') = f_lim (idxfd db) /\ f_lim (datfd db') = f_lim (datfd db).
Proof. unfold frame. intros. by simplify_eq. Qed.

Lemma reuse_size pb key data e :
  ptr_ok pb -> key_ok key -> data_ok data -> entry_ok e ->
  fits_sizes (Z.of_nat (length key)) (Z.of_nat (length data) + 1) e = true ->
  let e' := mkEntry pb key (e_off e) data in
  entry_ok e' /\ length (enc_entry e') = length (enc_entry e) /\ length data = length (e_data e).
Proof.
  intros Hp Hk Hd He Hfit e'. unfold fits_sizes in Hfit. bool_to_prop.
  assert (Hlen : length data = length (e_data e)) by (unfold e_dlen in *; lia).
  assert (Hdl : e_dlen e' = e_dlen e) by (unfold e_dlen in *; simpl; lia).
  assert (Ht : length (e_text e') = length (e_text e)) by (apply length_e_text; [simpl; lia|done|done]).
  assert (Hok : entry_ok e').
  { split; try done; [apply He|]. rewrite Ht. apply He. }
  split; [done|]. split; [|done]. rewrite !length_enc_entry by done. lia.
Qed.

(** [room] depends only on the sizes and limits of the files. *)
Lemma room_same db db' key data :
  f_size (idxfd db') = f_size (idxfd db) -> f_size (datfd db') = f_size (datfd db) ->
  frame db' = frame db -> room db key data -> room db' key data.
Proof.
  intros Hi Hd Hf [Rt Rp Ro Ri Rd]. destruct (lims_frame _ _ Hf) as [Hl1 Hl2].
  split; congruence || (rewrite ?Hi, ?Hd, ?Hl1, ?Hl2; done).
Qed.

Lemma image_sizes hdr es dd db :
  image hdr es dd db ->
  f_size (idxfd db) = eoff es (length es) /\ f_size (datfd db) = Z.of_nat (length dd).
Proof. intros [_ Hi Hd Hl Hh _]. unfold f_size. by rewrite Hi, Hd, length_enc_index. Qed.

(** The state after an append is the one the specification asks for. *)
Lemma append_repr hdr es dd ls m key data pb lb db db' c :
  let e := mkEntry pb key (Z.of_nat (length dd)) data in
  let b := S (hidx key) in
  wf hdr es dd ls -> models es ls m -> ls !! b = Some lb -> hdr !! b = Some pb ->
  (forall i ei, i ∈ lb -> es !! i = Some ei -> e_key ei <> key) ->
  entry_ok e -> ptr_ok (eoff es (length es)) ->
  image hdr es dd db -> frame db' = frame db ->
  image (app_hdr hdr es b) (app_es es e) (app_dd dd e) db' -> can_write db' ->
  after_store db (<[key:=data]> m) (set_cnt c db').
Proof.
  intros e b Hwf Hm Hlb Hpb Hnew Hok Hend Hi Hf Hi' Hw'.
  destruct (image_sizes _ _ _ _ Hi) as [Hs1 Hs2]. destruct (image_sizes _ _ _ _ Hi') as [Hs1' Hs2'].
  assert (Hplace : well_placed b e) by done.
  split.
  - exists (app_hdr hdr es b), (app_es es e), (app_dd dd e), (app_ls es ls b lb).
    split; [by apply image_cnt|]. split; [by apply wf_append|].
    apply (models_append hdr es dd ls b lb e Hwf (Nat.neq_succ_0 _) Hlb Hplace Hnew m Hm).
  - by apply can_write_cnt.
  - by apply (lims_frame db db').
  - simpl. rewrite Hs1', Hs1. unfold app_es. rewrite length_app. simpl. rewrite Nat.add_1_r.
    rewrite (eoff_succ _ _ e) by (by rewrite list_lookup_middle). rewrite eoff_app by lia.
    rewrite length_enc_entry by done. destruct Hok as [_ _ _ _ Hl]. lia.
  - simpl. rewrite Hs2', Hs2. unfold app_dd. rewrite !length_app. simpl.
    destruct Hok as [_ _ _ [_ Hd] _]. simpl in Hd. lia.
Qed.

(** A reused record: the free list loses it and the chain of the key gains it. *)
Lemma reuse_repr hdr es dd ls m key data pb ns l1 j l2 e db db' c :
  let e' := mkEntry pb key (e_off e) data in
  let b := S (hidx key) in
  wf hdr es dd ls -> models es ls m -> ls !! b = Some ns -> hdr !! b = Some pb ->
  ls !! O = Some (l1 ++ j :: l2) -> es !! j = Some e ->
  (forall i ei, i ∈ ns -> es !! i = Some ei -> e_key ei <> key) ->
  entry_ok e' -> length (enc_entry e') = length (enc_entry e) -> length data = length (e_data e) ->
  image hdr es dd db -> frame db' = frame db ->
  image (move_hdr hdr es 0 b l1 j e) (move_es es 0 l1 j e e') (move_dd dd e e') db' -> can_write db' ->
  after_store db (<[key:=data]> m) (set_cnt c db').
Proof.
  intros e' b Hwf Hm Hlb Hpb Hl0 He Hnew Hok Hs Hlen Hi Hf Hi' Hw'.
  destruct (image_sizes _ _ _ _ Hi) as [Hs1 Hs2]. destruct (image_sizes _ _ _ _ Hi') as [Hs1' Hs2'].
  assert (Hplace : well_placed b e') by done.
  pose proof (Forall_lookup_1 _ _ _ _ (wf_es _ _ _ _ Hwf) He) as Hoke.
  split.
  - exists (move_hdr hdr es 0 b l1 j e), (move_es es 0 l1 j e e'), (move_dd dd e e'),
      (move_ls ls 0 b l1 l2 ns j).
    split; [by apply image_cnt|]. split; [by eapply wf_move|].
    apply (models_move hdr es dd ls 0 b l1 l2 ns j e e' pb Hwf (Nat.neq_0_succ _) Hl0 Hlb Hpb He
      Hs eq_refl Hlen Hplace (fun _ => Hnew) m Hm).
  - by apply can_write_cnt.
  - by apply (lims_frame db db').
  - simpl. rewrite Hs1', Hs1. unfold move_es at 2. rewrite length_insert, length_setp_es.
    rewrite (move_eoff hdr es dd ls 0 l1 l2 j e e' Hwf Hl0 He Hs). unfold IDXLEN_MAX. lia.
  - simpl. rewrite Hs2', Hs2. unfold move_dd. rewrite length_splice_within.
    + unfold DATLEN_MAX. lia.
    + pose proof (data_at_bound _ _ (wf_data _ _ _ _ Hwf j e He) (proj1 (eo_off e Hoke))).
      pose proof (eo_off e Hoke). rewrite length_app. unfold e_dlen in *. simpl. lia.
Qed.

(** The writes of [db_store] into a record taken off the free list. *)
Lemma wp_reuse {A} hdr es dd ls key data pb ns l1 j l2 e (k : unit -> M A) Q db :
  let L := pred_loc (LHdr 0) l1 in
  let e' := mkEntry pb key (e_off e) data in
  wf hdr es dd ls -> ls !! S (hidx key) = Some ns -> hdr !! S (hidx key) = Some pb ->
  ls !! O = Some (l1 ++ j :: l2) -> es !! j = Some e ->
  entry_ok e' -> length (enc_entry e') = length (enc_entry e) -> length data = length (e_data e) ->
  image (setp_hdr L (e_ptr e) hdr) (setp_es L (e_ptr e) es) dd db -> can_write db ->
  loaded (eoff es j) e db -> chainoff db = 6 * Z.of_nat (S (hidx key)) ->
  (forall db', image (move_hdr hdr es 0 (S (hidx key)) l1 j e) (move_es es 0 l1 j e e') (move_dd dd e e') db' ->
     can_write db' -> frame db' = frame db -> wp (k tt) Q db') ->
  wp (db ← get; _db_writedat data (datoff db) SEEK_SET;;
      db ← get; _db_writeidx key (idxoff db) SEEK_SET pb;;
      db ← get; _db_writeptr (chainoff db) (idxoff db) ≫= k) Q db.
Proof.
  intros L e' Hwf Hns Hpb Hl0 He Hok' Hsz Hlen Hi Hw Hld Hch HQ.
  pose proof (Forall_lookup_1 _ _ _ _ (wf_es _ _ _ _ Hwf) He) as Hok.
  assert (HLj : L <> LEnt j) by (by eapply (move_L_ne_j hdr es dd ls 0 l1 l2)).
  assert (Hej : setp_es L (e_ptr e) es !! j = Some e) by (by rewrite setp_es_lookup_ne).
  assert (Heo : eoff (setp_es L (e_ptr e) es) j = eoff es j) by (apply eoff_setp; [apply Hok|apply Hwf]).
  wp_steps. rewrite (ld_datoff _ _ _ Hld).
  apply (wp_writedat_inplace (setp_hdr L (e_ptr e) hdr) (setp_es L (e_ptr e) es) dd e); try done.
  { by apply (wf_data _ _ _ _ Hwf j). } { apply (eo_off e Hok). }
  intros db3 dd' Hu3 Hi3 Hw3 Hc3 Hb3. wp_steps.
  unfold cursor in Hc3. injection Hc3 as Hio3 _ Hdo3 Hdl3 _.
  rewrite Hio3, (ld_idxoff _ _ _ Hld), <- Heo.
  apply (wp_writeidx_inplace (setp_hdr L (e_ptr e) hdr) (setp_es L (e_ptr e) es) dd' j e e'); try done.
  { rewrite Hdl3. unfold e_dlen. simpl. by rewrite Hlen. }
  intros db4 Hu4 Hi4 Hw4 Hio4 _. wp_steps.
  assert (Hf4 : frame db4 = frame db) by (rewrite (u_frame _ _ _ _ _ Hu4), (u_frame _ _ _ _ _ Hu3); done).
  rewrite (chainoff_frame _ _ Hf4), Hch, Hio4, Heo.
  assert (Hgp : getp (LHdr (S (hidx key))) (setp_hdr L (e_ptr e) hdr)
    (<[j:=e']> (setp_es L (e_ptr e) es)) = Some pb).
  { simpl. unfold L. destruct (pred_loc_cases (LHdr 0) l1) as [[_ ->]|(i & _ & ->)]; simpl; [|done].
    by rewrite list_lookup_insert_ne. }
  assert (Hjok : ptr_ok (eoff es j)).
  { destruct (wf_chain _ _ _ _ Hwf _ _ Hl0) as (p & Hp & Hch').
    eapply chain_ptr_ok; [apply Hwf| |exact Hch'|in_list]. eapply Forall_lookup_1; [apply Hwf|exact Hp]. }
  apply (wp_writeptr_loc (setp_hdr L (e_ptr e) hdr) (<[j:=e']> (setp_es L (e_ptr e) es)) dd'
    (LHdr (S (hidx key))) pb); try done.
  intros db5 Hu5 Hi5 Hw5 _ _. apply HQ; [done|done|]. by rewrite (u_frame _ _ _ _ _ Hu5).
Qed.

Lemma store_new_spec hdr es dd ls m key data flag ns db :
  image hdr es dd db -> wf hdr es dd ls -> models es ls m -> can_write db ->
  key_ok key -> data_ok data -> room db key data ->
  ls !! S (hidx key) = Some ns -> chainoff db = 6 * Z.of_nat (S (hidx key)) ->
  (forall i e, i ∈ ns -> es !! i = Some e -> e_key e <> key) -> flag <> DB_REPLACE ->
  wp (store_new key data flag (Z.of_nat (length key)) (Z.of_nat (length data) + 1))
    (fun r db' => r = 0 /\ after_store db (<[key:=data]> m) db') db.
Proof.
  intros Hi Hwf Hm Hw Hk Hd Hroom Hns Hch Hall Hflag.
  destruct (ls_lookup _ _ _ _ O Hwf) as [fl Hfl]; [lia|].
  destruct (hdr_lookup _ _ _ _ (S (hidx key)) Hwf) as [pb Hpb]; [pose proof (hidx_lt key); lia|].
  pose proof (Forall_lookup_1 _ _ _ _ (wf_ptrs _ _ _ _ Hwf) Hpb) as Hpbok.
  unfold store_new. apply wp_if_false; [by apply Z.eqb_neq|]. wp_steps. rewrite Hch.
  apply (wp_readptr_hdr hdr es dd _ pb); [done|done|]. intros db1 Hk1 _ _. wp_step.
  assert (Hi1 : image hdr es dd db1) by (by eapply image_keeps).
  assert (Hw1 : can_write db1) by (by eapply can_write_keeps).
  pose proof (u_frame _ _ _ _ _ Hk1) as Hf1.
  apply (wp_findfree hdr es dd ls _ _ fl); try done.
  - intros db2 Hu Hi2 Hw2. simpl.
    assert (Hf2 : frame db2 = frame db) by (rewrite (u_frame _ _ _ _ _ Hu); done).
    destruct (image_sizes _ _ _ _ Hi) as [Hs1 Hs2]. destruct (image_sizes _ _ _ _ Hi2) as [Hs1' Hs2'].
    eapply (wp_append hdr es dd ls key data pb ns (fun _ => _)); try done.
    + eapply room_same; [| |exact Hf2|done]; congruence.
    + by rewrite (chainoff_frame _ _ Hf2).
    + intros db3 e b Hi3 Hw3 Hf3 Hok Hend. wp_steps. split; [done|].
      eapply append_repr; try done. congruence.
  - intros db2 l1 j l2 e L -> He Hfit Hu Hi2 Hw2 Hld. simpl.
    pose proof (Forall_lookup_1 _ _ _ _ (wf_es _ _ _ _ Hwf) He) as Hok.
    destruct (reuse_size pb key data e Hpbok Hk Hd Hok Hfit) as (Hok' & Hsz & Hlen).
    assert (Hf2 : frame db2 = frame db) by (rewrite (u_frame _ _ _ _ _ Hu); done).
    eapply (wp_reuse hdr es dd ls key data pb ns l1 j l2 e (fun _ => _)); try done.
    + by rewrite (chainoff_frame _ _ Hf2).
    + intros db3 Hi3 Hw3 Hf3. wp_steps. split; [done|].
      eapply (reuse_repr hdr es dd ls); try done. congruence.
Qed.

(** The writes of [db_store] over a record of the same size. *)
Lemma overwrite_repr hdr es dd ls m data l1 j l2 e db db' c :
  wf hdr es dd ls -> models es ls m -> ls !! S (hidx (e_key e)) = Some (l1 ++ j :: l2) ->
  es !! j = Some e -> data_ok data -> length data = length (e_data e) ->
  image hdr es dd db -> frame db' = frame db ->
  image hdr es (sd_dd dd e data) db' -> can_write db' ->
  after_store db (<[e_key e:=data]> m) (set_cnt c db').
Proof.
  intros Hwf Hm Hls He Hd Hlen Hi Hf Hi' Hw'.
  destruct (image_sizes _ _ _ _ Hi) as [Hs1 Hs2]. destruct (image_sizes _ _ _ _ Hi') as [Hs1' Hs2'].
  assert (Hj : j ∈ l1 ++ j :: l2) by in_list.
  pose proof (Forall_lookup_1 _ _ _ _ (wf_es _ _ _ _ Hwf) He) as Hoke.
  split.
  - exists hdr, (sd_es es j e data), (sd_dd dd e data), ls. split; [|split].
    + apply image_cnt. destruct Hi'. split; try done; [by rewrite sd_index|by eapply sd_ok].
    + eapply (wf_set_data hdr es dd ls (S (hidx (e_key e))) (l1 ++ j :: l2)); done.
    + by apply (models_set_data hdr es dd ls (S (hidx (e_key e))) (l1 ++ j :: l2)).
  - by apply can_write_cnt.
  - by apply (lims_frame db db').
  - simpl. rewrite Hs1', Hs1. unfold IDXLEN_MAX. lia.
  - simpl. rewrite Hs2', Hs2. unfold sd_dd. rewrite length_splice_within.
    + unfold DATLEN_MAX. lia.
    + pose proof (data_at_bound _ _ (wf_data _ _ _ _ Hwf j e He) (proj1 (eo_off e Hoke))).
      pose proof (eo_off e Hoke). rewrite length_app. unfold e_dlen in *. simpl. lia.
Qed.

Lemma after_store_sizes db db1 m db' :
  f_size (idxfd db1) = f_size (idxfd db) -> f_size (datfd db1) = f_size (datfd db) ->
  frame db1 = frame db -> after_store db1 m db' -> after_store db m db'.
Proof.
  intros Hi Hd Hf [Hr Hw Hl H1 H2]. destruct (lims_frame _ _ Hf) as [Hl1 Hl2].
  split; try done; [|by rewrite <- Hi|by rewrite <- Hd]. by rewrite <- Hl1, <- Hl2.
Qed.

Lemma store_existing_spec hdr es dd ls m data flag l1 j l2 e db :
  image hdr es dd db -> wf hdr es dd ls -> models es ls m -> can_write db ->
  data_ok data -> room db (e_key e) data ->
  ls !! S (hidx (e_key e)) = Some (l1 ++ j :: l2) -> es !! j = Some e ->
  chainoff db = 6 * Z.of_nat (S (hidx (e_key e))) -> loaded (eoff es j) e db ->
  ptroff db = loc_off es (pred_loc (LHdr (S (hidx (e_key e)))) l1) -> flag <> DB_INSERT ->
  wp (store_existing (e_key e) data flag (Z.of_nat (length data) + 1))
    (fun r db' => r = 0 /\ after_store db (<[e_key e:=data]> m) db') db.
Proof.
  intros Hi Hwf Hm Hw Hd Hroom Hls He Hch Hld Hpt Hflag.
  pose proof (Forall_lookup_1 _ _ _ _ (wf_es _ _ _ _ Hwf) He) as Hok.
  unfold store_existing. apply wp_if_false; [by apply Z.eqb_neq|]. wp_steps.
  rewrite (ld_datlen _ _ _ Hld). destruct (Z.eqb_spec (Z.of_nat (length data) + 1) (e_dlen e)) as [Hdl|Hdl].
  - assert (Hlen : length data = length (e_data e)) by (unfold e_dlen in Hdl; lia).
    simpl. wp_step. rewrite (ld_datoff _ _ _ Hld).
    apply (wp_writedat_inplace hdr es dd e); try done; [by apply (wf_data _ _ _ _ Hwf j)|apply (eo_off e Hok)|].
    intros db1 dd' Hu Hi1 Hw1 _ _. wp_steps. split; [done|].
    eapply (overwrite_repr hdr es dd ls); try done. apply (u_frame _ _ _ _ _ Hu).
  - simpl. wp_step.
    destruct (ls_lookup _ _ _ _ O Hwf) as [fl Hfl]; [lia|].
    destruct (hdr_lookup _ _ _ _ O Hwf) as [fp Hfp]; [lia|].
    apply (wp_dodelete hdr es dd ls (S (hidx (e_key e))) l1 j l2 e fl fp); try done.
    intros db1 hdr' es' dd' Hu Hi1 Hw1.
    destruct (delete_repr hdr es dd ls m _ l1 j l2 e fl fp Hwf Hm (Nat.neq_succ_0 _) Hls He Hfl Hfp)
      as (Hwf' & Hm' & Hsi & Hsd).
    pose proof (u_frame _ _ _ _ _ Hu) as Hf1.
    assert (Hs1 : f_size (idxfd db1) = f_size (idxfd db)).
    { unfold f_size. rewrite (im_idx _ _ _ _ Hi1), (im_idx _ _ _ _ Hi). by f_equal. }
    assert (Hs2 : f_size (datfd db1) = f_size (datfd db)).
    { unfold f_size. rewrite (im_dat _ _ _ _ Hi1), (im_dat _ _ _ _ Hi). by f_equal. }
    destruct (ls_lookup _ _ _ _ (S (hidx (e_key e))) Hwf') as [lb Hlb]; [pose proof (hidx_lt (e_key e)); lia|].
    destruct (hdr_lookup _ _ _ _ (S (hidx (e_key e))) Hwf') as [pb Hpb]; [pose proof (hidx_lt (e_key e)); lia|].
    wp_steps. rewrite (chainoff_frame _ _ Hf1), Hch.
    apply (wp_readptr_hdr hdr' es' dd' _ pb); [done|done|]. intros db2 Hk2 _ _.
    pose proof (u_frame _ _ _ _ _ Hk2) as Hf2.
    assert (Hi2 : image hdr' es' dd' db2) by (by eapply image_keeps).
    destruct (image_sizes _ _ _ _ Hi1) as [Hz1 Hz2]. destruct (image_sizes _ _ _ _ Hi2) as [Hz1' Hz2'].
    eapply (wp_append hdr' es' dd' _ (e_key e) data pb lb (fun _ => _)); try done.
    + by eapply can_write_keeps.
    + apply Hok.
    + eapply room_same; [| |by etrans; [exact Hf2|exact Hf1]|done]; congruence.
    + by rewrite (chainoff_frame _ _ Hf2), (chainoff_frame _ _ Hf1).
    + intros db3 e2 b Hi3 Hw3 Hf3 Hok3 Hend. wp_steps. split; [done|].
      apply (after_store_sizes db db1); [done|done|done|].
      rewrite <- insert_delete_eq.
      eapply (append_repr hdr' es' dd' _ _ _ _ pb lb); try done; [|congruence].
      intros i ei Hin Hei Hkey.
      assert (Hin' : delete (e_key e) m !! e_key e = Some (e_data ei)).
      { apply Hm'. exists b, lb, i, ei. done. }
      by rewrite lookup_delete_eq in Hin'.
Qed.

(** The result of a store call that changes nothing but the counters. *)
Lemma unchanged_repr hdr es dd ls m db db' f :
  wf hdr es dd ls -> models es ls m -> image hdr es dd db -> image hdr es dd db' -> can_write db' ->
  frame db' = frame db ->
  (forall hdr es dd, image hdr es dd db' -> image hdr es dd (f db')) ->
  idxfd (f db') = idxfd db' -> datfd (f db') = datfd db' ->
  after_store db m (f db').
Proof.
  intros Hwf Hm Hi Hi' [Hw Hw1 Hw2] Hf HF H1 H2. destruct (lims_frame _ _ Hf) as [Hl1 Hl2].
  destruct (image_sizes _ _ _ _ Hi) as [Hs1 Hs2]. destruct (image_sizes _ _ _ _ Hi') as [Hs1' Hs2'].
  split; rewrite ?H1, ?H2; try done.
  - exists hdr, es, dd, ls. split; [by apply HF|done].
  - split; rewrite ?H1, ?H2; try done. destruct Hw. split; congruence.
  - unfold IDXLEN_MAX. lia.
  - unfold DATLEN_MAX. lia.
Qed.

Lemma after_store_log ev db m db' : after_store db m db' -> after_store db m (log_event ev db').
Proof.
  intros [(hdr & es & dd & ls & Hi & Hwf & Hm) Hw Hl H1 H2]. split; try done.
  - exists hdr, es, dd, ls. split; [by apply image_log|done].
  - by apply can_write_log.
Qed.

(** The part of [db_store] between the lock and the unlock of the chain. *)
Lemma store_absent_spec hdr es dd ls m key data flag ns db :
  image hdr es dd db -> wf hdr es dd ls -> models es ls m -> can_write db ->
  key_ok key -> data_ok data -> room db key data ->
  ls !! S (hidx key) = Some ns -> chainoff db = 6 * Z.of_nat (S (hidx key)) ->
  (forall i e, i ∈ ns -> es !! i = Some e -> e_key e <> key) ->
  wp (store_new key data flag (Z.of_nat (length key)) (Z.of_nat (length data) + 1))
    (fun r db' => r = (store_result m key data flag).1 /\
                  after_store db (store_result m key data flag).2 db') db.
Proof.
  intros Hi Hwf Hm Hw Hk Hd Hroom Hns Hch Hall. unfold store_result.
  rewrite (models_absent hdr es dd ls ns m key) by done.
  destruct (Z.eqb_spec flag DB_REPLACE) as [->|Hne]; [|by eapply store_new_spec].
  unfold store_new. apply wp_if_true; [done|]. wp_steps. split; [done|].
  eapply (unchanged_repr hdr es dd ls m _ db (fun db => set_errno ENOENT (set_cnt _ db))); try done.
  intros ??? [[]]. by split.
Qed.

Lemma store_present_spec hdr es dd ls m data flag l1 j l2 e db :
  image hdr es dd db -> wf hdr es dd ls -> models es ls m -> can_write db ->
  data_ok data -> room db (e_key e) data ->
  ls !! S (hidx (e_key e)) = Some (l1 ++ j :: l2) -> es !! j = Some e ->
  chainoff db = 6 * Z.of_nat (S (hidx (e_key e))) -> loaded (eoff es j) e db ->
  ptroff db = loc_off es (pred_loc (LHdr (S (hidx (e_key e)))) l1) ->
  wp (store_existing (e_key e) data flag (Z.of_nat (length data) + 1))
    (fun r db' => r = (store_result m (e_key e) data flag).1 /\
                  after_store db (store_result m (e_key e) data flag).2 db') db.
Proof.
  intros Hi Hwf Hm Hw Hd Hroom Hls He Hch Hld Hpt. unfold store_result.
  rewrite (models_present es ls m _ l1 j l2 e Hm Hls eq_refl He).
  destruct (Z.eqb_spec flag DB_INSERT) as [->|Hne]; [|by eapply store_existing_spec].
  unfold store_existing. apply wp_if_true; [done|]. wp_steps. split; [done|].
  eapply (unchanged_repr hdr es dd ls m _ db (fun db => set_cnt _ db)); try done.
  intros ??? [[]]. by split.
Qed.

Lemma store_spec db m key data flag :
  db_rep db m -> can_write db -> key_ok key -> data_ok data -> room db key data -> valid_flag flag ->
  wp (db_store key data flag) (fun r db' =>
    r = (store_result m key data flag).1 /\ after_store db (store_result m key data flag).2 db') db.
Proof.
  intros (hdr & es & dd & ls & Hi & Hwf & Hm) Hw Hk Hd Hroom Hv.
  destruct (ls_lookup _ _ _ _ (S (hidx key)) Hwf) as [ns Hns]; [pose proof (hidx_lt key); lia|].
  unfold db_store. apply wp_if_false.
  { destruct Hv as [-> | [-> | ->]]; done. }
  wp_step. pose proof Hd as [Hd0 Hdl]. apply wp_dump_if; [range_check|]. wp_step.
  set (Q := fun r db' => r = (store_result m key data flag).1 /\
                         after_store db (store_result m key data flag).2 db').
  assert (Hend : forall db1 mm, keeps (locked_at F_WRLCK key db) db1 ->
    wp mm (fun r db' => r = (store_result m key data flag).1 /\
                        after_store db1 (store_result m key data flag).2 db') db1 ->
    wp (rc ← mm; db ← get; r ← un_lock IDX (chainoff db) 1;
        dump_if (r <? 0) "db_store: un_lock error";; mret rc) Q db1).
  { intros db1 mm Hk1 Hmm. wp_step. eapply wp_mono; [exact Hmm|]. intros r db2 [-> Ha]. wp_steps.
    apply wp_lock; [done|]. wp_step. apply wp_dump_if; [done|]. wp_step. split; [done|].
    apply after_store_log. pose proof (u_frame _ _ _ _ _ Hk1) as Hf1.
    assert (Ha' : after_store (locked_at F_WRLCK key db) (store_result m key data flag).2 db2).
    { eapply after_store_sizes; [| |exact Hf1|exact Ha]; unfold f_size.
      - by rewrite (u_idx _ _ _ _ _ Hk1).
      - by rewrite (u_dat _ _ _ _ _ Hk1). }
    by destruct Ha'. }
  assert (Hroom1 : forall db1, keeps (locked_at F_WRLCK key db) db1 -> room db1 key data).
  { intros db1 Hk1. eapply room_same; [| |exact (u_frame _ _ _ _ _ Hk1)|by destruct Hroom]; unfold f_size.
    - by rewrite (u_idx _ _ _ _ _ Hk1).
    - by rewrite (u_dat _ _ _ _ _ Hk1). }
  assert (Hi1 : forall db1, keeps (locked_at F_WRLCK key db) db1 -> image hdr es dd db1).
  { intros db1 Hk1. eapply image_keeps; [exact Hk1|by apply locked_at_image]. }
  assert (Hw1 : forall db1, keeps (locked_at F_WRLCK key db) db1 -> can_write db1).
  { intros db1 Hk1. eapply can_write_keeps; [exact Hk1|by apply locked_at_write]. }
  apply (wp_find_and_lock hdr es dd ls key true ns); [done|done|done|intros _; apply Hw| |].
  - intros db1 Hk1 Hall. cbn -[store_new]. apply Hend; [done|].
    eapply (store_absent_spec hdr es dd ls m key data flag ns); try eauto.
    exact (chainoff_upd _ _ _ _ _ _ _ Hk1).
  - intros db1 l1 j l2 e Hk1 -> He <- Hld Hpt. cbn -[store_existing]. apply Hend; [done|].
    eapply (store_present_spec hdr es dd ls m data flag l1 j l2 e); try eauto.
    exact (chainoff_upd _ _ _ _ _ _ _ Hk1).
Qed.
