(* ===== verification/DbScan.v ===== *)
(** * DbScan: sequential scan, opening and closing.

    [db_rewind] and [db_nextrec] walk the index file from its first record;
    [db_open] creates or reopens a database.  The scan is shown to deliver
    every live pair of the map exactly once. *)
From S2P Require Import Prelude Libc Files Db DbFormat DbWp DbChain DbOps DbSpec.
Local Open Scope Z_scope.

(** The client's loop [while ((ptr = db_nextrec(db, key)) != NULL)]. *)
Fixpoint scan (fuel : nat) : M (list (bytes * bytes)) :=
  match fuel with
  | O => nofuel
  | S fuel' =>
    r ← db_nextrec;
    match r with
    | None => mret []
    | Some kd => rest ← scan fuel'; mret (kd :: rest)
    end
  end.

(** ** The index file in record order *)

Definition live (e : entry) : bool := negb (all_blank (e_key e)).

Lemma all_blank_true k : all_blank k = true <-> Forall (fun c => c = SPACE) k.
Proof.
  unfold all_blank. rewrite forallb_forall, Forall_forall.
  split; intros H x Hx.
  - apply Z.eqb_eq, H. by apply list_elem_of_In.
  - apply Z.eqb_eq, H. by apply list_elem_of_In.
Qed.

(** The cursor of the index file stands before the records [rest]. *)
Record at_rest (hdr : list Z) (es : list entry) (dd : bytes) (rest : list entry) (db : DB) : Prop := {
  ar_image : image hdr es dd db;
  ar_split : exists pre, es = pre ++ rest /\ f_pos (idxfd db) = eoff es (length pre)
}.

Lemma wp_readidx_eof Q db :
  ready db -> f_pos (idxfd db) = f_size (idxfd db) ->
  (forall db', keeps db db' -> f_pos (idxfd db') = f_pos (idxfd db) -> Q (-1) db') ->
  wp (_db_readidx 0) Q db.
Proof.
  intros Hr Hpos HQ. unfold _db_readidx. wp_step.
  unfold wp at 1, lseek, sys_lseek. simpl. rewrite Z.add_0_r.
  destruct (Z.ltb_spec (f_pos (idxfd db)) 0) as [Hlt|Hge]; [unfold f_size in *; lia|].
  wp_steps. apply wp_dump_if; [by apply eqb_neq_m1|]. wp_step.
  apply (wp_read_idx _ []); [apply Hr|done| |].
  { simpl. rewrite Hpos. unfold f_size. rewrite Nat2Z.id. unfold slice. by rewrite drop_all. }
  simpl. apply HQ; [by split|]. simpl. lia.
Qed.

Lemma at_rest_read hdr es dd e rest Q db :
  at_rest hdr es dd (e :: rest) db ->
  (forall db' i, keeps db db' -> at_rest hdr es dd rest db' -> es !! i = Some e ->
     loaded (eoff es i) e db' -> Q (e_ptr e) db') ->
  wp (_db_readidx 0) Q db.
Proof.
  intros [Hi (pre & Hes & Hpos)] HQ. pose proof Hi as [Hr Hfi Hfd Hl Hh Hok].
  assert (He : es !! length pre = Some e) by (by rewrite Hes, list_lookup_middle).
  pose proof (length_before hdr es (length pre) Hh Hl) as Hlen.
  apply (wp_readidx_at 0 e (before hdr es (length pre)) (after es (length pre))).
  - done.
  - by eapply Forall_lookup_1.
  - rewrite Hfi. by apply enc_index_entry.
  - simpl. congruence.
  - intros db' Hk Hld _ Hpos'. rewrite Hlen in Hld. apply (HQ db' (length pre)); try done.
    split; [by eapply image_keeps|]. exists (pre ++ [e]). split; [by rewrite <- app_assoc|].
    rewrite Hpos', Nat2Z.inj_add, Hlen, length_app. simpl. rewrite Nat.add_1_r. by rewrite (eoff_succ _ _ e).
Qed.

Lemma wp_nextrec_loop hdr es dd rest fuel Q db :
  at_rest hdr es dd rest db -> (length rest < fuel)%nat ->
  (forall db', keeps db db' -> at_rest hdr es dd [] db' -> Forall (fun e => live e = false) rest ->
     Q false db') ->
  (forall db' i bl e rest', keeps db db' -> at_rest hdr es dd rest' db' -> rest = bl ++ e :: rest' ->
     Forall (fun e => live e = false) bl -> live e = true -> es !! i = Some e ->
     loaded (eoff es i) e db' -> Q true db') ->
  wp (nextrec_loop fuel) Q db.
Proof.
  revert fuel db Q. induction rest as [|e rest IH]; intros fuel db Q Har Hfuel HQ0 HQ1;
    (destruct fuel as [|fuel]; [simpl in Hfuel; lia|]); cbn [nextrec_loop]; wp_step.
  - pose proof Har as [Hi (pre & Hes & Hpos)]. rewrite app_nil_r in Hes. subst pre.
    apply wp_readidx_eof; [apply Hi| |].
    { by rewrite (proj1 (image_sizes _ _ _ _ Hi)). }
    intros db' Hk Hpos'. simpl. wp_step. apply HQ0; [done| |done].
    split; [by eapply image_keeps|]. exists es. split; [by rewrite app_nil_r|congruence].
  - apply (at_rest_read hdr es dd e rest); [done|]. intros db1 i Hk1 Har1 Hi1 Hld.
    assert (Hptr : 0 <= e_ptr e).
    { assert (Hok : entry_ok e) by (eapply Forall_lookup_1; [apply Har|exact Hi1]). by apply (eo_ptr e Hok). }
    apply wp_if_false; [by apply Z.ltb_ge|]. wp_steps. rewrite (ld_key _ _ _ Hld).
    destruct (all_blank (e_key e)) eqn:Hb.
    + assert (Hdead : live e = false) by (unfold live; by rewrite Hb).
      apply IH; [done|simpl in Hfuel; lia| |].
      * intros db' Hk' Har' Hall. apply HQ0; [by eapply upd_keeps|done|by constructor].
      * intros db' i' bl e' rest' Hk' Har' -> Hbl Hl He' Hld'.
        apply (HQ1 db' i' (e :: bl) e' rest'); try done; [by eapply upd_keeps|by constructor].
    + wp_step. apply (HQ1 db1 i [] e rest); try done. unfold live. by rewrite Hb.
Qed.

Lemma at_rest_log hdr es dd rest ev db :
  at_rest hdr es dd rest db -> at_rest hdr es dd rest (log_event ev db).
Proof. intros [Hi Hs]. split; [by apply image_log|done]. Qed.

Lemma at_rest_cnt hdr es dd rest c db :
  at_rest hdr es dd rest db -> at_rest hdr es dd rest (set_cnt c db).
Proof. intros [Hi Hs]. split; [by apply image_cnt|done]. Qed.

(** More fuel than records are left. *)
Lemma rest_short hdr es dd rest db :
  at_rest hdr es dd rest db -> (length rest < chain_fuel db)%nat.
Proof.
  intros [Hi (pre & Hes & _)]. unfold chain_fuel. rewrite (im_idx _ _ _ _ Hi).
  pose proof (length_es_bound hdr es (im_ptrs _ _ _ _ Hi) (im_es _ _ _ _ Hi)).
  assert (length rest <= length es)%nat by (rewrite Hes, length_app; lia). lia.
Qed.

(** Reading data moves the cursor of the data file only. *)
Lemma wp_readdat_pos e Q db :
  ready db -> entry_ok e -> datoff db = e_off e -> datlen db = e_dlen e ->
  data_at (f_data (datfd db)) e ->
  (forall db', keeps db db' -> idxfd db' = idxfd db -> Q (e_data e) db') ->
  wp _db_readdat Q db.
Proof.
  intros Hr He Ho Hl Hd HQ.
  assert (Hsame : wp _db_readdat (fun a db' => a = e_data e /\ keeps db db') db).
  { by apply (wp_readdat e). }
  assert (Hidx : forall a db', _db_readdat db = Ok a db' -> idxfd db' = idxfd db).
  { intros a db' E. unfold _db_readdat in E.
    unfold mbind, M_bind, get, lseek, read, modify, dump_if, err_dump, die, mret, M_ret in E. simpl in E.
    destruct (sys_lseek (datfd db) (datoff db) SEEK_SET) as [r f1].
    destruct (r =? -1); [done|]. simpl in E.
    destruct (sys_read f1 (datlen db)) as [[n bs] f2]. simpl in E.
    destruct (negb (n =? datlen db)); [done|]. simpl in E.
    destruct (negb (bool_decide _)); [done|]. by injection E as _ <-. }
  unfold wp in Hsame |- *. destruct (_db_readdat db) as [a db'| |]; [|done|done].
  destruct Hsame as [-> Hk]. by apply HQ; [|by eapply Hidx].
Qed.

Lemma wp_nextrec hdr es dd ls rest Q db :
  wf hdr es dd ls -> at_rest hdr es dd rest db ->
  (forall db', at_rest hdr es dd [] db' -> db_close db' = db_close db ->
     Forall (fun e => live e = false) rest -> Q None db') ->
  (forall db' bl e rest', at_rest hdr es dd rest' db' -> db_close db' = db_close db ->
     rest = bl ++ e :: rest' ->
     Forall (fun e => live e = false) bl -> live e = true -> Q (Some (e_key e, e_data e)) db') ->
  wp db_nextrec Q db.
Proof.
  intros Hwf Har HQ0 HQ1. pose proof (im_ready _ _ _ _ (ar_image _ _ _ _ _ Har)) as Hr.
  unfold db_nextrec. wp_step. apply wp_lock; [simpl; by rewrite (rd_idx _ Hr)|].
  wp_step. apply wp_dump_if; [done|]. wp_steps.
  set (db0 := log_event _ db).
  assert (Har0 : at_rest hdr es dd rest db0) by (by apply at_rest_log).
  apply (wp_nextrec_loop hdr es dd rest); [done|by eapply rest_short| |].
  - intros db1 Hk1 Har1 Hall. wp_steps. apply wp_lock; [done|]. wp_step. apply wp_dump_if; [done|]. wp_step.
    apply HQ0; [by apply at_rest_log| |done].
    unfold db_close. simpl. by rewrite (u_idx _ _ _ _ _ Hk1), (u_dat _ _ _ _ _ Hk1).
  - intros db1 i bl e rest' Hk1 Har1 Hs Hbl Hl He Hld. wp_steps. rewrite (ld_key _ _ _ Hld).
    assert (Hi1 := ar_image _ _ _ _ _ Har1).
    apply (wp_readdat_pos e).
    + apply Hi1.
    + by eapply Forall_lookup_1; [apply Hi1|].
    + apply Hld.
    + apply Hld.
    + rewrite (im_dat _ _ _ _ Hi1). by apply (wf_data _ _ _ _ Hwf i).
    + intros db2 Hk2 Hfd. wp_steps. apply wp_lock; [done|]. wp_step. apply wp_dump_if; [done|]. wp_step.
      assert (Har2 : at_rest hdr es dd rest' db2).
      { split; [by eapply image_keeps|]. destruct Har1 as [_ (pre & ? & ?)]. exists pre. by rewrite Hfd. }
      apply (HQ1 _ bl e rest'); try done; [by apply at_rest_log, at_rest_cnt|].
      pose proof (upd_keeps _ _ _ _ _ _ Hk1 Hk2) as Hk.
      unfold db_close. simpl. by rewrite (u_idx _ _ _ _ _ Hk), (u_dat _ _ _ _ _ Hk).
Qed.

Lemma wp_scan hdr es dd ls rest fuel db :
  wf hdr es dd ls -> at_rest hdr es dd rest db -> (length rest < fuel)%nat ->
  wp (scan fuel) (fun l db' => at_rest hdr es dd [] db' /\ db_close db' = db_close db /\
    l = (fun e => (e_key e, e_data e)) <$> filter (fun e => live e = true) rest) db.
Proof.
  intros Hwf. assert (Hdead : forall l, Forall (fun e => live e = false) l ->
    filter (fun e => live e = true) l = []).
  { induction 1 as [|e l He _ IH]; [done|]. by rewrite filter_cons_False by congruence. }
  revert rest db. induction fuel as [|fuel IH]; intros rest db Har Hfuel; [lia|]. cbn [scan]. wp_step.
  apply (wp_nextrec hdr es dd ls rest); [done|done| |].
  - intros db1 Har1 Hc Hall. wp_step. split; [done|]. split; [done|]. by rewrite Hdead.
  - intros db1 bl e rest' Har1 Hc -> Hbl Hl. wp_step.
    eapply wp_mono; [apply (IH rest' db1 Har1); rewrite length_app in Hfuel; simpl in Hfuel; lia|].
    intros l db2 (Har2 & Hc2 & ->). wp_step. split; [done|]. split; [congruence|].
    rewrite filter_app, (Hdead _ Hbl), filter_cons_True by done. done.
Qed.

(** ** The scan against the map *)

Lemma live_entry hdr es dd ls m i e :
  wf hdr es dd ls -> models es ls m -> es !! i = Some e -> live e = true ->
  m !! e_key e = Some (e_data e) /\
  forall i' e', es !! i' = Some e' -> live e' = true -> e_key e' = e_key e -> i' = i.
Proof.
  intros Hwf Hm He Hl.
  assert (Hpos : forall i e, es !! i = Some e -> live e = true ->
    exists l, ls !! S (hidx (e_key e)) = Some l /\ i ∈ l).
  { intros i0 e0 He0 Hl0. destruct (wf_cover _ _ _ _ Hwf i0) as (j & l & Hj & Hin); [by eapply lookup_lt_Some|].
    pose proof (wf_place _ _ _ _ Hwf _ _ _ _ Hj Hin He0) as Hp.
    destruct (decide (j = O)) as [->|Hj0].
    - destruct Hp as [Hk _]. apply all_blank_true in Hk. unfold live in Hl0. by rewrite Hk in Hl0.
    - apply well_placed_pos in Hp; [|done]. subst j. eauto. }
  destruct (Hpos i e He Hl) as (l & Hls & Hin). split.
  - apply Hm. by exists (S (hidx (e_key e))), l, i, e.
  - intros i' e' He' Hl' Hk. destruct (Hpos i' e' He' Hl') as (l' & Hls' & Hin').
    rewrite Hk in Hls'. rewrite Hls in Hls'. injection Hls' as <-.
    by apply (wf_uniq _ _ _ _ Hwf (S (hidx (e_key e))) l i' i e' e).
Qed.

Definition pairs (es : list entry) : list (bytes * bytes) :=
  (fun e => (e_key e, e_data e)) <$> filter (fun e => live e = true) es.

Lemma pairs_elem es k d :
  (k, d) ∈ pairs es <-> exists i e, es !! i = Some e /\ live e = true /\ e_key e = k /\ e_data e = d.
Proof.
  unfold pairs. rewrite list_elem_of_fmap. setoid_rewrite list_elem_of_filter. split.
  - intros (e & [= -> ->] & Hl & Hin). apply list_elem_of_lookup_1 in Hin as [i Hi]. by exists i, e.
  - intros (i & e & Hi & Hl & <- & <-). exists e. split; [done|]. split; [done|]. by eapply list_elem_of_lookup_2.
Qed.

Lemma pairs_nodup es :
  (forall i e i' e', es !! i = Some e -> live e = true -> es !! i' = Some e' -> live e' = true ->
     e_key e = e_key e' -> i = i') ->
  NoDup (pairs es).*1.
Proof.
  induction es as [|e es IH]; intros Hu; [constructor|]. unfold pairs.
  assert (Hrec : NoDup (pairs es).*1).
  { apply IH. intros i1 e1 i2 e2 H1 Hl1 H2 Hl2 Hk.
    assert (S i1 = S i2) by (by apply (Hu (S i1) e1 (S i2) e2)). congruence. }
  rewrite filter_cons. destruct (decide (live e = true)) as [Hl|Hl]; [|done].
  rewrite fmap_cons. simpl. constructor; [|done].
  intros Hin. apply list_elem_of_fmap in Hin as ([k d] & Hk & Hin). simpl in Hk. subst k.
  apply pairs_elem in Hin as (i & e' & Hi & Hl' & Hk & _).
  by assert (S i = O) by (by apply (Hu (S i) e' O e)).
Qed.

Lemma pairs_spec hdr es dd ls m :
  wf hdr es dd ls -> models es ls m ->
  NoDup (pairs es).*1 /\
  forall k d, (k, d) ∈ pairs es <-> m !! k = Some d /\ all_blank k = false.
Proof.
  intros Hwf Hm. split.
  - apply pairs_nodup. intros i e i' e' He Hl He' Hl' Hk. symmetry.
    by eapply (live_entry hdr es dd ls m i e).
  - intros k d. rewrite pairs_elem. split.
    + intros (i & e & He & Hl & <- & <-). split; [by eapply live_entry|].
      unfold live in Hl. by apply negb_true_iff.
    + intros [Hmk Hb]. apply Hm in Hmk as (j & l & i & e & _ & _ & _ & He & <- & <-).
      exists i, e. unfold live. by rewrite Hb.
Qed.

(** A rewound handle. *)
Definition rewound (db : DB) : Prop := f_pos (idxfd db) = 829.

Lemma rewind_spec db m :
  db_rep db m ->
  wp db_rewind (fun _ db' => db_rep db' m /\ rewound db' /\ db_close db' = db_close db /\
                             frame db' = frame db) db.
Proof.
  intros (hdr & es & dd & ls & Hi & Hwf & Hm). pose proof (im_ready _ _ _ _ Hi) as [H1 H2 H3 H4 H5 H6].
  unfold db_rewind. wp_steps. rewrite H5. apply wp_lseek_idx_set; [done|]. wp_steps.
  apply wp_dump_if; [done|].
  split; [|done]. exists hdr, es, dd, ls. split; [|done]. by destruct Hi.
Qed.

Lemma scan_spec db m fuel :
  db_rep db m -> rewound db -> (chain_fuel db <= fuel)%nat ->
  wp (scan fuel) (fun l db' => db_rep db' m /\ db_close db' = db_close db /\
    NoDup l.*1 /\ forall k d, (k, d) ∈ l <-> m !! k = Some d /\ all_blank k = false) db.
Proof.
  intros (hdr & es & dd & ls & Hi & Hwf & Hm) Hrew Hfuel.
  assert (Har : at_rest hdr es dd es db) by (split; [done|by exists []]).
  eapply wp_mono; [apply (wp_scan hdr es dd ls es fuel); [done|done|]|].
  { pose proof (rest_short _ _ _ _ _ Har). lia. }
  intros l db' ([Hi' _] & Hc & ->). split; [by exists hdr, es, dd, ls|]. split; [done|].
  by eapply pairs_spec.
Qed.

(** ** Opening *)

Lemma empty_index_enc : empty_index = enc_index (replicate 138 0) [].
Proof. by vm_compute. Qed.

Lemma wf_empty : wf (replicate 138 0) [] [] (replicate 138 []).
Proof.
  assert (Hnil : forall j (l : list nat), replicate 138 [] !! j = Some l -> l = []).
  { intros j l Hj. by apply lookup_replicate in Hj as [-> _]. }
  split; try done.
  - apply Forall_replicate_eq. unfold ptr_ok, PTR_MAX. lia.
  - intros j l Hj. rewrite (Hnil _ _ Hj). exists 0%Z. split; [|done]. cbn [getp].
    apply lookup_replicate_2. by apply lookup_replicate in Hj as [_ ?].
  - intros j l Hj. rewrite (Hnil _ _ Hj). constructor.
  - intros j j' l l' i Hj _ Hin. rewrite (Hnil _ _ Hj) in Hin. set_solver.
  - intros i Hi. simpl in Hi. lia.
Qed.

Lemma models_empty : models [] (replicate 138 []) ∅.
Proof.
  intros k d. rewrite lookup_empty. split; [done|]. intros (j & l & i & e & _ & _ & _ & He & _). done.
Qed.

(** The handle [db_open] delivers for a new or truncated database. *)
Lemma open_init_spec ibuf dbuf nm lim :
  length ibuf = 1026%nat -> length dbuf = 1026%nat -> 829 <= lim ->
  let db0 := _db_alloc ibuf dbuf nm (mkFile [] 0 true true lim) (mkFile [] 0 true true lim) in
  wp (db_open_init;; db_rewind) (fun _ db => db_rep db ∅ /\ can_write db /\ rewound db /\
    f_lim (idxfd db) = lim /\ f_lim (datfd db) = lim /\ db_close db = (empty_index, [])) db0.
Proof.
  intros Hib Hdb Hlim db0. wp_step. unfold db_open_init. wp_step.
  assert (Hlen : Z.of_nat (length empty_index) = 829) by done.
  apply wp_lock; [done|]. wp_step. apply wp_dump_if; [done|]. wp_steps.
  apply wp_if_true; [done|]. wp_step. apply wp_write_idx; [done|done|rewrite Hlen; simpl; lia|].
  cbn zeta. apply wp_dump_if; [apply negb_eqb_refl|]. wp_step. apply wp_lock; [done|].
  apply wp_dump_if; [done|]. simpl.
  set (db1 := log_event _ _).
  assert (Hfi : f_data (idxfd db1) = empty_index) by (by vm_compute).
  assert (Hi : image (replicate 138 0) [] [] db1).
  { split; [done|by rewrite Hfi, empty_index_enc|done|done|apply wf_empty|done]. }
  assert (Hrep : db_rep db1 ∅).
  { exists (replicate 138 0), [], [], (replicate 138 []). split; [done|]. split; [apply wf_empty|apply models_empty]. }
  eapply wp_mono; [by apply (rewind_spec db1 ∅)|].
  intros _ db (Hr & Hp & Hc & Hf). destruct (lims_frame _ _ Hf) as [Hl1 Hl2].
  assert (Hcl : db_close db = (empty_index, [])) by (rewrite Hc; unfold db_close; by rewrite Hfi).
  unfold db_close in Hcl. injection Hcl as Hci Hcd.
  split; [done|]. split; [|repeat split; try done; unfold db_close; by rewrite Hci, Hcd].
  split; unfold f_size; rewrite ?Hl1, ?Hl2, ?Hci, ?Hcd, ?Hlen; simpl; try lia.
  unfold frame in Hf. injection Hf as _ Hw1 _ _ Hw2 _ _ _ _ _ _ _. split; [exact Hw1|exact Hw2].
Qed.

(** Reopening files that represent a map. *)
Lemma reopen_spec ibuf dbuf nm lim wr db m :
  length ibuf = 1026%nat -> length dbuf = 1026%nat -> db_rep db m ->
  let file d := mkFile d 0 true wr lim in
  wp db_rewind (fun _ db' => db_rep db' m /\ rewound db' /\ db_close db' = db_close db /\
     (wr = true -> f_size (idxfd db) <= lim -> f_size (datfd db) <= lim -> can_write db'))
    (_db_alloc ibuf dbuf nm (file (f_data (idxfd db))) (file (f_data (datfd db)))).
Proof.
  intros Hib Hdb (hdr & es & dd & ls & Hi & Hwf & Hm) file.
  set (db0 := _db_alloc _ _ _ _ _).
  assert (Hrep : db_rep db0 m).
  { exists hdr, es, dd, ls. split; [|done]. destruct Hi. by split. }
  eapply wp_mono; [by apply (rewind_spec db0 m)|].
  intros _ db' (Hr & Hp & Hc & Hf). split; [done|]. split; [done|]. split; [by rewrite Hc|].
  intros -> H1 H2. unfold db_close in Hc. simpl in Hc. injection Hc as Hci Hcd.
  unfold frame in Hf. simpl in Hf. simplify_eq. split; [by split| |]; unfold f_size in *; congruence.
Qed.
