(* ===== verification/DbLocks.v ===== *)
(** * DbLocks: the locking protocol of db.c.

    The trace of a handle records lock requests and writes.  A small Hoare
    logic follows the set of byte ranges that may be locked and shows, for any
    contents of the files, that every write of a mutating call happens while
    the hash chain of the key is write-locked, and that a call that returns has
    released every lock it took. *)
From S2P Require Import Prelude Libc Files Db DbFormat DbWp DbChain.
Local Open Scope Z_scope.

(** The lock the process holds on byte [b]: the last request that covers it. *)
Fixpoint lock_state (tr : list event) (fd : fdname) (b : Z) : lock_type :=
  match tr with
  | [] => F_UNLCK
  | EvLock t fd' off len :: tr' =>
    if bool_decide (fd' = fd) && covers off len b then t else lock_state tr' fd b
  | EvWrite _ _ _ :: tr' => lock_state tr' fd b
  end.

(** A locked range. *)
Definition range : Type := fdname * Z * Z.
Definition in_range (r : range) (fd : fdname) (b : Z) : bool :=
  let '(fd', off, len) := r in bool_decide (fd' = fd) && covers off len b.

(** No byte outside the ranges [L] is locked. *)
Definition within (L : list range) (tr : list event) : Prop :=
  forall fd b, lock_state tr fd b <> F_UNLCK -> exists r, r ∈ L /\ in_range r fd b = true.

(** The events leave the lock on byte [c] of the index file alone. *)
Definition quiet (c : Z) (e : event) : Prop :=
  match e with
  | EvLock _ fd off len => bool_decide (fd = IDX) && covers off len c = false
  | EvWrite _ _ _ => True
  end.

(** The part of a handle the protocol depends on. *)
Record anchored (c : Z) (db : DB) : Prop := {
  an_chain : chainoff db = c;
  an_pos : HASH_OFF <= c < (NHASH_DEF + 1) * PTR_SZ;
  an_nhash : nhash db = NHASH_DEF;
  an_hashoff : hashoff db = HASH_OFF
}.

Definition grown (c : Z) (tr tr' : list event) : Prop := exists evs, tr' = evs ++ tr /\ Forall (quiet c) evs.

Definition hoare {A} (c : Z) (L : list range) (m : M A) (L' : list range) : Prop :=
  forall db, anchored c db -> within L (trace db) ->
    match m db with
    | Ok _ db' => anchored c db' /\ within L' (trace db') /\ grown c (trace db) (trace db')
    | Fatal _ db' => grown c (trace db) (trace db')
    | NoFuel => True
    end.

Create HintDb locks.

Lemma grown_refl c tr : grown c tr tr.
Proof. by exists []. Qed.

Lemma grown_trans c t1 t2 t3 : grown c t1 t2 -> grown c t2 t3 -> grown c t1 t3.
Proof.
  intros (e1 & -> & H1) (e2 & -> & H2). exists (e2 ++ e1). split; [by rewrite app_assoc|].
  by apply Forall_app.
Qed.

Lemma h_bind {A B} c L1 L2 L3 (m : M A) (k : A -> M B) :
  hoare c L1 m L2 -> (forall a, hoare c L2 (k a) L3) -> hoare c L1 (m ≫= k) L3.
Proof.
  intros Hm Hk db Ha Hw. unfold mbind, M_bind. specialize (Hm db Ha Hw).
  destruct (m db) as [a db1|e db1|]; [|done|done]. destruct Hm as (Ha1 & Hw1 & Hg).
  specialize (Hk a db1 Ha1 Hw1). destruct (k a db1) as [b db2|e db2|]; [|by eapply grown_trans|done].
  destruct Hk as (Ha2 & Hw2 & Hg2). split; [done|]. split; [done|]. by eapply grown_trans.
Qed.

(** A step that neither logs events nor moves the chain. *)
Definition silent {A} (m : M A) : Prop :=
  forall db, match m db with
    | Ok _ db' | Fatal _ db' =>
      trace db' = trace db /\ chainoff db' = chainoff db /\ nhash db' = nhash db /\ hashoff db' = hashoff db
    | NoFuel => True
    end.

Lemma h_silent {A} c L (m : M A) : silent m -> hoare c L m L.
Proof.
  intros Hs db [Hc Hp Hn Hh] Hw. specialize (Hs db).
  destruct (m db) as [a db'|e db'|]; [|destruct Hs as (-> & _); apply grown_refl|done].
  destruct Hs as (Ht & Hc' & Hn' & Hh'). rewrite Ht. split; [split; congruence|]. split; [done|apply grown_refl].
Qed.

Lemma h_ret {A} c L (a : A) : hoare c L (mret a) L.
Proof. by apply h_silent. Qed.
Lemma h_get c L : hoare c L get L.
Proof. by apply h_silent. Qed.
Lemma h_die {A} c L L' e : hoare c L (die (A := A) e) L'.
Proof. intros db _ _. apply grown_refl. Qed.
Lemma h_nofuel {A} c L L' : hoare c L (nofuel (A := A)) L'.
Proof. done. Qed.
Lemma h_dump_if c L b msg : hoare c L (dump_if b msg) L.
Proof. destruct b; [apply h_die|apply h_ret]. Qed.
Lemma h_lseek c L fd off w : hoare c L (lseek fd off w) L.
Proof.
  apply h_silent. intros db. unfold lseek. by destruct (sys_lseek _ _ _) as [r f], fd.
Qed.
Lemma h_read c L fd n : hoare c L (read fd n) L.
Proof.
  apply h_silent. intros db. unfold read. by destruct (sys_read _ _) as [[r bs] f], fd.
Qed.
Lemma h_modify c L f :
  (forall db, trace (f db) = trace db /\ chainoff (f db) = chainoff db /\ nhash (f db) = nhash db /\
     hashoff (f db) = hashoff db) -> hoare c L (modify f) L.
Proof. intros Hf. apply h_silent. intros db. apply Hf. Qed.
Lemma h_if {A} c L L' (b : bool) (m1 m2 : M A) :
  hoare c L m1 L' -> hoare c L m2 L' -> hoare c L (if b then m1 else m2) L'.
Proof. by destruct b. Qed.
Lemma h_decide {A} c L L' (P : Prop) `{Decision P} (m1 m2 : M A) :
  hoare c L m1 L' -> hoare c L m2 L' -> hoare c L (if decide P then m1 else m2) L'.
Proof. intros. by destruct (decide P). Qed.

Lemma h_write c L fd bs : hoare c L (write fd bs) L.
Proof.
  intros db [Hc Hp Hn Hh] Hw. unfold write. destruct (sys_write _ _) as [r f]. simpl.
  assert (Hk : chainoff (set_file fd f db) = chainoff db /\ nhash (set_file fd f db) = nhash db /\
    hashoff (set_file fd f db) = hashoff db /\ trace (set_file fd f db) = trace db) by (by destruct fd).
  destruct Hk as (H1 & H2 & H3 & H4). split; [split; simpl; congruence|]. rewrite H4.
  split; [exact Hw|]. eexists [_]. split; [done|]. by constructor.
Qed.

Lemma h_lock c L t fd off len :
  bool_decide (fd = IDX) && covers off len c = false ->
  hoare c L (lock_reg fd t off len) ((fd, off, len) :: L).
Proof.
  intros Hq db [Hc Hp Hn Hh] Hw. unfold lock_reg. split; [by split|]. split.
  - intros fd' b. simpl. intros Hne. destruct (bool_decide (fd = fd') && covers off len b) eqn:E.
    + exists (fd, off, len). split; [in_list|done].
    + destruct (Hw fd' b Hne) as (r & Hr & Hin). exists r. split; [in_list|done].
  - eexists [_]. split; [done|]. by constructor.
Qed.

Lemma h_unlock c L fd off len :
  bool_decide (fd = IDX) && covers off len c = false ->
  hoare c ((fd, off, len) :: L) (un_lock fd off len) L.
Proof.
  intros Hq db [Hc Hp Hn Hh] Hw. unfold un_lock, lock_reg. split; [by split|]. split.
  - intros fd' b. simpl. destruct (bool_decide (fd = fd') && covers off len b) eqn:E; [done|].
    intros Hne. destruct (Hw fd' b Hne) as (r & Hr & Hin). apply elem_of_cons in Hr as [->|Hr]; [|eauto].
    simpl in Hin. congruence.
  - eexists [_]. split; [done|]. by constructor.
Qed.

(** The state may be inspected: what is known of an anchored one. *)
Lemma h_get_bind {A} c L L' (k : DB -> M A) :
  (forall db, anchored c db -> hoare c L (k db) L') -> hoare c L (get ≫= k) L'.
Proof. intros Hk db Ha Hw. by apply (Hk db Ha). Qed.

(** Bytes of the free-list lock and of the append lock are not chain bytes. *)
Lemma quiet_free c : HASH_OFF <= c -> bool_decide (IDX = IDX) && covers FREE_OFF 1 c = false.
Proof.
  intros Hc. unfold covers, FREE_OFF, HASH_OFF, PTR_SZ in *. simpl.
  destruct (Z.leb_spec 0 c), (Z.ltb_spec c (0 + 1)); try done. lia.
Qed.

Lemma quiet_append c db :
  anchored c db -> bool_decide (IDX = IDX) && covers ((nhash db + 1) * PTR_SZ + 1) 0 c = false.
Proof.
  intros [_ Hp Hn _]. unfold covers. rewrite Hn in *. simpl.
  destruct (Z.leb_spec ((NHASH_DEF + 1) * PTR_SZ + 1) c); [lia|done].
Qed.

#[export] Hint Resolve h_ret h_get h_die h_nofuel h_dump_if h_lseek h_read h_write : locks.
#[export] Hint Resolve quiet_free quiet_append : locks.
#[export] Hint Extern 1 (bool_decide (DAT = IDX) && _ = false) => reflexivity : locks.

(** One step through a sequence; what it cannot do is left to the database. *)
Ltac h_step :=
  lazymatch goal with
  | |- hoare _ _ (get ≫= _) _ => apply h_get_bind; intros ? ?
  | |- hoare _ _ (_ ≫= (fun x => _)) _ => eapply h_bind; [|intros ?]
  | |- hoare _ _ (modify _) _ => apply h_modify; intros ?; done
  | |- hoare _ _ (readw_lock _ _ _) _ => unfold readw_lock
  | |- hoare _ _ (writew_lock _ _ _) _ => unfold writew_lock
  | |- hoare _ _ (lock_reg _ _ _ _) _ => apply h_lock
  | |- hoare _ _ (un_lock _ _ _) _ => apply h_unlock
  | |- hoare _ _ (let '(_, _) := ?x in _) _ => destruct x
  | |- hoare _ _ (match strchr ?s ?c with _ => _ end) _ => destruct (strchr s c)
  | |- hoare _ _ (if decide _ then _ else _) _ => apply h_decide
  | |- hoare _ _ (if _ then _ else _) _ => apply h_if
  | |- hoare _ _ (err_dump _) _ => apply h_die
  | |- hoare _ _ (err_quit _) _ => apply h_die
  | |- hoare _ _ (undefined _) _ => apply h_die
  | |- _ => solve [eauto 3 with locks]
  end.
Ltac h_steps := repeat h_step.

Lemma h_readptr c L off : hoare c L (_db_readptr off) L.
Proof. unfold _db_readptr. h_steps. Qed.
#[export] Hint Resolve h_readptr : locks.

Lemma h_readidx c L off : hoare c L (_db_readidx off) L.
Proof. unfold _db_readidx, readidx_parse. h_steps. Qed.
#[export] Hint Resolve h_readidx : locks.

Lemma h_readdat c L : hoare c L _db_readdat L.
Proof. unfold _db_readdat. h_steps. Qed.
#[export] Hint Resolve h_readdat : locks.

Lemma h_find_loop c L fuel key off : hoare c L (find_loop fuel key off) L.
Proof. revert off. induction fuel as [|fuel IH]; intros off; cbn [find_loop]; h_steps. Qed.
#[export] Hint Resolve h_find_loop : locks.

Lemma h_findfree_loop c L fuel kl dl s off : hoare c L (findfree_loop fuel kl dl s off) L.
Proof. revert s off. induction fuel as [|fuel IH]; intros s off; cbn [findfree_loop]; h_steps. Qed.
#[export] Hint Resolve h_findfree_loop : locks.

Lemma h_writeptr c L off p : hoare c L (_db_writeptr off p) L.
Proof. unfold _db_writeptr. h_steps. Qed.
#[export] Hint Resolve h_writeptr : locks.

Lemma h_writedat c L d off w : hoare c L (_db_writedat d off w) L.
Proof. unfold _db_writedat. destruct w; simpl; h_steps. Qed.
#[export] Hint Resolve h_writedat : locks.

Lemma h_writeidx c L key off w p : hoare c L (_db_writeidx key off w p) L.
Proof. unfold _db_writeidx. destruct w; simpl; h_steps. Qed.
#[export] Hint Resolve h_writeidx : locks.

(** The position of the chain byte is known in every anchored state. *)
Lemma h_pos {A} c L L' (m : M A) :
  (HASH_OFF <= c -> hoare c L m L') -> hoare c L m L'.
Proof. intros H db Ha. apply H; [|done]. apply Ha. Qed.

Lemma h_dodelete c L : hoare c L _db_dodelete L.
Proof. apply h_pos. intros Hc. unfold _db_dodelete. h_steps. Qed.
#[export] Hint Resolve h_dodelete : locks.

Lemma h_findfree c L kl dl : hoare c L (_db_findfree kl dl) L.
Proof. apply h_pos. intros Hc. unfold _db_findfree. h_steps. Qed.
#[export] Hint Resolve h_findfree : locks.

Lemma h_store_new c L key data flag kl dl : hoare c L (store_new key data flag kl dl) L.
Proof. unfold store_new. h_steps. Qed.

Lemma h_store_existing c L key data flag dl : hoare c L (store_existing key data flag dl) L.
Proof. unfold store_existing. h_steps. Qed.
#[export] Hint Resolve h_store_new h_store_existing : locks.

(** ** Whole calls *)

(** Every write of the events added to [tr0] happens while byte [c] of the
    index file is under a lock of type [t]. *)
Definition protected (t : lock_type) (c : Z) (tr0 tr : list event) : Prop :=
  forall post fd off len pre,
    tr = post ++ EvWrite fd off len :: pre -> (length tr0 <= length pre)%nat ->
    lock_state pre IDX c = t.

(** No lock is held. *)
Definition idle (db : DB) : Prop := forall fd b, lock_state (trace db) fd b = F_UNLCK.

Lemma idle_within db : idle db <-> within [] (trace db).
Proof.
  split.
  - intros Hi fd b Hne. by rewrite Hi in Hne.
  - intros Hw fd b. destruct (decide (lock_state (trace db) fd b = F_UNLCK)) as [|Hne]; [done|].
    destruct (Hw fd b Hne) as (r & Hr & _). set_solver.
Qed.

Lemma quiet_state c evs tr : Forall (quiet c) evs -> lock_state (evs ++ tr) IDX c = lock_state tr IDX c.
Proof.
  induction 1 as [|e evs He _ IH]; [done|]. simpl.
  destruct e as [t fd off len|fd off len]; [|done]. simpl in He. by rewrite He.
Qed.

Lemma grown_protected t c tr0 tr :
  grown c (EvLock t IDX c 1 :: tr0) tr -> protected t c tr0 tr.
Proof.
  intros (evs & -> & Hq) post fd off len pre Heq Hlen.
  assert (Hpre : exists evs1 evs2, evs = evs1 ++ EvWrite fd off len :: evs2 /\ pre = evs2 ++ EvLock t IDX c 1 :: tr0).
  { apply app_eq_inv in Heq as [(k & -> & Hk)|(k & -> & Hk)].
    - destruct k as [|ev k]; [done|]. simpl in Hk. injection Hk as <- Hk. by exists post, k.
    - destruct k as [|ev k]; [done|]. exfalso. simpl in Hk. injection Hk as _ Hk.
      rewrite Hk in Hlen. rewrite length_app in Hlen. simpl in Hlen. lia. }
  destruct Hpre as (evs1 & evs2 & -> & ->). apply Forall_app in Hq as [_ Hq]. apply Forall_cons in Hq as [_ Hq].
  rewrite quiet_state by done. simpl. unfold covers. rewrite Z.leb_refl. simpl.
  by destruct (Z.ltb_spec c (c + 1)); [|lia].
Qed.

(** A lock or unlock request on top does not matter to the writes below. *)
Lemma protected_log t c tr0 tr t' fd' off' len' :
  protected t c tr0 tr -> protected t c tr0 (EvLock t' fd' off' len' :: tr).
Proof.
  intros Hp post fd off len pre Heq Hlen. destruct post as [|ev post]; [done|].
  simpl in Heq. injection Heq as _ Heq. by apply (Hp post fd off len pre).
Qed.

(** The chain byte of a key. *)
Definition chain_byte (key : bytes) : Z := 6 * Z.of_nat (S (hidx key)).

Definition sound_call {A} (t : lock_type) (key : bytes) (db : DB) (r : result A) : Prop :=
  match r with
  | Ok _ db' => protected t (chain_byte key) (trace db) (trace db') /\ (idle db -> idle db')
  | Fatal _ db' => protected t (chain_byte key) (trace db) (trace db')
  | NoFuel => True
  end.

Lemma within_exists tr : exists L, within L tr.
Proof.
  induction tr as [|ev tr [L HL]]; [exists []; by intros ???|].
  destruct ev as [t fd off len|fd off len]; [|by exists L].
  exists ((fd, off, len) :: L). intros fd' b. simpl.
  destruct (bool_decide (fd = fd') && covers off len b) eqn:E.
  - intros _. exists (fd, off, len). split; [in_list|done].
  - intros Hne. destruct (HL fd' b Hne) as (r & Hr & Hin). exists r. split; [in_list|done].
Qed.

Lemma within_lock L t fd off len tr : within L tr -> within ((fd, off, len) :: L) (EvLock t fd off len :: tr).
Proof.
  intros HL fd' b. simpl. destruct (bool_decide (fd = fd') && covers off len b) eqn:E.
  - intros _. exists (fd, off, len). split; [in_list|done].
  - intros Hne. destruct (HL fd' b Hne) as (r & Hr & Hin). exists r. split; [in_list|done].
Qed.

(** Looking for a key locks the chain byte of the key, then only reads. *)
Lemma find_and_lock_grown key (wl : bool) L db :
  nhash db = NHASH_DEF -> hashoff db = HASH_OFF -> within L (trace db) ->
  let c := chain_byte key in
  let tr1 := EvLock (if wl then F_WRLCK else F_RDLCK) IDX c 1 :: trace db in
  match _db_find_and_lock key wl db with
  | Ok _ db' => anchored c db' /\ within ((IDX, c, 1) :: L) (trace db') /\ grown c tr1 (trace db')
  | Fatal _ db' => grown c tr1 (trace db')
  | NoFuel => True
  end.
Proof.
  intros Hn Hh HL c tr1.
  assert (Hoff : _db_hash db key * PTR_SZ + hashoff db = c).
  { unfold _db_hash, c, chain_byte, hidx. rewrite Hn, Hh. unfold NHASH_DEF, PTR_SZ, HASH_OFF.
    pose proof (Z.mod_pos_bound (hash_loop 0 1 key) 137 ltac:(lia)). unfold PTR_SZ. lia. }
  set (db1 := log_event (EvLock (if wl then F_WRLCK else F_RDLCK) IDX c 1) (set_ptroff c (set_chainoff c db))).
  assert (Hanch : anchored c db1).
  { split; try done. unfold c, chain_byte, HASH_OFF, NHASH_DEF, PTR_SZ. pose proof (hidx_lt key). lia. }
  set (msg := if wl then "_db_find_and_lock: writew_lock error" else "_db_find_and_lock: readw_lock error").
  set (rest := dump_if (fcntl_lock (idxfd db) (if wl then F_WRLCK else F_RDLCK) <? 0) msg;;
     offset ← _db_readptr c; offset ← find_loop (chain_fuel db) key offset;
     mret (if offset =? 0 then -1 else 0)).
  assert (Hrest : hoare c ((IDX, c, 1) :: L) rest ((IDX, c, 1) :: L)) by (unfold rest; h_steps).
  assert (Heq : _db_find_and_lock key wl db = rest db1).
  { unfold _db_find_and_lock, rest, mbind, M_bind, get, modify. rewrite Hoff. by destruct wl. }
  rewrite Heq. apply (Hrest db1 Hanch). by apply within_lock.
Qed.

(** The shape of the interface functions: lock the chain of the key and search
    it, do the work, unlock the chain. *)
Lemma locked_call {A} key (wl : bool) (body : Z -> M A) msg db :
  nhash db = NHASH_DEF -> hashoff db = HASH_OFF ->
  (forall c L z, hoare c L (body z) L) ->
  sound_call (if wl then F_WRLCK else F_RDLCK) key db
    ((found ← _db_find_and_lock key wl; rc ← body found;
      db ← get; r ← un_lock IDX (chainoff db) 1; dump_if (r <? 0) msg;; mret rc) db).
Proof.
  intros Hn Hh Hbody. set (c := chain_byte key).
  assert (Hgen : forall L, within L (trace db) -> match (found ← _db_find_and_lock key wl; body found) db with
    | Ok _ db' => anchored c db' /\ within ((IDX, c, 1) :: L) (trace db') /\
        protected (if wl then F_WRLCK else F_RDLCK) c (trace db) (trace db')
    | Fatal _ db' => protected (if wl then F_WRLCK else F_RDLCK) c (trace db) (trace db')
    | NoFuel => True end).
  { intros L HL. pose proof (find_and_lock_grown key wl L db Hn Hh HL) as Hf. cbn zeta in Hf.
    unfold mbind, M_bind. destruct (_db_find_and_lock key wl db) as [z db1|e db1|]; [|by apply grown_protected|done].
    destruct Hf as (Ha1 & Hw1 & Hg1). specialize (Hbody c ((IDX, c, 1) :: L) z db1 Ha1 Hw1).
    destruct (body z db1) as [a db2|e db2|]; [|by apply grown_protected; eapply grown_trans|done].
    destruct Hbody as (Ha2 & Hw2 & Hg2). split; [done|]. split; [done|].
    apply grown_protected. by eapply grown_trans. }
  unfold mbind, M_bind in *. destruct (within_exists (trace db)) as [L HL]. pose proof (Hgen L HL) as Hrun.
  destruct (_db_find_and_lock key wl db) as [z db1|e db1|]; [|done|done].
  destruct (body z db1) as [a db2|e db2|]; [|done|done].
  destruct Hrun as (Ha & _ & Hp). simpl. rewrite (an_chain _ _ Ha). split; [by apply protected_log|].
  intros Hi. apply idle_within. destruct (Hgen [] (proj1 (idle_within db) Hi)) as (_ & Hw & _).
  intros fd b. simpl. destruct (bool_decide (IDX = fd) && covers c 1 b) eqn:E; [done|].
  intros Hne. destruct (Hw fd b Hne) as (r & Hr & Hin). apply list_elem_of_singleton in Hr as ->.
  simpl in Hin. congruence.
Qed.
