(* ===== verification/DbTheorems.v ===== *)
(** * DbTheorems: what the database library promises.

    [op], [spec_op] and [KeyStore] state the contract of a key/data store; the
    library implements it ([db_keystore]).  The theorems are about the interface
    functions of db.c. *)
From S2P Require Import Prelude Libc Files Db DbFormat DbWp DbChain DbOps DbSpec DbScan DbLocks.
Local Open Scope Z_scope.

(** ** The abstract store *)

Inductive op :=
  | OFetch (key : bytes)
  | ODelete (key : bytes)
  | OStore (key data : bytes) (flag : Z).

Inductive answer :=
  | AData (d : option bytes)
  | ACode (rc : Z).

Definition good_flag (flag : Z) : bool :=
  (flag =? DB_INSERT) || (flag =? DB_REPLACE) || (flag =? DB_STORE).

(** What each call answers and does to the map. *)
Definition spec_op (o : op) (m : gmap bytes bytes) : answer * gmap bytes bytes :=
  match o with
  | OFetch key => (AData (m !! key), m)
  | ODelete key => (ACode (if m !! key is Some _ then 0 else -1), delete key m)
  | OStore key data flag =>
    if good_flag flag then
      let '(rc, m') := store_result m key data flag in (ACode rc, m')
    else (ACode (-1), m)
  end.

Fixpoint spec_ops (os : list op) (m : gmap bytes bytes) : list answer * gmap bytes bytes :=
  match os with
  | [] => ([], m)
  | o :: os' =>
    let '(a, m1) := spec_op o m in
    let '(rest, m2) := spec_ops os' m1 in (a :: rest, m2)
  end.

(** Calls the format supports: a key of 1 to 998 characters without NUL and
    without the separator, data of 1 to 1023 characters without NUL. *)
Definition op_ok (o : op) : Prop :=
  match o with
  | OStore key data _ => key_ok key /\ (1 <= length key <= 998)%nat /\ data_ok data
  | _ => True
  end.

(** An implementation of the store in the monad, good for a number of calls. *)
Class KeyStore (run : op -> M answer) := {
  ks_rep : nat -> DB -> gmap bytes bytes -> Prop;
  ks_step : forall n o db m, op_ok o -> ks_rep (S n) db m ->
    wp (run o) (fun a db' => a = (spec_op o m).1 /\ ks_rep n db' (spec_op o m).2) db
}.

Fixpoint run_ops (run : op -> M answer) (os : list op) : M (list answer) :=
  match os with
  | [] => mret []
  | o :: os' => a ← run o; rest ← run_ops run os'; mret (a :: rest)
  end.

Section Client.
Context (run : op -> M answer) `{!KeyStore run}.

(** A program against the interface sees the abstract store. *)
Lemma run_ops_spec os n db m :
  Forall op_ok os -> ks_rep (length os + n) db m ->
  wp (run_ops run os) (fun l db' => l = (spec_ops os m).1 /\ ks_rep n db' (spec_ops os m).2) db.
Proof.
  intros Hok. revert db m. induction Hok as [|o os Ho _ IH]; intros db m Hrep; [by apply wp_ret|].
  cbn [run_ops spec_ops]. wp_step. eapply wp_mono; [apply (ks_step (length os + n)); [exact Ho|exact Hrep]|].
  intros a db1 [-> Hrep1]. destruct (spec_op o m) as [a m1]. simpl in *.
  wp_step. eapply wp_mono; [by apply IH|]. intros l db2 [-> Hrep2].
  destruct (spec_ops os m1) as [l m2]. by wp_step.
Qed.
End Client.

(** ** The library *)

Definition run_op (o : op) : M answer :=
  match o with
  | OFetch key => d ← db_fetch key; mret (AData d)
  | ODelete key => rc ← db_delete key; mret (ACode rc)
  | OStore key data flag => rc ← db_store key data flag; mret (ACode rc)
  end.

(** Room for [n] more calls: every record appended takes at most 10 + IDXLEN_MAX
    bytes of the index file and DATLEN_MAX bytes of the data file. *)
Record budget (n : nat) (db : DB) : Prop := {
  bg_ptr : f_size (idxfd db) + 1034 * Z.of_nat n <= PTR_MAX;
  bg_off : f_size (datfd db) + 1024 * Z.of_nat n <= LONG_MAX;
  bg_idx : f_size (idxfd db) + 1034 * Z.of_nat n <= f_lim (idxfd db);
  bg_dat : f_size (datfd db) + 1024 * Z.of_nat n <= f_lim (datfd db)
}.

Lemma budget_room n db key data :
  budget (S n) db -> (1 <= length key <= 998)%nat -> data_ok data -> room db key data.
Proof.
  intros [Hp Ho Hi Hd] Hk [_ Hl]. unfold DATLEN_MIN, DATLEN_MAX in Hl.
  assert (0 <= f_size (datfd db)) by (unfold f_size; lia).
  assert (Ht : 6 <= Z.of_nat (length (idx_text key (f_size (datfd db)) (Z.of_nat (length data) + 1))) <= 1024).
  { unfold idx_text. rewrite !length_app.
    assert (Hw : wrap_s 32 (Z.of_nat (length data) + 1) = Z.of_nat (length data) + 1).
    { unfold wrap_s. rewrite Z.mod_small by lia. lia. }
    rewrite Hw. unfold fmt_ld.
    destruct (Z.ltb_spec (f_size (datfd db)) 0); [lia|].
    destruct (Z.ltb_spec (Z.of_nat (length data) + 1) 0); [lia|].
    pose proof (dec_u_length (f_size (datfd db)) 19 ltac:(lia) ltac:(unfold LONG_MAX in *; lia)).
    pose proof (dec_u_length (Z.of_nat (length data) + 1) 4 ltac:(lia) ltac:(lia)).
    assert (Hne : forall x, (1 <= length (dec_u x))%nat).
    { intros x. pose proof (dec_u_nonempty x). by destruct (dec_u x); [|simpl; lia]. }
    pose proof (Hne (f_size (datfd db))). pose proof (Hne (Z.of_nat (length data) + 1)). simpl length. lia. }
  split; unfold IDXLEN_MIN, IDXLEN_MAX in *; lia.
Qed.

Definition db_ready (n : nat) (db : DB) (m : gmap bytes bytes) : Prop :=
  db_rep db m /\ can_write db /\ budget n db.

Lemma good_flag_spec flag : good_flag flag = true <-> valid_flag flag.
Proof.
  unfold good_flag, valid_flag. rewrite !orb_true_iff, !Z.eqb_eq. tauto.
Qed.

Lemma store_bad_flag key data flag db :
  good_flag flag = false -> db_store key data flag db = Ok (-1) (set_errno EINVAL db).
Proof.
  unfold good_flag, db_store. intros H. bool_to_prop.
  by rewrite (proj2 (Z.eqb_neq _ _) H), (proj2 (Z.eqb_neq _ _) H1), (proj2 (Z.eqb_neq _ _) H0).
Qed.

Lemma budget_pred n db db' :
  budget (S n) db -> f_lim (idxfd db') = f_lim (idxfd db) -> f_lim (datfd db') = f_lim (datfd db) ->
  f_size (idxfd db') <= f_size (idxfd db) + 1034 -> f_size (datfd db') <= f_size (datfd db) + 1024 ->
  budget n db'.
Proof. intros [] H1 H2 H3 H4. split; rewrite ?H1, ?H2; lia. Qed.

(** The limits and permissions are part of the frame. *)
Lemma frame_can_write db db' :
  frame db' = frame db -> f_size (idxfd db') = f_size (idxfd db) -> f_size (datfd db') = f_size (datfd db) ->
  can_write db -> can_write db'.
Proof.
  intros Hf H1 H2 [[] Hi Hd]. 
  unfold frame in Hf. simplify_eq. split; [split|..]; congruence.
Qed.

Lemma close_sizes db db' :
  db_close db' = db_close db ->
  f_size (idxfd db') = f_size (idxfd db) /\ f_size (datfd db') = f_size (datfd db).
Proof. unfold db_close, f_size. intros [= -> ->]. done. Qed.

Lemma db_step n o db m :
  op_ok o -> db_ready (S n) db m ->
  wp (run_op o) (fun a db' => a = (spec_op o m).1 /\ db_ready n db' (spec_op o m).2) db.
Proof.
  intros Hok (Hrep & Hw & Hb). destruct o as [key|key|key data flag]; cbn [run_op spec_op]; wp_step.
  - eapply wp_mono; [by apply fetch_spec|]. intros d db' (-> & Hrep' & Hc & Hf & _). wp_step.
    destruct (close_sizes _ _ Hc) as [H1 H2]. destruct (lims_frame _ _ Hf) as [Hl1 Hl2].
    split; [done|]. split; [done|]. split.
    { eapply frame_can_write; [exact Hf|exact H1|exact H2|]. by destruct Hw as [[]]. }
    apply (budget_pred n db); try done; lia.
  - eapply wp_mono; [by apply delete_spec|]. intros rc db' (-> & Hrep' & Hw' & H1 & H2 & Hf). wp_step.
    destruct (lims_frame _ _ Hf) as [Hl1 Hl2].
    split; [done|]. split; [done|]. split; [done|]. apply (budget_pred n db); try done; lia.
  - destruct Hok as (Hk & Hkl & Hd). destruct (good_flag flag) eqn:Hg.
    + eapply wp_mono; [apply (store_spec db m key data flag); try done|].
      { by eapply budget_room. } { by apply good_flag_spec. }
      intros rc db' [-> [Hrep' Hw' [Hl1 Hl2] H1 H2]]. wp_step.
      destruct (store_result m key data flag) as [rc m']. simpl in *.
      split; [done|]. split; [done|]. split; [done|].
      apply (budget_pred n db); try done; unfold IDXLEN_MAX, DATLEN_MAX in *; lia.
    + unfold wp. rewrite store_bad_flag by done. split; [done|]. split; [|split].
      * destruct Hrep as (hdr & es & dd & ls & [[]] & Hwf & Hm). by exists hdr, es, dd, ls.
      * by destruct Hw as [[]].
      * apply (budget_pred n db); try done; simpl; lia.
Qed.

#[export] Instance db_keystore : KeyStore run_op := {| ks_rep := db_ready; ks_step := db_step |}.

(** ** Concrete handles *)

(** A new database in files that may grow to [lim] bytes. *)
Definition fresh_open (lim : Z) : opened :=
  db_open (replicate 1026 0) (replicate 1026 0) (str "db4")
    (Z.lor O_RDWR (Z.lor O_CREAT O_TRUNC)) lim None None.

Definition fresh_handle (lim : Z) : DB :=
  match fresh_open lim with
  | Opened (Ok _ db) => db
  | _ => _db_alloc [] [] [] (mkFile [] 0 false false 0) (mkFile [] 0 false false 0)
  end.

Lemma open_truncate ibuf dbuf path lim idx dat :
  db_open ibuf dbuf path (Z.lor O_RDWR (Z.lor O_CREAT O_TRUNC)) lim idx dat =
  Opened ((db_open_init;; db_rewind)
    (_db_alloc ibuf dbuf (path ++ str ".dat") (mkFile [] 0 true true lim) (mkFile [] 0 true true lim))).
Proof. by destruct idx, dat. Qed.

Lemma fresh_ready lim n :
  829 + 1034 * Z.of_nat n <= lim -> 829 + 1034 * Z.of_nat n <= PTR_MAX ->
  db_ready n (fresh_handle lim) ∅ /\ rewound (fresh_handle lim).
Proof.
  intros H1 H2. unfold fresh_handle, fresh_open. rewrite open_truncate.
  pose proof (open_init_spec (replicate 1026 0) (replicate 1026 0) (str "db4" ++ str ".dat") lim
    (length_replicate _ _) (length_replicate _ _) ltac:(lia)) as Hs.
  cbv zeta in Hs. apply wp_run in Hs as ([] & db & -> & Hrep & Hw & Hp & Hl1 & Hl2 & Hc).
  split; [|done]. split; [done|]. split; [done|].
  unfold db_close in Hc. injection Hc as Hi Hd.
  assert (Hlen : Z.of_nat (length empty_index) = 829) by done.
  unfold PTR_MAX in *. split; unfold f_size; rewrite ?Hl1, ?Hl2, ?Hi, ?Hd, ?Hlen; unfold PTR_MAX, LONG_MAX; simpl; lia.
Qed.

(** ** Theorems *)

(** C1: the calls refine a finite map, for calls the format supports: every key
    stored has 1 to 998 bytes, none of them NUL or the separator ':' (such a key
    makes later calls abort), and its data 1 to 1023 bytes without NUL; fetches and
    deletes take any key.  Whatever sequence of such fetches, deletes and stores a
    program makes on a handle that represents the map [m], is open for writing and
    has room for them (the files stay within the offsets a chain pointer can hold
    and within the file size limit), every call returns (no abort, no unending
    chain walk) with the answer the map gives, and the files represent the updated
    map at the end. *)
Theorem db_refines_map os db m :
  Forall op_ok os -> db_ready (length os) db m ->
  exists db', run_ops run_op os db = Ok (spec_ops os m).1 db' /\ db_rep db' (spec_ops os m).2.
Proof.
  intros Hok Hr. rewrite <- (Nat.add_0_r (length os)) in Hr.
  pose proof (run_ops_spec run_op os 0 db m Hok Hr) as Hs.
  apply wp_run in Hs as (l & db' & Hrun & -> & Hrep & _). eauto.
Qed.

Definition sample_ops : list op :=
  [OStore (str "Alpha") (str "data1") DB_INSERT; OStore (str "beta") (str "Data for beta") DB_INSERT;
   OFetch (str "Alpha"); ODelete (str "Alpha"); OFetch (str "Alpha");
   OStore (str "gamma") (str "data2") DB_REPLACE; OStore (str "gamma") (str "data2") DB_STORE;
   OStore (str "beta") (str "longer data for beta") DB_REPLACE; OFetch (str "beta")].

Lemma sample_ops_ok : Forall op_ok sample_ops.
Proof. repeat constructor; vm_compute; congruence. Defined.

Lemma db_refines_map_witness :
  exists db', run_ops run_op sample_ops (fresh_handle 1000000) =
    Ok [ACode 0; ACode 0; AData (Some (str "data1")); ACode 0; AData None; ACode (-1); ACode 0; ACode 0;
        AData (Some (str "longer data for beta"))] db'.
Proof.
  destruct (db_refines_map sample_ops (fresh_handle 1000000) ∅) as (db' & Hrun & _).
  - apply sample_ops_ok.
  - apply fresh_ready; vm_compute; congruence.
  - exists db'. exact Hrun.
Defined.

Lemma reopen_read ibuf dbuf path lim i d :
  db_open ibuf dbuf path O_RDONLY lim (Some i) (Some d) =
  Opened (db_rewind (_db_alloc ibuf dbuf (path ++ str ".dat") (mkFile i 0 true false lim) (mkFile d 0 true false lim))).
Proof. done. Qed.

(** C2: a database created by [db_open] (whatever the files held before), used
    through any sequence of calls that fits, closed and opened again read-only,
    is scanned by [db_nextrec] to the end; the scan returns each pair of the map
    the calls built exactly once, except pairs whose key is all blanks. *)
Theorem db_session ibuf dbuf path lim os idx dat :
  length ibuf = 1026%nat -> length dbuf = 1026%nat -> Forall op_ok os ->
  829 + 1034 * Z.of_nat (length os) <= lim -> 829 + 1034 * Z.of_nat (length os) <= PTR_MAX ->
  exists db1 db2 db3 l db4,
    db_open ibuf dbuf path (Z.lor O_RDWR (Z.lor O_CREAT O_TRUNC)) lim idx dat = Opened (Ok tt db1) /\
    run_ops run_op os db1 = Ok (spec_ops os ∅).1 db2 /\
    db_open ibuf dbuf path O_RDONLY lim (Some (db_close db2).1) (Some (db_close db2).2) = Opened (Ok tt db3) /\
    scan (chain_fuel db3) db3 = Ok l db4 /\ db_close db4 = db_close db2 /\
    NoDup l.*1 /\
    (forall k d, (k, d) ∈ l <-> (spec_ops os ∅).2 !! k = Some d /\ all_blank k = false).
Proof.
  intros Hib Hdb Hok Hlim Hptr. unfold PTR_MAX in Hptr.
  pose proof (open_init_spec ibuf dbuf (path ++ str ".dat") lim Hib Hdb ltac:(lia)) as Hs.
  cbv zeta in Hs. apply wp_run in Hs as ([] & db1 & Hopen & Hrep & Hw & _ & Hl1 & Hl2 & Hc).
  assert (Hb : db_ready (length os + 0) db1 ∅).
  { split; [done|]. split; [done|]. unfold db_close in Hc. injection Hc as Hi Hd.
    assert (Hlen : Z.of_nat (length empty_index) = 829) by done.
    split; unfold f_size; rewrite ?Hl1, ?Hl2, ?Hi, ?Hd, ?Hlen; unfold PTR_MAX, LONG_MAX; simpl; lia. }
  pose proof (run_ops_spec run_op os 0 db1 ∅ Hok Hb) as Hs.
  apply wp_run in Hs as (a & db2 & Hrun & -> & Hrep2 & _).
  pose proof (reopen_spec ibuf dbuf (path ++ str ".dat") lim false db2 _ Hib Hdb Hrep2) as Hs.
  cbv zeta in Hs. apply wp_run in Hs as ([] & db3 & Hre & Hrep3 & Hp3 & Hc3 & _).
  pose proof (scan_spec db3 _ (chain_fuel db3) Hrep3 Hp3 (le_n _)) as Hs.
  apply wp_run in Hs as (l & db4 & Hscan & _ & Hc4 & Hnd & Hel).
  exists db1, db2, db3, l, db4. rewrite open_truncate, Hopen.
  split; [done|]. split; [done|]. split; [unfold db_close; simpl; by rewrite reopen_read, Hre|].
  split; [done|]. split; [congruence|]. by split.
Qed.

Lemma db_session_witness :
  exists db1 db2 db3 l db4,
    fresh_open 1000000 = Opened (Ok tt db1) /\
    run_ops run_op sample_ops db1 = Ok (spec_ops sample_ops ∅).1 db2 /\
    db_open (replicate 1026 0) (replicate 1026 0) (str "db4") O_RDONLY 1000000
      (Some (db_close db2).1) (Some (db_close db2).2) = Opened (Ok tt db3) /\
    scan (chain_fuel db3) db3 = Ok l db4 /\ db_close db4 = db_close db2 /\
    NoDup l.*1 /\
    (forall k d, (k, d) ∈ l <-> (spec_ops sample_ops ∅).2 !! k = Some d /\ all_blank k = false).
Proof.
  apply (db_session (replicate 1026 0) (replicate 1026 0) (str "db4") 1000000 sample_ops None None).
  - reflexivity.
  - reflexivity.
  - apply sample_ops_ok.
  - vm_compute. congruence.
  - vm_compute. congruence.
Defined.

Lemma sound_quiet {A} t key db (a : A) db' : trace db' = trace db -> sound_call t key db (Ok a db').
Proof.
  intros Ht. split.
  - intros post fd off len pre Heq Hlen. rewrite Ht in Heq. rewrite Heq in Hlen.
    rewrite length_app in Hlen. simpl in Hlen. lia.
  - unfold idle. by rewrite Ht.
Qed.

(** C9: locking.  Whatever the files contain, every write that [db_delete] or
    [db_store] makes happens while the process holds a write lock on the chain
    byte of the key in the index file, also when the call ends in an abort; and
    a call that returns leaves no lock behind. *)
Theorem writes_under_chain_lock key data flag db :
  nhash db = NHASH_DEF -> hashoff db = HASH_OFF ->
  sound_call F_WRLCK key db (db_delete key db) /\
  sound_call F_WRLCK key db (db_store key data flag db) /\
  sound_call F_RDLCK key db (db_fetch key db).
Proof.
  intros Hn Hh. split; [|split].
  - apply (locked_call key true (fun found => if found =? 0 then
        _db_dodelete;; modify (fun db => set_cnt (bump DelOk (cnt db)) db);; mret 0
      else modify (fun db => set_cnt (bump DelErr (cnt db)) db);; mret (-1))); [done|done|].
    intros c L z. h_steps.
  - destruct (good_flag flag) eqn:Hg; [|rewrite store_bad_flag by done; by apply sound_quiet].
    assert (Hv : negb (flag =? DB_INSERT) && negb (flag =? DB_REPLACE) && negb (flag =? DB_STORE) = false).
    { apply good_flag_spec in Hg as [-> | [-> | ->]]; done. }
    unfold db_store. rewrite Hv. unfold mbind at 1, M_bind at 1. unfold dump_if at 1.
    destruct ((Z.of_nat (length data) + 1 <? DATLEN_MIN) || (DATLEN_MAX <? Z.of_nat (length data) + 1)).
    + simpl. intros post fd off len pre Heq Hlen. apply (f_equal length) in Heq.
      rewrite length_app in Heq. simpl in Heq. lia.
    + apply (locked_call key true (fun found => if found <? 0
          then store_new key data flag (Z.of_nat (length key)) (Z.of_nat (length data) + 1)
          else store_existing key data flag (Z.of_nat (length data) + 1))); [done|done|].
      intros c L z. h_steps.
  - apply (locked_call key false (fun rc => if rc <? 0 then
         modify (fun db => set_cnt (bump FetchErr (cnt db)) db);; mret None
       else d ← _db_readdat; modify (fun db => set_cnt (bump FetchOk (cnt db)) db);; mret (Some d))); [done|done|].
    intros c L z. h_steps.
Qed.

Lemma writes_under_chain_lock_witness :
  sound_call F_WRLCK (str "Alpha") (fresh_handle 100000)
    (db_store (str "Alpha") (str "data1") DB_INSERT (fresh_handle 100000)).
Proof.
  assert (Hn : nhash (fresh_handle 100000) = NHASH_DEF) by (vm_compute; reflexivity).
  assert (Hh : hashoff (fresh_handle 100000) = HASH_OFF) by (vm_compute; reflexivity).
  pose proof (writes_under_chain_lock (str "Alpha") (str "data1") DB_INSERT (fresh_handle 100000) Hn Hh) as H.
  exact (proj1 (proj2 H)).
Defined.

(** [db_fetch] returns the data stored under the key, or a null pointer,
    leaves both files as they are, counts the call as a success or an error, and
    takes and releases exactly a read lock on the chain of the key. *)
Lemma db_fetch_correct db m key :
  db_rep db m ->
  exists db', db_fetch key db = Ok (m !! key) db' /\ db_rep db' m /\ db_close db' = db_close db /\
    cnt db' = bump (if m !! key is Some _ then FetchOk else FetchErr) (cnt db) /\
    trace db' = EvLock F_UNLCK IDX (chain_byte key) 1 :: EvLock F_RDLCK IDX (chain_byte key) 1 :: trace db.
Proof.
  intros Hrep. pose proof (fetch_spec db m key Hrep) as Hs.
  apply wp_run in Hs as (r & db' & Hrun & -> & Hrep' & Hc & Hf & Ht). exists db'.
  repeat split; try done. by rewrite (cnt_frame _ _ Hf).
Qed.

Lemma db_fetch_correct_witness :
  exists db', db_fetch (str "Alpha") (fresh_handle 100000) = Ok None db' /\
    cnt_fetcherr (cnt db') = 1.
Proof.
  destruct (db_fetch_correct (fresh_handle 100000) ∅ (str "Alpha")) as (db' & Hrun & _ & _ & Hc & _).
  - apply (fresh_ready 100000 0); vm_compute; congruence.
  - exists db'. split; [exact Hrun|]. rewrite Hc. vm_compute. reflexivity.
Defined.

(** [db_delete] removes the key and nothing else from the map, returns 0 or,
    when the key is not there, -1; the files keep their sizes, the record going
    to the free list with its bytes blanked. *)
Lemma db_delete_correct db m key :
  db_rep db m -> can_write db ->
  exists db', db_delete key db = Ok (if m !! key is Some _ then 0 else -1) db' /\
    db_rep db' (delete key m) /\ can_write db' /\
    f_size (idxfd db') = f_size (idxfd db) /\ f_size (datfd db') = f_size (datfd db) /\
    cnt db' = bump (if m !! key is Some _ then DelOk else DelErr) (cnt db).
Proof.
  intros Hrep Hw. pose proof (delete_spec db m key Hrep Hw) as Hs.
  apply wp_run in Hs as (r & db' & Hrun & -> & Hrep' & Hw' & H1 & H2 & Hf). exists db'.
  refine (conj Hrun (conj Hrep' (conj Hw' (conj H1 (conj H2 _))))). by rewrite (cnt_frame _ _ Hf).
Qed.

Lemma db_delete_correct_witness :
  exists db', db_delete (str "Alpha") (fresh_handle 100000) = Ok (-1) db' /\ f_size (idxfd db') = 829.
Proof.
  assert (Hready : db_ready 0 (fresh_handle 100000) ∅).
  { apply (fresh_ready 100000 0); vm_compute; congruence. }
  destruct Hready as (Hr & Hw & _).
  destruct (db_delete_correct (fresh_handle 100000) ∅ (str "Alpha") Hr Hw) as (db' & Hrun & _ & _ & Hs & _).
  exists db'. split; [exact Hrun|]. rewrite Hs. vm_compute. reflexivity.
Defined.

(** [db_store] with a supported flag answers and updates the map as
    documented: DB_INSERT never overwrites (1 when the key exists), DB_REPLACE
    never creates (-1 when it does not), DB_STORE does either; the files grow by
    at most one record. *)
Lemma db_store_correct db m key data flag :
  db_rep db m -> can_write db -> key_ok key -> data_ok data -> room db key data -> valid_flag flag ->
  exists db', db_store key data flag db = Ok (store_result m key data flag).1 db' /\
    db_rep db' (store_result m key data flag).2 /\ can_write db' /\
    f_size (idxfd db') <= f_size (idxfd db) + 10 + IDXLEN_MAX /\
    f_size (datfd db') <= f_size (datfd db) + DATLEN_MAX.
Proof.
  intros Hrep Hw Hk Hd Hr Hv. pose proof (store_spec db m key data flag Hrep Hw Hk Hd Hr Hv) as Hs.
  apply wp_run in Hs as (r & db' & Hrun & -> & [Hrep' Hw' _ H1 H2]). exists db'.
  exact (conj Hrun (conj Hrep' (conj Hw' (conj H1 H2)))).
Qed.

Lemma db_store_correct_witness :
  exists db', db_store (str "Alpha") (str "data1") DB_REPLACE (fresh_handle 100000) = Ok (-1) db' /\
    db_rep db' ∅.
Proof.
  assert (Hready : db_ready 1 (fresh_handle 100000) ∅).
  { apply (fresh_ready 100000 1); vm_compute; congruence. }
  destruct Hready as (Hr & Hw & Hb).
  destruct (db_store_correct (fresh_handle 100000) ∅ (str "Alpha") (str "data1") DB_REPLACE Hr Hw)
    as (db' & Hrun & Hrep & _).
  - repeat constructor; vm_compute; congruence.
  - repeat constructor; vm_compute; congruence.
  - apply (budget_room 0); [exact Hb|vm_compute; lia|]. repeat constructor; vm_compute; congruence.
  - right. left. reflexivity.
  - exists db'. split; [exact Hrun|exact Hrep].
Defined.

(** A handle opened read-only cannot change the database: [db_delete] and
    [db_store] abort at the write lock of the chain, before any write. *)
Lemma read_only_aborts key data flag db :
  f_wr (idxfd db) = false -> valid_flag flag -> data_ok data ->
  (exists db', db_delete key db = Fatal (ErrDump "_db_find_and_lock: writew_lock error") db' /\
     db_close db' = db_close db) /\
  (exists db', db_store key data flag db = Fatal (ErrDump "_db_find_and_lock: writew_lock error") db' /\
     db_close db' = db_close db).
Proof.
  intros Hwr Hv [_ Hl].
  assert (Hlock : exists db', db_close db' = db_close db /\
    _db_find_and_lock key true db = Fatal (ErrDump "_db_find_and_lock: writew_lock error") db').
  { unfold _db_find_and_lock, mbind, M_bind, get, modify, writew_lock, lock_reg. simpl. rewrite Hwr. simpl. eexists. split; [|reflexivity]. done. }
  destruct Hlock as (db' & Hc & Hf). split; exists db'; (split; [|done]).
  - unfold db_delete, mbind, M_bind. by rewrite Hf.
  - unfold db_store.
    assert (Hflag : negb (flag =? DB_INSERT) && negb (flag =? DB_REPLACE) && negb (flag =? DB_STORE) = false).
    { by destruct Hv as [-> | [-> | ->]]. }
    assert (Hlen : (Z.of_nat (length data) + 1 <? DATLEN_MIN) || (DATLEN_MAX <? Z.of_nat (length data) + 1) = false)
      by range_check.
    rewrite Hflag. unfold mbind, M_bind, dump_if at 1. rewrite Hlen. unfold mret, M_ret. by rewrite Hf.
Qed.

Definition read_only_handle : DB :=
  match db_open (replicate 1026 0) (replicate 1026 0) (str "db4") O_RDONLY 100000 (Some empty_index) (Some []) with
  | Opened (Ok _ db) => db
  | _ => fresh_handle 100000
  end.

Lemma read_only_aborts_witness :
  exists db', db_delete (str "k") read_only_handle =
    Fatal (ErrDump "_db_find_and_lock: writew_lock error") db' /\ db_close db' = db_close read_only_handle.
Proof.
  assert (Hw : f_wr (idxfd read_only_handle) = false) by (vm_compute; reflexivity).
  assert (Hd : data_ok (str "data")) by (repeat constructor; vm_compute; congruence).
  exact (proj1 (read_only_aborts (str "k") (str "data") DB_INSERT read_only_handle Hw (or_introl eq_refl) Hd)).
Defined.

(** A run from the fresh database. *)
Definition fresh_run {A} (m : M A) : result A := m (fresh_handle 1000000).

Definition is_fatal {A} (e : fatal) (r : result A) : Prop :=
  match r with Fatal e' _ => e' = e | _ => False end.

(** [db_store] accepts a key that contains the separator, and the record it
    writes makes the next search of that hash chain abort. *)
Lemma colon_key_poisons_chain :
  (exists db, fresh_run (db_store (str "a:b") (str "data1") DB_INSERT) = Ok 0 db) /\
  is_fatal (ErrDump "_db_readidx: too many separators")
    (fresh_run (db_store (str "a:b") (str "data1") DB_INSERT;; db_fetch (str "a:b"))).
Proof. split; [eexists|]; vm_compute; reflexivity. Qed.

(** [db_store] does not check the length of the key: with one of 1030
    characters the sprintf of [_db_writeidx] writes past the end of the index
    buffer before the length is looked at; with the empty key the record is
    rejected by an abort after the data has been appended. *)
Lemma key_length_unchecked :
  is_fatal (Undefined "_db_writeidx: sprintf past the end of idxbuf")
    (fresh_run (db_store (replicate 1030 120) (str "data1") DB_INSERT)) /\
  match fresh_run (db_store [] (str "data1") DB_INSERT) with
  | Fatal e db => e = ErrDump "_db_writeidx: invalid length" /\ (db_close db).2 = str "data1" ++ [NEWLINE]
  | _ => False
  end.
Proof. split; vm_compute; [reflexivity|split; reflexivity]. Qed.
