(* ===== verification/Inotify.v ===== *)
(** * Inotify: tlpi-dist/inotify/inotify_dtree.c, definitions.

    The program keeps a cache of watched directories (an array of slots, each a
    watch descriptor and a pathname) in step with the directory trees named on
    its command line, from the events it reads from an inotify descriptor.

    The kernel (inotify, nftw's walk of the file system, lstat, fopen) is a
    parameter: the class [Kernel] of operations on an abstract kernel state.
    Everything else is translated: the cache, the root directories, the walk's
    callback, the event handlers, the read loop and the interactive commands.
    The global variables are the record [state]; a function is a computation of
    the monad [N], which can return, exit, abort or have undefined behaviour. *)
From S2P Require Import Prelude Libc Files.
Local Open Scope Z_scope.

(** ** Constants *)

Definition PATH_MAX : Z := 4096.
Definition NAME_MAX : Z := 255.
Definition SIZEOF_EVENT : Z := 16.
Definition INOTIFY_READ_BUF_LEN : Z := 100 * (SIZEOF_EVENT + NAME_MAX + 1).
Definition ALLOC_INCR : nat := 200.
Definition MAX_LINE : Z := 100.
Definition ENOENT : Z := 2.
Definition EINTR : Z := 4.

Definition VB_BASIC : Z := 1.
Definition VB_NOISY : Z := 2.

(** Event bits of sys/inotify.h. *)
Definition IN_MOVED_FROM : Z := 0x40.
Definition IN_MOVED_TO : Z := 0x80.
Definition IN_CREATE : Z := 0x100.
Definition IN_DELETE_SELF : Z := 0x400.
Definition IN_MOVE_SELF : Z := 0x800.
Definition IN_UNMOUNT : Z := 0x2000.
Definition IN_Q_OVERFLOW : Z := 0x4000.
Definition IN_IGNORED : Z := 0x8000.
Definition IN_ONLYDIR : Z := 0x1000000.
Definition IN_ISDIR : Z := 0x40000000.

(** [mask & bits], as a condition. *)
Definition has (mask bits : Z) : bool := negb (Z.land mask bits =? 0).

(** ** Data *)

(** struct watch: descriptor (-1 if the slot is unused) and pathname. *)
Record watch := mkWatch { w_wd : Z; w_path : bytes }.

(** struct inotify_event, decoded. *)
Record inotify_event := mkEv {
  ev_wd : Z; ev_mask : Z; ev_cookie : Z; ev_len : Z; ev_name : bytes
}.

(** What lstat reports of a file. *)
Record stat := mkStat { st_isdir : bool; st_ino : Z; st_dev : Z }.

Inductive arg := AZ (z : Z) | AS (s : bytes).

(** A message of the program: where it goes, the format and its arguments
    (the texts of strerror and the program's name are left out). *)
Inductive output :=
  | ToStderr (fmt : string) (args : list arg)
  | ToLog (fmt : string) (args : list arg)
  | ToStdout (fmt : string) (args : list arg)
  | ToFile (name : bytes) (fmt : string) (args : list arg)
  | Created (name : bytes).  (* a file was created *)

(** ** The kernel *)

Class Kernel (K : Type) := {
  (* a new inotify descriptor, -1 on failure *)
  sys_inotify_init : K -> Z * K;
  sys_close : Z -> K -> K;
  (* descriptor, pathname and flags; the watch descriptor or -1, and errno *)
  sys_add_watch : Z -> bytes -> Z -> K -> Z * Z * K;
  (* 0 or -1 *)
  sys_rm_watch : Z -> Z -> K -> Z * K;
  (* what nftw visits below a pathname, and its own return value *)
  sys_nftw : bytes -> K -> list (bytes * stat) * Z * K;
  sys_lstat : bytes -> K -> option stat;
  (* read at most [n] bytes from the inotify descriptor: return value, bytes
     stored, errno *)
  sys_read_events : Z -> Z -> K -> Z * bytes * Z * K;
  (* read at most [n] bytes from the standard input *)
  sys_read_stdin : Z -> K -> Z * bytes * K;
  sys_fopen : bytes -> K -> bool
}.

Section Program.
Context {K : Type} `{!Kernel K}.

(** The global variables of the program. *)
Record state := mkState {
  wlCache : list watch;  (* cacheSize is its length *)
  rootDirPaths : list (option bytes);  (* numRootDirs is its length *)
  rootDirStat : list stat;
  ignoreRootDirs : Z;
  verboseMask : Z;
  checkCache : bool;
  dumpCache : bool;
  readBufferSize : Z;
  stopFile : option bytes;
  abortOnCacheProblem : bool;
  logfp : bool;  (* a log file is open *)
  inotifyReadCnt : Z;
  dirCnt : Z;
  ifd : Z;
  reinitCnt : Z;
  overflowCnt : Z;
  out : list output;  (* newest first *)
  kernel : K
}.

Definition set_cache (c : list watch) (s : state) : state :=
  mkState c (rootDirPaths s) (rootDirStat s) (ignoreRootDirs s) (verboseMask s) (checkCache s) (dumpCache s) (readBufferSize s) (stopFile s) (abortOnCacheProblem s) (logfp s) (inotifyReadCnt s) (dirCnt s) (ifd s) (reinitCnt s) (overflowCnt s) (out s) (kernel s).
Definition set_roots (r : list (option bytes)) (n : Z) (s : state) : state :=
  mkState (wlCache s) r (rootDirStat s) n (verboseMask s) (checkCache s) (dumpCache s) (readBufferSize s) (stopFile s) (abortOnCacheProblem s) (logfp s) (inotifyReadCnt s) (dirCnt s) (ifd s) (reinitCnt s) (overflowCnt s) (out s) (kernel s).
Definition set_rootDirStat (l : list stat) (s : state) : state :=
  mkState (wlCache s) (rootDirPaths s) l (ignoreRootDirs s) (verboseMask s) (checkCache s) (dumpCache s) (readBufferSize s) (stopFile s) (abortOnCacheProblem s) (logfp s) (inotifyReadCnt s) (dirCnt s) (ifd s) (reinitCnt s) (overflowCnt s) (out s) (kernel s).
Definition set_verboseMask (v : Z) (s : state) : state :=
  mkState (wlCache s) (rootDirPaths s) (rootDirStat s) (ignoreRootDirs s) v (checkCache s) (dumpCache s) (readBufferSize s) (stopFile s) (abortOnCacheProblem s) (logfp s) (inotifyReadCnt s) (dirCnt s) (ifd s) (reinitCnt s) (overflowCnt s) (out s) (kernel s).
Definition set_checkCache (v : bool) (s : state) : state :=
  mkState (wlCache s) (rootDirPaths s) (rootDirStat s) (ignoreRootDirs s) (verboseMask s) v (dumpCache s) (readBufferSize s) (stopFile s) (abortOnCacheProblem s) (logfp s) (inotifyReadCnt s) (dirCnt s) (ifd s) (reinitCnt s) (overflowCnt s) (out s) (kernel s).
Definition set_dumpCache (v : bool) (s : state) : state :=
  mkState (wlCache s) (rootDirPaths s) (rootDirStat s) (ignoreRootDirs s) (verboseMask s) (checkCache s) v (readBufferSize s) (stopFile s) (abortOnCacheProblem s) (logfp s) (inotifyReadCnt s) (dirCnt s) (ifd s) (reinitCnt s) (overflowCnt s) (out s) (kernel s).
Definition set_readBufferSize (v : Z) (s : state) : state :=
  mkState (wlCache s) (rootDirPaths s) (rootDirStat s) (ignoreRootDirs s) (verboseMask s) (checkCache s) (dumpCache s) v (stopFile s) (abortOnCacheProblem s) (logfp s) (inotifyReadCnt s) (dirCnt s) (ifd s) (reinitCnt s) (overflowCnt s) (out s) (kernel s).
Definition set_abort (f : bytes) (s : state) : state :=
  mkState (wlCache s) (rootDirPaths s) (rootDirStat s) (ignoreRootDirs s) (verboseMask s) (checkCache s) (dumpCache s) (readBufferSize s) (Some f) true (logfp s) (inotifyReadCnt s) (dirCnt s) (ifd s) (reinitCnt s) (overflowCnt s) (out s) (kernel s).
Definition set_logfp (v : bool) (s : state) : state :=
  mkState (wlCache s) (rootDirPaths s) (rootDirStat s) (ignoreRootDirs s) (verboseMask s) (checkCache s) (dumpCache s) (readBufferSize s) (stopFile s) (abortOnCacheProblem s) v (inotifyReadCnt s) (dirCnt s) (ifd s) (reinitCnt s) (overflowCnt s) (out s) (kernel s).
Definition set_inotifyReadCnt (v : Z) (s : state) : state :=
  mkState (wlCache s) (rootDirPaths s) (rootDirStat s) (ignoreRootDirs s) (verboseMask s) (checkCache s) (dumpCache s) (readBufferSize s) (stopFile s) (abortOnCacheProblem s) (logfp s) v (dirCnt s) (ifd s) (reinitCnt s) (overflowCnt s) (out s) (kernel s).
Definition set_dirCnt (v : Z) (s : state) : state :=
  mkState (wlCache s) (rootDirPaths s) (rootDirStat s) (ignoreRootDirs s) (verboseMask s) (checkCache s) (dumpCache s) (readBufferSize s) (stopFile s) (abortOnCacheProblem s) (logfp s) (inotifyReadCnt s) v (ifd s) (reinitCnt s) (overflowCnt s) (out s) (kernel s).
Definition set_ifd (v : Z) (s : state) : state :=
  mkState (wlCache s) (rootDirPaths s) (rootDirStat s) (ignoreRootDirs s) (verboseMask s) (checkCache s) (dumpCache s) (readBufferSize s) (stopFile s) (abortOnCacheProblem s) (logfp s) (inotifyReadCnt s) (dirCnt s) v (reinitCnt s) (overflowCnt s) (out s) (kernel s).
Definition set_reinitCnt (v : Z) (s : state) : state :=
  mkState (wlCache s) (rootDirPaths s) (rootDirStat s) (ignoreRootDirs s) (verboseMask s) (checkCache s) (dumpCache s) (readBufferSize s) (stopFile s) (abortOnCacheProblem s) (logfp s) (inotifyReadCnt s) (dirCnt s) (ifd s) v (overflowCnt s) (out s) (kernel s).
Definition set_overflowCnt (v : Z) (s : state) : state :=
  mkState (wlCache s) (rootDirPaths s) (rootDirStat s) (ignoreRootDirs s) (verboseMask s) (checkCache s) (dumpCache s) (readBufferSize s) (stopFile s) (abortOnCacheProblem s) (logfp s) (inotifyReadCnt s) (dirCnt s) (ifd s) (reinitCnt s) v (out s) (kernel s).
Definition set_out (v : list output) (s : state) : state :=
  mkState (wlCache s) (rootDirPaths s) (rootDirStat s) (ignoreRootDirs s) (verboseMask s) (checkCache s) (dumpCache s) (readBufferSize s) (stopFile s) (abortOnCacheProblem s) (logfp s) (inotifyReadCnt s) (dirCnt s) (ifd s) (reinitCnt s) (overflowCnt s) v (kernel s).
Definition set_kernel (v : K) (s : state) : state :=
  mkState (wlCache s) (rootDirPaths s) (rootDirStat s) (ignoreRootDirs s) (verboseMask s) (checkCache s) (dumpCache s) (readBufferSize s) (stopFile s) (abortOnCacheProblem s) (logfp s) (inotifyReadCnt s) (dirCnt s) (ifd s) (reinitCnt s) (overflowCnt s) (out s) v.

(** ** The monad *)

Inductive outcome (A : Type) :=
  | Ret (a : A) (s : state)
  | Exit (code : Z) (s : state)
  | Aborted (s : state)
  | Undef (why : string) (s : state)
  | NoFuel.
Arguments Ret {A} a s.
Arguments Exit {A} code s.
Arguments Aborted {A} s.
Arguments Undef {A} why s.
Arguments NoFuel {A}.

Definition N (A : Type) : Type := state -> outcome A.

#[export] Instance N_ret : MRet N := fun A a s => Ret a s.
#[export] Instance N_bind : MBind N := fun A B k m s =>
  match m s with
  | Ret a s' => k a s'
  | Exit c s' => Exit c s'
  | Aborted s' => Aborted s'
  | Undef w s' => Undef w s'
  | NoFuel => NoFuel
  end.

Definition get : N state := fun s => Ret s s.
Definition modify (f : state -> state) : N unit := fun s => Ret tt (f s).
Definition exit {A} (code : Z) : N A := fun s => Exit code s.
Definition abort {A} : N A := fun s => Aborted s.
Definition undef {A} (why : string) : N A := fun s => Undef why s.
Definition nofuel {A} : N A := fun _ => NoFuel.
Definition emit (o : output) : N unit := modify (fun s => set_out (o :: out s) s).
(** A system call. *)
Definition sys {A} (f : K -> A * K) : N A := fun s =>
  let '(a, k) := f (kernel s) in Ret a (set_kernel k s).

Definition EXIT_SUCCESS : Z := 0.
Definition EXIT_FAILURE : Z := 1.

(** errExit: perror and exit. *)
Definition errExit {A} (msg : string) : N A := emit (ToStderr msg []);; exit EXIT_FAILURE.

(** ** Logging *)

(** [logMessage]: to the standard error when the mask is 0 or selected, to the
    log file when there is one. *)
Definition logMessage (vb_mask : Z) (fmt : string) (args : list arg) : N unit :=
  s ← get;
  (if (vb_mask =? 0) || has vb_mask (verboseMask s) then emit (ToStderr fmt args) else mret tt);;
  if logfp s then emit (ToLog fmt args) else mret tt.

(** [if (cond) logMessage(VB_NOISY, msg);] *)
Definition note_if (b : bool) (fmt : string) (args : list arg) : N unit :=
  if b then logMessage VB_NOISY fmt args else mret tt.

Definition displayInotifyEvent (ev : inotify_event) : N unit :=
  logMessage VB_NOISY "==> wd = %d; " [AZ (ev_wd ev)];;
  note_if (0 <? ev_cookie ev) "cookie = %4d; " [AZ (ev_cookie ev)];;
  logMessage VB_NOISY "mask = " [];;
  note_if (has (ev_mask ev) IN_ISDIR) "IN_ISDIR " [];;
  note_if (has (ev_mask ev) IN_CREATE) "IN_CREATE " [];;
  note_if (has (ev_mask ev) IN_DELETE_SELF) "IN_DELETE_SELF " [];;
  note_if (has (ev_mask ev) IN_MOVE_SELF) "IN_MOVE_SELF " [];;
  note_if (has (ev_mask ev) IN_MOVED_FROM) "IN_MOVED_FROM " [];;
  note_if (has (ev_mask ev) IN_MOVED_TO) "IN_MOVED_TO " [];;
  note_if (has (ev_mask ev) IN_IGNORED) "IN_IGNORED " [];;
  note_if (has (ev_mask ev) IN_Q_OVERFLOW) "IN_Q_OVERFLOW " [];;
  note_if (has (ev_mask ev) IN_UNMOUNT) "IN_UNMOUNT " [];;
  logMessage VB_NOISY "\n" [];;
  note_if (0 <? ev_len ev) "        name = %s\n" [AS (ev_name ev)].

(** ** The watch cache *)

Definition freeCache : N unit := modify (set_cache []).

(** The slots in use, with their numbers. *)
Fixpoint used_slots (j : Z) (c : list watch) : list (Z * watch) :=
  match c with
  | [] => []
  | w :: c' => if 0 <=? w_wd w then (j, w) :: used_slots (j + 1) c' else used_slots (j + 1) c'
  end.

(** The loop of [checkCacheConsistency]: the number of failed lstat calls. *)
Fixpoint check_loop (l : list (Z * watch)) (failures : Z) : N Z :=
  match l with
  | [] => mret failures
  | (j, w) :: l' =>
    s ← get;
    match sys_lstat (w_path w) (kernel s) with
    | None =>
      logMessage 0 "checkCacheConsistency: stat: [slot = %d; wd = %d] %s: %s\n"
        [AZ j; AZ (w_wd w); AS (w_path w)];;
      check_loop l' (failures + 1)
    | Some sb =>
      if st_isdir sb then check_loop l' failures
      else
        logMessage 0 "checkCacheConsistency: %s is not a directory\n" [AS (w_path w)];;
        exit EXIT_FAILURE
    end
  end.

Definition checkCacheConsistency : N unit :=
  s ← get;
  failures ← check_loop (used_slots 0 (wlCache s)) 0;
  if 0 <? failures
  then logMessage VB_NOISY "checkCacheConsistency: %d failures\n" [AZ failures] else mret tt.

(** First index at which a predicate holds, -1 when there is none: the shape of
    the linear searches. *)
Fixpoint find_index {A} (p : A -> bool) (j : Z) (l : list A) : Z :=
  match l with
  | [] => -1
  | x :: l' => if p x then j else find_index p (j + 1) l'
  end.

Definition findWatch (wd : Z) : N Z :=
  s ← get; mret (find_index (fun w => w_wd w =? wd) 0 (wlCache s)).

(** The lines of [dumpCacheToLog]. *)
Fixpoint dump_lines (l : list (Z * watch)) : N unit :=
  match l with
  | [] => mret tt
  | (j, w) :: l' =>
    emit (ToLog "%d: wd = %d; %s\n" [AZ j; AZ (w_wd w); AS (w_path w)]);; dump_lines l'
  end.

(** [dumpCacheToLog]: fprintf on a null stream when no log file is open. *)
Definition dumpCacheToLog : N unit :=
  s ← get;
  if logfp s then
    dump_lines (used_slots 0 (wlCache s));;
    emit (ToLog "Total entries: %d\n" [AZ (Z.of_nat (length (used_slots 0 (wlCache s))))])
  else undef "dumpCacheToLog: fprintf to a null stream".

Definition createStopFileAndAbort {A} : N A :=
  s ← get;
  (if stopFile s is Some f then emit (Created f) else mret tt);;
  dumpCacheToLog;;
  abort.

Definition findWatchChecked (wd : Z) : N Z :=
  slot ← findWatch wd;
  if 0 <=? slot then mret slot
  else
    logMessage 0 "Could not find watch %d\n" [AZ wd];;
    s ← get;
    if abortOnCacheProblem s then createStopFileAndAbort else mret (-1).

(** Slot [slot] of the cache; the callers' slots are in range. *)
Definition slot_of (slot : Z) (c : list watch) : watch := nth (Z.to_nat slot) c (mkWatch (-1) []).

Definition markCacheSlotEmpty (slot : Z) : N unit :=
  s ← get;
  logMessage VB_NOISY "        markCacheSlotEmpty: slot = %d;  wd = %d; path = %s\n"
    [AZ slot; AZ (w_wd (slot_of slot (wlCache s))); AS (w_path (slot_of slot (wlCache s)))];;
  modify (fun s => set_cache (<[Z.to_nat slot := mkWatch (-1) []]> (wlCache s)) s).

(** Marking [n] slots from [j] on as empty. *)
Fixpoint mark_range (n : nat) (j : Z) : N unit :=
  match n with O => mret tt | S n' => markCacheSlotEmpty j;; mark_range n' (j + 1) end.

(** [findEmptyCacheSlot]: the first free slot, after growing the array when
    there is none.  The new slots have arbitrary contents until they are marked
    empty; they are given here the contents they are marked with. *)
Definition findEmptyCacheSlot : N Z :=
  s ← get;
  let j := find_index (fun w => w_wd w =? -1) 0 (wlCache s) in
  if 0 <=? j then mret j
  else
    let old := Z.of_nat (length (wlCache s)) in
    modify (fun s => set_cache (wlCache s ++ replicate ALLOC_INCR (mkWatch (-1) [])) s);;
    mark_range ALLOC_INCR old;;
    mret old.

(** strncpy into a path of PATH_MAX bytes. *)
Definition path_copy (p : bytes) : bytes := take (Z.to_nat PATH_MAX) p.

(** snprintf into a buffer of PATH_MAX bytes. *)
Definition path_printf (p : bytes) : bytes := take (Z.to_nat (PATH_MAX - 1)) p.

Definition addWatchToCache (wd : Z) (pathname : bytes) : N Z :=
  slot ← findEmptyCacheSlot;
  modify (fun s => set_cache (<[Z.to_nat slot := mkWatch wd (path_copy pathname)]> (wlCache s)) s);;
  mret slot.

Definition pathnameToCacheSlot (pathname : bytes) : N Z :=
  s ← get;
  mret (find_index (fun w => (0 <=? w_wd w) && bool_decide (w_path w = pathname)) 0 (wlCache s)).

Definition pathnameInCache (pathname : bytes) : N bool :=
  slot ← pathnameToCacheSlot pathname; mret (0 <=? slot).

(** ** Root directories *)

(** First loop of [copyRootDirPaths]: every argument names a directory. *)
Fixpoint check_args (argv : list bytes) : N unit :=
  match argv with
  | [] => mret tt
  | p :: argv' =>
    s ← get;
    match sys_lstat p (kernel s) with
    | None => emit (ToStderr "lstat() failed on '%s'\n" [AS p]);; exit EXIT_FAILURE
    | Some sb =>
      if st_isdir sb then check_args argv'
      else emit (ToStderr "'%s' is not a directory\n" [AS p]);; exit EXIT_FAILURE
    end
  end.

Definition same_object (a b : stat) : bool := (st_ino a =? st_ino b) && (st_dev a =? st_dev b).

(** Second loop: copy the pathnames, refusing an object that occurs twice. *)
Fixpoint copy_args (argv : list bytes) (paths : list (option bytes)) (stats : list stat) : N unit :=
  match argv with
  | [] => modify (fun s => set_rootDirStat stats (set_roots paths 0 s))
  | p :: argv' =>
    s ← get;
    match sys_lstat p (kernel s) with
    | None => errExit "lstat"
    | Some sb =>
      if existsb (same_object sb) stats
      then emit (ToStderr "Duplicate filesystem objects: %s, %s\n" [AS p]);; exit EXIT_FAILURE
      else copy_args argv' (paths ++ [Some p]) (stats ++ [sb])
    end
  end.

Definition copyRootDirPaths (argv : list bytes) : N unit :=
  check_args argv;; copy_args argv [] [].

(** Index of the root pathname equal to [path], -1 for a null pointer. *)
Definition findRootDirPath (path : bytes) : N Z :=
  s ← get; mret (find_index (fun r => bool_decide (r = Some path)) 0 (rootDirPaths s)).

Definition isRootDirPath (path : bytes) : N bool :=
  p ← findRootDirPath path; mret (0 <=? p).

Definition zapRootDirPath (path : bytes) : N unit :=
  emit (ToStdout "zapRootDirPath: %s\n" [AS path]);;
  p ← findRootDirPath path;
  if p <? 0 then
    emit (ToStderr "zapRootDirPath(): path not found!\n" []);; exit EXIT_FAILURE
  else
    modify (fun s => set_roots (<[Z.to_nat p := None]> (rootDirPaths s)) (ignoreRootDirs s + 1) s);;
    s ← get;
    if ignoreRootDirs s =? Z.of_nat (length (rootDirPaths s)) then
      emit (ToStderr "No more root paths left to monitor; bye!\n" []);; exit EXIT_SUCCESS
    else mret tt.

(** ** Watching a subtree *)

Definition traverseTree (pathname : bytes) (sb : stat) : N Z :=
  if negb (st_isdir sb) then mret 0
  else
    root ← isRootDirPath pathname;
    let flags := Z.lor IN_CREATE (Z.lor IN_MOVED_FROM (Z.lor IN_MOVED_TO IN_DELETE_SELF)) in
    let flags := if (root : bool) then Z.lor flags IN_MOVE_SELF else flags in
    s ← get;
    '(wd, err) ← sys (sys_add_watch (ifd s) pathname (Z.lor flags IN_ONLYDIR));
    if wd =? -1 then
      logMessage VB_BASIC "inotify_add_watch: %s: %s\n" [AS pathname; AZ err];;
      if err =? ENOENT then mret 0 else exit EXIT_FAILURE
    else
      slot ← findWatch wd;
      if 0 <=? slot then
        logMessage VB_BASIC "WD %d already in cache (%s)\n" [AZ wd; AS pathname];;
        mret 0
      else
        modify (fun s => set_dirCnt (dirCnt s + 1) s);;
        slot ← addWatchToCache wd pathname;
        logMessage VB_NOISY "    watchDir: wd = %d [cache slot: %d]; %s\n" [AZ wd; AZ slot; AS pathname];;
        mret 0.

(** nftw calling [traverseTree] on what it visits; the callback returns 0, so
    the walk goes on. *)
Fixpoint nftw_walk (visited : list (bytes * stat)) : N unit :=
  match visited with
  | [] => mret tt
  | (p, sb) :: visited' => traverseTree p sb;; nftw_walk visited'
  end.

Definition watchDir (inotifyFd : Z) (pathname : bytes) : N Z :=
  modify (set_dirCnt 0);;
  modify (set_ifd inotifyFd);;
  '(visited, r) ← sys (sys_nftw pathname);
  nftw_walk visited;;
  (if r =? -1
   then logMessage VB_BASIC "nftw: %s: %s (directory probably deleted before we could watch)\n" [AS pathname]
   else mret tt);;
  s ← get;
  mret (dirCnt s).

Definition watchSubtree (inotifyFd : Z) (path : bytes) : N unit :=
  cnt ← watchDir inotifyFd path;
  logMessage VB_BASIC "    watchSubtree: %s: %d entries added\n" [AS path; AZ cnt].

(** ** Renaming and removing subtrees *)

Definition SLASH : Z := 47.

(** strncmp(a, b, n) == 0, for strings without NUL. *)
Definition strncmp_eq (a b : bytes) (n : nat) : bool := bool_decide (take n a = take n b).

(** Character [i] of a C string, its terminating NUL included. *)
Definition char_at (s : bytes) (i : nat) : Z := nth i s 0.

(** The test both loops make: is [path] the directory [pn] or below it? *)
Definition in_subtree (pn path : bytes) : bool :=
  let len := length pn in
  strncmp_eq pn path len && ((char_at path len =? SLASH) || (char_at path len =? 0)).

Fixpoint rewrite_loop (n : nat) (j : Z) (fullPath newPrefix : bytes) : N unit :=
  match n with
  | O => mret tt
  | S n' =>
    s ← get;
    let w := slot_of j (wlCache s) in
    (if in_subtree fullPath (w_path w) then
       let newPath := path_printf (newPrefix ++ drop (length fullPath) (w_path w)) in
       modify (fun s => set_cache (<[Z.to_nat j := mkWatch (w_wd w) (path_copy newPath)]> (wlCache s)) s);;
       logMessage VB_NOISY "    wd %d [cache slot %d] ==> %s\n" [AZ (w_wd w); AZ j; AS newPath]
     else mret tt);;
    rewrite_loop n' (j + 1) fullPath newPrefix
  end.

Definition rewriteCachedPaths (oldPathPrefix oldName newPathPrefix newName : bytes) : N unit :=
  let fullPath := path_printf (oldPathPrefix ++ [SLASH] ++ oldName) in
  let newPrefix := path_printf (newPathPrefix ++ [SLASH] ++ newName) in
  logMessage VB_BASIC "Rename: %s ==> %s\n" [AS fullPath; AS newPrefix];;
  s ← get;
  rewrite_loop (length (wlCache s)) 0 fullPath newPrefix.

(** The loop of [zapSubtree] over [n] slots from [j] on. *)
Fixpoint zap_loop (n : nat) (j : Z) (inotifyFd : Z) (pn : bytes) (cnt : Z) : N Z :=
  match n with
  | O => mret cnt
  | S n' =>
    s ← get;
    let w := slot_of j (wlCache s) in
    if (0 <=? w_wd w) && in_subtree pn (w_path w) then
      logMessage VB_NOISY "    removing watch: wd = %d (%s)\n" [AZ (w_wd w); AS (w_path w)];;
      r ← sys (sys_rm_watch inotifyFd (w_wd w));
      if r =? -1 then
        logMessage 0 "inotify_rm_watch wd = %d (%s): %s\n" [AZ (w_wd w); AS (w_path w)];;
        mret (-1)
      else
        markCacheSlotEmpty j;;
        zap_loop n' (j + 1) inotifyFd pn (cnt + 1)
    else zap_loop n' (j + 1) inotifyFd pn cnt
  end.

Definition zapSubtree (inotifyFd : Z) (path : bytes) : N Z :=
  logMessage VB_NOISY "Zapping subtree: %s\n" [AS path];;
  s ← get;
  zap_loop (length (wlCache s)) 0 inotifyFd path 0.

(** Watching every root directory that is left. *)
Fixpoint watch_roots (roots : list (option bytes)) (inotifyFd : Z) : N unit :=
  match roots with
  | [] => mret tt
  | Some p :: roots' => watchSubtree inotifyFd p;; watch_roots roots' inotifyFd
  | None :: roots' => watch_roots roots' inotifyFd
  end.

Definition reinitialize (oldInotifyFd : Z) : N Z :=
  (if 0 <=? oldInotifyFd then
     sys (fun k => (tt, sys_close oldInotifyFd k));;
     modify (fun s => set_reinitCnt (reinitCnt s + 1) s);;
     s ← get;
     logMessage 0 "Reinitializing cache and inotify FD (reinitCnt = %d)\n" [AZ (reinitCnt s)]
   else
     logMessage 0 "Initializing cache\n" [];;
     modify (set_reinitCnt 0));;
  inotifyFd ← sys sys_inotify_init;
  (if inotifyFd =? -1 then errExit "inotify_init" else mret tt);;
  logMessage VB_BASIC "    new inotifyFd = %d\n" [AZ inotifyFd];;
  freeCache;;
  s ← get;
  watch_roots (rootDirPaths s) inotifyFd;;
  s ← get;
  (if 0 <=? oldInotifyFd
   then logMessage 0 "Rebuilt cache with %d entries\n" [AZ (Z.of_nat (length (used_slots 0 (wlCache s))))]
   else mret tt);;
  mret inotifyFd.

(** ** Events *)

(** Little-endian 32-bit words of the buffer. *)
Definition u32_at (buf : bytes) (off : nat) : Z := le_word (take 4 (drop off buf)).
Definition s32_at (buf : bytes) (off : nat) : Z := wrap_s 32 (u32_at buf off).

(** The event at the start of [buf]. *)
Definition event_at (buf : bytes) : inotify_event :=
  let len := u32_at buf 12 in
  mkEv (s32_at buf 0) (u32_at buf 4) (u32_at buf 8) len (cstring (drop 16 buf)).

(** A handler either finishes the event with its length in the buffer, or
    returns from [processNextInotifyEvent] at once. *)
Inductive handled := Consumed (evLen : Z) | Return (n : Z).

(** Discard the descriptor and the cache, and the rest of the buffer. *)
Definition cache_lost (inotifyFd : Z) : N (handled * Z) :=
  fd ← reinitialize inotifyFd; mret (Return INOTIFY_READ_BUF_LEN, fd).

(** [evCacheSlot] is not set for an event without a watch descriptor. *)
Definition path_of_slot (slot : option Z) : N bytes :=
  match slot with
  | None => undef "evCacheSlot is used uninitialized"
  | Some j => s ← get; mret (w_path (slot_of j (wlCache s)))
  end.

(** A subdirectory was created in or moved into the tree. *)
Definition ev_dir_created (fd : Z) (ev : inotify_event) (slot : option Z) (evLen : Z) : N (handled * Z) :=
  p ← path_of_slot slot;
  let fullPath := path_printf (p ++ [SLASH] ++ ev_name ev) in
  logMessage VB_BASIC "Directory creation on wd %d: %s\n" [AZ (ev_wd ev); AS fullPath];;
  inc ← pathnameInCache fullPath;
  (if (inc : bool) then mret tt else watchSubtree fd fullPath);;
  mret (Consumed evLen, fd).

(** A watched directory was deleted. *)
Definition ev_delete_self (fd : Z) (ev : inotify_event) (slot : option Z) (evLen : Z) : N (handled * Z) :=
  p ← path_of_slot slot;
  logMessage VB_BASIC "Clearing watchlist item %d (%s)\n" [AZ (ev_wd ev); AS p];;
  root ← isRootDirPath p;
  (if (root : bool) then zapRootDirPath p else mret tt);;
  (if slot is Some j then markCacheSlotEmpty j else mret tt);;
  mret (Consumed evLen, fd).

(** An IN_MOVED_FROM event with its IN_MOVED_TO right behind it. *)
Definition ev_renamed (fd : Z) (ev nextEv : inotify_event) (slot : option Z) (evLen : Z) : N (handled * Z) :=
  nextSlot ← findWatchChecked (ev_wd nextEv);
  if nextSlot =? -1 then cache_lost fd
  else
    old ← path_of_slot slot;
    new ← path_of_slot (Some nextSlot);
    rewriteCachedPaths old (ev_name ev) new (ev_name nextEv);;
    mret (Consumed (wrap_u 64 (evLen + SIZEOF_EVENT + ev_len nextEv)), fd).

(** An IN_MOVED_FROM event without its IN_MOVED_TO: moved out of the tree. *)
Definition ev_moved_out (fd : Z) (ev : inotify_event) (slot : option Z) (bufSize evLen : Z) (firstTry : bool)
    : N (handled * Z) :=
  p ← path_of_slot slot;
  logMessage VB_NOISY "MOVED_OUT: %p %p\n" [AS p; AS (ev_name ev)];;
  logMessage VB_NOISY "firstTry = %d; remaining bytes = %d\n" [AZ (if firstTry then 1 else 0); AZ (bufSize - evLen)];;
  let fullPath := path_printf (p ++ [SLASH] ++ ev_name ev) in
  r ← zapSubtree fd fullPath;
  if r =? -1 then cache_lost fd else mret (Consumed evLen, fd).

Definition ev_moved_from (fd : Z) (buf : bytes) (bufSize : Z) (ev : inotify_event) (slot : option Z)
    (evLen : Z) (firstTry : bool) : N (handled * Z) :=
  let nextEv := event_at (drop (Z.to_nat evLen) buf) in
  if (evLen <? bufSize) && has (ev_mask nextEv) IN_MOVED_TO && (ev_cookie nextEv =? ev_cookie ev)
  then ev_renamed fd ev nextEv slot evLen
  else if (evLen <? bufSize) || negb firstTry
  then ev_moved_out fd ev slot bufSize evLen firstTry
  else
    logMessage VB_NOISY "HANGING IN_MOVED_FROM\n" [];;
    mret (Return (wrap_u 64 (-1)), fd).

(** Events were lost. *)
Definition ev_overflow (fd : Z) : N (handled * Z) :=
  modify (fun s => set_overflowCnt (overflowCnt s + 1) s);;
  s ← get;
  logMessage 0 "Queue overflow (%d) (inotifyReadCnt = %d)\n" [AZ (overflowCnt s); AZ (inotifyReadCnt s)];;
  fd ← reinitialize fd;
  mret (Consumed INOTIFY_READ_BUF_LEN, fd).

(** A file system was unmounted. *)
Definition ev_unmount (fd : Z) (slot : option Z) (evLen : Z) : N (handled * Z) :=
  p ← path_of_slot slot;
  logMessage 0 "Filesystem unmounted: %s\n" [AS p];;
  (if slot is Some j then markCacheSlotEmpty j else mret tt);;
  mret (Consumed evLen, fd).

(** A watched directory moved; of interest when it is a root. *)
Definition ev_move_self (fd : Z) (slot : option Z) (evLen : Z) : N (handled * Z) :=
  p ← path_of_slot slot;
  root ← isRootDirPath p;
  if negb root then mret (Consumed evLen, fd)
  else
    logMessage 0 "Root path moved: %s\n" [AS p];;
    zapRootDirPath p;;
    r ← zapSubtree fd p;
    if r =? -1 then cache_lost fd else mret (Consumed evLen, fd).

(** The cascade on the event's mask. *)
Definition dispatch (fd : Z) (buf : bytes) (bufSize : Z) (ev : inotify_event) (slot : option Z)
    (evLen : Z) (firstTry : bool) : N (handled * Z) :=
  let mask := ev_mask ev in
  if has mask IN_ISDIR && has mask (Z.lor IN_CREATE IN_MOVED_TO) then ev_dir_created fd ev slot evLen
  else if has mask IN_DELETE_SELF then ev_delete_self fd ev slot evLen
  else if Z.land mask (Z.lor IN_MOVED_FROM IN_ISDIR) =? Z.lor IN_MOVED_FROM IN_ISDIR
  then ev_moved_from fd buf bufSize ev slot evLen firstTry
  else if has mask IN_Q_OVERFLOW then ev_overflow fd
  else if has mask IN_UNMOUNT then ev_unmount fd slot evLen
  else if has mask IN_MOVE_SELF then ev_move_self fd slot evLen
  else mret (Consumed evLen, fd).

(** [processNextInotifyEvent] on the [bufSize] bytes left in the buffer: the
    bytes consumed (a size_t), and the descriptor. *)
Definition processNextInotifyEvent (inotifyFd : Z) (buf : bytes) (bufSize : Z) (firstTry : bool) : N (Z * Z) :=
  let ev := event_at buf in
  displayInotifyEvent ev;;
  slot ← (if negb (ev_wd ev =? -1) && negb (has (ev_mask ev) IN_IGNORED)
          then j ← findWatchChecked (ev_wd ev); mret (Some j)
          else mret None);
  if bool_decide (slot = Some (-1)) then
    fd ← reinitialize inotifyFd;
    mret (INOTIFY_READ_BUF_LEN, fd)
  else
    let evLen := SIZEOF_EVENT + ev_len ev in
    '(h, fd) ← dispatch inotifyFd buf bufSize ev slot evLen firstTry;
    match h with
    | Return n => mret (n, fd)
    | Consumed n =>
      s ← get;
      (if checkCache s then checkCacheConsistency else mret tt);;
      s ← get;
      (if dumpCache s then dumpCacheToLog else mret tt);;
      mret (n, fd)
    end.

(** The loop of [processInotifyEvents] over the events in [buf]: [evp] is the
    offset of the next one.  A non-positive result of the handler asks for
    another read, after the rest of the buffer was moved to its start. *)
Fixpoint events_loop (fuel : nat) (fd : Z) (buf : bytes) (evp numRead : Z) (firstTry : bool) : N Z :=
  if negb (evp <? numRead) then mret fd
  else
    match fuel with
    | O => nofuel
    | S fuel' =>
      '(n, fd) ← processNextInotifyEvent fd (drop (Z.to_nat evp) buf) (numRead - evp) firstTry;
      let evLen := wrap_s 32 n in
      if 0 <? evLen then events_loop fuel' fd buf (evp + evLen) numRead true
      else
        let left := numRead - evp in
        let buf := splice buf 0 (take (Z.to_nat left) (drop (Z.to_nat evp) buf)) in
        '(nr, bs, err) ← sys (sys_read_events fd (INOTIFY_READ_BUF_LEN - left));
        let buf := splice buf (Z.to_nat left) bs in
        if (nr =? -1) && negb (err =? EINTR) then errExit "read"
        else if nr =? 0 then
          emit (ToStderr "read() from inotify fd returned 0!" []);; exit EXIT_FAILURE
        else if negb (err =? -1) then
          modify (fun s => set_inotifyReadCnt (inotifyReadCnt s + 1) s);;
          s ← get;
          logMessage VB_NOISY "\n==========> SECONDARY Read %d: got %zd bytes\n" [AZ (inotifyReadCnt s); AZ nr];;
          events_loop fuel' fd buf 0 (left + nr) false
        else
          logMessage VB_NOISY "\n==========> SECONDARY Read got nothing\n" [];;
          events_loop fuel' fd buf 0 left false
    end.

(** [processInotifyEvents]: one read and the events it delivers.  [junk] is what
    the buffer on the stack holds before. *)
Definition processInotifyEvents (fuel : nat) (junk : bytes) (fd : Z) : N Z :=
  s ← get;
  let cnt := if 0 <? readBufferSize s then readBufferSize s else INOTIFY_READ_BUF_LEN in
  '(numRead, bs, err) ← sys (sys_read_events fd cnt);
  if numRead =? -1 then errExit "read"
  else if numRead =? 0 then
    emit (ToStderr "read() from inotify fd returned 0!" []);; exit EXIT_FAILURE
  else if INOTIFY_READ_BUF_LEN <? numRead then undef "read past the end of buf"
  else
    modify (fun s => set_inotifyReadCnt (inotifyReadCnt s + 1) s);;
    s ← get;
    logMessage VB_NOISY "\n==========> Read %d: got %zd bytes\n" [AZ (inotifyReadCnt s); AZ numRead];;
    events_loop fuel fd (splice junk 0 bs) 0 numRead true.

(** ** Commands *)

(** sscanf(line, "%c %s\n", &cmd, arg): the command character and, when there
    is one, the argument. *)
Definition scan_command (line : bytes) : option (Z * option bytes) :=
  match line with
  | [] => None
  | cmd :: rest =>
    let fix word (l : bytes) : bytes :=
      match l with [] => [] | c :: l' => if isspace c then [] else c :: word l' end in
    match word (skip_space rest) with
    | [] => Some (cmd, None)
    | w => Some (cmd, Some w)
    end
  end.

(** A command that needs its argument; without one it reads an uninitialized
    array. *)
Definition with_arg {A} (a : option bytes) (k : bytes -> N A) : N A :=
  match a with Some p => k p | None => undef "arg is used uninitialized" end.

(** Command 'a': add or refresh a subtree. *)
Definition cmd_add (fd : Z) (p : bytes) : N Z :=
  cnt ← zapSubtree fd p;
  (if cnt =? 0 then logMessage VB_BASIC "Adding new subtree: %s\n" [AS p]
   else logMessage VB_BASIC "Zapped: %s, %d entries\n" [AS p; AZ cnt]);;
  watchSubtree fd p;;
  mret fd.

(** The loop of commands 'c' and 'C': verified entries and failures. *)
Fixpoint verify_loop (l : list (Z * watch)) (noisy : bool) (cnt failures : Z) : N (Z * Z) :=
  match l with
  | [] => mret (cnt, failures)
  | (j, w) :: l' =>
    s ← get;
    match sys_lstat (w_path w) (kernel s) with
    | None =>
      (if noisy then logMessage VB_BASIC "stat: [slot = %d; wd = %d] %s: %s\n" [AZ j; AZ (w_wd w); AS (w_path w)]
       else mret tt);;
      verify_loop l' noisy cnt (failures + 1)
    | Some sb =>
      if negb (st_isdir sb) then
        (if noisy then logMessage 0 "%s is not a directory\n" [AS (w_path w)] else mret tt);;
        exit EXIT_FAILURE
      else
        (if noisy then logMessage VB_NOISY "OK: [slot = %d; wd = %d] %s\n" [AZ j; AZ (w_wd w); AS (w_path w)]
         else mret tt);;
        verify_loop l' noisy (cnt + 1) failures
    end
  end.

Definition cmd_verify (noisy : bool) : N unit :=
  s ← get;
  '(cnt, failures) ← verify_loop (used_slots 0 (wlCache s)) noisy 0 0;
  logMessage 0 "Successfully verified %d entries\n" [AZ cnt];;
  logMessage 0 "Failures: %d\n" [AZ failures].

(** Command 'l': list the cache. *)
Fixpoint list_loop (l : list (Z * watch)) : N unit :=
  match l with
  | [] => mret tt
  | (j, w) :: l' => logMessage 0 "%d: %d %s\n" [AZ j; AZ (w_wd w); AS (w_path w)];; list_loop l'
  end.

Definition cmd_list : N unit :=
  s ← get;
  list_loop (used_slots 0 (wlCache s));;
  logMessage VB_BASIC "Total entries: %d\n" [AZ (Z.of_nat (length (used_slots 0 (wlCache s))))].

(** Command 'w': write the directory list to a file. *)
Fixpoint write_loop (p : bytes) (l : list (Z * watch)) : N unit :=
  match l with
  | [] => mret tt
  | (_, w) :: l' => emit (ToFile p "%s\n" [AS (w_path w)]);; write_loop p l'
  end.

Definition cmd_write (p : bytes) : N unit :=
  s ← get;
  if sys_fopen p (kernel s) then write_loop p (used_slots 0 (wlCache s))
  else emit (ToStderr "fopen" []);; undef "fprintf or fclose on a null stream".

Definition on_off (b : bool) : N unit := emit (ToStdout (if b then "on\n" else "off\n") []).

(** Command 'v': set or toggle the verbosity. *)
Definition cmd_verbose (a : option bytes) : N unit :=
  match a with
  | Some p => modify (set_verboseMask (atoi p))
  | None =>
    s ← get;
    let v := if verboseMask s =? 0 then 1 else 0 in
    modify (set_verboseMask v);;
    on_off (negb (v =? 0))
  end.

(** The switch of [executeCommand]; the characters are those of its cases. *)
Definition run_command (fd cmd : Z) (a : option bytes) : N Z :=
  if cmd =? 97 (* a *) then with_arg a (cmd_add fd)
  else if (cmd =? 99) || (cmd =? 67) (* c, C *) then cmd_verify (cmd =? 99);; mret fd
  else if cmd =? 108 (* l *) then cmd_list;; mret fd
  else if cmd =? 113 (* q *) then exit EXIT_SUCCESS
  else if cmd =? 118 (* v *) then cmd_verbose a;; mret fd
  else if cmd =? 100 (* d *) then
    modify (fun s => set_dumpCache (negb (dumpCache s)) s);; s ← get; on_off (dumpCache s);; mret fd
  else if cmd =? 120 (* x *) then
    modify (fun s => set_checkCache (negb (checkCache s)) s);; s ← get; on_off (checkCache s);; mret fd
  else if cmd =? 119 (* w *) then with_arg a cmd_write;; mret fd
  else if cmd =? 122 (* z *) then
    with_arg a (fun p =>
      cnt ← zapSubtree fd p;
      logMessage VB_BASIC "Zapped: %s, %d entries\n" [AS p; AZ cnt]);;
    mret fd
  else if cmd =? 48 (* 0 *) then
    sys (fun k => (tt, sys_close fd k));; reinitialize (-1)
  else emit (ToStdout "Unrecognized command: %c\n" [AZ cmd]);; mret fd.

(** [executeCommand]: read a line from the standard input and run it; the last
    byte read, normally the newline, is dropped. *)
Definition executeCommand (fd : Z) : N Z :=
  '(numRead, line) ← sys (sys_read_stdin MAX_LINE);
  if numRead <=? 0 then emit (ToStdout "bye!\n" []);; exit EXIT_FAILURE
  else
    let line := cstring (take (Z.to_nat (numRead - 1)) line) in
    match scan_command line with
    | None => mret fd
    | Some (cmd, a) => run_command fd cmd a
    end.

(** ** The main program *)

Inductive opt :=
  | Opt_a (file : bytes) | Opt_x | Opt_d | Opt_v (lvl : bytes) | Opt_b (size : bytes) | Opt_l (file : bytes)
  | Opt_bad.

(** The options, as getopt delivers them. *)
Fixpoint parse_options (os : list opt) : N unit :=
  match os with
  | [] => mret tt
  | o :: os' =>
    match o with
    | Opt_a f => modify (set_abort f)
    | Opt_x => modify (set_checkCache true)
    | Opt_d => modify (set_dumpCache true)
    | Opt_v l => modify (set_verboseMask (atoi l))
    | Opt_b n => modify (set_readBufferSize (atoi n))
    | Opt_l f => s ← get; if sys_fopen f (kernel s) then modify (set_logfp true) else errExit "fopen"
    | Opt_bad => emit (ToStderr "Usage: %s [options] directory-path\n\n" []);; exit EXIT_FAILURE
    end;;
    parse_options os'
  end.

(** [main] up to its loop: the inotify descriptor. *)
Definition main_start (os : list opt) (dirs : list bytes) : N Z :=
  parse_options os;;
  (if bool_decide (dirs = [])
   then emit (ToStderr "Usage: %s [options] directory-path\n\n" []);; exit EXIT_FAILURE else mret tt);;
  copyRootDirPaths dirs;;
  reinitialize (-1).

(** One turn of the loop, [rfds] being the descriptors select reports. *)
Definition main_turn (fuel : nat) (junk : bytes) (rfds : list Z) (inotifyFd : Z) : N Z :=
  fd ← (if bool_decide (0 ∈ rfds) then executeCommand inotifyFd else mret inotifyFd);
  if bool_decide (fd ∈ rfds) then processInotifyEvents fuel junk fd else mret fd.

End Program.

Arguments Ret {K A} a s.
Arguments Exit {K A} code s.
Arguments Aborted {K A} s.
Arguments Undef {K A} why s.
Arguments NoFuel {K A}.
