(* ===== verification/InotifyCache.v ===== *)
(** * InotifyCache: the watch cache of inotify_dtree.c.

    Correctness of the operations on the cache: search, growth, insertion,
    removal and renaming of subtrees, stated on the contents of the array. *)
From S2P Require Import Prelude Libc Files Inotify.
Local Open Scope Z_scope.

Section Cache.
Context {K : Type} `{!Kernel K}.

Abbreviation St := (@state K).
Abbreviation Prog := (@N K).

(** ** Total correctness *)

Definition nwp {A} (m : Prog A) (Q : A -> St -> Prop) (s : St) : Prop :=
  match m s with Ret a s' => Q a s' | _ => False end.

Lemma nwp_ret {A} (a : A) Q s : Q a s -> nwp (mret a) Q s.
Proof. done. Qed.
Lemma nwp_bind {A B} (m : Prog A) (k : A -> Prog B) Q s :
  nwp m (fun a s' => nwp (k a) Q s') s -> nwp (m ≫= k) Q s.
Proof. unfold nwp, mbind, N_bind. by destruct (m s). Qed.
Lemma nwp_mono {A} (m : Prog A) (Q Q' : A -> St -> Prop) s :
  nwp m Q s -> (forall a s', Q a s' -> Q' a s') -> nwp m Q' s.
Proof. unfold nwp. destruct (m s); auto. Qed.
Lemma nwp_get Q s : Q s s -> nwp get Q s.
Proof. done. Qed.
Lemma nwp_modify f Q s : Q tt (f s) -> nwp (modify f) Q s.
Proof. done. Qed.
Lemma nwp_emit o Q s : Q tt (set_out (o :: out s) s) -> nwp (emit o) Q s.
Proof. done. Qed.
Lemma nwp_run {A} (m : Prog A) Q s : nwp m Q s -> exists a s', m s = Ret a s' /\ Q a s'.
Proof. unfold nwp. destruct (m s); eauto; done. Qed.

Lemma set_out_out o o' (s : St) : set_out o (set_out o' s) = set_out o s.
Proof. by destruct s. Qed.
Lemma set_out_id (s : St) : set_out (out s) s = s.
Proof. by destruct s. Qed.

(** Logging only adds output. *)
Lemma nwp_log vb fmt args Q s :
  (forall o, Q tt (set_out o s)) -> nwp (logMessage vb fmt args) Q s.
Proof.
  intros HQ. unfold nwp, logMessage, mbind, N_bind, get, emit, modify, mret, N_ret.
  destruct ((vb =? 0) || has vb (verboseMask s)), (logfp s); simpl; rewrite ?set_out_out; try apply HQ.
  rewrite <- (set_out_id s). apply HQ.
Qed.

Lemma nwp_note b fmt args Q s :
  (forall o, Q tt (set_out o s)) -> nwp (note_if b fmt args) Q s.
Proof.
  intros HQ. unfold note_if. destruct b; [by apply nwp_log|]. apply nwp_ret. rewrite <- (set_out_id s). apply HQ.
Qed.

End Cache.

Ltac nwp_step :=
  lazymatch goal with
  | |- nwp (mret _) _ _ => apply nwp_ret
  | |- nwp get _ _ => apply nwp_get
  | |- nwp (modify _) _ _ => apply nwp_modify
  | |- nwp (emit _) _ _ => apply nwp_emit
  | |- nwp (logMessage _ _ _) _ _ => apply nwp_log; intros ?
  | |- nwp (note_if _ _ _) _ _ => apply nwp_note; intros ?
  | |- nwp (_ ≫= _) _ _ => apply nwp_bind
  end.
Ltac nwp_steps := repeat (nwp_step; cbn beta iota).

(** ** Subtrees *)

(** The pathname [q] is [p] or lies below it. *)
Definition under (p q : bytes) : Prop := q = p \/ exists r, q = p ++ SLASH :: r.

Definition no_nul (p : bytes) : Prop := Forall (fun c => c <> 0) p.

Lemma char_at_app p q : char_at (p ++ q) (length p) = char_at q 0.
Proof. unfold char_at. rewrite app_nth2 by lia. by rewrite Nat.sub_diag. Qed.

Lemma in_subtree_spec p q : no_nul q -> in_subtree p q = true <-> under p q.
Proof.
  intros Hq. unfold in_subtree, strncmp_eq, under. rewrite andb_true_iff, orb_true_iff, !Z.eqb_eq.
  rewrite bool_decide_eq_true, take_ge by done. split.
  - intros [Hp Hc]. assert (Hs : q = p ++ drop (length p) q).
    { rewrite Hp at 1. by rewrite take_drop. }
    destruct (drop (length p) q) as [|c r] eqn:E; [left; by rewrite Hs, app_nil_r|].
    right. exists r. rewrite Hs in Hc. rewrite char_at_app in Hc. simpl in Hc.
    destruct Hc as [<-|Hc]; [done|]. exfalso. rewrite Hs in Hq. apply Forall_app in Hq as [_ Hq].
    apply Forall_cons in Hq as [Hc0 _]. unfold char_at in Hc. simpl in Hc. done.
  - intros [->|[r ->]].
    + rewrite take_ge by done. split; [done|]. right. unfold char_at. by rewrite nth_overflow.
    + rewrite take_app_length. split; [done|]. left. by rewrite char_at_app.
Qed.

Lemma in_subtree_empty p : p <> [] -> in_subtree p [] = false.
Proof.
  intros Hp. unfold in_subtree, strncmp_eq. rewrite take_ge by done. rewrite take_nil.
  by rewrite bool_decide_eq_false_2.
Qed.

(** ** Searches *)

Lemma find_index_ge {A} (p : A -> bool) j l : find_index p j l = -1 \/ j <= find_index p j l.
Proof.
  revert j. induction l as [|x l IH]; intros j; simpl; [by left|]. destruct (p x); [right; lia|].
  destruct (IH (j + 1)); [by left|right; lia].
Qed.

Lemma find_index_some {A} (p : A -> bool) (l : list A) :
  find_index p 0 l <> -1 ->
  exists x, l !! Z.to_nat (find_index p 0 l) = Some x /\ p x = true /\
    0 <= find_index p 0 l < Z.of_nat (length l) /\
    forall i y, (i < Z.to_nat (find_index p 0 l))%nat -> l !! i = Some y -> p y = false.
Proof.
  assert (Hgen : forall l j, 0 <= j -> find_index p j l <> -1 -> exists x,
    l !! Z.to_nat (find_index p j l - j) = Some x /\ p x = true /\
    j <= find_index p j l < j + Z.of_nat (length l) /\
    forall i y, (i < Z.to_nat (find_index p j l - j))%nat -> l !! i = Some y -> p y = false).
  { clear l. induction l as [|x l IH]; intros j Hj Hne; [done|]. cbn [find_index] in *.
    destruct (p x) eqn:Hp.
    - exists x. rewrite Z.sub_diag. simpl length. repeat split; try done; try lia; intros i y Hi; simpl in Hi; lia.
    - destruct (IH (j + 1) ltac:(lia) Hne) as (y & Hy & Hpy & Hr & Hbefore). exists y.
      replace (Z.to_nat (find_index p (j + 1) l - j)) with (S (Z.to_nat (find_index p (j + 1) l - (j + 1)))) by lia.
      simpl length. repeat split; try done; try lia.
      intros [|i] z Hi Hz; simpl in Hz; [congruence|]. apply (Hbefore i); [lia|done]. }
  intros Hne. destruct (Hgen l 0 ltac:(lia) Hne) as (x & H1 & H2 & H3 & H4).
  rewrite Z.sub_0_r in *. exists x. repeat split; try done; lia.
Qed.

Lemma find_index_none {A} (p : A -> bool) (l : list A) :
  find_index p 0 l = -1 -> forall i x, l !! i = Some x -> p x = false.
Proof.
  assert (Hgen : forall l j, 0 <= j -> find_index p j l = -1 -> forall i x, l !! i = Some x -> p x = false).
  { clear l. induction l as [|y l IH]; intros j Hj Hn i x Hi; [done|]. simpl in Hn.
    destruct (p y) eqn:Hp; [lia|]. destruct i as [|i]; simpl in Hi; [congruence|].
    by apply (IH (j + 1) ltac:(lia) Hn i). }
  intros Hn. by apply (Hgen l 0).
Qed.

Lemma slot_of_lookup c j w : c !! Z.to_nat j = Some w -> slot_of j c = w.
Proof. intros H. unfold slot_of. by apply nth_lookup_Some. Qed.

(** ** The invariant of the cache *)

Definition empty_slot : watch := mkWatch (-1) [].
Definition liveb (w : watch) : bool := 0 <=? w_wd w.

(** Every slot is empty or holds a watch descriptor that no other slot holds;
    every pathname is a terminated string that fits its array. *)
Record cache_ok (c : list watch) : Prop := {
  co_slot : Forall (fun w => w = empty_slot \/ 0 <= w_wd w) c;
  co_path : Forall (fun w => no_nul (w_path w) /\ Z.of_nat (length (w_path w)) < PATH_MAX) c;
  co_uniq : forall i j w w', c !! i = Some w -> c !! j = Some w' ->
    0 <= w_wd w -> w_wd w = w_wd w' -> i = j
}.

Lemma cache_ok_nil : cache_ok [].
Proof. split; [done|done|]. intros i j w w' H. done. Qed.

Lemma cache_ok_empty c j : cache_ok c -> cache_ok (<[j := empty_slot]> c).
Proof.
  intros [Hs Hp Hu]. split.
  - apply Forall_insert; [done|by left].
  - apply Forall_insert; [done|]. split; [constructor|done].
  - intros i i' w w' Hi Hi' Hw He.
    apply list_lookup_insert_Some in Hi as [(-> & <- & _)|[Hne Hi]]; [simpl in Hw; lia|].
    apply list_lookup_insert_Some in Hi' as [(-> & <- & _)|[Hne' Hi']]; [simpl in He; lia|].
    by apply (Hu i i' w w').
Qed.

(** Occupying a slot with a descriptor that is not in the cache. *)
Lemma cache_ok_add c j wd p :
  cache_ok c -> 0 <= wd -> (forall i w, c !! i = Some w -> w_wd w <> wd) ->
  no_nul p -> Z.of_nat (length p) < PATH_MAX -> cache_ok (<[j := mkWatch wd p]> c).
Proof.
  intros [Hs Hp Hu] Hwd Hnew Hn Hl. split.
  - apply Forall_insert; [done|by right].
  - apply Forall_insert; [done|by split].
  - intros i i' w w' Hi Hi' Hw He.
    apply list_lookup_insert_Some in Hi as [(-> & <- & _)|[Hne Hi]];
      apply list_lookup_insert_Some in Hi' as [(-> & <- & _)|[Hne' Hi']].
    + done.
    + exfalso. apply (Hnew i' w' Hi'). by rewrite <- He.
    + exfalso. by apply (Hnew i w Hi).
    + by apply (Hu i i' w w').
Qed.

(** A change of pathnames only. *)
Lemma cache_ok_repath c j w p :
  cache_ok c -> c !! j = Some w -> 0 <= w_wd w \/ p = [] ->
  no_nul p -> Z.of_nat (length p) < PATH_MAX -> cache_ok (<[j := mkWatch (w_wd w) p]> c).
Proof.
  intros [Hs Hp Hu] Hj Hlive Hn Hl. split.
  - apply Forall_insert; [done|]. destruct Hlive as [Hl0| ->]; [by right|].
    destruct (Forall_lookup_1 _ _ _ _ Hs Hj) as [->|]; [by left|by right].
  - apply Forall_insert; [done|by split].
  - intros i i' v v' Hi Hi' Hv He.
    assert (Hback : forall i v, <[j:=mkWatch (w_wd w) p]> c !! i = Some v ->
      exists u, c !! i = Some u /\ w_wd u = w_wd v).
    { intros i0 v0 H0. apply list_lookup_insert_Some in H0 as [(-> & <- & _)|[_ H0]]; eauto. }
    destruct (Hback _ _ Hi) as (u & Hu1 & Hw1). destruct (Hback _ _ Hi') as (u' & Hu2 & Hw2).
    apply (Hu i i' u u'); try done; congruence.
Qed.

Lemma cache_ok_grow c n : cache_ok c -> cache_ok (c ++ replicate n empty_slot).
Proof.
  intros [Hs Hp Hu]. split.
  - apply Forall_app; split; [done|]. apply Forall_replicate. by left.
  - apply Forall_app; split; [done|]. apply Forall_replicate. split; [constructor|done].
  - assert (Hold : forall i w, (c ++ replicate n empty_slot) !! i = Some w -> 0 <= w_wd w -> c !! i = Some w).
    { intros i w Hi Hw. apply lookup_app_Some in Hi as [|[_ Hi]]; [done|].
      apply lookup_replicate in Hi as [-> _]. simpl in Hw. lia. }
    intros i i' w w' Hi Hi' Hw He. apply (Hu i i' w w'); [by apply Hold|apply Hold; [done|lia]|done|done].
Qed.

(** ** What the program relies on of the kernel *)

Class KernelOk (K : Type) `{!Kernel K} : Prop := {
  (* a watch descriptor is not negative; a pathname the kernel accepts is
     shorter than PATH_MAX *)
  ko_add : forall fd p fl (k : K) wd e k', sys_add_watch fd p fl k = (wd, e, k') ->
    wd = -1 \/ (0 <= wd /\ Z.of_nat (length p) < PATH_MAX);
  (* nftw hands strings to its callback *)
  ko_nftw : forall p (k : K) l r k', sys_nftw p k = (l, r, k') -> no_nul p ->
    Forall (fun v => no_nul (fst v)) l
}.

Section Ops.
Context {K : Type} `{!Kernel K}.
Abbreviation St := (@state K).
Abbreviation Prog := (@N K).

(** The state but for the output and the cache. *)
Definition with_cache (c : list watch) (o : list output) (s : St) : St := set_out o (set_cache c s).

Lemma with_cache_twice c o c' o' s : with_cache c o (with_cache c' o' s) = with_cache c o s.
Proof. by destruct s. Qed.
Lemma with_cache_id s : with_cache (wlCache s) (out s) s = s.
Proof. by destruct s. Qed.

Lemma nwp_mark slot Q (s : St) :
  (forall o, Q tt (with_cache (<[Z.to_nat slot := empty_slot]> (wlCache s)) o s)) ->
  nwp (markCacheSlotEmpty slot) Q s.
Proof. intros HQ. unfold markCacheSlotEmpty. nwp_steps. apply HQ. Qed.

Lemma insert_replicate_mid (a : list watch) n :
  <[length a := empty_slot]> (a ++ replicate (S n) empty_slot) = a ++ replicate (S n) empty_slot.
Proof. apply insert_middle. Qed.

(** Marking the new slots of a grown cache changes nothing. *)
Lemma nwp_mark_range n (a : list watch) Q (s : St) :
  wlCache s = a ++ replicate n empty_slot -> (forall o, Q tt (set_out o s)) ->
  nwp (mark_range n (Z.of_nat (length a))) Q s.
Proof.
  revert a s. induction n as [|n IH]; intros a s Hc HQ; cbn [mark_range].
  - apply nwp_ret. rewrite <- (set_out_id s). apply HQ.
  - nwp_step. apply nwp_mark. intros o.
    rewrite Hc, Nat2Z.id, insert_replicate_mid.
    replace (Z.of_nat (length a) + 1) with (Z.of_nat (length (a ++ [empty_slot]))) by (rewrite length_app; simpl; lia).
    apply IH; [simpl; by rewrite <- app_assoc|].
    intros o'. unfold with_cache. rewrite set_out_out. rewrite <- Hc.
    replace (set_cache (wlCache s) s) with s by (by destruct s). apply HQ.
Qed.

(** A free slot: the first of the cache, or the first of the new ones. *)
Lemma nwp_findEmpty Q (s : St) :
  cache_ok (wlCache s) ->
  (forall o c' j, (c' = wlCache s \/ c' = wlCache s ++ replicate ALLOC_INCR empty_slot) ->
     0 <= j -> c' !! Z.to_nat j = Some empty_slot -> Q j (with_cache c' o s)) ->
  nwp findEmptyCacheSlot Q s.
Proof.
  intros Hok HQ. unfold findEmptyCacheSlot. nwp_steps.
  destruct (Z.leb_spec 0 (find_index (fun w => w_wd w =? -1) 0 (wlCache s))) as [Hge|Hlt].
  - nwp_step. destruct (find_index_some (fun w => w_wd w =? -1) (wlCache s)) as (w & Hw & Hp & Hr & _); [lia|].
    rewrite <- (with_cache_id s) at 2. apply HQ; [by left|done|].
    rewrite Hw. f_equal. bool_to_prop.
    destruct (Forall_lookup_1 _ _ _ _ (co_slot _ Hok) Hw) as [->|]; [done|lia].
  - nwp_steps. apply (nwp_mark_range ALLOC_INCR (wlCache s)); [done|]. intros o. nwp_step.
    change (set_out o (set_cache (wlCache s ++ replicate ALLOC_INCR (mkWatch (-1) [])) s))
      with (with_cache (wlCache s ++ replicate ALLOC_INCR empty_slot) o s).
    apply HQ; [by right|lia|]. rewrite Nat2Z.id, lookup_app_r, Nat.sub_diag by done. done.
Qed.

Lemma nwp_addWatch wd p Q (s : St) :
  cache_ok (wlCache s) ->
  (forall o c' j, (c' = wlCache s \/ c' = wlCache s ++ replicate ALLOC_INCR empty_slot) ->
     0 <= j -> c' !! Z.to_nat j = Some empty_slot ->
     Q j (with_cache (<[Z.to_nat j := mkWatch wd (path_copy p)]> c') o s)) ->
  nwp (addWatchToCache wd p) Q s.
Proof.
  intros Hok HQ. unfold addWatchToCache. nwp_step. apply nwp_findEmpty; [done|].
  intros o c' j Hc Hj Hl. nwp_steps. by apply HQ.
Qed.

(** ** Renaming a subtree *)

(** What a rename does to one slot. *)
Definition renamed (fullPath newPrefix : bytes) (w : watch) : watch :=
  if in_subtree fullPath (w_path w)
  then mkWatch (w_wd w) (path_copy (path_printf (newPrefix ++ drop (length fullPath) (w_path w))))
  else w.

Lemma nwp_rewrite_loop fullPath newPrefix a b Q (s : St) :
  wlCache s = a ++ b ->
  (forall o, Q tt (with_cache (a ++ map (renamed fullPath newPrefix) b) o s)) ->
  nwp (rewrite_loop (length b) (Z.of_nat (length a)) fullPath newPrefix) Q s.
Proof.
  revert a s Q. induction b as [|w b IH]; intros a s Q Hc HQ; cbn [rewrite_loop length].
  - nwp_step. specialize (HQ (out s)). simpl in HQ. rewrite <- Hc in HQ. by rewrite with_cache_id in HQ.
  - nwp_step. nwp_step.
    assert (Hw : slot_of (Z.of_nat (length a)) (wlCache s) = w).
    { apply slot_of_lookup. by rewrite Hc, Nat2Z.id, list_lookup_middle. }
    rewrite Hw. nwp_step.
    assert (Hnext : forall o, nwp (rewrite_loop (length b) (Z.of_nat (length a) + 1) fullPath newPrefix) Q
      (with_cache (a ++ renamed fullPath newPrefix w :: b) o s)).
    { intros o. replace (Z.of_nat (length a) + 1) with (Z.of_nat (length (a ++ [renamed fullPath newPrefix w])))
        by (rewrite length_app; simpl; lia).
      apply IH; [simpl; by rewrite <- app_assoc|]. intros o'. rewrite with_cache_twice.
      rewrite <- app_assoc. apply HQ. }
    unfold renamed in Hnext. destruct (in_subtree fullPath (w_path w)) eqn:E.
    + nwp_steps. rewrite Hc, Nat2Z.id.
      rewrite insert_middle. apply Hnext.
    + nwp_step. specialize (Hnext (out s)). rewrite <- Hc, with_cache_id in Hnext. exact Hnext.
Qed.

Lemma nwp_rewriteCachedPaths op on np nn Q (s : St) :
  (forall o, Q tt (with_cache (map (renamed (path_printf (op ++ [SLASH] ++ on)) (path_printf (np ++ [SLASH] ++ nn)))
       (wlCache s)) o s)) ->
  nwp (rewriteCachedPaths op on np nn) Q s.
Proof.
  intros HQ. unfold rewriteCachedPaths. nwp_steps.
  apply (nwp_rewrite_loop _ _ []); [done|]. intros o'. apply HQ.
Qed.

(** ** Removing a subtree *)

Definition doomed (pn : bytes) (w : watch) : bool := liveb w && in_subtree pn (w_path w).
Definition zapped (pn : bytes) (w : watch) : watch := if doomed pn w then empty_slot else w.

(** The kernel after the watches of [ws] were removed from [fd], in order. *)
Definition rm_watches (fd : Z) (ws : list watch) (k : K) : K :=
  foldl (fun k w => (sys_rm_watch fd (w_wd w) k).2) k ws.

(** Every removal succeeds. *)
Fixpoint rm_succeeds (fd : Z) (ws : list watch) (k : K) : Prop :=
  match ws with
  | [] => True
  | w :: ws' => (sys_rm_watch fd (w_wd w) k).1 <> -1 /\ rm_succeeds fd ws' (sys_rm_watch fd (w_wd w) k).2
  end.

Definition with_kernel (c : list watch) (k : K) (o : list output) (s : St) : St :=
  set_kernel k (with_cache c o s).

(** The loop either removes every doomed entry, or stops at a removal that
    fails, those before it being gone. *)
Lemma nwp_zap_loop fd pn a b cnt Q (s : St) :
  wlCache s = a ++ b ->
  (forall o, rm_succeeds fd (filter (fun w => doomed pn w = true) b) (kernel s) ->
     Q (cnt + Z.of_nat (length (filter (fun w => doomed pn w = true) b)))
       (with_kernel (a ++ map (zapped pn) b) (rm_watches fd (filter (fun w => doomed pn w = true) b) (kernel s)) o s)) ->
  (forall o k b1 w b2, b = b1 ++ w :: b2 -> doomed pn w = true ->
     ~ rm_succeeds fd (filter (fun w => doomed pn w = true) b) (kernel s) ->
     Q (-1) (with_kernel (a ++ map (zapped pn) b1 ++ w :: b2) k o s)) ->
  nwp (zap_loop (length b) (Z.of_nat (length a)) fd pn cnt) Q s.
Proof.
  revert a cnt s Q. induction b as [|w b IH]; intros a cnt s Q Hc HQ HQ'; cbn [zap_loop length].
  - nwp_step. specialize (HQ (out s) I). simpl in HQ. rewrite Z.add_0_r, <- Hc in HQ.
    unfold with_kernel in HQ. rewrite with_cache_id in HQ. by destruct s.
  - nwp_step. nwp_step.
    assert (Hw : slot_of (Z.of_nat (length a)) (wlCache s) = w).
    { apply slot_of_lookup. by rewrite Hc, Nat2Z.id, list_lookup_middle. }
    rewrite Hw. change ((0 <=? w_wd w) && in_subtree pn (w_path w)) with (doomed pn w).
    replace (Z.of_nat (length a) + 1) with (Z.of_nat (length (a ++ [zapped pn w]))) by (rewrite length_app; simpl; lia).
    assert (Hz : a ++ zapped pn w :: b = (a ++ [zapped pn w]) ++ b) by (by rewrite <- app_assoc).
    destruct (doomed pn w) eqn:E.
    + rewrite filter_cons_True in HQ, HQ' by done. cbn [rm_succeeds rm_watches foldl] in HQ, HQ'.
      assert (Hzw : zapped pn w = empty_slot) by (unfold zapped; by rewrite E).
      nwp_step. nwp_step. nwp_step. unfold sys. unfold nwp at 1. simpl.
      destruct (sys_rm_watch fd (w_wd w) (kernel s)) as [r k1] eqn:Erm. simpl in HQ, HQ'.
      destruct (Z.eqb_spec r (-1)) as [->|Hr].
      * nwp_steps.
        eapply (HQ' _ k1 [] w b) in E as H; [|done|by intros [? _]].
        simpl in H. rewrite <- Hc in H. unfold with_kernel, with_cache in H. destruct s. apply H.
      * nwp_step. apply nwp_mark. intros o'. simpl. rewrite Hc, Nat2Z.id. rewrite insert_middle.
        apply (IH (a ++ [zapped pn w])).
        -- simpl. by rewrite Hzw, <- app_assoc.
        -- intros o2 Hs2. simpl in Hs2 |- *. specialize (HQ o2 (conj Hr Hs2)).
           rewrite <- app_assoc. simpl.
           replace (cnt + 1 + Z.of_nat (length (filter (fun w => doomed pn w = true) b)))
             with (cnt + Z.of_nat (S (length (filter (fun w => doomed pn w = true) b)))) by lia.
           by destruct s.
        -- intros o2 k b1 w' b2 -> Hd Hns. simpl in Hns.
           rewrite <- app_assoc. specialize (HQ' o2 k (w :: b1) w' b2 eq_refl Hd).
           simpl in HQ'. destruct s. apply HQ'. intros [_ H]. by apply Hns.
    + rewrite filter_cons_False in HQ, HQ' by congruence.
      assert (Hzw : zapped pn w = w) by (unfold zapped; by rewrite E).
      apply (IH (a ++ [zapped pn w])).
      * by rewrite Hzw, <- app_assoc.
      * intros o Hs. rewrite <- app_assoc. simpl. by apply HQ.
      * intros o k b1 w' b2 -> Hd Hns. rewrite <- app_assoc. by apply (HQ' o k (w :: b1) w' b2).
Qed.
End Ops.
