(* ===== verification/InotifyInv.v ===== *)
(** * InotifyInv: the invariant of inotify_dtree.c.

    [Inv]: the cache is well formed (no watch descriptor in two slots, pathnames
    terminated strings) and the count of abandoned roots is right.  Every
    function of the program keeps it, whichever way the function ends. *)
From S2P Require Import Prelude Libc Files Inotify InotifyCache.
Local Open Scope Z_scope.

(** ** Changes of the cache that keep it well formed *)

(** A slot was emptied, or kept its descriptor with a proper pathname. *)
Definition slot_rel (w w' : watch) : Prop :=
  w' = empty_slot \/
  (w_wd w' = w_wd w /\ 0 <= w_wd w /\ no_nul (w_path w') /\ Z.of_nat (length (w_path w')) < PATH_MAX).

Lemma cache_ok_rel c c' : Forall2 slot_rel c c' -> cache_ok c -> cache_ok c'.
Proof.
  intros HR Hok. split.
  - apply Forall_lookup. intros i w' Hi. destruct (Forall2_lookup_r _ _ _ _ _ HR Hi) as (w & Hw & [->|Hr]); [by left|].
    right. lia.
  - apply Forall_lookup. intros i w' Hi. destruct (Forall2_lookup_r _ _ _ _ _ HR Hi) as (w & Hw & [->|Hr]).
    + split; [constructor|done].
    + tauto.
  - intros i j w' v' Hi Hj Hl He.
    destruct (Forall2_lookup_r _ _ _ _ _ HR Hi) as (w & Hw & [->|Hr]); [simpl in Hl; lia|].
    destruct (Forall2_lookup_r _ _ _ _ _ HR Hj) as (v & Hv & [->|Hr']); [simpl in He; lia|].
    apply (co_uniq _ Hok i j w v); try done; destruct Hr as (? & ? & _), Hr' as (? & _); congruence.
Qed.

Lemma slot_rel_refl w : (w = empty_slot \/ 0 <= w_wd w) -> no_nul (w_path w) /\ Z.of_nat (length (w_path w)) < PATH_MAX ->
  slot_rel w w.
Proof. intros [->|H] [??]; [by left|right; done]. Qed.

Lemma slots_refl c : cache_ok c -> Forall2 slot_rel c c.
Proof.
  intros [Hs Hp _]. induction c as [|w c IH]; [constructor|].
  apply Forall_cons in Hs as [Hs Hs']. apply Forall_cons in Hp as [Hp Hp'].
  constructor; [by apply slot_rel_refl|by apply IH].
Qed.

Lemma slots_map f c : cache_ok c -> (forall w, w ∈ c -> slot_rel w w -> slot_rel w (f w)) -> Forall2 slot_rel c (map f c).
Proof.
  intros Hok Hf. pose proof (slots_refl c Hok) as Hr. clear Hok.
  induction c as [|w c IH]; [constructor|]. inversion Hr; subst. simpl. constructor.
  - apply Hf; [in_list|done].
  - apply IH; [|done]. intros v Hv. apply Hf. in_list.
Qed.

Lemma slots_zapped pn c : cache_ok c -> Forall2 slot_rel c (map (zapped pn) c).
Proof. intros Hok. apply slots_map; [done|]. intros w _ Hr. unfold zapped. destruct (doomed pn w); [by left|done]. Qed.

Lemma no_nul_take n p : no_nul p -> no_nul (take n p).
Proof. apply Forall_take. Qed.
Lemma no_nul_drop n p : no_nul p -> no_nul (drop n p).
Proof. apply Forall_drop. Qed.
Lemma no_nul_join p q : no_nul p -> no_nul q -> no_nul (p ++ [SLASH] ++ q).
Proof. intros Hp Hq. apply Forall_app. split; [done|]. constructor; [done|done]. Qed.
Lemma no_nul_cstring b : no_nul (cstring b).
Proof. apply cstring_Forall. Qed.
#[export] Hint Resolve no_nul_take no_nul_drop no_nul_join no_nul_cstring : mod_db.

Lemma path_printf_nul p : no_nul p -> no_nul (path_printf p).
Proof. apply no_nul_take. Qed.
Lemma path_printf_len p : Z.of_nat (length (path_printf p)) < PATH_MAX.
Proof. unfold path_printf. rewrite length_take. unfold PATH_MAX. lia. Qed.
Lemma path_copy_short p : Z.of_nat (length p) < PATH_MAX -> path_copy p = p.
Proof. intros H. unfold path_copy. apply take_ge. unfold PATH_MAX in *. lia. Qed.
Lemma path_printf_slash p q : path_printf (p ++ [SLASH] ++ q) <> [].
Proof. unfold path_printf, PATH_MAX. destruct p; simpl; done. Qed.
#[export] Hint Resolve path_printf_nul : mod_db.

Lemma slots_renamed fp np c :
  cache_ok c -> fp <> [] -> no_nul np -> Forall2 slot_rel c (map (renamed fp np) c).
Proof.
  intros Hok Hfp Hnp. apply slots_map; [done|]. intros w _ Hr. unfold renamed.
  destruct (in_subtree fp (w_path w)) eqn:E; [|done].
  destruct Hr as [->|(_ & Hl & Hn & _)]; [by rewrite in_subtree_empty in E|].
  right. simpl. rewrite path_copy_short by apply path_printf_len. split; [done|]. split; [done|].
  split; [|apply path_printf_len]. apply path_printf_nul, Forall_app. split; [done|by apply no_nul_drop].
Qed.

Section Invariant.
Context {K : Type} `{!Kernel K} `{!KernelOk K}.
Abbreviation St := (@state K).
Abbreviation Prog := (@N K).

Definition gone (r : option bytes) : bool := bool_decide (r = None).

Record Inv (s : St) : Prop := {
  inv_cache : cache_ok (wlCache s);
  inv_roots : Forall (fun r => match r with Some p => no_nul p | None => True end) (rootDirPaths s);
  inv_count : ignoreRootDirs s = Z.of_nat (length (filter (fun r => gone r = true) (rootDirPaths s)))
}.

(** Partial correctness, with the invariant required of every other ending. *)
Definition iwp {A} (m : Prog A) (Q : A -> St -> Prop) (s : St) : Prop :=
  match m s with
  | Ret a s' => Q a s'
  | Exit _ s' | Aborted s' | Undef _ s' => Inv s'
  | NoFuel => True
  end.

Lemma iwp_bind {A B} (m : Prog A) (k : A -> Prog B) Q s :
  iwp m (fun a s' => iwp (k a) Q s') s -> iwp (m ≫= k) Q s.
Proof. unfold iwp, mbind, N_bind. by destruct (m s). Qed.
Lemma iwp_ret {A} (a : A) Q s : Q a s -> iwp (mret a) Q s.
Proof. done. Qed.
Lemma iwp_get Q s : Q s s -> iwp get Q s.
Proof. done. Qed.
Lemma iwp_modify f Q s : Q tt (f s) -> iwp (modify f) Q s.
Proof. done. Qed.
Lemma iwp_emit o Q s : Q tt (set_out (o :: out s) s) -> iwp (emit o) Q s.
Proof. done. Qed.
Lemma iwp_exit {A} c Q s : Inv s -> iwp (A := A) (exit c) Q s.
Proof. done. Qed.
Lemma iwp_abort {A} Q s : Inv s -> iwp (A := A) abort Q s.
Proof. done. Qed.
Lemma iwp_undef {A} w Q s : Inv s -> iwp (A := A) (undef w) Q s.
Proof. done. Qed.
Lemma iwp_nwp {A} (m : Prog A) Q s : nwp m Q s -> iwp m Q s.
Proof. unfold iwp, nwp. by destruct (m s). Qed.
Lemma iwp_sys {A} (f : K -> A * K) Q s :
  (forall a k, f (kernel s) = (a, k) -> Q a (set_kernel k s)) -> iwp (sys f) Q s.
Proof. intros HQ. unfold iwp, sys. destruct (f (kernel s)) as [a k]. by apply HQ. Qed.
Lemma iwp_mono {A} (m : Prog A) (Q Q' : A -> St -> Prop) s :
  iwp m Q s -> (forall a s', Q a s' -> Q' a s') -> iwp m Q' s.
Proof. unfold iwp. destruct (m s); auto. Qed.

(** The invariant ignores what it does not mention. *)
Lemma inv_ext s s' :
  wlCache s' = wlCache s -> rootDirPaths s' = rootDirPaths s -> ignoreRootDirs s' = ignoreRootDirs s ->
  Inv s -> Inv s'.
Proof. intros H1 H2 H3 [Hc Hr Hn]. split; congruence. Qed.

Lemma inv_with_cache c o s : Inv s -> cache_ok c -> Inv (with_cache c o s).
Proof. intros [_ Hr Hn] Hc. by split. Qed.

Lemma iwp_log vb fmt args Q s : Inv s -> (forall s', Inv s' -> Q tt s') -> iwp (logMessage vb fmt args) Q s.
Proof. intros Hi HQ. apply iwp_nwp, nwp_log. intros o. apply HQ. by eapply inv_ext, Hi. Qed.
End Invariant.

(** Close [Inv] of a state that differs from a known one elsewhere. *)
Ltac inv_easy :=
  match goal with H : Inv ?s |- Inv _ => apply (inv_ext s); [reflexivity|reflexivity|reflexivity|exact H] end.

Ltac iwp_step :=
  lazymatch goal with
  | |- iwp (mret _) _ _ => apply iwp_ret
  | |- iwp get _ _ => apply iwp_get
  | |- iwp (modify _) _ _ => apply iwp_modify
  | |- iwp (emit _) _ _ => apply iwp_emit
  | |- iwp (exit _) _ _ => apply iwp_exit; inv_easy
  | |- iwp abort _ _ => apply iwp_abort; inv_easy
  | |- iwp (undef _) _ _ => apply iwp_undef; inv_easy
  | |- iwp (sys _) _ _ => apply iwp_sys; intros ???
  | |- iwp (logMessage _ _ _) _ _ => apply iwp_log; [inv_easy|intros ??]
  | |- iwp (errExit _) _ _ => unfold errExit
  | |- iwp (_ ≫= _) _ _ => apply iwp_bind
  | |- iwp (let '(_, _) := ?x in _) _ _ => destruct x
  | |- iwp (if ?b then _ else _) _ _ => destruct b eqn:?
  end.
Ltac iwp_steps := repeat (iwp_step; cbn beta iota).

Section Functions.
Context {K : Type} `{!Kernel K} `{!KernelOk K}.
Abbreviation St := (@state K).
Abbreviation Prog := (@N K).

(** [m] keeps the invariant, however it ends. *)
Definition preserves {A} (m : Prog A) : Prop := forall s, Inv s -> iwp m (fun _ s' => Inv s') s.

Lemma iwp_keep {A} (m : Prog A) Q s :
  preserves m -> Inv s -> (forall a s', Inv s' -> Q a s') -> iwp m Q s.
Proof. intros Hm Hi HQ. eapply iwp_mono; [by apply Hm|]. auto. Qed.
End Functions.

Create HintDb inv.

(** A call of a function known to preserve the invariant. *)
Ltac iwp_call := eapply iwp_keep; [solve [eauto with inv mod_db]|inv_easy|intros ???].
Ltac iwp_auto := repeat ((iwp_step || iwp_call); cbn beta iota); try inv_easy.
Ltac preserve := intros ? ?; iwp_auto.

Section Calls.
Context {K : Type} `{!Kernel K} `{!KernelOk K}.
Abbreviation St := (@state K).
Abbreviation Prog := (@N K).

Lemma pr_note b fmt args : preserves (K := K) (note_if b fmt args).
Proof. unfold note_if. preserve. Qed.
Hint Resolve pr_note : inv.

Lemma pr_display ev : preserves (K := K) (displayInotifyEvent ev).
Proof. unfold displayInotifyEvent. preserve. Qed.
Hint Resolve pr_display : inv.

Lemma pr_check_loop l f : preserves (K := K) (check_loop l f).
Proof.
  revert f. induction l as [|[j w] l IH]; intros f; cbn [check_loop]; preserve.
  destruct (sys_lstat _ _) as [sb|]; iwp_auto.
Qed.
Hint Resolve pr_check_loop : inv.

Lemma pr_check : preserves (K := K) checkCacheConsistency.
Proof. unfold checkCacheConsistency. preserve. Qed.
Hint Resolve pr_check : inv.

Lemma pr_dump_lines l : preserves (K := K) (dump_lines l).
Proof. induction l as [|[j w] l IH]; cbn [dump_lines]; preserve. Qed.
Hint Resolve pr_dump_lines : inv.

Lemma pr_dump : preserves (K := K) dumpCacheToLog.
Proof. unfold dumpCacheToLog. preserve. Qed.
Hint Resolve pr_dump : inv.

Lemma pr_stop A : preserves (K := K) (createStopFileAndAbort (A := A)).
Proof. unfold createStopFileAndAbort. preserve. destruct (stopFile s); iwp_auto. Qed.
Hint Resolve pr_stop : inv.

Lemma pr_findWatch wd : preserves (K := K) (findWatch wd).
Proof. unfold findWatch. preserve. Qed.
Hint Resolve pr_findWatch : inv.

Lemma pr_findWatchChecked wd : preserves (K := K) (findWatchChecked wd).
Proof. unfold findWatchChecked. preserve. Qed.
Hint Resolve pr_findWatchChecked : inv.

Lemma pr_mark j : preserves (K := K) (markCacheSlotEmpty j).
Proof.
  intros s Hi. apply iwp_nwp, nwp_mark. intros o. apply inv_with_cache; [done|]. by apply cache_ok_empty, Hi.
Qed.
Hint Resolve pr_mark : inv.

Lemma pr_inCache p : preserves (K := K) (pathnameInCache p).
Proof. unfold pathnameInCache, pathnameToCacheSlot. preserve. Qed.
Hint Resolve pr_inCache : inv.

Lemma pr_isRoot p : preserves (K := K) (isRootDirPath p).
Proof. unfold isRootDirPath, findRootDirPath. preserve. Qed.
Hint Resolve pr_isRoot : inv.

(** Striking a root out of the list adds one to the abandoned ones. *)
Lemma gone_insert (r : list (option bytes)) i p :
  r !! i = Some (Some p) ->
  length (filter (fun r => gone r = true) (<[i := None]> r)) = S (length (filter (fun r => gone r = true) r)).
Proof.
  revert i. induction r as [|x r IH]; intros i Hi; [done|]. destruct i as [|i]; simpl in Hi.
  - injection Hi as ->. simpl. done.
  - simpl. rewrite !filter_cons. specialize (IH i Hi). destruct (decide (gone x = true)); simpl; lia.
Qed.

Lemma inv_zap_root p (s : St) :
  let i := find_index (fun r => bool_decide (r = Some p)) 0 (rootDirPaths s) in
  Inv s -> i <> -1 -> Inv (set_roots (<[Z.to_nat i := None]> (rootDirPaths s)) (ignoreRootDirs s + 1) s).
Proof.
  intros i [Hc Hro Hn] Hne. destruct (find_index_some _ _ Hne) as (x & Hx & Hp & Hr & _).
  apply bool_decide_eq_true in Hp. subst x.
  split; simpl; [done|by apply Forall_insert|]. rewrite (gone_insert _ _ p) by done. lia.
Qed.

Lemma pr_zapRoot p : preserves (K := K) (zapRootDirPath p).
Proof.
  intros s Hi. unfold zapRootDirPath, findRootDirPath. do 2 iwp_step. cbn beta.
  set (s1 := set_out _ s). assert (Hi1 : Inv s1) by inv_easy.
  do 4 (iwp_step; cbn beta iota). clearbody s1.
  destruct (Z.ltb_spec (find_index (fun r => bool_decide (r = Some p)) 0 (rootDirPaths s1)) 0) as [Hlt|Hge]; [iwp_auto|].
  pose proof (inv_zap_root p s1 Hi1 ltac:(lia)) as Hz. cbn zeta in Hz. do 2 iwp_step. cbn beta.
  set (s2 := set_roots _ _ s1) in *. clearbody s2. iwp_auto.
Qed.
Hint Resolve pr_zapRoot : inv.

(** The callback adds a descriptor only when it is not in the cache. *)
Lemma inv_add wd p c' j o (s : St) :
  Inv s -> find_index (fun w => w_wd w =? wd) 0 (wlCache s) = -1 -> 0 <= wd -> no_nul p ->
  Z.of_nat (length p) < PATH_MAX ->
  (c' = wlCache s \/ c' = wlCache s ++ replicate ALLOC_INCR empty_slot) ->
  Inv (with_cache (<[Z.to_nat j := mkWatch wd (path_copy p)]> c') o s).
Proof.
  intros Hi Hnone Hwd Hp Hl Hc. apply inv_with_cache; [done|]. rewrite path_copy_short by done.
  assert (Hnew : forall i w, wlCache s !! i = Some w -> w_wd w <> wd).
  { intros i w Hw. pose proof (find_index_none _ _ Hnone i w Hw) as H. simpl in H. bool_to_prop. done. }
  apply cache_ok_add; try done.
  - destruct Hc as [-> | ->]; [apply Hi|by apply cache_ok_grow, Hi].
  - intros i w Hw. destruct Hc as [-> | ->]; [by apply (Hnew i)|].
    apply lookup_app_Some in Hw as [Hw|[_ Hw]]; [by apply (Hnew i)|].
    apply lookup_replicate in Hw as [-> _]. simpl. lia.
Qed.

Lemma pr_traverse p sb : no_nul p -> preserves (K := K) (traverseTree p sb).
Proof.
  intros Hp. unfold traverseTree. intros s Hi. iwp_step; [iwp_auto|]. iwp_step. iwp_call. do 2 iwp_step. cbn beta.
  iwp_step. iwp_step. destruct a0 as [wd err].
  match goal with H : sys_add_watch _ _ _ _ = _ |- _ => rename H into Hadd end.
  pose proof (ko_add _ _ _ _ _ _ _ Hadd) as Hwd. iwp_step; [iwp_auto|].
  destruct Hwd as [->|[Hwd Hl]]; [done|]. unfold findWatch. do 4 (iwp_step; cbn beta iota).
  match goal with |- iwp _ _ ?x => set (s1 := x) end. assert (Hi1 : Inv s1) by inv_easy. clearbody s1.
  iwp_step; [iwp_auto|].
  assert (Hnone : find_index (fun w => w_wd w =? wd) 0 (wlCache s1) = -1).
  { destruct (find_index_ge (fun w => w_wd w =? wd) 0 (wlCache s1)); [done|]. bool_to_prop. lia. }
  do 2 iwp_step. cbn beta. iwp_step. apply iwp_nwp, nwp_addWatch; [apply Hi1|]. intros o c' j Hc Hj Hjl.
  set (s2 := with_cache _ _ _).
  assert (Hi2 : Inv s2). { apply inv_add; try done. inv_easy. }
  clearbody s2. iwp_auto.
Qed.
Hint Resolve pr_traverse : inv.

Lemma pr_walk l : Forall (fun v => no_nul (fst v)) l -> preserves (K := K) (nftw_walk l).
Proof. induction 1 as [|[p sb] l Hp _ IH]; cbn [nftw_walk]; preserve. Qed.
Hint Resolve pr_walk : inv.

Lemma pr_watchDir fd p : no_nul p -> preserves (K := K) (watchDir fd p).
Proof.
  intros Hp s Hi. unfold watchDir. do 6 (iwp_step; cbn beta iota). destruct a as [visited r].
  match goal with H : sys_nftw _ _ = _ |- _ => pose proof (ko_nftw _ _ _ _ _ H Hp) end. iwp_auto.
Qed.
Hint Resolve pr_watchDir : inv.

Lemma pr_watchSubtree fd p : no_nul p -> preserves (K := K) (watchSubtree fd p).
Proof. intros Hp. unfold watchSubtree. preserve. Qed.
Hint Resolve pr_watchSubtree : inv.

Lemma pr_rewrite op on np nn :
  no_nul np -> no_nul nn -> preserves (K := K) (rewriteCachedPaths op on np nn).
Proof.
  intros Hn1 Hn2 s Hi. apply iwp_nwp, nwp_rewriteCachedPaths. intros o. apply inv_with_cache; [done|].
  eapply cache_ok_rel; [apply slots_renamed|apply Hi]; [apply Hi|apply path_printf_slash|].
  by apply path_printf_nul, no_nul_join.
Qed.
Hint Resolve pr_rewrite : inv.

Lemma pr_zap fd p : preserves (K := K) (zapSubtree fd p).
Proof.
  intros s Hi. unfold zapSubtree. do 2 iwp_step. cbn beta. do 2 iwp_step. cbn beta.
  match goal with H : Inv ?x |- iwp _ _ ?x => rename H into Hi1; rename x into s1 end.
  apply iwp_nwp, (nwp_zap_loop _ _ []); [done| |].
  - intros o _. apply (inv_ext (with_cache (map (zapped p) (wlCache s1)) o s1)); try done.
    apply inv_with_cache; [done|]. eapply cache_ok_rel; [apply slots_zapped|]; apply Hi1.
  - intros o k b1 w b2 Hb _ _. apply (inv_ext (with_cache (map (zapped p) b1 ++ w :: b2) o s1)); try done.
    apply inv_with_cache; [done|]. pose proof (inv_cache _ Hi1) as Hok.
    assert (HR : Forall2 slot_rel (b1 ++ w :: b2) (map (zapped p) b1 ++ w :: b2)).
    { rewrite <- Hb. pose proof (slots_refl _ Hok) as Hr. rewrite Hb in Hr |- *.
      apply Forall2_app_inv in Hr as [Hr1 Hr2]; [|done]. apply Forall2_app; [|done].
      clear -Hr1. induction b1 as [|v b1 IH]; [constructor|]. inversion Hr1; subst. constructor; [|by apply IH].
      unfold zapped. destruct (doomed p v); [by left|done]. }
    eapply cache_ok_rel; [exact HR|]. by rewrite <- Hb.
Qed.
Hint Resolve pr_zap : inv.

Lemma pr_watch_roots fd roots :
  Forall (fun r => match r with Some p => no_nul p | None => True end) roots ->
  preserves (K := K) (watch_roots roots fd).
Proof. induction 1 as [|[p|] roots Hp _ IH]; cbn [watch_roots]; preserve. Qed.

Lemma pr_free : preserves (K := K) freeCache.
Proof.
  intros s Hi. apply iwp_modify. destruct Hi. split; [apply cache_ok_nil|done|done].
Qed.
Hint Resolve pr_free : inv.

Lemma pr_reinitialize fd : preserves (K := K) (reinitialize fd).
Proof.
  intros s Hi. unfold reinitialize.
  apply iwp_bind, (iwp_keep _ _ s); [unfold preserves; intros; iwp_auto|done|]. intros _ s1 Hi1.
  iwp_step. iwp_step. do 2 iwp_step; [iwp_auto|]. do 3 iwp_step. iwp_step. iwp_call. do 2 iwp_step. cbn beta.
  match goal with H : Inv ?x |- iwp _ _ ?x => pose proof (inv_roots _ H) end.
  iwp_step. eapply iwp_keep; [by apply pr_watch_roots|inv_easy|intros ???]. iwp_auto.
Qed.
Hint Resolve pr_reinitialize : inv.

Lemma slot_path_ok c j : cache_ok c -> no_nul (w_path (slot_of j c)).
Proof.
  intros Hok. unfold slot_of. destruct (c !! Z.to_nat j) as [w|] eqn:E.
  - apply nth_lookup_Some with (d := mkWatch (-1) []) in E as Hn. rewrite Hn.
    by destruct (Forall_lookup_1 _ _ _ _ (co_path _ Hok) E).
  - apply lookup_ge_None_1 in E. rewrite nth_overflow by done. constructor.
Qed.

Lemma iwp_path slot Q (s : St) :
  Inv s -> (forall p, no_nul p -> Q p s) -> iwp (path_of_slot slot) Q s.
Proof.
  intros Hi HQ. destruct slot as [j|]; cbn [path_of_slot]; iwp_auto.
  apply HQ, slot_path_ok, Hi.
Qed.

Lemma pr_cache_lost fd : preserves (K := K) (cache_lost fd).
Proof. unfold cache_lost. preserve. Qed.
Hint Resolve pr_cache_lost : inv.

Lemma pr_dir_created fd ev slot n : no_nul (ev_name ev) -> preserves (K := K) (ev_dir_created fd ev slot n).
Proof.
  intros Hn s Hi. unfold ev_dir_created. iwp_step. apply iwp_path; [done|]. intros p Hp. iwp_auto.
Qed.

Lemma pr_delete_self fd ev slot n : preserves (K := K) (ev_delete_self fd ev slot n).
Proof.
  intros s Hi. unfold ev_delete_self. iwp_step. apply iwp_path; [done|]. intros p Hp. iwp_auto; destruct slot; iwp_auto.
Qed.

Lemma pr_renamed fd ev nextEv slot n : no_nul (ev_name nextEv) -> preserves (K := K) (ev_renamed fd ev nextEv slot n).
Proof.
  intros Hn s Hi. unfold ev_renamed. iwp_step. iwp_call. iwp_step; [iwp_auto|]. iwp_step.
  apply iwp_path; [done|]. intros p Hp. iwp_step. apply iwp_path; [done|]. intros q Hq. iwp_auto.
Qed.

Lemma pr_moved_out fd ev slot bs n ft : preserves (K := K) (ev_moved_out fd ev slot bs n ft).
Proof.
  intros s Hi. unfold ev_moved_out. iwp_step. apply iwp_path; [done|]. intros p Hp. iwp_auto.
Qed.
Hint Resolve pr_dir_created pr_delete_self pr_renamed pr_moved_out : inv.

Lemma pr_moved_from fd buf bs ev slot n ft : preserves (K := K) (ev_moved_from fd buf bs ev slot n ft).
Proof.
  assert (Hn : forall b, no_nul (ev_name (event_at b))) by (intros; apply no_nul_cstring).
  unfold ev_moved_from. preserve.
Qed.

Lemma pr_overflow fd : preserves (K := K) (ev_overflow fd).
Proof. unfold ev_overflow. preserve. Qed.

Lemma pr_unmount fd slot n : preserves (K := K) (ev_unmount fd slot n).
Proof.
  intros s Hi. unfold ev_unmount. iwp_step. apply iwp_path; [done|]. intros p Hp. iwp_auto; destruct slot; iwp_auto.
Qed.

Lemma pr_move_self fd slot n : preserves (K := K) (ev_move_self fd slot n).
Proof.
  intros s Hi. unfold ev_move_self. iwp_step. apply iwp_path; [done|]. intros p Hp. iwp_auto.
Qed.
Hint Resolve pr_moved_from pr_overflow pr_unmount pr_move_self : inv.

Lemma pr_process fd buf bs ft : preserves (K := K) (processNextInotifyEvent fd buf bs ft).
Proof.
  assert (Hn : no_nul (ev_name (event_at buf))) by apply no_nul_cstring.
  assert (Hd : forall slot n, preserves (K := K) (dispatch fd buf bs (event_at buf) slot n ft)).
  { intros slot n. unfold dispatch. preserve. }
  unfold processNextInotifyEvent. preserve; destruct h; iwp_auto.
Qed.
Hint Resolve pr_process : inv.

Lemma pr_events_loop fuel fd buf evp nr ft : preserves (K := K) (events_loop fuel fd buf evp nr ft).
Proof.
  revert fd buf evp nr ft. induction fuel as [|fuel IH]; intros fd buf evp nr ft; cbn [events_loop].
  - intros s Hi. iwp_step; [iwp_auto|done].
  - preserve.
Qed.
Hint Resolve pr_events_loop : inv.

Lemma pr_processEvents fuel junk fd : preserves (K := K) (processInotifyEvents fuel junk fd).
Proof. unfold processInotifyEvents. preserve. Qed.
Hint Resolve pr_processEvents : inv.

Lemma pr_verify_loop l noisy c f : preserves (K := K) (verify_loop l noisy c f).
Proof.
  revert c f. induction l as [|[j w] l IH]; intros c f; cbn [verify_loop]; preserve.
  destruct (sys_lstat _ _) as [sb|]; iwp_auto.
Qed.
Hint Resolve pr_verify_loop : inv.

Lemma pr_list_loop l : preserves (K := K) (list_loop l).
Proof. induction l as [|[j w] l IH]; cbn [list_loop]; preserve. Qed.
Lemma pr_write_loop p l : preserves (K := K) (write_loop p l).
Proof. induction l as [|[j w] l IH]; cbn [write_loop]; preserve. Qed.
Hint Resolve pr_list_loop pr_write_loop : inv.

Lemma pr_verbose a : preserves (K := K) (cmd_verbose a).
Proof. unfold cmd_verbose, on_off. destruct a; preserve. Qed.
Hint Resolve pr_verbose : inv.

Lemma pr_run_command fd cmd a :
  (match a with Some p => no_nul p | None => True end) -> preserves (K := K) (run_command fd cmd a).
Proof.
  intros Ha. unfold run_command, with_arg, cmd_add, cmd_verify, cmd_list, cmd_write, on_off.
  destruct a as [p|]; preserve.
Qed.

(** The words of a command line are strings. *)
Lemma scan_command_nul line cmd a :
  no_nul line -> scan_command line = Some (cmd, a) -> match a with Some p => no_nul p | None => True end.
Proof.
  intros Hl. destruct line as [|c rest]; [done|]. cbn [scan_command]. apply Forall_cons in Hl as [_ Hl].
  assert (Hskip : forall l, no_nul l -> no_nul (skip_space l)).
  { clear. intros l Hl. induction Hl as [|c l Hc Hl IH]; [constructor|]. simpl. destruct (isspace c); [done|]. by constructor. }
  set (word := fix word (l : bytes) : bytes :=
    match l with [] => [] | c :: l' => if isspace c then [] else c :: word l' end).
  assert (Hword : forall l, no_nul l -> no_nul (word l)).
  { intros l Hn. induction Hn as [|x l Hx Hn IH]; [constructor|]. simpl. destruct (isspace x); [constructor|by constructor]. }
  specialize (Hword _ (Hskip _ Hl)). destruct (word (skip_space rest)) eqn:E; intros [= <- <-]; done.
Qed.

Lemma pr_executeCommand fd : preserves (K := K) (executeCommand fd).
Proof.
  intros s Hi. unfold executeCommand. iwp_step. iwp_step. destruct a as [nr line]. iwp_step; [iwp_auto|].
  destruct (scan_command _) as [[cmd a]|] eqn:E; [|iwp_auto].
  eapply iwp_keep; [eapply pr_run_command, scan_command_nul; [|exact E]; apply no_nul_cstring|inv_easy|done].
Qed.
Hint Resolve pr_executeCommand : inv.

Lemma pr_options os : preserves (K := K) (parse_options os).
Proof.
  induction os as [|o os IH]; cbn [parse_options]; [preserve|].
  intros s Hi. destruct o; iwp_auto.
Qed.
Hint Resolve pr_options : inv.

Lemma pr_check_args argv : preserves (K := K) (check_args argv).
Proof.
  induction argv as [|p argv IH]; cbn [check_args]; preserve. destruct (sys_lstat _ _) as [sb|]; iwp_auto.
Qed.
Hint Resolve pr_check_args : inv.

Lemma filter_gone_some (l : list bytes) : filter (fun r => gone r = true) (map Some l) = [].
Proof. induction l as [|p l IH]; [done|]. done. Qed.

Lemma pr_copy_args argv done stats :
  Forall no_nul argv -> Forall no_nul done -> preserves (K := K) (copy_args argv (map Some done) stats).
Proof.
  intros Ha. revert done stats. induction Ha as [|p argv Hp _ IH]; intros done stats Hd; cbn [copy_args].
  - intros s [Hc _ _]. iwp_step. split; simpl; [exact Hc| |by rewrite filter_gone_some].
    apply Forall_map. by eapply Forall_impl; [exact Hd|].
  - specialize (IH (done ++ [p])). rewrite map_app in IH.
    assert (Hd' : Forall no_nul (done ++ [p])) by (apply Forall_app; split; [exact Hd|by constructor]).
    intros s Hi. do 2 iwp_step. cbn beta. destruct (sys_lstat _ _) as [sb|]; iwp_auto.
Qed.

Lemma pr_main_start os dirs : Forall no_nul dirs -> preserves (K := K) (main_start os dirs).
Proof.
  intros Hd. pose proof (fun stats => pr_copy_args dirs [] stats Hd (Forall_nil_2 _)) as Hcopy. simpl in Hcopy.
  unfold main_start, copyRootDirPaths. preserve.
Qed.

Lemma pr_main_turn fuel junk rfds fd : preserves (K := K) (main_turn fuel junk rfds fd).
Proof. unfold main_turn. preserve. Qed.

(** ** Reachable states *)

(** The program before [main]: no cache, no roots. *)
Definition initial (s : St) : Prop := wlCache s = [] /\ rootDirPaths s = [] /\ ignoreRootDirs s = 0.

(** States at the top of the main loop, with the inotify descriptor; between
    two turns the kernel does as it likes. *)
Inductive reachable : Z -> St -> Prop :=
  | R_start s os dirs fd s' : initial s -> Forall no_nul dirs ->
      main_start os dirs s = Ret fd s' -> reachable fd s'
  | R_turn fd s fuel junk rfds fd' s' : reachable fd s ->
      main_turn fuel junk rfds fd s = Ret fd' s' -> reachable fd' s'
  | R_kernel fd s k : reachable fd s -> reachable fd (set_kernel k s).

Lemma initial_inv s : initial s -> Inv s.
Proof. intros (Hc & Hr & Hn). split; rewrite ?Hc, ?Hr, ?Hn; [apply cache_ok_nil|constructor|done]. Qed.

Lemma preserves_ret {A} (m : Prog A) s a s' : preserves m -> Inv s -> m s = Ret a s' -> Inv s'.
Proof. intros Hm Hi E. specialize (Hm s Hi). unfold iwp in Hm. by rewrite E in Hm. Qed.

Lemma reachable_inv fd s : reachable fd s -> Inv s.
Proof.
  induction 1 as [s os dirs fd s' Hs Hd E|fd s fuel junk rfds fd' s' _ IH E|fd s k _ IH].
  - eapply preserves_ret; [by apply pr_main_start|by apply initial_inv|exact E].
  - eapply preserves_ret; [apply pr_main_turn|exact IH|exact E].
  - inv_easy.
Qed.
End Calls.
