(* ===== verification/InotifyLoop.v ===== *)
(** * InotifyLoop: decoding of events and termination of the read loop.

    The kernel delivers a sequence of encoded events.  Decoding is the inverse of
    encoding, and the loop of [processInotifyEvents] consumes every event of the
    buffer, asking for more at most once for a trailing IN_MOVED_FROM: with a
    kernel that has finitely many bytes to deliver it ends. *)
From S2P Require Import Prelude Libc Files Inotify InotifyCache.
Local Open Scope Z_scope.

(** ** Encoding of events *)

(** An event as the kernel stores it: the four words, then the name filled up
    with NULs to [ev_len] bytes. *)
Definition enc_event (ev : inotify_event) : bytes :=
  le_bytes 4 (wrap_u 32 (ev_wd ev)) ++ le_bytes 4 (ev_mask ev) ++ le_bytes 4 (ev_cookie ev) ++
  le_bytes 4 (ev_len ev) ++ ev_name ev ++ replicate (Z.to_nat (ev_len ev) - length (ev_name ev)) 0.

Record event_wf (ev : inotify_event) : Prop := {
  ew_wd : - 2 ^ 31 <= ev_wd ev < 2 ^ 31;
  ew_mask : 0 <= ev_mask ev < 2 ^ 32;
  ew_cookie : 0 <= ev_cookie ev < 2 ^ 32;
  ew_len : 0 <= ev_len ev <= NAME_MAX + 1;
  ew_name : no_nul (ev_name ev);
  ew_fits : (ev_name ev = [] /\ ev_len ev = 0) \/ Z.of_nat (length (ev_name ev)) < ev_len ev
}.

Lemma length_enc_event ev : event_wf ev -> Z.of_nat (length (enc_event ev)) = SIZEOF_EVENT + ev_len ev.
Proof.
  intros [_ _ _ Hl _ Hf]. unfold enc_event, SIZEOF_EVENT. rewrite !length_app, !length_le_bytes, length_replicate.
  destruct Hf as [[-> ->]|]; simpl; lia.
Qed.

Lemma u32_at_app (a b : bytes) z rest :
  length a = length b -> 0 <= z < 2 ^ 32 -> u32_at (a ++ le_bytes 4 z ++ rest) (length b) = z.
Proof.
  intros Hl Hz. unfold u32_at. rewrite <- Hl, drop_app_length.
  rewrite take_app_le by (by rewrite length_le_bytes). rewrite take_ge by (by rewrite length_le_bytes).
  by apply le_word_bytes.
Qed.

Lemma wrap_s_u w z : - 2 ^ (w - 1) <= z < 2 ^ (w - 1) -> 0 < w -> wrap_s w (wrap_u w z) = z.
Proof.
  intros Hz Hw. unfold wrap_s, wrap_u. assert (Hp : 2 ^ w = 2 * 2 ^ (w - 1)).
  { rewrite <- Z.pow_succ_r by lia. f_equal. lia. }
  rewrite Z.add_mod_idemp_l by lia. rewrite Z.mod_small by lia. lia.
Qed.

(** Decoding reads back the four words; the name too, when there is one. *)
Lemma event_at_enc ev rest :
  event_wf ev ->
  ev_wd (event_at (enc_event ev ++ rest)) = ev_wd ev /\ ev_mask (event_at (enc_event ev ++ rest)) = ev_mask ev /\
  ev_cookie (event_at (enc_event ev ++ rest)) = ev_cookie ev /\ ev_len (event_at (enc_event ev ++ rest)) = ev_len ev /\
  (0 < ev_len ev -> ev_name (event_at (enc_event ev ++ rest)) = ev_name ev).
Proof.
  intros [Hw Hm Hc Hl Hn Hf]. unfold event_at, enc_event. cbn [ev_wd ev_mask ev_cookie ev_len ev_name].
  rewrite <- !app_assoc. set (w := wrap_u 32 (ev_wd ev)).
  assert (Hw' : 0 <= w < 2 ^ 32) by (apply Z.mod_pos_bound; lia).
  repeat split.
  - unfold s32_at. rewrite (u32_at_app [] [] w _ eq_refl Hw' : u32_at (le_bytes 4 w ++ _) 0 = w). by apply wrap_s_u.
  - exact (u32_at_app (le_bytes 4 w) (replicate 4 0) (ev_mask ev) _ eq_refl Hm).
  - pose proof (u32_at_app (le_bytes 4 w ++ le_bytes 4 (ev_mask ev)) (replicate 8 0) (ev_cookie ev)) as H.
    setoid_rewrite <- app_assoc in H. apply H; [done|lia].
  - pose proof (u32_at_app (le_bytes 4 w ++ le_bytes 4 (ev_mask ev) ++ le_bytes 4 (ev_cookie ev)) (replicate 12 0)
      (ev_len ev)) as H. repeat setoid_rewrite <- app_assoc in H. apply H; [done|]. unfold NAME_MAX in Hl. lia.
  - intros Hpos. destruct Hf as [[_ ?]|Hf]; [lia|].
    change (drop 16 (le_bytes 4 w ++ ?x)) with (drop 12 x).
    set (k := (Z.to_nat (ev_len ev) - length (ev_name ev))%nat). assert (Hk : exists k', k = S k').
    { exists (pred k). unfold k. lia. }
    destruct Hk as [k' ->]. simpl. by apply cstring_nonzero.
Qed.

Lemma event_at_exact ev rest : event_wf ev -> 0 < ev_len ev -> event_at (enc_event ev ++ rest) = ev.
Proof.
  intros Hw Hl. destruct (event_at_enc ev rest Hw) as (H1 & H2 & H3 & H4 & H5). specialize (H5 Hl).
  destruct (event_at (enc_event ev ++ rest)), ev. simpl in *. congruence.
Qed.

(** ** A kernel with finitely many events *)

Definition stream (bs : bytes) : Prop := exists evs, Forall event_wf evs /\ bs = concat (map enc_event evs).

Class KernelFeed (K : Type) `{!Kernel K} := {
  pending : K -> Z;
  kf_pos : forall k, 0 <= pending k;
  kf_init : forall k, pending (sys_inotify_init k).2 <= pending k;
  kf_close : forall fd k, pending (sys_close fd k) <= pending k;
  kf_add : forall fd p fl k, pending (sys_add_watch fd p fl k).2 <= pending k;
  kf_rm : forall fd wd k, pending (sys_rm_watch fd wd k).2 <= pending k;
  kf_nftw : forall p k, pending (sys_nftw p k).2 <= pending k;
  (* a read fails, or delivers whole events, no more bytes than asked for *)
  kf_read : forall fd n k r bs e k', sys_read_events fd n k = (r, bs, e, k') ->
    (r = -1 /\ bs = [] /\ pending k' <= pending k) \/
    (r = Z.of_nat (length bs) /\ r <= n /\ stream bs /\ pending k' + r <= pending k)
}.

(** ** Running to an end *)

Section Tame.
Context {K : Type} `{!Kernel K} `{!KernelFeed K}.
Abbreviation St := (@state K).
Abbreviation Prog := (@N K).

(** The run ends: it returns as [Q] says, or stops the program. *)
Definition twp {A} (m : Prog A) (Q : A -> St -> Prop) (s : St) : Prop :=
  match m s with Ret a s' => Q a s' | NoFuel => False | _ => True end.

(** The run ends and leaves no more pending bytes than there were. *)
Definition tame {A} (m : Prog A) : Prop :=
  forall s, twp m (fun _ s' => pending (kernel s') <= pending (kernel s)) s.

Lemma twp_bind {A B} (m : Prog A) (k : A -> Prog B) Q s :
  twp m (fun a s' => twp (k a) Q s') s -> twp (m ≫= k) Q s.
Proof. unfold twp, mbind, N_bind. by destruct (m s). Qed.
Lemma twp_mono {A} (m : Prog A) (Q Q' : A -> St -> Prop) s :
  twp m Q s -> (forall a s', Q a s' -> Q' a s') -> twp m Q' s.
Proof. unfold twp. destruct (m s); auto. Qed.
Lemma twp_ret {A} (a : A) Q s : Q a s -> twp (mret a) Q s.
Proof. done. Qed.
Lemma twp_tame {A} (m : Prog A) Q s :
  tame m -> (forall a s', pending (kernel s') <= pending (kernel s) -> Q a s') -> twp m Q s.
Proof. intros Hm HQ. eapply twp_mono; [apply Hm|]. auto. Qed.

Lemma tm_bind {A B} (m : Prog A) (k : A -> Prog B) : tame m -> (forall a, tame (k a)) -> tame (m ≫= k).
Proof.
  intros Hm Hk s. apply twp_bind, twp_tame; [done|]. intros a s1 H1. apply twp_tame; [done|]. intros b s2 H2. lia.
Qed.
Lemma tm_ret {A} (a : A) : tame (mret a).
Proof. intros s. apply Z.le_refl. Qed.
Lemma tm_get : tame get.
Proof. intros s. apply Z.le_refl. Qed.
Lemma tm_modify f : (forall s, kernel (f s) = kernel s) -> tame (modify f).
Proof. intros H s. unfold twp, modify. rewrite H. apply Z.le_refl. Qed.
Lemma tm_exit {A} c : tame (A := A) (exit c).
Proof. by intros s. Qed.
Lemma tm_abort {A} : tame (A := A) abort.
Proof. by intros s. Qed.
Lemma tm_undef {A} w : tame (A := A) (undef w).
Proof. by intros s. Qed.
Lemma tm_sys {A} (f : K -> A * K) : (forall k, pending (f k).2 <= pending k) -> tame (sys f).
Proof. intros H s. unfold twp, sys. specialize (H (kernel s)). by destruct (f (kernel s)). Qed.
Lemma tm_if {A} (b : bool) (m1 m2 : Prog A) : tame m1 -> tame m2 -> tame (if b then m1 else m2).
Proof. by destruct b. Qed.
End Tame.

Create HintDb tame.

Ltac tame_step :=
  lazymatch goal with
  | |- tame (mret _) => apply tm_ret
  | |- tame get => apply tm_get
  | |- tame (modify _) => apply tm_modify; intros ?; reflexivity
  | |- tame (emit _) => apply tm_modify; intros ?; reflexivity
  | |- tame (exit _) => apply tm_exit
  | |- tame abort => apply tm_abort
  | |- tame (undef _) => apply tm_undef
  | |- tame (errExit _) => unfold errExit
  | |- tame (_ ≫= _) => apply tm_bind; [|intros ?]
  | |- tame (if _ then _ else _) => apply tm_if
  | |- tame (let '(_, _) := ?x in _) => destruct x
  | |- tame (match ?x with Some _ => _ | None => _ end) => destruct x
  | |- _ => solve [eauto 4 with tame]
  end.
Ltac tame_tac := repeat tame_step.

Section TameCalls.
Context {K : Type} `{!Kernel K} `{!KernelFeed K}.

Lemma tm_log vb fmt args : tame (K := K) (logMessage vb fmt args).
Proof. unfold logMessage. tame_tac. Qed.
Hint Resolve tm_log : tame.
Lemma tm_note b fmt args : tame (K := K) (note_if b fmt args).
Proof. unfold note_if. tame_tac. Qed.
Hint Resolve tm_note : tame.
Lemma tm_display ev : tame (K := K) (displayInotifyEvent ev).
Proof. unfold displayInotifyEvent. tame_tac. Qed.
Lemma tm_check_loop l f : tame (K := K) (check_loop l f).
Proof. revert f. induction l as [|[j w] l IH]; intros f; cbn [check_loop]; tame_tac. Qed.
Hint Resolve tm_display tm_check_loop : tame.
Lemma tm_check : tame (K := K) checkCacheConsistency.
Proof. unfold checkCacheConsistency. tame_tac. Qed.
Lemma tm_dump_lines l : tame (K := K) (dump_lines l).
Proof. induction l as [|[j w] l IH]; cbn [dump_lines]; tame_tac. Qed.
Hint Resolve tm_check tm_dump_lines : tame.
Lemma tm_dump : tame (K := K) dumpCacheToLog.
Proof. unfold dumpCacheToLog. tame_tac. Qed.
Hint Resolve tm_dump : tame.
Lemma tm_stop A : tame (K := K) (createStopFileAndAbort (A := A)).
Proof. unfold createStopFileAndAbort. tame_tac. Qed.
Hint Resolve tm_stop : tame.
Lemma tm_findWatchChecked wd : tame (K := K) (findWatchChecked wd).
Proof. unfold findWatchChecked, findWatch. tame_tac. Qed.
Lemma tm_mark j : tame (K := K) (markCacheSlotEmpty j).
Proof. unfold markCacheSlotEmpty. tame_tac. Qed.
Hint Resolve tm_findWatchChecked tm_mark : tame.
Lemma tm_mark_range n j : tame (K := K) (mark_range n j).
Proof. revert j. induction n as [|n IH]; intros j; cbn [mark_range]; tame_tac. Qed.
Hint Resolve tm_mark_range : tame.
Lemma tm_addWatch wd p : tame (K := K) (addWatchToCache wd p).
Proof. unfold addWatchToCache, findEmptyCacheSlot. tame_tac. Qed.
Lemma tm_isRoot p : tame (K := K) (isRootDirPath p).
Proof. unfold isRootDirPath, findRootDirPath. tame_tac. Qed.
Lemma tm_zapRoot p : tame (K := K) (zapRootDirPath p).
Proof. unfold zapRootDirPath, findRootDirPath. tame_tac. Qed.
Lemma tm_sys_add fd p fl : tame (K := K) (sys (sys_add_watch fd p fl)).
Proof. apply tm_sys. intros k. apply kf_add. Qed.
Lemma tm_sys_rm fd wd : tame (K := K) (sys (sys_rm_watch fd wd)).
Proof. apply tm_sys. intros k. apply kf_rm. Qed.
Lemma tm_sys_nftw p : tame (K := K) (sys (sys_nftw p)).
Proof. apply tm_sys. intros k. apply kf_nftw. Qed.
Lemma tm_sys_init : tame (K := K) (sys sys_inotify_init).
Proof. apply tm_sys. intros k. apply kf_init. Qed.
Lemma tm_sys_close fd : tame (K := K) (sys (fun k => (tt, sys_close fd k))).
Proof. apply tm_sys. intros k. apply kf_close. Qed.
Hint Resolve tm_addWatch tm_isRoot tm_zapRoot tm_sys_add tm_sys_rm tm_sys_nftw tm_sys_init tm_sys_close : tame.
Lemma tm_traverse p sb : tame (K := K) (traverseTree p sb).
Proof. unfold traverseTree, findWatch. tame_tac. Qed.
Hint Resolve tm_traverse : tame.
Lemma tm_walk l : tame (K := K) (nftw_walk l).
Proof. induction l as [|[p sb] l IH]; cbn [nftw_walk]; tame_tac. Qed.
Hint Resolve tm_walk : tame.
Lemma tm_watchSubtree fd p : tame (K := K) (watchSubtree fd p).
Proof. unfold watchSubtree, watchDir. tame_tac. Qed.
Hint Resolve tm_watchSubtree : tame.
Lemma tm_rewrite_loop n j a b : tame (K := K) (rewrite_loop n j a b).
Proof. revert j. induction n as [|n IH]; intros j; cbn [rewrite_loop]; tame_tac. Qed.
Lemma tm_zap_loop n j fd p c : tame (K := K) (zap_loop n j fd p c).
Proof. revert j c. induction n as [|n IH]; intros j c; cbn [zap_loop]; tame_tac. Qed.
Hint Resolve tm_rewrite_loop tm_zap_loop : tame.
Lemma tm_rewrite a b c d : tame (K := K) (rewriteCachedPaths a b c d).
Proof. unfold rewriteCachedPaths. tame_tac. Qed.
Lemma tm_zap fd p : tame (K := K) (zapSubtree fd p).
Proof. unfold zapSubtree. tame_tac. Qed.
Lemma tm_watch_roots r fd : tame (K := K) (watch_roots r fd).
Proof. induction r as [|[p|] r IH]; cbn [watch_roots]; tame_tac. Qed.
Hint Resolve tm_rewrite tm_zap tm_watch_roots : tame.
Lemma tm_reinitialize fd : tame (K := K) (reinitialize fd).
Proof. unfold reinitialize, freeCache. tame_tac. Qed.
Lemma tm_path slot : tame (K := K) (path_of_slot slot).
Proof. unfold path_of_slot. tame_tac. Qed.
Hint Resolve tm_reinitialize tm_path : tame.
End TameCalls.

#[export] Hint Resolve tm_log tm_note tm_display tm_check tm_dump tm_findWatchChecked tm_mark tm_isRoot tm_zapRoot
  tm_watchSubtree tm_rewrite tm_zap tm_reinitialize tm_path : tame.

Section Loop.
Context {K : Type} `{!Kernel K} `{!KernelFeed K}.
Abbreviation St := (@state K).

(** What [processNextInotifyEvent] may return for the event at the start of
    [buf], [bs] bytes being left. *)
Definition reply (buf : bytes) (bs : Z) (ft : bool) (n : Z) : Prop :=
  let evLen := SIZEOF_EVENT + ev_len (event_at buf) in
  n = INOTIFY_READ_BUF_LEN \/ n = evLen \/
  (evLen < bs /\ n = wrap_u 64 (evLen + SIZEOF_EVENT + ev_len (event_at (drop (Z.to_nat evLen) buf)))) \/
  (n = wrap_u 64 (-1) /\ ft = true /\ bs <= evLen).

Definition handled_val (h : handled) : Z := match h with Consumed n | Return n => n end.

(** The run ends with a value that satisfies [P], pending bytes not growing. *)
Definition ends {A} (P : A -> Prop) (m : @N K A) : Prop :=
  forall s, twp m (fun a s' => P a /\ pending (kernel s') <= pending (kernel s)) s.

Lemma ends_ret {A} (P : A -> Prop) a : P a -> ends P (mret a).
Proof. intros H s. apply twp_ret. split; [done|apply Z.le_refl]. Qed.
Lemma ends_bind {A B} (P : B -> Prop) (m : @N K A) (k : A -> @N K B) :
  tame m -> (forall a, ends P (k a)) -> ends P (m ≫= k).
Proof.
  intros Hm Hk s. apply twp_bind, twp_tame; [done|]. intros a s1 H1.
  eapply twp_mono; [apply Hk|]. intros b s2 [Hb H2]. split; [done|lia].
Qed.
Lemma ends_if {A} (P : A -> Prop) (b : bool) (m1 m2 : @N K A) :
  (b = true -> ends P m1) -> (b = false -> ends P m2) -> ends P (if b then m1 else m2).
Proof. destruct b; auto. Qed.
Lemma ends_seq {A B} (P : A -> Prop) (Q : B -> Prop) (m : @N K A) (k : A -> @N K B) :
  ends P m -> (forall a, P a -> ends Q (k a)) -> ends Q (m ≫= k).
Proof.
  intros Hm Hk s. apply twp_bind. eapply twp_mono; [apply Hm|]. intros a s1 [Ha H1].
  eapply twp_mono; [by apply Hk|]. intros b s2 [Hb H2]. split; [done|lia].
Qed.
End Loop.

Ltac ends_step :=
  lazymatch goal with
  | |- ends _ (mret _) => apply ends_ret
  | |- ends _ (_ ≫= _) => apply ends_bind; [solve [tame_tac]|intros ?]
  | |- ends _ (if _ then _ else _) => apply ends_if; intros ?
  | |- ends _ (let '(_, _) := ?x in _) => destruct x
  end.
Ltac ends_tac := repeat (ends_step; cbn beta iota).

Section Loop2.
Context {K : Type} `{!Kernel K} `{!KernelFeed K}.
Abbreviation St := (@state K).

Lemma dispatch_reply fd buf bs slot ft :
  ends (K := K) (fun r => reply buf bs ft (handled_val (fst r)))
    (dispatch fd buf bs (event_at buf) slot (SIZEOF_EVENT + ev_len (event_at buf)) ft).
Proof.
  assert (Hlost : forall fd, ends (K := K) (fun r : handled * Z => reply buf bs ft (handled_val (fst r))) (cache_lost fd)).
  { intros fd0. unfold cache_lost. ends_tac. by left. }
  assert (Hev : forall fd : Z, reply buf bs ft (handled_val (fst (Consumed (SIZEOF_EVENT + ev_len (event_at buf)), fd)))).
  { intros fd0. right. by left. }
  unfold dispatch, ev_moved_from. ends_tac.
  - unfold ev_dir_created, pathnameInCache, pathnameToCacheSlot. ends_tac. apply Hev.
  - unfold ev_delete_self. ends_tac. apply Hev.
  - unfold ev_renamed. ends_tac; [apply Hlost|]. right. right. left. simpl. bool_to_prop. done.
  - unfold ev_moved_out. ends_tac; [apply Hlost|apply Hev].
  - bool_to_prop. right. right. right. split; [done|]. split; [by destruct ft|done].
  - unfold ev_overflow. ends_tac. by left.
  - unfold ev_unmount. ends_tac. apply Hev.
  - unfold ev_move_self. ends_tac; [apply Hev|apply Hlost|apply Hev].
  - apply Hev.
Qed.

Lemma process_reply fd buf bs ft :
  ends (K := K) (fun r => reply buf bs ft (fst r)) (processNextInotifyEvent fd buf bs ft).
Proof.
  unfold processNextInotifyEvent. ends_tac; [by left|].
  eapply ends_seq; [apply dispatch_reply|]. intros [h fd'] Hr. simpl in Hr. destruct h as [n|n]; ends_tac; exact Hr.
Qed.

(** ** The loop *)

Definition fuel_for (left pend : Z) (ft : bool) : nat :=
  Z.to_nat (2 * (Z.max 0 left + pend) + if ft then 1 else 0).

(** The rest of the buffer: whole events, or (after an interrupted read) the
    event that is tried again, its last byte not counted. *)
Definition rest_ok (buf : bytes) (evp numRead : Z) (ft : bool) : Prop :=
  numRead <= evp \/
  (exists evs, Forall event_wf evs /\ slice buf (Z.to_nat evp) (Z.to_nat (numRead - evp)) = concat (map enc_event evs)) \/
  (exists ev, event_wf ev /\ ft = false /\ numRead - evp = Z.of_nat (length (enc_event ev)) - 1 /\
     slice buf (Z.to_nat evp) (length (enc_event ev)) = enc_event ev).

Lemma slice_split (buf a b : bytes) off n :
  slice buf off n = a ++ b -> (n <= length buf - off)%nat ->
  drop off buf = a ++ drop (length a) (drop off buf) /\
  slice buf (off + length a) (n - length a) = b /\ (length a <= n)%nat.
Proof.
  unfold slice. intros H Hn. pose proof (f_equal length H) as Hl.
  rewrite length_take, length_drop, length_app in Hl.
  assert (Ha : take (length a) (drop off buf) = a).
  { apply (f_equal (take (length a))) in H. rewrite take_take, take_app_length in H.
    by replace (length a `min` n)%nat with (length a) in H by lia. }
  split; [by rewrite <- Ha at 1; rewrite take_drop|]. split; [|lia].
  apply (f_equal (drop (length a))) in H. rewrite drop_app_length in H.
  rewrite <- H, skipn_firstn_comm, drop_drop. by f_equal.
Qed.

Lemma enc_event_size ev : event_wf ev -> 16 <= Z.of_nat (length (enc_event ev)) <= 272.
Proof. intros Hw. rewrite length_enc_event by done. destruct Hw as [_ _ _ Hl _ _]. unfold SIZEOF_EVENT, NAME_MAX in *. lia. Qed.

Lemma wrap_small n : 0 <= n < 2 ^ 31 -> wrap_s 32 n = n /\ wrap_u 64 n = n.
Proof. intros H. unfold wrap_s, wrap_u. rewrite !Z.mod_small by lia. lia. Qed.

Lemma rest_ok_stream buf numRead ft bs rest :
  buf = bs ++ rest -> stream bs -> numRead = Z.of_nat (length bs) -> rest_ok buf 0 numRead ft.
Proof.
  intros -> (evs & Hwf & ->) ->. right. left. exists evs. split; [done|].
  unfold slice. rewrite drop_0, Z.sub_0_r, Nat2Z.id. by rewrite take_app_length.
Qed.

(** One turn that consumes [n] bytes. *)
Lemma consumed buf evp numRead ft n :
  Z.of_nat (length buf) = INOTIFY_READ_BUF_LEN -> 0 <= evp < numRead -> numRead <= INOTIFY_READ_BUF_LEN ->
  rest_ok buf evp numRead ft -> reply (drop (Z.to_nat evp) buf) (numRead - evp) ft n ->
  (wrap_s 32 n = n /\ 16 <= n /\ rest_ok buf (evp + n) numRead true) \/
  (wrap_s 32 n = -1 /\ ft = true /\ exists ev, event_wf ev /\
     take (Z.to_nat (numRead - evp)) (drop (Z.to_nat evp) buf) = enc_event ev).
Proof.
  intros Hlen Hevp Hnr Hrest Hreply.
  assert (Hbig : n = INOTIFY_READ_BUF_LEN -> wrap_s 32 n = n /\ 16 <= n /\ rest_ok buf (evp + n) numRead true).
  { intros ->. split; [done|]. split; [done|]. left. lia. }
  destruct Hrest as [?|[(evs & Hwf & Hs)|(ev & Hwf & -> & Hleft & Hs)]]; [lia| |].
  - destruct evs as [|ev evs].
    { apply (f_equal length) in Hs. rewrite length_slice in Hs. simpl in Hs. lia. }
    apply Forall_cons in Hwf as [Hw Hwf]. cbn [map concat] in Hs.
    apply slice_split in Hs as (Hd & Hs & Hle); [|lia].
    destruct (event_at_enc ev (drop (length (enc_event ev)) (drop (Z.to_nat evp) buf)) Hw) as (_ & _ & _ & Hel & _).
    pose proof (enc_event_size ev Hw) as Hsz. pose proof (length_enc_event ev Hw) as Hle'.
    unfold reply in Hreply. rewrite Hd in Hreply. rewrite Hel, <- Hle', Nat2Z.id, drop_app_length in Hreply.
    destruct Hreply as [Hn|[Hn|[[Hlt Hn]|(Hn & Hft & Hlt)]]]; [by left; apply Hbig| | |].
    + left. subst n. destruct (wrap_small (Z.of_nat (length (enc_event ev)))) as [-> _]; [lia|].
      split; [done|]. split; [lia|]. right. left. exists evs. split; [done|]. rewrite <- Hs. f_equal; lia.
    + destruct evs as [|ev2 evs].
      { apply (f_equal length) in Hs. rewrite length_slice in Hs. cbn [map concat length] in Hs. lia. }
      apply Forall_cons in Hwf as [Hw2 Hwf]. cbn [map concat] in Hs.
      apply slice_split in Hs as (Hd2 & Hs2 & Hle2); [|lia].
      rewrite drop_drop in Hn. rewrite Hd2 in Hn.
      destruct (event_at_enc ev2 (drop (length (enc_event ev2)) (drop (Z.to_nat evp + length (enc_event ev)) buf)) Hw2)
        as (_ & _ & _ & Hel2 & _).
      rewrite Hel2 in Hn. pose proof (enc_event_size ev2 Hw2). pose proof (length_enc_event ev2 Hw2).
      rewrite <- Z.add_assoc, <- (length_enc_event ev2 Hw2) in Hn.
      destruct (wrap_small (Z.of_nat (length (enc_event ev)) + Z.of_nat (length (enc_event ev2)))) as [Hws Hwu]; [lia|].
      rewrite Hwu in Hn. subst n. left. split; [done|]. split; [lia|]. right. left. exists evs. split; [done|].
      rewrite <- Hs2. f_equal; lia.
    + right. subst n. split; [done|]. split; [done|]. exists ev. split; [done|].
      replace (Z.to_nat (numRead - evp)) with (length (enc_event ev)) by lia. rewrite Hd. by rewrite take_app_length.
  - rewrite <- (app_nil_r (enc_event ev)) in Hs at 2. pose proof (enc_event_size ev Hwf) as Hsz.
    assert (Hd : drop (Z.to_nat evp) buf = enc_event ev ++ drop (length (enc_event ev)) (drop (Z.to_nat evp) buf)).
    { rewrite app_nil_r in Hs. unfold slice in Hs. by rewrite <- Hs at 1; rewrite take_drop. }
    destruct (event_at_enc ev (drop (length (enc_event ev)) (drop (Z.to_nat evp) buf)) Hwf) as (_ & _ & _ & Hel & _).
    unfold reply in Hreply. rewrite Hd in Hreply. rewrite Hel, <- (length_enc_event ev Hwf) in Hreply.
    destruct Hreply as [Hn|[Hn|[[Hlt _]|(_ & Hft & _)]]]; [by left; apply Hbig| |lia|done].
    left. subst n. destruct (wrap_small (Z.of_nat (length (enc_event ev)))) as [-> _]; [lia|].
    split; [done|]. split; [lia|]. left. lia.
Qed.

Lemma twp_sys {A} (f : K -> A * K) Q (s : St) :
  (forall a k, f (kernel s) = (a, k) -> Q a (set_kernel k s)) -> twp (sys f) Q s.
Proof. intros HQ. unfold twp, sys. destruct (f (kernel s)) as [a k]. by apply HQ. Qed.

Lemma twp_get Q (s : St) : Q s s -> twp get Q s.
Proof. done. Qed.

Lemma fuel_step left left' pend pend' ft ft' fuel :
  0 < left -> 0 <= pend' -> pend' <= pend ->
  (left' + 1 <= left \/ (left' + pend' <= left + pend /\ 0 <= left' /\ ft = true /\ ft' = false)) ->
  (fuel_for left pend ft <= S fuel)%nat -> (fuel_for left' pend' ft' <= fuel)%nat.
Proof. unfold fuel_for. intros H1 H2 H3 H4 H5. destruct ft, ft'; lia. Qed.

(** The second read: what is left of the buffer is the one event, moved to its
    start, with the new bytes behind it. *)
Lemma second_read ev buf bs r left :
  event_wf ev -> Z.of_nat (length buf) = INOTIFY_READ_BUF_LEN -> left = Z.of_nat (length (enc_event ev)) ->
  (r = -1 /\ bs = []) \/ (r = Z.of_nat (length bs) /\ r <= INOTIFY_READ_BUF_LEN - left /\ stream bs) ->
  let buf' := splice (splice buf 0 (enc_event ev)) (Z.to_nat left) bs in
  Z.of_nat (length buf') = INOTIFY_READ_BUF_LEN /\
  rest_ok buf' 0 left false /\ rest_ok buf' 0 (left + r) false /\ left + r <= INOTIFY_READ_BUF_LEN.
Proof.
  intros Hw Hlen -> Hr buf'. pose proof (enc_event_size ev Hw) as Hsz.
  assert (Hl0 : INOTIFY_READ_BUF_LEN = 27200) by done.
  assert (Hb : buf' = enc_event ev ++ bs ++ drop (length bs) (drop (length (enc_event ev)) buf)).
  { unfold buf'. by rewrite splice_start, Nat2Z.id, splice_mid. }
  assert (Hst : stream (enc_event ev)).
  { exists [ev]. split; [by constructor|]. simpl. by rewrite app_nil_r. }
  split; [|split; [|split]].
  - rewrite Hb, !length_app, !length_drop. destruct Hr as [[_ ->]|(-> & ? & _)]; [cbn [length]|]; lia.
  - by eapply rest_ok_stream; [exact Hb|exact Hst|].
  - destruct Hr as [[-> ->]|(-> & Hle & evs & Hwf & ->)].
    + right. right. exists ev. split; [done|]. split; [done|]. split; [lia|]. rewrite Hb.
      unfold slice. rewrite drop_0. by rewrite take_app_length.
    + eapply (rest_ok_stream _ _ _ (enc_event ev ++ concat (map enc_event evs))); [by rewrite <- app_assoc| |].
      * exists (ev :: evs). split; [by constructor|done].
      * rewrite length_app. lia.
  - destruct Hr as [[-> _]|(_ & ? & _)]; lia.
Qed.

Lemma loop_ends fuel fd buf evp numRead ft (s : St) :
  Z.of_nat (length buf) = INOTIFY_READ_BUF_LEN -> 0 <= evp -> numRead <= INOTIFY_READ_BUF_LEN ->
  rest_ok buf evp numRead ft -> (fuel_for (numRead - evp) (pending (kernel s)) ft <= fuel)%nat ->
  twp (events_loop fuel fd buf evp numRead ft) (fun _ _ => True) s.
Proof.
  revert fd buf evp numRead ft s. induction fuel as [|fuel IH]; intros fd buf evp numRead ft s Hlen Hevp Hnr Hrest Hfuel;
    cbn [events_loop]; destruct (Z.ltb_spec evp numRead) as [Hlt|]; simpl; try done.
  { unfold fuel_for in Hfuel. pose proof (kf_pos (kernel s)). destruct ft; lia. }
  apply twp_bind. eapply twp_mono; [apply process_reply|]. intros [n fd'] s1 [Hreply Hp1]. simpl in Hreply.
  pose proof (kf_pos (kernel s1)) as Hpos1.
  destruct (consumed buf evp numRead ft n Hlen ltac:(lia) Hnr Hrest Hreply) as [(Hn & Hge & Hrest')|(Hn & -> & ev & Hw & Hev)];
    rewrite Hn.
  - destruct (Z.ltb_spec 0 n) as [_|]; [|lia]. apply IH; [done|lia|done|done|].
    eapply (fuel_step (numRead - evp) _ (pending (kernel s))); [lia|lia|lia|left; lia|exact Hfuel].
  - simpl. rewrite Hev. apply twp_bind, twp_sys. intros [[r bs] e] k Hread.
    assert (Hleft : numRead - evp = Z.of_nat (length (enc_event ev))).
    { rewrite <- Hev, length_take, length_drop. lia. }
    pose proof (kf_read _ _ _ _ _ _ _ Hread) as Hkr. pose proof (kf_pos k) as Hposk.
    assert (Hr : (r = -1 /\ bs = []) \/ (r = Z.of_nat (length bs) /\ r <= INOTIFY_READ_BUF_LEN - (numRead - evp) /\ stream bs)) by tauto.
    assert (Hpk : pending k <= pending (kernel s1) /\ (numRead - evp + r) + pending k <= numRead - evp + pending (kernel s1) /\ -1 <= r).
    { destruct Hkr as [(-> & _ & ?)|(-> & _ & _ & ?)]; lia. }
    destruct (second_read ev buf bs r (numRead - evp) Hw Hlen Hleft Hr) as (Hl2 & Hok1 & Hok2 & Hle2).
    pose proof (enc_event_size ev Hw) as Hsz.
    destruct ((r =? -1) && negb (e =? EINTR)); [done|]. destruct (r =? 0); [done|].
    destruct (negb (e =? -1)).
    + apply twp_bind, twp_tame; [tame_tac|]. intros _ s2 H2. apply twp_bind, twp_tame; [tame_tac|]. intros s2' s3 H3.
      apply twp_bind, twp_tame; [tame_tac|]. intros _ s4 H4. simpl in H2. pose proof (kf_pos (kernel s4)).
      apply IH; [done|lia|done|done|]. rewrite Z.sub_0_r.
      eapply (fuel_step (numRead - evp) _ (pending (kernel s))); [lia|lia|lia|right; split; [lia|]; split; [lia|done]|exact Hfuel].
    + apply twp_bind, twp_tame; [tame_tac|]. intros _ s2 H2. simpl in H2. pose proof (kf_pos (kernel s2)).
      apply IH; [done|lia|lia|done|]. rewrite Z.sub_0_r.
      eapply (fuel_step (numRead - evp) _ (pending (kernel s))); [lia|lia|lia|right; split; [lia|]; split; [lia|done]|exact Hfuel].
Qed.

(** Enough turns for one call: the bytes of the first read and those pending. *)
Definition enough (s : St) : nat := Z.to_nat (2 * pending (kernel s) + 1).

Lemma processEvents_ends junk fd fuel (s : St) :
  Z.of_nat (length junk) = INOTIFY_READ_BUF_LEN ->
  (enough s <= fuel)%nat -> twp (processInotifyEvents fuel junk fd) (fun _ _ => True) s.
Proof.
  intros Hj Hfuel. unfold processInotifyEvents. apply twp_bind, twp_get, twp_bind, twp_sys.
  intros [[r bs] e] k Hread. pose proof (kf_read _ _ _ _ _ _ _ Hread) as Hkr. pose proof (kf_pos k) as Hposk.
  destruct (Z.eqb_spec r (-1)); [done|]. destruct Hkr as [(? & _)|(-> & Hle & Hst & Hp)]; [done|].
  destruct (_ =? 0); [done|]. destruct (Z.ltb_spec INOTIFY_READ_BUF_LEN (Z.of_nat (length bs))) as [|Hfit]; [done|].
  apply twp_bind, twp_tame; [tame_tac|]. intros _ s2 H2. apply twp_bind, twp_tame; [tame_tac|]. intros s2' s3 H3.
  apply twp_bind, twp_tame; [tame_tac|]. intros _ s4 H4. simpl in H2. pose proof (kf_pos (kernel s4)).
  apply loop_ends.
  - rewrite splice_start, length_app, length_drop. lia.
  - lia.
  - done.
  - by eapply rest_ok_stream; [apply splice_start|exact Hst|].
  - unfold fuel_for, enough in *. lia.
Qed.
End Loop2.
