(* ===== verification/InotifyToy.v ===== *)
(** * InotifyToy: a small kernel for inotify_dtree.c.

    Directories are a list of pathnames, watches a table, and reads are served
    from a queue of prepared batches of events.  It satisfies [KernelOk] and
    [KernelFeed], so what is proved from those classes can be exercised. *)
From S2P Require Import Prelude Libc Files Inotify InotifyCache InotifyLoop.
Local Open Scope Z_scope.

Record toy := mkToy {
  t_dirs : list bytes;
  t_watches : list (bytes * Z);
  t_next : Z;
  t_reads : list (list inotify_event);
  t_input : list bytes
}.

(** An event with its fields brought into range. *)
Definition norm_event (ev : inotify_event) : inotify_event :=
  let name := take 255 (filter (fun c => c <> 0) (ev_name ev)) in
  mkEv (wrap_s 32 (ev_wd ev)) (wrap_u 32 (ev_mask ev)) (wrap_u 32 (ev_cookie ev))
    (if bool_decide (name = []) then 0 else 256) name.

Definition batch (evs : list inotify_event) : bytes := concat (map enc_event (map norm_event evs)).

Definition toy_find (p : bytes) (k : toy) : option Z :=
  match list_find (fun w => w.1 = p) (t_watches k) with Some (_, w) => Some w.2 | None => None end.

Definition toy_add (p : bytes) (k : toy) : Z * Z * toy :=
  if bool_decide (p ∈ t_dirs k) && (Z.of_nat (length p) <? PATH_MAX) then
    match toy_find p k with
    | Some wd => (Z.max 0 wd, 0, k)
    | None => (Z.max 0 (t_next k), 0,
               mkToy (t_dirs k) (t_watches k ++ [(p, Z.max 0 (t_next k))]) (Z.max 0 (t_next k) + 1) (t_reads k) (t_input k))
    end
  else (-1, ENOENT, k).

Definition toy_rm (wd : Z) (k : toy) : Z * toy :=
  if existsb (fun w => w.2 =? wd) (t_watches k)
  then (0, mkToy (t_dirs k) (filter (fun w => w.2 <> wd) (t_watches k)) (t_next k) (t_reads k) (t_input k))
  else (-1, k).

(** nftw visits the directories below a pathname. *)
Definition toy_nftw (p : bytes) (k : toy) : list (bytes * stat) * Z * toy :=
  let l := filter (fun d => in_subtree p d = true /\ no_nul d) (t_dirs k) in
  (map (fun d => (d, mkStat true 1 1)) l, (if bool_decide (l = []) then -1 else 0), k).

Definition toy_read (n : Z) (k : toy) : Z * bytes * Z * toy :=
  match t_reads k with
  | evs :: rest =>
    if Z.of_nat (length (batch evs)) <=? n
    then (Z.of_nat (length (batch evs)), batch evs, 0, mkToy (t_dirs k) (t_watches k) (t_next k) rest (t_input k))
    else (-1, [], EINTR, k)
  | [] => (-1, [], EINTR, k)
  end.

#[export] Instance toy_kernel : Kernel toy := {|
  sys_inotify_init := fun k => (3, mkToy (t_dirs k) [] (t_next k) (t_reads k) (t_input k));
  sys_close := fun _ k => k;
  sys_add_watch := fun _ p _ k => toy_add p k;
  sys_rm_watch := fun _ wd k => toy_rm wd k;
  sys_nftw := toy_nftw;
  sys_lstat := fun p k =>
    match list_find (fun d => d = p) (t_dirs k) with Some (i, _) => Some (mkStat true (Z.of_nat i) 1) | None => None end;
  sys_read_events := fun _ n k => toy_read n k;
  sys_read_stdin := fun n k =>
    match t_input k with
    | l :: rest => (Z.of_nat (length (take (Z.to_nat n) l)), take (Z.to_nat n) l,
                    mkToy (t_dirs k) (t_watches k) (t_next k) (t_reads k) rest)
    | [] => (0, [], k)
    end;
  sys_fopen := fun _ _ => true
|}.

#[export] Instance toy_ok : KernelOk toy.
Proof.
  split.
  - intros fd p fl k wd e k'. simpl. unfold toy_add.
    destruct (bool_decide (p ∈ t_dirs k)); simpl; [|intros [= <- _ _]; by left].
    destruct (Z.ltb_spec (Z.of_nat (length p)) PATH_MAX); [|intros [= <- _ _]; by left].
    destruct (toy_find p k); intros [= <- _ _]; right; lia.
  - intros p k l r k' [= <- _ _] _. apply Forall_map, Forall_forall. intros d Hd.
    apply list_elem_of_filter in Hd as [[_ Hd] _]. done.
Qed.

Lemma norm_event_wf ev : event_wf (norm_event ev).
Proof.
  assert (Hn : no_nul (take 255 (filter (fun c => c <> 0) (ev_name ev)))).
  { apply Forall_take, Forall_forall. intros c Hc. by apply list_elem_of_filter in Hc as [? _]. }
  split; cbn [norm_event ev_wd ev_mask ev_cookie ev_len ev_name].
  - unfold wrap_s. pose proof (Z.mod_pos_bound (ev_wd ev + 2 ^ (32 - 1)) (2 ^ 32) ltac:(lia)). lia.
  - apply Z.mod_pos_bound. lia.
  - apply Z.mod_pos_bound. lia.
  - unfold NAME_MAX. case_bool_decide; lia.
  - done.
  - case_bool_decide as H; [by left|right]. rewrite length_take. lia.
Qed.

Lemma batch_stream evs : stream (batch evs).
Proof. exists (map norm_event evs). split; [|done]. apply Forall_map, Forall_true. intros ev. apply norm_event_wf. Qed.

Definition toy_pending (k : toy) : Z := Z.of_nat (sum_list (map (fun evs => length (batch evs)) (t_reads k))).

#[export, refine] Instance toy_feed : KernelFeed toy := {| pending := toy_pending |}.
Proof.
  - intros k. unfold toy_pending. lia.
  - intros k. simpl. unfold toy_pending. simpl. lia.
  - intros fd k. simpl. lia.
  - intros fd p fl k. simpl. unfold toy_add. destruct (_ && _); [|simpl; lia].
    destruct (toy_find p k); unfold toy_pending; simpl; lia.
  - intros fd wd k. simpl. unfold toy_rm. destruct (existsb _ _); unfold toy_pending; simpl; lia.
  - intros p k. simpl. lia.
  - intros fd n k r bs e k'. simpl. unfold toy_read, toy_pending. destruct (t_reads k) as [|evs rest] eqn:E.
    + intros [= <- <- _ <-]. left. rewrite E. done.
    + destruct (Z.leb_spec (Z.of_nat (length (batch evs))) n); intros [= <- <- _ <-].
      * right. split; [done|]. split; [done|]. split; [apply batch_stream|]. cbn [t_reads map sum_list foldr]. simpl. lia.
      * left. rewrite E. done.
Defined.

(** The program before [main], over a toy kernel. *)
Definition toy_state (k : toy) : @state toy :=
  mkState [] [] [] 0 0 false false 0 None false false 0 0 0 0 0 [] k.
