(* ===== verification/InotifyTheorems.v ===== *)
(** * InotifyTheorems: what inotify_dtree.c does to its cache. *)
From S2P Require Import Prelude Libc Files Inotify InotifyCache InotifyInv InotifyLoop InotifyToy.
Local Open Scope Z_scope.

(** ** Sample runs *)

Definition sample_kernel : toy :=
  mkToy [str "t"; str "t/a"; str "t/a/x"; str "t/ab"; str "t/b"] [] 1 [] [].

(** The state after [main]'s start on the directory "t". *)
Definition sample_start : outcome Z := main_start [] [str "t"] (toy_state sample_kernel).

Definition sample : @state toy :=
  match sample_start with Ret _ s => s | _ => toy_state sample_kernel end.

(** The live entries of a cache. *)
Definition entries (c : list watch) : list (Z * bytes) := map (fun w => (w_wd w, w_path w)) (filter (fun w => 0 <= w_wd w) c).

Lemma sample_entries :
  entries (wlCache sample) = [(1, str "t"); (2, str "t/a"); (3, str "t/a/x"); (4, str "t/ab"); (5, str "t/b")].
Proof. vm_compute. reflexivity. Qed.

Lemma sample_reachable : reachable 3 sample.
Proof.
  apply (R_start (toy_state sample_kernel) [] [str "t"]).
  - repeat split.
  - repeat constructor; vm_compute; congruence.
  - vm_compute. reflexivity.
Defined.

(** ** Theorems *)

(** C3: in every state the program can reach at the top of its main loop,
    whatever events and commands it was given and whatever the kernel did, no
    watch descriptor is in two slots of the cache, every unused slot is cleared,
    every cached pathname is a terminated string shorter than PATH_MAX, and
    [ignoreRootDirs] counts the root directories struck out. *)
Theorem cache_invariant {K} `{!Kernel K} `{!KernelOk K} fd (s : @state K) :
  reachable fd s ->
  cache_ok (wlCache s) /\
  ignoreRootDirs s = Z.of_nat (length (filter (fun r => gone r = true) (rootDirPaths s))).
Proof. intros Hr. destruct (reachable_inv fd s Hr) as [Hc _ Hn]. done. Qed.

Lemma cache_invariant_witness :
  cache_ok (wlCache sample) /\ length (wlCache sample) = 200%nat.
Proof.
  split; [|vm_compute; reflexivity]. exact (proj1 (cache_invariant 3 sample sample_reachable)).
Defined.

(** [zapSubtree] returns for every cache.  When no inotify_rm_watch fails it
    empties exactly the slots in use whose pathname is the directory or lies
    below it, removes exactly their watches, in slot order, and returns their
    number; otherwise it returns -1. *)
Lemma zapSubtree_exact {K} `{!Kernel K} fd path (s : @state K) :
  let dead := filter (fun w => doomed path w = true) (wlCache s) in
  exists r s', zapSubtree fd path s = Ret r s' /\
    (rm_succeeds fd dead (kernel s) -> r = Z.of_nat (length dead)) /\
    (~ rm_succeeds fd dead (kernel s) -> r = -1) /\
    (r <> -1 -> wlCache s' = map (zapped path) (wlCache s) /\ kernel s' = rm_watches fd dead (kernel s)) /\
    rootDirPaths s' = rootDirPaths s.
Proof.
  intros dead. apply nwp_run. unfold zapSubtree. nwp_steps.
  apply (nwp_zap_loop _ _ []); [done| |].
  - intros o' Hs. fold dead in Hs |- *. simpl. repeat split; done.
  - intros o' k b1 w b2 Hb Hd Hns. fold dead in Hns. repeat split; done.
Qed.

(** The test [zapSubtree] and [rewriteCachedPaths] make on pathnames holds
    of the directory itself and of what lies below it, and of nothing else: a
    sibling whose name merely starts with the same characters is not affected. *)
Lemma in_subtree_correct pn path :
  no_nul path -> (in_subtree pn path = true <-> path = pn \/ exists r, path = pn ++ SLASH :: r).
Proof. apply in_subtree_spec. Qed.

Lemma in_subtree_correct_witness :
  (in_subtree (str "t/a") (str "t/ab") = true <-> str "t/ab" = str "t/a" \/ exists r, str "t/ab" = str "t/a" ++ SLASH :: r) /\
  in_subtree (str "t/a") (str "t/ab") = false.
Proof.
  split; [|vm_compute; reflexivity]. apply (in_subtree_correct (str "t/a") (str "t/ab")).
  repeat constructor; vm_compute; congruence.
Defined.

(** [rewriteCachedPaths] gives every entry at or below the old directory the
    pathname with the new prefix and the same rest (when it fits in PATH_MAX),
    keeps its watch descriptor and its slot, and leaves every other entry alone. *)
Lemma rewriteCachedPaths_exact {K} `{!Kernel K} op on np nn (s : @state K) :
  let old := op ++ [SLASH] ++ on in
  let new := np ++ [SLASH] ++ nn in
  cache_ok (wlCache s) -> Z.of_nat (length old) < PATH_MAX -> Z.of_nat (length new) < PATH_MAX ->
  exists s', rewriteCachedPaths op on np nn s = Ret tt s' /\ kernel s' = kernel s /\
    length (wlCache s') = length (wlCache s) /\
    forall i w, wlCache s !! i = Some w -> exists w', wlCache s' !! i = Some w' /\ w_wd w' = w_wd w /\
      (~ under old (w_path w) -> w' = w) /\
      (forall r, w_path w = old ++ r -> under old (w_path w) ->
         Z.of_nat (length (new ++ r)) < PATH_MAX -> w_path w' = new ++ r).
Proof.
  intros old new Hok Ho Hn.
  assert (Hp : forall p, Z.of_nat (length p) < PATH_MAX -> path_printf p = p).
  { intros p Hl. apply take_ge. unfold PATH_MAX in *. lia. }
  assert (Hrun : nwp (rewriteCachedPaths op on np nn)
    (fun _ s' => kernel s' = kernel s /\ wlCache s' = map (renamed old new) (wlCache s)) s).
  { apply nwp_rewriteCachedPaths. intros o. fold old. fold new. by rewrite !Hp. }
  apply nwp_run in Hrun as ([] & s' & Hrun & Hk & Hc). exists s'.
  split; [done|]. split; [done|]. split; [by rewrite Hc, length_map|].
  intros i w Hi. exists (renamed old new w). rewrite Hc. split; [by rewrite list_lookup_fmap, Hi|].
  destruct (Forall_lookup_1 _ _ _ _ (co_path _ Hok) Hi) as [Hnul _].
  unfold renamed. destruct (in_subtree old (w_path w)) eqn:E.
  - apply in_subtree_spec in E; [|done]. split; [done|]. split; [done|].
    intros r Hr _ Hlen. simpl. rewrite Hr, drop_app_length, Hp by done. by apply path_copy_short.
  - split; [done|]. split; [done|]. intros r _ Hu. apply in_subtree_spec in Hu; [congruence|done].
Qed.

Lemma rewriteCachedPaths_exact_witness :
  exists s', rewriteCachedPaths (str "t") (str "a") (str "t/b") (str "n") sample = Ret tt s' /\
    w_path (slot_of 2 (wlCache s')) = str "t/b/n/x" /\ w_path (slot_of 3 (wlCache s')) = str "t/ab".
Proof.
  destruct (rewriteCachedPaths_exact (str "t") (str "a") (str "t/b") (str "n") sample) as (s' & Hrun & _ & _ & _).
  - exact (inv_cache _ (reachable_inv 3 sample sample_reachable)).
  - vm_compute. reflexivity.
  - vm_compute. reflexivity.
  - exists s'. split; [exact Hrun|].
    assert (E : match rewriteCachedPaths (str "t") (str "a") (str "t/b") (str "n") sample with
      | Ret _ s1 => (w_path (slot_of 2 (wlCache s1)), w_path (slot_of 3 (wlCache s1))) | _ => ([], []) end
      = (str "t/b/n/x", str "t/ab")) by (vm_compute; reflexivity).
    rewrite Hrun in E. injection E as H1 H2. split; assumption.
Defined.

(** Decoding an event from the buffer gives back what the kernel encoded,
    whatever follows it in the buffer. *)
Lemma event_roundtrip ev rest :
  event_wf ev -> 0 < ev_len ev -> event_at (enc_event ev ++ rest) = ev.
Proof. apply event_at_exact. Qed.

Definition sample_from : inotify_event := mkEv 1 (Z.lor IN_MOVED_FROM IN_ISDIR) 77 16 (str "a").
Definition sample_to : inotify_event := mkEv 5 (Z.lor IN_MOVED_TO IN_ISDIR) 77 16 (str "n").

Lemma sample_from_wf : event_wf sample_from.
Proof. split; try (vm_compute; intuition congruence). repeat constructor; vm_compute; congruence. Defined.
Lemma sample_to_wf : event_wf sample_to.
Proof. split; try (vm_compute; intuition congruence). repeat constructor; vm_compute; congruence. Defined.

Lemma event_roundtrip_witness : event_at (enc_event sample_from ++ [1; 2; 3]) = sample_from.
Proof. apply (event_roundtrip sample_from [1; 2; 3]); [apply sample_from_wf|vm_compute; reflexivity]. Defined.

(** ** One event *)

Section Events.
Context {K : Type} `{!Kernel K}.
Abbreviation St := (@state K).

(** Neither checking nor dumping of the cache after each event. *)
Definition plain (s : St) : Prop := checkCache s = false /\ dumpCache s = false.

Lemma nwp_display ev Q (s : St) : (forall o, Q tt (set_out o s)) -> nwp (displayInotifyEvent ev) Q s.
Proof. intros HQ. unfold displayInotifyEvent. nwp_steps. rewrite !set_out_out. apply HQ. Qed.

(** The slot of a cached watch descriptor. *)
Definition holds (s : St) (wd j : Z) (w : watch) : Prop :=
  find_index (fun w => w_wd w =? wd) 0 (wlCache s) = j /\ 0 <= j /\ slot_of j (wlCache s) = w.

Lemma nwp_findWatchChecked wd j w Q (s : St) : holds s wd j w -> Q j s -> nwp (findWatchChecked wd) Q s.
Proof.
  intros (Hj & Hpos & _) HQ. unfold findWatchChecked, findWatch. nwp_steps. rewrite Hj.
  destruct (Z.leb_spec 0 j); [done|lia].
Qed.

Lemma nwp_path j Q (s : St) : Q (w_path (slot_of j (wlCache s))) s -> nwp (path_of_slot (Some j)) Q s.
Proof. done. Qed.

(** What precedes the cascade, for an event on a cached watch. *)
Lemma nwp_process fd buf bs ft j w n Q (s : St) :
  ev_wd (event_at buf) <> -1 -> has (ev_mask (event_at buf)) IN_IGNORED = false ->
  holds s (ev_wd (event_at buf)) j w ->
  (forall o, nwp (dispatch fd buf bs (event_at buf) (Some j) (SIZEOF_EVENT + ev_len (event_at buf)) ft)
     (fun r s' => r = (Consumed n, fd) /\ plain s' /\ Q (n, fd) s') (set_out o s)) ->
  nwp (processNextInotifyEvent fd buf bs ft) Q s.
Proof.
  intros Hwd Hig Hh Hd. unfold processNextInotifyEvent. nwp_step. apply nwp_display. intros o. nwp_step.
  rewrite (proj2 (Z.eqb_neq _ _) Hwd), Hig. simpl. nwp_step.
  eapply nwp_findWatchChecked; [exact Hh|]. nwp_step. destruct Hh as (_ & Hpos & _).
  rewrite bool_decide_eq_false_2 by (intros [=]; lia). nwp_step.
  eapply nwp_mono; [apply (Hd o)|]. intros r s' (-> & [Hc Hdm] & HQ). nwp_steps. rewrite Hc. nwp_steps. rewrite Hdm. by nwp_steps.
Qed.
End Events.

(** What renaming the directory [old] to [new] means for an entry of the cache: the
    entry of the directory itself, one of a pathname below it, which keeps what
    follows the prefix (as far as it fits in a buffer of PATH_MAX bytes), or any
    other one, which stays as it is. *)
Inductive renaming (old new : bytes) : watch -> watch -> Prop :=
  | Ren_dir wd : renaming old new (mkWatch wd old) (mkWatch wd new)
  | Ren_below wd r :
      renaming old new (mkWatch wd (old ++ SLASH :: r)) (mkWatch wd (take (Z.to_nat (PATH_MAX - 1)) (new ++ SLASH :: r)))
  | Ren_other w : w_path w <> old -> (forall r, w_path w <> old ++ SLASH :: r) -> renaming old new w w.

Lemma renamed_renaming old new w :
  no_nul (w_path w) -> Z.of_nat (length new) < PATH_MAX -> renaming old new w (renamed old new w).
Proof.
  intros Hn Hl. unfold renamed. destruct (in_subtree old (w_path w)) eqn:E.
  - rewrite path_copy_short by apply path_printf_len. apply in_subtree_spec in E; [|done]. destruct w as [wd q]. simpl in E |- *.
    destruct E as [->|[r ->]].
    + rewrite drop_ge, app_nil_r by done. unfold path_printf. rewrite take_ge by lia. constructor.
    + rewrite drop_app_length. constructor.
  - constructor; intros; intros Hw; rewrite (proj2 (in_subtree_spec _ _ Hn)) in E; try discriminate; [by left|right; eauto].
Qed.

(** C10: without -x and -d (no checking or dumping of the cache after each event),
    an IN_MOVED_FROM event for a directory followed in the buffer by the IN_MOVED_TO
    event with the same cookie, the watch descriptors of both parent directories
    being in the cache, whose pathnames are C strings, is taken as one rename: both
    events are consumed, no watch is touched, and slot by slot the cached pathnames
    of the directory and of everything below it get the new prefix in place of the
    old one, while every other entry (a sibling whose name begins with the same
    characters too) stays as it is. *)
Theorem rename_event {K} `{!Kernel K} fd ev1 ev2 rest bs ft j1 w1 j2 w2 (s : @state K) :
  event_wf ev1 -> event_wf ev2 -> 0 < ev_len ev1 -> 0 < ev_len ev2 ->
  ev_mask ev1 = Z.lor IN_MOVED_FROM IN_ISDIR -> has (ev_mask ev2) IN_MOVED_TO = true ->
  ev_cookie ev2 = ev_cookie ev1 -> ev_wd ev1 <> -1 ->
  Z.of_nat (length (enc_event ev1)) < bs -> plain s ->
  holds s (ev_wd ev1) j1 w1 -> holds s (ev_wd ev2) j2 w2 -> Forall (fun w => no_nul (w_path w)) (wlCache s) ->
  let old := path_printf (w_path w1 ++ [SLASH] ++ ev_name ev1) in
  let new := path_printf (w_path w2 ++ [SLASH] ++ ev_name ev2) in
  exists c' o, processNextInotifyEvent fd (enc_event ev1 ++ enc_event ev2 ++ rest) bs ft s =
    Ret (Z.of_nat (length (enc_event ev1) + length (enc_event ev2)), fd) (with_cache c' o s) /\
    Forall2 (renaming old new) (wlCache s) c'.
Proof.
  intros Hw1 Hw2 Hl1 Hl2 Hm1 Hm2 Hck Hwd Hbs [Hc Hd] Hh1 Hh2 Hnul old new.
  set (buf := enc_event ev1 ++ enc_event ev2 ++ rest).
  assert (E1 : event_at buf = ev1) by (by apply event_at_exact).
  assert (E2 : event_at (drop (length (enc_event ev1)) buf) = ev2).
  { unfold buf. rewrite drop_app_length. by apply event_at_exact. }
  pose proof (length_enc_event ev1 Hw1) as HL1. pose proof (length_enc_event ev2 Hw2) as HL2.
  pose proof (enc_event_size ev1 Hw1) as Hz1. pose proof (enc_event_size ev2 Hw2) as Hz2.
  clearbody buf. set (e1 := enc_event ev1) in *. clearbody e1. set (e2 := enc_event ev2) in *. clearbody e2.
  assert (Hrun : nwp (processNextInotifyEvent fd buf bs ft)
    (fun r s' => r = (Z.of_nat (length e1 + length e2), fd) /\
       exists o, s' = with_cache (map (renamed old new) (wlCache s)) o s) s).
  { eapply (nwp_process fd buf bs ft j1 w1); rewrite ?E1; [done|by rewrite Hm1|done|].
    intros o. unfold dispatch. rewrite Hm1. simpl. unfold ev_moved_from.
    rewrite <- HL1, Nat2Z.id, E2, Hm2, Hck, Z.eqb_refl. destruct (Z.ltb_spec (Z.of_nat (length e1)) bs); [|lia].
    simpl. unfold ev_renamed. nwp_step. eapply nwp_findWatchChecked; [exact Hh2|].
    destruct (Z.eqb_spec j2 (-1)); [destruct Hh2; lia|]. nwp_step. apply nwp_path. nwp_step. apply nwp_path. nwp_step.
    destruct Hh1 as (_ & _ & Hs1). destruct Hh2 as (_ & _ & Hs2). simpl. rewrite Hs1, Hs2.
    apply nwp_rewriteCachedPaths. intros o'. nwp_step. split; [|split; [done|split; [|by eexists]]].
    - reflexivity.
    - f_equal. rewrite <- Z.add_assoc, <- HL2.
      rewrite (proj2 (wrap_small (Z.of_nat (length e1) + Z.of_nat (length e2)) ltac:(lia))). lia. }
  apply nwp_run in Hrun as (r & s' & Hrun & -> & o & ->). exists (map (renamed old new) (wlCache s)), o. split; [exact Hrun|].
  apply Forall2_fmap_r, Forall_Forall2_diag. eapply Forall_impl; [exact Hnul|]. intros w Hw. apply renamed_renaming; [done|].
  apply path_printf_len.
Qed.

Lemma rename_event_witness :
  exists c' o, processNextInotifyEvent 3 (enc_event sample_from ++ enc_event sample_to ++ []) 64 true sample =
    Ret (Z.of_nat (length (enc_event sample_from) + length (enc_event sample_to)), 3) (with_cache c' o sample) /\
    Forall2 (renaming (str "t/a") (str "t/b/n")) (wlCache sample) c'.
Proof.
  apply (rename_event 3 sample_from sample_to [] 64 true 0 (mkWatch 1 (str "t")) 4 (mkWatch 5 (str "t/b")) sample).
  - apply sample_from_wf.
  - apply sample_to_wf.
  - vm_compute. reflexivity.
  - vm_compute. reflexivity.
  - reflexivity.
  - reflexivity.
  - reflexivity.
  - vm_compute. congruence.
  - vm_compute. reflexivity.
  - split; vm_compute; reflexivity.
  - repeat split; vm_compute; congruence.
  - repeat split; vm_compute; congruence.
  - vm_compute. repeat constructor; discriminate.
Defined.

(** An event for the creation (or arrival) of a directory whose pathname is
    already cached changes neither the cache nor the kernel's watches, so the
    walk that finds a new directory before its event arrives does no harm. *)
Lemma dir_created_known {K} `{!Kernel K} fd ev rest bs ft j w (s : @state K) :
  event_wf ev -> 0 < ev_len ev -> ev_wd ev <> -1 -> has (ev_mask ev) IN_IGNORED = false ->
  has (ev_mask ev) IN_ISDIR = true -> has (ev_mask ev) (Z.lor IN_CREATE IN_MOVED_TO) = true ->
  plain s -> holds s (ev_wd ev) j w ->
  (exists i v, wlCache s !! i = Some v /\ 0 <= w_wd v /\ w_path v = path_printf (w_path w ++ [SLASH] ++ ev_name ev)) ->
  exists o, processNextInotifyEvent fd (enc_event ev ++ rest) bs ft s =
    Ret (Z.of_nat (length (enc_event ev)), fd) (set_out o s).
Proof.
  intros Hw Hl Hwd Hig Hd Hcm Hpl Hh (i & v & Hv & Hvl & Hvp).
  pose proof (event_at_exact ev rest Hw Hl) as E. pose proof (length_enc_event ev Hw) as HL.
  assert (Hrun : nwp (processNextInotifyEvent fd (enc_event ev ++ rest) bs ft)
    (fun r s' => r = (Z.of_nat (length (enc_event ev)), fd) /\ exists o, s' = set_out o s) s).
  { eapply (nwp_process fd _ bs ft j w); rewrite ?E; [done|done|done|].
    intros o. unfold dispatch. rewrite Hd, Hcm. cbn [andb]. unfold ev_dir_created. nwp_step. apply nwp_path.
    destruct Hh as (_ & _ & Hs). cbn [wlCache set_out]. rewrite Hs. nwp_steps.
    unfold pathnameInCache, pathnameToCacheSlot. nwp_steps. cbn [wlCache set_out].
    destruct (Z.leb_spec 0 (find_index (fun w0 => (0 <=? w_wd w0) &&
      bool_decide (w_path w0 = path_printf (w_path w ++ [SLASH] ++ ev_name ev))) 0 (wlCache s))) as [|Hneg].
    - nwp_steps. rewrite set_out_out. split; [reflexivity|]. split; [by destruct Hpl|]. split; [by rewrite HL|by eexists].
    - exfalso. destruct (find_index_ge (fun w0 => (0 <=? w_wd w0) &&
        bool_decide (w_path w0 = path_printf (w_path w ++ [SLASH] ++ ev_name ev))) 0 (wlCache s)) as [Hn|]; [|lia].
      pose proof (find_index_none _ _ Hn i v Hv) as Hf. simpl in Hf.
      rewrite (proj2 (Z.leb_le _ _) Hvl), bool_decide_eq_true_2 in Hf by done. done. }
  apply nwp_run in Hrun as (r & s' & Hrun & -> & o & ->). eauto.
Qed.

Definition sample_create : inotify_event := mkEv 2 (Z.lor IN_CREATE IN_ISDIR) 0 16 (str "x").

Lemma dir_created_known_witness :
  exists o, processNextInotifyEvent 3 (enc_event sample_create ++ []) 32 true sample =
    Ret (Z.of_nat (length (enc_event sample_create)), 3) (set_out o sample).
Proof.
  apply (dir_created_known 3 sample_create [] 32 true 1 (mkWatch 2 (str "t/a")) sample).
  - split; try (vm_compute; intuition congruence). repeat constructor; vm_compute; congruence.
  - vm_compute. reflexivity.
  - vm_compute. congruence.
  - reflexivity.
  - reflexivity.
  - reflexivity.
  - split; vm_compute; reflexivity.
  - repeat split; vm_compute; congruence.
  - exists 2%nat, (mkWatch 3 (str "t/a/x")). repeat split; vm_compute; congruence.
Defined.

(** An IN_MOVED_FROM event for a directory, last in the buffer, on the first
    try: the handler asks for another read (the -1 is a size_t) and changes
    nothing but the log, so the event can be looked at again. *)
Lemma moved_from_waits {K} `{!Kernel K} fd ev rest bs j w (s : @state K) :
  event_wf ev -> 0 < ev_len ev -> ev_wd ev <> -1 -> ev_mask ev = Z.lor IN_MOVED_FROM IN_ISDIR ->
  bs <= Z.of_nat (length (enc_event ev)) -> holds s (ev_wd ev) j w ->
  exists o, processNextInotifyEvent fd (enc_event ev ++ rest) bs true s = Ret (2 ^ 64 - 1, fd) (set_out o s).
Proof.
  intros Hw Hl Hwd Hm Hbs Hh.
  pose proof (event_at_exact ev rest Hw Hl) as E. pose proof (length_enc_event ev Hw) as HL.
  assert (Hrun : nwp (processNextInotifyEvent fd (enc_event ev ++ rest) bs true)
    (fun r s' => r = (2 ^ 64 - 1, fd) /\ exists o, s' = set_out o s) s).
  { unfold processNextInotifyEvent. rewrite E. nwp_step. apply nwp_display. intros o. nwp_step.
    rewrite (proj2 (Z.eqb_neq _ _) Hwd), Hm. cbn [negb andb has Z.land IN_IGNORED]. 
    apply (nwp_mono _ (fun r s' => r = Some j /\ s' = set_out o s)).
    { change (negb (has (Z.lor IN_MOVED_FROM IN_ISDIR) IN_IGNORED)) with true. cbn iota. nwp_step.
      eapply nwp_findWatchChecked; [exact Hh|]. by nwp_step. }
    intros r s' [-> ->]. destruct Hh as (_ & Hpos & _).
    rewrite bool_decide_eq_false_2 by (intros [=]; lia). nwp_step. unfold dispatch. rewrite Hm.
    unfold ev_moved_from. rewrite <- HL.
    change (has (Z.lor IN_MOVED_FROM IN_ISDIR) IN_ISDIR && has (Z.lor IN_MOVED_FROM IN_ISDIR) (Z.lor IN_CREATE IN_MOVED_TO)) with false.
    change (has (Z.lor IN_MOVED_FROM IN_ISDIR) IN_DELETE_SELF) with false. rewrite Z.land_diag, Z.eqb_refl. cbn iota.
    destruct (Z.ltb_spec (Z.of_nat (length (enc_event ev))) bs); [lia|]. cbn [andb orb negb]. nwp_steps.
    rewrite set_out_out. split; [done|by eexists]. }
  apply nwp_run in Hrun as (r & s' & Hrun & -> & o & ->). eauto.
Qed.

Lemma moved_from_waits_witness :
  exists o, processNextInotifyEvent 3 (enc_event sample_from ++ []) 32 true sample = Ret (2 ^ 64 - 1, 3) (set_out o sample).
Proof.
  apply (moved_from_waits 3 sample_from [] 32 0 (mkWatch 1 (str "t")) sample).
  - apply sample_from_wf.
  - vm_compute. reflexivity.
  - vm_compute. congruence.
  - reflexivity.
  - vm_compute. congruence.
  - repeat split; vm_compute; congruence.
Defined.

(** [processInotifyEvents] ends (returns, or stops the program) for every
    batch of well-formed events, when the kernel has finitely many bytes of
    events to deliver: the loop never reads for the same IN_MOVED_FROM twice. *)
Lemma processInotifyEvents_ends {K} `{!Kernel K} `{!KernelFeed K} junk fd fuel (s : @state K) :
  Z.of_nat (length junk) = INOTIFY_READ_BUF_LEN -> (enough s <= fuel)%nat ->
  processInotifyEvents fuel junk fd s <> NoFuel.
Proof.
  intros Hj Hf. pose proof (processEvents_ends junk fd fuel s Hj Hf) as H. unfold twp in H. by destruct (processInotifyEvents _ _ _ _).
Qed.

(** The sample with a rename whose halves come in two reads, and then a
    directory that is moved away. *)
Definition sample_busy : @state toy :=
  set_kernel (mkToy (t_dirs sample_kernel) (t_watches (kernel sample)) 6
    [[sample_from]; [sample_to; mkEv 1 (Z.lor IN_MOVED_FROM IN_ISDIR) 78 16 (str "ab")]] []) sample.

(** What the buffer on the stack may hold before a read. *)
Definition stack_junk : bytes := replicate (Z.to_nat INOTIFY_READ_BUF_LEN) 0.

Lemma stack_junk_len : Z.of_nat (length stack_junk) = INOTIFY_READ_BUF_LEN.
Proof. unfold stack_junk. rewrite length_replicate. apply Z2Nat.id. unfold INOTIFY_READ_BUF_LEN, SIZEOF_EVENT, NAME_MAX. lia. Qed.

Lemma processInotifyEvents_ends_witness :
  processInotifyEvents (enough sample_busy) stack_junk 3 sample_busy <> NoFuel /\
  match processInotifyEvents (enough sample_busy) stack_junk 3 sample_busy with
  | Ret fd s => fd = 3 /\ entries (wlCache s) = [(1, str "t"); (2, str "t/b/n"); (3, str "t/b/n/x"); (5, str "t/b")]
  | _ => False
  end.
Proof.
  split.
  - exact (processInotifyEvents_ends stack_junk 3 (enough sample_busy) sample_busy stack_junk_len (le_n _)).
  - vm_compute. split; reflexivity.
Defined.

(** ** Building the cache *)

Section Walk.
Context {K : Type} `{!Kernel K} `{!KernelOk K}.
Abbreviation St := (@state K).

(** Live entries stay where they are. *)
Definition grows (c c' : list watch) : Prop := forall i w, c !! i = Some w -> 0 <= w_wd w -> c' !! i = Some w.

(** The events a directory is watched for: creation and arrival of files in it,
    their departure, its own deletion, and for a root directory its own move. *)
Definition watch_flags (roots : list (option bytes)) (p : bytes) : Z :=
  let flags := Z.lor IN_CREATE (Z.lor IN_MOVED_FROM (Z.lor IN_MOVED_TO IN_DELETE_SELF)) in
  Z.lor (if bool_decide (Some p ∈ roots) then Z.lor flags IN_MOVE_SELF else flags) IN_ONLYDIR.

(** What the kernel in state [k] answers to requests for a watch on each of the
    directories [ps] in turn (pathname, watch descriptor, errno), and the state it
    is in afterwards. *)
Fixpoint offers (fd : Z) (roots : list (option bytes)) (ps : list bytes) (k : K) : list (bytes * Z * Z) * K :=
  match ps with
  | [] => ([], k)
  | p :: ps' =>
    let '(wd, e, k1) := sys_add_watch fd p (watch_flags roots p) k in
    let '(xs, k2) := offers fd roots ps' k1 in ((p, wd, e) :: xs, k2)
  end.

Lemma offers_app fd roots ps qs k :
  offers fd roots (ps ++ qs) k =
    let '(xs, k1) := offers fd roots ps k in let '(ys, k2) := offers fd roots qs k1 in (xs ++ ys, k2).
Proof.
  revert k. induction ps as [|p ps IH]; intros k; simpl.
  { by destruct (offers fd roots qs k). }
  destruct (sys_add_watch fd p (watch_flags roots p) k) as [[wd e] k1]. rewrite IH. destruct (offers fd roots ps k1) as [xs k2].
  by destruct (offers fd roots qs k2).
Qed.

(** The directory of an answer was gone already, or its watch is in the cache. *)
Definition placed (c' : list watch) (x : bytes * Z * Z) : Prop :=
  let '(_, wd, e) := x in (wd = -1 /\ e = ENOENT) \/ (0 <= wd /\ exists i w, c' !! i = Some w /\ w_wd w = wd).

(** Each live entry of [c'] is one of [c] or made from one of the answers. *)
Definition sourced (xs : list (bytes * Z * Z)) (c c' : list watch) : Prop :=
  forall i w, c' !! i = Some w -> 0 <= w_wd w -> c !! i = Some w \/ exists e, (w_path w, w_wd w, e) ∈ xs.

Lemma grows_refl c : grows c c.
Proof. by intros i w. Qed.
Lemma grows_trans a b c : grows a b -> grows b c -> grows a c.
Proof. intros H1 H2 i w Hi Hl. by apply H2, Hl; apply H1. Qed.
Lemma placed_grows c c' x : placed c x -> grows c c' -> placed c' x.
Proof.
  destruct x as [[p wd] e]. intros [|(Hwd & i & w & Hi & Hw)] Hg; [by left|]. right. split; [done|]. exists i, w.
  split; [|done]. apply Hg; [done|lia].
Qed.

Lemma root_flags (roots : list (option bytes)) (p : bytes) :
  (0 <=? find_index (fun r => bool_decide (r = Some p)) 0 roots) = bool_decide (Some p ∈ roots).
Proof.
  destruct (find_index_ge (fun r => bool_decide (r = Some p)) 0 roots) as [Hn|Hge].
  - rewrite Hn. symmetry. apply bool_decide_eq_false. intros Hin. apply list_elem_of_lookup in Hin as [i Hi].
    pose proof (find_index_none _ _ Hn i _ Hi) as Hf. simpl in Hf. by rewrite bool_decide_eq_true_2 in Hf.
  - destruct (Z.leb_spec 0 (find_index (fun r => bool_decide (r = Some p)) 0 roots)); [|lia].
    destruct (find_index_some (fun r => bool_decide (r = Some p)) roots) as (w & Hw & Hpw & _); [lia|].
    symmetry. apply bool_decide_eq_true. apply bool_decide_eq_true in Hpw as ->. apply list_elem_of_lookup. eauto.
Qed.

Lemma add_slot (c c' : list watch) j w :
  (c' = c \/ c' = c ++ replicate ALLOC_INCR empty_slot) -> c' !! j = Some empty_slot -> 0 <= w_wd w ->
  grows c (<[j := w]> c') /\ (forall e, sourced [(w_path w, w_wd w, e)] c (<[j := w]> c')) /\ <[j := w]> c' !! j = Some w.
Proof.
  intros Hc Hj Hw.
  assert (Hold : forall i v, c' !! i = Some v -> 0 <= w_wd v -> c !! i = Some v).
  { intros i v Hi Hv. destruct Hc as [-> | ->]; [done|]. apply lookup_app_Some in Hi as [|[_ Hi]]; [done|].
    apply lookup_replicate in Hi as [-> _]. simpl in Hv. lia. }
  assert (Hg : grows c c').
  { intros i v Hi _. destruct Hc as [-> | ->]; [done|]. by apply lookup_app_l_Some. }
  split; [|split].
  - intros i v Hi Hv. destruct (decide (i = j)) as [->|]; [|rewrite list_lookup_insert_ne by done; by apply Hg].
    pose proof (Hg j v Hi Hv) as H. rewrite Hj in H. injection H as <-. simpl in Hv. lia.
  - intros e i v Hi Hv. apply list_lookup_insert_Some in Hi as [(_ & <- & _)|[_ Hi]]; [right; exists e; in_list|left; by apply Hold].
  - apply list_lookup_insert_eq. by eapply lookup_lt_Some.
Qed.

(** What the walk does on the directories [ps]. *)
Definition visits (ps : list bytes) (s s' : St) : Prop :=
  let '(xs, k) := offers (ifd s) (rootDirPaths s) ps (kernel s) in
  Inv s' /\ ifd s' = ifd s /\ rootDirPaths s' = rootDirPaths s /\ kernel s' = k /\
  grows (wlCache s) (wlCache s') /\ sourced xs (wlCache s) (wlCache s') /\ Forall (placed (wlCache s')) xs.

Lemma visits_nil s : Inv s -> visits [] s s.
Proof. intros Hi. unfold visits. simpl. split_and!; try done; [apply grows_refl|by left]. Qed.

Lemma iwp_log_same vb fmt args Q (s : St) : (forall o, Q tt (set_out o s)) -> iwp (logMessage vb fmt args) Q s.
Proof. intros HQ. by apply iwp_nwp, nwp_log. Qed.

(** One call of the callback. *)
Lemma iwp_traverse p sb (s : St) :
  Inv s -> no_nul p -> iwp (traverseTree p sb) (fun _ s' => visits (if st_isdir sb then [p] else []) s s') s.
Proof.
  intros Hi Hp. unfold traverseTree. destruct (st_isdir sb); cbn [negb].
  2: { iwp_step. by apply visits_nil. }
  unfold isRootDirPath, findRootDirPath. do 8 (iwp_step; cbn beta iota). iwp_step. iwp_step. destruct a as [wd err].
  match goal with H : sys_add_watch _ _ _ _ = (_, ?k1) |- _ => rename H into Hadd; rename k1 into k end. rewrite root_flags in Hadd.
  pose proof (ko_add _ _ _ _ _ _ _ Hadd) as Hwd.
  assert (Hv : forall s', Inv s' -> ifd s' = ifd s -> rootDirPaths s' = rootDirPaths s -> kernel s' = k -> grows (wlCache s) (wlCache s') ->
    sourced [(p, wd, err)] (wlCache s) (wlCache s') -> placed (wlCache s') (p, wd, err) -> visits [p] s s').
  { intros s' H1 H2 H3 H4 H5 H6 H7. unfold visits. cbn [offers].
    change (sys_add_watch (ifd s) p (watch_flags (rootDirPaths s) p) (kernel s) = (wd, err, k)) in Hadd. rewrite Hadd.
    split_and!; try done. by constructor. }
  destruct (Z.eqb_spec wd (-1)) as [->|Hne].
  { iwp_step. apply iwp_log_same. intros o. destruct (Z.eqb_spec err ENOENT) as [->|]; [|apply iwp_exit; inv_easy].
    iwp_step. apply Hv; try done; [inv_easy|apply grows_refl|by left|by left]. }
  destruct Hwd as [->|[Hwd Hl]]; [done|]. unfold findWatch. do 4 (iwp_step; cbn beta iota). cbn [wlCache set_kernel].
  destruct (Z.leb_spec 0 (find_index (fun w => w_wd w =? wd) 0 (wlCache s))) as [Hge|Hlt].
  - iwp_step. apply iwp_log_same. intros o. iwp_step. apply Hv; try done; [inv_easy|apply grows_refl|by left|]. right. split; [done|].
    destruct (find_index_some (fun w => w_wd w =? wd) (wlCache s)) as (w & Hw & Hpw & _); [lia|].
    eexists _, w. split; [exact Hw|]. by apply Z.eqb_eq in Hpw.
  - assert (Hnone : find_index (fun w => w_wd w =? wd) 0 (wlCache s) = -1).
    { destruct (find_index_ge (fun w => w_wd w =? wd) 0 (wlCache s)); [done|lia]. }
    do 2 iwp_step. cbn beta. iwp_step. apply iwp_nwp, nwp_addWatch; [apply Hi|]. intros o c' j Hc Hj Hjl.
    cbn [wlCache set_kernel set_dirCnt] in Hc.
    destruct (add_slot _ _ _ (mkWatch wd (path_copy p)) Hc Hjl Hwd) as (Hg & Hs & Hin).
    cbn [w_path w_wd] in Hs. specialize (Hs err). rewrite (path_copy_short p Hl) in Hs at 1.
    pose proof (inv_add wd p c' j o s Hi Hnone Hwd Hp Hl Hc) as Hi2.
    iwp_step. apply iwp_log_same. intros o'. iwp_step. apply Hv; try done; [inv_easy|].
    right. split; [done|]. eexists _, _. split; [exact Hin|]. done.
Qed.

Lemma sourced_trans xs ys a b c : sourced xs a b -> sourced ys b c -> sourced (xs ++ ys) a c.
Proof.
  intros H1 H2 i w Hi Hl. destruct (H2 i w Hi Hl) as [Hb|[e Hq]]; [|right; exists e; in_list].
  destruct (H1 i w Hb Hl) as [|[e Hq]]; [by left|right; exists e; in_list].
Qed.

Lemma visits_app ps qs s s1 s2 : visits ps s s1 -> visits qs s1 s2 -> visits (ps ++ qs) s s2.
Proof.
  unfold visits. rewrite offers_app. destruct (offers (ifd s) (rootDirPaths s) ps (kernel s)) as [xs k1].
  intros (I1 & F1 & R1 & K1 & G1 & S1 & P1). rewrite F1, R1, K1. destruct (offers (ifd s) (rootDirPaths s) qs k1) as [ys k2].
  intros (I2 & F2 & R2 & K2 & G2 & S2 & P2). split_and!; try congruence; [by eapply grows_trans|by eapply sourced_trans|].
  apply Forall_app. split; [|done]. eapply Forall_impl; [exact P1|]. intros x Hx. by eapply placed_grows.
Qed.

Definition dirs_of (visited : list (bytes * stat)) : list bytes :=
  map fst (filter (fun v => st_isdir v.2 = true) visited).

Lemma iwp_walk visited (s : St) :
  Inv s -> Forall (fun v => no_nul (fst v)) visited -> iwp (nftw_walk visited) (fun _ s' => visits (dirs_of visited) s s') s.
Proof.
  intros Hi Hv. revert s Hi. induction Hv as [|[p sb] visited Hp _ IH]; intros s Hi; cbn [nftw_walk].
  { iwp_step. by apply visits_nil. }
  iwp_step. eapply iwp_mono; [by apply iwp_traverse|]. intros r s1 Hv1.
  assert (Hi1 : Inv s1) by (unfold visits in Hv1; destruct (offers _ _ _ _); by destruct Hv1).
  eapply iwp_mono; [by apply IH|]. intros [] s2 Hv2.
  assert (Hdirs : dirs_of ((p, sb) :: visited) = (if st_isdir sb then [p] else []) ++ dirs_of visited).
  { unfold dirs_of. rewrite filter_cons. simpl. destruct (st_isdir sb); by simpl. }
  rewrite Hdirs. eapply visits_app; [exact Hv1|exact Hv2].
Qed.
End Walk.

(** C19: [watchDir] on a subtree, when it returns.  From the kernel state in which
    nftw left it, every directory nftw visited was offered to the kernel, in the
    order of the visit and with the flags of the program, and nothing else was
    asked of the kernel; each of them, unless it was gone already (ENOENT), has the
    watch descriptor the kernel answered with in the cache; entries that were there
    stay in their slots, and every new entry has the pathname of a visited
    directory and the watch descriptor the kernel gave for it. *)
Theorem watchDir_complete {K} `{!Kernel K} `{!KernelOk K} fd path (s : @state K) cnt s' visited r k :
  Inv s -> no_nul path -> sys_nftw path (kernel s) = (visited, r, k) ->
  watchDir fd path s = Ret cnt s' ->
  let '(answers, k') := offers fd (rootDirPaths s) (dirs_of visited) k in
  kernel s' = k' /\
  (forall p wd e, (p, wd, e) ∈ answers ->
     (wd = -1 /\ e = ENOENT) \/ (0 <= wd /\ exists i w, wlCache s' !! i = Some w /\ w_wd w = wd)) /\
  (forall i w, wlCache s !! i = Some w -> 0 <= w_wd w -> wlCache s' !! i = Some w) /\
  (forall i w, wlCache s' !! i = Some w -> 0 <= w_wd w ->
     wlCache s !! i = Some w \/ exists e, (w_path w, w_wd w, e) ∈ answers).
Proof.
  intros Hi Hp Hn Hrun. destruct (offers fd (rootDirPaths s) (dirs_of visited) k) as [xs k'] eqn:Ex.
  assert (H : iwp (watchDir fd path) (fun _ s' => kernel s' = k' /\ Forall (placed (wlCache s')) xs /\
    grows (wlCache s) (wlCache s') /\ sourced xs (wlCache s) (wlCache s')) s).
  { unfold watchDir. do 5 (iwp_step; cbn beta iota). apply iwp_sys. intros a k1 Ha.
    cbn [kernel set_ifd set_dirCnt] in Ha. rewrite Hn in Ha. injection Ha as <- <-. iwp_step.
    eapply iwp_mono; [apply iwp_walk; [inv_easy|by eapply ko_nftw]|]. intros [] s1 Hv. unfold visits in Hv.
    cbn [ifd set_kernel set_ifd wlCache set_dirCnt rootDirPaths kernel] in Hv. rewrite Ex in Hv.
    destruct Hv as (_ & _ & _ & Hk & Hg & Hs & Ho). iwp_step.
    apply (iwp_mono _ (fun _ s2 => wlCache s2 = wlCache s1 /\ kernel s2 = kernel s1)).
    - destruct (r =? -1); [by apply iwp_log_same|by iwp_step].
    - intros [] s2 [Hc Hk2]. iwp_steps. by rewrite Hc, Hk2. }
  unfold iwp in H. rewrite Hrun in H. destruct H as (Hk & Ho & Hg & Hs). split_and!; [done| |done|done].
  intros p wd e Hin. exact (proj1 (Forall_forall _ _) Ho _ Hin).
Qed.

(** A new directory below the watched tree. *)
Definition sample_grown : @state toy :=
  set_kernel (mkToy (t_dirs sample_kernel ++ [str "t/c"; str "t/c/d"]) (t_watches (kernel sample)) 6 [] []) sample.

Lemma watchDir_complete_witness :
  exists s', watchDir 3 (str "t/c") sample_grown = Ret 2 s' /\
    (forall p wd e, (p, wd, e) ∈ [(str "t/c", 6, 0); (str "t/c/d", 7, 0)] ->
       (wd = -1 /\ e = ENOENT) \/ (0 <= wd /\ exists i w, wlCache s' !! i = Some w /\ w_wd w = wd)) /\
    entries (wlCache s') = [(1, str "t"); (2, str "t/a"); (3, str "t/a/x"); (4, str "t/ab"); (5, str "t/b");
                            (6, str "t/c"); (7, str "t/c/d")].
Proof.
  assert (E : match watchDir 3 (str "t/c") sample_grown with
    | Ret n s' => n = 2 /\ entries (wlCache s') = [(1, str "t"); (2, str "t/a"); (3, str "t/a/x"); (4, str "t/ab");
        (5, str "t/b"); (6, str "t/c"); (7, str "t/c/d")] | _ => False end) by (vm_compute; split; reflexivity).
  destruct (watchDir 3 (str "t/c") sample_grown) as [n s'| | | |] eqn:Hrun; try contradiction. destruct E as [-> E].
  exists s'. split; [reflexivity|]. split; [|exact E].
  assert (Ho : offers 3 (rootDirPaths sample_grown) [str "t/c"; str "t/c/d"] (kernel sample_grown) =
    ([(str "t/c", 6, 0); (str "t/c/d", 7, 0)], (offers 3 (rootDirPaths sample_grown) [str "t/c"; str "t/c/d"] (kernel sample_grown)).2))
    by (vm_compute; reflexivity).
  assert (Hi : Inv sample_grown)
    by (apply (inv_ext sample); [reflexivity|reflexivity|reflexivity|]; exact (reachable_inv 3 sample sample_reachable)).
  assert (Hn : no_nul (str "t/c")) by (repeat constructor; vm_compute; congruence).
  assert (Hw : sys_nftw (str "t/c") (kernel sample_grown) =
    ([(str "t/c", mkStat true 1 1); (str "t/c/d", mkStat true 1 1)], 0, kernel sample_grown)) by (vm_compute; reflexivity).
  pose proof (watchDir_complete 3 (str "t/c") sample_grown 2 s' _ _ _ Hi Hn Hw Hrun) as H.
  change (dirs_of _) with [str "t/c"; str "t/c/d"] in H. rewrite Ho in H. exact (proj1 (proj2 H)).
Defined.
