(* ===== verification/PrintQueue.v ===== *)
(** * PrintQueue: the linked lists of apue.2e/ipp/printd.c.

    The daemon keeps its pending jobs in a doubly linked list (jobhead, jobtail)
    and its client threads in another (workers).  Structures live in a heap, a
    finite map from addresses; 0 is the null pointer.  An operation is [None]
    when it dereferences an address that holds no structure, which in C is
    undefined behaviour.  Each operation runs under its mutex, so a run of the
    daemon is a sequence of whole operations. *)
From S2P Require Import Prelude.
Local Open Scope Z_scope.

(** A structure with [next] and [prev] members and the rest of its members. *)
Record node (A : Type) := mkNode { n_next : Z; n_prev : Z; n_val : A }.
Arguments mkNode {A} _ _ _.
Arguments n_next {A} _.
Arguments n_prev {A} _.
Arguments n_val {A} _.

Definition NULL : Z := 0.

Definition set_next {A} (p : Z) (n : node A) : node A := mkNode p (n_prev n) (n_val n).
Definition set_prev {A} (p : Z) (n : node A) : node A := mkNode (n_next n) p (n_val n).

(** [p->next = v], [p->prev = v]. *)
Definition store_next {A} (p v : Z) (h : gmap Z (node A)) : option (gmap Z (node A)) :=
  n ← h !! p; Some (<[p := set_next v n]> h).
Definition store_prev {A} (p v : Z) (h : gmap Z (node A)) : option (gmap Z (node A)) :=
  n ← h !! p; Some (<[p := set_prev v n]> h).

Lemma store_next_some {A} p v (h : gmap Z (node A)) n :
  h !! p = Some n -> store_next p v h = Some (<[p := set_next v n]> h).
Proof. unfold store_next. by intros ->. Qed.
Lemma store_prev_some {A} p v (h : gmap Z (node A)) n :
  h !! p = Some n -> store_prev p v h = Some (<[p := set_prev v n]> h).
Proof. unfold store_prev. by intros ->. Qed.

(** ** The job list *)

Section Jobs.
Context {V : Type}.

Record jobs := mkJobs { heap : gmap Z (node V); jobhead : Z; jobtail : Z }.

(** [add_job], [jp] being the address malloc returned and [v] the request and
    job number copied into the structure. *)
Definition add_job (jp : Z) (v : V) (q : jobs) : option jobs :=
  let h := <[jp := mkNode NULL (jobtail q) v]> (heap q) in
  if jobtail q =? NULL then Some (mkJobs h jp jp)
  else h' ← store_next (jobtail q) jp h; Some (mkJobs h' (jobhead q) jp).

(** [replace_job]: back on the head of the list. *)
Definition replace_job (jp : Z) (q : jobs) : option jobs :=
  h ← store_prev jp NULL (heap q);
  h ← store_next jp (jobhead q) h;
  if jobhead q =? NULL then Some (mkJobs h jp jp)
  else h' ← store_prev (jobhead q) jp h; Some (mkJobs h' jp (jobtail q)).

(** [remove_job]: unlink the structure, which stays allocated. *)
Definition remove_job (target : Z) (q : jobs) : option jobs :=
  t ← heap q !! target;
  '(h, tail) ← (if n_next t =? NULL then Some (heap q, n_prev t)
                else h ← store_prev (n_next t) (n_prev t) (heap q); Some (h, jobtail q));
  t ← h !! target;
  '(h, hd) ← (if n_prev t =? NULL then Some (h, n_next t)
              else h' ← store_next (n_prev t) (n_next t) h; Some (h', jobhead q));
  Some (mkJobs h hd tail).

(** ** Lists in the heap *)

Definition first_ptr (l : list (Z * V)) (d : Z) : Z := match l with [] => d | (p, _) :: _ => p end.
Fixpoint last_ptr (l : list (Z * V)) (d : Z) : Z := match l with [] => d | (p, _) :: l' => last_ptr l' p end.

(** The structures [l] linked one after the other, the first pointing back to
    [prev] and the last on to [next]. *)
Fixpoint dseg (h : gmap Z (node V)) (prev : Z) (l : list (Z * V)) (next : Z) : Prop :=
  match l with
  | [] => True
  | (p, v) :: l' => p <> NULL /\ h !! p = Some (mkNode (first_ptr l' next) prev v) /\ dseg h p l' next
  end.

Record jobs_rep (q : jobs) (l : list (Z * V)) : Prop := {
  jr_seg : dseg (heap q) NULL l NULL;
  jr_head : jobhead q = first_ptr l NULL;
  jr_tail : jobtail q = last_ptr l NULL;
  jr_nodup : NoDup l.*1
}.

Lemma last_ptr_app l1 l2 d : last_ptr (l1 ++ l2) d = last_ptr l2 (last_ptr l1 d).
Proof. revert d. induction l1 as [|[p v] l1 IH]; intros d; [done|]. apply IH. Qed.

Lemma last_ptr_snoc l p v d : last_ptr (l ++ [(p, v)]) d = p.
Proof. by rewrite last_ptr_app. Qed.

Lemma first_ptr_app l1 l2 d : first_ptr (l1 ++ l2) d = first_ptr l1 (first_ptr l2 d).
Proof. by destruct l1 as [|[p v] l1]. Qed.

Lemma dseg_app h prev l1 l2 next :
  dseg h prev (l1 ++ l2) next <-> dseg h prev l1 (first_ptr l2 next) /\ dseg h (last_ptr l1 prev) l2 next.
Proof.
  revert prev. induction l1 as [|[p v] l1 IH]; intros prev; simpl; [tauto|].
  rewrite IH, first_ptr_app. tauto.
Qed.

(** Structures outside the segment do not matter. *)
Lemma dseg_ne h prev l next p n : p ∉ l.*1 -> dseg h prev l next -> dseg (<[p := n]> h) prev l next.
Proof.
  revert prev. induction l as [|[p' v] l IH]; intros prev Hp; [done|]. simpl in Hp. apply not_elem_of_cons in Hp as [Hne Hp].
  intros (H0 & Hl & Hs). split; [done|]. split; [by rewrite lookup_insert_ne|by apply IH].
Qed.

Lemma dseg_nonnull h prev l next : dseg h prev l next -> NULL ∉ l.*1.
Proof.
  revert prev. induction l as [|[p v] l IH]; intros prev; [set_solver|]. intros (H0 & _ & Hs). simpl.
  apply not_elem_of_cons. split; [done|by eapply IH].
Qed.

Lemma dseg_last_in h prev l next : dseg h prev l next -> l <> [] -> last_ptr l prev ∈ l.*1 /\ last_ptr l prev <> NULL.
Proof.
  intros Hs Hne. destruct (exists_last Hne) as (l' & [p v] & ->). rewrite last_ptr_snoc.
  apply dseg_app in Hs as [_ (H0 & _)]. rewrite fmap_app. split; [set_solver|done].
Qed.

(** Redirecting the last structure of a segment. *)
Lemma dseg_set_next h prev l next next' :
  dseg h prev l next -> NoDup l.*1 -> l <> [] ->
  exists h', store_next (last_ptr l prev) next' h = Some h' /\ dseg h' prev l next' /\
    forall p, p <> last_ptr l prev -> h' !! p = h !! p.
Proof.
  intros Hs Hnd Hne. destruct (exists_last Hne) as (l' & [p v] & ->). rewrite last_ptr_snoc.
  apply dseg_app in Hs as [Hs1 (H0 & Hp & _)]. unfold store_next. rewrite Hp. simpl. eexists. split; [done|].
  rewrite fmap_app in Hnd. apply NoDup_app in Hnd as (_ & Hd & _).
  assert (Hnot : p ∉ l'.*1) by (intros Hin; apply (Hd p Hin); set_solver).
  split; [|intros q Hq; by rewrite lookup_insert_ne].
  apply dseg_app. split; [by apply dseg_ne|]. simpl. split; [done|]. by rewrite lookup_insert_eq.
Qed.

(** Redirecting the first structure of a segment. *)
Lemma dseg_set_prev h prev l next prev' :
  dseg h prev l next -> NoDup l.*1 -> l <> [] ->
  exists h', store_prev (first_ptr l next) prev' h = Some h' /\ dseg h' prev' l next /\
    forall p, p <> first_ptr l next -> h' !! p = h !! p.
Proof.
  intros Hs Hnd Hne. destruct l as [|[p v] l]; [done|]. destruct Hs as (H0 & Hp & Hs). simpl.
  apply NoDup_cons in Hnd as [Hnot Hnd]. unfold store_prev. rewrite Hp. simpl. eexists. split; [done|].
  split; [|intros q Hq; by rewrite lookup_insert_ne]. split; [done|]. split; [by rewrite lookup_insert_eq|].
  by apply dseg_ne.
Qed.

Lemma dseg_ext h h' prev l next : (forall p, p ∈ l.*1 -> h' !! p = h !! p) -> dseg h prev l next -> dseg h' prev l next.
Proof.
  revert prev. induction l as [|[p v] l IH]; intros prev He; [done|]. intros (H0 & Hp & Hs).
  split; [done|]. split; [rewrite He; [done|set_solver]|]. apply IH; [|done]. intros q Hq. apply He. set_solver.
Qed.

Lemma add_job_rep jp v q l :
  jobs_rep q l -> jp <> NULL -> heap q !! jp = None ->
  exists q', add_job jp v q = Some q' /\ jobs_rep q' (l ++ [(jp, v)]).
Proof.
  intros [Hs Hh Ht Hn] Hjp Hfresh.
  assert (Hnot : jp ∉ l.*1).
  { intros Hin. apply list_elem_of_fmap in Hin as ([p w] & -> & Hin). apply list_elem_of_split in Hin as (l1 & l2 & ->).
    apply dseg_app in Hs as [_ (_ & Hp & _)]. simpl in *. congruence. }
  assert (Hnd : NoDup (l ++ [(jp, v)]).*1).
  { rewrite fmap_app. apply NoDup_app. split; [done|]. split; [set_solver|apply NoDup_singleton]. }
  unfold add_job. rewrite Ht. destruct (decide (l = [])) as [->|Hne].
  - simpl. eexists. split; [done|]. split; [|done|done|done]. simpl. by rewrite lookup_insert_eq.
  - destruct (dseg_last_in _ _ _ _ Hs Hne) as [Hin H0]. destruct (Z.eqb_spec (last_ptr l NULL) NULL); [done|].
    destruct (dseg_set_next (<[jp:=mkNode NULL (last_ptr l NULL) v]> (heap q)) NULL l NULL jp) as (h' & Hst & Hs' & Hk);
      [by apply dseg_ne|done|done|].
    rewrite Hst. simpl. eexists. split; [done|].
    split; simpl; [|by rewrite Hh; destruct l as [|[]]|by rewrite last_ptr_snoc|done].
    apply dseg_app. split; [done|]. simpl. split; [done|]. split; [|done].
    rewrite Hk by (intros ->; done). by rewrite lookup_insert_eq.
Qed.

Lemma replace_job_rep jp n q l :
  jobs_rep q l -> jp <> NULL -> jp ∉ l.*1 -> heap q !! jp = Some n ->
  exists q', replace_job jp q = Some q' /\ jobs_rep q' ((jp, n_val n) :: l).
Proof.
  intros [Hs Hh Ht Hn] Hjp Hnot Hj. unfold replace_job. rewrite (store_prev_some _ _ _ _ Hj). simpl.
  rewrite (store_next_some _ _ _ _ (lookup_insert_eq _ _ _)). simpl. rewrite insert_insert_eq.
  set (h := <[jp := set_next (jobhead q) (set_prev NULL n)]> (heap q)).
  assert (Hs1 : dseg h NULL l NULL) by (by apply dseg_ne).
  assert (Hnd : NoDup ((jp, n_val n) :: l).*1) by (apply NoDup_cons; done).
  assert (Hjh : h !! jp = Some (mkNode (jobhead q) NULL (n_val n))) by apply lookup_insert_eq.
  rewrite Hh. destruct l as [|[p w] l].
  - simpl. eexists. split; [done|]. rewrite Hh in Hjh. split; [|done|done|done]. simpl. done.
  - pose proof Hs as (H0 & _). simpl first_ptr. destruct (Z.eqb_spec p NULL); [done|].
    destruct (dseg_set_prev h NULL ((p, w) :: l) NULL jp) as (h' & Hst & Hs' & Hk); [done|done|done|].
    simpl first_ptr in Hst, Hk. rewrite Hst. simpl. eexists. split; [done|].
    split; simpl heap; simpl jobhead; simpl jobtail; [|done|by rewrite Ht|done].
    split; [done|]. split; [|done]. rewrite Hk by (intros ->; apply Hnot; set_solver).
    rewrite Hjh, Hh. done.
Qed.

Lemma remove_job_rep p v q l1 l2 :
  jobs_rep q (l1 ++ (p, v) :: l2) ->
  exists q', remove_job p q = Some q' /\ jobs_rep q' (l1 ++ l2) /\
    heap q !! p = Some (mkNode (first_ptr l2 NULL) (last_ptr l1 NULL) v) /\ heap q' !! p = heap q !! p.
Proof.
  intros [Hs Hh Ht Hn]. apply dseg_app in Hs as [Hs1 (H0 & Hp & Hs2)]. simpl in Hs1.
  rewrite fmap_app in Hn. simpl in Hn.
  apply NoDup_app in Hn as (Hn1 & Hd & Hn2). apply NoDup_cons in Hn2 as [Hp2 Hn2].
  assert (Hp1 : p ∉ l1.*1) by (intros Hin; apply (Hd p Hin); set_solver).
  assert (Hnd : NoDup (l1 ++ l2).*1).
  { rewrite fmap_app. apply NoDup_app. split; [done|]. split; [|done]. intros x Hx Hx2. apply (Hd x Hx). set_solver. }
  rewrite first_ptr_app in Hh. rewrite last_ptr_app in Ht. simpl in Hh, Ht.
  assert (Hfirst : forall d, l2 <> [] -> first_ptr l2 d ∈ l2.*1 /\ first_ptr l2 d <> NULL).
  { intros d Hne. destruct l2 as [|[x w] l2]; [done|]. destruct Hs2 as (Hx0 & _). simpl. split; [set_solver|done]. }
  unfold remove_job. rewrite Hp. simpl.
  assert (Hstep1 : exists h1 tl, (if first_ptr l2 NULL =? NULL then Some (heap q, last_ptr l1 NULL)
      else h ← store_prev (first_ptr l2 NULL) (last_ptr l1 NULL) (heap q); Some (h, jobtail q)) = Some (h1, tl) /\
      dseg h1 NULL l1 p /\ dseg h1 (last_ptr l1 NULL) l2 NULL /\ h1 !! p = heap q !! p /\ tl = last_ptr (l1 ++ l2) NULL).
  { destruct (decide (l2 = [])) as [->|Hne].
    - simpl. eexists _, _. split; [done|]. split; [done|]. split; [done|]. split; [done|]. by rewrite app_nil_r.
    - destruct (Hfirst NULL Hne) as [Hin2 H02]. destruct (Z.eqb_spec (first_ptr l2 NULL) NULL); [done|].
      destruct (dseg_set_prev (heap q) p l2 NULL (last_ptr l1 NULL) Hs2 Hn2 Hne) as (h1 & Hst & Hs2' & Hk).
      rewrite Hst. simpl. eexists _, _. split; [done|]. split.
      + eapply dseg_ext; [|exact Hs1]. intros x Hx. apply Hk. intros ->. apply (Hd _ Hx). set_solver.
      + split; [done|]. split; [apply Hk; intros ->; done|]. rewrite Ht, last_ptr_app.
        destruct l2 as [|[x w] l2]; [done|]. done. }
  destruct Hstep1 as (h1 & tl & -> & Hs1' & Hs2' & Hp' & ->). simpl. rewrite Hp', Hp. simpl.
  destruct (decide (l1 = [])) as [->|Hne].
  - simpl. eexists. split; [done|]. split; [by split|]. split; [done|simpl; by rewrite Hp', Hp].
  - destruct (dseg_last_in _ _ _ _ Hs1' Hne) as [Hin H01]. destruct (Z.eqb_spec (last_ptr l1 NULL) NULL); [done|].
    destruct (dseg_set_next h1 NULL l1 p (first_ptr l2 NULL) Hs1' Hn1 Hne) as (h2 & Hst & Hs1'' & Hk).
    rewrite Hst. simpl. eexists. split; [done|]. split.
    + split; simpl; [|rewrite Hh, first_ptr_app; by destruct l1 as [|[]]|done|done].
      apply dseg_app. split; [done|]. eapply dseg_ext; [|exact Hs2']. intros x Hx. apply Hk. intros ->.
      apply (Hd _ Hin). set_solver.
    + split; [done|]. simpl. rewrite Hk by (intros ->; done). by rewrite Hp', Hp.
Qed.
End Jobs.
Arguments jobs : clear implicits.
Arguments mkJobs {V} _ _ _.

(** ** The queue against its specification *)

Section Queue.
Context {V : Type}.

(** Steps on the queue: a client thread or the start-up scan adds a job, the
    printer thread picks up the job at the head, and then either finishes it
    (free) or puts it back. *)
Inductive qstep :=
  | QAdd (jp : Z) (v : V)
  | QTake
  | QDone
  | QDefer.

(** The abstract queue: the pending jobs, first to be printed first, and the
    job the printer thread has picked up. *)
Definition aqueue : Type := list (Z * V) * option (Z * V).

Definition qspec (st : qstep) (a : aqueue) : option aqueue :=
  match st, a with
  | QAdd jp v, (l, t) => Some (l ++ [(jp, v)], t)
  | QTake, (j :: l, None) => Some (l, Some j)
  | QDone, (l, Some _) => Some (l, None)
  | QDefer, (l, Some j) => Some (j :: l, None)
  | _, _ => None
  end.

(** The concrete step; [cur] is the printer thread's variable jp. *)
Definition qexec (st : qstep) (c : jobs V * Z) : option (jobs V * Z) :=
  let '(q, cur) := c in
  match st with
  | QAdd jp v => q' ← add_job jp v q; Some (q', cur)
  | QTake => q' ← remove_job (jobhead q) q; Some (q', jobhead q)
  | QDone => Some (mkJobs (delete cur (heap q)) (jobhead q) (jobtail q), NULL)
  | QDefer => q' ← replace_job cur q; Some (q', NULL)
  end.

(** malloc returns an address that is not in use. *)
Definition qfresh (st : qstep) (c : jobs V * Z) : Prop :=
  match st with QAdd jp _ => jp <> NULL /\ heap c.1 !! jp = None | _ => True end.

Record qsim (c : jobs V * Z) (a : aqueue) : Prop := {
  qs_rep : jobs_rep c.1 a.1;
  qs_cur : match a.2 with
           | Some (p, v) => c.2 = p /\ p <> NULL /\ (p ∉ (a.1).*1) /\ exists n, heap c.1 !! p = Some n /\ n_val n = v
           | None => c.2 = NULL
           end
}.

Lemma dseg_delete (h : gmap Z (node V)) prev l next p : p ∉ l.*1 -> dseg h prev l next -> dseg (delete p h) prev l next.
Proof.
  intros Hp. apply dseg_ext. intros q Hq. apply lookup_delete_ne. intros ->. done.
Qed.

(** The job added does not disturb the one in hand. *)
Lemma add_job_keeps jp v (q q' : jobs V) p n :
  add_job jp v q = Some q' -> jp <> p -> heap q !! p = Some n -> exists n', heap q' !! p = Some n' /\ n_val n' = n_val n.
Proof.
  unfold add_job. intros E Hne Hp. destruct (jobtail q =? NULL).
  - injection E as <-. simpl. rewrite lookup_insert_ne by done. eauto.
  - destruct (store_next (jobtail q) jp _) as [h'|] eqn:Es; simpl in E; [|done]. injection E as <-. simpl.
    unfold store_next in Es. destruct (<[jp:=_]> (heap q) !! jobtail q) as [m|] eqn:Em; simpl in Es; [|done].
    injection Es as <-. destruct (decide (p = jobtail q)) as [->|].
    + rewrite lookup_insert_eq. rewrite lookup_insert_ne in Em by done. rewrite Hp in Em. injection Em as <-. eauto.
    + rewrite !lookup_insert_ne by done. eauto.
Qed.

Lemma qstep_sim st c a a' :
  qsim c a -> qfresh st c -> qspec st a = Some a' -> exists c', qexec st c = Some c' /\ qsim c' a'.
Proof.
  intros [Hr Hc] Hf Hs. destruct c as [q cur], a as [l t]. simpl in *. destruct st as [jp v| | |]; simpl in Hs.
  - injection Hs as <-. destruct Hf as [H0 Hf]. destruct (add_job_rep jp v q l Hr H0 Hf) as (q' & E & Hr').
    rewrite E. simpl. eexists. split; [done|]. split; [done|]. destruct t as [[p w]|]; [|done]. simpl in *.
    destruct Hc as (-> & Hp0 & Hnot & n & Hn & Hv).
    assert (jp <> p) by congruence. destruct (add_job_keeps jp v q q' p n E ltac:(done) Hn) as (n' & Hn' & Hv').
    repeat split; try done; [|exists n'; split; [done|congruence]]. rewrite fmap_app. set_solver.
  - destruct l as [|[p v] l]; [done|]. destruct t; [done|]. injection Hs as <-.
    destruct (remove_job_rep p v q [] l Hr) as (q' & E & Hr' & Hp & Hp'). simpl in Hr'.
    destruct Hr as [Hseg Hh Ht Hnd]. rewrite Hh. simpl. rewrite E. simpl. eexists. split; [done|]. split; [done|].
    simpl. destruct Hseg as (H0 & _). apply NoDup_cons in Hnd as [Hnot _].
    repeat split; try done. rewrite Hp', Hp. by eexists.
  - destruct t as [[p v]|]; [|done]. injection Hs as <-. eexists. split; [done|].
    destruct Hc as (-> & _ & Hnot & _). destruct Hr as [Hseg Hh Ht Hnd]. split; [|done].
    split; try done. simpl. by apply dseg_delete.
  - destruct t as [[p v]|]; [|done]. injection Hs as <-. destruct Hc as (-> & H0 & Hnot & n & Hn & <-).
    destruct (replace_job_rep p n q l Hr H0 Hnot Hn) as (q' & E & Hr'). rewrite E. simpl. eexists. split; [done|].
    by split.
Qed.

(** Runs. *)
Fixpoint qspecs (sts : list qstep) (a : aqueue) : option aqueue :=
  match sts with [] => Some a | st :: sts' => a' ← qspec st a; qspecs sts' a' end.
Fixpoint qexecs (sts : list qstep) (c : jobs V * Z) : option (jobs V * Z) :=
  match sts with [] => Some c | st :: sts' => c' ← qexec st c; qexecs sts' c' end.

(** Every allocation of the run is fresh when it is made. *)
Fixpoint qfreshs (sts : list qstep) (c : jobs V * Z) : Prop :=
  match sts with
  | [] => True
  | st :: sts' => qfresh st c /\ forall c', qexec st c = Some c' -> qfreshs sts' c'
  end.

Lemma qsteps_sim sts c a a' :
  qsim c a -> qfreshs sts c -> qspecs sts a = Some a' -> exists c', qexecs sts c = Some c' /\ qsim c' a'.
Proof.
  revert c a. induction sts as [|st sts IH]; intros c a Hq Hf Hs; simpl in Hs |- *.
  - injection Hs as <-. eauto.
  - destruct (qspec st a) as [a1|] eqn:E; simpl in Hs; [|done]. destruct Hf as [Hf Hf'].
    destruct (qstep_sim st c a a1 Hq Hf E) as (c1 & E1 & Hq1). rewrite E1. simpl. by apply (IH c1 a1); [|apply Hf'|].
Qed.
End Queue.
Arguments qstep : clear implicits.

(** ** The worker list *)

(** A worker: thread id and socket. *)
Record workers_t := mkWorkers { wheap : gmap Z (node (Z * Z)); workers : Z }.

(** [add_worker], [wtp] being the address malloc returned. *)
Definition add_worker (wtp tid sockfd : Z) (w : workers_t) : option workers_t :=
  let h := <[wtp := mkNode (workers w) NULL (tid, sockfd)]> (wheap w) in
  if workers w =? NULL then Some (mkWorkers h wtp)
  else h' ← store_prev (workers w) wtp h; Some (mkWorkers h' (workers w)).

(** The loop of [kill_workers]: the threads it cancels. *)
Fixpoint kill_loop (fuel : nat) (wtp : Z) (h : gmap Z (node (Z * Z))) : option (list Z) :=
  if wtp =? NULL then Some []
  else match fuel with
    | O => None
    | S fuel' => n ← h !! wtp; rest ← kill_loop fuel' (n_next n) h; Some (fst (n_val n) :: rest)
    end.
Definition kill_workers (w : workers_t) : option (list Z) := kill_loop (S (size (wheap w))) (workers w) (wheap w).

(** The search of [client_cleanup]: the worker with the thread id, or null. *)
Fixpoint find_worker (fuel : nat) (wtp tid : Z) (h : gmap Z (node (Z * Z))) : option Z :=
  if wtp =? NULL then Some NULL
  else match fuel with
    | O => None
    | S fuel' => n ← h !! wtp; if fst (n_val n) =? tid then Some wtp else find_worker fuel' (n_next n) tid h
    end.

(** [client_cleanup]: the socket it closes, if it finds the thread, and the
    list after the structure is unlinked and freed. *)
Definition client_cleanup (tid : Z) (w : workers_t) : option (option Z * workers_t) :=
  wtp ← find_worker (S (size (wheap w))) (workers w) tid (wheap w);
  if wtp =? NULL then Some (None, w)
  else
    n ← wheap w !! wtp;
    h ← (if n_next n =? NULL then Some (wheap w) else store_prev (n_next n) (n_prev n) (wheap w));
    '(h, hd) ← (if n_prev n =? NULL then Some (h, n_next n)
                else h' ← store_next (n_prev n) (n_next n) h; Some (h', workers w));
    Some (Some (snd (n_val n)), mkWorkers (delete wtp h) hd).
