(* ===== verification/Print.v ===== *)
(** * Print: the print spooler of apue.2e/ipp, definitions.

    printd.c: the daemon's request, printer and start-up code over the lists of
    PrintQueue; util.c: timed reads and the configuration file; print.c: the
    client; ipp.h and print.h: the formats.

    The operating system's answers are part of the state [env]: the spool files,
    what arrives on the socket in use, and for every call that can fail a
    [fault] to come.  A function is a computation of the monad [P]. *)
From S2P Require Import Prelude Libc Files PrintQueue.
Local Open Scope Z_scope.

(** ** Constants *)

Definition SPOOLDIR : bytes := str "/var/spool/printer".
Definition JOBFILE : bytes := str "jobno".
Definition DATADIR : bytes := str "data".
Definition REQDIR : bytes := str "reqs".
Definition FILENMSZ : Z := 64.
Definition USERNM_MAX : Z := 64.
Definition JOBNM_MAX : Z := 256.
Definition MSGLEN_MAX : Z := 512.
Definition IPP_PORT : Z := 631.
Definition IBUFSZ : Z := 512.
Definition HBUFSZ : Z := 512.
Definition IOBUFSZ : Z := 8192.
Definition MAXCFGLINE : Z := 512.
Definition MAXKWLEN : Z := 16.
Definition PR_TEXT : Z := 1.
Definition EIO : Z := 5.
Definition ETIME : Z := 62.

Definition OP_PRINT_JOB : Z := 0x02.
Definition TAG_OPERATION_ATTR : Z := 0x01.
Definition TAG_END_OF_ATTR : Z := 0x03.
Definition TAG_NAMEWOLANG : Z := 0x42.
Definition TAG_URI : Z := 0x45.
Definition TAG_CHARSET : Z := 0x47.
Definition TAG_NATULANG : Z := 0x48.
Definition TAG_MIMETYPE : Z := 0x49.
Definition STATCLASS_OK (x : Z) : bool := (0 <=? x) && (x <=? 0xff).
Definition HTTP_INFO (x : Z) : bool := (100 <=? x) && (x <=? 199).
Definition HTTP_SUCCESS (x : Z) : bool := (200 <=? x) && (x <=? 299).

(** ** Byte order and formats *)

(** Network order: most significant byte first. *)
Definition be_bytes (n : nat) (z : Z) : bytes := rev (le_bytes n z).
Definition be_value (b : bytes) : Z := le_word (rev b).

(** htonl and ntohl on a little-endian host: the argument is converted to 32
    bits, its bytes are reversed. *)
Definition htonl (z : Z) : Z := le_word (be_bytes 4 (wrap_u 32 z)).
Definition ntohl (z : Z) : Z := htonl z.

(** struct printreq: the arrays with all their bytes. *)
Record printreq := mkReq { rq_size : Z; rq_flags : Z; rq_usernm : bytes; rq_jobnm : bytes }.
Definition SIZEOF_REQ : Z := 336.

(** A char array of [n] bytes that holds string [s], the rest being [junk]. *)
Definition char_array (n : Z) (s junk : bytes) : bytes := take (Z.to_nat n) (s ++ [0] ++ junk ++ replicate (Z.to_nat n) 0).

(** The bytes of a struct printreq (longs of eight bytes), and back. *)
Definition enc_req (r : printreq) : bytes :=
  le_bytes 8 (wrap_u 64 (rq_size r)) ++ le_bytes 8 (wrap_u 64 (rq_flags r)) ++ rq_usernm r ++ rq_jobnm r.
Definition dec_req (b : bytes) : printreq :=
  mkReq (wrap_s 64 (le_word (take 8 b))) (wrap_s 64 (le_word (take 8 (drop 8 b))))
    (take 64 (drop 16 b)) (take 256 (drop 80 b)).

(** struct printresp as it is sent: the job id is not set on one error path. *)
Record printresp := mkResp { rp_retcode : Z; rp_jobid : option Z; rp_msg : bytes }.

(** A job: its number and the request. *)
Definition job : Type := Z * printreq.

(** ** State *)

(** How a call fails: with an errno, or after part of the bytes. *)
Inductive fault := FOk | FErr (e : Z) | FShort (n : Z).

(** What select and read find on a socket. *)
Inductive rd := RData (b : bytes) | RTimeout | RErr (e : Z).

Record env := mkEnv {
  nextjob : Z;
  jobfd : ofile;
  jobq : jobs job;
  brk : Z;  (* the address malloc returns next *)
  wrk : workers_t;
  reread : bool;
  printer_name : bytes;
  config : list bytes;  (* lines of the configuration file *)
  files : gmap bytes bytes;  (* the spool directories *)
  faults : list fault;  (* of the calls to come; none when the list is used up *)
  inp : list rd;  (* what arrives on the socket in use *)
  outp : bytes;  (* what was sent to the printer *)
  resps : list printresp;  (* responses sent to clients, newest first *)
  closed : list Z;  (* sockets closed by clean-up handlers, newest first *)
  errno : Z;
  logs : list (string * list Z)  (* newest first *)
}.

Definition set_nextjob v e := mkEnv v (jobfd e) (jobq e) (brk e) (wrk e) (reread e) (printer_name e) (config e) (files e) (faults e) (inp e) (outp e) (resps e) (closed e) (errno e) (logs e).
Definition set_jobfd v e := mkEnv (nextjob e) v (jobq e) (brk e) (wrk e) (reread e) (printer_name e) (config e) (files e) (faults e) (inp e) (outp e) (resps e) (closed e) (errno e) (logs e).
Definition set_jobq v e := mkEnv (nextjob e) (jobfd e) v (brk e) (wrk e) (reread e) (printer_name e) (config e) (files e) (faults e) (inp e) (outp e) (resps e) (closed e) (errno e) (logs e).
Definition set_brk v e := mkEnv (nextjob e) (jobfd e) (jobq e) v (wrk e) (reread e) (printer_name e) (config e) (files e) (faults e) (inp e) (outp e) (resps e) (closed e) (errno e) (logs e).
Definition set_wrk v e := mkEnv (nextjob e) (jobfd e) (jobq e) (brk e) v (reread e) (printer_name e) (config e) (files e) (faults e) (inp e) (outp e) (resps e) (closed e) (errno e) (logs e).
Definition set_reread v e := mkEnv (nextjob e) (jobfd e) (jobq e) (brk e) (wrk e) v (printer_name e) (config e) (files e) (faults e) (inp e) (outp e) (resps e) (closed e) (errno e) (logs e).
Definition set_printer_name v e := mkEnv (nextjob e) (jobfd e) (jobq e) (brk e) (wrk e) (reread e) v (config e) (files e) (faults e) (inp e) (outp e) (resps e) (closed e) (errno e) (logs e).
Definition set_files v e := mkEnv (nextjob e) (jobfd e) (jobq e) (brk e) (wrk e) (reread e) (printer_name e) (config e) v (faults e) (inp e) (outp e) (resps e) (closed e) (errno e) (logs e).
Definition set_faults v e := mkEnv (nextjob e) (jobfd e) (jobq e) (brk e) (wrk e) (reread e) (printer_name e) (config e) (files e) v (inp e) (outp e) (resps e) (closed e) (errno e) (logs e).
Definition set_inp v e := mkEnv (nextjob e) (jobfd e) (jobq e) (brk e) (wrk e) (reread e) (printer_name e) (config e) (files e) (faults e) v (outp e) (resps e) (closed e) (errno e) (logs e).
Definition set_outp v e := mkEnv (nextjob e) (jobfd e) (jobq e) (brk e) (wrk e) (reread e) (printer_name e) (config e) (files e) (faults e) (inp e) v (resps e) (closed e) (errno e) (logs e).
Definition set_resps v e := mkEnv (nextjob e) (jobfd e) (jobq e) (brk e) (wrk e) (reread e) (printer_name e) (config e) (files e) (faults e) (inp e) (outp e) v (closed e) (errno e) (logs e).
Definition set_closed v e := mkEnv (nextjob e) (jobfd e) (jobq e) (brk e) (wrk e) (reread e) (printer_name e) (config e) (files e) (faults e) (inp e) (outp e) (resps e) v (errno e) (logs e).
Definition set_errno v e := mkEnv (nextjob e) (jobfd e) (jobq e) (brk e) (wrk e) (reread e) (printer_name e) (config e) (files e) (faults e) (inp e) (outp e) (resps e) (closed e) v (logs e).
Definition set_logs v e := mkEnv (nextjob e) (jobfd e) (jobq e) (brk e) (wrk e) (reread e) (printer_name e) (config e) (files e) (faults e) (inp e) (outp e) (resps e) (closed e) (errno e) v.

(** ** The monad *)

Inductive res (A : Type) :=
  | PRet (a : A) (e : env)
  | PThreadExit (e : env)  (* pthread_exit *)
  | PQuit (e : env)  (* the process ends: log_quit, log_sys, exit *)
  | PBlocked (e : env)  (* waiting for a condition *)
  | PUndef (why : string) (e : env)
  | PNoFuel.
Arguments PRet {A} a e.
Arguments PThreadExit {A} e.
Arguments PQuit {A} e.
Arguments PBlocked {A} e.
Arguments PUndef {A} why e.
Arguments PNoFuel {A}.

Definition P (A : Type) : Type := env -> res A.

#[export] Instance P_ret : MRet P := fun A a e => PRet a e.
#[export] Instance P_bind : MBind P := fun A B k m e =>
  match m e with
  | PRet a e' => k a e'
  | PThreadExit e' => PThreadExit e'
  | PQuit e' => PQuit e'
  | PBlocked e' => PBlocked e'
  | PUndef w e' => PUndef w e'
  | PNoFuel => PNoFuel
  end.

Definition get : P env := fun e => PRet e e.
Definition modify (f : env -> env) : P unit := fun e => PRet tt (f e).
Definition pthread_exit {A} : P A := fun e => PThreadExit e.
Definition undef {A} (why : string) : P A := fun e => PUndef why e.
Definition nofuel {A} : P A := fun _ => PNoFuel.
Definition log_msg (m : string) (args : list Z) : P unit := modify (fun e => set_logs ((m, args) :: logs e) e).
Definition quit {A} : P A := fun e => PQuit e.
Definition blocked {A} : P A := fun e => PBlocked e.
Definition log_quit {A} (m : string) : P A := log_msg m [];; quit.
Definition log_sys {A} (m : string) : P A := log_quit m.

(** Run a pure operation on a list; a bad address is undefined behaviour. *)
Definition lift {A} (o : option A) : P A := match o with Some a => mret a | None => undef "invalid pointer" end.

(** The outcome of the next call that can fail. *)
Definition next_fault : P fault := fun e =>
  match faults e with
  | [] => PRet FOk e
  | f :: fs => PRet f (set_faults fs e)
  end.

Definition malloc : P Z := fun e => PRet (brk e) (set_brk (brk e + 1) e).

(** ** util.c *)

(** [tread]: select with a timeout, then one read of at most [n] bytes; what
    does not fit stays on the socket.  The result is -1 or the count, and the
    bytes. *)
Definition tread (n : Z) : P (Z * bytes) := fun e =>
  match inp e with
  | [] => PRet (0, []) e
  | RTimeout :: r => PRet (-1, []) (set_errno ETIME (set_inp r e))
  | RErr err :: r => PRet (-1, []) (set_errno err (set_inp r e))
  | RData b :: r =>
    let rest := drop (Z.to_nat n) b in
    PRet (Z.of_nat (length (take (Z.to_nat n) b)), take (Z.to_nat n) b)
      (set_inp (if bool_decide (rest = []) then r else RData rest :: r) e)
  end.

(** The loop of [treadn]: [got] is what was read so far. *)
Fixpoint treadn_loop (fuel : nat) (nbytes : Z) (got : bytes) : P (Z * bytes) :=
  let nleft := nbytes - Z.of_nat (length got) in
  if nleft <=? 0 then mret (nbytes - nleft, got)
  else
    match fuel with
    | O => nofuel
    | S fuel' =>
      '(nread, b) ← tread nleft;
      if nread <? 0 then
        if nleft =? nbytes then mret (-1, got) else mret (nbytes - nleft, got)
      else if nread =? 0 then mret (nbytes - nleft, got)
      else treadn_loop fuel' nbytes (got ++ b)
    end.

(** Each turn reads at least one byte. *)
Definition treadn (nbytes : Z) : P (Z * bytes) := treadn_loop (Z.to_nat nbytes) nbytes [].

(** sscanf's %<w>s: skip white space, then at most [w] characters. *)
Fixpoint word (w : nat) (s : bytes) : bytes * bytes :=
  match w, s with
  | S w', c :: s' => if isspace c then ([], s) else let '(a, r) := word w' s' in (c :: a, r)
  | _, _ => ([], s)
  end.

(** sscanf(line, "%15s %511s", keybuf, valbuf). *)
Definition scan_line (line : bytes) : option (bytes * bytes) :=
  let '(k, r) := word (Z.to_nat (MAXKWLEN - 1)) (skip_space line) in
  let '(v, _) := word (Z.to_nat (MAXCFGLINE - 1)) (skip_space r) in
  if bool_decide (k = []) || bool_decide (v = []) then None else Some (k, v).

(** fgets with a buffer of [n] bytes splits long lines. *)
Fixpoint fgets_lines (fuel : nat) (n : nat) (line : bytes) : list bytes :=
  match fuel with
  | O => [line]
  | S fuel' =>
    if (length line <=? n)%nat then [line] else take n line :: fgets_lines fuel' n (drop n line)
  end.

(** The value of the first line with the keyword. *)
Fixpoint scan_lines (keyword : bytes) (lines : list bytes) : option bytes :=
  match lines with
  | [] => None
  | l :: ls =>
    match scan_line l with
    | Some (k, v) => if bool_decide (k = keyword) then Some v else scan_lines keyword ls
    | None => scan_lines keyword ls
    end
  end.

Definition scan_configfile (keyword : bytes) (lines : list bytes) : option bytes :=
  scan_lines keyword (concat (map (fun l => fgets_lines (length l) (Z.to_nat (MAXCFGLINE - 1)) l) lines)).

Definition get_printserver (lines : list bytes) : option bytes := scan_configfile (str "printserver") lines.

(** ** Job numbers *)

Definition jobfile_name : bytes := SPOOLDIR ++ str "/" ++ JOBFILE.

(** [init_request] on the contents of the job file: the number is read over the
    file name that is still in the buffer.  [locked]: another daemon holds the
    record lock. *)
Definition init_request (locked : bool) : P unit :=
  if locked then log_quit "daemon already running"
  else
    e ← get;
    let '(n, b, f) := sys_read (jobfd e) FILENMSZ in
    modify (set_jobfd f);;
    if n <? 0 then log_sys "can't read job file"
    else if n =? 0 then modify (set_nextjob 1)
    else modify (set_nextjob (atol (cstring (splice (jobfile_name ++ [0]) 0 b)))).

(** [update_jobno]: the file is overwritten from its start, not truncated. *)
Definition update_jobno : P unit :=
  e ← get;
  let '(_, f) := sys_lseek (jobfd e) 0 SEEK_SET in
  let '(n, f') := sys_write f (fmt_ld (nextjob e)) in
  modify (set_jobfd f');;
  if n <? 0 then log_sys "can't update job file" else mret tt.

(** [get_newjobno]; the increment of the largest long wraps. *)
Definition get_newjobno : P Z :=
  e ← get;
  let jobid := nextjob e in
  let next := wrap_s 64 (nextjob e + 1) in
  modify (set_nextjob (if next <=? 0 then 1 else next));;
  mret jobid.

(** ** Spool files *)

Definition data_name (jobid : Z) : bytes := SPOOLDIR ++ str "/" ++ DATADIR ++ str "/" ++ fmt_ld jobid.
Definition req_name (nm : bytes) : bytes := SPOOLDIR ++ str "/" ++ REQDIR ++ str "/" ++ nm.

(** creat: -1 with errno, or an empty file. *)
Definition creat (name : bytes) : P Z :=
  f ← next_fault;
  match f with
  | FErr err => modify (set_errno err);; mret (-1)
  | _ => modify (fun e => set_files (<[name := []]> (files e)) e);; mret 0
  end.

(** write at the end of a spool file. *)
Definition write_file (name b : bytes) : P Z :=
  f ← next_fault;
  match f with
  | FErr err => modify (set_errno err);; mret (-1)
  | FShort n =>
    let b' := take (Z.to_nat n) b in
    modify (fun e => set_files (<[name := default [] (files e !! name) ++ b']> (files e)) e);;
    mret (Z.of_nat (length b'))
  | FOk =>
    modify (fun e => set_files (<[name := default [] (files e !! name) ++ b]> (files e)) e);;
    mret (Z.of_nat (length b))
  end.

Definition unlink (name : bytes) : P unit := modify (fun e => set_files (delete name (files e)) e).

(** Send a response to the client; the result of writen is not looked at. *)
Definition respond (r : printresp) : P unit := modify (fun e => set_resps (r :: resps e) e).

(** ** The queue *)

Definition add_job_d (req : printreq) (jobid : Z) : P unit :=
  jp ← malloc;
  e ← get;
  q ← lift (add_job jp (jobid, req) (jobq e));
  modify (set_jobq q).

(** The spool directory on start-up: [names] is what readdir returns. *)
Fixpoint build_loop (names : list bytes) : P unit :=
  match names with
  | [] => mret tt
  | nm :: names' =>
    (if bool_decide (nm = str ".") || bool_decide (nm = str "..") then mret tt
     else
       e ← get;
       f ← next_fault;
       match f, files e !! req_name nm with
       | FErr _, _ | _, None => mret tt  (* open failed *)
       | _, Some b =>
         f ← next_fault;
         let got := match f with
                    | FErr _ => None
                    | FShort n => Some (take (Z.to_nat n) b)
                    | FOk => Some (take (Z.to_nat SIZEOF_REQ) b)
                    end in
         match got with
         | Some r =>
           if Z.of_nat (length r) =? SIZEOF_REQ then
             log_msg "adding job %ld to queue" [atol nm];;
             add_job_d (dec_req r) (atol nm)
           else
             log_msg "build_qonstart: can't read %s: %s" [];;
             unlink (req_name nm);; unlink (SPOOLDIR ++ str "/" ++ DATADIR ++ str "/" ++ nm)
         | None =>
           log_msg "build_qonstart: can't read %s: %s" [];;
           unlink (req_name nm);; unlink (SPOOLDIR ++ str "/" ++ DATADIR ++ str "/" ++ nm)
         end
       end);;
    build_loop names'
  end.

Definition build_qonstart (dir : option (list bytes)) : P unit :=
  match dir with None => mret tt | Some names => build_loop names end.

Section Daemon.
(** strerror, the resolver's answer for a host (0 or an error code, and the
    canonical name), and what the stack holds before it is written. *)
Context (strerror : Z -> bytes) (getaddrinfo : bytes -> Z * option bytes) (junk : bytes).

(** ** Client threads *)

(** An error response with code [err]. *)
Definition reject (jobid : option Z) (err : Z) : P unit :=
  let rc := htonl err in
  respond (mkResp rc jobid (take (Z.to_nat MSGLEN_MAX) (strerror rc))).

(** The loop that stores the document: [None] after a failed write. *)
Fixpoint store_loop (fuel : nat) (name : bytes) (first : bool) (flags : Z) : P (option Z) :=
  match fuel with
  | O => nofuel
  | S fuel' =>
    '(nr, b) ← tread IOBUFSZ;
    if nr <=? 0 then mret (Some flags)
    else
      let flags :=
        if first && negb (bool_decide (take 4 (b ++ junk) = str "%!PS")) then Z.lor flags PR_TEXT else flags in
      nw ← write_file name b;
      if negb (nw =? nr) then
        e ← get;
        log_msg "client_thread: can't write %s: %s" [];;
        reject None (if nw <? 0 then errno e else EIO);;
        unlink name;;
        mret None
      else store_loop fuel' name false flags
  end.

(** [client_thread] from the header to the queue, between add_worker and the
    clean-up handler. *)
Definition client_body (fuel : nat) : P unit :=
  '(n, b) ← treadn SIZEOF_REQ;
  e ← get;
  if negb (n =? SIZEOF_REQ) then
    reject (Some 0) (if n <? 0 then errno e else EIO);; pthread_exit
  else
    let r := dec_req b in
    let req := mkReq (ntohl (rq_size r)) (ntohl (rq_flags r)) (rq_usernm r) (rq_jobnm r) in
    jobid ← get_newjobno;
    fd ← creat (data_name jobid);
    e ← get;
    if fd <? 0 then
      log_msg "client_thread: can't create %s: %s" [];;
      reject (Some 0) (if n <? 0 then errno e else EIO);; pthread_exit
    else
      stored ← store_loop fuel (data_name jobid) true (rq_flags req);
      match stored with
      | None => pthread_exit
      | Some flags =>
        let req := mkReq (rq_size req) flags (rq_usernm req) (rq_jobnm req) in
        fd ← creat (req_name (fmt_ld jobid));
        e ← get;
        if fd <? 0 then
          log_msg "client_thread: can't create %s: %s" [];;
          reject (Some 0) (if n <? 0 then errno e else EIO);;
          unlink (data_name jobid);; pthread_exit
        else
          nw ← write_file (req_name (fmt_ld jobid)) (enc_req req);
          e ← get;
          if negb (nw =? SIZEOF_REQ) then
            log_msg "client_thread: can't write %s: %s" [];;
            reject (Some 0) (if nw <? 0 then errno e else EIO);;
            unlink (req_name (fmt_ld jobid));; unlink (data_name jobid);; pthread_exit
          else
            respond (mkResp 0 (Some (htonl jobid)) (str "request ID " ++ fmt_ld jobid));;
            log_msg "adding job %ld to queue" [jobid];;
            add_job_d req jobid
      end.

(** The clean-up handler. *)
Definition cleanup (tid : Z) : P unit :=
  e ← get;
  '(sock, w) ← lift (client_cleanup tid (wrk e));
  modify (set_wrk w);;
  match sock with Some fd => modify (fun e => set_closed (fd :: closed e) e) | None => mret tt end.

(** [client_thread]: the handler runs at pthread_exit and at the end. *)
Definition client_thread (fuel : nat) (tid sockfd : Z) : P unit := fun e =>
  match (wtp ← malloc; e ← get; w ← lift (add_worker wtp tid sockfd (wrk e)); modify (set_wrk w);;
         client_body fuel) e with
  | PThreadExit e' => (cleanup tid;; pthread_exit) e'
  | PRet _ e' => cleanup tid e'
  | r => r
  end.

(** [signal_thread] on one signal: SIGHUP is 1, SIGTERM 15. *)
Definition on_signal (signo : Z) : P (list Z) :=
  if signo =? 1 then modify (set_reread true);; mret []
  else
    e ← get;
    tids ← lift (kill_workers (wrk e));
    log_quit (if signo =? 15 then "terminate with signal %s" else "unexpected signal %d").

(** ** The request to the printer *)

(** [add_option]: tag, lengths as 16-bit integers in network order, strings.
    The result is the header with the option at its end. *)
Definition add_option (hdr : bytes) (tag : Z) (optname optval : bytes) : bytes :=
  hdr ++ [wrap_u 8 tag] ++ be_bytes 2 (wrap_u 16 (Z.of_nat (length optname))) ++ optname
      ++ be_bytes 2 (wrap_u 16 (Z.of_nat (length optval))) ++ optval.

(** The IPP header of a job: version 1.1, operation, request id, attributes. *)
Definition ipp_header (pname : bytes) (jobid : Z) (req : printreq) : bytes :=
  let icp := [1; 1] ++ be_bytes 2 OP_PRINT_JOB ++ be_bytes 4 (wrap_u 32 jobid) ++ [TAG_OPERATION_ATTR] in
  let icp := add_option icp TAG_CHARSET (str "attributes-charset") (str "utf-8") in
  let icp := add_option icp TAG_NATULANG (str "attributes-natural-language") (str "en-us") in
  let uri := str "http://" ++ pname ++ str ":" ++ fmt_ld IPP_PORT in
  let icp := add_option icp TAG_URI (str "printer-uri") uri in
  let icp := add_option icp TAG_NAMEWOLANG (str "requesting-user-name") (cstring (rq_usernm req)) in
  let icp := add_option icp TAG_NAMEWOLANG (str "job-name") (cstring (rq_jobnm req)) in
  let icp := add_option icp TAG_MIMETYPE (str "document-format")
    (if negb (Z.land (rq_flags req) PR_TEXT =? 0) then str "text/plain" else str "application/postscript") in
  icp ++ [TAG_END_OF_ATTR].

Definition CRLF : bytes := [13; 10].

(** The HTTP header, for a document of [size] bytes behind an IPP header of
    [ilen] bytes. *)
Definition http_header (pname : bytes) (size ilen : Z) : bytes :=
  str "POST /" ++ pname ++ str "/ipp HTTP/1.1" ++ CRLF ++
  str "Content-Length: " ++ fmt_ld (size + ilen) ++ CRLF ++
  str "Content-Type: application/ipp" ++ CRLF ++
  str "Host: " ++ pname ++ str ":" ++ fmt_ld IPP_PORT ++ CRLF ++ CRLF.

(** ** The printer's response *)

(** Uninitialized memory of [n] bytes. *)
Definition fresh (n : Z) : bytes := take (Z.to_nat n) (junk ++ replicate (Z.to_nat n) 0).

(** [bp[i]]. *)
Definition char_at (bp : bytes) (i : Z) : P Z :=
  match bp !! Z.to_nat i with Some c => mret c | None => undef "access past the end of the response buffer" end.

(** [while (p( *cp)) cp++], from offset [i] on. *)
Fixpoint skip_while (fuel : nat) (p : Z -> bool) (bp : bytes) (i : Z) : P Z :=
  match fuel with
  | O => nofuel
  | S fuel' => c ← char_at bp i; if p c then skip_while fuel' p bp (i + 1) else mret i
  end.

(** [bp[i] = c]. *)
Definition poke (bp : bytes) (i c : Z) : P bytes :=
  if i <? Z.of_nat (length bp) then mret (<[Z.to_nat i := c]> bp)
  else undef "write past the end of the response buffer".

(** [readmore]: more data at offset [off], in a bigger buffer if need be; the
    end of the data and the buffer, or [None]. *)
Definition readmore (bp : bytes) (off : Z) : P (option (Z * bytes)) :=
  let bp := if Z.of_nat (length bp) <=? off then bp ++ fresh IOBUFSZ else bp in
  '(nr, b) ← tread (Z.of_nat (length bp) - off);
  if 0 <? nr then mret (Some (off + nr, splice bp (Z.to_nat off) b)) else mret None.

Definition lower (c : Z) : Z := if (65 <=? c) && (c <=? 90) then c + 32 else c.

(** strncasecmp(cp, s, strlen(s)) == 0: characters are read as far as they
    agree. *)
Fixpoint prefix_nocase (bp : bytes) (i : Z) (s : bytes) : P bool :=
  match s with
  | [] => mret true
  | x :: s' => c ← char_at bp i; if lower c =? lower x then prefix_nocase bp (i + 1) s' else mret false
  end.

(** The scan for the next 'C' or 'c', up to the end of the data. *)
Fixpoint find_c (fuel : nat) (bp : bytes) (i nr : Z) : P Z :=
  match fuel with
  | O => nofuel
  | S fuel' =>
    c ← char_at bp i;
    if negb (c =? 67) && negb (c =? 99) && (i <? nr) then find_c fuel' bp (i + 1) nr else mret i
  end.

(** The number behind the header's name, which starts at offset [i]; a null
    byte is put at its end. *)
Definition content_value (bp : bytes) (i nr : Z) : P (option (bytes * Z * Z * Z)) :=
  cl ← skip_while (S (length bp)) isspace bp i;
  cp ← skip_while (S (length bp)) isdigit bp cl;
  bp ← poke bp cp 0;
  mret (Some (bp, cp + 1, nr, atoi (cstring (drop (Z.to_nat cl) bp)))).

(** The loop that looks for Content-Length: the buffer, the offset behind the
    number, the end of the data, the length; [None]: goto out. *)
Fixpoint content_loop (fuel : nat) (bp : bytes) (i nr : Z) : P (option (bytes * Z * Z * Z)) :=
  match fuel with
  | O => nofuel
  | S fuel' =>
    i ← find_c (S (length bp)) bp i nr;
    more ← (if nr <=? i then readmore bp i else mret (Some (nr, bp)));
    match more with
    | None => mret None
    | Some (nr, bp) =>
      ok ← prefix_nocase bp i (str "Content-Length:");
      if (ok : bool) then content_value bp (i + 15) nr
      else content_loop fuel' bp (i + 1) nr
    end
  end.

(** The inner loop over the header's bytes: the offset where it stops, and
    whether the blank line was found. *)
Fixpoint blank_line (fuel : nat) (bp : bytes) (i nr : Z) : P (Z * bool) :=
  if negb (i <? nr - 2) then mret (i, false)
  else
    match fuel with
    | O => nofuel
    | S fuel' =>
      a ← char_at bp i; b ← char_at bp (i + 1); c ← char_at bp (i + 2);
      if (a =? 10) && (b =? 13) && (c =? 10) then mret (i + 3, true) else blank_line fuel' bp (i + 1) nr
    end.

(** [while (!found)]: the end of the HTTP header. *)
Fixpoint header_end (fuel : nat) (bp : bytes) (i nr : Z) : P (option (bytes * Z * Z)) :=
  match fuel with
  | O => nofuel
  | S fuel' =>
    '(i, found) ← blank_line (Z.to_nat (nr - i)) bp i nr;
    more ← (if nr <=? i then readmore bp i else mret (Some (nr, bp)));
    match more with
    | None => mret None
    | Some (nr, bp) => if (found : bool) then mret (Some (bp, i, nr)) else header_end fuel' bp i nr
    end
  end.

(** The IPP response header at offset [i]: status and request id. *)
Definition ipp_status (bp : bytes) (i : Z) : P (Z * Z) :=
  if Z.of_nat (length bp) <? i + 8 then undef "access past the end of the response buffer"
  else mret (be_value (take 2 (drop (Z.to_nat (i + 2)) bp)), be_value (take 4 (drop (Z.to_nat (i + 4)) bp))).

(** The end of [printer_status] after a failed read. *)
Definition status_failed : P Z := log_msg "jobid %ld: error reading printer response: %s" [];; mret 0.

(** What follows a successful HTTP status line. *)
Definition read_status (fuel : nat) (bp : bytes) (i nr jobid : Z) : P Z :=
  r ← content_loop fuel bp i nr;
  match r with
  | None => status_failed
  | Some (bp, i, nr, len) =>
    more ← (if nr <=? i then readmore bp i else mret (Some (nr, bp)));
    match more with
    | None => status_failed
    | Some (nr, bp) =>
      r ← header_end fuel bp i nr;
      match r with
      | None => status_failed
      | Some (bp, i, nr) =>
        more ← (if nr - i <? len then readmore bp i else mret (Some (nr, bp)));
        match more with
        | None => status_failed
        | Some (nr, bp) =>
          '(st, id) ← ipp_status bp i;
          if negb (id =? jobid) then log_msg "jobid %ld status code %d" [id; st];; mret 0
          else mret (if STATCLASS_OK st then 1 else 0)
        end
      end
    end
  end.

(** The status line: the code, the buffer with null bytes behind the code and
    at the end of the line, and the offset of the latter; [None]: no code. *)
Definition status_line (bp : bytes) : P (option (Z * bytes * Z)) :=
  sc ← skip_while (S (length bp)) isspace bp 8;
  cp ← skip_while (S (length bp)) isdigit bp sc;
  if cp =? sc then mret None
  else
    bp ← poke bp cp 0;
    cp ← skip_while (S (length bp)) (fun c => negb (c =? 13) && negb (c =? 10)) bp (cp + 1);
    bp ← poke bp cp 0;
    mret (Some (atoi (cstring (drop (Z.to_nat sc) bp)), bp, cp)).

(** [printer_status]: 1 if the printer accepted the job, else 0. *)
Fixpoint status_loop (fuel : nat) (bp : bytes) (jobid : Z) : P Z :=
  match fuel with
  | O => nofuel
  | S fuel' =>
    '(nr, b) ← tread IOBUFSZ;
    if nr <=? 0 then
      (if nr <? 0 then status_failed else mret 0)
    else
      let bp := splice bp 0 b in
      line ← status_line bp;
      match line with
      | None => log_msg "(response)" [];; status_loop fuel' bp jobid
      | Some (code, bp, cp) =>
        if HTTP_INFO code then status_loop fuel' bp jobid
        else if negb (HTTP_SUCCESS code) then
          bp ← poke bp nr 0;
          log_msg "error: %s" [];; mret 0
        else read_status fuel bp cp nr jobid
      end
  end.

Definition printer_status (fuel : nat) (jobid : Z) : P Z := status_loop fuel (fresh IOBUFSZ) jobid.

(** ** The printer thread *)

(** [init_printer] and [get_printaddr]. *)
Definition init_printer : P unit :=
  e ← get;
  match scan_configfile (str "printer") (config e) with
  | None =>
    log_msg "no printer address specified" [];; log_msg "no printer device registered" [];; quit
  | Some host =>
    let '(err, canon) := getaddrinfo host in
    if negb (err =? 0) then
      log_msg "no address information for %s" [];; log_msg "no printer device registered" [];; quit
    else
      modify (set_printer_name (default (str "printer") canon));;
      log_msg "printer is %s" []
  end.

(** Send bytes to the printer: the count written. *)
Definition send (b : bytes) : P Z :=
  f ← next_fault;
  match f with
  | FErr err => modify (set_errno err);; mret (-1)
  | FShort n => modify (fun e => set_outp (outp e ++ take (Z.to_nat n) b) e);; mret (Z.of_nat (length (take (Z.to_nat n) b)))
  | FOk => modify (fun e => set_outp (outp e ++ b) e);; mret (Z.of_nat (length b))
  end.

(** The loop that copies the document to the printer; [false]: goto defer. *)
Fixpoint send_loop (fuel : nat) (doc : bytes) : P bool :=
  match fuel with
  | O => nofuel
  | S fuel' =>
    f ← next_fault;
    match f with
    | FErr err => modify (set_errno err);; log_msg "can't read %s" [];; mret false
    | _ =>
      let b := take (Z.to_nat IOBUFSZ) doc in
      if bool_decide (b = []) then mret true
      else
        nw ← send b;
        if negb (nw =? Z.of_nat (length b)) then log_msg "can't write to printer" [nw];; mret false
        else send_loop fuel' (drop (Z.to_nat IOBUFSZ) doc)
    end
  end.

(** Whether the next call fails. *)
Definition fails : P bool := f ← next_fault; mret (match f with FErr _ => true | _ => false end).

(** From the open data file to the printer's answer; [false]: the job is put
    back (goto defer). *)
Definition submit_job (fuel : nat) (jobid : Z) (req : printreq) (doc : bytes) : P bool :=
  sock ← fails;
  if (sock : bool) then log_msg "job %ld deferred - can't create socket: %s" [jobid];; mret false
  else
    conn ← fails;
    if (conn : bool) then log_msg "job %ld deferred - can't contact printer: %s" [jobid];; mret false
    else
      e ← get;
      let pname := printer_name e in
      let ihdr := ipp_header pname jobid req in
      let hhdr := http_header pname (Z.of_nat (length doc)) (Z.of_nat (length ihdr)) in
      if (64 <? Z.of_nat (length (str "http://" ++ pname ++ str ":" ++ fmt_ld IPP_PORT)) + 1)
         || (IBUFSZ <? Z.of_nat (length ihdr)) || (HBUFSZ <? Z.of_nat (length hhdr))
      then undef "request header past the end of its buffer"
      else
        nw ← send (hhdr ++ ihdr);
        if negb (nw =? Z.of_nat (length hhdr) + Z.of_nat (length ihdr))
        then log_msg "can't write to printer" [];; mret false
        else
          ok ← send_loop fuel doc;
          if negb ok then mret false
          else
            st ← printer_status fuel jobid;
            mret (negb (st =? 0)).

(** Finish with the structure: free. *)
Definition free_job (jp : Z) : P unit :=
  modify (fun e => set_jobq (mkJobs (delete jp (heap (jobq e))) (jobhead (jobq e)) (jobtail (jobq e))) e).

(** [printer_thread] on the job it picked up: printed, cancelled or put back. *)
Definition print_job (fuel : nat) (jp jobid : Z) (req : printreq) : P unit :=
  e ← get;
  f ← next_fault;
  match f, files e !! data_name jobid with
  | FErr _, _ | _, None => log_msg "job %ld canceled - can't open %s: %s" [jobid];; free_job jp
  | _, Some doc =>
    bad ← fails;
    if (bad : bool) then log_msg "job %ld canceled - can't fstat %s: %s" [jobid];; free_job jp
    else
      ok ← submit_job fuel jobid req doc;
      if (ok : bool) then
        unlink (data_name jobid);; unlink (req_name (fmt_ld jobid));; free_job jp
      else
        e ← get;
        q ← lift (replace_job jp (jobq e));
        modify (set_jobq q)
  end.

(** One turn of [printer_thread]; [inp] holds what the printer will answer. *)
Definition printer_turn (fuel : nat) : P unit :=
  e ← get;
  if jobhead (jobq e) =? NULL then blocked
  else
    let jp := jobhead (jobq e) in
    q ← lift (remove_job jp (jobq e));
    modify (set_jobq q);;
    n ← lift (heap q !! jp);
    let '(jobid, req) := n_val n in
    log_msg "printer_thread: picked up job %ld" [jobid];;
    update_jobno;;
    e ← get;
    (if reread e then modify (set_reread false);; init_printer else mret tt);;
    print_job fuel jp jobid req.

End Daemon.

(** ** The client, print.c *)

(** The name of the job: the last part of a long file name. *)
Definition job_name (fname : bytes) : bytes :=
  let len := Z.of_nat (length fname) in
  if JOBNM_MAX <=? len
  then str "... " ++ take (Z.to_nat (JOBNM_MAX - 5)) (drop (Z.to_nat (len - JOBNM_MAX + 5)) fname)
  else fname.

(** The request [submit_file] sends; a user name that does not fit its array is
    undefined behaviour.  [j1] and [j2] are what the arrays held before. *)
Definition submit_req (user fname : bytes) (nbytes : Z) (text : bool) (j1 j2 : bytes) : option printreq :=
  if USERNM_MAX <=? Z.of_nat (length user) then None
  else Some (mkReq (htonl nbytes) (if text then htonl PR_TEXT else 0)
               (char_array USERNM_MAX user j1) (char_array JOBNM_MAX (job_name fname) j2)).
