(* ===== verification/PrintFormat.v ===== *)
(** * PrintFormat: the formats of the print spooler.

    Round trips and sizes of the request structure, of IPP options and headers,
    of timed reads and of the job number file. *)
From S2P Require Import Prelude Libc Files PrintQueue Print.
Local Open Scope Z_scope.

(** ** Byte order *)

Lemma length_be_bytes n z : length (be_bytes n z) = n.
Proof. unfold be_bytes. by rewrite length_rev, length_le_bytes. Qed.

Lemma be_value_bytes n z : 0 <= z < 256 ^ Z.of_nat n -> be_value (be_bytes n z) = z.
Proof. intros Hz. unfold be_value, be_bytes. rewrite rev_involutive. by apply le_word_bytes. Qed.

Lemma le_word_app a b : le_word (a ++ b) = le_word a + 256 ^ Z.of_nat (length a) * le_word b.
Proof.
  induction a as [|x a IH]; [cbn; lia|]. cbn [app le_word length]. rewrite IH, Nat2Z.inj_succ, Z.pow_succ_r by lia. lia.
Qed.

Lemma le_bytes_range n z : Forall (fun c => 0 <= c < 256) (le_bytes n z).
Proof.
  revert z. induction n as [|n IH]; intros z; simpl; constructor; [|done]. apply Z.mod_pos_bound. lia.
Qed.

Lemma le_bytes_word b : Forall (fun c => 0 <= c < 256) b -> le_bytes (length b) (le_word b) = b.
Proof.
  induction 1 as [|x b Hx _ IH]; [done|]. cbn [length le_bytes le_word].
  assert (Hm : (x + 256 * le_word b) mod 256 = x).
  { rewrite (Z.mul_comm 256), Z.mod_add by lia. apply Z.mod_small. lia. }
  assert (Hd : (x + 256 * le_word b) / 256 = le_word b).
  { rewrite (Z.mul_comm 256), Z.div_add by lia. rewrite Z.div_small by lia. lia. }
  by rewrite Hm, Hd, IH.
Qed.

Lemma le_word_range b : Forall (fun c => 0 <= c < 256) b -> 0 <= le_word b < 256 ^ Z.of_nat (length b).
Proof.
  induction 1 as [|x b Hx _ IH]; [cbn; lia|]. cbn [length le_word]. rewrite Nat2Z.inj_succ, Z.pow_succ_r by lia. lia.
Qed.

Lemma htonl_range z : 0 <= htonl z < 2 ^ 32.
Proof.
  unfold htonl. assert (Hb : Forall (fun c => 0 <= c < 256) (be_bytes 4 (wrap_u 32 z))) by (apply Forall_rev, le_bytes_range).
  pose proof (le_word_range _ Hb) as Hw. rewrite length_be_bytes in Hw. change (256 ^ Z.of_nat 4) with (2 ^ 32) in Hw. lia.
Qed.

(** Reversing the bytes twice gives the number back. *)
Lemma ntohl_htonl z : 0 <= z < 2 ^ 32 -> ntohl (htonl z) = z.
Proof.
  intros Hz. unfold ntohl, htonl.
  assert (Hw : wrap_u 32 z = z) by (apply Z.mod_small; lia). rewrite Hw.
  assert (Hr : Forall (fun c => 0 <= c < 256) (be_bytes 4 z)) by (apply Forall_rev, le_bytes_range).
  pose proof (le_word_range _ Hr) as Hb. rewrite length_be_bytes in Hb.
  assert (Hw' : wrap_u 32 (le_word (be_bytes 4 z)) = le_word (be_bytes 4 z)) by (by apply Z.mod_small).
  rewrite Hw'.
  unfold be_bytes at 1. pose proof (le_bytes_word _ Hr) as H. rewrite length_be_bytes in H. rewrite H.
  unfold be_bytes. rewrite rev_involutive. apply le_word_bytes. change (256 ^ Z.of_nat 4) with (2 ^ 32). lia.
Qed.

(** ** The request structure *)

Record req_wf (r : printreq) : Prop := {
  rw_size : - 2 ^ 63 <= rq_size r < 2 ^ 63;
  rw_flags : - 2 ^ 63 <= rq_flags r < 2 ^ 63;
  rw_user : length (rq_usernm r) = 64%nat;
  rw_job : length (rq_jobnm r) = 256%nat
}.

Lemma wrap_s_u64 z : - 2 ^ 63 <= z < 2 ^ 63 -> wrap_s 64 (wrap_u 64 z) = z.
Proof.
  intros Hz. unfold wrap_s, wrap_u. change (64 - 1) with 63. rewrite Z.add_mod_idemp_l by lia.
  rewrite Z.mod_small by lia. lia.
Qed.

Lemma wrap_s64_small z : - 2 ^ 63 <= z < 2 ^ 63 -> wrap_s 64 z = z.
Proof. intros Hz. unfold wrap_s. change (64 - 1) with 63. rewrite Z.mod_small by lia. lia. Qed.

Lemma length_enc_req r : req_wf r -> Z.of_nat (length (enc_req r)) = SIZEOF_REQ.
Proof. intros [_ _ Hu Hj]. unfold enc_req. rewrite !length_app, !length_le_bytes, Hu, Hj. done. Qed.

Lemma take_app_exact {A} (a b : list A) n : length a = n -> take n (a ++ b) = a.
Proof. intros <-. apply take_app_length. Qed.

Lemma drop_app_exact {A} (a b : list A) n : length a = n -> drop n (a ++ b) = b.
Proof. intros <-. apply drop_app_length. Qed.

Lemma dec_enc_req r : req_wf r -> dec_req (enc_req r) = r.
Proof.
  intros [Hs Hf Hu Hj]. unfold dec_req, enc_req.
  set (a := le_bytes 8 (wrap_u 64 (rq_size r))). set (b := le_bytes 8 (wrap_u 64 (rq_flags r))).
  assert (Ha : length a = 8%nat) by apply length_le_bytes. assert (Hb : length b = 8%nat) by apply length_le_bytes.
  rewrite (take_app_exact a _ 8 Ha), (drop_app_exact a _ 8 Ha), (take_app_exact b _ 8 Hb).
  replace (drop 16 (a ++ b ++ rq_usernm r ++ rq_jobnm r)) with (rq_usernm r ++ rq_jobnm r)
    by (by rewrite (app_assoc a b), drop_app_exact by (rewrite length_app; lia)).
  replace (drop 80 (a ++ b ++ rq_usernm r ++ rq_jobnm r)) with (rq_jobnm r)
    by (by rewrite (app_assoc a b), (app_assoc (a ++ b)), drop_app_exact by (rewrite !length_app; lia)).
  rewrite (take_app_exact _ _ 64 Hu), take_ge by lia.
  unfold a, b. rewrite !le_word_bytes by (apply Z.mod_pos_bound; lia). rewrite !wrap_s_u64 by done. by destruct r.
Qed.

(** ** Options *)

(** A reader of IPP options: tag, name, value and the rest. *)
Definition parse_option (b : bytes) : option (Z * bytes * bytes * bytes) :=
  match b with
  | tag :: b =>
    let n := Z.to_nat (be_value (take 2 b)) in
    let name := take n (drop 2 b) in
    let b := drop n (drop 2 b) in
    let m := Z.to_nat (be_value (take 2 b)) in
    if (length b <? 2 + m)%nat then None else Some (tag, name, take m (drop 2 b), drop m (drop 2 b))
  | [] => None
  end.

Lemma parse_add_option tag name val rest :
  0 <= tag < 256 -> (Z.of_nat (length name) < 65536) -> (Z.of_nat (length val) < 65536) ->
  parse_option (add_option [] tag name val ++ rest) = Some (tag, name, val, rest).
Proof.
  intros Ht Hn Hv. unfold add_option. cbn [app]. unfold parse_option.
  assert (Hw : wrap_u 8 tag = tag) by (apply Z.mod_small; lia).
  assert (Hwn : wrap_u 16 (Z.of_nat (length name)) = Z.of_nat (length name)) by (apply Z.mod_small; lia).
  assert (Hwv : wrap_u 16 (Z.of_nat (length val)) = Z.of_nat (length val)) by (apply Z.mod_small; lia).
  rewrite Hw, Hwn, Hwv, <- !app_assoc.
  set (bn := be_bytes 2 (Z.of_nat (length name))). set (bv := be_bytes 2 (Z.of_nat (length val))).
  assert (Hbn : length bn = 2%nat) by apply length_be_bytes. assert (Hbv : length bv = 2%nat) by apply length_be_bytes.
  assert (Hvn : be_value bn = Z.of_nat (length name)) by (apply be_value_bytes; change (256 ^ Z.of_nat 2) with 65536; lia).
  assert (Hvv : be_value bv = Z.of_nat (length val)) by (apply be_value_bytes; change (256 ^ Z.of_nat 2) with 65536; lia).
  clearbody bn bv.
  rewrite !(take_app_exact bn _ 2 Hbn), !(drop_app_exact bn _ 2 Hbn), Hvn, Nat2Z.id, take_app_length, drop_app_length.
  rewrite !(take_app_exact bv _ 2 Hbv), !(drop_app_exact bv _ 2 Hbv), Hvv, Nat2Z.id.
  destruct (Nat.ltb_spec (length (bv ++ val ++ rest)) (2 + length val)) as [Hlt|_].
  { rewrite !length_app in Hlt. lia. }
  by rewrite take_app_length, drop_app_length.
Qed.

(** ** Sizes of the headers *)

Definition ipp_size (pname user jobnm : bytes) (text : bool) : Z :=
  Z.of_nat (length pname + length user + length jobnm) + (if text then 170 else 182).

Lemma length_add_option h tag name val :
  length (add_option h tag name val) = (length h + 5 + length name + length val)%nat.
Proof. unfold add_option. rewrite !length_app, !length_be_bytes. simpl length. lia. Qed.

Lemma ipp_header_length pname jobid req :
  Z.of_nat (length (ipp_header pname jobid req)) =
  ipp_size pname (cstring (rq_usernm req)) (cstring (rq_jobnm req)) (negb (Z.land (rq_flags req) PR_TEXT =? 0)).
Proof.
  unfold ipp_header, ipp_size. rewrite length_app, !length_add_option, !length_app, !length_be_bytes.
  destruct (negb (Z.land (rq_flags req) PR_TEXT =? 0)); rewrite ?length_app; simpl length; lia.
Qed.

(** ** Timed reads *)

Definition nonempty (b : bytes) : Prop := b <> [].

Lemma set_inp_inp (i i' : list rd) e : set_inp i (set_inp i' e) = set_inp i e.
Proof. by destruct e. Qed.

(** One read from a socket with data waiting. *)
Lemma tread_data n b r e :
  0 < n -> b <> [] -> inp e = RData b :: r ->
  exists got rest, b = got ++ rest /\ got <> [] /\ Z.of_nat (length got) <= n /\
    (rest = [] \/ Z.of_nat (length got) = n) /\
    tread n e = PRet (Z.of_nat (length got), got) (set_inp (if bool_decide (rest = []) then r else RData rest :: r) e).
Proof.
  intros Hn Hb Hi. exists (take (Z.to_nat n) b), (drop (Z.to_nat n) b). unfold tread. rewrite Hi.
  split; [by rewrite take_drop|]. split.
  { destruct b as [|c b]; [done|]. destruct (Z.to_nat n) eqn:E; [lia|]. done. }
  rewrite length_take. split; [lia|]. split; [|done].
  destruct (Nat.le_gt_cases (length b) (Z.to_nat n)) as [|Hgt]; [left; by apply drop_ge|right; lia].
Qed.

(** The reads of [treadn] put the pieces together, however the bytes were cut
    up on their way; what follows them stays on the socket. *)
Lemma treadn_loop_spec fuel nbytes got chunks rest e :
  inp e = map RData chunks ++ rest -> Forall nonempty chunks ->
  0 <= nbytes - Z.of_nat (length got) <= Z.of_nat (length (concat chunks)) ->
  nbytes - Z.of_nat (length got) <= Z.of_nat fuel ->
  let k := Z.to_nat (nbytes - Z.of_nat (length got)) in
  exists chunks', treadn_loop fuel nbytes got e =
      PRet (nbytes, got ++ take k (concat chunks)) (set_inp (map RData chunks' ++ rest) e) /\
    concat chunks' = drop k (concat chunks) /\ Forall nonempty chunks'.
Proof.
  revert got chunks e. induction fuel as [|fuel IH]; intros got chunks e Hi Hc Hk Hf k; cbn [treadn_loop].
  - assert (Hz : nbytes - Z.of_nat (length got) = 0) by lia. unfold k. rewrite Hz. simpl.
    exists chunks. rewrite take_0, app_nil_r, drop_0. split; [|done].
    replace (nbytes - 0) with nbytes by lia. unfold mret, P_ret. f_equal. rewrite <- Hi. by destruct e.
  - destruct (Z.leb_spec (nbytes - Z.of_nat (length got)) 0) as [Hle|Hgt].
    { assert (Hz : nbytes - Z.of_nat (length got) = 0) by lia. unfold k. rewrite Hz.
      exists chunks. simpl. rewrite take_0, app_nil_r, drop_0. split; [|done].
      replace (nbytes - 0) with nbytes by lia. unfold mret, P_ret. f_equal. rewrite <- Hi. by destruct e. }
    destruct chunks as [|b chunks]; [simpl in Hk; lia|]. apply Forall_cons in Hc as [Hb Hc].
    destruct (tread_data (nbytes - Z.of_nat (length got)) b (map RData chunks ++ rest) e) as
      (g & r & -> & Hg & Hgl & Hr & Ht); [lia|done|done|].
    unfold mbind, P_bind. rewrite Ht.
    assert (Hgp : 0 < Z.of_nat (length g)) by (destruct g; [done|simpl; lia]).
    destruct (Z.ltb_spec (Z.of_nat (length g)) 0); [lia|]. destruct (Z.eqb_spec (Z.of_nat (length g)) 0); [lia|].
    set (chunks1 := if bool_decide (r = []) then chunks else r :: chunks).
    assert (Hconc : concat ((g ++ r) :: chunks) = g ++ concat chunks1).
    { unfold chunks1. simpl. rewrite <- app_assoc. case_bool_decide as Hr0; [by rewrite Hr0|done]. }
    assert (Hinp : (if bool_decide (r = []) then map RData chunks ++ rest else RData r :: map RData chunks ++ rest)
      = map RData chunks1 ++ rest) by (unfold chunks1; by case_bool_decide).
    rewrite Hinp. destruct (IH (got ++ g) chunks1 (set_inp (map RData chunks1 ++ rest) e)) as (ch & Hrun & Hch & Hne).
    + done.
    + unfold chunks1. case_bool_decide; [done|]. by constructor.
    + rewrite Hconc, length_app in Hk. rewrite length_app. lia.
    + rewrite length_app. lia.
    + exists ch. rewrite Hrun, set_inp_inp. rewrite length_app in Hch |- *.
      assert (Hk' : k = (length g + Z.to_nat (nbytes - Z.of_nat (length got + length g)))%nat) by (unfold k; lia).
      rewrite Hconc, Hk'. split; [|split; [|done]].
      * rewrite <- app_assoc. do 2 f_equal. rewrite take_app_add. done.
      * rewrite Hch. rewrite drop_app_add. done.
Qed.

(** ** Job numbers *)

Lemma fmt_ld_pos n : 0 < n -> fmt_ld n = dec_u n.
Proof. intros H. unfold fmt_ld. by destruct (Z.ltb_spec n 0); [lia|]. Qed.

Lemma jobfile_name_nul : Forall (fun c => c <> 0) jobfile_name.
Proof. repeat constructor; vm_compute; congruence. Qed.

Lemma jobfile_name_digits : Forall (fun c => isdigit c = false) jobfile_name.
Proof. repeat constructor. Qed.

Lemma dec_u_nul n : 0 <= n -> Forall (fun c => c <> 0) (dec_u n).
Proof. intros Hn. eapply Forall_impl; [by apply dec_u_digits|]. simpl. lia. Qed.

(** Reading the number over the file name in the buffer. *)
Lemma atol_over_name n :
  0 < n <= LONG_MAX -> atol (cstring (splice (jobfile_name ++ [0]) 0 (dec_u n))) = n.
Proof.
  intros Hn. assert (Hlen : (length (dec_u n) <= 19)%nat).
  { apply dec_u_length; [lia|]. unfold LONG_MAX in Hn. lia. }
  assert (Hsp : splice (jobfile_name ++ [0]) 0 (dec_u n) = dec_u n ++ drop (length (dec_u n)) jobfile_name ++ [0]).
  { rewrite splice_start. rewrite drop_app_le by (change (length jobfile_name) with 24%nat; lia). done. }
  rewrite Hsp, app_assoc, cstring_nonzero.
  - apply (atol_fmt 0 n (drop (length (dec_u n)) jobfile_name)); [lia|].
    destruct (drop (length (dec_u n)) jobfile_name) as [|c l] eqn:E; [done|].
    pose proof (Forall_drop _ (length (dec_u n)) _ jobfile_name_digits) as Hd. rewrite E in Hd. by apply Forall_cons in Hd as [Hd _].
  - apply Forall_app. split; [apply dec_u_nul; lia|]. apply Forall_drop, jobfile_name_nul.
Qed.

(** ** Strings in arrays *)

Lemma length_char_array n s junk : 0 <= n -> length (char_array n s junk) = Z.to_nat n.
Proof. intros Hn. unfold char_array. rewrite length_take, !length_app, length_replicate. lia. Qed.

Lemma cstring_char_array n s junk :
  Z.of_nat (length s) < n -> Forall (fun c => c <> 0) s -> cstring (char_array n s junk) = s.
Proof.
  intros Hn Hs. unfold char_array. rewrite take_app_ge by lia.
  destruct (Z.to_nat n - length s)%nat as [|k] eqn:E; [lia|]. cbn [app]. by apply cstring_nonzero.
Qed.

Lemma job_name_ok fname :
  Forall (fun c => c <> 0) fname -> Z.of_nat (length (job_name fname)) < JOBNM_MAX /\ Forall (fun c => c <> 0) (job_name fname).
Proof.
  intros Hf. unfold job_name. destruct (Z.leb_spec JOBNM_MAX (Z.of_nat (length fname))) as [Hl|Hl]; [|done].
  unfold JOBNM_MAX in *. rewrite length_app, length_take, length_drop. split; [simpl length; lia|].
  apply Forall_app. split; [repeat constructor; vm_compute; congruence|]. by apply Forall_take, Forall_drop.
Qed.

(** ** All the attributes of a header *)

(** A reader of the attributes up to the end tag, and what is behind it. *)
Fixpoint parse_attrs (fuel : nat) (b : bytes) : option (list (Z * bytes * bytes) * bytes) :=
  match fuel, b with
  | O, _ | _, [] => None
  | S fuel', tag :: b1 =>
    if tag =? TAG_END_OF_ATTR then Some ([], b1)
    else '(t, n, v, b') ← parse_option b; '(attrs, rest) ← parse_attrs fuel' b'; Some ((t, n, v) :: attrs, rest)
  end.

Lemma add_option_app h tag name val : add_option h tag name val = h ++ add_option [] tag name val.
Proof. done. Qed.

Lemma parse_attrs_cons fuel tag name val rest l b :
  0 <= tag < 256 -> tag <> TAG_END_OF_ATTR -> Z.of_nat (length name) < 65536 -> Z.of_nat (length val) < 65536 ->
  parse_attrs fuel rest = Some (l, b) ->
  parse_attrs (S fuel) (add_option [] tag name val ++ rest) = Some ((tag, name, val) :: l, b).
Proof.
  intros Ht Hne Hn Hv Hr. pose proof (parse_add_option tag name val rest Ht Hn Hv) as E.
  assert (Hhead : exists b, add_option [] tag name val ++ rest = tag :: b).
  { unfold add_option. cbn [app]. assert (Hw : wrap_u 8 tag = tag) by (apply Z.mod_small; lia). rewrite Hw. eauto. }
  destruct Hhead as [b0 Eb]. rewrite Eb in *. cbn [parse_attrs]. destruct (Z.eqb_spec tag TAG_END_OF_ATTR); [done|].
  rewrite E. simpl. by rewrite Hr.
Qed.

(** A reader with more fuel finds the same attributes. *)
Lemma parse_attrs_fuel fuel fuel' b r : (fuel <= fuel')%nat -> parse_attrs fuel b = Some r -> parse_attrs fuel' b = Some r.
Proof.
  revert fuel' b r. induction fuel as [|fuel IH]; intros fuel' b r Hf E; [done|]. destruct fuel' as [|fuel']; [lia|].
  destruct b as [|tag b]; [done|]. cbn [parse_attrs] in *. destruct (tag =? TAG_END_OF_ATTR); [done|].
  destruct (parse_option (tag :: b)) as [[[[t n] v] b']|]; [|done]. cbn [mbind option_bind] in *.
  destruct (parse_attrs fuel b') as [r'|] eqn:E'; [|done]. by rewrite (IH fuel' _ _ ltac:(lia) E').
Qed.

(** The attributes [printer_thread] sends, in order. *)
Definition job_attrs (pname : bytes) (req : printreq) : list (Z * bytes * bytes) :=
  [(TAG_CHARSET, str "attributes-charset", str "utf-8");
   (TAG_NATULANG, str "attributes-natural-language", str "en-us");
   (TAG_URI, str "printer-uri", str "http://" ++ pname ++ str ":" ++ fmt_ld IPP_PORT);
   (TAG_NAMEWOLANG, str "requesting-user-name", cstring (rq_usernm req));
   (TAG_NAMEWOLANG, str "job-name", cstring (rq_jobnm req));
   (TAG_MIMETYPE, str "document-format",
    if negb (Z.land (rq_flags req) PR_TEXT =? 0) then str "text/plain" else str "application/postscript")].

Lemma parse_ipp_header pname jobid req doc :
  Z.of_nat (length pname) < 60000 -> Z.of_nat (length (cstring (rq_usernm req))) < 65536 ->
  Z.of_nat (length (cstring (rq_jobnm req))) < 65536 ->
  exists b, ipp_header pname jobid req ++ doc =
      [1; 1] ++ be_bytes 2 OP_PRINT_JOB ++ be_bytes 4 (wrap_u 32 jobid) ++ [TAG_OPERATION_ATTR] ++ b /\
    parse_attrs 7 b = Some (job_attrs pname req, doc).
Proof.
  intros Hp Hu Hj. unfold ipp_header.
  repeat match goal with |- context [add_option ?h ?t ?n ?v] => lazymatch h with [] => fail | _ => rewrite (add_option_app h t n v) end end.
  rewrite <- !app_assoc. eexists. split; [reflexivity|].
  unfold job_attrs. repeat (apply parse_attrs_cons; [done|done|done| |]); try done.
  - rewrite !length_app. change (fmt_ld IPP_PORT) with (str "631"). simpl length. lia.
  - by destruct (negb _).
Qed.

(** ** The configuration file *)

Definition no_space (s : bytes) : Prop := Forall (fun c => isspace c = false) s.
(** What ends a word: nothing or white space. *)
Definition ends_word (r : bytes) : Prop := match r with [] => True | c :: _ => isspace c = true end.

Lemma word_spec w s r : no_space s -> (length s <= w)%nat -> ends_word r -> word w (s ++ r) = (s, r).
Proof.
  revert s. induction w as [|w IH]; intros s Hs Hl Hr; destruct s as [|c s]; simpl in Hl |- *; try lia.
  - done.
  - destruct r as [|c r]; [done|]. simpl in Hr. simpl. by rewrite Hr.
  - apply Forall_cons in Hs as [-> Hs]. by rewrite IH by (done || lia).
Qed.

Lemma skip_space_spec sp s : Forall (fun c => isspace c = true) sp -> no_space s -> s <> [] -> forall r, skip_space (sp ++ s ++ r) = s ++ r.
Proof.
  intros Hsp Hs Hne r. induction Hsp as [|c sp Hc _ IH]; simpl; [|by rewrite Hc].
  destruct s as [|x s]; [done|]. apply Forall_cons in Hs as [Hx _]. simpl. by rewrite Hx.
Qed.

(** A line with a keyword and a value. *)
Definition config_line (sp1 kw sp2 v tail : bytes) : bytes := sp1 ++ kw ++ sp2 ++ v ++ tail.

Record config_wf (sp1 kw sp2 v tail : bytes) : Prop := {
  cw_sp1 : Forall (fun c => isspace c = true) sp1;
  cw_kw : no_space kw; cw_kw0 : kw <> []; cw_kwl : (length kw <= 15)%nat;
  cw_sp2 : Forall (fun c => isspace c = true) sp2; cw_sp20 : sp2 <> [];
  cw_v : no_space v; cw_v0 : v <> []; cw_tail : ends_word tail;
  cw_len : (length (config_line sp1 kw sp2 v tail) <= 511)%nat
}.

Lemma scan_line_spec sp1 kw sp2 v tail : config_wf sp1 kw sp2 v tail -> scan_line (config_line sp1 kw sp2 v tail) = Some (kw, v).
Proof.
  intros [H1 Hk Hk0 Hkl H2 H20 Hv Hv0 Ht Hl]. unfold scan_line, config_line in *.
  rewrite skip_space_spec by done. rewrite !length_app in Hl.
  rewrite word_spec; [|done|unfold MAXKWLEN; simpl; lia|destruct sp2 as [|c sp2]; [done|by apply Forall_cons in H2 as [H2 _]]].
  rewrite skip_space_spec by done. rewrite word_spec; [|done|unfold MAXCFGLINE; simpl; lia|done].
  by rewrite !bool_decide_false.
Qed.

Lemma fgets_short ls :
  Forall (fun l : bytes => (length l <= 511)%nat) ls ->
  concat (map (fun l => fgets_lines (length l) (Z.to_nat (MAXCFGLINE - 1)) l) ls) = ls.
Proof.
  induction 1 as [|l ls Hl _ IH]; [done|]. cbn [map concat]. rewrite IH.
  destruct (length l) as [|n] eqn:E; [done|]. cbn [fgets_lines]. rewrite E.
  destruct (Nat.leb_spec (S n) (Z.to_nat (MAXCFGLINE - 1))); [done|]. unfold MAXCFGLINE in *. lia.
Qed.

Lemma scan_lines_spec kw v pre line post :
  Forall (fun l => match scan_line l with Some (k, _) => k <> kw | None => True end) pre -> scan_line line = Some (kw, v) ->
  scan_lines kw (pre ++ line :: post) = Some v.
Proof.
  intros Hp Hl. induction Hp as [|l pre H _ IH]; simpl.
  - rewrite Hl. by rewrite bool_decide_true.
  - destruct (scan_line l) as [[k w]|]; [|done]. by rewrite bool_decide_false.
Qed.
