(* ===== verification/PrintOps.v ===== *)
(** * PrintOps: the daemon's threads.

    Total correctness of a client thread that gets a complete request, and the
    fate of a job in the printer thread. *)
From S2P Require Import Prelude Libc Files PrintQueue Print PrintFormat.
Local Open Scope Z_scope.

Definition pwp {A} (m : P A) (Q : A -> env -> Prop) (e : env) : Prop :=
  match m e with PRet a e' => Q a e' | _ => False end.

Lemma pwp_ret {A} (a : A) Q e : Q a e -> pwp (mret a) Q e.
Proof. done. Qed.
Lemma pwp_bind {A B} (m : P A) (k : A -> P B) Q e : pwp m (fun a e' => pwp (k a) Q e') e -> pwp (m ≫= k) Q e.
Proof. unfold pwp, mbind, P_bind. by destruct (m e). Qed.
Lemma pwp_get Q e : Q e e -> pwp get Q e.
Proof. done. Qed.
Lemma pwp_modify f Q e : Q tt (f e) -> pwp (modify f) Q e.
Proof. done. Qed.
Lemma pwp_log m args Q e : Q tt (set_logs ((m, args) :: logs e) e) -> pwp (log_msg m args) Q e.
Proof. done. Qed.
Lemma pwp_run {A} (m : P A) Q e : pwp m Q e -> exists a e', m e = PRet a e' /\ Q a e'.
Proof. unfold pwp. destruct (m e); eauto; done. Qed.
Lemma pwp_eq {A} (m : P A) Q e a e' : m e = PRet a e' -> Q a e' -> pwp m Q e.
Proof. unfold pwp. by intros ->. Qed.
Lemma pwp_mono {A} (m : P A) (Q Q' : A -> env -> Prop) e : pwp m Q e -> (forall a e', Q a e' -> Q' a e') -> pwp m Q' e.
Proof. unfold pwp. destruct (m e); auto. Qed.

Ltac pwp_step :=
  lazymatch goal with
  | |- pwp (mret _) _ _ => apply pwp_ret
  | |- pwp get _ _ => apply pwp_get
  | |- pwp (modify _) _ _ => apply pwp_modify
  | |- pwp (log_msg _ _) _ _ => apply pwp_log
  | |- pwp (_ ≫= _) _ _ => apply pwp_bind
  end.
Ltac pwp_steps := repeat (pwp_step; cbn beta iota).

(** ** Spool files without faults *)

Lemma pwp_creat name Q e :
  faults e = [] -> Q 0 (set_files (<[name := []]> (files e)) e) -> pwp (creat name) Q e.
Proof. intros Hf HQ. unfold pwp, creat, mbind, P_bind, next_fault. rewrite Hf. exact HQ. Qed.

Lemma pwp_write_file name b Q e :
  faults e = [] -> Q (Z.of_nat (length b)) (set_files (<[name := default [] (files e !! name) ++ b]> (files e)) e) ->
  pwp (write_file name b) Q e.
Proof. intros Hf HQ. unfold pwp, write_file, mbind, P_bind, next_fault. rewrite Hf. exact HQ. Qed.

(** The input ends: end of file, timeout or error. *)
Definition at_end (r : list rd) : Prop := match r with [] | RTimeout :: _ | RErr _ :: _ => True | _ => False end.

(** The document is stored piece by piece. *)
Lemma store_loop_spec strerror junk fuel name chunks rest first flags acc e :
  inp e = map RData chunks ++ rest -> Forall nonempty chunks -> at_end rest -> faults e = [] ->
  (length (concat chunks) < fuel)%nat -> files e !! name = Some acc ->
  pwp (store_loop strerror junk fuel name first flags) (fun r e' =>
    (r = Some flags \/ r = Some (Z.lor flags PR_TEXT)) /\
    exists err inp', e' = set_errno err (set_inp inp' (set_files (<[name := acc ++ concat chunks]> (files e)) e))) e.
Proof.
  revert chunks first flags acc e. induction fuel as [|fuel IH]; intros chunks first flags acc e Hi Hc Hr Hf Hfuel Hn; [lia|].
  cbn [store_loop]. pwp_step. destruct chunks as [|b chunks].
  - simpl in Hi. assert (Ht : exists n err, n <= 0 /\ tread IOBUFSZ e = PRet (n, []) (set_errno err (set_inp (tail rest) e))).
    { unfold tread. rewrite Hi. destruct rest as [|[b| |err] rest]; [|done|by exists (-1), ETIME|by exists (-1), err].
      exists 0, (errno e). split; [done|]. destruct e; simpl in *; by subst. }
    destruct Ht as (n & err & Hn0 & Ht). eapply pwp_eq; [exact Ht|]. cbn beta iota.
    destruct (Z.leb_spec n 0); [|lia]. pwp_step. split; [by left|]. exists err, (tail rest). simpl.
    rewrite app_nil_r, insert_id by done. by destruct e.
  - apply Forall_cons in Hc as [Hb Hc].
    destruct (tread_data IOBUFSZ b (map RData chunks ++ rest) e) as (g & r & -> & Hg & Hgl & Hr' & Ht); [done|done|done|].
    eapply pwp_eq; [exact Ht|]. cbn beta iota.
    assert (Hgp : 0 < Z.of_nat (length g)) by (destruct g; [done|simpl; lia]).
    destruct (Z.leb_spec (Z.of_nat (length g)) 0); [lia|]. pwp_step. apply pwp_write_file; [done|].
    rewrite Z.eqb_refl. cbn [negb].
    set (chunks1 := if bool_decide (r = []) then chunks else r :: chunks).
    assert (Hconc : concat ((g ++ r) :: chunks) = g ++ concat chunks1).
    { unfold chunks1. simpl. rewrite <- app_assoc. case_bool_decide as Hr0; [by rewrite Hr0|done]. }
    set (flags1 := if first && negb (bool_decide (take 4 (g ++ junk) = str "%!PS")) then Z.lor flags PR_TEXT else flags).
    assert (Hfl : (flags1 = flags \/ flags1 = Z.lor flags PR_TEXT) /\ Z.lor flags1 PR_TEXT = Z.lor flags PR_TEXT).
    { unfold flags1. destruct (_ && _); [|by split; [left|]]. split; [by right|]. by rewrite <- Z.lor_assoc, Z.lor_diag. }
    simpl files. rewrite Hn. simpl default.
    eapply pwp_mono; [apply (IH chunks1 false flags1 (acc ++ g))|].
    + simpl. unfold chunks1. by case_bool_decide.
    + unfold chunks1. case_bool_decide; [done|by constructor].
    + done.
    + done.
    + rewrite Hconc, length_app in Hfuel. lia.
    + simpl. by rewrite lookup_insert_eq.
    + intros a e' (Hres & err & inp' & ->). split.
      * destruct Hfl as [[-> | ->] Hfl2]; destruct Hres as [-> | ->]; rewrite ?Hfl2; auto.
      * exists err, inp'. rewrite Hconc, app_assoc. simpl. rewrite insert_insert_eq. by destruct e.
Qed.

Lemma pwp_add_job req jobid l Q e :
  jobs_rep (jobq e) l -> brk e <> NULL -> heap (jobq e) !! brk e = None ->
  (forall q, jobs_rep q (l ++ [(brk e, (jobid, req))]) -> Q tt (set_jobq q (set_brk (brk e + 1) e))) ->
  pwp (add_job_d req jobid) Q e.
Proof.
  intros Hr H0 Hf HQ. destruct (add_job_rep (brk e) (jobid, req) (jobq e) l Hr H0 Hf) as (q & E & Hq).
  unfold pwp, add_job_d, mbind, P_bind, malloc, get, lift. cbn [jobq set_brk]. rewrite E. by apply HQ.
Qed.

(** A request that arrives whole is spooled, acknowledged and queued. *)
Lemma client_body_spec strerror junk fuel size flags user jobnm doc chunks rest l e :
  let wire := mkReq (htonl size) (htonl flags) user jobnm in
  let id := nextjob e in
  0 <= size < 2 ^ 32 -> 0 <= flags < 2 ^ 32 -> length user = 64%nat -> length jobnm = 256%nat ->
  inp e = map RData chunks ++ rest -> Forall nonempty chunks -> at_end rest ->
  concat chunks = enc_req wire ++ doc -> faults e = [] -> (length doc < fuel)%nat ->
  jobs_rep (jobq e) l -> brk e <> NULL -> heap (jobq e) !! brk e = None ->
  pwp (client_body strerror junk fuel) (fun _ e' => exists flags', (flags' = flags \/ flags' = Z.lor flags PR_TEXT) /\
    let req := mkReq size flags' user jobnm in
    files e' = <[req_name (fmt_ld id) := enc_req req]> (<[data_name id := doc]> (files e)) /\
    resps e' = mkResp 0 (Some (htonl id)) (str "request ID " ++ fmt_ld id) :: resps e /\
    jobs_rep (jobq e') (l ++ [(brk e, (id, req))]) /\ wrk e' = wrk e) e.
Proof.
  intros wire id Hsz Hfl Hu Hj Hi Hc Hr Hconc Hf Hfuel Hq H0 Hfresh.
  assert (Hh : forall z, 0 <= z < 2 ^ 32 -> - 2 ^ 63 <= htonl z < 2 ^ 63).
  { intros z _. pose proof (htonl_range z). lia. }
  assert (Hwf : req_wf wire) by (split; simpl; auto).
  pose proof (length_enc_req wire Hwf) as Hlen.
  unfold client_body. pwp_step. unfold treadn.
  destruct (treadn_loop_spec (Z.to_nat SIZEOF_REQ) SIZEOF_REQ [] chunks rest e) as (chunks' & Hrun & Hdrop & Hne); try done.
  { rewrite Hconc, length_app. simpl length at 1 2. lia. }
  assert (Hk : Z.to_nat (SIZEOF_REQ - Z.of_nat (@length Z [])) = length (enc_req wire)) by (cbn [length]; lia).
  rewrite Hk, Hconc in Hrun, Hdrop. rewrite take_app_length in Hrun. rewrite drop_app_length in Hdrop.
  eapply pwp_eq; [exact Hrun|]. cbn beta iota. pwp_steps. cbn [app]. rewrite Z.eqb_refl. cbn [negb].
  rewrite dec_enc_req by done. unfold wire. cbn [rq_size rq_flags rq_usernm rq_jobnm]. rewrite !ntohl_htonl by done.
  pwp_step. unfold get_newjobno. pwp_steps. apply pwp_creat; [exact Hf|]. pwp_steps.
  change (0 <? 0) with false. cbn iota. pwp_step.
  eapply pwp_mono; [apply (store_loop_spec strerror junk fuel (data_name id) chunks' rest true flags [])|]; try done.
  { by rewrite Hdrop. } { simpl. by rewrite lookup_insert_eq. }
  intros r e1 (Hres & err & inp' & ->).
  assert (Hflags : exists flags', r = Some flags' /\ (flags' = flags \/ flags' = Z.lor flags PR_TEXT)).
  { destruct Hres as [-> | ->]; eauto. }
  destruct Hflags as (flags' & -> & Hflags'). pwp_step. apply pwp_creat; [exact Hf|]. pwp_steps.
  change (0 <? 0) with false. cbn iota. pwp_step. apply pwp_write_file; [exact Hf|]. pwp_steps.
  set (req := mkReq size flags' user jobnm).
  assert (Hreq : Z.of_nat (length (enc_req req)) = SIZEOF_REQ).
  { unfold enc_req. rewrite !length_app, !length_le_bytes. simpl. rewrite Hu, Hj. done. }
  rewrite Hreq, Z.eqb_refl. cbn [negb]. pwp_step. unfold respond. pwp_steps.
  eapply (pwp_add_job req (nextjob e) l); [exact Hq|exact H0|exact Hfresh|]. intros q Hq'. exists flags'. split; [exact Hflags'|].
  fold req id. split; [|done]. simpl. rewrite lookup_insert_eq. simpl. rewrite insert_insert_eq, insert_insert_eq, Hdrop. done.
Qed.

(** ** A request that does not arrive whole *)

(** [treadn] gives up when the peer stops sending: a count below what was
    asked for, or -1. *)
Lemma treadn_loop_short fuel nbytes got chunks rest e :
  inp e = map RData chunks ++ rest -> Forall nonempty chunks -> at_end rest ->
  Z.of_nat (length (concat chunks)) < nbytes - Z.of_nat (length got) <= Z.of_nat fuel ->
  exists n b err inp', n < nbytes /\ treadn_loop fuel nbytes got e = PRet (n, b) (set_errno err (set_inp inp' e)).
Proof.
  revert got chunks e. induction fuel as [|fuel IH]; intros got chunks e Hi Hc Hr Hk; [lia|]. cbn [treadn_loop].
  destruct (Z.leb_spec (nbytes - Z.of_nat (length got)) 0); [lia|]. destruct chunks as [|b chunks].
  - simpl in Hi, Hk. unfold mbind, P_bind, tread. rewrite Hi. destruct rest as [|[b| |err] rest]; [|done| |].
    + simpl. exists (nbytes - (nbytes - Z.of_nat (length got))), got, (errno e), (inp e). split; [lia|]. by destruct e.
    + simpl. exists (if nbytes - Z.of_nat (length got) =? nbytes then -1 else nbytes - (nbytes - Z.of_nat (length got))), got, ETIME, rest.
      split; [destruct (_ =? _); lia|]. by destruct (_ =? _).
    + simpl. exists (if nbytes - Z.of_nat (length got) =? nbytes then -1 else nbytes - (nbytes - Z.of_nat (length got))), got, err, rest.
      split; [destruct (_ =? _); lia|]. by destruct (_ =? _).
  - apply Forall_cons in Hc as [Hb Hc]. simpl concat in Hk. rewrite length_app in Hk.
    destruct (tread_data (nbytes - Z.of_nat (length got)) b (map RData chunks ++ rest) e) as
      (g & r & -> & Hg & Hgl & Hr' & Ht); [lia|done|done|].
    rewrite length_app in Hk. destruct Hr' as [-> | Heq]; [|lia].
    unfold mbind, P_bind. rewrite Ht. assert (Hgp : 0 < Z.of_nat (length g)) by (destruct g; [done|simpl; lia]).
    destruct (Z.ltb_spec (Z.of_nat (length g)) 0); [lia|]. destruct (Z.eqb_spec (Z.of_nat (length g)) 0); [lia|].
    simpl. destruct (IH (got ++ g) chunks (set_inp (map RData chunks ++ rest) e)) as (n1 & b1 & err & inp' & Hn & E);
      [done|done|done|rewrite length_app in *; simpl in Hk; lia|].
    rewrite E. exists n1, b1, err, inp'. split; [done|]. by rewrite set_inp_inp.
Qed.

Lemma client_short strerror junk fuel chunks rest e :
  inp e = map RData chunks ++ rest -> Forall nonempty chunks -> at_end rest ->
  Z.of_nat (length (concat chunks)) < SIZEOF_REQ ->
  exists e' err, client_body strerror junk fuel e = PThreadExit e' /\
    files e' = files e /\ jobq e' = jobq e /\ nextjob e' = nextjob e /\ wrk e' = wrk e /\
    resps e' = mkResp (htonl err) (Some 0) (take (Z.to_nat MSGLEN_MAX) (strerror (htonl err))) :: resps e.
Proof.
  intros Hi Hc Hr Hk.
  destruct (treadn_loop_short (Z.to_nat SIZEOF_REQ) SIZEOF_REQ [] chunks rest e Hi Hc Hr) as (n & b & err & inp' & Hn & E).
  { simpl length at 2 3. unfold SIZEOF_REQ in *. lia. }
  unfold client_body, treadn, mbind, P_bind. rewrite E. cbn beta iota. unfold get. cbn beta iota.
  destruct (Z.eqb_spec n SIZEOF_REQ); [lia|]. cbn [negb]. unfold reject, respond, modify, pthread_exit. cbn beta iota.
  eexists _, _. split; [reflexivity|]. done.
Qed.

(** ** The whole client thread *)

Lemma pwp_client_thread strerror junk fuel tid sockfd Q e :
  wrk e = mkWorkers ∅ NULL -> brk e <> NULL ->
  (let e1 := set_wrk (mkWorkers {[brk e := mkNode NULL NULL (tid, sockfd)]} (brk e)) (set_brk (brk e + 1) e) in
   pwp (client_body strerror junk fuel) (fun _ e' => wrk e' = wrk e1 /\
     Q tt (set_closed (sockfd :: closed e') (set_wrk (mkWorkers ∅ NULL) e'))) e1) ->
  pwp (client_thread strerror junk fuel tid sockfd) Q e.
Proof.
  intros Hw H0 H. unfold pwp, client_thread, mbind, P_bind, malloc, get, lift, modify. cbn [wrk set_brk]. rewrite Hw.
  unfold add_worker. cbn [workers wheap]. change (NULL =? NULL) with true. cbn beta iota zeta in *.
  rewrite <- insert_empty in H.
  unfold pwp in H. cbn [mret P_ret option_ret]. unfold mret, P_ret. cbn beta iota.
  destruct (client_body strerror junk fuel _) as [u e'| | | | |]; try contradiction. destruct H as [Hw' HQ].
  unfold cleanup, mbind, P_bind, get, lift. rewrite Hw'. cbn [wrk set_wrk]. unfold client_cleanup. cbn [workers wheap].
  rewrite insert_empty, map_size_singleton. cbn [find_worker]. destruct (Z.eqb_spec (brk e) NULL); [done|].
  rewrite lookup_singleton_eq. cbn [mbind option_bind n_val fst]. rewrite Z.eqb_refl.
  cbn [mbind option_bind]. destruct (Z.eqb_spec (brk e) NULL); [done|]. rewrite lookup_singleton_eq.
  cbn [mbind option_bind n_next n_prev n_val snd]. change (NULL =? NULL) with true. cbn [mbind option_bind].
  rewrite delete_singleton_eq. exact HQ.
Qed.

(** ** Start-up *)

(** The list [build_loop] appends: the jobs in directory order at consecutive
    addresses. *)
Fixpoint at_addrs (a : Z) (js : list job) : list (Z * job) :=
  match js with [] => [] | j :: js' => (a, j) :: at_addrs (a + 1) js' end.

(** The addresses malloc has yet to return are free. *)
Definition heap_below (e : env) : Prop := 0 < brk e /\ forall p, brk e <= p -> heap (jobq e) !! p = None.

Lemma fmt_ld_not_dot id : 0 < id -> fmt_ld id <> str "." /\ fmt_ld id <> str "..".
Proof.
  intros Hid. rewrite fmt_ld_pos by done. pose proof (dec_u_digits id ltac:(lia)) as Hd.
  destruct (dec_u id) as [|c s]; [done|]. apply Forall_cons in Hd as [Hc _].
  split; intros E; assert (c = 46) by (by injection E); lia.
Qed.

Lemma atol_fmt_ld id : 0 < id <= LONG_MAX -> atol (fmt_ld id) = id.
Proof.
  intros Hid. rewrite fmt_ld_pos by lia. pose proof (atol_fmt 0 id [] ltac:(lia) I) as H. simpl in H. by rewrite app_nil_r in H.
Qed.

Lemma add_job_heap_below jp v (q q' : jobs job) p :
  add_job jp v q = Some q' -> jp <> p -> heap q !! p = None -> heap q' !! p = None.
Proof.
  unfold add_job. intros E Hne Hp. destruct (jobtail q =? NULL).
  - injection E as <-. simpl. by rewrite lookup_insert_ne.
  - destruct (store_next (jobtail q) jp _) as [h'|] eqn:Es; simpl in E; [|done]. injection E as <-. simpl.
    unfold store_next in Es. destruct (<[jp:=_]> (heap q) !! jobtail q) as [m|] eqn:Em; simpl in Es; [|done].
    injection Es as <-. destruct (decide (p = jobtail q)) as [->|]; [|by rewrite !lookup_insert_ne].
    rewrite lookup_insert_ne in Em by done. congruence.
Qed.

Lemma build_loop_spec (js : list job) l e :
  Forall (fun j : job => 0 < j.1 <= LONG_MAX /\ req_wf j.2 /\ files e !! req_name (fmt_ld j.1) = Some (enc_req j.2)) js ->
  faults e = [] -> jobs_rep (jobq e) l -> heap_below e ->
  pwp (build_loop (map (fun j : job => fmt_ld j.1) js)) (fun _ e' =>
    jobs_rep (jobq e') (l ++ at_addrs (brk e) js) /\ files e' = files e) e.
Proof.
  revert l e. induction js as [|[id r] js IH]; intros l e Hjs Hf Hr [Hb Hh]; cbn [map build_loop at_addrs].
  - pwp_step. by rewrite app_nil_r.
  - apply Forall_cons in Hjs as [(Hid & Hwf & Hfile) Hjs]. simpl in Hid, Hwf, Hfile. pwp_step.
    destruct (fmt_ld_not_dot id) as [Hd1 Hd2]; [lia|]. rewrite !bool_decide_false by done. cbn [orb]. pwp_steps.
    unfold pwp at 1, next_fault. rewrite Hf. simpl fst. rewrite Hfile. pwp_step. unfold pwp at 1, next_fault. rewrite Hf.
    pose proof (length_enc_req r Hwf) as Hlen. rewrite take_ge by lia. rewrite Hlen, Z.eqb_refl. pwp_steps.
    rewrite atol_fmt_ld by done. rewrite dec_enc_req by done.
    destruct (add_job_rep (brk e) (id, r) (jobq e) l Hr) as (q & Eq & Hq); [unfold NULL; lia|apply Hh; lia|].
    unfold pwp at 1, add_job_d, mbind, P_bind, malloc, get, lift. unfold job in *. cbn [jobq set_brk set_logs brk]. rewrite Eq.
    cbn [mret P_ret modify].
    unfold mret, P_ret, modify. cbn beta iota.
    eapply pwp_mono; [apply (IH (l ++ [(brk e, (id, r))])); [done|done|exact Hq|]|].
    + split; simpl; [lia|]. intros p Hp. eapply add_job_heap_below; [exact Eq|lia|apply Hh; lia].
    + intros a e' [H1 H2]. simpl in H1. rewrite <- app_assoc in H1. done.
Qed.

(** ** A request from its arrival to the queue *)

Lemma client_thread_spec strerror junk fuel tid sockfd size flags user jobnm doc chunks rest l e :
  let wire := mkReq (htonl size) (htonl flags) user jobnm in
  let id := nextjob e in
  0 <= size < 2 ^ 32 -> 0 <= flags < 2 ^ 32 -> length user = 64%nat -> length jobnm = 256%nat ->
  inp e = map RData chunks ++ rest -> Forall nonempty chunks -> at_end rest ->
  concat chunks = enc_req wire ++ doc -> faults e = [] -> (length doc < fuel)%nat ->
  jobs_rep (jobq e) l -> heap_below e -> wrk e = mkWorkers ∅ NULL ->
  exists e' flags', client_thread strerror junk fuel tid sockfd e = PRet tt e' /\
    (flags' = flags \/ flags' = Z.lor flags PR_TEXT) /\
    let req := mkReq size flags' user jobnm in
    files e' = <[req_name (fmt_ld id) := enc_req req]> (<[data_name id := doc]> (files e)) /\
    resps e' = mkResp 0 (Some (htonl id)) (str "request ID " ++ fmt_ld id) :: resps e /\
    jobs_rep (jobq e') (l ++ [(brk e + 1, (id, req))]) /\
    wrk e' = mkWorkers ∅ NULL /\ exists cl, closed e' = sockfd :: cl.
Proof.
  intros wire id Hsz Hfl Hu Hj Hi Hc Hr Hconc Hf Hfuel Hq [Hb Hh] Hw.
  assert (H : pwp (client_thread strerror junk fuel tid sockfd) (fun _ e' => exists flags',
    (flags' = flags \/ flags' = Z.lor flags PR_TEXT) /\
    let req := mkReq size flags' user jobnm in
    files e' = <[req_name (fmt_ld id) := enc_req req]> (<[data_name id := doc]> (files e)) /\
    resps e' = mkResp 0 (Some (htonl id)) (str "request ID " ++ fmt_ld id) :: resps e /\
    jobs_rep (jobq e') (l ++ [(brk e + 1, (id, req))]) /\
    wrk e' = mkWorkers ∅ NULL /\ exists cl, closed e' = sockfd :: cl) e).
  { apply pwp_client_thread; [done|unfold NULL; lia|]. cbn zeta. eapply pwp_mono.
    - eapply (client_body_spec strerror junk fuel size flags user jobnm doc chunks rest l); try done.
      + simpl. unfold NULL. lia.
      + simpl. apply Hh. lia.
    - intros a e' (flags' & Hfl' & Hfiles & Hresps & Hjobs & Hwrk). split; [exact Hwrk|]. exists flags'. split; [exact Hfl'|].
      simpl in *. eauto 10. }
  apply pwp_run in H as ([] & e' & E & flags' & HQ). exists e', flags'. split; [exact E|]. exact HQ.
Qed.
