(* ===== verification/PrintStatus.v ===== *)
(** * PrintStatus: reading the printer's answer.

    [printer_status] on a response that arrives whole: it finds the end of the
    status line, the Content-Length header and the blank line behind the HTTP
    header, and judges the job by the IPP header that follows. *)
From S2P Require Import Prelude Libc Files PrintQueue Print PrintFormat PrintOps.
Local Open Scope Z_scope.

Abbreviation zlen l := (Z.of_nat (length l)).

(** ** Scanning the buffer *)

Lemma drop_app_exact' {A} (l a b : list A) : l = a ++ b -> drop (length a) l = b.
Proof. intros ->. apply drop_app_length. Qed.

Lemma pwp_char_at pre c post Q e : Q c e -> pwp (char_at (pre ++ c :: post) (zlen pre)) Q e.
Proof.
  intros HQ. unfold char_at. rewrite Nat2Z.id, list_lookup_middle by done. by apply pwp_ret.
Qed.

Lemma pwp_poke pre c post c' Q e : Q (pre ++ c' :: post) e -> pwp (poke (pre ++ c :: post) (zlen pre) c') Q e.
Proof.
  intros HQ. unfold poke. case_if; bool_to_prop; [|rewrite length_app in *; simpl in *; lia].
  rewrite Nat2Z.id, insert_middle. by apply pwp_ret.
Qed.

Lemma pwp_skip_while p pre mid c post fuel Q e :
  Forall (fun x => p x = true) mid -> p c = false -> (length mid < fuel)%nat ->
  Q (zlen pre + zlen mid) e -> pwp (skip_while fuel p (pre ++ mid ++ c :: post) (zlen pre)) Q e.
Proof.
  revert pre fuel. induction mid as [|x mid IH]; intros pre fuel Hm Hc Hf HQ; (destruct fuel as [|fuel]; [simpl in Hf; lia|]);
    cbn [skip_while app]; pwp_step; apply pwp_char_at.
  - rewrite Hc. pwp_step. by rewrite Z.add_0_r in HQ.
  - apply Forall_cons in Hm as [-> Hm].
    replace (zlen pre + 1) with (zlen (pre ++ [x])) by (rewrite length_app; simpl; lia).
    replace (pre ++ x :: mid ++ c :: post) with ((pre ++ [x]) ++ mid ++ c :: post) by (by rewrite <- app_assoc).
    apply IH; [done|done|simpl in Hf; lia|]. rewrite length_app. simpl length in HQ |- *.
    replace (Z.of_nat (length pre + 1) + zlen mid) with (zlen pre + Z.of_nat (S (length mid))) by lia. done.
Qed.

(** ** The Content-Length header *)

(** [s] at the start of [b], case aside. *)
Fixpoint starts_nocase (s b : bytes) : bool :=
  match s, b with
  | [], _ => true
  | x :: s', c :: b' => (lower c =? lower x) && starts_nocase s' b'
  | _ :: _, [] => false
  end.

Lemma pwp_prefix_nocase s pre b Q e :
  (length s <= length b)%nat -> Q (starts_nocase s b) e -> pwp (prefix_nocase (pre ++ b) (zlen pre) s) Q e.
Proof.
  revert pre b. induction s as [|x s IH]; intros pre b Hl HQ; cbn [prefix_nocase]; [by apply pwp_ret|].
  destruct b as [|c b]; [simpl in Hl; lia|]. pwp_step. apply pwp_char_at. simpl in HQ.
  destruct (lower c =? lower x); [|by apply pwp_ret].
  replace (zlen pre + 1) with (zlen (pre ++ [c])) by (rewrite length_app; simpl; lia).
  replace (pre ++ c :: b) with ((pre ++ [c]) ++ b) by (by rewrite <- app_assoc). apply IH; [simpl in Hl; lia|done].
Qed.

Definition is_c (c : Z) : bool := (c =? 67) || (c =? 99).

Lemma pwp_find_c pre mid x post nr fuel Q e :
  is_c x = true -> zlen pre + zlen mid < nr -> (length mid < fuel)%nat ->
  (forall m1 c m2, mid ++ [x] = m1 ++ c :: m2 -> is_c c = true -> Q (zlen (pre ++ m1)) e) ->
  pwp (find_c fuel (pre ++ mid ++ x :: post) (zlen pre) nr) Q e.
Proof.
  intros Hx. revert pre fuel. induction mid as [|y mid IH]; intros pre fuel Hn Hf HQ; (destruct fuel as [|fuel]; [simpl in Hf; lia|]);
    cbn [find_c app]; pwp_step; apply pwp_char_at.
  - unfold is_c in Hx. rewrite <- negb_orb, Hx. simpl. pwp_step. specialize (HQ [] x []). rewrite app_nil_r in HQ. by apply HQ.
  - destruct (is_c y) eqn:Hy.
    + unfold is_c in Hy. rewrite <- negb_orb, Hy. simpl. pwp_step. specialize (HQ [] y (mid ++ [x])). rewrite app_nil_r in HQ.
      by apply HQ.
    + unfold is_c in Hy. rewrite <- negb_orb, Hy. simpl length in *. destruct (Z.ltb_spec (zlen pre) nr); [|lia]. simpl.
      replace (zlen pre + 1) with (zlen (pre ++ [y])) by (rewrite length_app; simpl; lia).
      replace (pre ++ y :: mid ++ x :: post) with ((pre ++ [y]) ++ mid ++ x :: post) by (by rewrite <- app_assoc).
      apply IH; [rewrite length_app; simpl; lia|lia|]. intros m1 c m2 E Hc. specialize (HQ (y :: m1) c m2).
      rewrite <- app_assoc. apply HQ; [|done]. simpl. by rewrite E.
Qed.

Definition CONTENT_LENGTH : bytes := str "Content-Length:".

(** No Content-Length header begins inside [mid], which [rest] follows. *)
Definition no_header (mid rest : bytes) : Prop :=
  forall m1 m2, mid = m1 ++ m2 -> m2 <> [] -> starts_nocase CONTENT_LENGTH (m2 ++ rest) = false.

Lemma starts_nocase_app s b b' : (length s <= length b)%nat -> starts_nocase s (b ++ b') = starts_nocase s b.
Proof.
  revert b. induction s as [|x s IH]; intros b Hl; [done|]. destruct b as [|c b]; [simpl in Hl; lia|]. simpl.
  rewrite IH; [done|]. simpl in Hl. lia.
Qed.

Lemma cstring_digits dl post : Forall (fun c => isdigit c = true) dl -> cstring (dl ++ 0 :: post) = dl.
Proof.
  intros Hd. apply cstring_nonzero. eapply Forall_impl; [exact Hd|]. intros c Hc ->. done.
Qed.

Lemma digit_not_space c : isdigit c = true -> isspace c = false.
Proof.
  unfold isdigit, isspace. intros [? ?]%andb_true_iff. bool_to_prop.
  destruct (Z.eqb_spec c 32); [lia|]. destruct (Z.leb_spec 9 c), (Z.leb_spec c 13); done || lia.
Qed.

Lemma pwp_content_value A sp dl d0 post nr Q e :
  Forall (fun c => isspace c = true) sp -> Forall (fun c => isdigit c = true) dl -> dl <> [] -> isdigit d0 = false ->
  let B := A ++ sp ++ dl in
  Q (Some (B ++ 0 :: post, zlen B + 1, nr, atoi dl)) e -> pwp (content_value (B ++ d0 :: post) (zlen A) nr) Q e.
Proof.
  intros Hsp Hdl Hne Hd0 B HQ. unfold content_value. destruct dl as [|d1 dl]; [done|]. pose proof (Forall_inv Hdl) as Hd1.
  assert (E1 : B ++ d0 :: post = A ++ sp ++ d1 :: dl ++ d0 :: post) by (unfold B; by rewrite <- !app_assoc).
  assert (E2 : A ++ sp ++ d1 :: dl ++ d0 :: post = (A ++ sp) ++ (d1 :: dl) ++ d0 :: post) by (by rewrite <- !app_assoc).
  rewrite E1. pwp_step. apply pwp_skip_while; [done|by apply digit_not_space|rewrite !length_app; lia|].
  rewrite <- Nat2Z.inj_add, <- length_app. pwp_step. rewrite E2.
  apply pwp_skip_while; [done|done|rewrite !length_app; lia|].
  rewrite <- Nat2Z.inj_add, <- length_app, (app_assoc (A ++ sp)). pwp_step. apply pwp_poke. pwp_step.
  rewrite Nat2Z.id, <- app_assoc, drop_app_length, cstring_digits by done.
  rewrite app_assoc. rewrite <- (app_assoc A) in *. exact HQ.
Qed.

Lemma starts_nocase_head x hn : starts_nocase CONTENT_LENGTH (x :: hn) = true -> is_c x = true.
Proof.
  intros [Hx _]%andb_true_iff. apply Z.eqb_eq in Hx. change (lower x = 99) in Hx. unfold lower in Hx.
  unfold is_c. apply orb_true_iff. rewrite !Z.eqb_eq. destruct ((65 <=? x) && (x <=? 90)); lia.
Qed.

Section Status.
Context (strerror : Z -> bytes) (getaddrinfo : bytes -> Z * option bytes) (junk : bytes).

Lemma pwp_content_loop fuel pre mid hn sp dl d0 post nr Q e :
  length hn = 15%nat -> starts_nocase CONTENT_LENGTH hn = true -> no_header mid hn ->
  Forall (fun c => isspace c = true) sp -> Forall (fun c => isdigit c = true) dl -> dl <> [] -> isdigit d0 = false ->
  zlen pre + zlen mid < nr -> (length mid < fuel)%nat ->
  let B := pre ++ mid ++ hn ++ sp ++ dl in
  Q (Some (B ++ 0 :: post, zlen B + 1, nr, atoi dl)) e ->
  pwp (content_loop junk fuel (B ++ d0 :: post) (zlen pre) nr) Q e.
Proof.
  intros Hh Hs Hm Hsp Hdl Hdl0 Hd0. revert pre mid Hm. induction fuel as [|fuel IH]; intros pre mid Hm Hn Hf B HQ; [lia|].
  cbn [content_loop]. pwp_step. destruct hn as [|x hn]; [done|]. set (post' := sp ++ dl ++ d0 :: post).
  assert (EB : B ++ d0 :: post = pre ++ mid ++ x :: (hn ++ post')).
  { unfold B, post'. rewrite <- !app_assoc. simpl. by rewrite <- ?app_assoc. }
  rewrite EB. apply pwp_find_c; [by eapply starts_nocase_head|done|rewrite !length_app; lia|]. intros m1 c m2 E Hc.
  assert (Hm1 : zlen m1 <= zlen mid).
  { apply (f_equal length) in E. rewrite !length_app in E. simpl in E. lia. }
  rewrite length_app. destruct (Z.leb_spec nr (Z.of_nat (length pre + length m1))) as [|_]; [lia|]. pwp_steps.
  change (str "Content-Length:") with CONTENT_LENGTH. destruct m2 as [|m2h m2t] using rev_ind; [|clear IHm2t].
  - apply app_inj_tail in E as [<- <-]. rewrite app_assoc, <- length_app.
    apply pwp_prefix_nocase; [rewrite length_cons, length_app; simpl; simpl in Hh; lia|].
    change (x :: hn ++ post') with ((x :: hn) ++ post'). rewrite starts_nocase_app, Hs by (rewrite Hh; done).
    replace (zlen (pre ++ mid) + 15) with (zlen ((pre ++ mid) ++ x :: hn)) by (rewrite (length_app (pre ++ mid)), Hh; lia).
    assert (E2 : B = ((pre ++ mid) ++ x :: hn) ++ sp ++ dl) by (unfold B; by rewrite <- !app_assoc).
    assert (E3 : (pre ++ mid) ++ (x :: hn) ++ post' = B ++ d0 :: post) by (rewrite EB; by rewrite <- !app_assoc).
    rewrite E3, E2. apply pwp_content_value; try done. by rewrite <- E2.
  - rewrite app_comm_cons, app_assoc in E. apply app_inj_tail in E as [E <-]. subst mid.
    assert (EC : pre ++ (m1 ++ c :: m2t) ++ x :: (hn ++ post') = (pre ++ m1) ++ c :: m2t ++ x :: (hn ++ post'))
      by (by rewrite <- !app_assoc).
    rewrite EC, <- length_app. apply pwp_prefix_nocase; [rewrite !length_cons, !length_app, length_cons, length_app; simpl in Hh |- *; lia|].
    assert (Hno : starts_nocase CONTENT_LENGTH (c :: m2t ++ x :: hn ++ post') = false).
    { replace (c :: m2t ++ x :: hn ++ post') with (((c :: m2t) ++ x :: hn) ++ post') by (by rewrite <- !app_assoc).
      rewrite starts_nocase_app; [by apply (Hm m1 (c :: m2t))|]. rewrite length_app, Hh. simpl. lia. }
    rewrite Hno. replace (zlen (pre ++ m1) + 1) with (zlen (pre ++ m1 ++ [c])) by (rewrite !length_app; simpl; lia).
    assert (EE : (pre ++ m1 ++ [c]) ++ m2t ++ (x :: hn) ++ sp ++ dl = B)
      by (unfold B; rewrite <- !app_assoc; simpl; by rewrite <- ?app_assoc).
    rewrite <- EC, <- EB, <- EE. apply IH; [|revert Hn; rewrite !length_app, !length_cons, length_nil; lia|revert Hf; rewrite length_app, length_cons; lia|by rewrite EE].
    intros a b -> Hb. apply (Hm (m1 ++ c :: a) b); [by rewrite <- app_assoc|done].
Qed.

(** ** The end of the header *)

Definition BLANK : bytes := [10; 13; 10].

(** No blank line begins inside [mid]. *)
Definition no_blank (mid : bytes) : Prop :=
  forall m1 m2, mid = m1 ++ m2 -> m2 <> [] -> take 3 (m2 ++ BLANK) <> BLANK.

Lemma pwp_blank_line fuel pre mid post nr Q e :
  no_blank mid -> zlen pre + zlen mid + 3 <= nr -> (length mid < fuel)%nat ->
  Q (zlen pre + zlen mid + 3, true) e -> pwp (blank_line fuel (pre ++ mid ++ BLANK ++ post) (zlen pre) nr) Q e.
Proof.
  revert pre mid. induction fuel as [|fuel IH]; intros pre mid Hm Hn Hf HQ; [lia|]. cbn [blank_line].
  destruct (Z.ltb_spec (zlen pre) (nr - 2)); [|lia]. cbn [negb].
  assert (Hthree : exists a b c r, mid ++ BLANK ++ post = a :: b :: c :: r /\ take 3 (mid ++ BLANK) = [a; b; c]).
  { destruct mid as [|a [|b [|c mid]]]; simpl; eauto 10. }
  destruct Hthree as (a & b & c & r & E & E3). rewrite E.
  pwp_step. apply pwp_char_at. replace (zlen pre + 1) with (zlen (pre ++ [a])) by (rewrite length_app; simpl; lia).
  replace (pre ++ a :: b :: c :: r) with ((pre ++ [a]) ++ b :: c :: r) at 1 by (by rewrite <- app_assoc).
  pwp_step. apply pwp_char_at. replace (zlen pre + 2) with (zlen (pre ++ [a; b])) by (rewrite length_app; simpl; lia).
  replace (pre ++ a :: b :: c :: r) with ((pre ++ [a; b]) ++ c :: r) at 1 by (by rewrite <- app_assoc).
  pwp_step. apply pwp_char_at. destruct mid as [|x mid].
  - injection E3 as <- <- <-. simpl. pwp_step. by rewrite Z.add_0_r in HQ.
  - assert (x = a) as -> by (by injection E). assert (Er : mid ++ BLANK ++ post = b :: c :: r) by (by injection E).
    destruct ((a =? 10) && (b =? 13) && (c =? 10)) eqn:E4.
    { bool_to_prop. subst. by destruct (Hm [] (10 :: mid)). }
    replace (pre ++ a :: b :: c :: r) with ((pre ++ [a]) ++ mid ++ BLANK ++ post) by (rewrite Er, <- app_assoc; done).
    apply IH.
    + intros m1 m2 -> Hne. by apply (Hm (a :: m1) m2).
    + rewrite length_app. simpl length in Hn |- *. lia.
    + simpl in Hf. lia.
    + rewrite length_app. simpl length in HQ |- *. replace (Z.of_nat (length pre + 1) + zlen mid + 3)
        with (zlen pre + Z.of_nat (S (length mid)) + 3) by lia. done.
Qed.

Lemma pwp_header_end fuel pre mid post nr Q e :
  no_blank mid -> zlen pre + zlen mid + 3 < nr ->
  Q (Some (pre ++ mid ++ BLANK ++ post, zlen pre + zlen mid + 3, nr)) e ->
  pwp (header_end junk (S fuel) (pre ++ mid ++ BLANK ++ post) (zlen pre) nr) Q e.
Proof.
  intros Hm Hn HQ. cbn [header_end]. pwp_step. apply pwp_blank_line; [done|lia|lia|].
  destruct (Z.leb_spec nr (zlen pre + zlen mid + 3)); [lia|]. by pwp_steps.
Qed.

(** ** A response that arrives whole *)

(** The parts of a response: "HTTP/1.1", white space, the status code, the
    character behind it, the reason and the line end; then headers, the name
    Content-Length, white space, the length and the character behind it; the
    rest of the HTTP header, the blank line, and the IPP response. *)
Record response := mkResponse {
  rs_proto : bytes; rs_sp : bytes; rs_code : bytes; rs_s1 : Z; rs_reason : bytes; rs_r1 : Z;
  rs_mid : bytes; rs_hn : bytes; rs_sp2 : bytes; rs_len : bytes; rs_d0 : Z;
  rs_more : bytes; rs_body : bytes
}.

Definition response_bytes (r : response) : bytes :=
  (rs_proto r ++ rs_sp r ++ rs_code r) ++ rs_s1 r :: rs_reason r ++ rs_r1 r ::
  (rs_mid r ++ rs_hn r ++ rs_sp2 r ++ rs_len r) ++ rs_d0 r :: rs_more r ++ BLANK ++ rs_body r.

Definition is_eol (c : Z) : bool := (c =? 13) || (c =? 10).

Record response_wf (r : response) : Prop := {
  rw_proto : length (rs_proto r) = 8%nat;
  rw_sp : Forall (fun c => isspace c = true) (rs_sp r);
  rw_code : Forall (fun c => isdigit c = true) (rs_code r);
  rw_code0 : rs_code r <> [];
  rw_s1 : isdigit (rs_s1 r) = false;
  rw_reason : Forall (fun c => is_eol c = false) (rs_reason r);
  rw_r1 : is_eol (rs_r1 r) = true;
  rw_mid : no_header (rs_mid r) (rs_hn r);
  rw_hn : length (rs_hn r) = 15%nat;
  rw_name : starts_nocase CONTENT_LENGTH (rs_hn r) = true;
  rw_sp2 : Forall (fun c => isspace c = true) (rs_sp2 r);
  rw_len : Forall (fun c => isdigit c = true) (rs_len r);
  rw_len0 : rs_len r <> [];
  rw_d0 : isdigit (rs_d0 r) = false;
  rw_more : no_blank (rs_more r);
  rw_body : 8 <= zlen (rs_body r);
  rw_whole : atoi (rs_len r) <= zlen (rs_body r);
  rw_fits : zlen (response_bytes r) <= IOBUFSZ
}.

(** The IPP status and request id of the body. *)
Definition body_status (b : bytes) : Z := be_value (take 2 (drop 2 b)).
Definition body_id (b : bytes) : Z := be_value (take 4 (drop 4 b)).

Lemma pwp_ipp_status pre body post Q e :
  8 <= zlen body -> Q (body_status body, body_id body) e -> pwp (ipp_status (pre ++ body ++ post) (zlen pre)) Q e.
Proof.
  intros Hl HQ. unfold ipp_status. rewrite !length_app. case_if; [lia|]. pwp_step.
  assert (Hd : forall k m, (k + m <= 8)%nat -> take m (drop (Z.to_nat (zlen pre + Z.of_nat k)) (pre ++ body ++ post)) = take m (drop k body)).
  { intros k m Hk. replace (Z.to_nat (zlen pre + Z.of_nat k)) with (length pre + k)%nat by lia.
    rewrite drop_app_add, drop_app_le by lia. rewrite take_app_le by (rewrite length_drop; lia). done. }
  pose proof (Hd 2%nat 2%nat ltac:(lia)) as H2. pose proof (Hd 4%nat 4%nat ltac:(lia)) as H4.
  change (Z.of_nat 2) with 2 in H2. change (Z.of_nat 4) with 4 in H4. rewrite H2, H4. exact HQ.
Qed.

(** What the answer means for job [jobid]: 1 if it is about this job and its
    status is in the successful class. *)
Definition verdict (r : response) (jobid : Z) : Z :=
  if (body_id (rs_body r) =? jobid) && STATCLASS_OK (body_status (rs_body r)) then 1 else 0.

(** The state after the answer was read. *)
Definition status_env (r : response) (jobid : Z) (e : env) : env :=
  if body_id (rs_body r) =? jobid then e
  else set_logs (("jobid %ld status code %d"%string, [body_id (rs_body r); body_status (rs_body r)]) :: logs e) e.

Lemma no_header_cons0 mid hn : no_header mid hn -> no_header (0 :: mid) hn.
Proof.
  intros H [|x m1] m2 E Hne; [simpl in E; by subst m2|]. injection E as <- ->. by apply (H m1).
Qed.

(** From the end of the status line on. *)
Lemma pwp_read_status fuel r pre post nr jobid Q e :
  response_wf r -> (length (rs_mid r) + 1 < fuel)%nat ->
  let tail := rs_d0 r :: rs_more r ++ BLANK ++ rs_body r in
  let bp := pre ++ 0 :: (rs_mid r ++ rs_hn r ++ rs_sp2 r ++ rs_len r) ++ tail in
  nr = zlen bp ->
  Q (verdict r jobid) (status_env r jobid e) -> pwp (read_status junk fuel (bp ++ post) (zlen pre) nr jobid) Q e.
Proof.
  intros W Hf tl bp Hnr HQ. destruct W as [_ _ _ _ _ _ _ Hm Hh Hname Hsp2 Hlen Hlen0 Hd0 Hmore Hb Hwhole _].
  set (B := pre ++ (0 :: rs_mid r) ++ rs_hn r ++ rs_sp2 r ++ rs_len r).
  assert (EB : bp ++ post = B ++ rs_d0 r :: rs_more r ++ BLANK ++ rs_body r ++ post).
  { unfold bp, tl, B. simpl. rewrite <- !app_assoc. simpl. rewrite <- !app_assoc. simpl. rewrite <- !app_assoc. done. }
  assert (Hn : nr = zlen B + 1 + zlen (rs_more r) + 3 + zlen (rs_body r)).
  { pose proof (f_equal length EB) as El. rewrite !length_app in El. rewrite length_cons, !length_app in El. subst nr.
    change (length BLANK) with 3%nat in El. lia. }
  unfold read_status. pwp_step. rewrite EB. apply pwp_content_loop; try done.
  { by apply no_header_cons0. }
  { rewrite Hn. unfold B. rewrite !length_app. rewrite length_cons. lia. }
  { simpl. lia. }
  cbn beta iota. fold B. destruct (Z.leb_spec nr (zlen B + 1)); [lia|]. pwp_steps. clearbody B. clear EB.
  replace (zlen B + 1) with (zlen (B ++ [0])) by (rewrite length_app; simpl; lia).
  replace (B ++ 0 :: rs_more r ++ BLANK ++ rs_body r ++ post) with ((B ++ [0]) ++ rs_more r ++ BLANK ++ (rs_body r ++ post))
    by (by rewrite <- app_assoc).
  destruct fuel as [|fuel]; [lia|]. apply pwp_header_end; [done|rewrite length_app; simpl; lia|]. cbn beta iota.
  rewrite length_app. case_if; [cbn [length] in *; lia|]. pwp_steps.
  set (C := (B ++ [0]) ++ rs_more r ++ BLANK).
  replace ((B ++ [0]) ++ rs_more r ++ BLANK ++ rs_body r ++ post) with (C ++ rs_body r ++ post) by (unfold C; by rewrite <- !app_assoc).
  replace (Z.of_nat (length B + length [0]) + zlen (rs_more r) + 3) with (zlen C) by (unfold C; rewrite !length_app; simpl; lia).
  apply pwp_ipp_status; [done|]. unfold verdict, status_env in HQ.
  destruct (body_id (rs_body r) =? jobid); simpl; [by pwp_step|]. by pwp_steps.
Qed.

Lemma length_fresh n : 0 <= n -> length (fresh junk n) = Z.to_nat n.
Proof. intros Hn. unfold fresh. rewrite length_take, length_app, length_replicate. lia. Qed.

(** The response with the status line cut up by null bytes. *)
Definition headers (r : response) : bytes :=
  (rs_mid r ++ rs_hn r ++ rs_sp2 r ++ rs_len r) ++ rs_d0 r :: rs_more r ++ BLANK ++ rs_body r.
Definition cut_line (r : response) : bytes := ((rs_proto r ++ rs_sp r ++ rs_code r) ++ [0]) ++ rs_reason r.

Lemma pwp_status_line r post Q e :
  response_wf r -> Q (Some (atoi (rs_code r), (cut_line r ++ 0 :: headers r) ++ post, zlen (cut_line r))) e ->
  pwp (status_line (response_bytes r ++ post)) Q e.
Proof.
  intros W HQ. pose proof W as [Hp Hsp Hc Hc0 Hs1 Hre Hr1 _ _ _ _ _ _ _ _ _ _ _]. unfold status_line.
  change (response_bytes r) with ((rs_proto r ++ rs_sp r ++ rs_code r) ++ rs_s1 r :: rs_reason r ++ rs_r1 r :: headers r).
  unfold cut_line in *. set (pre := rs_proto r ++ rs_sp r ++ rs_code r) in *. set (D := headers r) in *.
  assert (Hcode : exists c0 code, rs_code r = c0 :: code /\ isdigit c0 = true)
    by (destruct Hc as [|c0 code Hd0 _]; [done|eauto]).
  destruct Hcode as (c0 & code & Ecode & Hc0').
  set (rest1 := rs_s1 r :: rs_reason r ++ rs_r1 r :: D). pwp_step. replace 8 with (zlen (rs_proto r)) by (rewrite Hp; done).
  assert (E1 : (pre ++ rest1) ++ post = rs_proto r ++ rs_sp r ++ c0 :: (code ++ rest1 ++ post))
    by (unfold pre; rewrite Ecode, <- !app_assoc; done).
  rewrite E1. apply pwp_skip_while; [done|by apply digit_not_space|rewrite !length_app; lia|].
  rewrite <- Nat2Z.inj_add, <- length_app. pwp_step.
  assert (E2 : rs_proto r ++ rs_sp r ++ c0 :: (code ++ rest1 ++ post) =
    (rs_proto r ++ rs_sp r) ++ rs_code r ++ rs_s1 r :: (rs_reason r ++ rs_r1 r :: D) ++ post)
    by (rewrite Ecode, <- (app_assoc (rs_proto r)); done).
  rewrite E2. apply pwp_skip_while; [done|done|rewrite !length_app; lia|].
  case_if; [exfalso; rewrite Ecode in E; revert E; rewrite length_cons; lia|].
  rewrite <- Nat2Z.inj_add, <- length_app. rewrite app_assoc. replace ((rs_proto r ++ rs_sp r) ++ rs_code r) with pre
    by (unfold pre; by rewrite app_assoc).
  pwp_step. apply pwp_poke. pwp_step.
  replace (zlen pre + 1) with (zlen (pre ++ [0])) by (rewrite length_app; simpl; lia).
  replace (pre ++ 0 :: (rs_reason r ++ rs_r1 r :: D) ++ post) with ((pre ++ [0]) ++ rs_reason r ++ rs_r1 r :: (D ++ post))
    by (by rewrite <- !app_assoc).
  apply pwp_skip_while; [|by rewrite <- negb_orb; unfold is_eol in Hr1; rewrite Hr1|rewrite !length_app; lia|].
  { eapply Forall_impl; [exact Hre|]. intros c Hcc. rewrite <- negb_orb. unfold is_eol in Hcc. by rewrite Hcc. }
  rewrite <- Nat2Z.inj_add, <- length_app. rewrite app_assoc. pwp_step. apply pwp_poke. pwp_step.
  replace (drop (Z.to_nat (zlen (rs_proto r ++ rs_sp r))) (((pre ++ [0]) ++ rs_reason r) ++ 0 :: D ++ post))
    with (rs_code r ++ 0 :: (rs_reason r ++ 0 :: D ++ post)).
  { rewrite cstring_digits by done. rewrite app_comm_cons, app_assoc. exact HQ. }
  rewrite Nat2Z.id. symmetry. apply drop_app_exact'. unfold pre. rewrite <- !app_assoc. done.
Qed.

Lemma pwp_printer_status fuel r rest jobid Q e :
  response_wf r -> inp e = RData (response_bytes r) :: rest -> HTTP_SUCCESS (atoi (rs_code r)) = true ->
  (length (rs_mid r) + 1 < fuel)%nat ->
  Q (verdict r jobid) (status_env r jobid (set_inp rest e)) -> pwp (printer_status junk fuel jobid) Q e.
Proof.
  intros W Hi Hok Hf HQ. unfold printer_status. destruct fuel as [|fuel]; [lia|]. cbn [status_loop]. pwp_step.
  assert (Hl : zlen (response_bytes r) = zlen (cut_line r ++ 0 :: headers r)).
  { unfold response_bytes, cut_line. fold (headers r). rewrite !length_app, !length_cons, !length_app, !length_cons. simpl. lia. }
  pose proof (rw_fits _ W) as Hfit. unfold IOBUFSZ in Hfit.
  assert (Ht : tread IOBUFSZ e = PRet (zlen (response_bytes r), response_bytes r) (set_inp rest e)).
  { unfold tread. rewrite Hi. rewrite take_ge by (unfold IOBUFSZ; lia). rewrite drop_ge by (unfold IOBUFSZ; lia). done. }
  eapply pwp_eq; [exact Ht|]. cbn beta iota. case_if; [exfalso; rewrite Hl in E; revert E; rewrite length_app, length_cons; lia|].
  rewrite splice_start. pwp_step. apply pwp_status_line; [done|]. cbn beta iota.
  assert (Hinfo : HTTP_INFO (atoi (rs_code r)) = false).
  { unfold HTTP_SUCCESS, HTTP_INFO in *. bool_to_prop. destruct (Z.leb_spec (atoi (rs_code r)) 199); [lia|]. apply andb_false_r. }
  rewrite Hinfo, Hok. cbn [negb]. apply pwp_read_status; [done|done|exact Hl|exact HQ].
Qed.
End Status.

(** ** A header that is cut off *)

(** No blank line in [mid]. *)
Definition without_blank (mid : bytes) : Prop := forall m1 m2, mid = m1 ++ m2 -> take 3 m2 <> BLANK.

Lemma blank_line_none fuel pre mid post nr e :
  without_blank mid -> nr = zlen pre + zlen mid -> (length mid <= fuel)%nat ->
  exists i, zlen pre <= i /\ (mid <> [] -> i < nr) /\ nr - 2 <= i /\
    blank_line fuel (pre ++ mid ++ post) (zlen pre) nr e = PRet (i, false) e.
Proof.
  revert pre mid. induction fuel as [|fuel IH]; intros pre mid Hm Hn Hf.
  - destruct mid; [|simpl in Hf; lia]. simpl in Hn. exists (zlen pre). repeat split; try lia; [done|]. cbn [blank_line].
    destruct (Z.ltb_spec (zlen pre) (nr - 2)); [lia|done].
  - cbn [blank_line]. destruct (Z.ltb_spec (zlen pre) (nr - 2)) as [Hlt|Hge]; cbn [negb].
    + destruct mid as [|a [|b [|c mid]]]; try (simpl in Hn; lia).
      pose proof (Hm [] (a :: b :: c :: mid) eq_refl) as H3.
      assert (Hc : forall k x, [a; b; c] !! k = Some x -> char_at (pre ++ (a :: b :: c :: mid) ++ post) (zlen pre + Z.of_nat k) e = PRet x e).
      { intros k x Hk. unfold char_at. replace (Z.to_nat (zlen pre + Z.of_nat k)) with (length pre + k)%nat by lia.
        rewrite lookup_app_r by lia. replace (length pre + k - length pre)%nat with k by lia.
        change ((a :: b :: c :: mid) ++ post) with ([a; b; c] ++ mid ++ post).
        by rewrite (lookup_app_l_Some _ _ _ _ Hk). }
      pose proof (Hc 0%nat a eq_refl) as Ha. pose proof (Hc 1%nat b eq_refl) as Hb. pose proof (Hc 2%nat c eq_refl) as Hcc.
      rewrite Z.add_0_r in Ha. unfold mbind, P_bind. rewrite Ha. change (Z.of_nat 1) with 1 in Hb. rewrite Hb.
      change (Z.of_nat 2) with 2 in Hcc. rewrite Hcc.
      destruct ((a =? 10) && (b =? 13) && (c =? 10)) eqn:E4; [exfalso; bool_to_prop; subst; by apply H3|].
      destruct (IH (pre ++ [a]) (b :: c :: mid)) as (i & Hi1 & Hi2 & Hi3 & E).
      * intros m1 m2 E. apply (Hm (a :: m1) m2). by rewrite E.
      * rewrite length_app. simpl length in Hn |- *. lia.
      * simpl in Hf |- *. lia.
      * rewrite length_app in Hi1. exists i. repeat split; [lia|intros _; apply Hi2; done|done|]. rewrite <- E.
        rewrite length_app, <- app_assoc. simpl length. f_equal; lia.
    + exists (zlen pre). repeat split; try lia; try done. intros Hne. destruct mid; [done|]. simpl length in Hn. lia.
Qed.

(** The scan stops at most two bytes before the end of the data, where neither
    it goes on nor more data is read. *)
Lemma header_end_stuck junk fuel bp i nr e :
  nr - 2 <= i < nr -> header_end junk fuel bp i nr e = PNoFuel.
Proof.
  intros Hi. induction fuel as [|fuel IH]; [done|]. cbn [header_end]. unfold mbind, P_bind.
  assert (E : blank_line (Z.to_nat (nr - i)) bp i nr e = PRet (i, false) e).
  { destruct (Z.to_nat (nr - i)); cbn [blank_line]; (destruct (Z.ltb_spec i (nr - 2)); [lia|done]). }
  rewrite E. destruct (Z.leb_spec nr i); [lia|]. exact IH.
Qed.

Lemma header_end_diverges junk fuel pre mid post e :
  without_blank mid -> mid <> [] ->
  header_end junk fuel (pre ++ mid ++ post) (zlen pre) (zlen pre + zlen mid) e = PNoFuel.
Proof.
  intros Hm Hne. destruct fuel as [|fuel]; [done|]. cbn [header_end]. unfold mbind, P_bind.
  destruct (blank_line_none (Z.to_nat (zlen pre + zlen mid - zlen pre)) pre mid post (zlen pre + zlen mid) e Hm eq_refl)
    as (i & Hi1 & Hi2 & Hi3 & E); [lia|]. rewrite E. specialize (Hi2 Hne).
  destruct (Z.leb_spec (zlen pre + zlen mid) i); [lia|]. apply header_end_stuck. lia.
Qed.
