(* ===== verification/PrintTurn.v ===== *)
(** * PrintTurn: a turn of the printer thread.

    What a turn does to the queue and the spool files whatever the system calls
    answer, and what exactly it sends when nothing fails. *)
From S2P Require Import Prelude Libc Files PrintQueue Print PrintFormat PrintOps PrintStatus.
Local Open Scope Z_scope.

(** ** What the conversation with the printer leaves alone *)

(** [m] neither touches the job list nor the spool files. *)
Definition keeps {A} (m : P A) : Prop :=
  forall e a e', m e = PRet a e' -> jobq e' = jobq e /\ files e' = files e.

(** [m] moreover sends nothing and leaves the name of the printer alone. *)
Definition quiet {A} (m : P A) : Prop :=
  forall e a e', m e = PRet a e' ->
    (jobq e' = jobq e /\ files e' = files e) /\ outp e' = outp e /\ printer_name e' = printer_name e.

Lemma quiet_keeps {A} (m : P A) : quiet m -> keeps m.
Proof. intros H e a e' E. apply (H e a e' E). Qed.
Lemma quiet_ret {A} (a : A) : quiet (mret a).
Proof. intros e a' e' E. by injection E as _ <-. Qed.
Lemma keeps_bind {A B} (m : P A) (k : A -> P B) : keeps m -> (forall a, keeps (k a)) -> keeps (m ≫= k).
Proof.
  intros Hm Hk e b e' E. unfold mbind, P_bind in E. destruct (m e) as [a e1| | | | |] eqn:Em; try discriminate.
  destruct (Hm _ _ _ Em) as [<- <-]. by apply (Hk a e1 b e').
Qed.
Lemma quiet_bind {A B} (m : P A) (k : A -> P B) : quiet m -> (forall a, quiet (k a)) -> quiet (m ≫= k).
Proof.
  intros Hm Hk e b e' E. unfold mbind, P_bind in E. destruct (m e) as [a e1| | | | |] eqn:Em; try discriminate.
  destruct (Hm _ _ _ Em) as [[<- <-] [<- <-]]. by apply (Hk a e1 b e').
Qed.
Lemma quiet_get : quiet get.
Proof. intros e a e' E. by injection E as _ <-. Qed.
Lemma keeps_modify f : (forall e, jobq (f e) = jobq e /\ files (f e) = files e) -> keeps (modify f).
Proof. intros Hf e a e' E. injection E as _ <-. apply Hf. Qed.
Lemma quiet_log m args : quiet (log_msg m args).
Proof. intros e a e' E. by injection E as _ <-. Qed.
Lemma quiet_undef {A} why : quiet (undef (A := A) why).
Proof. done. Qed.
Lemma quiet_nofuel {A} : quiet (nofuel (A := A)).
Proof. done. Qed.
Lemma quiet_quit {A} : quiet (quit (A := A)).
Proof. done. Qed.
Lemma quiet_fault : quiet next_fault.
Proof. intros e a e' E. unfold next_fault in E. destruct (faults e); by injection E as _ <-. Qed.
Lemma quiet_tread n : quiet (tread n).
Proof. intros e a e' E. unfold tread in E. destruct (inp e) as [|[]]; by injection E as _ <-. Qed.

Create HintDb print_keeps.
#[export] Hint Resolve quiet_keeps quiet_ret quiet_get quiet_log quiet_undef quiet_nofuel quiet_quit quiet_fault quiet_tread : print_keeps.

Ltac keep :=
  repeat (intros; cbn beta iota;
    match goal with
    | |- keeps (_ ≫= _) => apply keeps_bind
    | |- quiet (_ ≫= _) => apply quiet_bind
    | |- keeps (modify _) => apply keeps_modify; done
    | |- keeps (match ?x with _ => _ end) => destruct x
    | |- quiet (match ?x with _ => _ end) => destruct x
    | |- _ => solve [eauto with print_keeps]
    end).

Lemma keeps_send b : keeps (send b).
Proof. unfold send. keep. Qed.
#[export] Hint Resolve keeps_send : print_keeps.
Lemma keeps_send_loop fuel doc : keeps (send_loop fuel doc).
Proof. revert doc. induction fuel as [|fuel IH]; intros doc; cbn [send_loop]; keep. Qed.
Lemma quiet_fails : quiet fails.
Proof. unfold fails. keep. Qed.
Lemma quiet_char_at bp i : quiet (char_at bp i).
Proof. unfold char_at. keep. Qed.
Lemma quiet_poke bp i c : quiet (poke bp i c).
Proof. unfold poke. keep. Qed.
#[export] Hint Resolve keeps_send_loop quiet_fails quiet_char_at quiet_poke : print_keeps.
Lemma quiet_skip_while fuel p bp i : quiet (skip_while fuel p bp i).
Proof. revert i. induction fuel as [|fuel IH]; intros i; cbn [skip_while]; keep. Qed.
Lemma quiet_prefix bp i s : quiet (prefix_nocase bp i s).
Proof. revert i. induction s as [|x s IH]; intros i; cbn [prefix_nocase]; keep. Qed.
Lemma quiet_find_c fuel bp i nr : quiet (find_c fuel bp i nr).
Proof. revert i. induction fuel as [|fuel IH]; intros i; cbn [find_c]; keep. Qed.
Lemma quiet_blank fuel bp i nr : quiet (blank_line fuel bp i nr).
Proof. revert i. induction fuel as [|fuel IH]; intros i; cbn [blank_line]; keep. Qed.
Lemma quiet_ipp_status bp i : quiet (ipp_status bp i).
Proof. unfold ipp_status. keep. Qed.
#[export] Hint Resolve quiet_skip_while quiet_prefix quiet_find_c quiet_blank quiet_ipp_status : print_keeps.
Lemma quiet_content_value bp i nr : quiet (content_value bp i nr).
Proof. unfold content_value. keep. Qed.
Lemma quiet_status_line bp : quiet (status_line bp).
Proof. unfold status_line. keep. Qed.
Lemma quiet_status_failed : quiet status_failed.
Proof. unfold status_failed. keep. Qed.
#[export] Hint Resolve quiet_content_value quiet_status_line quiet_status_failed : print_keeps.

Section Turn.
Context (strerror : Z -> bytes) (getaddrinfo : bytes -> Z * option bytes) (junk : bytes).

Lemma quiet_readmore bp off : quiet (readmore junk bp off).
Proof. unfold readmore. keep. Qed.
#[local] Hint Resolve quiet_readmore : print_keeps.
Lemma quiet_content_loop fuel bp i nr : quiet (content_loop junk fuel bp i nr).
Proof. revert bp i nr. induction fuel as [|fuel IH]; intros bp i nr; cbn [content_loop]; keep. Qed.
Lemma quiet_header_end fuel bp i nr : quiet (header_end junk fuel bp i nr).
Proof. revert bp i nr. induction fuel as [|fuel IH]; intros bp i nr; cbn [header_end]; keep. Qed.
#[local] Hint Resolve quiet_content_loop quiet_header_end : print_keeps.
Lemma quiet_read_status fuel bp i nr jobid : quiet (read_status junk fuel bp i nr jobid).
Proof. unfold read_status. keep. Qed.
#[local] Hint Resolve quiet_read_status : print_keeps.
Lemma quiet_status_loop fuel bp jobid : quiet (status_loop junk fuel bp jobid).
Proof. revert bp. induction fuel as [|fuel IH]; intros bp; cbn [status_loop]; keep. Qed.
Lemma quiet_printer_status fuel jobid : quiet (printer_status junk fuel jobid).
Proof. apply quiet_status_loop. Qed.
#[local] Hint Resolve quiet_printer_status : print_keeps.
Lemma keeps_submit fuel jobid req doc : keeps (submit_job junk fuel jobid req doc).
Proof. unfold submit_job. keep. Qed.
Lemma keeps_init_printer : keeps (init_printer getaddrinfo).
Proof. unfold init_printer. keep. Qed.
Lemma keeps_update_jobno : keeps update_jobno.
Proof.
  unfold update_jobno, log_sys, log_quit. apply keeps_bind; [apply quiet_keeps, quiet_get|]. intros e.
  destruct (sys_lseek _ _ _) as [x f]. destruct (sys_write f _) as [n f']. keep.
Qed.

(** ** The fate of a job *)

Lemma bind_inv {A B} (m : P A) (k : A -> P B) e b e' :
  (m ≫= k) e = PRet b e' -> exists a e1, m e = PRet a e1 /\ k a e1 = PRet b e'.
Proof. unfold mbind, P_bind. destruct (m e) eqn:E; try discriminate. eauto. Qed.

(** Unlinking the job at the head leaves the others. *)
Lemma free_job_rep jp q l : jp ∉ l.*1 -> jobs_rep q l -> jobs_rep (V := job) (mkJobs (delete jp (heap q)) (jobhead q) (jobtail q)) l.
Proof. intros Hn [Hs Hh Ht Hd]. split; try done. simpl. by apply dseg_delete. Qed.

(** Put back, printed and off the queue, or off the queue with its files. *)
Definition deferred (jp id : Z) (req : printreq) (l : list (Z * job)) (e e' : env) : Prop :=
  jobs_rep (jobq e') ((jp, (id, req)) :: l) /\ files e' = files e.
Definition printed (id : Z) (l : list (Z * job)) (e e' : env) : Prop :=
  jobs_rep (jobq e') l /\ files e' = delete (req_name (fmt_ld id)) (delete (data_name id) (files e)).
Definition cancelled (l : list (Z * job)) (e e' : env) : Prop := jobs_rep (jobq e') l /\ files e' = files e.

(** What goes to the printer for a job. *)
Definition request_bytes (pname : bytes) (id : Z) (req : printreq) (doc : bytes) : bytes :=
  let ihdr := ipp_header pname id req in http_header pname (zlen doc) (zlen ihdr) ++ ihdr ++ doc.

(** What opening the data file of a job gives: the open and the fstat are the
    first two calls of the turn that can fail. *)
Definition call_fails (n : nat) (e : env) : bool := match faults e !! n with Some (FErr _) => true | _ => false end.
Definition data_opens (id : Z) (e : env) : option bytes :=
  if call_fails 0 e || call_fails 1 e then None else files e !! data_name id.

(** A call of [fs] fails or transfers less than it was asked to. *)
Definition failed (fs : list fault) : Prop := Exists (fun f => f <> FOk) fs.
Lemma failed_suffix fs fs' : fs' `suffix_of` fs -> failed fs' -> failed fs.
Proof. intros [k ->] H. apply Exists_app. by right. Qed.

(** Between [e] and [e'] the bytes [b] were sent and nothing was read. *)
Record sends (e : env) (b : bytes) (e' : env) : Prop := {
  sn_outp : outp e' = outp e ++ b;
  sn_inp : inp e' = inp e;
  sn_name : printer_name e' = printer_name e;
  sn_faults : faults e' `suffix_of` faults e
}.

Lemma sends_nil e e' :
  outp e' = outp e -> inp e' = inp e -> printer_name e' = printer_name e -> faults e' `suffix_of` faults e -> sends e [] e'.
Proof. intros H1 H2 H3 H4. split; try done. by rewrite app_nil_r. Qed.
Lemma sends_app e a e1 b e2 : sends e a e1 -> sends e1 b e2 -> sends e (a ++ b) e2.
Proof.
  intros [H1 H2 H3 H4] [I1 I2 I3 I4]. split; [by rewrite I1, H1, app_assoc|congruence|congruence|by etrans].
Qed.

Lemma fault_sends f e e' : next_fault e = PRet f e' -> sends e [] e' /\ (f <> FOk -> failed (faults e)).
Proof.
  unfold next_fault. destruct (faults e) as [|g fs] eqn:E; intros [= <- <-].
  - split; [apply sends_nil; done|done].
  - split; [apply sends_nil; try done; simpl; rewrite E; by exists [g]|]. by constructor.
Qed.

Lemma fails_sends (b : bool) e e' : fails e = PRet b e' -> sends e [] e' /\ (b = true -> failed (faults e)).
Proof.
  intros E. apply bind_inv in E as (f & e1 & E1 & E). injection E as <- <-. apply fault_sends in E1 as [Hs Hf].
  split; [done|]. destruct f; try done. intros _. by apply Hf.
Qed.

Lemma send_sends b n e e' : send b e = PRet n e' ->
  exists part rest, b = part ++ rest /\ sends e part e' /\ if n =? zlen b then rest = [] else failed (faults e).
Proof.
  intros E. apply bind_inv in E as (f & e1 & E1 & E). apply fault_sends in E1 as [Hs Hf]. destruct f as [|err|k].
  - injection E as <- <-. exists b, []. rewrite app_nil_r, Z.eqb_refl. split_and!; try done. by apply (sends_app e [] e1).
  - injection E as <- <-. exists [], b. split_and!; [done|by apply (sends_app e [] e1); [|apply sends_nil]|].
    destruct (Z.eqb_spec (-1) (zlen b)); [lia|by apply Hf].
  - injection E as <- <-. exists (take (Z.to_nat k) b), (drop (Z.to_nat k) b). rewrite take_drop. split_and!; [done|by apply (sends_app e [] e1)|].
    destruct (Z.eqb_spec (zlen (take (Z.to_nat k) b)) (zlen b)) as [El|]; [|by apply Hf].
    apply nil_length_inv. rewrite length_drop. rewrite length_take in El. lia.
Qed.

Lemma send_loop_sends fuel doc (ok : bool) e e' : send_loop fuel doc e = PRet ok e' ->
  exists part rest, doc = part ++ rest /\ sends e part e' /\ if ok then rest = [] else failed (faults e).
Proof.
  revert doc e. induction fuel as [|fuel IH]; intros doc e E; [done|]. cbn [send_loop] in E.
  apply bind_inv in E as (f & e1 & E1 & E). apply fault_sends in E1 as [Hs Hf].
  assert (Hgo : (if bool_decide (take (Z.to_nat IOBUFSZ) doc = []) then mret true
      else nw ← send (take (Z.to_nat IOBUFSZ) doc);
        if negb (nw =? zlen (take (Z.to_nat IOBUFSZ) doc)) then log_msg "can't write to printer" [nw];; mret false
        else send_loop fuel (drop (Z.to_nat IOBUFSZ) doc)) e1 = PRet ok e' ->
    exists part rest, doc = part ++ rest /\ sends e part e' /\ if ok then rest = [] else failed (faults e)).
  { clear E. intros E. pose proof (take_drop (Z.to_nat IOBUFSZ) doc) as Htd. case_bool_decide as Hb.
    - injection E as <- <-. destruct doc as [|c doc]; [|done]. by exists [], [].
    - apply bind_inv in E as (nw & e2 & E2 & E). apply send_sends in E2 as (part & rest & Hp & Hs2 & Hn).
      pose proof (sends_app _ _ _ _ _ Hs Hs2) as Hs3. destruct (nw =? _); cbn [negb] in E.
      + subst rest. rewrite app_nil_r in Hp. destruct (IH _ _ E) as (part' & rest' & Hp' & Hs' & Hok).
        exists (part ++ part'), rest'. split_and!; [by rewrite <- app_assoc, <- Hp', <- Hp|by apply (sends_app e part e2)|].
        destruct ok; [done|]. eapply failed_suffix; [|exact Hok]. apply (sn_faults _ _ _ Hs3).
      + injection E as <- <-. exists part, (rest ++ drop (Z.to_nat IOBUFSZ) doc). split_and!; [by rewrite app_assoc, <- Hp| |].
        * by destruct Hs3.
        * eapply failed_suffix; [|exact Hn]. apply (sn_faults _ _ _ Hs). }
  destruct f as [|err|k]; [by apply Hgo| |by apply Hgo].
  injection E as <- <-. exists [], doc. split_and!; [done|by destruct Hs|by apply Hf].
Qed.

(** The conversation: the whole request was sent and the printer judged it, or a
    call failed when a part of it had been sent. *)
Lemma submit_sends fuel id req doc (ok : bool) e e' : submit_job junk fuel id req doc e = PRet ok e' ->
  (exists e1 st, sends e (request_bytes (printer_name e) id req doc) e1 /\
     printer_status junk fuel id e1 = PRet st e' /\ ok = negb (st =? 0)) \/
  (ok = false /\ failed (faults e) /\ exists part rest, request_bytes (printer_name e) id req doc = part ++ rest /\ sends e part e').
Proof.
  intros E. unfold submit_job in E. apply bind_inv in E as (sock & e1 & E1 & E). apply fails_sends in E1 as [Hs1 Hf1].
  destruct sock; [injection E as <- <-; right; split_and!; [done|by apply Hf1|]; exists [], (request_bytes (printer_name e) id req doc);
    split; [done|by destruct Hs1]|].
  apply bind_inv in E as (conn & e2 & E2 & E). apply fails_sends in E2 as [Hs2 Hf2].
  pose proof (sends_app _ _ _ _ _ Hs1 Hs2) as Hs. simpl in Hs.
  destruct conn; [injection E as <- <-; right; split_and!; [done|eapply failed_suffix; [apply (sn_faults _ _ _ Hs1)|by apply Hf2]|];
    exists [], (request_bytes (printer_name e) id req doc); split; [done|by destruct Hs]|].
  apply bind_inv in E as (? & e3 & E3 & E). injection E3 as <- <-. cbv zeta in E.
  match type of E with context [if ?b then undef _ else _] => destruct b; [discriminate|] end.
  rewrite (sn_name _ _ _ Hs) in E. unfold request_bytes. set (ihdr := ipp_header (printer_name e) id req) in *.
  set (hhdr := http_header (printer_name e) (zlen doc) (zlen ihdr)) in *.
  apply bind_inv in E as (nw & e3 & E3 & E). apply send_sends in E3 as (part & rest & Hp & Hs3 & Hn).
  rewrite length_app, Nat2Z.inj_add in Hn. pose proof (sends_app _ _ _ _ _ Hs Hs3) as Hsp. simpl in Hsp.
  destruct (nw =? _); cbn [negb] in E.
  - subst rest. rewrite app_nil_r in Hp. subst part. apply bind_inv in E as (okl & e4 & E4 & E).
    apply send_loop_sends in E4 as (part & rest & Hp & Hs4 & Hok). pose proof (sends_app _ _ _ _ _ Hsp Hs4) as Hsp'.
    destruct okl; cbn [negb] in E.
    + subst rest. rewrite app_nil_r in Hp. subst part. left. apply bind_inv in E as (st & e5 & E5 & E). injection E as <- <-.
      exists e4, st. rewrite <- app_assoc in Hsp'. done.
    + injection E as <- <-. right. split_and!; [done|eapply failed_suffix; [apply (sn_faults _ _ _ Hsp)|exact Hok]|].
      exists ((hhdr ++ ihdr) ++ part), rest. split; [by rewrite Hp, <- !app_assoc|done].
  - injection E as <- <-. right. split_and!; [done|eapply failed_suffix; [apply (sn_faults _ _ _ Hs)|exact Hn]|].
    exists part, (rest ++ doc). split; [by rewrite !app_assoc, <- Hp|by destruct Hsp].
Qed.

(** After the conversation. *)
Lemma after_submit jp id req l (ok : bool) (q0 : jobs job) e e1 e' u :
  jobs_rep q0 ((jp, (id, req)) :: l) -> jobs_rep (jobq e1) l -> heap (jobq e1) !! jp = heap q0 !! jp -> files e1 = files e ->
  (if ok then unlink (data_name id);; unlink (req_name (fmt_ld id));; free_job jp
   else e ← get; q ← lift (replace_job jp (jobq e)); modify (set_jobq q)) e1 = PRet u e' ->
  (if ok then printed id l e e' else deferred jp id req l e e') /\ outp e' = outp e1 /\ printer_name e' = printer_name e1.
Proof.
  intros [Hs0 _ _ Hnd] Hr Hh Hf E. apply NoDup_cons in Hnd as [Hnot _]. destruct Hs0 as (H0 & Hp & _). destruct ok.
  - injection E as _ <-. split; [|done]. split; simpl; [by apply free_job_rep|by rewrite Hf].
  - apply bind_inv in E as (e2 & e3 & E2 & E). injection E2 as <- <-. pose proof (eq_trans Hh Hp) as Hj.
    destruct (replace_job_rep jp _ _ _ Hr H0 Hnot Hj) as (q & Eq & Hq). unfold lift in E. rewrite Eq in E.
    injection E as _ <-. by split.
Qed.

(** What becomes of the job in hand, and when. *)
Definition fate (fuel : nat) (jp id : Z) (req : printreq) (l : list (Z * job)) (e e' : env) : Prop :=
  match data_opens id e with
  | None => cancelled l e e' /\ outp e' = outp e
  | Some doc =>
    let request := request_bytes (printer_name e') id req doc in
    (exists e1 st e2, outp e1 = outp e ++ request /\ inp e1 = inp e /\ printer_status junk fuel id e1 = PRet st e2 /\
       outp e' = outp e ++ request /\ if st =? 0 then deferred jp id req l e e' else printed id l e e') \/
    (failed (drop 2 (faults e)) /\ (exists part rest, request = part ++ rest /\ outp e' = outp e ++ part) /\
     deferred jp id req l e e')
  end.

Definition is_err (f : fault) : bool := match f with FErr _ => true | _ => false end.

Lemma fault_at f e e' : next_fault e = PRet f e' -> is_err f = call_fails 0 e /\ e' = set_faults (tail (faults e)) e.
Proof.
  unfold next_fault, call_fails. destruct e as [? ? ? ? ? ? ? ? ? [|g fs] ? ? ? ? ? ?]; simpl; intros [= <- <-]; by split; try destruct g.
Qed.
Lemma call_fails_tail n e : call_fails n (set_faults (tail (faults e)) e) = call_fails (S n) e.
Proof. unfold call_fails. simpl. by rewrite lookup_tail. Qed.

Lemma print_job_fate fuel jp id req l q0 e e1 u e' :
  jobs_rep q0 ((jp, (id, req)) :: l) -> jobs_rep (jobq e1) l -> heap (jobq e1) !! jp = heap q0 !! jp ->
  files e1 = files e -> faults e1 = faults e -> inp e1 = inp e -> outp e1 = outp e ->
  print_job junk fuel jp id req e1 = PRet u e' -> fate fuel jp id req l e e'.
Proof.
  intros Hr Hq Hp Hf1 Hfl Hi Ho E. pose proof Hr as [_ _ _ Hnd]. apply NoDup_cons in Hnd as [Hnot _]. unfold print_job in E.
  apply bind_inv in E as (? & e3 & E3 & E). injection E3 as <- <-. apply bind_inv in E as (f & e3 & E3 & E).
  assert (Hcancel : forall m e4 v, jobq e4 = jobq e1 -> files e4 = files e -> outp e4 = outp e -> data_opens id e = None ->
    (log_msg m [id];; free_job jp) e4 = PRet v e' -> fate fuel jp id req l e e').
  { intros m e4 v Hk4 Hf4 Ho4 Hno E4. injection E4 as _ <-. unfold fate. rewrite Hno. split; [|done]. split; simpl; [|done].
    rewrite Hk4. by apply free_job_rep. }
  assert (Hopens : data_opens id e = if call_fails 0 e1 || call_fails 1 e1 then None else files e1 !! data_name id)
    by (unfold data_opens, call_fails; by rewrite Hf1, Hfl).
  apply fault_at in E3 as [Hf ->]. rewrite <- Hf in Hopens.
  assert (Hopen : forall doc, is_err f = false -> files e1 !! data_name id = Some doc ->
      (bad ← fails; if (bad : bool) then log_msg "job %ld canceled - can't fstat %s: %s" [id];; free_job jp
       else ok ← submit_job junk fuel id req doc; if (ok : bool) then
           unlink (data_name id);; unlink (req_name (fmt_ld id));; free_job jp
         else e ← get; q ← lift (replace_job jp (jobq e)); modify (set_jobq q)) (set_faults (tail (faults e1)) e1) = PRet u e' ->
      fate fuel jp id req l e e').
  { clear E. intros doc Hfe Hdoc E. rewrite Hfe, Hdoc in Hopens. simpl orb in Hopens.
    apply bind_inv in E as (bad & e4 & E4 & E). apply bind_inv in E4 as (g & e5 & E5 & E4). injection E4 as Hb <-.
    apply fault_at in E5 as [Hg ->]. rewrite call_fails_tail in Hg. rewrite <- Hg in Hopens.
    change (match g with FErr _ => true | _ => false end) with (is_err g) in Hb. rewrite Hb in Hopens.
    destruct bad; [revert E; by apply Hcancel|]. set (e4 := set_faults _ _) in E.
    assert (H4 : faults e4 = drop 2 (faults e)) by (unfold e4; simpl; rewrite Hfl; by destruct (faults e) as [|? [|? ?]]).
    assert (jobq e4 = jobq e1 /\ files e4 = files e /\ inp e4 = inp e /\ outp e4 = outp e) as (K1 & K2 & K3 & K4) by done.
    clearbody e4. apply bind_inv in E as (ok & e5 & E5 & E6). pose proof (keeps_submit _ _ _ _ _ _ _ E5) as [Hk5 Hf5].
    apply (after_submit jp id req l ok q0 e) in E6 as (Hfate & Ho6 & Hn6); [|done|by rewrite Hk5, K1|by rewrite Hk5, K1|by rewrite Hf5].
    unfold fate. rewrite Hopens, Hn6, Ho6. apply submit_sends in E5 as [(e6 & st & Hs & Est & ->)|(-> & Hfail & part & rest & Hpr & Hs)].
    - left. destruct Hs as [S1 S2 S3 S4]. pose proof (quiet_printer_status _ _ _ _ _ Est) as [_ [Q1 Q2]].
      exists e6, st, e5. rewrite Q2, S3, Q1, S1, S2, K3, K4. split_and!; try done. by destruct (st =? 0).
    - right. rewrite H4 in Hfail. destruct Hs as [S1 S2 S3 S4]. rewrite S3, S1, K4. split_and!; eauto. }
  destruct f; destruct (files e1 !! data_name id) as [doc|] eqn:Ed; eauto;
    (revert E; apply Hcancel; [done..|rewrite Hopens; simpl; by repeat case_match]).
Qed.

(** What precedes the conversation touches none of its data. *)
Lemma update_jobno_still u e e' : update_jobno e = PRet u e' -> faults e' = faults e /\ inp e' = inp e /\ outp e' = outp e.
Proof.
  unfold update_jobno, log_sys, log_quit. intros E. apply bind_inv in E as (? & e1 & E1 & E). injection E1 as <- <-.
  destruct (sys_lseek _ _ _) as [x f]. destruct (sys_write f _) as [n f']. apply bind_inv in E as (? & e2 & E2 & E).
  injection E2 as _ <-. destruct (n <? 0); [done|]. by injection E as _ <-.
Qed.
Lemma init_printer_still u e e' : init_printer getaddrinfo e = PRet u e' -> faults e' = faults e /\ inp e' = inp e /\ outp e' = outp e.
Proof.
  unfold init_printer. intros E. apply bind_inv in E as (? & e1 & E1 & E). injection E1 as <- <-.
  destruct (scan_configfile _ _) as [host|]; [|done]. destruct (getaddrinfo host) as [err canon].
  destruct (negb (err =? 0)); [done|]. by injection E as _ <-.
Qed.

Lemma turn_fate fuel jp id req l e u e' :
  jobs_rep (jobq e) ((jp, (id, req)) :: l) -> printer_turn getaddrinfo junk fuel e = PRet u e' -> fate fuel jp id req l e e'.
Proof.
  intros Hr E. unfold printer_turn in E. apply bind_inv in E as (e0 & e1 & E0 & E). injection E0 as <- <-.
  destruct (remove_job_rep (V := job) jp (id, req) (jobq e) [] l Hr) as (q & Eq & Hq & Hp & Hp'). simpl in Hq.
  pose proof Hr as [Hseg Hh _ _]. simpl in Hh. rewrite Hh in E. destruct Hseg as (H0 & _).
  destruct (Z.eqb_spec jp NULL); [done|]. unfold lift in E at 1. rewrite Eq in E.
  apply bind_inv in E as (? & e1 & E1 & E). injection E1 as <- <-. apply bind_inv in E as ([] & e1 & E1 & E). injection E1 as <-.
  pose proof (eq_trans Hp' Hp) as Hj. unfold job in *. rewrite Hj in E. apply bind_inv in E as (nd & e1 & E1 & E). injection E1 as <- <-.
  cbn [n_val] in E. apply bind_inv in E as ([] & e1 & E1 & E). injection E1 as <-.
  apply bind_inv in E as ([] & e1 & E1 & E). pose proof (update_jobno_still _ _ _ E1) as (J1 & J2 & J3).
  apply keeps_update_jobno in E1 as [Hk1 Hf1]. simpl in Hk1, Hf1, J1, J2, J3.
  apply bind_inv in E as (? & e2 & E2 & E). injection E2 as <- <-. apply bind_inv in E as ([] & e2 & E2 & E).
  assert (Hk2 : jobq e2 = q /\ files e2 = files e /\ faults e2 = faults e /\ inp e2 = inp e /\ outp e2 = outp e).
  { rewrite <- Hk1, <- Hf1, <- J1, <- J2, <- J3. destruct (reread e1); [|by injection E2 as <-]. apply bind_inv in E2 as ([] & e3 & E3 & E2).
    injection E3 as <-. pose proof (init_printer_still _ _ _ E2) as (I1 & I2 & I3). by apply keeps_init_printer in E2 as [-> ->]. }
  destruct Hk2 as (Hk2 & Hf2 & ? & ? & ?). eapply print_job_fate; [exact Hr| | |exact Hf2|done|done|done|exact E]; rewrite Hk2; done.
Qed.

(** ** A turn without failures *)

Lemma http_header_length pname size ilen :
  zlen (http_header pname size ilen) = 2 * zlen pname + zlen (fmt_ld (size + ilen)) + 84.
Proof. unfold http_header. rewrite !length_app. change (fmt_ld IPP_PORT) with (str "631"). simpl length. lia. Qed.

(** Names short enough for the buffers of [printer_thread]. *)
Definition header_safe (pname : bytes) (req : printreq) : Prop :=
  zlen pname <= 52 /\
  ipp_size pname (cstring (rq_usernm req)) (cstring (rq_jobnm req)) (negb (Z.land (rq_flags req) PR_TEXT =? 0)) <= IBUFSZ.

Lemma set_outp_outp o o' e : set_outp o (set_outp o' e) = set_outp o e.
Proof. done. Qed.

Lemma pwp_fails Q e : faults e = [] -> Q false e -> pwp fails Q e.
Proof. intros Hf HQ. unfold pwp, fails, mbind, P_bind, next_fault. by rewrite Hf. Qed.

Lemma pwp_send b Q e : faults e = [] -> Q (zlen b) (set_outp (outp e ++ b) e) -> pwp (send b) Q e.
Proof. intros Hf HQ. unfold pwp, send, mbind, P_bind, next_fault. by rewrite Hf. Qed.

Lemma pwp_send_loop fuel doc Q e :
  faults e = [] -> (length doc < fuel)%nat -> Q true (set_outp (outp e ++ doc) e) -> pwp (send_loop fuel doc) Q e.
Proof.
  revert doc e. induction fuel as [|fuel IH]; intros doc e Hf Hl HQ; [lia|]. cbn [send_loop]. pwp_step.
  unfold pwp at 1, next_fault. rewrite Hf. case_bool_decide as Hb.
  - pwp_step. destruct doc as [|c doc]; [|done]. rewrite app_nil_r in HQ. by destruct e.
  - pwp_step. apply pwp_send; [done|]. rewrite Z.eqb_refl. cbn [negb].
    apply IH; [done| |simpl; rewrite <- app_assoc, take_drop; by destruct e].
    rewrite length_drop. destruct doc as [|c doc]; [done|]. cbn [length] in Hl |- *. unfold IOBUFSZ. lia.
Qed.

Lemma pwp_update_jobno Q e :
  f_wr (jobfd e) = true -> 0 < nextjob e -> zlen (fmt_ld (nextjob e)) <= f_lim (jobfd e) ->
  (forall f, f_data f = splice (f_data (jobfd e)) 0 (fmt_ld (nextjob e)) -> f_rd f = f_rd (jobfd e) -> Q tt (set_jobfd f e)) ->
  pwp update_jobno Q e.
Proof.
  intros Hw Hn Hl HQ. unfold update_jobno. pwp_steps. unfold sys_lseek, sys_write. simpl. rewrite Hw.
  pose proof (dec_u_nonempty (nextjob e)) as Hne. rewrite <- fmt_ld_pos in Hne by done.
  set (b := fmt_ld (nextjob e)) in *. clearbody b.
  assert (Hb : 0 < zlen b) by (destruct b; [done|simpl; lia]).
  replace (Z.min (zlen b) (Z.max 0 (f_lim (jobfd e) - 0))) with (zlen b) by lia.
  destruct (Z.eqb_spec (zlen b) 0); [lia|]. cbn [andb]. rewrite Nat2Z.id, take_ge by lia. pwp_steps.
  destruct (Z.ltb_spec (zlen b) 0); [lia|]. pwp_step. by apply HQ.
Qed.

Lemma pwp_submit fuel id req doc r rest Q e :
  faults e = [] -> header_safe (printer_name e) req -> zlen doc < 10 ^ 18 -> (length doc < fuel)%nat ->
  inp e = RData (response_bytes r) :: rest -> response_wf r -> HTTP_SUCCESS (atoi (rs_code r)) = true ->
  (length (rs_mid r) + 1 < fuel)%nat ->
  let ihdr := ipp_header (printer_name e) id req in
  let sent := http_header (printer_name e) (zlen doc) (zlen ihdr) ++ ihdr ++ doc in
  Q (verdict r id =? 1) (status_env r id (set_inp rest (set_outp (outp e ++ sent) e))) ->
  pwp (submit_job junk fuel id req doc) Q e.
Proof.
  intros Hf [Hp Hi] Hd Hfu Hinp W Hok Hfm ihdr sent HQ. unfold submit_job.
  pwp_step. apply pwp_fails; [done|]. cbn iota. pwp_step. apply pwp_fails; [done|]. cbn iota. pwp_steps.
  fold ihdr. set (hhdr := http_header (printer_name e) (zlen doc) (zlen ihdr)) in *.
  assert (Hil : zlen ihdr <= IBUFSZ) by (unfold ihdr; by rewrite ipp_header_length).
  assert (Hhl : zlen hhdr <= HBUFSZ).
  { unfold hhdr. rewrite http_header_length.
    assert (zlen (fmt_ld (zlen doc + zlen ihdr)) <= 19); [|unfold HBUFSZ; lia].
    unfold fmt_ld. destruct (Z.ltb_spec (zlen doc + zlen ihdr) 0); [lia|].
    pose proof (dec_u_length (zlen doc + zlen ihdr) 19 ltac:(lia)) as Hdl. unfold IBUFSZ in Hil. lia. }
  assert (Hul : zlen (str "http://" ++ printer_name e ++ str ":" ++ fmt_ld IPP_PORT) + 1 <= 64).
  { rewrite !length_app. change (fmt_ld IPP_PORT) with (str "631"). simpl length. lia. }
  assert (Es : sent = hhdr ++ ihdr ++ doc) by done. clearbody sent hhdr ihdr.
  case_if; [exfalso; bool_to_prop; repeat (apply orb_true_iff in E as [E|E]); bool_to_prop; lia|].
  pwp_step. apply pwp_send; [done|]. rewrite length_app, Nat2Z.inj_add, Z.eqb_refl. cbn [negb].
  pwp_step. apply pwp_send_loop; [done|done|]. cbn [negb]. pwp_step.
  eapply pwp_printer_status; [exact W|exact Hinp|exact Hok|exact Hfm|]. pwp_step.
  replace (negb (verdict r id =? 0)) with (verdict r id =? 1) by (unfold verdict; by destruct (_ && _)).
  assert (Ho : set_outp ((outp e ++ hhdr ++ ihdr) ++ doc) (set_outp (outp e ++ hhdr ++ ihdr) e) = set_outp (outp e ++ sent) e)
    by (by rewrite Es, <- !app_assoc, set_outp_outp).
  cbn [outp set_outp]. rewrite Ho. exact HQ.
Qed.

(** Picking up the job at the head, with a job file that can be written and no
    change of the configuration. *)
Lemma pwp_pick_up fuel jp id req l Q e :
  jobs_rep (jobq e) ((jp, (id, req)) :: l) ->
  f_wr (jobfd e) = true -> 0 < nextjob e -> zlen (fmt_ld (nextjob e)) <= f_lim (jobfd e) -> reread e = false ->
  (forall q f lg nx pv, jobs_rep q l -> jp <> NULL -> (jp ∉ l.*1) -> heap q !! jp = Some (mkNode nx pv (id, req)) ->
    f_data f = splice (f_data (jobfd e)) 0 (fmt_ld (nextjob e)) ->
    pwp (print_job junk fuel jp id req) Q (set_jobfd f (set_logs lg (set_jobq q e)))) ->
  pwp (printer_turn getaddrinfo junk fuel) Q e.
Proof.
  intros Hr Hw Hn Hlim Hre HQ. unfold printer_turn. pwp_steps.
  destruct (remove_job_rep (V := job) jp (id, req) (jobq e) [] l Hr) as (q & Eq & Hq & Hp & Hp'). simpl in Hq.
  pose proof Hr as [Hseg Hh _ Hnd]. simpl in Hh. rewrite Hh. destruct Hseg as (H0 & _). apply NoDup_cons in Hnd as [Hnot _].
  destruct (Z.eqb_spec jp NULL) as [|_]; [done|]. pwp_step. unfold lift at 1. rewrite Eq. pwp_steps.
  pose proof (eq_trans Hp' Hp) as Hj. unfold job in *. unfold lift at 1. rewrite Hj. pwp_steps. cbn [n_val]. pwp_steps.
  apply pwp_update_jobno; [done|done|done|]. intros f Hfd _. pwp_steps. cbn [reread set_jobfd set_logs set_jobq]. rewrite Hre.
  pwp_step. by eapply HQ.
Qed.

(** A printer that answers: the job is printed or put back. *)
Lemma turn_spec fuel jp id req l doc r rest e :
  jobs_rep (jobq e) ((jp, (id, req)) :: l) ->
  f_wr (jobfd e) = true -> 0 < nextjob e -> zlen (fmt_ld (nextjob e)) <= f_lim (jobfd e) -> reread e = false ->
  faults e = [] -> files e !! data_name id = Some doc -> header_safe (printer_name e) req ->
  zlen doc < 10 ^ 18 -> (length doc < fuel)%nat ->
  inp e = RData (response_bytes r) :: rest -> response_wf r -> HTTP_SUCCESS (atoi (rs_code r)) = true ->
  (length (rs_mid r) + 1 < fuel)%nat ->
  let ihdr := ipp_header (printer_name e) id req in
  pwp (printer_turn getaddrinfo junk fuel) (fun _ e' =>
    outp e' = outp e ++ http_header (printer_name e) (zlen doc) (zlen ihdr) ++ ihdr ++ doc /\
    f_data (jobfd e') = splice (f_data (jobfd e)) 0 (fmt_ld (nextjob e)) /\
    if verdict r id =? 1
    then jobs_rep (jobq e') l /\ files e' = delete (req_name (fmt_ld id)) (delete (data_name id) (files e))
    else jobs_rep (jobq e') ((jp, (id, req)) :: l) /\ files e' = files e) e.
Proof.
  intros Hr Hw Hn Hlim Hre Hf Hdoc Hsafe Hd Hfu Hinp W Hok Hfm ihdr.
  apply (pwp_pick_up fuel jp id req l); try done. intros q f lg nx pv Hq H0 Hnot Hj Hfd.
  unfold print_job. pwp_steps. unfold pwp at 1, next_fault. cbn [faults set_jobfd set_logs set_jobq files]. rewrite Hf, Hdoc.
  pwp_step. apply pwp_fails; [exact Hf|]. cbn iota. pwp_step.
  eapply pwp_submit; [exact Hf|exact Hsafe|exact Hd|exact Hfu|exact Hinp|exact W|exact Hok|exact Hfm|]. cbn beta.
  set (e1 := status_env r id _).
  assert (H1 : jobq e1 = q /\ files e1 = files e /\ jobfd e1 = f /\
    outp e1 = outp e ++ http_header (printer_name e) (zlen doc) (zlen ihdr) ++ ihdr ++ doc)
    by (unfold e1, status_env; destruct (_ =? _); done).
  destruct H1 as (H1 & H2 & H3 & H4). clearbody e1. destruct (verdict r id =? 1).
  - unfold unlink, free_job. pwp_steps. split; [exact H4|]. split; [cbn [jobfd set_jobq set_files]; rewrite H3; exact Hfd|]. split; simpl.
    + rewrite H1. by apply free_job_rep.
    + by rewrite H2.
  - pwp_steps. destruct (replace_job_rep (V := job) jp _ q l Hq H0 Hnot Hj) as (q' & Eq' & Hq'). unfold job in *. rewrite H1. unfold lift.
    rewrite Eq'. pwp_steps. split; [exact H4|]. split; [cbn [jobfd set_jobq]; rewrite H3; exact Hfd|]. split; [exact Hq'|exact H2].
Qed.

(** No connection: the job is put back. *)
Lemma pwp_submit_unreachable fuel id req doc err fs Q e :
  faults e = FErr err :: fs \/ faults e = FOk :: FErr err :: fs ->
  (forall fs' lg, Q false (set_logs lg (set_faults fs' e))) -> pwp (submit_job junk fuel id req doc) Q e.
Proof.
  intros Hf HQ. unfold submit_job, pwp, fails, mbind, P_bind, next_fault. destruct Hf as [-> | ->]; cbn beta iota.
  - unfold mret, P_ret, log_msg, modify. cbn beta iota. apply HQ.
  - unfold mret, P_ret, log_msg, modify. cbn [faults set_faults]. cbn beta iota. apply (HQ fs).
Qed.

Lemma turn_deferred fuel jp id req l doc err fs e :
  jobs_rep (jobq e) ((jp, (id, req)) :: l) ->
  f_wr (jobfd e) = true -> 0 < nextjob e -> zlen (fmt_ld (nextjob e)) <= f_lim (jobfd e) -> reread e = false ->
  files e !! data_name id = Some doc ->
  faults e = FOk :: FOk :: FErr err :: fs \/ faults e = FOk :: FOk :: FOk :: FErr err :: fs ->
  pwp (printer_turn getaddrinfo junk fuel) (fun _ e' =>
    jobs_rep (jobq e') ((jp, (id, req)) :: l) /\ files e' = files e /\ outp e' = outp e) e.
Proof.
  intros Hr Hw Hn Hlim Hre Hdoc Hf. apply (pwp_pick_up fuel jp id req l); try done. intros q f lg nx pv Hq H0 Hnot Hj _.
  assert (Hf' : exists fs1, faults e = FOk :: FOk :: fs1 /\ (fs1 = FErr err :: fs \/ fs1 = FOk :: FErr err :: fs))
    by (destruct Hf as [-> | ->]; eauto).
  destruct Hf' as (fs1 & Hf1 & Hfs1). unfold print_job. pwp_steps.
  unfold pwp at 1, next_fault. cbn [faults set_jobfd set_logs set_jobq files]. rewrite Hf1, Hdoc.
  pwp_step. unfold pwp at 1, fails, mbind at 1, P_bind at 1, next_fault. cbn [faults set_faults mret]. unfold mret, P_ret. cbn beta iota.
  pwp_step. apply (pwp_submit_unreachable fuel id req doc err fs); [exact Hfs1|]. intros fs' lg'.
  pwp_steps. cbn [jobq set_logs set_faults set_jobfd set_jobq].
  destruct (replace_job_rep (V := job) jp _ q l Hq H0 Hnot Hj) as (q' & Eq' & Hq'). unfold job in *. unfold lift.
  rewrite Eq'. pwp_steps. split; [exact Hq'|]. done.
Qed.
End Turn.
