(* ===== verification/PrintMessage.v ===== *)
(** * PrintMessage: what a printer reads.

    A reader of the bytes [printer_thread] sends, written from the formats (HTTP
    header lines, a blank line, a body of Content-Length bytes that starts with an
    IPP header) and not from the code, and its inverse relation to the headers
    printd.c builds. *)
From S2P Require Import Prelude Libc Files PrintQueue Print PrintFormat PrintOps.
Local Open Scope Z_scope.

(** ** The reader *)

(** The first line, without its CR LF, and what follows. *)
Fixpoint http_line (b : bytes) : option (bytes * bytes) :=
  match b with
  | [] => None
  | c :: b' =>
    if (c =? 13) && bool_decide (head b' = Some 10) then Some ([], tail b')
    else '(l, r) ← http_line b'; Some (c :: l, r)
  end.

(** The lines up to the blank one, and the body. *)
Fixpoint http_lines (fuel : nat) (b : bytes) : option (list bytes * bytes) :=
  match fuel with
  | O => None
  | S fuel' =>
    '(l, r) ← http_line b;
    if bool_decide (l = []) then Some ([], r)
    else '(ls, body) ← http_lines fuel' r; Some (l :: ls, body)
  end.

(** The value of a header field. *)
Fixpoint http_field (name : bytes) (ls : list bytes) : option bytes :=
  match ls with
  | [] => None
  | l :: ls' =>
    let key := name ++ str ": " in
    if bool_decide (take (length key) l = key) then Some (drop (length key) l) else http_field name ls'
  end.

(** A print job as the printer sees it. *)
Record message := mkMessage {
  m_request : bytes;  (* the request line *)
  m_type : bytes;  (* of the body *)
  m_operation : Z;
  m_id : Z;
  m_attrs : list (Z * bytes * bytes);
  m_document : bytes
}.

Definition read_message (b : bytes) : option message :=
  '(ls, body) ← http_lines 100 b;
  line ← head ls;
  len ← http_field (str "Content-Length") ls;
  ty ← http_field (str "Content-Type") ls;
  if negb (atol len =? Z.of_nat (length body)) then None
  else if negb (bool_decide (take 2 body = [1; 1])) then None
  else if negb (bool_decide (take 1 (drop 8 body) = [TAG_OPERATION_ATTR])) then None
  else
    '(attrs, doc) ← parse_attrs 100 (drop 9 body);
    Some (mkMessage line ty (be_value (take 2 (drop 2 body))) (be_value (take 4 (drop 4 body))) attrs doc).

(** ** The headers of printd.c *)

Definition no_cr (b : bytes) : Prop := Forall (fun c => c <> 13) b.

Lemma http_line_spec l r : no_cr l -> http_line (l ++ CRLF ++ r) = Some (l, r).
Proof.
  induction 1 as [|c l Hc _ IH]; [done|]. cbn [app http_line]. destruct (Z.eqb_spec c 13); [done|]. by rewrite IH.
Qed.

Lemma http_lines_spec ls fuel r :
  Forall no_cr ls -> Forall (fun l => l <> []) ls -> (length ls < fuel)%nat ->
  http_lines fuel (concat (map (fun l => l ++ CRLF) ls) ++ CRLF ++ r) = Some (ls, r).
Proof.
  revert fuel. induction ls as [|l ls IH]; intros fuel Hc Hn Hf; (destruct fuel as [|fuel]; [simpl in Hf; lia|]); [done|].
  apply Forall_cons in Hc as [Hl Hc]. apply Forall_cons in Hn as [Hl0 Hn]. cbn [map concat http_lines].
  rewrite <- !app_assoc, http_line_spec by done. cbn [mbind option_bind]. rewrite bool_decide_false by done.
  rewrite IH by (done || (simpl in Hf; lia)). done.
Qed.

Lemma http_field_here name v ls : http_field name ((name ++ str ": " ++ v) :: ls) = Some v.
Proof.
  cbn [http_field]. rewrite app_assoc, take_app_length, drop_app_length. by rewrite bool_decide_true.
Qed.

Lemma http_field_skip name l ls :
  take (length (name ++ str ": ")) l <> name ++ str ": " -> http_field name (l :: ls) = http_field name ls.
Proof. intros H. cbn [http_field]. by rewrite bool_decide_false. Qed.

(** The lines of [http_header]. *)
Definition header_lines (pname : bytes) (len : Z) : list bytes :=
  [str "POST /" ++ pname ++ str "/ipp HTTP/1.1"; str "Content-Length: " ++ fmt_ld len;
   str "Content-Type: application/ipp"; str "Host: " ++ pname ++ str ":" ++ fmt_ld IPP_PORT].

Lemma http_header_lines pname size ilen :
  http_header pname size ilen = concat (map (fun l => l ++ CRLF) (header_lines pname (size + ilen))) ++ CRLF.
Proof. unfold http_header, header_lines. cbn [map concat]. by rewrite <- !app_assoc. Qed.

Lemma no_cr_digits n : 0 < n -> no_cr (fmt_ld n).
Proof.
  intros Hn. rewrite fmt_ld_pos by done. eapply Forall_impl; [apply dec_u_digits; lia|]. intros c Hc. simpl in Hc. lia.
Qed.

Lemma header_lines_ok pname len : no_cr pname -> 0 < len -> Forall no_cr (header_lines pname len).
Proof.
  intros Hp Hl. pose proof (no_cr_digits len Hl) as Hd. unfold header_lines, no_cr in *.
  repeat (apply Forall_cons; split); [..|by apply Forall_nil];
    repeat (apply Forall_app; split); try done; repeat constructor; done.
Qed.

Lemma header_fields pname len :
  http_field (str "Content-Length") (header_lines pname len) = Some (fmt_ld len) /\
  http_field (str "Content-Type") (header_lines pname len) = Some (str "application/ipp").
Proof.
  unfold header_lines. split.
  - rewrite http_field_skip by done.
    change (str "Content-Length: " ++ fmt_ld len) with (str "Content-Length" ++ str ": " ++ fmt_ld len). apply http_field_here.
  - rewrite !http_field_skip by done.
    change (str "Content-Type: application/ipp") with (str "Content-Type" ++ str ": " ++ str "application/ipp"). apply http_field_here.
Qed.

Lemma read_message_spec pname jobid req doc :
  let ihdr := ipp_header pname jobid req in
  no_cr pname -> Z.of_nat (length pname) < 60000 -> Z.of_nat (length (rq_usernm req)) <= 64 ->
  Z.of_nat (length (rq_jobnm req)) <= 256 -> Z.of_nat (length doc) <= 2 ^ 62 ->
  read_message (http_header pname (Z.of_nat (length doc)) (Z.of_nat (length ihdr)) ++ ihdr ++ doc) =
  Some (mkMessage (str "POST /" ++ pname ++ str "/ipp HTTP/1.1") (str "application/ipp") OP_PRINT_JOB
          (wrap_u 32 jobid) (job_attrs pname req) doc).
Proof.
  intros ihdr Hcr Hp Hu Hj Hd. pose proof (cstring_length (rq_usernm req)). pose proof (cstring_length (rq_jobnm req)).
  pose proof (ipp_header_length pname jobid req) as Hil. unfold ipp_size in Hil. fold ihdr in Hil.
  destruct (parse_ipp_header pname jobid req doc) as (b & Eb & Hb); [lia|lia|lia|]. fold ihdr in Eb.
  assert (Hlen : 0 < Z.of_nat (length doc) + Z.of_nat (length ihdr) <= LONG_MAX) by (unfold LONG_MAX; case_match; lia).
  unfold read_message. rewrite http_header_lines, <- app_assoc, http_lines_spec;
    [|apply header_lines_ok; [done|lia]|by repeat constructor|simpl; lia].
  destruct (header_fields pname (Z.of_nat (length doc) + Z.of_nat (length ihdr))) as [H1 H2].
  cbn [mbind option_bind]. rewrite H1, H2. cbn [mbind option_bind head header_lines]. rewrite atol_fmt_ld by done.
  destruct (Z.eqb_spec (Z.of_nat (length doc) + Z.of_nat (length ihdr)) (Z.of_nat (length (ihdr ++ doc)))) as [_|Hne];
    [|rewrite length_app in Hne; lia].
  rewrite Eb. set (w := wrap_u 32 jobid). assert (Hw : 0 <= w < 2 ^ 32) by (apply Z.mod_pos_bound; lia). clearbody w.
  pose proof (length_be_bytes 4 w) as Hl4. pose proof (be_value_bytes 4 w Hw) as Hv4. set (b4 := be_bytes 4 w) in *. clearbody b4.
  change (be_bytes 2 OP_PRINT_JOB) with [0; 2]. cbn [app negb take drop].
  rewrite !drop_0, !take_0, (take_app_exact b4 _ 4 Hl4), Hv4. change (be_value [0; 2]) with OP_PRINT_JOB.
  replace (drop 4 (b4 ++ TAG_OPERATION_ATTR :: b)) with (TAG_OPERATION_ATTR :: b) by (by rewrite (drop_app_exact b4 _ 4 Hl4)).
  replace (drop 5 (b4 ++ TAG_OPERATION_ATTR :: b)) with b
    by (change (TAG_OPERATION_ATTR :: b) with ([TAG_OPERATION_ATTR] ++ b); rewrite app_assoc, drop_app_exact;
        [done|by rewrite length_app, Hl4]).
  rewrite !bool_decide_true by done. cbn [negb]. by rewrite (parse_attrs_fuel 7 100 b _ ltac:(lia) Hb).
Qed.
