(* ===== verification/PrintClient.v ===== *)
(** * PrintClient: the print command, apue.2e/ipp/print.c, with lib/readn.c and
    lib/writen.c.

    The command reads the file, sends the request and the document to the daemon
    and reports the answer.  Its state [cst] holds what is left of the file, what
    was written to the socket and what arrives on it; every read and write can
    fail or transfer less than asked, as the lists of faults say.  A computation
    of the monad [K] returns, ends the process, or is undefined. *)
From S2P Require Import Prelude Libc Files PrintQueue Print PrintFormat.
Local Open Scope Z_scope.

(** ** State *)

(** What the user sees. *)
Inductive shown := Rejected (msg : bytes) | JobId (id : Z) | Message (m : string) (args : list bytes).

Record cst := mkCst {
  c_file : bytes;  (* from the file offset of fd on *)
  c_rfaults : list fault;  (* of the reads of the file to come *)
  c_wfaults : list fault;  (* of the writes to the socket to come *)
  c_sent : bytes;
  c_recv : list (bytes + Z);  (* data or errors that arrive; then end of file *)
  c_conns : list bool;  (* whether the connections to come succeed *)
  c_shown : list shown  (* newest first *)
}.

Definition set_file v s := mkCst v (c_rfaults s) (c_wfaults s) (c_sent s) (c_recv s) (c_conns s) (c_shown s).
Definition set_rfaults v s := mkCst (c_file s) v (c_wfaults s) (c_sent s) (c_recv s) (c_conns s) (c_shown s).
Definition set_wfaults v s := mkCst (c_file s) (c_rfaults s) v (c_sent s) (c_recv s) (c_conns s) (c_shown s).
Definition set_sent v s := mkCst (c_file s) (c_rfaults s) (c_wfaults s) v (c_recv s) (c_conns s) (c_shown s).
Definition set_recv v s := mkCst (c_file s) (c_rfaults s) (c_wfaults s) (c_sent s) v (c_conns s) (c_shown s).
Definition set_conns v s := mkCst (c_file s) (c_rfaults s) (c_wfaults s) (c_sent s) (c_recv s) v (c_shown s).
Definition set_shown v s := mkCst (c_file s) (c_rfaults s) (c_wfaults s) (c_sent s) (c_recv s) (c_conns s) v.

Inductive kres (A : Type) :=
  | KRet (a : A) (s : cst)
  | KExit (code : Z) (s : cst)
  | KUndef (why : string) (s : cst)
  | KNoFuel.
Arguments KRet {A} a s.
Arguments KExit {A} code s.
Arguments KUndef {A} why s.
Arguments KNoFuel {A}.

Definition K (A : Type) : Type := cst -> kres A.

#[export] Instance K_ret : MRet K := fun A a s => KRet a s.
#[export] Instance K_bind : MBind K := fun A B k m s =>
  match m s with
  | KRet a s' => k a s'
  | KExit c s' => KExit c s'
  | KUndef w s' => KUndef w s'
  | KNoFuel => KNoFuel
  end.

Definition kget : K cst := fun s => KRet s s.
Definition kmodify (f : cst -> cst) : K unit := fun s => KRet tt (f s).
Definition kexit {A} (code : Z) : K A := fun s => KExit code s.
Definition kundef {A} (why : string) : K A := fun s => KUndef why s.
Definition knofuel {A} : K A := fun _ => KNoFuel.
Definition show (x : shown) : K unit := kmodify (fun s => set_shown (x :: c_shown s) s).

(** err_sys and err_quit: a message, then exit(1). *)
Definition err_exit {A} (m : string) (args : list bytes) : K A := show (Message m args);; kexit 1.

(** ** System calls *)

(** write on the socket of a nonempty buffer. *)
Definition sock_write (b : bytes) : K Z := fun s =>
  match c_wfaults s with
  | FErr _ :: fs => KRet (-1) (set_wfaults fs s)
  | FShort n :: fs =>
    let b' := take (Z.to_nat n) b in
    KRet (Z.of_nat (length b')) (set_sent (c_sent s ++ b') (set_wfaults fs s))
  | FOk :: fs => KRet (Z.of_nat (length b)) (set_sent (c_sent s ++ b) (set_wfaults fs s))
  | [] => KRet (Z.of_nat (length b)) (set_sent (c_sent s ++ b) s)
  end.

(** read on the socket of at most [n] bytes; it waits for data. *)
Definition sock_read (n : Z) : K (Z * bytes) := fun s =>
  match c_recv s with
  | [] => KRet (0, []) s
  | inr _ :: r => KRet (-1, []) (set_recv r s)
  | inl b :: r =>
    let rest := drop (Z.to_nat n) b in
    KRet (Z.of_nat (length (take (Z.to_nat n) b)), take (Z.to_nat n) b)
      (set_recv (if bool_decide (rest = []) then r else inl rest :: r) s)
  end.

(** read on the file. *)
Definition file_read (n : Z) : K (Z * bytes) := fun s =>
  let give k s := KRet (Z.of_nat (length (take (Z.to_nat k) (c_file s))), take (Z.to_nat k) (c_file s))
                       (set_file (drop (Z.to_nat k) (c_file s)) s) in
  match c_rfaults s with
  | FErr _ :: fs => KRet (-1, []) (set_rfaults fs s)
  | FShort k :: fs => give (Z.min k n) (set_rfaults fs s)
  | FOk :: fs => give n (set_rfaults fs s)
  | [] => give n s
  end.

(** ** lib/writen.c and lib/readn.c *)

(** The loop of [writen]: [ptr] is what is left of [n] bytes. *)
Fixpoint writen_loop (fuel : nat) (n : Z) (ptr : bytes) : K Z :=
  let nleft := Z.of_nat (length ptr) in
  if nleft <=? 0 then mret (n - nleft)
  else
    match fuel with
    | O => knofuel
    | S fuel' =>
      nwritten ← sock_write ptr;
      if nwritten <? 0 then
        if nleft =? n then mret (-1) else mret (n - nleft)
      else if nwritten =? 0 then mret (n - nleft)
      else writen_loop fuel' n (drop (Z.to_nat nwritten) ptr)
    end.

(** Each turn that goes on writes at least one byte. *)
Definition writen (b : bytes) : K Z := writen_loop (length b) (Z.of_nat (length b)) b.

(** The loop of [readn]: [got] is what was read so far. *)
Fixpoint readn_loop (fuel : nat) (n : Z) (got : bytes) : K (Z * bytes) :=
  let nleft := n - Z.of_nat (length got) in
  if nleft <=? 0 then mret (n - nleft, got)
  else
    match fuel with
    | O => knofuel
    | S fuel' =>
      '(nread, b) ← sock_read nleft;
      if nread <? 0 then
        if nleft =? n then mret (-1, got) else mret (n - nleft, got)
      else if nread =? 0 then mret (n - nleft, got)
      else readn_loop fuel' n (got ++ b)
    end.
Definition readn (n : Z) : K (Z * bytes) := readn_loop (Z.to_nat n) n [].

(** ** print.c *)

(** struct printresp as its bytes: two longs and the message. *)
Definition SIZEOF_RESP : Z := 528.
Definition dec_resp (b : bytes) : Z * Z * bytes :=
  (wrap_s 64 (le_word (take 8 b)), wrap_s 64 (le_word (take 8 (drop 8 b))), take 512 (drop 16 b)).

(** The loop that sends the file; it ends at a read of 0 bytes.  The result of a
    read that failed goes to [writen] as a length, where -1 is the largest
    size_t: the buffer is overrun. *)
Fixpoint send_file (fuel : nat) : K unit :=
  match fuel with
  | O => knofuel
  | S fuel' =>
    '(nr, b) ← file_read IOBUFSZ;
    if nr =? 0 then mret tt
    else if nr <? 0 then kundef "writen past the end of buf"
    else
      nw ← writen b;
      if negb (nw =? nr) then
        if nw <? 0 then err_exit "can't write to print server" []
        else err_exit "short write (%d/%d) to print server" [fmt_ld nw; fmt_ld nr]
      else send_file fuel'
  end.

(** What becomes of the response. *)
Definition show_response (res : Z * Z * bytes) : K unit :=
  let '(retcode, jobid, msg) := res in
  if negb (retcode =? 0) then
    if bool_decide (0 ∈ msg) then show (Rejected (cstring msg));; kexit 1
    else kundef "printf of a message that is not terminated"
  else show (JobId (ntohl jobid)).

(** [submit_file]: [pwd] is the login name getpwuid finds, [j1] and [j2] what
    the arrays of the request held before.  It never returns. *)
Definition submit_file (pwd : option bytes) (fname : bytes) (nbytes : Z) (text : bool) (j1 j2 : bytes) : K unit :=
  match submit_req (default (str "unknown") pwd) fname nbytes text j1 j2 with
  | None => kundef "strcpy past the end of usernm"
  | Some req =>
    nw ← writen (enc_req req);
    (if negb (nw =? SIZEOF_REQ) then
       if nw <? 0 then err_exit "can't write to print server" []
       else err_exit "short write (%d/%d) to print server" [fmt_ld nw; fmt_ld SIZEOF_REQ]
     else mret tt);;
    s ← kget;
    send_file (S (length (c_file s)));;
    '(nr, b) ← readn SIZEOF_RESP;
    (if negb (nr =? SIZEOF_RESP) then err_exit "can't read response from server" [] else mret tt);;
    show_response (dec_resp b);;
    kexit 0
  end.

(** getopt(argc, argv, "t") on the words behind the program's name: whether -t
    was given, whether an option was not recognized, and the operands left: the
    options end at the first word that is not one, or behind --. *)
Fixpoint flags_of (w : bytes) : bool * bool :=
  match w with
  | [] => (false, false)
  | c :: w' => let '(t, bad) := flags_of w' in if c =? 116 then (true, bad) else (t, true)
  end.
Fixpoint getopt_t (ws : list bytes) : bool * bool * list bytes :=
  match ws with
  | (45 :: c :: w) :: ws' =>
    if bool_decide (c :: w = [45]) then (false, false, ws')
    else
      let '(t, bad) := flags_of (c :: w) in
      let '(t', bad', ops) := getopt_t ws' in
      (t || t', bad || bad', ops)
  | _ => (false, false, ws)
  end.

(** What open and fstat find: nothing, a file that is not regular, or the bytes
    of a regular file. *)
Inductive found := NoFile | Special | Regular (b : bytes).

(** The loop over the addresses of the print server. *)
Fixpoint connect_loop (host : bytes) (pwd : option bytes) (fname : bytes) (nbytes : Z) (text : bool) (j1 j2 : bytes) (n : nat) : K unit :=
  match n with
  | O => err_exit "print: can't contact %s" [host]
  | S n' =>
    s ← kget;
    kmodify (set_conns (tail (c_conns s)));;
    if default true (head (c_conns s)) then submit_file pwd fname nbytes text j1 j2
    else connect_loop host pwd fname nbytes text j1 j2 n'
  end.

(** [main]: [argv] without the program's name; [fs] is the file system, [config]
    the lines of the configuration file, [addrs] the number of addresses
    getaddrlist finds for a host.  The job is named after argv[1]. *)
Definition print_main (fs : bytes -> found) (config : list bytes) (addrs : bytes -> option nat)
    (pwd : option bytes) (j1 j2 : bytes) (argv : list bytes) : K unit :=
  let '(text, bad, ops) := getopt_t argv in
  match bad, ops, argv with
  | false, [fname], arg1 :: _ =>
    match fs fname with
    | NoFile => err_exit "print: can't open %s" [arg1]
    | Special => err_exit "print: %s must be a regular file" [arg1]
    | Regular b =>
      kmodify (set_file b);;
      match get_printserver config with
      | None => err_exit "print: no print server defined" []
      | Some host =>
        match addrs host with
        | None => err_exit "print: getaddrinfo error: %s" []
        | Some n => connect_loop host pwd arg1 (Z.of_nat (length b)) text j1 j2 n
        end
      end
    end
  | _, _, _ => err_exit "usage: print [-t] filename" []
  end.

(** ** Lemmas *)

(** Faults that do not stop a transfer: everything, or a part that is not empty. *)
Definition partial (f : fault) : Prop := match f with FOk => True | FShort n => 0 < n | FErr _ => False end.

Lemma sock_write_partial b s :
  b <> [] -> Forall partial (c_wfaults s) ->
  exists got rest fs, b = got ++ rest /\ got <> [] /\ Forall partial fs /\
    sock_write b s = KRet (Z.of_nat (length got)) (set_sent (c_sent s ++ got) (set_wfaults fs s)).
Proof.
  intros Hb Hf. unfold sock_write. destruct (c_wfaults s) as [|[|e|n] fs] eqn:E.
  - exists b, [], []. rewrite app_nil_r. split_and!; try done. by destruct s; simpl in *; subst.
  - apply Forall_cons in Hf as [_ Hf]. exists b, [], fs. by rewrite app_nil_r.
  - by apply Forall_cons in Hf as [[] _].
  - apply Forall_cons in Hf as [Hn Hf]. simpl in Hn. exists (take (Z.to_nat n) b), (drop (Z.to_nat n) b), fs.
    rewrite take_drop. split_and!; try done. destruct (Z.to_nat n) eqn:En; [lia|]. by destruct b.
Qed.

Lemma writen_loop_spec fuel n ptr s :
  (length ptr <= fuel)%nat -> Forall partial (c_wfaults s) ->
  exists fs, Forall partial fs /\
    writen_loop fuel n ptr s = KRet n (set_sent (c_sent s ++ ptr) (set_wfaults fs s)).
Proof.
  revert ptr s. induction fuel as [|fuel IH]; intros ptr s Hl Hf.
  - destruct ptr; [|simpl in Hl; lia]. exists (c_wfaults s). split; [done|]. simpl. rewrite app_nil_r, Z.sub_0_r. by destruct s.
  - cbn [writen_loop]. destruct (Z.leb_spec (Z.of_nat (length ptr)) 0) as [H0|H0].
    + destruct ptr; [|simpl in H0; lia]. exists (c_wfaults s). split; [done|]. simpl. rewrite app_nil_r, Z.sub_0_r. by destruct s.
    + destruct (sock_write_partial ptr s) as (got & rest & fs & -> & Hg & Hfs & E); [by destruct ptr|done|].
      unfold mbind, K_bind. rewrite E. assert (0 < Z.of_nat (length got)) by (destruct got; simpl; [done|lia]).
      destruct (Z.ltb_spec (Z.of_nat (length got)) 0); [lia|]. destruct (Z.eqb_spec (Z.of_nat (length got)) 0); [lia|].
      rewrite Nat2Z.id, drop_app_length. destruct (IH rest (set_sent (c_sent s ++ got) (set_wfaults fs s))) as (fs' & Hfs' & E');
        [rewrite length_app in Hl; lia|done|].
      exists fs'. split; [done|]. rewrite E'. simpl. by rewrite app_assoc.
Qed.

Lemma writen_spec b s :
  Forall partial (c_wfaults s) ->
  exists fs, Forall partial fs /\
    writen b s = KRet (Z.of_nat (length b)) (set_sent (c_sent s ++ b) (set_wfaults fs s)).
Proof. by apply writen_loop_spec. Qed.

Lemma file_read_partial s :
  Forall partial (c_rfaults s) ->
  exists got rest fs, c_file s = got ++ rest /\ (got = [] <-> c_file s = []) /\ Forall partial fs /\
    file_read IOBUFSZ s = KRet (Z.of_nat (length got), got) (set_file rest (set_rfaults fs s)).
Proof.
  assert (Hgive : forall k, 0 < k -> (take (Z.to_nat k) (c_file s) = [] <-> c_file s = [])).
  { intros k Hk. destruct (Z.to_nat k) eqn:En; [lia|]. by destruct (c_file s). }
  intros Hf. unfold file_read. destruct (c_rfaults s) as [|[|e|n] fs] eqn:E.
  - exists (take (Z.to_nat IOBUFSZ) (c_file s)), (drop (Z.to_nat IOBUFSZ) (c_file s)), []. rewrite take_drop.
    split_and!; [done|by apply Hgive|done|]. by destruct s; simpl in *; subst.
  - apply Forall_cons in Hf as [_ Hf]. exists (take (Z.to_nat IOBUFSZ) (c_file s)), (drop (Z.to_nat IOBUFSZ) (c_file s)), fs.
    rewrite take_drop. split_and!; [done|by apply Hgive|done|done].
  - by apply Forall_cons in Hf as [[] _].
  - apply Forall_cons in Hf as [Hn Hf]. simpl in Hn.
    exists (take (Z.to_nat (Z.min n IOBUFSZ)) (c_file s)), (drop (Z.to_nat (Z.min n IOBUFSZ)) (c_file s)), fs.
    rewrite take_drop. split_and!; [done|apply Hgive; unfold IOBUFSZ; lia|done|done].
Qed.

(** The whole file goes to the socket. *)
Lemma send_file_spec fuel s :
  (length (c_file s) < fuel)%nat -> Forall partial (c_rfaults s) -> Forall partial (c_wfaults s) ->
  exists rfs wfs, send_file fuel s =
    KRet tt (set_sent (c_sent s ++ c_file s) (set_file [] (set_wfaults wfs (set_rfaults rfs s)))).
Proof.
  revert s. induction fuel as [|fuel IH]; intros s Hl Hr Hw; [lia|].
  destruct (file_read_partial s Hr) as (got & rest & rfs & Hfile & Hg & Hrfs & E).
  cbn [send_file]. unfold mbind, K_bind. rewrite E. destruct (decide (got = [])) as [->|Hne].
  - simpl. pose proof (proj1 Hg eq_refl) as Hnil. exists rfs, (c_wfaults s). rewrite Hnil in Hfile |- *. simpl in Hfile.
    subst rest. rewrite app_nil_r. by destruct s.
  - assert (0 < Z.of_nat (length got)) by (destruct got; simpl; [done|lia]).
    destruct (Z.eqb_spec (Z.of_nat (length got)) 0); [lia|]. destruct (Z.ltb_spec (Z.of_nat (length got)) 0); [lia|].
    destruct (writen_spec got (set_file rest (set_rfaults rfs s)) Hw) as (wfs & Hwfs & Ew). rewrite Ew, Z.eqb_refl. cbn [negb].
    rewrite Hfile in Hl |- *. rewrite length_app in Hl.
    destruct (IH (set_sent (c_sent s ++ got) (set_wfaults wfs (set_file rest (set_rfaults rfs s))))) as (rfs' & wfs' & E');
      [simpl; lia|done|done|].
    exists rfs', wfs'. simpl in E' |- *. rewrite E'. by rewrite app_assoc.
Qed.

Lemma readn_loop_spec fuel n got chunks s :
  c_recv s = map inl chunks -> Forall nonempty chunks ->
  n - Z.of_nat (length got) = Z.of_nat (length (concat chunks)) -> (length (concat chunks) <= fuel)%nat ->
  readn_loop fuel n got s = KRet (n, got ++ concat chunks) (set_recv [] s).
Proof.
  revert got chunks s. induction fuel as [|fuel IH]; intros got chunks s Hi Hc Hn Hf.
  - destruct chunks as [|b chunks].
    + simpl in *. rewrite app_nil_r. destruct (Z.leb_spec (n - Z.of_nat (length got)) 0); [|lia].
      unfold mret, K_ret. rewrite <- Hi. replace (n - (n - Z.of_nat (length got))) with n by lia. by destruct s.
    + apply Forall_cons in Hc as [Hb _]. destruct b; [done|]. simpl in Hf. lia.
  - cbn [readn_loop]. destruct chunks as [|b chunks].
    + simpl in *. rewrite app_nil_r. destruct (Z.leb_spec (n - Z.of_nat (length got)) 0); [|lia].
      unfold mret, K_ret. rewrite <- Hi. replace (n - (n - Z.of_nat (length got))) with n by lia. by destruct s.
    + apply Forall_cons in Hc as [Hb Hc]. simpl concat in *. rewrite length_app in Hn, Hf.
      assert (0 < Z.of_nat (length b)) by (destruct b; simpl; [done|lia]).
      destruct (Z.leb_spec (n - Z.of_nat (length got)) 0); [lia|].
      unfold mbind, K_bind, sock_read. rewrite Hi. cbn [map]. rewrite take_ge, drop_ge by lia.
      destruct (Z.ltb_spec (Z.of_nat (length b)) 0); [lia|]. destruct (Z.eqb_spec (Z.of_nat (length b)) 0); [lia|].
      rewrite bool_decide_true by done. rewrite (IH _ chunks); [|done|done|rewrite length_app; lia|lia].
      by rewrite app_assoc.
Qed.

(** What the daemon sends: the bytes of struct printresp, the rest of the
    message array being [junk]. *)
Definition enc_resp (retcode jobid : Z) (msg junk : bytes) : bytes :=
  le_bytes 8 (wrap_u 64 retcode) ++ le_bytes 8 (wrap_u 64 jobid) ++ char_array MSGLEN_MAX msg junk.

Lemma length_enc_resp rc id msg junk : Z.of_nat (length (enc_resp rc id msg junk)) = SIZEOF_RESP.
Proof. unfold enc_resp. rewrite !length_app, !length_le_bytes, length_char_array by done. reflexivity. Qed.

Lemma dec_enc_resp rc id msg junk :
  - 2 ^ 63 <= rc < 2 ^ 63 -> - 2 ^ 63 <= id < 2 ^ 63 ->
  dec_resp (enc_resp rc id msg junk) = (rc, id, char_array MSGLEN_MAX msg junk).
Proof.
  intros Hr Hi. unfold dec_resp, enc_resp.
  set (a := le_bytes 8 (wrap_u 64 rc)). set (b := le_bytes 8 (wrap_u 64 id)). set (m := char_array MSGLEN_MAX msg junk).
  assert (Ha : length a = 8%nat) by apply length_le_bytes. assert (Hb : length b = 8%nat) by apply length_le_bytes.
  assert (Hm : length m = 512%nat) by (by apply length_char_array).
  replace (drop 16 (a ++ b ++ m)) with m by (rewrite app_assoc; symmetry; apply drop_app_exact; rewrite length_app; lia).
  rewrite !(drop_app_exact a), !take_app_exact, take_ge by (done || lia).
  unfold a, b. rewrite !le_word_bytes by (apply Z.mod_pos_bound; lia). by rewrite !wrap_s_u64.
Qed.

Lemma ntohl_htonl_wrap z : ntohl (htonl z) = wrap_u 32 z.
Proof.
  replace (htonl z) with (htonl (wrap_u 32 z)); [apply ntohl_htonl, Z.mod_pos_bound; lia|].
  unfold htonl, wrap_u. by rewrite Z.mod_mod.
Qed.

Lemma submit_req_wf user fname nbytes text j1 j2 r :
  0 <= nbytes < 2 ^ 32 -> submit_req user fname nbytes text j1 j2 = Some r -> req_wf r.
Proof.
  intros Hn E. unfold submit_req in E. destruct (Z.leb_spec USERNM_MAX (Z.of_nat (length user))) as [|Hl]; [done|].
  injection E as <-.
  assert (Hh : forall z, - 2 ^ 63 <= htonl z < 2 ^ 63) by (intros z; pose proof (htonl_range z); lia).
  split; cbn [rq_size rq_flags rq_usernm rq_jobnm]; [by apply Hh|destruct text; [by apply Hh|lia]| |]; by rewrite length_char_array.
Qed.

(** [submit_file] with a server that accepts the job. *)
Lemma submit_file_accepted pwd fname text j1 j2 r id msg junk chunks s :
  submit_req (default (str "unknown") pwd) fname (Z.of_nat (length (c_file s))) text j1 j2 = Some r ->
  Z.of_nat (length (c_file s)) < 2 ^ 32 ->
  Forall partial (c_rfaults s) -> Forall partial (c_wfaults s) ->
  c_recv s = map inl chunks -> Forall nonempty chunks -> concat chunks = enc_resp 0 (htonl id) msg junk ->
  exists s', submit_file pwd fname (Z.of_nat (length (c_file s))) text j1 j2 s = KExit 0 s' /\
    c_sent s' = c_sent s ++ enc_req r ++ c_file s /\ c_shown s' = JobId (wrap_u 32 id) :: c_shown s.
Proof.
  intros Er Hlen Hrf Hwf Hrecv Hne Hconc. pose proof (submit_req_wf _ _ _ _ _ _ _ (conj (Nat2Z.is_nonneg _) Hlen) Er) as Hwfr.
  unfold submit_file. rewrite Er. clear Er. unfold mbind at 1, K_bind at 1.
  destruct (writen_spec (enc_req r) s Hwf) as (wfs & Hwfs & Ew). rewrite Ew, (length_enc_req r Hwfr), Z.eqb_refl. cbn [negb].
  unfold mret, K_ret, mbind, K_bind, kget. cbn [c_file set_sent set_wfaults].
  edestruct (send_file_spec (S (length (c_file s))) (set_sent (c_sent s ++ enc_req r) (set_wfaults wfs s))) as (rfs & wfs' & Es);
    [simpl; lia|done|done|]. rewrite Es. unfold readn.
  pose proof (length_enc_resp 0 (htonl id) msg junk) as Hl. rewrite <- Hconc in Hl.
  rewrite (readn_loop_spec _ SIZEOF_RESP [] chunks); [|done|done|simpl; rewrite Hl; lia|unfold SIZEOF_RESP in *; lia].
  rewrite Z.eqb_refl. cbn [negb app]. rewrite Hconc, dec_enc_resp; [|lia|pose proof (htonl_range id); lia].
  unfold show_response. rewrite Z.eqb_refl. cbn [negb]. unfold show, kmodify, kexit. eexists. split; [reflexivity|].
  cbn [c_sent c_shown c_file set_sent set_shown set_recv set_file set_wfaults set_rfaults].
  split; [by rewrite <- app_assoc|]. by rewrite ntohl_htonl_wrap.
Qed.

(** The loop over the addresses gets to [submit_file] when one of them, here the
    one at index [i], accepts the connection. *)
Lemma connect_loop_submits host pwd fname nbytes text j1 j2 n i s :
  (i < n)%nat -> c_conns s !! i <> Some false ->
  exists cs, connect_loop host pwd fname nbytes text j1 j2 n s = submit_file pwd fname nbytes text j1 j2 (set_conns cs s).
Proof.
  revert i s. induction n as [|n IH]; intros i s Hi Hc; [lia|].
  cbn [connect_loop]. unfold mbind, K_bind, kget, kmodify. destruct (c_conns s) as [|[] cs] eqn:E.
  - by exists [].
  - by exists cs.
  - destruct i as [|i]; [done|]. simpl in Hc. destruct (IH i (set_conns cs s)) as (cs' & Hcs); [lia|done|].
    exists cs'. exact Hcs.
Qed.

(** [main] with the options of [text], up to the connection. *)
Lemma print_main_submits fs config addrs pwd j1 j2 (text : bool) fname doc host n i s :
  head fname <> Some 45 -> fs fname = Regular doc -> get_printserver config = Some host -> addrs host = Some n ->
  (i < n)%nat -> c_conns s !! i <> Some false ->
  exists cs, print_main fs config addrs pwd j1 j2 (if text then [str "-t"; fname] else [fname]) s =
  submit_file pwd (if text then str "-t" else fname) (Z.of_nat (length doc)) text j1 j2 (set_conns cs (set_file doc s)).
Proof.
  intros Hd Hf Hs Ha Hi Hc.
  assert (Hg : getopt_t [fname] = (false, false, [fname])).
  { destruct fname as [|c f]; [done|]. simpl in Hd. cbn [getopt_t]. by repeat case_match. }
  assert (Ht : getopt_t (if text then [str "-t"; fname] else [fname]) = (text, false, [fname])).
  { destruct text; [|done]. change (getopt_t [str "-t"; fname]) with
      (let '(t', bad', ops) := getopt_t [fname] in (true || t', false || bad', ops))%bool. by rewrite Hg. }
  unfold print_main. rewrite Ht. destruct text; cbn [fst snd]; rewrite Hf; unfold mbind at 1, K_bind at 1, kmodify at 1; rewrite Hs, Ha;
    by apply (connect_loop_submits host _ _ _ _ _ _ n i).
Qed.
