(* ===== verification/PrintTheorems.v ===== *)
(** * PrintTheorems: the properties of the print spooler.

    The job list as a queue, the life of a request from the client's structure
    through the spool directory to the printer, and the formats in between. *)
From S2P Require Import Prelude Libc Files PrintQueue Print PrintFormat PrintOps PrintStatus PrintTurn PrintMessage PrintClient.
Local Open Scope Z_scope.

(** ** A daemon to try things on *)

Definition no_jobs : jobs job := mkJobs ∅ NULL NULL.
Definition jobfile (d : bytes) : ofile := mkFile d 0 true true 1000.
Definition daemon (next : Z) (q : jobs job) (addr : Z) (fs : gmap bytes bytes) (i : list rd) : env :=
  mkEnv next (jobfile (fmt_ld next)) q addr (mkWorkers ∅ NULL) false (str "lp.example.com") [] fs [] i [] [] [] 0 [].
Definition strerr0 (e : Z) : bytes := str "error".
Definition resolve0 (host : bytes) : Z * option bytes := (0, Some host).

Lemma no_jobs_rep : jobs_rep no_jobs [].
Proof. by repeat split; try constructor. Qed.

(** ** The job queue *)

(** C4: The doubly linked job list is a queue.  A run of list operations made
    of add_job at fresh addresses (client threads, start-up), remove_job of the
    head (the printer thread picks up a job), freeing the job in hand and
    replace_job of it, that is legal for the abstract queue (a list of pending
    jobs and a job in hand), never dereferences an invalid pointer, and the list
    in memory then represents the abstract queue: jobs leave in the order they
    were added, except that a deferred job is next again. *)
Theorem job_queue_refines (sts : list (qstep job)) (a : aqueue) :
  qfreshs sts (no_jobs, NULL) -> qspecs sts ([], None) = Some a ->
  exists c, qexecs sts (no_jobs, NULL) = Some c /\ qsim c a.
Proof. apply qsteps_sim. split; [apply no_jobs_rep|done]. Qed.

Definition job1 : job := (1, mkReq 10 0 [] []).
Definition job2 : job := (2, mkReq 20 1 [] []).

Lemma job_queue_refines_witness : exists c,
  qexecs [QAdd 8 job1; QAdd 9 job2; QTake; QDefer; QTake; QDone] (no_jobs, NULL) = Some c /\ qsim c ([(9, job2)], None).
Proof.
  apply (job_queue_refines [QAdd 8 job1; QAdd 9 job2; QTake; QDefer; QTake; QDone]); [|reflexivity].
  split; [by split|]. intros c1 E1. injection E1 as <-. split; [by split|]. intros c2 E2.
  vm_compute in E2. injection E2 as <-. repeat (split; [exact I|]; intros ? ?). exact I.
Defined.

(** ** Client threads *)

(** A client thread that receives a complete request (the structure of
    struct printreq in network byte order and the document, cut up by the network
    in any way, ended by end of file, a timeout or an error) and whose file
    operations succeed: it stores the document and the request, in host byte
    order, under the next job number, acknowledges the job number in network
    order, appends the job to the queue, takes itself off the worker list and
    closes its socket.  The flags are the client's, with PR_TEXT possibly added. *)
Lemma client_request_accepted strerror junk fuel tid sockfd size flags user jobnm doc chunks rest l e :
  let wire := mkReq (htonl size) (htonl flags) user jobnm in
  let id := nextjob e in
  0 <= size < 2 ^ 32 -> 0 <= flags < 2 ^ 32 -> length user = 64%nat -> length jobnm = 256%nat ->
  inp e = map RData chunks ++ rest -> Forall nonempty chunks -> at_end rest ->
  concat chunks = enc_req wire ++ doc -> faults e = [] -> (length doc < fuel)%nat ->
  jobs_rep (jobq e) l -> heap_below e -> wrk e = mkWorkers ∅ NULL ->
  exists e' flags', client_thread strerror junk fuel tid sockfd e = PRet tt e' /\
    (flags' = flags \/ flags' = Z.lor flags PR_TEXT) /\
    let req := mkReq size flags' user jobnm in
    files e' = <[req_name (fmt_ld id) := enc_req req]> (<[data_name id := doc]> (files e)) /\
    resps e' = mkResp 0 (Some (htonl id)) (str "request ID " ++ fmt_ld id) :: resps e /\
    jobs_rep (jobq e') (l ++ [(brk e + 1, (id, req))]) /\
    wrk e' = mkWorkers ∅ NULL /\ exists cl, closed e' = sockfd :: cl.
Proof. exact (client_thread_spec strerror junk fuel tid sockfd size flags user jobnm doc chunks rest l e). Qed.

Definition user0 : bytes := char_array 64 (str "sar") [].
Definition jobnm0 : bytes := char_array 256 (str "notes.txt") [].
Definition wire0 : printreq := mkReq (htonl 5) (htonl 0) user0 jobnm0.
Definition arrival0 : list bytes := [take 100 (enc_req wire0); drop 100 (enc_req wire0) ++ str "he"; str "llo"].
Definition daemon0 : env := daemon 41 no_jobs 8 ∅ (map RData arrival0).

Lemma client_request_accepted_witness : exists e' flags', client_thread strerr0 [] 10 700 5 daemon0 = PRet tt e' /\
  (flags' = 0 \/ flags' = Z.lor 0 PR_TEXT) /\
  let req := mkReq 5 flags' user0 jobnm0 in
  files e' = <[req_name (fmt_ld 41) := enc_req req]> (<[data_name 41 := str "hello"]> ∅) /\
  resps e' = [mkResp 0 (Some (htonl 41)) (str "request ID " ++ fmt_ld 41)] /\
  jobs_rep (jobq e') [(9, (41, req))] /\ wrk e' = mkWorkers ∅ NULL /\ exists cl, closed e' = 5 :: cl.
Proof.
  apply (client_request_accepted strerr0 [] 10 700 5 5 0 user0 jobnm0 (str "hello") arrival0 [] [] daemon0);
    try done; try reflexivity; try lia.
  - repeat constructor; vm_compute; congruence.
  - simpl length. lia.
  - apply no_jobs_rep.
Defined.

(** A client that sends fewer bytes than a request structure gets an error
    response and its thread ends: nothing is stored, nothing is queued and no job
    number is used up. *)
Lemma short_request_rejected strerror junk fuel chunks rest e :
  inp e = map RData chunks ++ rest -> Forall nonempty chunks -> at_end rest ->
  Z.of_nat (length (concat chunks)) < SIZEOF_REQ ->
  exists e' err, client_body strerror junk fuel e = PThreadExit e' /\
    files e' = files e /\ jobq e' = jobq e /\ nextjob e' = nextjob e /\
    resps e' = mkResp (htonl err) (Some 0) (take (Z.to_nat MSGLEN_MAX) (strerror (htonl err))) :: resps e.
Proof.
  intros Hi Hc Hr Hk. destruct (client_short strerror junk fuel chunks rest e Hi Hc Hr Hk) as (e' & err & E & H1 & H2 & H3 & _ & H4).
  eauto 10.
Qed.

Lemma short_request_rejected_witness :
  let e := daemon 41 no_jobs 8 ∅ [RData (str "GET /"); RTimeout] in
  exists e' err, client_body strerr0 [] 10 e = PThreadExit e' /\
    files e' = ∅ /\ jobq e' = no_jobs /\ nextjob e' = 41 /\
    resps e' = [mkResp (htonl err) (Some 0) (take (Z.to_nat MSGLEN_MAX) (strerr0 (htonl err)))].
Proof.
  apply (short_request_rejected strerr0 [] 10 [str "GET /"] [RTimeout]); try done; try reflexivity.
  repeat constructor. vm_compute. congruence.
Defined.

(** Treadn reads exactly the bytes asked for, in order, however they were
    cut up on their way, and leaves the rest on the socket. *)
Lemma treadn_exact nbytes chunks rest e :
  inp e = map RData chunks ++ rest -> Forall nonempty chunks -> 0 <= nbytes <= Z.of_nat (length (concat chunks)) ->
  exists chunks', treadn nbytes e = PRet (nbytes, take (Z.to_nat nbytes) (concat chunks)) (set_inp (map RData chunks' ++ rest) e) /\
    concat chunks' = drop (Z.to_nat nbytes) (concat chunks).
Proof.
  intros Hi Hc Hn. destruct (treadn_loop_spec (Z.to_nat nbytes) nbytes [] chunks rest e) as (ch & E & Hd & _); try done.
  { simpl length at 1 2. lia. } { simpl length. lia. }
  simpl length in E, Hd. rewrite Z.sub_0_r in E, Hd. exists ch. split; [exact E|exact Hd].
Qed.

Lemma treadn_exact_witness :
  let e := daemon 1 no_jobs 8 ∅ [RData [1; 2]; RData [3; 4]] in
  exists chunks', treadn 3 e = PRet (3, [1; 2; 3]) (set_inp (map RData chunks' ++ []) e) /\ concat chunks' = [4].
Proof. apply (treadn_exact 3 [[1; 2]; [3; 4]] []); [reflexivity| |simpl; lia]. repeat constructor; done. Defined.

(** ** From the client to the daemon *)

(** C5: From the print command to the queue.  With a print server in the
    configuration file, some address of which accepts the connection (the ones
    before it may refuse), a regular file of less than 2^32 bytes whose name does
    not begin with a dash, a user name that fits USERNM_MAX, and a socket and a file
    that transfer their data in whatever nonempty pieces, without errors, print.c
    sends the request and the document and reports the job number the daemon
    answers with.  The daemon, when it has no other client thread at work and its
    file system calls succeed, however the network cuts up what was sent, stores
    exactly the document and queues the job under that number, with the size, the
    user's name and the name of the job, and answers with that number.  The job is
    named after argv[1]: the file, or, when -t was given, the option. *)
Theorem print_end_to_end strerror junk fuel tid sockfd fs config host addrs n i pwd j1 j2 (text : bool) (fname doc : bytes)
    rchunks rjunk l e s :
  let argv := if text then [str "-t"; fname] else [fname] in
  let name := if text then str "-t" else fname in
  let user := default (str "unknown") pwd in
  let id := nextjob e in
  head fname <> Some 45 -> fs fname = Regular doc -> zlen doc < 2 ^ 32 ->
  get_printserver config = Some host -> addrs host = Some n -> (i < n)%nat -> c_conns s !! i <> Some false ->
  zlen user < USERNM_MAX -> Forall (fun c => c <> 0) user -> Forall (fun c => c <> 0) fname ->
  Forall partial (c_rfaults s) -> Forall partial (c_wfaults s) -> c_sent s = [] ->
  c_recv s = map inl rchunks -> Forall nonempty rchunks ->
  concat rchunks = enc_resp 0 (htonl id) (str "request ID " ++ fmt_ld id) rjunk ->
  exists s', print_main fs config addrs pwd j1 j2 argv s = KExit 0 s' /\
    c_shown s' = JobId (wrap_u 32 id) :: c_shown s /\
    forall chunks rest,
      concat chunks = c_sent s' -> Forall nonempty chunks -> at_end rest -> inp e = map RData chunks ++ rest ->
      faults e = [] -> (length doc < fuel)%nat -> jobs_rep (jobq e) l -> heap_below e -> wrk e = mkWorkers ∅ NULL ->
      exists e' req, client_thread strerror junk fuel tid sockfd e = PRet tt e' /\
        rq_size req = zlen doc /\ cstring (rq_usernm req) = user /\ cstring (rq_jobnm req) = job_name name /\
        (text = true -> rq_flags req = PR_TEXT) /\
        files e' = <[req_name (fmt_ld id) := enc_req req]> (<[data_name id := doc]> (files e)) /\
        jobs_rep (jobq e') (l ++ [(brk e + 1, (id, req))]) /\
        resps e' = mkResp 0 (Some (htonl id)) (str "request ID " ++ fmt_ld id) :: resps e.
Proof.
  intros argv name user id Hdash Hfile Hdoc Hserver Haddr Hi Hconn Hul Hun Hfn Hrf Hwf Hsent Hrecv Hne Hresp.
  assert (Hname : Forall (fun c => c <> 0) name) by (unfold name; destruct text; [by repeat constructor|done]).
  destruct (job_name_ok name Hname) as [Hj1 Hj2].
  set (r := mkReq (htonl (zlen doc)) (if text then htonl PR_TEXT else 0) (char_array USERNM_MAX user j1)
              (char_array JOBNM_MAX (job_name name) j2)).
  assert (Er : submit_req user name (zlen doc) text j1 j2 = Some r).
  { unfold submit_req. destruct (Z.leb_spec USERNM_MAX (zlen user)); [lia|done]. }
  destruct (print_main_submits fs config addrs pwd j1 j2 text fname doc host n i s) as (cs & Em); [done..|].
  unfold argv. rewrite Em. fold name.
  destruct (submit_file_accepted pwd name text j1 j2 r id (str "request ID " ++ fmt_ld id) rjunk rchunks
    (set_conns cs (set_file doc s))) as (s' & Es & Hs & Hsh); try done.
  exists s'. split; [exact Es|]. split; [exact Hsh|]. intros chunks rest Hc Hcne Hend Hinp Hf Hfuel Hq Hb Hw.
  rewrite Hs in Hc. cbn [c_sent c_file set_conns set_file] in Hc. rewrite Hsent in Hc. simpl app in Hc.
  destruct (client_thread_spec strerror junk fuel tid sockfd (zlen doc) (if text then PR_TEXT else 0)
    (char_array USERNM_MAX user j1) (char_array JOBNM_MAX (job_name name) j2) doc chunks rest l e)
    as (e' & flags' & E & Hfl & Hfiles & Hresps & Hjobs & _); try done.
  - lia.
  - by destruct text.
  - by rewrite length_char_array.
  - by rewrite length_char_array.
  - rewrite Hc. unfold r. by destruct text.
  - exists e', (mkReq (zlen doc) flags' (char_array USERNM_MAX user j1) (char_array JOBNM_MAX (job_name name) j2)).
    split; [exact E|]. cbn [rq_size rq_usernm rq_jobnm rq_flags].
    split_and!; [done|by apply cstring_char_array|by apply cstring_char_array| |exact Hfiles|exact Hjobs|exact Hresps].
    intros ->. destruct Hfl as [-> | ->]; reflexivity.
Qed.

Definition client0 (resp : bytes) : cst := mkCst [] [FShort 3; FOk] [FShort 100; FOk; FShort 1] [] [inl (take 7 resp); inl (drop 7 resp)] [false; true] [].
Definition config0 : list bytes := [str "printer lp1"; str "printserver spool"].

Definition wire1 : bytes :=
  enc_req (mkReq (htonl 5) (htonl PR_TEXT) (char_array 64 (str "sar") []) (char_array 256 (str "-t") [])) ++ str "hello".
Definition fs0 (p : bytes) : found := if bool_decide (p = str "a") then Regular (str "hello") else NoFile.

Lemma client0_sends :
  let resp := enc_resp 0 (htonl 41) (str "request ID 41") [] in
  match print_main fs0 config0 (fun _ => Some 3%nat) (Some (str "sar")) [] [] [str "-t"; str "a"] (client0 resp) with
  | KExit _ s => c_sent s = wire1
  | _ => False
  end.
Proof. vm_compute. reflexivity. Qed.

Lemma print_end_to_end_witness :
  let resp := enc_resp 0 (htonl 41) (str "request ID 41") [] in
  let e := daemon 41 no_jobs 8 ∅ [RData (take 9 wire1); RData (drop 9 wire1); RTimeout] in
  exists s', print_main fs0 config0 (fun _ => Some 3%nat) (Some (str "sar")) [] [] [str "-t"; str "a"] (client0 resp) = KExit 0 s' /\
    c_shown s' = [JobId 41] /\
    exists e' req, client_thread strerr0 [] 10 700 5 e = PRet tt e' /\ cstring (rq_jobnm req) = str "-t" /\
      jobs_rep (jobq e') [(9, (41, req))].
Proof.
  intros resp e.
  destruct (print_end_to_end strerr0 [] 10 700 5 fs0 config0 (str "spool") (fun _ => Some 3%nat) 3 1 (Some (str "sar")) [] []
    true (str "a") (str "hello") [take 7 resp; drop 7 resp] [] [] e (client0 resp)) as (s' & E & Hsh & Hd);
    try done; try reflexivity; try (repeat constructor; vm_compute; congruence); try (repeat constructor; lia); try lia.
  pose proof client0_sends as Hw. cbv zeta in Hw. fold resp in Hw. rewrite E in Hw. exists s'. split; [exact E|]. split; [exact Hsh|].
  destruct (Hd [take 9 wire1; drop 9 wire1] [RTimeout]) as (e' & req & He & _ & _ & Hn & _ & _ & Hj & _);
    [rewrite Hw; vm_compute; reflexivity|repeat constructor; vm_compute; congruence|done|reflexivity|reflexivity
    |simpl; lia|apply no_jobs_rep|done|reflexivity|].
  exists e', req. split; [exact He|]. split; [exact Hn|]. exact Hj.
Defined.

(** ** Restart *)

(** The spool directory survives a restart: when the request directory
    holds well-formed request files named by their job numbers, build_qonstart
    appends exactly these jobs, in directory order, and leaves the files alone. *)
Lemma restart_rebuilds_queue (js : list job) l e :
  Forall (fun j : job => 0 < j.1 <= LONG_MAX /\ req_wf j.2 /\ files e !! req_name (fmt_ld j.1) = Some (enc_req j.2)) js ->
  faults e = [] -> jobs_rep (jobq e) l -> heap_below e ->
  exists e', build_qonstart (Some (str "." :: str ".." :: map (fun j : job => fmt_ld j.1) js)) e = PRet tt e' /\
    jobs_rep (jobq e') (l ++ at_addrs (brk e) js) /\ files e' = files e.
Proof.
  intros Hjs Hf Hr Hb. destruct (pwp_run _ _ _ (build_loop_spec js l e Hjs Hf Hr Hb)) as ([] & e' & E & H). exists e'.
  split; [exact E|exact H].
Qed.

Definition spooled : list job := [(7, mkReq 3 1 user0 jobnm0); (3, mkReq 5 0 user0 jobnm0)].
Definition spool0 : gmap bytes bytes :=
  list_to_map (map (fun j : job => (req_name (fmt_ld j.1), enc_req j.2)) spooled).

Lemma restart_rebuilds_queue_witness :
  exists e', build_qonstart (Some [str "."; str ".."; str "7"; str "3"]) (daemon 9 no_jobs 8 spool0 []) = PRet tt e' /\
    jobs_rep (jobq e') (at_addrs 8 spooled) /\ files e' = spool0.
Proof.
  apply (restart_rebuilds_queue spooled [] (daemon 9 no_jobs 8 spool0 [])); [|reflexivity|apply no_jobs_rep|by split].
  apply Forall_cons; split; [|apply Forall_cons; split; [|apply Forall_nil; exact I]];
    (split; [unfold LONG_MAX; simpl; lia|]; split; [split; simpl; lia || reflexivity|vm_compute; reflexivity]).
Defined.

(** ** Job numbers *)

(** The job number survives a restart: what update_jobno writes over a
    number that is not longer, init_request reads back, although it reads it over
    the file name in its buffer. *)
Lemma jobno_survives e d :
  let n := nextjob e in
  0 < n <= LONG_MAX -> jobfd e = jobfile d -> (length d <= length (fmt_ld n))%nat ->
  exists e', update_jobno e = PRet tt e' /\
    init_request false (set_nextjob 0 (set_jobfd (f_seek 0 (jobfd e')) e')) =
      PRet tt (set_nextjob n (set_jobfd (f_seek (Z.of_nat (length (fmt_ld n))) (jobfd e')) e')).
Proof.
  intros n Hn Hfd Hd. assert (Hl : (length (fmt_ld n) <= 19)%nat).
  { rewrite fmt_ld_pos by lia. apply dec_u_length; [lia|]. unfold LONG_MAX in Hn. lia. }
  destruct (pwp_run update_jobno (fun _ e' => exists f, e' = set_jobfd f e /\ f_rd f = true /\ f_data f = fmt_ld n) e)
    as ([] & e' & E & f & -> & Hrd & Hdata).
  { apply pwp_update_jobno; [by rewrite Hfd|unfold n in Hn; lia|fold n; rewrite Hfd; simpl; lia|].
    intros f Hdata Hrd. exists f. split; [done|]. rewrite Hfd in *. split; [exact Hrd|].
    rewrite Hdata. fold n. rewrite splice_start, drop_ge, app_nil_r by done. done. }
  exists (set_jobfd f e). split; [exact E|]. cbn [jobfd set_jobfd set_nextjob]. unfold init_request, mbind, P_bind, get.
  cbn [jobfd set_jobfd set_nextjob]. unfold sys_read. cbn [f_rd f_seek f_data f_pos]. rewrite Hrd, Hdata.
  unfold slice. rewrite drop_0, take_ge by (unfold FILENMSZ; lia).
  assert (Hpos : 0 < Z.of_nat (length (fmt_ld n))).
  { rewrite fmt_ld_pos by lia. pose proof (dec_u_nonempty n). destruct (dec_u n); [done|simpl; lia]. }
  unfold modify. cbn beta iota. destruct (Z.ltb_spec (Z.of_nat (length (fmt_ld n))) 0); [lia|].
  destruct (Z.eqb_spec (Z.of_nat (length (fmt_ld n))) 0); [lia|]. rewrite fmt_ld_pos by lia. rewrite atol_over_name by done.
  by destruct e.
Qed.

Lemma jobno_survives_witness :
  let e := set_jobfd (jobfile (str "99")) (daemon 100 no_jobs 8 ∅ []) in
  exists e', update_jobno e = PRet tt e' /\
    init_request false (set_nextjob 0 (set_jobfd (f_seek 0 (jobfd e')) e')) =
      PRet tt (set_nextjob 100 (set_jobfd (f_seek 3 (jobfd e')) e')).
Proof. apply (jobno_survives (set_jobfd (jobfile (str "99")) (daemon 100 no_jobs 8 ∅ [])) (str "99")); [done|reflexivity|simpl; lia]. Defined.

(** [k] calls of get_newjobno. *)
Fixpoint newjobnos (k : nat) : P (list Z) :=
  match k with O => mret [] | S k' => id ← get_newjobno; ids ← newjobnos k'; mret (id :: ids) end.

(** Job numbers are handed out one after the other: [k] + 1 calls return
    consecutive positive numbers, so no two of these jobs share one, and behind the
    largest long the numbers start again at 1. *)
Lemma newjobnos_consecutive k e :
  let last := nextjob e + Z.of_nat k in
  0 < nextjob e -> last <= LONG_MAX ->
  exists e', newjobnos (S k) e = PRet (seqZ (nextjob e) (Z.of_nat (S k))) e' /\
    nextjob e' = (if last =? LONG_MAX then 1 else last + 1).
Proof.
  cbn zeta. unfold LONG_MAX. revert e. induction k as [|k IH]; intros e H0 Hk; cbn [newjobnos];
    unfold mbind, P_bind, get_newjobno, mbind, P_bind, get, modify; cbn beta iota.
  - eexists. split; [unfold mret, P_ret; f_equal; rewrite (seqZ_cons (nextjob e)) by lia; reflexivity|].
    cbn [nextjob set_nextjob]. rewrite Z.add_0_r. destruct (Z.eqb_spec (nextjob e) (2 ^ 63 - 1)) as [->|]; [done|].
    rewrite wrap_s64_small by lia. destruct (Z.leb_spec (nextjob e + 1) 0); lia.
  - rewrite wrap_s64_small by lia. destruct (Z.leb_spec (nextjob e + 1) 0); [lia|].
    destruct (IH (set_nextjob (nextjob e + 1) e)) as (e' & E & Hn); [simpl; lia|cbn [nextjob set_nextjob]; lia|].
    cbn [newjobnos] in E. unfold mbind, P_bind, get_newjobno, mbind, P_bind, get, modify, mret, P_ret in E.
    unfold mret, P_ret. cbn beta iota in E |- *.
    destruct (newjobnos k _) as [ids e2| | | | |]; try discriminate. injection E as E <-. eexists. split.
    + cbn [nextjob set_nextjob] in E |- *. rewrite E. rewrite (seqZ_cons (nextjob e)) by lia. do 2 f_equal. f_equal; lia.
    + rewrite Hn. cbn [nextjob set_nextjob].
      replace (nextjob e + 1 + Z.of_nat k) with (nextjob e + Z.of_nat (S k)) by lia. done.
Qed.

Lemma newjobnos_consecutive_witness :
  let e := daemon (LONG_MAX - 1) no_jobs 8 ∅ [] in
  exists e', newjobnos 2 e = PRet (seqZ (LONG_MAX - 1) 2) e' /\ nextjob e' = 1.
Proof. apply (newjobnos_consecutive 1 (daemon (LONG_MAX - 1) no_jobs 8 ∅ [])); vm_compute; congruence. Defined.

(** The job file is not truncated: when the number wraps from the largest
    long to 1 and is written, a restarted daemon reads the new digit followed by
    the old number's other digits. *)
Lemma jobno_wrap_stale : exists e1 e2 e3,
  let e := daemon LONG_MAX no_jobs 8 ∅ [] in
  get_newjobno e = PRet LONG_MAX e1 /\ nextjob e1 = 1 /\ update_jobno e1 = PRet tt e2 /\
  init_request false (set_jobfd (f_seek 0 (jobfd e2)) e2) = PRet tt e3 /\ nextjob e3 = 1223372036854775807.
Proof. eexists _, _, _. split; [vm_compute; reflexivity|]. split; [reflexivity|]. repeat split; vm_compute; reflexivity. Qed.

(** ** To the printer *)

(** What [printer_thread] sends is a well-formed print request: a reader of
    HTTP and IPP finds the request line, a body of exactly Content-Length bytes,
    version 1.1, the print operation with the job's number, the six attributes of
    the job with their tags, names and values, and behind them the document. *)
Lemma message_parses pname jobid req doc :
  let ihdr := ipp_header pname jobid req in
  no_cr pname -> zlen pname < 60000 -> zlen (rq_usernm req) <= 64 -> zlen (rq_jobnm req) <= 256 -> zlen doc <= 2 ^ 62 ->
  read_message (http_header pname (zlen doc) (zlen ihdr) ++ ihdr ++ doc) =
  Some (mkMessage (str "POST /" ++ pname ++ str "/ipp HTTP/1.1") (str "application/ipp") OP_PRINT_JOB
          (wrap_u 32 jobid) (job_attrs pname req) doc).
Proof. exact (read_message_spec pname jobid req doc). Qed.

Lemma message_parses_witness :
  let req := mkReq 5 1 user0 jobnm0 in
  let ihdr := ipp_header (str "lp") 258 req in
  read_message (http_header (str "lp") 5 (zlen ihdr) ++ ihdr ++ str "hello") =
  Some (mkMessage (str "POST /lp/ipp HTTP/1.1") (str "application/ipp") OP_PRINT_JOB 258 (job_attrs (str "lp") req) (str "hello")).
Proof.
  intros req ihdr. apply (message_parses (str "lp") 258 req (str "hello")); [repeat constructor; done| | | |]; vm_compute; congruence.
Defined.

(** C6: A turn of the printer thread in which no call fails, with a printer whose
    whole response, with a successful HTTP status, a Content-Length no greater than
    the body and an IPP header in the body, arrives in one read of at most IOBUFSZ
    bytes (a response cut up on its way is not put together again by readmore).
    The job file can be written, the configuration is not to be read again, and the
    names of the job at the head of the queue fit the header buffers.  The job is
    sent: exactly the HTTP header with the right Content-Length, the IPP header and
    the document are written.  The answer is read from the response wherever its
    headers put the parts.  If it is about this job and successful, the job is done and its
    two spool files are removed; if not, the job is at the head of the queue again
    and its files are untouched. *)
Theorem printer_turn_correct getaddrinfo junk fuel jp id req l doc r rest e :
  jobs_rep (jobq e) ((jp, (id, req)) :: l) ->
  f_wr (jobfd e) = true -> 0 < nextjob e -> zlen (fmt_ld (nextjob e)) <= f_lim (jobfd e) -> reread e = false ->
  faults e = [] -> files e !! data_name id = Some doc -> header_safe (printer_name e) req ->
  zlen doc < 10 ^ 18 -> (length doc < fuel)%nat ->
  inp e = RData (response_bytes r) :: rest -> response_wf r -> HTTP_SUCCESS (atoi (rs_code r)) = true ->
  (length (rs_mid r) + 1 < fuel)%nat ->
  exists e', printer_turn getaddrinfo junk fuel e = PRet tt e' /\
    let ihdr := ipp_header (printer_name e) id req in
    outp e' = outp e ++ http_header (printer_name e) (zlen doc) (zlen ihdr) ++ ihdr ++ doc /\
    if verdict r id =? 1
    then jobs_rep (jobq e') l /\ files e' = delete (req_name (fmt_ld id)) (delete (data_name id) (files e))
    else jobs_rep (jobq e') ((jp, (id, req)) :: l) /\ files e' = files e.
Proof.
  intros Hr Hw Hn Hlim Hre Hf Hdoc Hsafe Hd Hfu Hinp W Hok Hfm.
  destruct (pwp_run _ _ _ (turn_spec getaddrinfo junk fuel jp id req l doc r rest e Hr Hw Hn Hlim Hre Hf Hdoc Hsafe Hd Hfu Hinp W Hok Hfm))
    as ([] & e' & E & H1 & _ & H2).
  exists e'. split; [exact E|]. split; [exact H1|exact H2].
Qed.

(** An answer of a printer to job 7. *)
Definition answer7 : response :=
  mkResponse (str "HTTP/1.1") (str " ") (str "200") 32 (str "OK") 13
    ([10] ++ str "Content-Type: application/ipp" ++ CRLF) (str "Content-Length:") (str " ") (str "9") 13
    [] ([1; 1; 0; 0; 0; 0; 0; 7; 3]).
Definition req7 : printreq := mkReq 5 1 user0 jobnm0.
Definition queue7 : jobs job := mkJobs {[8 := mkNode NULL NULL (7, req7)]} 8 8.
Definition daemon7 : env := daemon 9 queue7 10 {[data_name 7 := str "hello"; req_name (fmt_ld 7) := enc_req req7]} [RData (response_bytes answer7)].

(** No header begins in a concrete list: one position after the other. *)
Ltac each_split :=
  let m1 := fresh "m" in let m2 := fresh "m" in let E := fresh "E" in let Hne := fresh "Hne" in
  intros m1 m2 E Hne;
  repeat (destruct m1 as [|? m1]; [simpl in E; subst m2; reflexivity|injection E as _ E]);
  destruct m1; [simpl in E; subst m2; exfalso; apply Hne; reflexivity|discriminate].

Lemma answer7_wf : response_wf answer7.
Proof.
  split; simpl; try done; try (repeat constructor; fail); try (vm_compute; congruence).
  - unfold no_header. each_split.
  - intros m1 m2 E Hne. destruct m1, m2; done.
Qed.

Lemma queue7_rep : jobs_rep queue7 [(8, (7, req7))].
Proof. split; [|done|done|apply NoDup_singleton]. split; [done|]. split; [apply lookup_singleton_eq|done]. Qed.

Lemma printer_turn_correct_witness : exists e', printer_turn resolve0 [] 50 daemon7 = PRet tt e' /\
  (let ihdr := ipp_header (str "lp.example.com") 7 req7 in
   outp e' = http_header (str "lp.example.com") 5 (zlen ihdr) ++ ihdr ++ str "hello") /\
  jobs_rep (jobq e') [] /\ files e' = delete (req_name (fmt_ld 7)) (delete (data_name 7) (files daemon7)).
Proof.
  destruct (printer_turn_correct resolve0 [] 50 8 7 req7 [] (str "hello") answer7 [] daemon7) as (e' & E & H1 & H2);
    [apply queue7_rep|reflexivity|reflexivity|vm_compute; congruence|reflexivity|reflexivity|reflexivity|split; vm_compute; congruence
    |reflexivity|simpl; lia|reflexivity|apply answer7_wf|reflexivity|simpl; lia|].
  exists e'. split; [exact E|]. split; [exact H1|exact H2].
Defined.

(** C21: Whatever the system calls and the printer answer, a turn of the printer
    thread that comes to an end leaves the other jobs alone and does with the job it
    picked up what the case calls for.  When its data file cannot be opened or its
    size not be found, nothing is sent and the job is off the queue, its files still
    there.  When the whole request was sent (HTTP header, IPP header, document),
    [printer_status] judged the answer: if it did not accept the job, the job is at
    the head of the queue again with its spool files intact; if it did, the job is
    off the queue and exactly its two spool files are gone.  When a call failed, or
    transferred less than asked, before that, a prefix of the request was sent and
    the job is at the head of the queue again, its files intact: no other case
    removes a job or its files. *)
Theorem job_not_lost getaddrinfo junk fuel jp id req l e e' :
  jobs_rep (jobq e) ((jp, (id, req)) :: l) -> printer_turn getaddrinfo junk fuel e = PRet tt e' ->
  match data_opens id e with
  | None => jobs_rep (jobq e') l /\ files e' = files e /\ outp e' = outp e
  | Some doc =>
    let request := request_bytes (printer_name e') id req doc in
    (exists e1 st e2,
       outp e1 = outp e ++ request /\ inp e1 = inp e /\ printer_status junk fuel id e1 = PRet st e2 /\
       outp e' = outp e ++ request /\
       if st =? 0 then jobs_rep (jobq e') ((jp, (id, req)) :: l) /\ files e' = files e
       else jobs_rep (jobq e') l /\ files e' = delete (req_name (fmt_ld id)) (delete (data_name id) (files e))) \/
    (Exists (fun f => f <> FOk) (drop 2 (faults e)) /\
     (exists part rest, request = part ++ rest /\ outp e' = outp e ++ part) /\
     jobs_rep (jobq e') ((jp, (id, req)) :: l) /\ files e' = files e)
  end.
Proof.
  intros Hr E. pose proof (turn_fate getaddrinfo junk fuel jp id req l e tt e' Hr E) as H. unfold fate, cancelled in H.
  destruct (data_opens id e); [exact H|]. destruct H as [[H1 H2] H3]. done.
Qed.

Definition daemon7_down : env := set_faults [FOk; FOk; FOk; FErr 111] daemon7.
Definition after (e : env) : env := match printer_turn resolve0 [] 50 e with PRet _ e' => e' | _ => e end.

(** The three cases: no connection, no data file, and a printer that accepts. *)
Lemma job_not_lost_witness :
  (jobs_rep (jobq (after daemon7_down)) [(8, (7, req7))] /\ files (after daemon7_down) = files daemon7) /\
  (jobs_rep (jobq (after (set_faults [FErr 2] daemon7))) [] /\ files (after (set_faults [FErr 2] daemon7)) = files daemon7) /\
  exists e1 st e2, printer_status [] 50 7 e1 = PRet st e2 /\ outp e1 = request_bytes (printer_name daemon7) 7 req7 (str "hello").
Proof.
  split_and!.
  - destruct (job_not_lost resolve0 [] 50 8 7 req7 [] daemon7_down (after daemon7_down)) as [(e1 & st & e2 & _ & _ & _ & H & _)|(_ & _ & H & H')];
      [apply queue7_rep|vm_compute; reflexivity|vm_compute in H; discriminate|exact H].
  - destruct (job_not_lost resolve0 [] 50 8 7 req7 [] daemon7_down (after daemon7_down)) as [(e1 & st & e2 & _ & _ & _ & H & _)|(_ & _ & H & H')];
      [apply queue7_rep|vm_compute; reflexivity|vm_compute in H; discriminate|exact H'].
  - apply (job_not_lost resolve0 [] 50 8 7 req7 [] (set_faults [FErr 2] daemon7) (after (set_faults [FErr 2] daemon7)));
      [apply queue7_rep|vm_compute; reflexivity].
  - apply (job_not_lost resolve0 [] 50 8 7 req7 [] (set_faults [FErr 2] daemon7) (after (set_faults [FErr 2] daemon7)));
      [apply queue7_rep|vm_compute; reflexivity].
  - destruct (job_not_lost resolve0 [] 50 8 7 req7 [] daemon7 (after daemon7)) as [(e1 & st & e2 & H & _ & H' & _)|(H & _)];
      [apply queue7_rep|vm_compute; reflexivity| |by apply Exists_nil in H].
    exists e1, st, e2. split; [exact H'|]. rewrite H. vm_compute. reflexivity.
Defined.

(** When the printer cannot be reached (no socket, or no connection), the
    turn ends, nothing is sent, and the job is at the head of the queue again with
    the others behind it and its files untouched. *)
Lemma unreachable_printer_defers getaddrinfo junk fuel jp id req l doc err fs e :
  jobs_rep (jobq e) ((jp, (id, req)) :: l) ->
  f_wr (jobfd e) = true -> 0 < nextjob e -> zlen (fmt_ld (nextjob e)) <= f_lim (jobfd e) -> reread e = false ->
  files e !! data_name id = Some doc ->
  faults e = FOk :: FOk :: FErr err :: fs \/ faults e = FOk :: FOk :: FOk :: FErr err :: fs ->
  exists e', printer_turn getaddrinfo junk fuel e = PRet tt e' /\
    jobs_rep (jobq e') ((jp, (id, req)) :: l) /\ files e' = files e /\ outp e' = outp e.
Proof.
  intros Hr Hw Hn Hlim Hre Hdoc Hf.
  destruct (pwp_run _ _ _ (turn_deferred getaddrinfo junk fuel jp id req l doc err fs e Hr Hw Hn Hlim Hre Hdoc Hf)) as ([] & e' & E & H).
  exists e'. split; [exact E|exact H].
Qed.

Lemma unreachable_printer_defers_witness : exists e', printer_turn resolve0 [] 50 daemon7_down = PRet tt e' /\
  jobs_rep (jobq e') [(8, (7, req7))] /\ files e' = files daemon7_down /\ outp e' = [].
Proof.
  apply (unreachable_printer_defers resolve0 [] 50 8 7 req7 [] (str "hello") 111 [] daemon7_down);
    [apply queue7_rep|reflexivity|reflexivity|vm_compute; congruence|reflexivity|reflexivity|right; reflexivity].
Defined.

(** The header buffer of [printer_thread] has 512 bytes and what is put into
    it is not checked: a job whose names need more (with a printer that can be
    reached) makes the thread write past it. *)
Lemma long_names_overflow junk fuel jobid req doc e :
  IBUFSZ < ipp_size (printer_name e) (cstring (rq_usernm req)) (cstring (rq_jobnm req)) (negb (Z.land (rq_flags req) PR_TEXT =? 0)) ->
  faults e = [] ->
  submit_job junk fuel jobid req doc e = PUndef "request header past the end of its buffer" e.
Proof.
  intros Hl Hf. unfold submit_job, fails, mbind, P_bind, next_fault. rewrite Hf. unfold mret, P_ret, get. cbn beta iota. rewrite Hf.
  cbn beta iota. rewrite <- (ipp_header_length (printer_name e) jobid) in Hl.
  destruct (Z.ltb_spec IBUFSZ (zlen (ipp_header (printer_name e) jobid req))); [|lia]. rewrite orb_true_r. done.
Qed.

(** Names as long as the request structure and the host name buffer allow. *)
Definition long_req : printreq := mkReq 5 1 (char_array 64 (replicate 63 97) []) (char_array 256 (replicate 255 97) []).
Definition long_host : env := set_printer_name (replicate 52 97) daemon7.

Lemma long_names_overflow_witness :
  submit_job [] 50 7 long_req (str "hello") long_host = PUndef "request header past the end of its buffer" long_host.
Proof. apply (long_names_overflow [] 50 7 long_req (str "hello") long_host); [vm_compute|]; reflexivity. Defined.

(** ** Where the daemon goes wrong *)

(** Add_worker never moves the head of a worker list that is not empty.
    With two clients connected, kill_workers cancels only the first one; the second
    one's clean-up handler does not find its entry, so its socket stays open; and
    when the first one has cleaned up, the head points to freed memory, which
    kill_workers (and the next clean-up) then reads. *)
Lemma second_worker_lost a b t1 t2 s1 s2 :
  a <> NULL -> b <> NULL -> a <> b -> t1 <> t2 ->
  exists w1 w2 w3, add_worker a t1 s1 (mkWorkers ∅ NULL) = Some w1 /\ add_worker b t2 s2 w1 = Some w2 /\
    kill_workers w2 = Some [t1] /\ client_cleanup t2 w2 = Some (None, w2) /\
    client_cleanup t1 w2 = Some (Some s1, w3) /\ kill_workers w3 = None /\ client_cleanup t2 w3 = None.
Proof.
  intros Ha Hb Hab Ht. set (na := mkNode NULL b (t1, s1)). set (nb := mkNode a NULL (t2, s2)).
  set (w2 := mkWorkers (<[a := na]> (<[b := nb]> (<[a := mkNode NULL NULL (t1, s1)]> ∅))) a).
  assert (Hwa : wheap w2 !! a = Some na) by (simpl; by rewrite lookup_insert_eq).
  assert (Hwb : wheap w2 !! b = Some nb) by (simpl; by rewrite lookup_insert_ne, lookup_insert_eq).
  assert (Ea : (a =? NULL) = false) by (by apply Z.eqb_neq). assert (Eb : (b =? NULL) = false) by (by apply Z.eqb_neq).
  assert (Et : (t1 =? t2) = false) by (by apply Z.eqb_neq).
  assert (Hs : exists k, S (size (wheap w2)) = S (S k)).
  { destruct (size (wheap w2)) eqn:E; [|eauto]. apply map_size_empty_inv in E. rewrite E in Hwa. done. }
  destruct Hs as [k Hs].
  set (w1 := mkWorkers (<[a := mkNode NULL NULL (t1, s1)]> ∅) a).
  assert (Hadd : add_worker b t2 s2 w1 = Some w2).
  { unfold add_worker, w1. cbn [workers wheap]. rewrite Ea.
    unfold store_prev. rewrite lookup_insert_ne, lookup_insert_eq by done. done. }
  assert (Hww : workers w2 = a) by done. clearbody w2.
  exists w1, w2, (mkWorkers (delete a (<[b := set_next NULL nb]> (wheap w2))) a). split; [reflexivity|]. split; [exact Hadd|].
  split; [unfold kill_workers; rewrite Hs, Hww; cbn [kill_loop]; rewrite Ea, Hwa; simpl; by destruct k|].
  split; [unfold client_cleanup; rewrite Hs, Hww; cbn [find_worker]; rewrite Ea, Hwa; simpl; rewrite Et; by destruct k|].
  split.
  { unfold client_cleanup. rewrite Hs, Hww. cbn [find_worker]. rewrite Ea, Hwa. simpl. rewrite Z.eqb_refl. simpl. rewrite Ea, Hwa.
    simpl. rewrite Eb. unfold store_next. rewrite Hwb. done. }
  split; [unfold kill_workers|unfold client_cleanup]; cbn [workers wheap kill_loop find_worker]; rewrite Ea, lookup_delete_eq; done.
Qed.

Lemma second_worker_lost_witness : exists w1 w2 w3,
  add_worker 8 101 5 (mkWorkers ∅ NULL) = Some w1 /\ add_worker 9 102 6 w1 = Some w2 /\
  kill_workers w2 = Some [101] /\ client_cleanup 102 w2 = Some (None, w2) /\
  client_cleanup 101 w2 = Some (Some 5, w3) /\ kill_workers w3 = None /\ client_cleanup 102 w3 = None.
Proof. apply (second_worker_lost 8 9 101 102 5 6); vm_compute; congruence. Defined.

(** The search for the blank line behind the HTTP header does not end when
    the data read so far holds no blank line: the inner loop stops up to two bytes
    before the end of the data, and only at the end more data would be read.  A
    printer whose response arrives in two pieces hangs the printer thread. *)
Lemma split_header_hangs junk fuel pre mid post e :
  without_blank mid -> mid <> [] ->
  header_end junk fuel (pre ++ mid ++ post) (zlen pre) (zlen pre + zlen mid) e = PNoFuel.
Proof. apply header_end_diverges. Qed.

Lemma split_header_hangs_witness :
  header_end [] 1000 (str "HTTP/1.1 200 OK" ++ (CRLF ++ str "Server: lp" ++ CRLF) ++ replicate 8 0) 15 29 daemon0 = PNoFuel.
Proof.
  apply (split_header_hangs [] 1000 (str "HTTP/1.1 200 OK") (CRLF ++ str "Server: lp" ++ CRLF) (replicate 8 0) daemon0); [|done].
  intros m1 m2 E. repeat (destruct m1 as [|? m1]; [simpl in E; subst m2; vm_compute; congruence|injection E as _ E]).
  destruct m1; [simpl in E; subst m2; vm_compute; congruence|discriminate].
Defined.

(** The value of a keyword in the configuration file is the second word of
    the first line whose first word is the keyword, when every line fits the
    line buffer. *)
Lemma config_lookup sp1 kw sp2 v tail pre post :
  config_wf sp1 kw sp2 v tail ->
  Forall (fun l : bytes => (length l <= 511)%nat) (pre ++ post) ->
  Forall (fun l => match scan_line l with Some (k, _) => k <> kw | None => True end) pre ->
  scan_configfile kw (pre ++ config_line sp1 kw sp2 v tail :: post) = Some v.
Proof.
  intros W Hl Hp. apply Forall_app in Hl as [Hl1 Hl2]. unfold scan_configfile. rewrite fgets_short.
  - apply scan_lines_spec; [done|by apply scan_line_spec].
  - apply Forall_app. split; [done|]. constructor; [apply W|done].
Qed.

Lemma config_lookup_witness :
  scan_configfile (str "printer") [str "# printers"; str "printserver blade" ++ [10]; str "printer  phaser860 main" ++ [10]] = Some (str "phaser860").
Proof.
  apply (config_lookup [] (str "printer") (str "  ") (str "phaser860") (str " main" ++ [10])
    [str "# printers"; str "printserver blade" ++ [10]] []).
  - split; try (repeat constructor; fail); try done; simpl; lia.
  - repeat constructor; simpl; lia.
  - repeat constructor; vm_compute; congruence.
Defined.
