(* ===== verification/Calld.v ===== *)
(** * Calld: the dialer daemon of apue.2e/calld, definitions.

    client.c (the client array), lock.c (device locks), sysfile.c, devfile.c and
    dialfile.c (the configuration files), cliargs.c and lib/bufargs.c (the
    request of a client), request.c (choosing a line and starting the child),
    loop.c and sigchld.c (the server), childdial.c, ttydial.c, ttyopen.c,
    expectstr.c, sendstr.c and ctlstr.c (the child).

    A SIGCHLD is an operation of its own between two turns of the loop.  A forked
    child is a separate computation on a copy of the state. *)
From S2P Require Import Prelude Libc.
Local Open Scope Z_scope.

Definition MAXLINE : Z := 4096.
Definition MAXSYSNAME : Z := 256.
Definition MAXSPEEDSTR : Z := 256.
Definition NALLOC : nat := 10.
Definition MAXARGC : nat := 50.

Definition is_white (c : Z) : bool := (c =? 32) || (c =? 9) || (c =? 10).
Definition is_newline (c : Z) : bool := c =? 10.

Inductive parity_t := NONE | EVEN | ODD.

Record Client := mkClient {
  c_fd : Z; c_pid : Z; c_uid : Z; c_childdone : Z; c_sysftell : Z; c_foundone : Z;
  c_Debug : bool; c_parity : parity_t; c_speed : bytes; c_sysname : bytes
}.

Record Systems := mkSystems { s_name : bytes; s_time : bytes; s_type : bytes; s_class : bytes; s_phone : bytes; s_login : bytes }.
Record Devices := mkDevices { d_type : bytes; d_line : bytes; d_line2 : bytes; d_class : bytes; d_dialer : bytes }.
(** [dialer] is null before the first line and after an empty one. *)
Record Dialers := mkDialers { l_dialer : option bytes; l_sub : bytes; l_expsend : bytes }.

(** What a read from the line finds; the alarm goes off when the list is used
    up. *)
Inductive tin := TByte (c : Z) | TAlarm | TErr.

Inductive cev :=
  | ELog (m : string) (args : list Z)
  | EDebug (fd : Z) (m : string) (args : list bytes)
  | ESendErr (fd : Z) (msg : bytes)
  | ESend (fd : Z) (b : bytes)  (* writen to the client *)
  | ESendFd (fd tty : Z)
  | EClose (fd : Z)
  | EFork (pid : Z) (line : bytes)
  | ESleep (us : Z)
  | ETty (cflag baud : Z).  (* tcsetattr *)

Record cst := mkCst {
  client : list Client; maxi : Z;
  lock : list (bytes * Z); lock_size : Z;
  chld_flag : bool; Debug : bool; parity : parity_t; speed : option bytes; sysname : bytes; errmsg : bytes; clifd : Z;
  systems : Systems; devices : Devices; dialers : Dialers;
  fsys : option bytes; fdev : option bytes; fdial : option bytes;  (* contents of the files *)
  fpsys : option Z; fpdev : option Z; fpdial : option Z;  (* open, at an offset *)
  allset : list Z; maxfd : Z;
  forks : list Z;  (* what fork returns next *)
  caught_alrm : bool; ttyin : list tin; ttyout : bytes;
  evs : list cev  (* newest first *)
}.

Definition upd_client v s := mkCst v (maxi s) (lock s) (lock_size s) (chld_flag s) (Debug s) (parity s) (speed s) (sysname s) (errmsg s) (clifd s) (systems s) (devices s) (dialers s) (fsys s) (fdev s) (fdial s) (fpsys s) (fpdev s) (fpdial s) (allset s) (maxfd s) (forks s) (caught_alrm s) (ttyin s) (ttyout s) (evs s).
Definition upd_maxi v s := mkCst (client s) v (lock s) (lock_size s) (chld_flag s) (Debug s) (parity s) (speed s) (sysname s) (errmsg s) (clifd s) (systems s) (devices s) (dialers s) (fsys s) (fdev s) (fdial s) (fpsys s) (fpdev s) (fpdial s) (allset s) (maxfd s) (forks s) (caught_alrm s) (ttyin s) (ttyout s) (evs s).
Definition upd_lock v n s := mkCst (client s) (maxi s) v n (chld_flag s) (Debug s) (parity s) (speed s) (sysname s) (errmsg s) (clifd s) (systems s) (devices s) (dialers s) (fsys s) (fdev s) (fdial s) (fpsys s) (fpdev s) (fpdial s) (allset s) (maxfd s) (forks s) (caught_alrm s) (ttyin s) (ttyout s) (evs s).
Definition upd_chld_flag v s := mkCst (client s) (maxi s) (lock s) (lock_size s) v (Debug s) (parity s) (speed s) (sysname s) (errmsg s) (clifd s) (systems s) (devices s) (dialers s) (fsys s) (fdev s) (fdial s) (fpsys s) (fpdev s) (fpdial s) (allset s) (maxfd s) (forks s) (caught_alrm s) (ttyin s) (ttyout s) (evs s).
Definition upd_opts d p sp s := mkCst (client s) (maxi s) (lock s) (lock_size s) (chld_flag s) d p sp (sysname s) (errmsg s) (clifd s) (systems s) (devices s) (dialers s) (fsys s) (fdev s) (fdial s) (fpsys s) (fpdev s) (fpdial s) (allset s) (maxfd s) (forks s) (caught_alrm s) (ttyin s) (ttyout s) (evs s).
Definition upd_sysname v s := mkCst (client s) (maxi s) (lock s) (lock_size s) (chld_flag s) (Debug s) (parity s) (speed s) v (errmsg s) (clifd s) (systems s) (devices s) (dialers s) (fsys s) (fdev s) (fdial s) (fpsys s) (fpdev s) (fpdial s) (allset s) (maxfd s) (forks s) (caught_alrm s) (ttyin s) (ttyout s) (evs s).
Definition upd_errmsg v s := mkCst (client s) (maxi s) (lock s) (lock_size s) (chld_flag s) (Debug s) (parity s) (speed s) (sysname s) v (clifd s) (systems s) (devices s) (dialers s) (fsys s) (fdev s) (fdial s) (fpsys s) (fpdev s) (fpdial s) (allset s) (maxfd s) (forks s) (caught_alrm s) (ttyin s) (ttyout s) (evs s).
Definition upd_clifd v s := mkCst (client s) (maxi s) (lock s) (lock_size s) (chld_flag s) (Debug s) (parity s) (speed s) (sysname s) (errmsg s) v (systems s) (devices s) (dialers s) (fsys s) (fdev s) (fdial s) (fpsys s) (fpdev s) (fpdial s) (allset s) (maxfd s) (forks s) (caught_alrm s) (ttyin s) (ttyout s) (evs s).
Definition upd_systems v s := mkCst (client s) (maxi s) (lock s) (lock_size s) (chld_flag s) (Debug s) (parity s) (speed s) (sysname s) (errmsg s) (clifd s) v (devices s) (dialers s) (fsys s) (fdev s) (fdial s) (fpsys s) (fpdev s) (fpdial s) (allset s) (maxfd s) (forks s) (caught_alrm s) (ttyin s) (ttyout s) (evs s).
Definition upd_devices v s := mkCst (client s) (maxi s) (lock s) (lock_size s) (chld_flag s) (Debug s) (parity s) (speed s) (sysname s) (errmsg s) (clifd s) (systems s) v (dialers s) (fsys s) (fdev s) (fdial s) (fpsys s) (fpdev s) (fpdial s) (allset s) (maxfd s) (forks s) (caught_alrm s) (ttyin s) (ttyout s) (evs s).
Definition upd_dialers v s := mkCst (client s) (maxi s) (lock s) (lock_size s) (chld_flag s) (Debug s) (parity s) (speed s) (sysname s) (errmsg s) (clifd s) (systems s) (devices s) v (fsys s) (fdev s) (fdial s) (fpsys s) (fpdev s) (fpdial s) (allset s) (maxfd s) (forks s) (caught_alrm s) (ttyin s) (ttyout s) (evs s).
Definition upd_fpsys v s := mkCst (client s) (maxi s) (lock s) (lock_size s) (chld_flag s) (Debug s) (parity s) (speed s) (sysname s) (errmsg s) (clifd s) (systems s) (devices s) (dialers s) (fsys s) (fdev s) (fdial s) v (fpdev s) (fpdial s) (allset s) (maxfd s) (forks s) (caught_alrm s) (ttyin s) (ttyout s) (evs s).
Definition upd_fpdev v s := mkCst (client s) (maxi s) (lock s) (lock_size s) (chld_flag s) (Debug s) (parity s) (speed s) (sysname s) (errmsg s) (clifd s) (systems s) (devices s) (dialers s) (fsys s) (fdev s) (fdial s) (fpsys s) v (fpdial s) (allset s) (maxfd s) (forks s) (caught_alrm s) (ttyin s) (ttyout s) (evs s).
Definition upd_fpdial v s := mkCst (client s) (maxi s) (lock s) (lock_size s) (chld_flag s) (Debug s) (parity s) (speed s) (sysname s) (errmsg s) (clifd s) (systems s) (devices s) (dialers s) (fsys s) (fdev s) (fdial s) (fpsys s) (fpdev s) v (allset s) (maxfd s) (forks s) (caught_alrm s) (ttyin s) (ttyout s) (evs s).
Definition upd_allset v m s := mkCst (client s) (maxi s) (lock s) (lock_size s) (chld_flag s) (Debug s) (parity s) (speed s) (sysname s) (errmsg s) (clifd s) (systems s) (devices s) (dialers s) (fsys s) (fdev s) (fdial s) (fpsys s) (fpdev s) (fpdial s) v m (forks s) (caught_alrm s) (ttyin s) (ttyout s) (evs s).
Definition upd_forks v s := mkCst (client s) (maxi s) (lock s) (lock_size s) (chld_flag s) (Debug s) (parity s) (speed s) (sysname s) (errmsg s) (clifd s) (systems s) (devices s) (dialers s) (fsys s) (fdev s) (fdial s) (fpsys s) (fpdev s) (fpdial s) (allset s) (maxfd s) v (caught_alrm s) (ttyin s) (ttyout s) (evs s).
Definition upd_tty a i o s := mkCst (client s) (maxi s) (lock s) (lock_size s) (chld_flag s) (Debug s) (parity s) (speed s) (sysname s) (errmsg s) (clifd s) (systems s) (devices s) (dialers s) (fsys s) (fdev s) (fdial s) (fpsys s) (fpdev s) (fpdial s) (allset s) (maxfd s) (forks s) a i o (evs s).
Definition upd_evs v s := mkCst (client s) (maxi s) (lock s) (lock_size s) (chld_flag s) (Debug s) (parity s) (speed s) (sysname s) (errmsg s) (clifd s) (systems s) (devices s) (dialers s) (fsys s) (fdev s) (fdial s) (fpsys s) (fpdev s) (fpdial s) (allset s) (maxfd s) (forks s) (caught_alrm s) (ttyin s) (ttyout s) v.

(** ** The monad *)

Inductive cres (A : Type) :=
  | CRet (a : A) (s : cst)
  | CExit (code : Z) (s : cst)  (* exit, in the child *)
  | CQuit (s : cst)  (* log_quit, log_sys *)
  | CUndef (why : string) (s : cst)
  | CNoFuel.
Arguments CRet {A} a s.
Arguments CExit {A} code s.
Arguments CQuit {A} s.
Arguments CUndef {A} why s.
Arguments CNoFuel {A}.

Definition C (A : Type) : Type := cst -> cres A.

#[export] Instance C_ret : MRet C := fun A a s => CRet a s.
#[export] Instance C_bind : MBind C := fun A B k m s =>
  match m s with
  | CRet a s' => k a s'
  | CExit c s' => CExit c s'
  | CQuit s' => CQuit s'
  | CUndef w s' => CUndef w s'
  | CNoFuel => CNoFuel
  end.

Definition get : C cst := fun s => CRet s s.
Definition modify (f : cst -> cst) : C unit := fun s => CRet tt (f s).
Definition exit {A} (code : Z) : C A := fun s => CExit code s.
Definition undef {A} (why : string) : C A := fun s => CUndef why s.
Definition nofuel {A} : C A := fun _ => CNoFuel.
Definition emit (e : cev) : C unit := modify (fun s => upd_evs (e :: evs s) s).
Definition log_msg (m : string) (args : list Z) : C unit := emit (ELog m args).
Definition quit {A} : C A := fun s => CQuit s.
Definition log_quit {A} (m : string) (args : list Z) : C A := log_msg m args;; quit.
Definition log_sys {A} (m : string) (args : list Z) : C A := log_quit m args.

(** [DEBUG] and [DEBUG_NONL]: output to the client while Debug is set. *)
Definition DEBUG (m : string) (args : list bytes) : C unit :=
  s ← get; if Debug s then emit (EDebug (clifd s) (m +:+ "\n") args) else mret tt.
Definition DEBUG_NONL (m : string) (args : list bytes) : C unit :=
  s ← get; if Debug s then emit (EDebug (clifd s) m args) else mret tt.

(** sprintf into errmsg. *)
Definition set_errmsg (m : bytes) : C unit :=
  if MAXLINE <=? Z.of_nat (length m) then undef "write past the end of errmsg" else modify (upd_errmsg m).

(** ** Strings *)

(** [strtok]: the next token and what is behind the delimiter that ended it. *)
Fixpoint skip_delims (p : Z -> bool) (s : bytes) : bytes :=
  match s with c :: s' => if p c then skip_delims p s' else s | [] => [] end.
Fixpoint span_token (p : Z -> bool) (s : bytes) : bytes * bytes :=
  match s with
  | c :: s' => if p c then ([], s') else let '(t, r) := span_token p s' in (c :: t, r)
  | [] => ([], [])
  end.
Definition strtok (p : Z -> bool) (s : bytes) : option (bytes * bytes) :=
  match skip_delims p s with
  | [] => None
  | s' => Some (span_token p s')
  end.

(** All tokens of a string. *)
Fixpoint tokens (fuel : nat) (p : Z -> bool) (s : bytes) : list bytes :=
  match fuel with
  | O => []
  | S fuel' => match strtok p s with Some (t, r) => t :: tokens fuel' p r | None => [] end
  end.

(** [fgets] into a buffer of MAXLINE bytes. *)
Fixpoint line_of (n : nat) (s : bytes) : bytes :=
  match n, s with
  | S n', c :: s' => if is_newline c then [c] else c :: line_of n' s'
  | _, _ => []
  end.
Definition fgets (content : bytes) (pos : Z) : option (bytes * Z) :=
  match drop (Z.to_nat pos) content with
  | [] => None
  | s => let l := line_of (Z.to_nat (MAXLINE - 1)) s in Some (l, pos + Z.of_nat (length l))
  end.

(** ** The configuration files *)

(** What a line of a file holds. *)
Inductive parsed (R : Type) := PBlank | PMissing (what : string) | PComment (first : bytes) | PFields (r : R).
Arguments PBlank {R}.
Arguments PMissing {R} what.
Arguments PComment {R} first.
Arguments PFields {R} r.

(** The first token: an empty line, a comment, or the rest of the line. *)
Definition first_token {R} (line : bytes) (missing : string) (k : bytes -> bytes -> parsed R) : parsed R :=
  match strtok is_white line with
  | None => match line with 10 :: _ => PBlank | _ => PMissing missing end
  | Some (t, r) => match t with 35 :: _ => PComment t | _ => k t r end
  end.
Definition next_token {R} (p : Z -> bool) (r : bytes) (missing : string) (k : bytes -> bytes -> parsed R) : parsed R :=
  match strtok p r with None => PMissing missing | Some (t, r') => k t r' end.

Definition parse_systems (line : bytes) : parsed Systems :=
  first_token line "name" (fun name r =>
  next_token is_white r "time" (fun time r =>
  next_token is_white r "type" (fun type r =>
  next_token is_white r "class" (fun class r =>
  next_token is_white r "phone" (fun phone r =>
  next_token is_newline r "login" (fun login r => PFields (mkSystems name time type class phone login))))))).

Definition parse_devices (line : bytes) : parsed Devices :=
  first_token line "type" (fun type r =>
  next_token is_white r "line" (fun l r =>
  next_token is_white r "line2" (fun l2 r =>
  next_token is_white r "class" (fun class r =>
  next_token is_white r "dialer" (fun dialer r => PFields (mkDevices type l l2 class dialer)))))).

Definition parse_dialers (line : bytes) : parsed Dialers :=
  first_token line "dialer" (fun dialer r =>
  next_token is_white r "sub" (fun sub r =>
  next_token is_newline r "expsend" (fun expsend r => PFields (mkDialers (Some dialer) sub expsend)))).

(** [sys_next]: -1 at the end of the file, else the offset of the next line.
    The members of [systems] that a comment line leaves behind are not read. *)
Fixpoint sys_next_loop (fuel : nat) (content : bytes) (pos : Z) : C Z :=
  match fuel with
  | O => nofuel
  | S fuel' =>
    match fgets content pos with
    | None => modify (upd_fpsys (Some pos));; mret (-1)
    | Some (line, pos') =>
      match parse_systems (cstring line) with
      | PBlank | PComment _ => sys_next_loop fuel' content pos'
      | PMissing w => log_quit ("missing `" +:+ w +:+ "' in Systems file, line %d") []
      | PFields r => modify (upd_fpsys (Some pos'));; modify (upd_systems r);; mret pos'
      end
    end
  end.
Definition sys_next : C Z :=
  s ← get;
  match fpsys s, fsys s with
  | None, None => log_sys "can't open %s" []
  | fp, c => sys_next_loop (S (length (default [] c))) (default [] c) (default 0 fp)
  end.

Definition sys_rew : C unit := modify (fun s => upd_fpsys (match fpsys s with Some _ => Some 0 | None => None end) s).
Definition sys_posn (posn : Z) : C unit :=
  if posn =? 0 then sys_rew
  else
    s ← get;
    match fpsys s with
    | None => undef "fseek on a null stream"
    | Some _ => if posn <? 0 then log_sys "fseek error" [] else modify (upd_fpsys (Some posn))
    end.

(** [dev_next], [dev_rew], [dev_find]. *)
Fixpoint dev_next_loop (fuel : nat) (content : bytes) (pos : Z) : C Z :=
  match fuel with
  | O => nofuel
  | S fuel' =>
    match fgets content pos with
    | None => modify (upd_fpdev (Some pos));; mret (-1)
    | Some (line, pos') =>
      match parse_devices (cstring line) with
      | PBlank | PComment _ => dev_next_loop fuel' content pos'
      | PMissing w => log_quit ("missing `" +:+ w +:+ "' in Devices file, line %d") []
      | PFields r => modify (upd_fpdev (Some pos'));; modify (upd_devices r);; mret 0
      end
    end
  end.
Definition dev_next : C Z :=
  s ← get;
  match fpdev s, fdev s with
  | None, None => log_sys "can't open %s" []
  | fp, c => dev_next_loop (S (length (default [] c))) (default [] c) (default 0 fp)
  end.
Definition dev_rew : C unit := modify (fun s => upd_fpdev (match fpdev s with Some _ => Some 0 | None => None end) s).

Fixpoint dev_find_loop (fuel : nat) (sys : Systems) : C Z :=
  match fuel with
  | O => nofuel
  | S fuel' =>
    r ← dev_next;
    if r <? 0 then
      set_errmsg (str "device `" ++ s_type sys ++ str "'/`" ++ s_class sys ++ str "' not found" ++ [10]);; mret (-1)
    else
      s ← get;
      if bool_decide (s_type sys = d_type (devices s)) && bool_decide (s_class sys = d_class (devices s)) then mret 0
      else dev_find_loop fuel' sys
  end.
Definition dev_find (sys : Systems) : C Z :=
  dev_rew;; s ← get; dev_find_loop (S (length (default [] (fdev s)))) sys.

(** [dial_next], [dial_rew], [dial_find]. *)
Fixpoint dial_next_loop (fuel : nat) (content : bytes) (pos : Z) : C Z :=
  match fuel with
  | O => nofuel
  | S fuel' =>
    match fgets content pos with
    | None => modify (upd_fpdial (Some pos));; mret (-1)
    | Some (line, pos') =>
      let first d := modify (fun s => upd_dialers (mkDialers d (l_sub (dialers s)) (l_expsend (dialers s))) s) in
      match parse_dialers (cstring line) with
      | PBlank => first None;; dial_next_loop fuel' content pos'
      | PComment t => first (Some t);; dial_next_loop fuel' content pos'
      | PMissing w => log_quit ("missing `" +:+ w +:+ "' in Dialers file, line %d") []
      | PFields r => modify (upd_fpdial (Some pos'));; modify (upd_dialers r);; mret 0
      end
    end
  end.
Definition dial_next : C Z :=
  s ← get;
  match fpdial s, fdial s with
  | None, None => log_sys "can't open %s" []
  | fp, c => dial_next_loop (S (length (default [] c))) (default [] c) (default 0 fp)
  end.
Definition dial_rew : C unit := modify (fun s => upd_fpdial (match fpdial s with Some _ => Some 0 | None => None end) s).

(** The message names the last dialer read, not the one looked for. *)
Fixpoint dial_find_loop (fuel : nat) (dev : Devices) : C Z :=
  match fuel with
  | O => nofuel
  | S fuel' =>
    r ← dial_next;
    s ← get;
    if r <? 0 then
      match l_dialer (dialers s) with
      | None => undef "null pointer"
      | Some d => set_errmsg (str "dialer `" ++ d ++ str "' not found" ++ [10]);; mret (-1)
      end
    else if bool_decide (l_dialer (dialers s) = Some (d_dialer dev)) then mret 0
    else dial_find_loop fuel' dev
  end.
Definition dial_find (dev : Devices) : C Z :=
  dial_rew;; s ← get; dial_find_loop (S (length (default [] (fdial s)))) dev.

(** ** Device locks *)

(** [find_line]: the index of the entry, a new one at the end if need be. *)
Fixpoint line_index (line : bytes) (l : list (bytes * Z)) (i : nat) : option nat :=
  match l with
  | [] => None
  | (x, _) :: l' => if bool_decide (line = x) then Some i else line_index line l' (S i)
  end.
Definition find_line (line : bytes) : C nat :=
  s ← get;
  match line_index line (lock s) 0 with
  | Some i => mret i
  | None =>
    let size := if lock_size s <=? Z.of_nat (length (lock s)) then lock_size s + Z.of_nat NALLOC else lock_size s in
    modify (upd_lock (lock s ++ [(line, 0)]) size);;
    mret (length (lock s))
  end.

Definition set_pid (pid : Z) (e : bytes * Z) : bytes * Z := (e.1, pid).

Definition lock_set (line : bytes) (pid : Z) : C unit :=
  log_msg "locking %s for pid %d" [pid];;
  i ← find_line line;
  modify (fun s => upd_lock (alter (set_pid pid) i (lock s)) (lock_size s) s).

(** Clear the pid of the first entry that has it; [None] if there is none. *)
Fixpoint release (pid : Z) (l : list (bytes * Z)) : option (list (bytes * Z)) :=
  match l with
  | [] => None
  | (x, p) :: l' => if p =? pid then Some ((x, 0) :: l') else l'' ← release pid l'; Some ((x, p) :: l'')
  end.
Definition lock_rel (pid : Z) : C unit :=
  s ← get;
  match release pid (lock s) with
  | Some l => log_msg "unlocking %s for pid %d" [pid];; modify (upd_lock l (lock_size s))
  | None => log_msg "can't find lock for pid = %d" [pid]
  end.

Definition is_locked (line : bytes) : C Z :=
  i ← find_line line;
  s ← get;
  mret (default 0 (snd <$> lock s !! i)).

(** ** The client array *)

Definition set_fd v c := mkClient v (c_pid c) (c_uid c) (c_childdone c) (c_sysftell c) (c_foundone c) (c_Debug c) (c_parity c) (c_speed c) (c_sysname c).
Definition set_uid v c := mkClient (c_fd c) (c_pid c) v (c_childdone c) (c_sysftell c) (c_foundone c) (c_Debug c) (c_parity c) (c_speed c) (c_sysname c).
Definition set_cpid v c := mkClient (c_fd c) v (c_uid c) (c_childdone c) (c_sysftell c) (c_foundone c) (c_Debug c) (c_parity c) (c_speed c) (c_sysname c).
Definition set_childdone v c := mkClient (c_fd c) (c_pid c) (c_uid c) v (c_sysftell c) (c_foundone c) (c_Debug c) (c_parity c) (c_speed c) (c_sysname c).
Definition set_sysftell v c := mkClient (c_fd c) (c_pid c) (c_uid c) (c_childdone c) v (c_foundone c) (c_Debug c) (c_parity c) (c_speed c) (c_sysname c).
Definition set_foundone v c := mkClient (c_fd c) (c_pid c) (c_uid c) (c_childdone c) (c_sysftell c) v (c_Debug c) (c_parity c) (c_speed c) (c_sysname c).
Definition set_options d p sp sn c := mkClient (c_fd c) (c_pid c) (c_uid c) (c_childdone c) (c_sysftell c) (c_foundone c) d p sp sn.

(** The index of the first client with [p], from [i] on. *)
Fixpoint client_index (p : Client -> bool) (l : list Client) (i : nat) : option nat :=
  match l with [] => None | c :: l' => if p c then Some i else client_index p l' (S i) end.

Definition on_client (i : nat) (f : Client -> Client) : C unit := modify (fun s => upd_client (alter f i (client s)) s).

(** The structure at an index; outside the array is undefined behaviour. *)
Definition the_client (i : nat) : C Client :=
  s ← get; match client s !! i with Some c => mret c | None => undef "outside the client array" end.

Section Server.
(** What malloc and realloc leave in a new structure. *)
Context (garbage : Client).

Definition client_alloc : C unit :=
  modify (fun s => upd_client (client s ++ replicate NALLOC (set_fd (-1) garbage)) s).

Definition client_add (fd uid : Z) : C nat :=
  s ← get;
  (if bool_decide (client s = []) then client_alloc else mret tt);;
  s ← get;
  match client_index (fun c => c_fd c =? -1) (client s) 0 with
  | Some i => on_client i (fun c => set_uid uid (set_fd fd c));; mret i
  | None =>
    client_alloc;;
    s ← get;
    match client_index (fun c => c_fd c =? -1) (client s) 0 with
    | Some i => on_client i (fun c => set_uid uid (set_fd fd c));; mret i
    | None => nofuel
    end
  end.

Definition client_del (fd : Z) : C unit :=
  s ← get;
  match client_index (fun c => c_fd c =? fd) (client s) 0 with
  | Some i => on_client i (set_fd (-1))
  | None => log_quit "can't find client entry for fd %d" [fd]
  end.

(** [client_sigchld]; entries that are not in use are searched too. *)
Definition client_sigchld (pid stat : Z) : C unit :=
  s ← get;
  match client_index (fun c => c_pid c =? pid) (client s) 0 with
  | Some i => on_client i (set_childdone stat)
  | None => log_quit "can't find client entry for pid %d" [pid]
  end.

(** [sig_chld]: the result of waitpid, and the exit status if the child
    exited. *)
Definition sig_chld (pid : Z) (status : option Z) : C unit :=
  modify (upd_chld_flag true);;
  if pid <=? 0 then log_sys "waitpid error" []
  else match status with
    | Some st => client_sigchld pid (st + 1)
    | None => log_msg "child %d terminated abnormally: %04x" [pid]
    end.

(** ** The client's request *)

(** getopt(argc, argv, "des:o") on one argument's letters. *)
Record opts := mkOpts { o_Debug : bool; o_parity : parity_t; o_speed : option bytes }.
Inductive letters := LDone (o : opts) | LArg (o : opts) | LBad (c : Z) (o : opts).
Fixpoint opt_letters (cs : bytes) (o : opts) : letters :=
  match cs with
  | [] => LDone o
  | c :: cs' =>
    if c =? 100 then opt_letters cs' (mkOpts true (o_parity o) (o_speed o))
    else if c =? 101 then opt_letters cs' (mkOpts (o_Debug o) EVEN (o_speed o))
    else if c =? 111 then opt_letters cs' (mkOpts (o_Debug o) ODD (o_speed o))
    else if c =? 115 then match cs' with [] => LArg o | _ => LDone (mkOpts (o_Debug o) (o_parity o) (Some cs')) end
    else LBad c o
  end.

(** The options and the remaining arguments, or the bad option letter. *)
Fixpoint getopts (args : list bytes) (o : opts) : opts * (list bytes + Z) :=
  match args with
  | [] => (o, inl [])
  | a :: args' =>
    match a with
    | 45 :: c :: cs =>
      if bool_decide (a = str "--") then (o, inl args')
      else match opt_letters (c :: cs) o with
        | LDone o' => getopts args' o'
        | LArg o' =>
          match args' with
          | v :: args'' => getopts args'' (mkOpts (o_Debug o') (o_parity o') (Some v))
          | [] => (o', inr 115)
          end
        | LBad c o' => (o', inr c)
        end
    | _ => (o, inl (a :: args'))
    end
  end.

Definition cli_args (argv : list bytes) : C Z :=
  match argv with
  | a0 :: args =>
    if bool_decide (args = []) || negb (bool_decide (a0 = str "call")) then
      set_errmsg (str "usage: call <options> <hostname>");; mret (-1)
    else
      let '(o, r) := getopts args (mkOpts false NONE None) in
      modify (upd_opts (o_Debug o) (o_parity o) (o_speed o));;
      match r with
      | inr c => set_errmsg (str "unrecognized option: -" ++ [c; 10]);; mret (-1)
      | inl [] => set_errmsg (str "missing <hostname> to call" ++ [10]);; mret (-1)
      | inl (h :: _) => modify (upd_sysname h);; mret 0
      end
  | [] => set_errmsg (str "usage: call <options> <hostname>");; mret (-1)
  end.

(** [buf_args]: argv[0] is the buffer itself, white space at its start
    included. *)
Definition leading_white (s : bytes) : bytes := take (length s - length (skip_delims is_white s)) s.
Definition buf_args (buf : bytes) (optfunc : list bytes -> C Z) : C Z :=
  let s := cstring buf in
  match tokens (S (length s)) is_white s with
  | [] => mret (-1)
  | t :: ts =>
    if (MAXARGC - 1 <=? length ts)%nat then mret (-1) else optfunc ((leading_white s ++ t) :: ts)
  end.

(** ** Starting a child *)

(** fork, in the parent. *)
Definition fork : C Z := fun s =>
  match forks s with [] => CRet (-1) s | p :: r => CRet p (upd_forks r s) end.

(** The loop of [request] over the lines of the Systems file: [true] when a
    child was started. *)
Fixpoint request_loop (fuel : nat) (i : nat) : C bool :=
  match fuel with
  | O => nofuel
  | S fuel' =>
    pos ← sys_next;
    on_client i (set_sysftell pos);;
    if pos <? 0 then mret false
    else
      c ← the_client i;
      s ← get;
      let sys := systems s in
      if negb (bool_decide (c_sysname c = s_name sys)) then request_loop fuel' i
      else if negb (bool_decide (c_speed c = [])) && negb (bool_decide (c_speed c = s_class sys)) then request_loop fuel' i
      else
        DEBUG "trying sys: %s, %s, %s, %s" [s_name sys; s_type sys; s_class sys; s_phone sys];;
        on_client i (fun c => set_foundone (c_foundone c + 1) c);;
        r ← dev_find sys;
        if r <? 0 then mret false
        else
          s ← get;
          let dev := devices s in
          DEBUG "trying dev: %s, %s, %s, %s" [d_type dev; d_line dev; d_class dev; d_dialer dev];;
          pid ← is_locked (d_line dev);
          if negb (pid =? 0) then
            set_errmsg (str "device `" ++ d_line dev ++ str "' already locked by pid " ++ fmt_ld pid ++ [10]);;
            request_loop fuel' i
          else
            child ← fork;
            on_client i (set_cpid child);;
            if child <? 0 then log_sys "fork error" []
            else
              emit (EFork child (d_line dev));;
              lock_set (d_line dev) child;;
              mret true
  end.

Definition request (i : nat) : C Z :=
  set_errmsg [];;
  c ← the_client i;
  sys_posn (c_sysftell c);;
  s ← get;
  ok ← request_loop (S (length (default [] (fsys s)))) i;
  if (ok : bool) then mret 0
  else
    c ← the_client i;
    s ← get;
    (if c_foundone c =? 0 then set_errmsg (str "system `" ++ c_sysname c ++ str "' not found" ++ [10])
     else if bool_decide (errmsg s = []) then set_errmsg (str "unable to connect to system `" ++ c_sysname c ++ str "'" ++ [10])
     else mret tt);;
    mret (-1).

(** ** The server loop *)

Definition cli_done (fd : Z) : C unit :=
  client_del fd;;
  modify (fun s => upd_allset (filter (fun x => x <> fd) (allset s)) (maxfd s) s);;
  emit (EClose fd).

(** A request that cannot be served: tell the client and forget it. *)
Definition drop_client (i : nat) (fd : Z) : C unit :=
  c ← the_client i; s ← get; emit (ESendErr (c_fd c) (errmsg s));; cli_done fd.

(** One pass of [child_done] over the first [n] entries, from entry [i] on. *)
Fixpoint child_pass (n i : nat) : C unit :=
  match n with
  | O => mret tt
  | S n' =>
    c ← the_client i;
    modify (upd_clifd (c_fd c));;
    (if c_fd c <? 0 then mret tt
     else if c_childdone c =? 0 then mret tt
     else
       log_msg "child done: pid %d, status %d" [c_pid c; c_childdone c - 1];;
       on_client i (set_childdone 0);;
       if c_childdone c =? 1 then mret tt
       else
         lock_rel (c_pid c);;
         r ← request i;
         if r <? 0 then drop_client i (c_fd c) else mret tt);;
    child_pass n' (S i)
  end.

Fixpoint child_done (fuel : nat) : C unit :=
  match fuel with
  | O => nofuel
  | S fuel' =>
    modify (upd_chld_flag false);;
    s ← get;
    child_pass (Z.to_nat (maxi s + 1)) 0;;
    s ← get;
    if chld_flag s then child_done fuel' else mret tt
  end.

(** A read from a client: an error, or data (none at the end of file). *)
Inductive cread := RdErr | RdData (b : bytes).

(** strcpy into a member of [n] bytes. *)
Definition fits (n : Z) (s : bytes) : bool := Z.of_nat (length s) <? n.

Definition serve (i : nat) (c : Client) (d : cread) : C unit :=
  match d with
  | RdErr => log_sys "read error on fd %d" [c_fd c]
  | RdData [] =>
    log_msg "closed: uid %d, fd %d" [c_uid c; c_fd c];;
    lock_rel (c_pid c);;
    cli_done (c_fd c)
  | RdData b =>
    let buf := take (Z.to_nat MAXLINE) b in
    if negb (List.last buf 0 =? 0) then log_quit "request from uid %d not null terminated: %*.*s" []
    else
      log_msg "starting: %s, from uid %d" [];;
      r ← buf_args buf cli_args;
      if r <? 0 then log_quit "command line error: %s" []
      else
        s ← get;
        let sp := default [] (speed s) in
        if negb (fits MAXSYSNAME (sysname s) && fits MAXSPEEDSTR sp) then undef "write past the end of a client's options"
        else
          on_client i (set_options (Debug s) (parity s) sp (sysname s));;
          on_client i (fun c => set_foundone 0 (set_sysftell 0 (set_childdone 0 c)));;
          r ← request i;
          if r <? 0 then drop_client i (c_fd c) else mret tt
  end.

(** The pass over the clients with data: [data] gives what each read finds. *)
Fixpoint client_pass (n i : nat) (data : list (Z * cread)) : C unit :=
  match n with
  | O => mret tt
  | S n' =>
    c ← the_client i;
    modify (upd_clifd (c_fd c));;
    (if c_fd c <? 0 then mret tt
     else match List.find (fun x => x.1 =? c_fd c) data with
       | Some (_, d) => serve i c d
       | None => mret tt
       end);;
    client_pass n' (S i) data
  end.

(** What select says: interrupted, failed, a connection (descriptor or error,
    and user id), or data on some descriptors. *)
Inductive sel := SIntr | SErr | SConn (fd uid : Z) | SData (data : list (Z * cread)).

(** One turn of [loop]. *)
Definition loop_turn (fuel : nat) (ev : sel) : C unit :=
  s ← get;
  (if chld_flag s then child_done fuel else mret tt);;
  match ev with
  | SIntr => child_done fuel
  | SErr => log_sys "select error" []
  | SConn fd uid =>
    modify (upd_clifd fd);;
    if fd <? 0 then log_sys "serv_accept error: %d" [fd]
    else
      i ← client_add fd uid;
      modify (fun s => upd_allset (fd :: allset s) (Z.max fd (maxfd s)) s);;
      modify (fun s => upd_maxi (Z.max (Z.of_nat i) (maxi s)) s);;
      log_msg "new connection: uid %d, fd %d" [uid; fd]
  | SData data =>
    s ← get;
    client_pass (Z.to_nat (maxi s + 1)) 0 data
  end.
End Server.

(** ** The child *)

(** Octal digits with at least three places. *)
Definition octal3 (c : Z) : bytes := [48 + c / 64; 48 + (c / 8) mod 8; 48 + c mod 8].

Definition ctl_str (c : Z) : bytes :=
  let c := Z.land c 255 in
  if c =? 0 then str "\0"
  else if c <? 32 then [94; c + 65 - 1]
  else if c =? 127 then str "DEL"
  else if 127 <? c then 92 :: octal3 c
  else [c].

(** [exp_read]: the result is a size_t; the byte, if one was read. *)
Definition exp_read : C (Z * option Z) :=
  s ← get;
  if caught_alrm s then DEBUG "\nread timeout" [];; mret (wrap_u 64 (-1), None)
  else match ttyin s with
    | TByte c :: r =>
      modify (upd_tty false r (ttyout s));; DEBUG_NONL "%s" [ctl_str c];; mret (1, Some c)
    | [] | TAlarm :: _ =>
      modify (upd_tty true (tail (ttyin s)) (ttyout s));; DEBUG "\nread timeout" [];; mret (wrap_u 64 (-1), None)
    | TErr :: r => modify (upd_tty false r (ttyout s));; log_sys "read error" []
    end.

(** The expect string with its escape sequences replaced, or the message. *)
Fixpoint unescape (src : bytes) (ptr : bytes) : bytes + bytes :=
  match src with
  | [] => inl []
  | 92 :: [] => inr (str "invalid expect string: " ++ ptr ++ [10])
  | 92 :: c :: src' =>
    if c =? 114 then match unescape src' ptr with inl d => inl (13 :: d) | e => e end
    else if c =? 115 then match unescape src' ptr with inl d => inl (32 :: d) | e => e end
    else inr (str "unknown expect escape char: \" ++ ctl_str c ++ [10])
  | c :: src' => match unescape src' ptr with inl d => inl (c :: d) | e => e end
  end.

(** Skip until the first character of the expect string; [c] is what the
    variable holds. *)
Fixpoint skip_to (fuel : nat) (x c : Z) : C (option Z) :=
  match fuel with
  | O => nofuel
  | S fuel' =>
    '(r, b) ← exp_read;
    let c := default c b in
    if r <? 0 then mret None
    else if c =? x then mret (Some c) else skip_to fuel' x c
  end.

(** One more byte at [inbuf[i]]. *)
Definition read_at (inbuf : bytes) (i : Z) : C (option bytes) :=
  '(r, b) ← exp_read;
  if r <? 0 then mret None
  else match b with
    | Some c => if i <? Z.of_nat (length inbuf) then mret (Some (<[Z.to_nat i := c]> inbuf)) else undef "write past the end of inbuf"
    | None => mret (Some inbuf)
    end.

Fixpoint read_more (n : nat) (inbuf : bytes) (i : Z) : C (option bytes) :=
  match n with
  | O => mret (Some inbuf)
  | S n' => r ← read_at inbuf i; match r with Some inbuf' => read_more n' inbuf' (i + 1) | None => mret None end
  end.

(** strncmp(cmpptr, expstr, matchlen) == 0. *)
Fixpoint same_at (inbuf : bytes) (expstr : bytes) : option bool :=
  match expstr, inbuf with
  | [], _ => Some true
  | x :: e', c :: i' => if c =? x then same_at i' e' else Some false
  | _ :: _, [] => None
  end.

Fixpoint match_loop (fuel : nat) (expstr inbuf : bytes) (inptr cmpptr : Z) : C Z :=
  match fuel with
  | O => nofuel
  | S fuel' =>
    match same_at (drop (Z.to_nat cmpptr) inbuf) expstr with
    | None => undef "read past the end of inbuf"
    | Some true => mret 0
    | Some false =>
      r ← read_at inbuf (inptr + 1);
      match r with
      | None => mret (-1)
      | Some inbuf' => match_loop fuel' expstr inbuf' (inptr + 1) (cmpptr + 1)
      end
    end
  end.

Section Child.
(** What the stack holds before it is written. *)
Context (junk : bytes).

Definition fresh_buf : bytes := take (Z.to_nat MAXLINE) (junk ++ replicate (Z.to_nat MAXLINE) 0).

Definition expect_str (fuel : nat) (ptr : bytes) : C Z :=
  if bool_decide (ptr = [34; 34]) then DEBUG "\nexpect: got it" [];; mret 0
  else match unescape ptr ptr with
    | inr m => set_errmsg m;; mret (-1)
    | inl expstr =>
      modify (fun s => upd_tty false (ttyin s) (ttyout s) s);;
      c ← skip_to fuel (nth 0 expstr 0) 0;
      match c with
      | None => mret (-1)
      | Some c =>
        r ← read_more (length expstr - 1) (<[0%nat := c]> fresh_buf) 1;
        match r with
        | None => mret (-1)
        | Some inbuf =>
          r ← match_loop fuel expstr inbuf (Z.of_nat (length expstr) - 1) 0;
          if r <? 0 then mret (-1) else DEBUG "\nexpect: got it" [];; mret 0
        end
      end
    end.

(** A write to the line, and the wait for the echo. *)
Definition put (c : Z) : C unit :=
  DEBUG_NONL "%s" [ctl_str c];; modify (fun s => upd_tty (caught_alrm s) (ttyin s) (ttyout s ++ [c]) s).
Fixpoint wait_echo (fuel : nat) (c : Z) : C unit :=
  match fuel with
  | O => nofuel
  | S fuel' =>
    s ← get;
    match ttyin s with
    | TByte x :: r =>
      modify (upd_tty (caught_alrm s) r (ttyout s));; DEBUG_NONL "{%s}" [ctl_str x];;
      if x =? c then mret tt else wait_echo fuel' c
    | _ => log_sys "read error" []
    end
  end.

(** [send_str] from [ptr] on.  The escape \T sends the phone number, whose own
    escapes are replaced too; its result is not looked at. *)
Fixpoint send_str (fuel : nat) (ptr phone : bytes) (echocheck : bool) : C Z :=
  match fuel with
  | O => nofuel
  | S fuel' =>
    let send c ptr' :=
      put c;; (if echocheck then wait_echo fuel c else mret tt);; send_str fuel' ptr' phone echocheck in
    match ptr with
    | [] => put 13;; DEBUG "" [];; mret 0
    | 92 :: [] => set_errmsg (str "backslash at end of send string" ++ [10]);; mret (-1)
    | 92 :: c :: ptr' =>
      if c =? 99 then
        match ptr' with [] => DEBUG "" [];; mret 0 | _ => send_str fuel' ptr' phone echocheck end
      else if c =? 100 then DEBUG_NONL "<delay>" [];; emit (ESleep 2000000);; send_str fuel' ptr' phone echocheck
      else if c =? 112 then DEBUG_NONL "<pause>" [];; emit (ESleep 250000);; send_str fuel' ptr' phone echocheck
      else if c =? 101 then DEBUG_NONL "<echo check off>" [];; send_str fuel' ptr' phone false
      else if c =? 69 then DEBUG_NONL "<echo check on>" [];; send_str fuel' ptr' phone true
      else if c =? 84 then send_str fuel' phone phone echocheck;; send_str fuel' ptr' phone echocheck
      else if c =? 114 then send 13 ptr'
      else if c =? 115 then send 32 ptr'
      else set_errmsg (str "unknown send escape char: \" ++ ctl_str c ++ [10]);; mret (-1)
    | c :: ptr' => send c ptr'
    end
  end.

(** [tty_dial] over the tokens of the chat. *)
Fixpoint chat (fuel : nat) (toks : list bytes) (phone : bytes) : C Z :=
  match toks with
  | [] => undef "null pointer"  (* no expect string at all *)
  | e :: toks' =>
    DEBUG_NONL "expect = %s\nread: " [e];;
    r ← expect_str fuel e;
    if r <? 0 then mret (-1)
    else match toks' with
      | [] => mret 0
      | o :: toks'' =>
        DEBUG_NONL "send = %s\nwrite: " [o];;
        r ← send_str fuel o phone false;
        if r <? 0 then mret (-1)
        else match toks'' with [] => mret 0 | _ => chat fuel toks'' phone end
      end
  end.
Definition tty_dial (fuel : nat) (phone expsend : bytes) : C Z :=
  chat fuel (tokens (S (length expsend)) is_white expsend) phone.

(** Flags and speeds of termios(3) on Linux. *)
Definition CS7 : Z := 0x20.
Definition CS8 : Z := 0x30.
Definition CREAD : Z := 0x80.
Definition PARENB : Z := 0x100.
Definition PARODD : Z := 0x200.
Definition HUPCL : Z := 0x400.
Definition CLOCAL : Z := 0x800.

Definition speeds : list (bytes * Z) :=
  [(str "38400", 15); (str "19200", 14); (str "9600", 13); (str "4800", 12); (str "2400", 11); (str "1800", 10);
   (str "1200", 9); (str "600", 8); (str "300", 7); (str "200", 6); (str "150", 5); (str "134", 4); (str "110", 3);
   (str "75", 2); (str "50", 1)].
Definition baud_of (class : bytes) : option Z := snd <$> List.find (fun x => bool_decide (x.1 = class)) speeds.

Definition cflag_of (p : parity_t) (modem : bool) : Z :=
  let f := match p with NONE => CS8 | EVEN => Z.lor CS7 PARENB | ODD => Z.lor (Z.lor CS7 PARENB) PARODD end in
  let f := Z.lor f (Z.lor CREAD HUPCL) in
  if modem then f else Z.lor f CLOCAL.

(** How opening the line ends: an error message, not a terminal, or a
    descriptor. *)
Inductive opening := OpenErr (msg : bytes) | NotTty | Opened (fd : Z).

(** [tty_open], with [op] the system's answer for the device. *)
Definition tty_open (op : opening) (class line : bytes) (p : parity_t) (modem : bool) : C Z :=
  let devname := str "/dev/" ++ line in
  if 100 <=? Z.of_nat (length devname) then undef "write past the end of devname"
  else match op with
    | OpenErr m => set_errmsg (str "can't open " ++ devname ++ str ": " ++ m ++ [10]);; mret (-1)
    | NotTty => set_errmsg (devname ++ str " is not a tty" ++ [10]);; mret (-1)
    | Opened fd =>
      match baud_of class with
      | None => set_errmsg (str "invalid baud rate: " ++ class ++ [10]);; mret (-1)
      | Some baud => emit (ETty (cflag_of p modem) baud);; DEBUG "tty open" [];; mret fd
      end
    end.

(** The end of [child_dial] after a failure. *)
Definition die (c : Client) : C unit := s ← get; emit (ESend (c_fd c) (errmsg s));; exit 1.

Definition child_dial (fuel : nat) (op : opening) (c : Client) : C unit :=
  modify (fun s => upd_opts (c_Debug c) (parity s) (speed s) s);;
  DEBUG "child, pid %d" [];;
  s ← get;
  let dev := devices s in
  if bool_decide (d_dialer dev = str "direct") then
    fd ← tty_open op (s_class (systems s)) (d_line dev) (c_parity c) false;
    if fd <? 0 then die c else DEBUG "done" [];; emit (ESendFd (c_fd c) fd);; exit 0
  else
    r ← dial_find dev;
    if r <? 0 then die c
    else
      fd ← tty_open op (s_class (systems s)) (d_line dev) (c_parity c) true;
      if fd <? 0 then die c
      else
        s ← get;
        r ← tty_dial fuel (s_phone (systems s)) (l_expsend (dialers s));
        if r <? 0 then die c else DEBUG "done" [];; emit (ESendFd (c_fd c) fd);; exit 0.
End Child.
