(* ===== verification/CalldOps.v ===== *)
(** * CalldOps: the dialer daemon, lemmas.

    A logic for runs that may end in log_quit, the lock table against a finite
    map, the configuration file readers, and [request]. *)
From S2P Require Import Prelude Libc Calld.
Local Open Scope Z_scope.

(** [m] from [s] either returns with [Q], or the process ends in log_quit, or it
    runs into undefined behaviour; it neither exits nor runs out of fuel. *)
Definition cwp {A} (m : C A) (Q : A -> cst -> Prop) (s : cst) : Prop :=
  match m s with CRet a s' => Q a s' | CQuit _ | CUndef _ _ => True | CExit _ _ | CNoFuel => False end.

Lemma cwp_ret {A} (a : A) Q s : Q a s -> cwp (mret a) Q s.
Proof. done. Qed.
Lemma cwp_bind {A B} (m : C A) (k : A -> C B) Q s : cwp m (fun a s' => cwp (k a) Q s') s -> cwp (m ≫= k) Q s.
Proof. unfold cwp, mbind, C_bind. by destruct (m s). Qed.
Lemma cwp_get Q s : Q s s -> cwp get Q s.
Proof. done. Qed.
Lemma cwp_modify f Q s : Q tt (f s) -> cwp (modify f) Q s.
Proof. done. Qed.
Lemma cwp_quit {A} m args Q s : cwp (log_quit (A := A) m args) Q s.
Proof. done. Qed.
Lemma cwp_undef {A} w Q s : cwp (undef (A := A) w) Q s.
Proof. done. Qed.
Lemma cwp_emit e Q s : Q tt (upd_evs (e :: evs s) s) -> cwp (emit e) Q s.
Proof. done. Qed.
Lemma cwp_mono {A} (m : C A) (Q Q' : A -> cst -> Prop) s : cwp m Q s -> (forall a s', Q a s' -> Q' a s') -> cwp m Q' s.
Proof. unfold cwp. destruct (m s); auto. Qed.

Ltac cwp_step :=
  lazymatch goal with
  | |- cwp (mret _) _ _ => apply cwp_ret
  | |- cwp get _ _ => apply cwp_get
  | |- cwp (modify _) _ _ => apply cwp_modify
  | |- cwp (emit _) _ _ => apply cwp_emit
  | |- cwp (log_msg _ _) _ _ => apply cwp_emit
  | |- cwp (log_quit _ _) _ _ => apply cwp_quit
  | |- cwp (log_sys _ _) _ _ => apply cwp_quit
  | |- cwp (undef _) _ _ => apply cwp_undef
  | |- cwp (_ ≫= _) _ _ => apply cwp_bind
  end.
Ltac cwp_steps := repeat (cwp_step; cbn beta iota).

(** ** Locks *)

(** The table represents the map from locked lines to process ids. *)
Definition held (l : list (bytes * Z)) (line : bytes) : Z :=
  match List.find (fun e => bool_decide (line = e.1)) l with Some e => e.2 | None => 0 end.

Record locks_rep (l : list (bytes * Z)) (m : gmap bytes Z) : Prop := {
  lr_nodup : NoDup l.*1;
  lr_held : forall line, m !! line = if held l line =? 0 then None else Some (held l line)
}.

Lemma held_cons x p l line : held ((x, p) :: l) line = if bool_decide (line = x) then p else held l line.
Proof. unfold held. simpl. by case_bool_decide. Qed.

Lemma held_app l1 l2 line : line ∉ l1.*1 -> held (l1 ++ l2) line = held l2 line.
Proof.
  induction l1 as [|[x p] l1 IH]; [done|]. simpl. intros [Hne Hn]%not_elem_of_cons.
  rewrite held_cons, bool_decide_false by done. by apply IH.
Qed.

Lemma held_notin l line : line ∉ l.*1 -> held l line = 0.
Proof. intros Hn. rewrite <- (app_nil_r l), held_app by done. done. Qed.

Lemma line_index_spec line l i :
  match line_index line l i with
  | Some j => exists l1 p l2, l = l1 ++ (line, p) :: l2 /\ j = (i + length l1)%nat /\ line ∉ l1.*1
  | None => line ∉ l.*1
  end.
Proof.
  revert i. induction l as [|[x p] l IH]; intros i; simpl; [set_solver|]. case_bool_decide as Hx.
  - subst x. exists [], p, l. split; [done|]. split; [simpl; lia|set_solver].
  - specialize (IH (S i)). destruct (line_index line l (S i)) as [j|].
    + destruct IH as (l1 & p' & l2 & -> & -> & Hn). exists ((x, p) :: l1), p', l2. split; [done|]. split; [simpl; lia|]. set_solver.
    + set_solver.
Qed.

(** [find_line] gives the entry of the line, adding one with pid 0. *)
Lemma cwp_find_line line Q s :
  NoDup (lock s).*1 ->
  (forall l1 p l2 n, NoDup (l1 ++ (line, p) :: l2).*1 -> (line ∉ l1.*1) ->
    (forall x, held (l1 ++ (line, p) :: l2) x = held (lock s) x) ->
    Q (length l1) (upd_lock (l1 ++ (line, p) :: l2) n s)) ->
  cwp (find_line line) Q s.
Proof.
  intros Hnd HQ. unfold find_line. cwp_steps. pose proof (line_index_spec line (lock s) 0) as Hi.
  destruct (line_index line (lock s) 0) as [j|].
  - destruct Hi as (l1 & p & l2 & E & -> & Hn). cwp_step. simpl.
    replace s with (upd_lock (l1 ++ (line, p) :: l2) (lock_size s) s) by (rewrite <- E; by destruct s).
    apply HQ; rewrite <- ?E; done.
  - cwp_steps. apply (HQ _ 0 []); [|done|].
    + rewrite fmap_app. apply NoDup_app. split; [done|]. split; [set_solver|apply NoDup_singleton].
    + intros x. destruct (decide (x ∈ (lock s).*1)) as [Hin|Hin].
      * clear -Hin. induction (lock s) as [|[y q] l IH]; [set_solver|]. simpl app. rewrite !held_cons. case_bool_decide; [done|].
        apply IH. set_solver.
      * rewrite held_app, (held_notin (lock s)) by done. rewrite held_cons. by case_bool_decide.
Qed.

Lemma held_middle l1 line p l2 x : line ∉ l1.*1 ->
  held (l1 ++ (line, p) :: l2) x = if bool_decide (x = line) then p else held (l1 ++ l2) x.
Proof.
  induction l1 as [|[y q] l1 IH]; simpl app.
  - intros _. by rewrite held_cons.
  - simpl. intros [Hne Hn]%not_elem_of_cons. rewrite !held_cons. destruct (decide (x = y)) as [->|Hx].
    + rewrite !(bool_decide_true (y = y)) by done. by rewrite bool_decide_false by congruence.
    + rewrite !(bool_decide_false (x = y)) by done. by apply IH.
Qed.

Lemma alter_middle {A} (f : A -> A) (a : list A) x b : alter f (length a) (a ++ x :: b) = a ++ f x :: b.
Proof. induction a as [|y a IH]; [done|]. cbn [length app]. change (alter f (S (length a)) (y :: a ++ x :: b)) with (y :: alter f (length a) (a ++ x :: b)). by rewrite IH. Qed.

(** What a lock operation may change besides the table: the log. *)
Definition lock_frame (s s' : cst) : Prop := exists l n ev, s' = upd_evs ev (upd_lock l n s).

Lemma cwp_lock_set line pid m Q s :
  locks_rep (lock s) m -> pid <> 0 ->
  (forall s', locks_rep (lock s') (<[line := pid]> m) -> lock_frame s s' -> Q tt s') -> cwp (lock_set line pid) Q s.
Proof.
  intros [Hnd Hh] Hp HQ. unfold lock_set. cwp_steps. apply cwp_find_line; [done|]. intros l1 p l2 n Hnd' Hn Hheld.
  cwp_step. apply HQ; [|eexists _, _, _; reflexivity]. cbn [lock upd_lock]. rewrite alter_middle. split.
  - rewrite fmap_app in *. done.
  - intros x. unfold set_pid. simpl fst. rewrite held_middle by done. destruct (decide (x = line)) as [->|Hx].
    + rewrite lookup_insert_eq, bool_decide_true by done. by destruct (Z.eqb_spec pid 0).
    + rewrite lookup_insert_ne by done. rewrite bool_decide_false by done. rewrite Hh.
      specialize (Hheld x). rewrite held_middle, bool_decide_false in Hheld by done. simpl in Hheld. by rewrite Hheld.
Qed.

Lemma cwp_is_locked line m Q s :
  locks_rep (lock s) m ->
  (forall s', locks_rep (lock s') m -> lock_frame s s' -> Q (default 0 (m !! line)) s') -> cwp (is_locked line) Q s.
Proof.
  intros [Hnd Hh] HQ. unfold is_locked. cwp_steps. apply cwp_find_line; [done|]. intros l1 p l2 n Hnd' Hn Hheld. cwp_steps.
  cbn [lock upd_lock]. rewrite list_lookup_middle by done. simpl.
  assert (Hp : p = default 0 (m !! line)).
  { rewrite Hh, <- Hheld, held_middle, bool_decide_true by done. destruct (Z.eqb_spec p 0); simpl; lia. }
  rewrite Hp at 1. apply HQ; [|exists (l1 ++ (line, p) :: l2), n, (evs s); by destruct s]. simpl. split; [done|].
  intros x. by rewrite Hheld.
Qed.

Lemma release_spec pid l :
  match release pid l with
  | Some l' => exists l1 x l2, l = l1 ++ (x, pid) :: l2 /\ l' = l1 ++ (x, 0) :: l2
  | None => pid ∉ l.*2
  end.
Proof.
  induction l as [|[x p] l IH]; simpl; [set_solver|]. destruct (Z.eqb_spec p pid) as [->|Hp]; [by exists [], x, l|].
  destruct (release pid l) as [l'|]; simpl.
  - destruct IH as (l1 & y & l2 & -> & ->). by exists ((x, p) :: l1), y, l2.
  - set_solver.
Qed.

Lemma held_in l x : held l x <> 0 -> held l x ∈ l.*2.
Proof.
  induction l as [|[y p] l IH]; [done|]. rewrite held_cons. case_bool_decide; [set_solver|]. intros H0. simpl. set_solver.
Qed.

(** No two lines are held by one process. *)
Definition one_line (m : gmap bytes Z) : Prop := forall x y p, m !! x = Some p -> m !! y = Some p -> x = y.

Lemma cwp_lock_rel pid m Q s :
  locks_rep (lock s) m -> pid <> 0 -> one_line m ->
  (forall s', locks_rep (lock s') (filter (fun kv => kv.2 <> pid) m) -> lock_frame s s' -> Q tt s') -> cwp (lock_rel pid) Q s.
Proof.
  intros [Hnd Hh] Hp Hone HQ. unfold lock_rel. cwp_steps. pose proof (release_spec pid (lock s)) as Hr.
  destruct (release pid (lock s)) as [l'|].
  - destruct Hr as (l1 & x & l2 & E & ->). cwp_steps. apply HQ; [|eexists _, _, _; reflexivity]. simpl. rewrite E in Hnd.
    assert (Hnx : (x ∉ l1.*1) /\ (x ∉ l2.*1)).
    { rewrite fmap_app in Hnd. apply NoDup_app in Hnd as (_ & Hd & H2). apply NoDup_cons in H2 as [H2 _].
      split; [|done]. intros Hin. apply (Hd x Hin). simpl. set_solver. }
    destruct Hnx as [Hx1 Hx2].
    assert (Hmx : m !! x = Some pid).
    { rewrite Hh, E, held_middle, bool_decide_true by done. by destruct (Z.eqb_spec pid 0). }
    split; [by rewrite fmap_app in *|]. intros y. rewrite held_middle by done. destruct (decide (y = x)) as [->|Hy].
    + rewrite bool_decide_true by done. simpl. apply map_lookup_filter_None. right. intros v Hv. simpl. rewrite Hmx in Hv.
      injection Hv as <-. by intros [].
    + rewrite bool_decide_false by done. assert (Hmy : held (lock s) y = held (l1 ++ l2) y).
      { rewrite E, held_middle, bool_decide_false by done. done. }
      pose proof (Hh y) as Hmy'. rewrite Hmy in Hmy'. rewrite <- Hmy'. destruct (m !! y) as [v|] eqn:Ey.
      * apply map_lookup_filter_Some. split; [done|]. simpl. intros ->. apply Hy. by apply (Hone y x pid).
      * apply map_lookup_filter_None. by left.
  - cwp_step. apply HQ; [|exists (lock s), (lock_size s); eexists; by destruct s]. cbn [lock upd_evs].
    replace (filter _ m) with m; [done|]. apply map_eq. intros y. symmetry. destruct (m !! y) as [v|] eqn:Ey.
    + apply map_lookup_filter_Some. split; [done|]. simpl. intros ->. apply Hr. rewrite Hh in Ey.
      destruct (Z.eqb_spec (held (lock s) y) 0); [done|]. injection Ey as Ey. rewrite <- Ey. by apply held_in.
    + apply map_lookup_filter_None. by left.
Qed.

(** ** Lock operations in sequence *)

Inductive lop := LSet (line : bytes) (pid : Z) | LRel (pid : Z) | LAsk (line : bytes).

Definition exec_lop (o : lop) : C Z :=
  match o with
  | LSet line pid => lock_set line pid;; mret 0
  | LRel pid => lock_rel pid;; mret 0
  | LAsk line => is_locked line
  end.

(** The map from locked lines to processes; a process locks one line. *)
Definition spec_lop (o : lop) (m : gmap bytes Z) : option (Z * gmap bytes Z) :=
  match o with
  | LSet line pid =>
    if bool_decide (pid <> 0) && bool_decide (map_Forall (fun l p => p = pid -> l = line) m) then Some (0, <[line := pid]> m) else None
  | LRel pid => if bool_decide (pid <> 0) then Some (0, filter (fun kv => kv.2 <> pid) m) else None
  | LAsk line => Some (default 0 (m !! line), m)
  end.

Fixpoint exec_lops (os : list lop) : C (list Z) :=
  match os with [] => mret [] | o :: os' => a ← exec_lop o; as' ← exec_lops os'; mret (a :: as') end.
Fixpoint spec_lops (os : list lop) (m : gmap bytes Z) : option (list Z * gmap bytes Z) :=
  match os with [] => Some ([], m) | o :: os' => '(a, m1) ← spec_lop o m; '(as', m2) ← spec_lops os' m1; Some (a :: as', m2) end.

Lemma lop_one_line o m a m' : one_line m -> spec_lop o m = Some (a, m') -> one_line m'.
Proof.
  intros Hone E. destruct o as [line pid|pid|line]; simpl in E.
  - destruct (bool_decide (pid <> 0)); [|done]. case_bool_decide as Hf; [|done]. injection E as _ <-.
    intros x y p Hx Hy. destruct (decide (x = line)) as [->|Hxl], (decide (y = line)) as [->|Hyl]; try done.
    + rewrite lookup_insert_eq in Hx. rewrite lookup_insert_ne in Hy by done. injection Hx as ->. symmetry. by apply (Hf y p).
    + rewrite lookup_insert_eq in Hy. rewrite lookup_insert_ne in Hx by done. injection Hy as ->. by apply (Hf x p).
    + rewrite lookup_insert_ne in Hx, Hy by done. by apply (Hone x y p).
  - case_bool_decide; [|done]. injection E as _ <-. intros x y p [Hx _]%map_lookup_filter_Some [Hy _]%map_lookup_filter_Some.
    by apply (Hone x y p).
  - by injection E as _ <-.
Qed.

(** The lock operations never quit. *)
Definition returns {A} (m : C A) : Prop := forall s, match m s with CRet _ _ => True | _ => False end.

Lemma exec_lop_returns o : returns (exec_lop o).
Proof.
  intros s. destruct o as [line pid|pid|line]; simpl; unfold lock_set, lock_rel, is_locked, find_line, mbind, C_bind, log_msg, emit, modify, get, mret, C_ret.
  - cbn beta iota. cbn [lock upd_evs]. destruct (line_index line (lock s) 0); done.
  - cbn beta iota. destruct (release pid (lock s)); done.
  - cbn beta iota. destruct (line_index line (lock s) 0); done.
Qed.

Lemma exec_lop_sim o m a m' s :
  locks_rep (lock s) m -> one_line m -> spec_lop o m = Some (a, m') ->
  exists s', exec_lop o s = CRet a s' /\ locks_rep (lock s') m'.
Proof.
  intros Hr Hone E.
  assert (H : cwp (exec_lop o) (fun r s' => r = a /\ locks_rep (lock s') m') s).
  { destruct o as [line pid|pid|line]; simpl in E |- *.
    - case_bool_decide; [|done]. case_bool_decide; [|done]. injection E as <- <-. cwp_step. eapply cwp_lock_set; eauto. intros. by cwp_step.
    - case_bool_decide; [|done]. injection E as <- <-. cwp_step. eapply cwp_lock_rel; eauto. intros. by cwp_step.
    - injection E as <- <-. eapply cwp_is_locked; eauto. }
  pose proof (exec_lop_returns o s) as Hret. unfold cwp in H. destruct (exec_lop o s) as [r s'| | | |]; try done.
  destruct H as [-> H]. eauto.
Qed.

Lemma exec_lops_sim os m as_ m' s :
  locks_rep (lock s) m -> one_line m -> spec_lops os m = Some (as_, m') ->
  exists s', exec_lops os s = CRet as_ s' /\ locks_rep (lock s') m'.
Proof.
  revert m as_ s. induction os as [|o os IH]; intros m as_ s Hr Hone E; simpl in E.
  - injection E as <- <-. by exists s.
  - destruct (spec_lop o m) as [[a m1]|] eqn:E1; simpl in E; [|done].
    destruct (spec_lops os m1) as [[as1 m2]|] eqn:E2; simpl in E; [|done]. injection E as <- <-.
    destruct (exec_lop_sim o m a m1 s Hr Hone E1) as (s1 & R1 & Hr1).
    destruct (IH m1 as1 s1 Hr1 (lop_one_line o m a m1 Hone E1) E2) as (s2 & R2 & Hr2).
    exists s2. split; [|done]. cbn [exec_lops]. unfold mbind, C_bind. by rewrite R1, R2.
Qed.

(** ** Reading the files *)

Lemma line_of_length n s : (length (line_of (S n) s) <= length s)%nat /\ (s <> [] -> (0 < length (line_of (S n) s))%nat).
Proof.
  revert s. induction n as [|n IH]; intros [|c s]; simpl; try lia; [split; [lia|done]| |split; [lia|done]|].
  - destruct (is_newline c); simpl; lia.
  - destruct (is_newline c); simpl; [lia|]. specialize (IH s). simpl in IH. lia.
Qed.

Lemma fgets_pos content pos line pos' :
  0 <= pos -> fgets content pos = Some (line, pos') -> pos < pos' <= Z.of_nat (length content).
Proof.
  intros Hp. unfold fgets. destruct (drop (Z.to_nat pos) content) as [|c s] eqn:E; [done|]. intros H.
  assert (E2 : pos' = pos + Z.of_nat (length (line_of (Z.to_nat (MAXLINE - 1)) (c :: s)))) by congruence.
  pose proof (f_equal length E) as El. rewrite length_drop in El. rewrite length_cons in El.
  destruct (line_of_length 4094 (c :: s)) as [H1 H2]. specialize (H2 ltac:(done)). rewrite length_cons in H1.
  change (S 4094) with (Z.to_nat (MAXLINE - 1)) in H1, H2. lia.
Qed.

Definition sys_content (s : cst) : bytes := default [] (fsys s).
Definition sys_pos (s : cst) : Z := default 0 (fpsys s).

Lemma cwp_sys_next Q s :
  0 <= sys_pos s ->
  (forall p, 0 <= p -> Q (-1) (upd_fpsys (Some p) s)) ->
  (forall p sys, sys_pos s < p <= Z.of_nat (length (sys_content s)) -> Q p (upd_systems sys (upd_fpsys (Some p) s))) ->
  cwp sys_next Q s.
Proof.
  intros Hp HQ1 HQ2.
  assert (Hloop : forall fuel content pos, content = sys_content s -> sys_pos s <= pos -> (length content - Z.to_nat pos < fuel)%nat ->
    cwp (sys_next_loop fuel content pos) Q s).
  { induction fuel as [|fuel IH]; intros content pos Hc Hpos Hf; [lia|]. cbn [sys_next_loop].
    destruct (fgets content pos) as [[line pos']|] eqn:E; [|cwp_steps; apply HQ1; lia].
    apply fgets_pos in E; [|lia]. destruct (parse_systems (cstring line)); cwp_steps; try (apply IH; [done|lia|lia]).
    apply HQ2. rewrite <- Hc. lia. }
  unfold sys_next. cwp_steps. unfold sys_content, sys_pos in *.
  destruct (fpsys s) as [fp|]; destruct (fsys s) as [c|]; cwp_steps; apply Hloop; simpl; try done; try lia.
Qed.

(** [dev_find] touches the Devices file, the structure and the message. *)
Definition dev_frame (s s' : cst) : Prop := exists fp dev msg, s' = upd_errmsg msg (upd_devices dev (upd_fpdev fp s)).

Lemma dev_frame_refl s : dev_frame s s.
Proof. exists (fpdev s), (devices s), (errmsg s). by destruct s. Qed.
Lemma dev_frame_trans s1 s2 s3 : dev_frame s1 s2 -> dev_frame s2 s3 -> dev_frame s1 s3.
Proof. intros (f & d & e & ->) (f' & d' & e' & ->). by exists f', d', e'. Qed.

Definition dev_pos (s : cst) : Z := default 0 (fpdev s).
Definition dev_content (s : cst) : bytes := default [] (fdev s).

Lemma cwp_dev_next Q s :
  0 <= dev_pos s ->
  (forall s', dev_frame s s' -> 0 <= dev_pos s' -> Q (-1) s') ->
  (forall s', dev_frame s s' -> dev_pos s < dev_pos s' <= Z.of_nat (length (dev_content s)) -> Q 0 s') ->
  cwp dev_next Q s.
Proof.
  intros Hp HQ1 HQ2.
  assert (Hloop : forall fuel content pos, content = dev_content s -> dev_pos s <= pos -> (length content - Z.to_nat pos < fuel)%nat ->
    cwp (dev_next_loop fuel content pos) Q s).
  { induction fuel as [|fuel IH]; intros content pos Hc Hpos Hf; [lia|]. cbn [dev_next_loop].
    destruct (fgets content pos) as [[line pos']|] eqn:E.
    - apply fgets_pos in E; [|lia]. destruct (parse_devices (cstring line)) as [| | |r]; cwp_steps; try (apply IH; [done|lia|lia]).
      apply HQ2; [exists (Some pos'), r, (errmsg s); by destruct s|]. rewrite <- Hc. unfold dev_pos in *. simpl. lia.
    - cwp_steps. apply HQ1; [exists (Some pos), (devices s), (errmsg s); by destruct s|]. unfold dev_pos. simpl. lia. }
  unfold dev_next. cwp_steps. unfold dev_content, dev_pos in *.
  destruct (fpdev s) as [fp|]; destruct (fdev s) as [c|]; cwp_steps; apply Hloop; simpl; try done; try lia.
Qed.

Lemma cwp_set_errmsg m Q s : Q tt (upd_errmsg m s) -> cwp (set_errmsg m) Q s.
Proof. intros HQ. unfold set_errmsg. by case_if. Qed.

Lemma cwp_dev_find sys Q s :
  (forall s', dev_frame s s' -> Q (-1) s') ->
  (forall s', dev_frame s s' -> s_type sys = d_type (devices s') -> s_class sys = d_class (devices s') -> Q 0 s') ->
  cwp (dev_find sys) Q s.
Proof.
  intros HQ1 HQ2.
  assert (Hloop : forall fuel s1, dev_frame s s1 -> 0 <= dev_pos s1 -> (length (dev_content s1) - Z.to_nat (dev_pos s1) < fuel)%nat ->
    cwp (dev_find_loop fuel sys) Q s1).
  { induction fuel as [|fuel IH]; intros s1 Hfr Hpos Hf; [lia|]. cbn [dev_find_loop]. cwp_step. apply cwp_dev_next; [done| |].
    - intros s2 Hfr2 Hp2. simpl. cwp_step. apply cwp_set_errmsg. cwp_step. apply HQ1. eapply dev_frame_trans; [exact Hfr|].
      destruct Hfr2 as (f & d & e & ->). eexists f, d, _. reflexivity.
    - intros s2 Hfr2 Hp2. change (0 <? 0) with false. cbn iota. cwp_steps. pose proof (dev_frame_trans _ _ _ Hfr Hfr2) as Hfr'.
      match goal with |- cwp (if ?b then _ else _) _ _ => destruct b eqn:Eb end.
      + apply andb_true_iff in Eb as [E1%bool_decide_eq_true E2%bool_decide_eq_true]. cwp_step. by apply HQ2.
      + assert (Hc : dev_content s2 = dev_content s1) by (by destruct Hfr2 as (f & d & e & ->)).
        apply IH; [done|lia|rewrite Hc; lia]. }
  unfold dev_find, dev_rew. cwp_steps. apply Hloop.
  - destruct (fpdev s) eqn:E; [exists (Some 0), (devices s), (errmsg s)|exists None, (devices s), (errmsg s)]; by destruct s.
  - unfold dev_pos. simpl. destruct (fpdev s); simpl; lia.
  - unfold dev_content. simpl. lia.
Qed.

(** ** [request] *)

Lemma cwp_DEBUG m args Q s : (forall ev, Q tt (upd_evs ev s)) -> cwp (DEBUG m args) Q s.
Proof. intros HQ. unfold DEBUG. cwp_steps. destruct (Debug s); cwp_step; [apply HQ|]. specialize (HQ (evs s)). by destruct s. Qed.

Lemma cwp_the_client i Q s : (forall c, client s !! i = Some c -> Q c s) -> cwp (the_client i) Q s.
Proof. intros HQ. unfold the_client. cwp_steps. destruct (client s !! i) eqn:E; cwp_steps. by apply HQ. Qed.

(** What [request] looks for: the client's system name and speed. *)
Record wants (i : nat) (name sp : bytes) (s : cst) : Prop := {
  w_client : forall c, client s !! i = Some c -> c_sysname c = name /\ c_speed c = sp;
  w_pos : 0 <= sys_pos s
}.

(** A child was started on a line nobody held, which it holds now. *)
Definition started (i : nat) (name sp : bytes) (m : gmap bytes Z) (fs : list Z) (s : cst) : Prop :=
  exists pid fs', fs = pid :: fs' /\ forks s = fs' /\ 0 < pid /\
    m !! d_line (devices s) = None /\ locks_rep (lock s) (<[d_line (devices s) := pid]> m) /\
    s_name (systems s) = name /\ (sp = [] \/ sp = s_class (systems s)) /\
    s_type (systems s) = d_type (devices s) /\ s_class (systems s) = d_class (devices s) /\
    forall c, client s !! i = Some c -> c_pid c = pid.

Lemma alter_client (f : Client -> Client) (i : nat) (l : list Client) c : alter f i l !! i = Some c -> exists c0, l !! i = Some c0 /\ c = f c0.
Proof. rewrite list_lookup_alter_eq. intros H. apply fmap_Some in H as (c0 & -> & ->). eauto. Qed.

Lemma wants_alter i name sp f s :
  wants i name sp s -> (forall c, c_sysname (f c) = c_sysname c /\ c_speed (f c) = c_speed c) ->
  wants i name sp (upd_client (alter f i (client s)) s).
Proof.
  intros [Hc Hp] Hf. split; [|exact Hp]. intros c Hi. simpl in Hi. apply alter_client in Hi as (c0 & H0 & ->).
  destruct (Hf c0) as [-> ->]. by apply Hc.
Qed.

(** Taking a free line. *)
Lemma cwp_take_line i name sp m fs d s :
  devices s = d -> locks_rep (lock s) m -> forks s = fs -> Forall (fun p => p <> 0) fs -> m !! d_line (devices s) = None ->
  s_name (systems s) = name -> (sp = [] \/ sp = s_class (systems s)) ->
  s_type (systems s) = d_type (devices s) -> s_class (systems s) = d_class (devices s) ->
  cwp (child ← fork; on_client i (set_cpid child);;
       if child <? 0 then log_sys "fork error" []
       else emit (EFork child (d_line d));; lock_set (d_line d) child;; mret true)
    (fun r s' => r = true /\ started i name sp m fs s') s.
Proof.
  intros <- Hr Hfk Hfs Hm Hn Hsp Ht Hcl. cwp_step. unfold cwp at 1, fork. rewrite Hfk. destruct fs as [|pid fs].
  - unfold on_client. cwp_steps. simpl. done.
  - apply Forall_cons in Hfs as [Hp _]. unfold on_client. cwp_steps. case_if; [cwp_steps|].
    cwp_steps. eapply cwp_lock_set; [exact Hr|done|]. intros s' Hr' (l & n & ev & Es). cwp_step. split; [done|].
    exists pid, fs. subst s'. simpl in *. repeat (split; [done || lia|]). intros c Hi. apply alter_client in Hi as (c0 & _ & ->). done.
Qed.

Lemma cwp_request_loop fuel i name sp m fs s :
  locks_rep (lock s) m -> forks s = fs -> Forall (fun p => p <> 0) fs -> wants i name sp s ->
  (length (sys_content s) - Z.to_nat (sys_pos s) < fuel)%nat ->
  cwp (request_loop fuel i) (fun r s' => if (r : bool) then started i name sp m fs s'
    else locks_rep (lock s') m /\ forks s' = fs) s.
Proof.
  revert s. induction fuel as [|fuel IH]; intros s Hr Hfk Hfs W Hfuel; [lia|]. cbn [request_loop]. cwp_step.
  apply cwp_sys_next; [apply W| |].
  - intros p Hp. unfold on_client. cwp_steps. by change (-1 <? 0) with true.
  - intros p sys Hp. unfold on_client. cwp_steps. destruct (Z.ltb_spec p 0); [destruct W; lia|].
    set (s1 := upd_client _ _). assert (W1 : wants i name sp s1).
    { apply (wants_alter i name sp (set_sysftell p) (upd_systems sys (upd_fpsys (Some p) s))); [|done].
      destruct W as [Wc Wp]. split; [exact Wc|]. unfold sys_pos. simpl. lia. }
    assert (H1 : lock s1 = lock s /\ forks s1 = forks s /\ sys_content s1 = sys_content s /\ sys_pos s1 = p /\ systems s1 = sys) by done.
    destruct H1 as (Hl1 & Hfk1 & Hc1 & Hp1 & Hs1). clearbody s1. cwp_step. apply cwp_the_client. intros c Hc.
    destruct (w_client _ _ _ _ W1 c Hc) as [Hnm Hspd]. cwp_steps. rewrite Hs1.
    assert (Hnext : forall s2, lock s2 = lock s1 \/ (exists l n, locks_rep l m /\ lock s2 = l /\ n = lock_size s2) ->
      forks s2 = fs -> wants i name sp s2 -> sys_content s2 = sys_content s1 -> sys_pos s2 = sys_pos s1 ->
      cwp (request_loop fuel i) (fun r s' => if (r : bool) then started i name sp m fs s' else locks_rep (lock s') m /\ forks s' = fs) s2).
    { intros s2 Hl2 Hf2 W2 Hc2 Hp2. apply IH; [|done|done|done|rewrite Hc2, Hp2, Hc1, Hp1; destruct W; lia].
      destruct Hl2 as [-> | (l & n & Hl & -> & _)]; [by rewrite Hl1|done]. }
    case_bool_decide as Hname; [|by apply Hnext; [left| rewrite Hfk1| | |]]. cbn [negb].
    destruct (negb (bool_decide (c_speed c = [])) && negb (bool_decide (c_speed c = s_class sys))) eqn:Esp;
      [by apply Hnext; [left|rewrite Hfk1| | |]|].
    assert (Hsp : sp = [] \/ sp = s_class sys).
    { rewrite <- Hspd. apply andb_false_iff in Esp as [E%negb_false_iff%bool_decide_eq_true|E%negb_false_iff%bool_decide_eq_true]; auto. }
    cwp_step. apply cwp_DEBUG. intros ev. cwp_steps. apply cwp_dev_find.
    + intros s2 (f & d & e & ->). simpl. cwp_step. simpl. by rewrite Hl1, Hfk1.
    + intros s2 (f & d & e & ->) Hty Hcl. change (0 <? 0) with false. cbn iota. cwp_steps. apply cwp_DEBUG. intros ev'.
      simpl in Hty, Hcl. cwp_step. eapply cwp_is_locked; [simpl; rewrite Hl1; exact Hr|]. intros s3 Hr3 (l & n & ev2 & ->). simpl in Hr3.
      repeat match goal with |- context [devices ?x] => change (devices x) with d end.
      set (s3 := upd_evs ev2 _).
      assert (H3 : lock s3 = l /\ forks s3 = fs /\ systems s3 = sys /\ devices s3 = d /\ sys_content s3 = sys_content s1 /\ sys_pos s3 = sys_pos s1)
        by (unfold s3; simpl; repeat split; congruence).
      assert (W3 : wants i name sp s3).
      { destruct W1 as [Wc Wp]. split; [|exact Wp]. simpl. intros c1 Hi. apply alter_client in Hi as (c0 & H0 & ->). exact (Wc c0 H0). }
      destruct H3 as (Hl3 & Hf3 & Hs3 & Hd3 & Hc3 & Hp3). clearbody s3.
      destruct (Z.eqb_spec (default 0 (m !! d_line d)) 0) as [Hz|Hz]; cbn [negb].
      * eapply cwp_mono; [apply (cwp_take_line i name sp m fs d s3); try congruence|].
        -- rewrite Hd3. destruct (m !! d_line d) as [p0|] eqn:Em; [|done]. simpl in Hz. subst p0. destruct Hr as [_ Hh]. rewrite Hh in Em.
           destruct (Z.eqb_spec (held (lock s) (d_line d)) 0); congruence.
        -- by intros r s4 [-> H4].
      * cwp_step. apply cwp_set_errmsg. apply Hnext; simpl; try done; [right; rewrite Hl3; eauto|]. destruct W3 as [Wc Wp]. by split.
Qed.

Lemma cwp_request i name sp m fs s :
  locks_rep (lock s) m -> forks s = fs -> Forall (fun p => p <> 0) fs ->
  (forall c, client s !! i = Some c -> c_sysname c = name /\ c_speed c = sp) ->
  cwp (request i) (fun r s' => (r = 0 /\ started i name sp m fs s') \/ (r = -1 /\ locks_rep (lock s') m /\ forks s' = fs)) s.
Proof.
  intros Hr Hfk Hfs Hc. unfold request. cwp_step. apply cwp_set_errmsg. cwp_step. apply cwp_the_client. intros c Hi. cwp_step.
  assert (Hposn : cwp (sys_posn (c_sysftell c)) (fun _ s1 => 0 <= sys_pos s1 /\ exists fp, s1 = upd_fpsys fp (upd_errmsg [] s)) (upd_errmsg [] s)).
  { unfold sys_posn, sys_rew. case_if.
    - cwp_steps. split; [unfold sys_pos; simpl; destruct (fpsys s); simpl; lia|eauto].
    - cwp_steps. simpl. destruct (fpsys s); cwp_steps. case_if; cwp_steps. split; [done|eauto]. }
  eapply cwp_mono; [exact Hposn|]. intros [] s1 [Hp1 [fp ->]]. cwp_steps.
  eapply cwp_mono; [apply (cwp_request_loop _ i name sp m fs)|]; try done.
  { unfold sys_content. simpl. lia. }
  intros [] s2 H2; cwp_steps; [by left|]. destruct H2 as [Hl2 Hf2]. apply cwp_the_client. intros c2 _. cwp_steps.
  assert (Hmsg : forall s3, (exists e, s3 = upd_errmsg e s2) -> locks_rep (lock s3) m /\ forks s3 = fs) by (by intros s3 [e ->]).
  case_if; [apply cwp_set_errmsg; cwp_step; right; split; [done|]; apply Hmsg; eauto|].
  case_bool_decide; [apply cwp_set_errmsg|]; cwp_step; right; (split; [done|]); apply Hmsg; [eauto|]. exists (errmsg s2). by destruct s2.
Qed.

(** ** Expecting a string *)

(** The line has [l] to read and the alarm has not gone off. *)
Definition at_in (s : cst) (l : list tin) : Prop := caught_alrm s = false /\ ttyin s = l.

Lemma at_in_debug m args s l : at_in s l -> exists s', DEBUG m args s = CRet tt s' /\ at_in s' l.
Proof. intros H. unfold DEBUG, mbind, C_bind, get. destruct (Debug s); eauto. Qed.

Lemma exp_read_byte s c r : at_in s (TByte c :: r) -> exists s', exp_read s = CRet (1, Some c) s' /\ at_in s' r.
Proof.
  intros [Ha Hi]. unfold exp_read, mbind, C_bind, get. cbn beta iota. rewrite Ha, Hi. unfold modify, DEBUG_NONL, mbind, C_bind, get.
  cbn beta iota. destruct (Debug _); eexists; split; reflexivity || done.
Qed.

Lemma read_at_byte s w y j c r : at_in s (TByte c :: r) ->
  exists s', read_at (w ++ y :: j) (Z.of_nat (length w)) s = CRet (Some (w ++ c :: j)) s' /\ at_in s' r.
Proof.
  intros H. destruct (exp_read_byte s c r H) as (s' & E & H'). exists s'. split; [|done]. unfold read_at, mbind, C_bind. rewrite E.
  change (1 <? 0) with false. cbn iota. case_if; [|rewrite length_app in *; simpl in *; lia]. by rewrite Nat2Z.id, insert_middle.
Qed.

Lemma read_more_bytes t s w j r :
  at_in s (map TByte t ++ r) -> (length t <= length j)%nat ->
  exists s', read_more (length t) (w ++ j) (Z.of_nat (length w)) s = CRet (Some (w ++ t ++ drop (length t) j)) s' /\ at_in s' r.
Proof.
  revert s w j. induction t as [|c t IH]; intros s w j H Hl; cbn [read_more length]; [by exists s|].
  destruct j as [|y j]; [simpl in Hl; lia|]. destruct (read_at_byte s w y j c _ H) as (s1 & E & H1). unfold mbind, C_bind. rewrite E.
  destruct (IH s1 (w ++ [c]) j H1) as (s2 & E2 & H2); [simpl in Hl; lia|].
  rewrite length_app, <- app_assoc in E2. simpl length in E2. replace (Z.of_nat (length w) + 1) with (Z.of_nat (length w + 1)) by lia.
  exists s2. split; [|done]. simpl in E2 |- *. rewrite E2. by rewrite <- app_assoc.
Qed.

(** Skipping to the first byte [x]. *)
Lemma skip_to_byte a x r fuel c s :
  at_in s (map TByte (a ++ [x]) ++ r) -> x ∉ a -> (length a < fuel)%nat ->
  exists s', skip_to fuel x c s = CRet (Some x) s' /\ at_in s' r.
Proof.
  revert fuel c s. induction a as [|y a IH]; intros fuel c s H Hx Hf; (destruct fuel as [|fuel]; [simpl in Hf; lia|]); cbn [skip_to].
  - destruct (exp_read_byte s x r H) as (s' & E & H'). exists s'. split; [|done]. unfold mbind, C_bind. rewrite E. simpl.
    by rewrite Z.eqb_refl.
  - destruct (exp_read_byte s y _ H) as (s1 & E & H1). apply not_elem_of_cons in Hx as [Hne Hx].
    destruct (IH fuel y s1 H1 Hx) as (s2 & E2 & H2); [simpl in Hf; lia|]. exists s2. split; [|done]. unfold mbind, C_bind. rewrite E.
    simpl. destruct (Z.eqb_spec y x); [congruence|]. exact E2.
Qed.

Lemma same_at_prefix e w j : length w = length e -> same_at (w ++ j) e = Some (bool_decide (w = e)).
Proof.
  revert w. induction e as [|x e IH]; intros [|c w] Hl; try done; [by rewrite bool_decide_true; [destruct j|]|]. simpl in Hl |- *. destruct (Z.eqb_spec c x) as [->|Hne].
  - rewrite IH by lia. f_equal. destruct (decide (w = e)) as [->|Hwe]; [by rewrite !bool_decide_true|].
    rewrite !bool_decide_false by congruence. done.
  - rewrite bool_decide_false by congruence. done.
Qed.

(** The window slides over [t] = a2 ++ e; it starts [k] bytes in. *)
Lemma match_loop_finds e a2 b r fuel k w j s :
  e <> [] -> (forall a' b', a2 ++ e = a' ++ e ++ b' -> b' = []) ->
  length k = length a2 \/ (length k < length a2)%nat ->
  a2 ++ e = k ++ w ++ b -> length w = length e -> (length b <= length j)%nat ->
  at_in s (map TByte b ++ r) -> (length b < fuel)%nat ->
  exists s', match_loop fuel e (k ++ w ++ j) (Z.of_nat (length k + length e) - 1) (Z.of_nat (length k)) s = CRet 0 s' /\ at_in s' r.
Proof.
  intros He Hmin. revert k w b j s. induction fuel as [|fuel IH]; intros k w b j s Hk Ht Hw Hj Hs Hf; [lia|]. cbn [match_loop].
  rewrite Nat2Z.id, drop_app_length, same_at_prefix by done. case_bool_decide as Hwe.
  - subst w. pose proof (Hmin k b Ht) as ->. by exists s.
  - destruct b as [|c b].
    { exfalso. apply Hwe. rewrite app_nil_r in Ht. apply (f_equal (drop (length k))) in Ht as Hd. rewrite drop_app_length in Hd.
      assert (Hlk : length k = length a2) by (apply (f_equal length) in Ht; rewrite !length_app in Ht; lia).
      rewrite Hlk, drop_app_length in Hd. congruence. }
    destruct j as [|y j]; [simpl in Hj; lia|]. destruct (read_at_byte s (k ++ w) y j c _ Hs) as (s1 & E & H1).
    rewrite <- !app_assoc in E. rewrite length_app, Hw in E.
    replace (Z.of_nat (length k + length e) - 1 + 1) with (Z.of_nat (length k + length e)) by lia.
    unfold mbind, C_bind. rewrite E. destruct w as [|x w]; [destruct e; done|].
    destruct (IH (k ++ [x]) (w ++ [c]) b j s1) as (s2 & E2 & H2).
    + apply (f_equal length) in Ht. clear -Ht Hw. len.
    + rewrite Ht, <- !app_assoc. done.
    + rewrite length_app. simpl in Hw |- *. lia.
    + simpl in Hj. lia.
    + done.
    + simpl in Hf. lia.
    + exists s2. split; [|done]. rewrite <- !app_assoc in E2. rewrite length_app in E2. simpl app in E2 |- *. simpl length in E2.
      replace (Z.of_nat (length k) + 1) with (Z.of_nat (length k + 1)) by lia.
      replace (Z.of_nat (length k + length e)) with (Z.of_nat (length k + 1 + length e) - 1) by lia. exact E2.
Qed.

(** The first byte of [e] in a string that ends in [e]. *)
Lemma sync_split x (a : bytes) : exists a1 a2, a = a1 ++ a2 /\ (x ∉ a1) /\ (a2 = [] \/ exists a3, a2 = x :: a3).
Proof.
  induction a as [|y a (a1 & a2 & -> & Hx & H2)]; [exists [], []; split; [done|]; split; [set_solver|by left]|].
  destruct (decide (y = x)) as [->|Hne].
  - exists [], (x :: a1 ++ a2). split; [done|]. split; [set_solver|]. right. eauto.
  - exists (y :: a1), a2. split; [done|]. split; [set_solver|done].
Qed.

Lemma fresh_buf_cons junk : exists j, length j = 4095%nat /\ forall c : Z, <[0%nat := c]> (fresh_buf junk) = c :: j.
Proof.
  assert (Hl : length (fresh_buf junk) = 4096%nat).
  { unfold fresh_buf. rewrite length_take, length_app, length_replicate. unfold MAXLINE. lia. }
  destruct (fresh_buf junk) as [|y j]; [done|]. exists j. split; [simpl in Hl; lia|done].
Qed.

Lemma expect_str_finds junk fuel ptr e a b rest s :
  ptr <> [34; 34] -> unescape ptr ptr = inl e -> e <> [] ->
  ttyin s = map TByte (a ++ e ++ b) ++ rest ->
  (forall a' b', a ++ e = a' ++ e ++ b' -> b' = []) ->
  (length (a ++ e) <= 4096)%nat -> (length (a ++ e) <= fuel)%nat ->
  exists s', expect_str junk fuel ptr s = CRet 0 s' /\ ttyin s' = map TByte b ++ rest.
Proof.
  intros Hq Hu He Hin Hmin Hlen Hfuel. unfold expect_str. rewrite bool_decide_false, Hu by done.
  destruct e as [|x e]; [done|]. clear He. destruct (sync_split x a) as (a1 & a2 & -> & Hx & H2).
  assert (Ht : exists t, a2 ++ x :: e = x :: t) by (destruct H2 as [-> | (a3 & ->)]; simpl; eauto). destruct Ht as [t Ht].
  assert (Hin' : ttyin s = map TByte (a1 ++ [x]) ++ map TByte (take (length e) t) ++ map TByte (drop (length e) t) ++ map TByte b ++ rest).
  { assert (Hs : (a1 ++ a2) ++ (x :: e) ++ b = (a1 ++ [x]) ++ take (length e) t ++ drop (length e) t ++ b).
    { rewrite (app_assoc (take (length e) t)), take_drop, <- !app_assoc. f_equal. rewrite (app_assoc a2), Ht. done. }
    rewrite Hin, Hs, !map_app, <- !app_assoc. done. }
  assert (Hlt : (length a2 + S (length e) = S (length t))%nat) by (apply (f_equal length) in Ht; rewrite length_app in Ht; exact Ht).
  rewrite !length_app in Hlen, Hfuel. simpl length in Hlen, Hfuel.
  unfold mbind, C_bind, modify. cbn beta iota. cbn [nth]. set (s0 := upd_tty _ _ _ _).
  assert (H0 : at_in s0 (map TByte (a1 ++ [x]) ++ map TByte (take (length e) t) ++ map TByte (drop (length e) t) ++ map TByte b ++ rest)) by (by split).
  clearbody s0. destruct (skip_to_byte a1 x _ fuel 0 s0 H0 Hx) as (s1 & E1 & H1); [lia|]. rewrite E1.
  destruct (fresh_buf_cons junk) as (j & Hj & Ej). rewrite Ej.
  destruct (read_more_bytes (take (length e) t) s1 [x] j _ H1) as (s2 & E2 & H2'); [rewrite length_take; lia|].
  assert (Htk : length (take (length e) t) = length e) by (rewrite length_take; lia). rewrite Htk in E2.
  replace (length (x :: e) - 1)%nat with (length e) by (simpl; lia). simpl app in E2. change (Z.of_nat (length [x])) with 1 in E2. rewrite E2.
  destruct (match_loop_finds (x :: e) a2 (drop (length e) t) (map TByte b ++ rest) fuel [] (x :: take (length e) t) (drop (length e) j) s2)
    as (s3 & E3 & H3); try done.
  - intros a' b' E. apply (Hmin (a1 ++ a') b'). by rewrite <- !app_assoc, E.
  - simpl. lia.
  - simpl app. rewrite Ht. by rewrite take_drop.
  - simpl. lia.
  - rewrite !length_drop. lia.
  - rewrite length_drop. lia.
  - simpl app in E3. change (Z.of_nat (length [] + length (x :: e)) - 1) with (Z.of_nat (length (x :: e)) - 1) in E3.
    change (Z.of_nat (length [])) with 0 in E3. rewrite E3. change (0 <? 0) with false. cbn iota.
    destruct (at_in_debug "\nexpect: got it" [] s3 _ H3) as (s4 & E4 & H4). rewrite E4. exists s4. split; [done|apply H4].
Qed.

(** ** A silent line *)

Lemma exp_read_alarmed s : caught_alrm s = true -> exists s', exp_read s = CRet (wrap_u 64 (-1), None) s' /\ caught_alrm s' = true.
Proof.
  intros Ha. unfold exp_read, mbind, C_bind, get. cbn beta iota. rewrite Ha. unfold DEBUG, mbind, C_bind, get. cbn beta iota.
  destruct (Debug s); eexists; split; done.
Qed.

Lemma exp_read_silent s : at_in s [] -> exists s', exp_read s = CRet (wrap_u 64 (-1), None) s' /\ caught_alrm s' = true.
Proof.
  intros [Ha Hi]. unfold exp_read, mbind, C_bind, get. cbn beta iota. rewrite Ha, Hi. unfold modify, DEBUG, mbind, C_bind, get.
  cbn beta iota. destruct (Debug _); eexists; split; done.
Qed.

(** After the alarm the loop goes round for ever: the failure is a size_t. *)
Lemma skip_to_hangs fuel x c s : c <> x -> caught_alrm s = true -> skip_to fuel x c s = CNoFuel.
Proof.
  revert s. induction fuel as [|fuel IH]; intros s Hc Ha; [done|]. cbn [skip_to]. destruct (exp_read_alarmed s Ha) as (s' & E & Ha').
  unfold mbind, C_bind. rewrite E. cbn [default]. change (default c None) with c. change (wrap_u 64 (-1) <? 0) with false. cbn iota.
  destruct (Z.eqb_spec c x); [done|]. by apply IH.
Qed.

Lemma skip_to_silent a x fuel c s :
  at_in s (map TByte a) -> x ∉ a -> c <> x -> skip_to fuel x c s = CNoFuel.
Proof.
  revert fuel c s. induction a as [|y a IH]; intros fuel c s H Hx Hc; (destruct fuel as [|fuel]; [done|]); cbn [skip_to].
  - destruct (exp_read_silent s H) as (s' & E & Ha). unfold mbind, C_bind. rewrite E. cbn [default]. change (default c None) with c. change (wrap_u 64 (-1) <? 0) with false.
    cbn iota. destruct (Z.eqb_spec c x); [done|]. by apply skip_to_hangs.
  - apply not_elem_of_cons in Hx as [Hne Hx]. destruct (exp_read_byte s y _ H) as (s1 & E & H1). unfold mbind, C_bind. rewrite E.
    simpl. destruct (Z.eqb_spec y x); [congruence|]. by apply IH.
Qed.
