(* ===== verification/CalldTheorems.v ===== *)
(** * CalldTheorems: the properties of the dialer daemon.

    The lock table as a map, the choice of a line for a client, and waiting for
    a string from the modem. *)
From S2P Require Import Prelude Libc Calld CalldOps.
Local Open Scope Z_scope.

(** ** A daemon to try things on *)

Definition client0 : Client := mkClient (-1) 0 0 0 0 0 false NONE [] [].
Definition line1 (l : string) : bytes := str l ++ [10].
Definition systems0 : bytes :=
  line1 "# name time type class phone login" ++ line1 "host1 Any ACU 9600 5551234 in:--in: me" ++ line1 "host2 Any ACU 1200 5559876 in:--in: me".
Definition devices0 : bytes := line1 "ACU cua0 - 9600 hayes" ++ line1 "ACU cua1 - 1200 hayes".
Definition server0 (cs : list Client) (i : list tin) : cst :=
  mkCst cs 0 [] 0 false false NONE None [] [] 5 (mkSystems [] [] [] [] [] []) (mkDevices [] [] [] [] []) (mkDialers None [] [])
    (Some systems0) (Some devices0) (Some []) None None None [3; 5] 5 [501; 502] false i [] [].

Lemma no_locks_rep : locks_rep [] ∅.
Proof. split; [apply NoDup_nil_2|done]. Qed.

(** C11: The lock table is a map from lines to process ids.  A sequence of
    lock_set, lock_rel and is_locked in which a process locks one line and process
    ids are not 0 returns, and every is_locked answers with the process that holds
    the line, or 0: the one that set the lock last, unless it released it. *)
Theorem lock_table_refines os ans m s :
  lock s = [] -> spec_lops os ∅ = Some (ans, m) -> exists s', exec_lops os s = CRet ans s' /\ locks_rep (lock s') m.
Proof. intros Hl. apply exec_lops_sim; [rewrite Hl; apply no_locks_rep|done]. Qed.

Lemma lock_table_refines_witness : exists s',
  exec_lops [LAsk (str "cua0"); LSet (str "cua0") 501; LSet (str "cua1") 502; LRel 501; LAsk (str "cua1"); LAsk (str "cua0")]
    (server0 [] []) = CRet [0; 0; 0; 0; 502; 0] s' /\ locks_rep (lock s') {[str "cua1" := 502]}.
Proof.
  apply (lock_table_refines [LAsk (str "cua0"); LSet (str "cua0") 501; LSet (str "cua1") 502; LRel 501; LAsk (str "cua1"); LAsk (str "cua0")]
    [0; 0; 0; 0; 502; 0]); vm_compute; reflexivity.
Defined.

(** C12: [request] for the client at index [i].  It never runs out of Systems or
    Devices lines to look at in vain for ever, and when it returns 0 it has started
    exactly one child, on a line that no process held and that the child holds
    now; the line's device has the type and class of a Systems entry with the
    name, and if one was given the speed, that the client asked for; the client's
    entry has the child's process id, and no other lock has changed.  When it
    returns -1 no child was started and no lock has changed. *)
Theorem request_locks_line i c m fs s :
  locks_rep (lock s) m -> forks s = fs -> Forall (fun p => p <> 0) fs -> client s !! i = Some c ->
  match request i s with
  | CRet r s' =>
    (r = 0 /\ exists pid fs', fs = pid :: fs' /\ forks s' = fs' /\ 0 < pid /\
      m !! d_line (devices s') = None /\ locks_rep (lock s') (<[d_line (devices s') := pid]> m) /\
      s_name (systems s') = c_sysname c /\ (c_speed c = [] \/ c_speed c = s_class (systems s')) /\
      s_type (systems s') = d_type (devices s') /\ s_class (systems s') = d_class (devices s') /\
      forall c', client s' !! i = Some c' -> c_pid c' = pid) \/
    (r = -1 /\ locks_rep (lock s') m /\ forks s' = fs)
  | CQuit _ | CUndef _ _ => True
  | CExit _ _ | CNoFuel => False
  end.
Proof.
  intros Hr Hf Hfs Hc. apply (cwp_request i (c_sysname c) (c_speed c) m fs s Hr Hf Hfs). intros c' Hc'. rewrite Hc in Hc'.
  by injection Hc' as <-.
Qed.

Definition caller : Client := set_options false NONE (str "1200") (str "host2") (set_fd 5 client0).
Definition before : cst := upd_lock [(str "cua0", 400)] 10 (server0 [caller] []).

Definition held0 : gmap bytes Z := {[str "cua0" := 400]}.

Lemma request_locks_line_witness :
  match request 0 before with
  | CRet r s' =>
    (r = 0 /\ exists pid fs', [501; 502] = pid :: fs' /\ forks s' = fs' /\ 0 < pid /\
      held0 !! d_line (devices s') = None /\ locks_rep (lock s') (<[d_line (devices s') := pid]> held0) /\
      s_name (systems s') = str "host2" /\ (str "1200" = [] \/ str "1200" = s_class (systems s')) /\
      s_type (systems s') = d_type (devices s') /\ s_class (systems s') = d_class (devices s') /\
      forall c', client s' !! 0%nat = Some c' -> c_pid c' = pid) \/
    (r = -1 /\ locks_rep (lock s') held0 /\ forks s' = [501; 502])
  | CQuit _ | CUndef _ _ => True
  | CExit _ _ | CNoFuel => False
  end /\ exists s', request 0 before = CRet 0 s'.
Proof.
  split; [|eexists; vm_compute; reflexivity].
  apply (request_locks_line 0 caller held0 [501; 502] before); [|reflexivity|repeat constructor; lia|reflexivity].
  split; [apply NoDup_singleton|]. intros line. simpl. rewrite held_cons. destruct (decide (line = str "cua0")) as [->|Hne].
  - rewrite bool_decide_true by done. apply lookup_singleton_eq.
  - rewrite bool_decide_false by done. by apply lookup_singleton_ne.
Defined.

(** Waiting for a string finds it.  When the bytes from the modem contain the
    expect string (escapes replaced) within the first 4096 bytes, expect_str
    returns 0 having read exactly up to the end of the string's first occurrence,
    even when the string's beginning occurs several times before. *)
Lemma expect_str_first_match junk fuel ptr e a b rest s :
  ptr <> [34; 34] -> unescape ptr ptr = inl e -> e <> [] ->
  ttyin s = map TByte (a ++ e ++ b) ++ rest ->
  (forall a' b', a ++ e = a' ++ e ++ b' -> b' = []) ->
  (length (a ++ e) <= 4096)%nat -> (length (a ++ e) <= fuel)%nat ->
  exists s', expect_str junk fuel ptr s = CRet 0 s' /\ ttyin s' = map TByte b ++ rest.
Proof. apply expect_str_finds. Qed.

Lemma expect_str_first_match_witness :
  exists s', expect_str [] 20 (str "aab") (server0 [] (map TByte (str "xaaaab!"))) = CRet 0 s' /\ ttyin s' = [TByte 33].
Proof.
  apply (expect_str_first_match [] 20 (str "aab") (str "aab") (str "xaa") (str "!") []); try done; [|simpl; lia|simpl; lia].
  intros a' b' E. destruct a' as [|c1 [|c2 [|c3 [|c4 a']]]]; try (vm_compute in E; congruence).
  apply (f_equal length) in E. rewrite !length_app in E. simpl in E. lia.
Defined.

(** A modem that stays silent hangs the child.  exp_read's result has type
    size_t, so the test for a negative result never holds: when the bytes that
    arrive before the alarm do not contain the expect string's first character,
    expect_str does not return -1, it never returns. *)
Lemma silent_modem_hangs junk fuel ptr x e a s :
  ptr <> [34; 34] -> unescape ptr ptr = inl (x :: e) -> x <> 0 -> x ∉ a -> ttyin s = map TByte a ->
  expect_str junk fuel ptr s = CNoFuel.
Proof.
  intros Hq Hu Hx Ha Hin. unfold expect_str. rewrite bool_decide_false, Hu by done. unfold mbind, C_bind, modify. cbn beta iota.
  cbn [nth]. rewrite (skip_to_silent a x fuel 0); [done|by split|done|done].
Qed.

Lemma silent_modem_hangs_witness : expect_str [] 1000 (str "login:") (server0 [] (map TByte (str "NO CARRIER"))) = CNoFuel.
Proof.
  apply (silent_modem_hangs [] 1000 (str "login:") 108 (str "ogin:") (str "NO CARRIER")); try done. apply (bool_decide_unpack _). done.
Defined.
