(* ===== verification/Sem.v ===== *)
(** * Sem: apue.2e/lib/semaph.c, semaphores over System V semaphore sets.

    The library gives every semaphore a set of three System V semaphores: [0] is
    the value, [1] counts down the processes that have it open, from BIGCOUNT, and
    [2] is a lock for creation and closing.  Every change is a semop with
    SEM_UNDO, so that the kernel takes it back when a process exits.

    The processes run concurrently, and what they do between two system calls
    touches nothing shared; so a process is a program counter [pc] in front of its
    next system call, each function of semaph.c is a step function on the program
    counters inside it, and a run of the system is a sequence of actions: a process
    calls a function, makes its next system call, or exits. *)
From S2P Require Import Prelude.
Local Open Scope Z_scope.

(** ** System V semaphore sets *)

Definition SEMVMX : Z := 32767.  (* the largest value of a semaphore *)
Definition SEMAEM : Z := 32767.  (* the largest adjust-on-exit value *)
Inductive serrno := EINVAL | EIDRM | ERANGE | EINTR | ENOSPC.

(** What can go wrong in a system call whatever the sets are: semget is refused (no
    permission, tables full), a semop is interrupted by a signal that is caught, or
    finds no room for its undo entries. *)
Inductive fault := Refused | Interrupted | NoRoom.

(** The members of a set of three. *)
Record three := mk3 { m0 : Z; m1 : Z; m2 : Z }.
Definition member (n : nat) (t : three) : Z := match n with 0%nat => m0 t | 1%nat => m1 t | _ => m2 t end.
Definition set_member (n : nat) (v : Z) (t : three) : three :=
  match n with
  | 0%nat => mk3 v (m1 t) (m2 t)
  | 1%nat => mk3 (m0 t) v (m2 t)
  | _ => mk3 (m0 t) (m1 t) v
  end.
Definition zero3 : three := mk3 0 0 0.

(** A set: its key, the values, and the adjust-on-exit values of the processes. *)
Record semset := mkSet { s_key : Z; s_val : three; s_adj : gmap nat three }.
Definition adj (s : semset) (p : nat) : three := default zero3 (s_adj s !! p).

Record kernel := mkKernel { k_sets : gmap Z semset; k_next : Z }.
Definition set_sets (v : gmap Z semset) (k : kernel) : kernel := mkKernel v (k_next k).

(** struct sembuf. *)
Record sembuf := mkOp { sem_num : nat; sem_opval : Z; sem_undo : bool }.

Inductive semop_result := SDone (k : kernel) | SWait | SFail (e : serrno).

(** The operations of one semop on the values and the caller's adjust values, one
    after the other; a step that cannot be made now makes the whole call wait. *)
Inductive ops_result := ODone (v a : three) | OWait | OFail.
Fixpoint do_ops (ops : list sembuf) (v a : three) : ops_result :=
  match ops with
  | [] => ODone v a
  | o :: ops' =>
    let x := member (sem_num o) v in
    let x' := x + sem_opval o in
    let y' := member (sem_num o) a - sem_opval o in
    if sem_opval o =? 0 then if x =? 0 then do_ops ops' v a else OWait
    else if x' <? 0 then OWait
    else if SEMVMX <? x' then OFail
    else if sem_undo o then
      if (y' <? - SEMAEM - 1) || (SEMAEM <? y') then OFail
      else do_ops ops' (set_member (sem_num o) x' v) (set_member (sem_num o) y' a)
    else do_ops ops' (set_member (sem_num o) x' v) a
  end.

(** semop by process [p]; [waiting]: the call has been waiting, so that a set that
    is gone has been removed meanwhile; [f]: what goes wrong, if anything. *)
Definition semop (p : nat) (f : option fault) (waiting : bool) (id : Z) (ops : list sembuf) (k : kernel) : semop_result :=
  match f with
  | Some Interrupted => SFail EINTR
  | Some NoRoom => SFail ENOSPC
  | _ =>
    match k_sets k !! id with
    | None => SFail (if waiting then EIDRM else EINVAL)
    | Some s =>
      match do_ops ops (s_val s) (adj s p) with
      | ODone v a => SDone (set_sets (<[id := mkSet (s_key s) v (<[p := a]> (s_adj s))]> (k_sets k)) k)
      | OWait => SWait
      | OFail => SFail ERANGE
      end
    end
  end.

(** The set with a key. *)
Definition find_key (key : Z) (k : kernel) : option Z :=
  fst <$> find (fun x => s_key (snd x) =? key) (map_to_list (k_sets k)).

(** semget with IPC_CREAT; a new set has the value 0 in all members. *)
Definition semget_create (key : Z) (k : kernel) : Z * kernel :=
  match find_key key k with
  | Some id => (id, k)
  | None => (k_next k, mkKernel (<[k_next k := mkSet key zero3 ∅]> (k_sets k)) (k_next k + 1))
  end.

(** semctl: GETVAL, SETVAL (which clears the adjust values of the member in every
    process) and IPC_RMID; [None] when there is no such set. *)
Definition semctl_getval (id : Z) (n : nat) (k : kernel) : option Z :=
  s ← k_sets k !! id; Some (member n (s_val s)).
Definition semctl_setval (id : Z) (n : nat) (v : Z) (k : kernel) : option kernel :=
  s ← k_sets k !! id;
  Some (set_sets (<[id := mkSet (s_key s) (set_member n v (s_val s)) (set_member n 0 <$> s_adj s)]> (k_sets k)) k).
Definition semctl_rmid (id : Z) (k : kernel) : option kernel :=
  _ ← k_sets k !! id; Some (set_sets (delete id (k_sets k)) k).

(** Exit of process [p]: its adjust values are added, within the range of values. *)
Definition clamp (z : Z) : Z := Z.max 0 (Z.min SEMVMX z).
Definition undo_set (p : nat) (s : semset) : semset :=
  let a := adj s p in
  let v := s_val s in
  mkSet (s_key s) (mk3 (clamp (m0 v + m0 a)) (clamp (m1 v + m1 a)) (clamp (m2 v + m2 a))) (delete p (s_adj s)).
Definition exit_undo (p : nat) (k : kernel) : kernel := set_sets (undo_set p <$> k_sets k) k.

(** ** semaph.c *)

Definition BIGCOUNT : Z := 10000.
Definition IPC_PRIVATE : Z := 0.

Definition op_lock : list sembuf := [mkOp 2 0 false; mkOp 2 1 true].
Definition op_endcreate : list sembuf := [mkOp 1 (-1) true; mkOp 2 (-1) true].
Definition op_open : list sembuf := [mkOp 1 (-1) true].
Definition op_close : list sembuf := [mkOp 2 0 false; mkOp 2 1 true; mkOp 1 1 true].
Definition op_unlock : list sembuf := [mkOp 2 (-1) true].
Definition op_op (value : Z) : list sembuf := [mkOp 0 value true].

(** Where a process is: outside the library, in front of a system call of one of
    the functions ([w]: that call is waiting already), or ended, with the message
    it left and the errno of the failed call the message reports, if there is one. *)
Inductive pc :=
  | Idle
  | CreateGet (key initval : Z)
  | CreateLock (w : bool) (id key initval : Z)
  | CreateGetval (id initval : Z)
  | CreateSet0 (id initval : Z)
  | CreateSet1 (id : Z)
  | CreateEnd (w : bool) (id : Z)
  | OpenGet (key : Z)
  | OpenDec (w : bool) (id : Z)
  | CloseLock (w : bool) (id : Z)
  | CloseGetval (id : Z)
  | CloseRm (id : Z)
  | CloseUnlock (w : bool) (id : Z)
  | Op (w : bool) (id value : Z)
  | Rm (id : Z)
  | Dead (why : string) (e : option serrno).

(** A process: where it is, what its last call returned, and what its user knows:
    the ids it has opened and not closed, and the units it has taken with sem_wait
    and not given back, each as often as it has them. *)
Record proc := mkProc { p_pc : pc; p_ret : Z; p_open : list Z; p_held : list Z }.

(** The next program counter, a return, or the end of the process. *)
Inductive next :=
  | Goto (c : pc)
  | Return (r : Z)
  | Opened (id : Z)  (* return the id: the semaphore is open now *)
  | Closed (id : Z) (c : pc)  (* the process counter has been incremented *)
  | Took (id value : Z)  (* return from sem_op *)
  | Die (why : string) (e : option serrno).

(** One system call: [None] when it waits. *)
Definition step_result : Type := option (next * kernel).

(** A semop that goes on with [c k'] when it is done, waits in [wait], or fails. *)
Definition after_semop (r : semop_result) (w : bool) (k : kernel) (wait : pc) (c : next) (fail : serrno -> next)
    : step_result :=
  match r with
  | SDone k' => Some (c, k')
  | SWait => if w then None else Some (Goto wait, k)
  | SFail e => Some (fail e, k)
  end.

(** The beginning of [sem_create] and [sem_open]. *)
Definition bad_key (key : Z) : bool := (key =? IPC_PRIVATE) || (key =? -1).
Definition sem_create (key initval : Z) : next := if bad_key key then Return (-1) else Goto (CreateGet key initval).
Definition sem_open (key : Z) : next := if bad_key key then Return (-1) else Goto (OpenGet key).

(** [sem_create]. *)
Definition sem_create_step (p : nat) (f : option fault) (c : pc) (k : kernel) : step_result :=
  match c with
  | CreateGet key initval =>
    match f with
    | Some _ => Some (Return (-1), k)
    | None => let '(id, k') := semget_create key k in Some (Goto (CreateLock false id key initval), k')
    end
  | CreateLock w id key initval =>
    after_semop (semop p f w id op_lock k) w k (CreateLock true id key initval) (Goto (CreateGetval id initval))
      (fun e => match e with EINVAL => Goto (CreateGet key initval) | _ => Die "can't lock" (Some e) end)
  | CreateGetval id initval =>
    match semctl_getval id 1 k with
    | None => Some (Die "can't GETVAL" (Some EINVAL), k)
    | Some semval => Some (Goto (if semval =? 0 then CreateSet0 id initval else CreateEnd false id), k)
    end
  | CreateSet0 id initval =>
    match semctl_setval id 0 initval k with
    | None => Some (Die "can SETVAL[0]" (Some EINVAL), k)
    | Some k' => Some (Goto (CreateSet1 id), k')
    end
  | CreateSet1 id =>
    match semctl_setval id 1 BIGCOUNT k with
    | None => Some (Die "can SETVAL[1]" (Some EINVAL), k)
    | Some k' => Some (Goto (CreateEnd false id), k')
    end
  | CreateEnd w id =>
    after_semop (semop p f w id op_endcreate k) w k (CreateEnd true id) (Opened id) (fun e => Die "can't end create" (Some e))
  | _ => None
  end.

(** [sem_open]. *)
Definition sem_open_step (p : nat) (f : option fault) (c : pc) (k : kernel) : step_result :=
  match c with
  | OpenGet key =>
    match f, find_key key k with
    | None, Some id => Some (Goto (OpenDec false id), k)
    | _, _ => Some (Return (-1), k)
    end
  | OpenDec w id =>
    after_semop (semop p f w id op_open k) w k (OpenDec true id) (Opened id) (fun e => Die "can't open" (Some e))
  | _ => None
  end.

(** [sem_close], with the call of [sem_rm] in it. *)
Definition sem_close_step (p : nat) (f : option fault) (c : pc) (k : kernel) : step_result :=
  match c with
  | CloseLock w id =>
    after_semop (semop p f w id op_close k) w k (CloseLock true id) (Closed id (CloseGetval id)) (fun e => Die "can't semop" (Some e))
  | CloseGetval id =>
    match semctl_getval id 1 k with
    | None => Some (Die "can't GETVAL" (Some EINVAL), k)
    | Some semval =>
      Some (if BIGCOUNT <? semval then Die "sem[1] > BIGCOUNT" None
            else Goto (if semval =? BIGCOUNT then CloseRm id else CloseUnlock false id), k)
    end
  | CloseUnlock w id =>
    after_semop (semop p f w id op_unlock k) w k (CloseUnlock true id) (Return 0) (fun e => Die "can't unlock" (Some e))
  | _ => None
  end.

(** [sem_rm]. *)
Definition sem_rm_step (c : pc) (k : kernel) : step_result :=
  match c with
  | CloseRm id | Rm id =>
    match semctl_rmid id k with
    | None => Some (Die "can't IPC_RMID" (Some EINVAL), k)
    | Some k' => Some (Return 0, k')
    end
  | _ => None
  end.

(** [sem_op], and [sem_wait] and [sem_signal] which call it. *)
Definition sem_op (id value : Z) : next :=
  if value =? 0 then Die "can't have value == 0" None else Goto (Op false id value).
Definition sem_wait (id : Z) : next := sem_op id (-1).
Definition sem_signal (id : Z) : next := sem_op id 1.
Definition sem_op_step (p : nat) (f : option fault) (c : pc) (k : kernel) : step_result :=
  match c with
  | Op w id value =>
    after_semop (semop p f w id (op_op value) k) w k (Op true id value) (Took id value) (fun e => Die "sem_op error" (Some e))
  | _ => None
  end.

Definition step (p : nat) (f : option fault) (c : pc) (k : kernel) : step_result :=
  match c with
  | Idle | Dead _ _ => None
  | CreateGet _ _ | CreateLock _ _ _ _ | CreateGetval _ _ | CreateSet0 _ _ | CreateSet1 _ | CreateEnd _ _ =>
    sem_create_step p f c k
  | OpenGet _ | OpenDec _ _ => sem_open_step p f c k
  | CloseLock _ _ | CloseGetval _ | CloseUnlock _ _ => sem_close_step p f c k
  | CloseRm _ | Rm _ => sem_rm_step c k
  | Op _ _ _ => sem_op_step p f c k
  end.

(** ** Processes *)

(** Take one occurrence out of a list. *)
Fixpoint drop_one (id : Z) (l : list Z) : list Z :=
  match l with [] => [] | x :: l' => if x =? id then l' else x :: drop_one id l' end.

Definition dead (why : string) (e : option serrno) : proc := mkProc (Dead why e) (-1) [] [].

(** What a transition does to the process and, at its end, to the kernel. *)
Definition advance (p : nat) (n : next) (pr : proc) (k : kernel) : proc * kernel :=
  match n with
  | Goto c => (mkProc c (p_ret pr) (p_open pr) (p_held pr), k)
  | Return r => (mkProc Idle r (p_open pr) (p_held pr), k)
  | Opened id => (mkProc Idle id (id :: p_open pr) (p_held pr), k)
  | Closed id c => (mkProc c (p_ret pr) (drop_one id (p_open pr)) (p_held pr), k)
  | Took id value =>
    (mkProc Idle 0 (p_open pr)
       (if value <? 0 then replicate (Z.to_nat (- value)) id ++ p_held pr
        else Nat.iter (Z.to_nat value) (drop_one id) (p_held pr)), k)
  | Die why e => (dead why e, exit_undo p k)
  end.

Inductive call := CCreate (key initval : Z) | COpen (key : Z) | CClose (id : Z) 
  | COp (id value : Z) | CWait (id : Z) | CSignal (id : Z) | CRm (id : Z).
Definition enter (c : call) : next :=
  match c with
  | CCreate key initval => sem_create key initval
  | COpen key => sem_open key
  | CClose id => Goto (CloseLock false id)
  | COp id value => sem_op id value
  | CWait id => sem_wait id
  | CSignal id => sem_signal id
  | CRm id => Goto (Rm id)
  end.

Record sys := mkSys { kern : kernel; procs : list proc }.
Definition boot (n : nat) : sys := mkSys (mkKernel ∅ 0) (replicate n (mkProc Idle 0 [] [])).

Inductive action := Start (p : nat) (c : call) | Run (p : nat) (f : option fault) | Exit (p : nat).

Definition update (p : nat) (r : proc * kernel) (st : sys) : sys := mkSys r.2 (<[p := r.1]> (procs st)).

(** An action that can happen now: a call from outside the library, a system call
    that does not wait, or the exit of a process. *)
Definition act (a : action) (st : sys) : option sys :=
  match a with
  | Start p c =>
    pr ← procs st !! p;
    match p_pc pr with Idle => Some (update p (advance p (enter c) pr (kern st)) st) | _ => None end
  | Run p f =>
    pr ← procs st !! p;
    '(n, k) ← step p f (p_pc pr) (kern st);
    Some (update p (advance p n pr k) st)
  | Exit p =>
    pr ← procs st !! p;
    match p_pc pr with Dead _ _ => None | _ => Some (update p (dead "exit" None, exit_undo p (kern st)) st) end
  end.

Fixpoint acts (l : list action) (st : sys) : option sys :=
  match l with [] => Some st | a :: l' => st' ← act a st; acts l' st' end.
