(* ===== verification/SemInv.v ===== *)
(** * SemInv: the invariant of semaph.c under every interleaving.

    Processes that follow the library's rules (they use a semaphore between
    sem_create and sem_close, give back what they took, agree on the initial value,
    and are fewer than BIGCOUNT) may be interleaved in any way and may exit at any
    moment.  The invariant relates the three members of every set to what the
    processes are doing. *)
From S2P Require Import Prelude Sem.
Local Open Scope Z_scope.

(** ** Counting *)

Fixpoint occ (id : Z) (l : list Z) : Z := match l with [] => 0 | x :: l' => (if x =? id then 1 else 0) + occ id l' end.

Lemma occ_nonneg id l : 0 <= occ id l.
Proof. induction l as [|x l IH]; simpl; [lia|]. case_if; lia. Qed.

Lemma occ_length id l : occ id l <= Z.of_nat (length l).
Proof. induction l as [|x l IH]; simpl; [lia|]. case_if; lia. Qed.

Lemma occ_drop_one i id l : occ i (drop_one id l) = occ i l - (if (i =? id) && (0 <? occ id l) then 1 else 0).
Proof.
  induction l as [|x l IH]; simpl; [by rewrite andb_false_r|]. pose proof (occ_nonneg id l).
  destruct (Z.eqb_spec x id) as [->|Hx]; simpl.
  - destruct (Z.ltb_spec 0 (1 + occ id l)); [|lia]. rewrite andb_true_r, (Z.eqb_sym i id). case_if; lia.
  - rewrite IH. replace (0 + occ id l) with (occ id l) by lia. lia.
Qed.

Lemma drop_one_length id l : Z.of_nat (length (drop_one id l)) <= Z.of_nat (length l).
Proof. induction l as [|x l IH]; simpl; [lia|]. case_if; simpl; lia. Qed.

Lemma occ_replicate i id n : occ i (replicate n id) = if id =? i then Z.of_nat n else 0.
Proof. induction n as [|n IH]; simpl; [by case_if|]. rewrite IH. case_if; lia. Qed.

Lemma occ_app i a b : occ i (a ++ b) = occ i a + occ i b.
Proof. induction a as [|x a IH]; simpl; lia. Qed.

Lemma occ_drop_many i id n l :
  Z.of_nat n <= occ id l -> occ i (Nat.iter n (drop_one id) l) = occ i l - (if i =? id then Z.of_nat n else 0).
Proof.
  revert i. induction n as [|n IH]; intros i Hn; simpl Nat.iter; [case_if; lia|].
  rewrite occ_drop_one, !IH, Z.eqb_refl by lia. destruct (Z.ltb_spec 0 (occ id l - Z.of_nat n)); [|lia].
  rewrite andb_true_r. case_if; lia.
Qed.

(** ** The invariant *)

(** Between taking and releasing the lock of set [id]. *)
Definition cs (id : Z) (pr : proc) : Z :=
  match p_pc pr with
  | CreateGetval i _ | CreateSet0 i _ | CreateSet1 i | CreateEnd _ i | CloseGetval i | CloseRm i | CloseUnlock _ i =>
    if i =? id then 1 else 0
  | _ => 0
  end.
Definition creating (pr : proc) : Z :=
  match p_pc pr with
  | CreateGet _ _ | CreateLock _ _ _ _ | CreateGetval _ _ | CreateSet0 _ _ | CreateSet1 _ | CreateEnd _ _ => 1
  | _ => 0
  end.
Definition opens (id : Z) (pr : proc) : Z := occ id (p_open pr).
Definition units (id : Z) (pr : proc) : Z := occ id (p_held pr).
Definition load (pr : proc) : Z := Z.of_nat (length (p_open pr)) + creating pr.

Section Inv.
(** The initial value the users of a key agree on. *)
Context (init : Z -> Z).

(** What a process knows about set [id] from where it is: [H] is the number of
    times the set is open. *)
Definition pc_ok (id : Z) (s : semset) (H : Z) (pr : proc) : Prop :=
  match p_pc pr with
  | CreateLock _ i key _ => i = id -> s_key s = key
  | CreateGetval i v => i = id -> v = init (s_key s)
  | CreateSet0 i v => i = id -> v = init (s_key s) /\ m1 (s_val s) = 0 /\ H = 0
  | CreateSet1 i => i = id -> m0 (s_val s) = init (s_key s) /\ m1 (s_val s) = 0 /\ H = 0
  | CreateEnd _ i | CloseGetval i | CloseUnlock _ i => i = id -> m1 (s_val s) = BIGCOUNT - H
  | CloseRm i => i = id -> H = 0
  | _ => True
  end.

Record inv_set (id : Z) (s : semset) (ps : list proc) : Prop := {
  i_lock : m2 (s_val s) = zsum (cs id) ps;
  i_lock1 : m2 (s_val s) <= 1;
  i_count : m1 (s_val s) = BIGCOUNT - zsum (opens id) ps \/ (m1 (s_val s) = 0 /\ zsum (opens id) ps = 0);
  i_value : m1 (s_val s) <> 0 -> m0 (s_val s) + zsum (units id) ps = init (s_key s) /\ 0 <= m0 (s_val s);
  i_adj : forall p pr, ps !! p = Some pr -> adj s p = mk3 (units id pr) (opens id pr) (- cs id pr);
  i_pc : forall p pr, ps !! p = Some pr -> pc_ok id s (zsum (opens id) ps) pr
}.

(** How a process ends: it exits itself, a semop of its is interrupted or finds no
    room for undo entries, or its set is removed while it waits for the lock. *)
Definition ending (why : string) (e : option serrno) : Prop :=
  why = "exit" \/ e = Some EINTR \/ e = Some ENOSPC \/ (why = "can't lock" /\ e = Some EIDRM).

(** What holds of one process, [nextid] being above the ids of the sets. *)
Definition pc_local (nextid : Z) (pr : proc) : Prop :=
  match p_pc pr with
  | CreateGet key v => v = init key
  | CreateLock _ i key v => v = init key /\ i < nextid
  | CloseLock _ i => 0 < opens i pr /\ units i pr = 0
  | Op _ i v => 0 < opens i pr /\ v <> 0 /\ v <= units i pr
  | OpenGet _ | OpenDec _ _ | Rm _ => False
  | Dead why e => ending why e
  | _ => True
  end.

Record inv_proc (k : kernel) (pr : proc) : Prop := {
  l_open : forall id, 0 < opens id pr -> is_Some (k_sets k !! id);
  l_cs : forall id, 0 < cs id pr -> is_Some (k_sets k !! id);
  l_units : forall id, 0 < units id pr -> 0 < opens id pr;
  l_pc : pc_local (k_next k) pr
}.

Record inv (st : sys) : Prop := {
  i_sets : forall id s, k_sets (kern st) !! id = Some s -> id < k_next (kern st) /\ inv_set id s (procs st);
  i_procs : forall p pr, procs st !! p = Some pr -> inv_proc (kern st) pr;
  i_load : zsum load (procs st) < BIGCOUNT
}.

Lemma cs_range id pr : 0 <= cs id pr <= 1.
Proof. unfold cs. destruct (p_pc pr); try lia; case_if; lia. Qed.
Lemma cs_nonneg id pr : 0 <= cs id pr. Proof. apply cs_range. Qed.
Lemma opens_nonneg id pr : 0 <= opens id pr. Proof. apply occ_nonneg. Qed.
Lemma units_nonneg id pr : 0 <= units id pr. Proof. apply occ_nonneg. Qed.
Lemma creating_range pr : 0 <= creating pr <= 1.
Proof. unfold creating. destruct (p_pc pr); lia. Qed.
Lemma opens_load id pr : opens id pr <= load pr.
Proof. unfold opens, load. pose proof (occ_length id (p_open pr)). pose proof (creating_range pr). lia. Qed.

(** A process outside the critical section knows nothing that another one can
    make false. *)
Lemma pc_ok_outside id s s' H H' pr : cs id pr = 0 -> s_key s' = s_key s -> pc_ok id s H pr -> pc_ok id s' H' pr.
Proof.
  unfold cs, pc_ok. intros Hc Hk Hp. destruct (p_pc pr); try done; try (intros ->; by rewrite Z.eqb_refl in Hc).
  intros E. rewrite Hk. by apply Hp.
Qed.

(** One process moves and one set changes with it. *)
Lemma inv_set_step id s s' ps p pr pr' :
  let H' := zsum (opens id) ps - opens id pr + opens id pr' in
  ps !! p = Some pr -> inv_set id s ps -> s_key s' = s_key s ->
  adj s' p = mk3 (units id pr') (opens id pr') (- cs id pr') -> (forall q x, q <> p -> ps !! q = Some x -> adj s' q = adj s q) ->
  m2 (s_val s') = m2 (s_val s) - cs id pr + cs id pr' -> m2 (s_val s') <= 1 ->
  (m1 (s_val s') = BIGCOUNT - H' \/ (m1 (s_val s') = 0 /\ H' = 0)) ->
  (m1 (s_val s') <> 0 -> m0 (s_val s') + (zsum (units id) ps - units id pr + units id pr') = init (s_key s) /\ 0 <= m0 (s_val s')) ->
  (((m0 (s_val s') = m0 (s_val s) \/ 0 < zsum (opens id) ps) /\ m1 (s_val s') = m1 (s_val s) /\ opens id pr' = opens id pr) \/
   cs id pr = 1 \/ m2 (s_val s) = 0) ->
  pc_ok id s' H' pr' ->
  inv_set id s' (<[p := pr']> ps).
Proof.
  intros H' Hp [I1 I2 I3 I4 I5 I6] Hk Ha Hq Hl Hl1 Hc Hv Ho Hpc.
  assert (Hsum : zsum (opens id) (<[p := pr']> ps) = H') by (unfold H'; by rewrite (zsum_insert _ _ _ pr)).
  split; rewrite ?Hsum, ?Hk; [rewrite (zsum_insert _ _ _ pr) by done; lia|done|done| | |].
  - rewrite (zsum_insert _ _ _ pr) by done. exact Hv.
  - intros q x Hx. destruct (decide (q = p)) as [->|Hne].
    + rewrite list_lookup_insert_eq in Hx by (by eapply lookup_lt_Some). injection Hx as <-. exact Ha.
    + rewrite list_lookup_insert_ne in Hx by done. rewrite (Hq q x) by done. by apply I5.
  - intros q x Hx. destruct (decide (q = p)) as [->|Hne].
    + rewrite list_lookup_insert_eq in Hx by (by eapply lookup_lt_Some). injection Hx as <-. exact Hpc.
    + rewrite list_lookup_insert_ne in Hx by done. pose proof (I6 q x Hx) as Hx'.
      destruct Ho as [(E0 & E1 & E2)|Ho].
      * unfold pc_ok in *. rewrite Hk, E1. replace H' with (zsum (opens id) ps) by (unfold H'; lia).
        destruct (p_pc x); try done. intros Ei. destruct (Hx' Ei) as (F0 & F1 & F2). destruct E0 as [E0|E0]; [by rewrite E0|lia].
      * assert (cs id x = 0); [|by eapply pc_ok_outside].
        pose proof (zsum_two (cs id) ps p q pr x (cs_nonneg id) ltac:(done) Hp Hx). pose proof (cs_range id pr).
        pose proof (cs_range id x). lia.
Qed.

(** A set whose members stay as they are, for a process that moves without
    entering or leaving its critical section. *)
Lemma inv_set_same id s ps p pr pr' :
  ps !! p = Some pr -> inv_set id s ps -> cs id pr' = cs id pr -> opens id pr' = opens id pr -> units id pr' = units id pr ->
  pc_ok id s (zsum (opens id) ps) pr' -> inv_set id s (<[p := pr']> ps).
Proof.
  intros Hp Hi Hc Ho Hu Hpc. pose proof Hi as [I1 I2 I3 I4 I5 I6].
  apply (inv_set_step id s s ps p pr); rewrite ?Hc, ?Ho, ?Hu; try done.
  - by apply I5.
  - lia.
  - replace (_ - _ + _) with (zsum (opens id) ps) by lia. exact I3.
  - replace (_ - _ + _) with (zsum (units id) ps) by lia. exact I4.
  - auto.
  - replace (_ - _ + _) with (zsum (opens id) ps) by lia. exact Hpc.
Qed.

Lemma inv_procs_insert k (ps : list proc) p pr' :
  (forall q x, ps !! q = Some x -> inv_proc k x) -> inv_proc k pr' -> forall q x, <[p := pr']> ps !! q = Some x -> inv_proc k x.
Proof.
  intros Hps Hp q x Hx. destruct (decide (q = p)) as [->|Hne].
  - destruct (decide (p < length ps)%nat) as [Hl|Hl].
    + rewrite list_lookup_insert_eq in Hx by done. by injection Hx as <-.
    + rewrite list_insert_ge in Hx by lia. eauto.
  - rewrite list_lookup_insert_ne in Hx by done. eauto.
Qed.

(** A process moves; no set changes. *)
Lemma inv_move st p pr pr' :
  inv st -> procs st !! p = Some pr ->
  (forall id, cs id pr' = cs id pr) -> p_open pr' = p_open pr -> p_held pr' = p_held pr ->
  (forall id s, k_sets (kern st) !! id = Some s -> inv_set id s (procs st) -> pc_ok id s (zsum (opens id) (procs st)) pr') ->
  pc_local (k_next (kern st)) pr' ->
  (creating pr' <= creating pr \/ zsum load (procs st) + 1 < BIGCOUNT) ->
  inv (mkSys (kern st) (<[p := pr']> (procs st))).
Proof.
  intros [Is Ip Il] Hp Hc Ho Hh Hpc Hl Hload. pose proof (Ip p pr Hp) as [L1 L2 L3 L4].
  split; cbn [kern procs].
  - intros id s Hs. destruct (Is id s Hs) as [Hid Hi]. split; [done|].
    apply (inv_set_same id s _ p pr); [done|done|apply Hc|unfold opens; by rewrite Ho|unfold units; by rewrite Hh|by apply Hpc].
  - apply inv_procs_insert; [exact Ip|]. split; try done; intros id; [unfold opens; rewrite Ho; apply L1|rewrite Hc; apply L2|].
    unfold opens, units. rewrite Ho, Hh. apply L3.
  - rewrite (zsum_insert _ _ _ pr) by done.
    assert (load pr' = load pr - creating pr + creating pr') by (unfold load; rewrite Ho; lia). pose proof (creating_range pr). pose proof (creating_range pr'). lia.
Qed.

(** A process moves and the set [id] changes with it. *)
Lemma inv_change st p pr pr' id s s' :
  let H' := zsum (opens id) (procs st) - opens id pr + opens id pr' in
  inv st -> procs st !! p = Some pr -> k_sets (kern st) !! id = Some s -> s_key s' = s_key s ->
  adj s' p = mk3 (units id pr') (opens id pr') (- cs id pr') -> (forall q x, q <> p -> procs st !! q = Some x -> adj s' q = adj s q) ->
  m2 (s_val s') = m2 (s_val s) - cs id pr + cs id pr' -> m2 (s_val s') <= 1 ->
  (m1 (s_val s') = BIGCOUNT - H' \/ (m1 (s_val s') = 0 /\ H' = 0)) ->
  (m1 (s_val s') <> 0 ->
   m0 (s_val s') + (zsum (units id) (procs st) - units id pr + units id pr') = init (s_key s) /\ 0 <= m0 (s_val s')) ->
  (((m0 (s_val s') = m0 (s_val s) \/ 0 < zsum (opens id) (procs st)) /\
    m1 (s_val s') = m1 (s_val s) /\ opens id pr' = opens id pr) \/
   cs id pr = 1 \/ m2 (s_val s) = 0) ->
  pc_ok id s' H' pr' ->
  (forall i, i <> id -> cs i pr' = cs i pr /\ opens i pr' = opens i pr /\ units i pr' = units i pr /\ forall t H, pc_ok i t H pr') ->
  (0 < units id pr' -> 0 < opens id pr') -> pc_local (k_next (kern st)) pr' -> load pr' <= load pr ->
  inv (mkSys (set_sets (<[id := s']> (k_sets (kern st))) (kern st)) (<[p := pr']> (procs st))).
Proof.
  intros H' [Is Ip Il] Hp Hs Hk Ha Hq Hl Hl1 Hc Hv Ho Hpc Hoth Hu Hloc Hload.
  assert (Hex : forall i, is_Some (k_sets (kern st) !! i) -> is_Some (<[id := s']> (k_sets (kern st)) !! i)).
  { intros i Hi. destruct (decide (i = id)) as [->|]; [rewrite lookup_insert_eq; eauto|by rewrite lookup_insert_ne]. }
  destruct (Is id s Hs) as [Hid Hi]. split; cbn [kern procs k_sets k_next set_sets].
  - intros i t Ht. destruct (decide (i = id)) as [->|Hne].
    + rewrite lookup_insert_eq in Ht. injection Ht as <-. split; [done|]. by apply (inv_set_step id s s' _ p pr).
    + rewrite lookup_insert_ne in Ht by done. destruct (Is i t Ht) as [Hi1 Hi2]. split; [done|].
      destruct (Hoth i Hne) as (E1 & E2 & E3 & E4). by apply (inv_set_same i t _ p pr).
  - assert (Hall : forall q x, procs st !! q = Some x -> inv_proc (set_sets (<[id := s']> (k_sets (kern st))) (kern st)) x).
    { intros q x Hx. destruct (Ip q x Hx) as [L1 L2 L3 L4]. split; try done; intros i Hi'; apply Hex; auto. }
    apply inv_procs_insert; [exact Hall|]. destruct (Ip p pr Hp) as [L1 L2 L3 L4].
    split; [| | |done]; intros i; (destruct (decide (i = id)) as [->|Hne];
      [|destruct (Hoth i Hne) as (E1 & E2 & E3 & _); rewrite ?E1, ?E2, ?E3; auto]).
    + intros _. apply Hex. eauto.
    + intros _. apply Hex. eauto.
    + exact Hu.
  - rewrite (zsum_insert _ _ _ pr) by done. lia.
Qed.

(** A new set; nobody can have anything to do with it yet. *)
Lemma inv_proc_unknown k id pr : inv_proc k pr -> k_sets k !! id = None -> cs id pr = 0 /\ opens id pr = 0 /\ units id pr = 0.
Proof.
  intros [L1 L2 L3 L4] Hn.
  assert (opens id pr = 0) as Ho.
  { pose proof (opens_nonneg id pr). destruct (decide (0 < opens id pr)) as [Hlt|]; [|lia]. destruct (L1 id Hlt) as [s Hs]. congruence. }
  split_and!; [|done|].
  - pose proof (cs_nonneg id pr). destruct (decide (0 < cs id pr)) as [H'|]; [|lia]. destruct (L2 id H') as [s Hs]. congruence.
  - pose proof (units_nonneg id pr). destruct (decide (0 < units id pr)) as [H'|]; [|lia]. specialize (L3 id H'). lia.
Qed.

Lemma inv_new_set st p pr key v :
  inv st -> procs st !! p = Some pr -> p_pc pr = CreateGet key v ->
  let n := k_next (kern st) in
  inv (mkSys (mkKernel (<[n := mkSet key zero3 ∅]> (k_sets (kern st))) (n + 1))
         (<[p := mkProc (CreateLock false n key v) (p_ret pr) (p_open pr) (p_held pr)]> (procs st))).
Proof.
  intros [Is Ip Il] Hp Hpc n. set (pr' := mkProc (CreateLock false n key v) _ _ _).
  assert (Hn : k_sets (kern st) !! n = None).
  { destruct (k_sets (kern st) !! n) as [s|] eqn:E; [|done]. destruct (Is n s E) as [Hlt _]. unfold n in Hlt. lia. }
  pose proof (Ip p pr Hp) as Hlp. assert (Hcs : forall i, cs i pr' = cs i pr) by (intros i; unfold cs; by rewrite Hpc).
  assert (Hall : forall q x, <[p := pr']> (procs st) !! q = Some x -> cs n x = 0 /\ opens n x = 0 /\ units n x = 0 /\ pc_ok n (mkSet key zero3 ∅) 0 x).
  { intros q x Hx. destruct (decide (q = p)) as [->|Hne].
    - rewrite list_lookup_insert_eq in Hx by (by eapply lookup_lt_Some). injection Hx as <-.
      destruct (inv_proc_unknown _ n pr Hlp Hn) as (E1 & E2 & E3). rewrite Hcs. done.
    - rewrite list_lookup_insert_ne in Hx by done. pose proof (Ip q x Hx) as Hq.
      destruct (inv_proc_unknown _ n x Hq Hn) as (E1 & E2 & E3). split_and!; try done.
      destruct Hq as [_ _ _ L4]. unfold pc_ok, cs, pc_local in *.
      destruct (p_pc x); try done; try (intros ->; by rewrite Z.eqb_refl in E1). intros ->. destruct L4. unfold n in *. lia. }
  split; cbn [kern procs k_sets k_next].
  - intros i t Ht. destruct (decide (i = n)) as [->|Hne].
    + rewrite lookup_insert_eq in Ht. injection Ht as <-. split; [lia|].
      assert (E1 : zsum (cs n) (<[p := pr']> (procs st)) = 0) by (apply zsum_zero; intros q x Hx; by apply (Hall q)).
      assert (E2 : zsum (opens n) (<[p := pr']> (procs st)) = 0) by (apply zsum_zero; intros q x Hx; by apply (Hall q)).
      split; rewrite ?E1, ?E2; cbn [s_val m0 m1 m2 zero3]; [done|lia|auto|done| |].
      * intros q x Hx. destruct (Hall q x Hx) as (-> & -> & -> & _). done.
      * intros q x Hx. by apply (Hall q).
    + rewrite lookup_insert_ne in Ht by done. destruct (Is i t Ht) as [Hi1 Hi2]. split; [lia|].
      apply (inv_set_same i t _ p pr); try done. unfold pc_ok. cbn [p_pc pr']. by intros <-.
  - assert (Hext : forall x, (forall i, 0 < opens i x -> is_Some (k_sets (kern st) !! i)) ->
        (forall i, 0 < cs i x -> is_Some (k_sets (kern st) !! i)) -> (forall i, 0 < units i x -> 0 < opens i x) ->
        pc_local (n + 1) x -> inv_proc (mkKernel (<[n := mkSet key zero3 ∅]> (k_sets (kern st))) (n + 1)) x).
    { intros x L1 L2 L3 L4. split; cbn [k_sets k_next]; try done; intros i Hi; apply lookup_insert_is_Some'; right; auto. }
    apply inv_procs_insert.
    + intros q x Hx. destruct (Ip q x Hx) as [L1 L2 L3 L4]. apply Hext; try done. unfold pc_local in *.
      destruct (p_pc x); try done. destruct L4. split; [done|]. unfold n. lia.
    + destruct Hlp as [L1 L2 L3 L4]. unfold pc_local in L4. rewrite Hpc in L4. apply Hext; [done| |done|].
      * intros i. rewrite Hcs. apply L2.
      * cbn. split; [done|lia].
  - rewrite (zsum_insert _ _ _ pr) by done. assert (load pr' = load pr) by (unfold load, creating; by rewrite Hpc). lia.
Qed.

(** The last process to close a set removes it. *)
Lemma inv_remove st p pr id s r :
  inv st -> procs st !! p = Some pr -> p_pc pr = CloseRm id -> k_sets (kern st) !! id = Some s ->
  inv (mkSys (set_sets (delete id (k_sets (kern st))) (kern st)) (<[p := mkProc Idle r (p_open pr) (p_held pr)]> (procs st))).
Proof.
  intros [Is Ip Il] Hp Hpc Hs. set (pr' := mkProc Idle r _ _). destruct (Is id s Hs) as [Hid [I1 I2 I3 I4 I5 I6]].
  pose proof (I6 p pr Hp) as HH. unfold pc_ok in HH. rewrite Hpc in HH. specialize (HH eq_refl).
  assert (Hcp : cs id pr = 1) by (unfold cs; by rewrite Hpc, Z.eqb_refl).
  assert (Hall : forall q x, <[p := pr']> (procs st) !! q = Some x -> cs id x = 0 /\ opens id x = 0).
  { intros q x Hx. destruct (decide (q = p)) as [->|Hne].
    - rewrite list_lookup_insert_eq in Hx by (by eapply lookup_lt_Some). injection Hx as <-. split; [done|].
      pose proof (zsum_le (opens id) _ p pr (opens_nonneg id) Hp). pose proof (opens_nonneg id pr).
      change (opens id pr') with (opens id pr). lia.
    - rewrite list_lookup_insert_ne in Hx by done.
      pose proof (zsum_le (opens id) _ q x (opens_nonneg id) Hx). pose proof (opens_nonneg id x).
      pose proof (zsum_two (cs id) _ p q pr x (cs_nonneg id) ltac:(done) Hp Hx). pose proof (cs_range id x). lia. }
  split; cbn [kern procs k_sets k_next set_sets].
  - intros i t Ht. apply lookup_delete_Some in Ht as [Hne Ht]. destruct (Is i t Ht) as [Hi1 Hi2]. split; [done|].
    apply (inv_set_same i t _ p pr); try done. unfold cs. rewrite Hpc. cbn. destruct (Z.eqb_spec id i); congruence.
  - intros q x Hx. destruct (Hall q x Hx) as [E1 E2].
    assert (Hdel : forall i, i <> id -> is_Some (k_sets (kern st) !! i) -> is_Some (delete id (k_sets (kern st)) !! i))
      by (intros i Hi; by rewrite lookup_delete_ne).
    assert (Hpr' : inv_proc (kern st) pr') by (destruct (Ip p pr Hp) as [L1 L2 L3 L4]; by split).
    pose proof (inv_procs_insert _ _ _ _ Ip Hpr' q x Hx) as Hx'.
    destruct Hx' as [L1 L2 L3 L4]. split; cbn [k_sets k_next set_sets]; try done; intros i Hi; apply Hdel; auto; intros ->; lia.
  - rewrite (zsum_insert _ _ _ pr) by done. assert (load pr' = load pr) by (unfold load, creating; by rewrite Hpc). lia.
Qed.

(** A process ends, at whatever point, and the kernel takes back what it did. *)
Lemma clamp_id z : 0 <= z <= SEMVMX -> clamp z = z.
Proof. unfold clamp. lia. Qed.

Lemma adj_delete s p q v : q <> p -> adj (mkSet (s_key s) v (delete p (s_adj s))) q = adj s q.
Proof. intros Hne. unfold adj. cbn [s_adj]. by rewrite lookup_delete_ne. Qed.

Lemma inv_set_exit id s ps p pr why e :
  (forall key, 0 <= init key <= SEMVMX) -> ps !! p = Some pr -> inv_set id s ps -> zsum (opens id) ps < BIGCOUNT ->
  (forall q x, ps !! q = Some x -> 0 < units id x -> 0 < opens id x) ->
  inv_set id (undo_set p s) (<[p := dead why e]> ps).
Proof.
  intros Hin Hp [I1 I2 I3 I4 I5 I6] HH Hu.
  pose proof (zsum_le (opens id) ps p pr (opens_nonneg id) Hp) as Ho. pose proof (opens_nonneg id pr) as Ho0.
  pose proof (zsum_le (cs id) ps p pr (cs_nonneg id) Hp) as Hc. pose proof (cs_range id pr) as Hc0.
  pose proof (zsum_le (units id) ps p pr (units_nonneg id) Hp) as Hun. pose proof (units_nonneg id pr) as Hun0.
  pose proof (zsum_nonneg (cs id) ps (cs_nonneg id)) as Hcn.
  assert (Hsum : zsum (opens id) (<[p := dead why e]> ps) = zsum (opens id) ps - opens id pr).
  { rewrite (zsum_insert _ _ _ pr) by done. change (opens id (dead why e)) with 0. lia. }
  assert (Hv1 : clamp (m1 (s_val s) + opens id pr) = m1 (s_val s) + opens id pr).
  { apply clamp_id. change SEMVMX with 32767. unfold BIGCOUNT in *. destruct I3 as [->|[-> E]]; lia. }
  assert (Hv2 : clamp (m2 (s_val s) - cs id pr) = m2 (s_val s) - cs id pr).
  { apply clamp_id. change SEMVMX with 32767. lia. }
  assert (Hd : forall q x, <[p := dead why e]> ps !! q = Some x -> (q = p /\ x = dead why e) \/ (q <> p /\ ps !! q = Some x)).
  { intros q x Hx. destruct (decide (q = p)) as [->|Hne].
    - rewrite list_lookup_insert_eq in Hx by (by eapply lookup_lt_Some). injection Hx as <-. auto.
    - rewrite list_lookup_insert_ne in Hx by done. auto. }
  assert (Hval : s_val (undo_set p s) = mk3 (clamp (m0 (s_val s) + units id pr)) (m1 (s_val s) + opens id pr) (m2 (s_val s) - cs id pr)).
  { unfold undo_set. cbn [s_val]. rewrite (I5 p pr Hp). cbn [m0 m1 m2]. rewrite Hv1, Z.add_opp_r. by rewrite Hv2. }
  split; rewrite ?Hval, ?Hsum; cbn [m0 m1 m2].
  - rewrite (zsum_insert _ _ _ pr) by done. change (cs id (dead why e)) with 0. lia.
  - lia.
  - lia.
  - intros H1. destruct (decide (m1 (s_val s) = 0)) as [E|E]; [destruct I3 as [I3|[_ I3]]; unfold BIGCOUNT in *; lia|].
    destruct (I4 E) as [E1 E2]. pose proof (Hin (s_key s)). pose proof (zsum_nonneg (units id) ps (units_nonneg id)).
    rewrite clamp_id by lia. rewrite (zsum_insert _ _ _ pr) by done. change (units id (dead why e)) with 0.
    change (s_key (undo_set p s)) with (s_key s). lia.
  - intros q x Hx. destruct (Hd q x Hx) as [[-> ->]|[Hne Hq]].
    + unfold adj, undo_set. cbn [s_adj]. by rewrite lookup_delete_eq.
    + unfold undo_set. rewrite adj_delete by done. by apply I5.
  - intros q x Hx. destruct (Hd q x Hx) as [[-> ->]|[Hne Hq]]; [done|]. pose proof (I6 q x Hq) as Hok. unfold pc_ok in *.
    rewrite ?Hval. cbn [m0 m1 m2]. change (s_key (undo_set p s)) with (s_key s).
    destruct (p_pc x); try done; intros ->; specialize (Hok eq_refl); try lia.
    destruct Hok as (E0 & E1 & E2). pose proof (Hin (s_key s)).
    assert (units id pr = 0) by (destruct (decide (0 < units id pr)) as [Hlt|]; [specialize (Hu p pr Hp Hlt); lia|lia]).
    rewrite clamp_id by lia. lia.
Qed.

Lemma inv_exit st p pr why e :
  (forall key, 0 <= init key <= SEMVMX) -> inv st -> procs st !! p = Some pr -> ending why e ->
  inv (mkSys (exit_undo p (kern st)) (<[p := dead why e]> (procs st))).
Proof.
  intros Hin [Is Ip Il] Hp Hwhy. split; cbn [kern procs exit_undo k_sets k_next set_sets].
  - intros id s' Hs'. apply lookup_fmap_Some in Hs' as (s & <- & Hs). destruct (Is id s Hs) as [Hid Hi]. split; [done|].
    apply (inv_set_exit id s _ p pr); try done.
    + pose proof (zsum_le_fun (opens id) load (procs st) (opens_load id)). lia.
    + intros q x Hx. by apply (l_units _ _ (Ip q x Hx)).
  - apply inv_procs_insert.
    + intros q x Hx. destruct (Ip q x Hx) as [L1 L2 L3 L4]. split; try done; intros i Hi; cbn [k_sets set_sets exit_undo];
        rewrite lookup_fmap, fmap_is_Some; auto.
    + split; cbn; try (intros i Hi; lia). done.
  - rewrite (zsum_insert _ _ _ pr) by done. change (load (dead why e)) with 0.
    pose proof (opens_load 0 pr). pose proof (opens_nonneg 0 pr). lia.
Qed.
End Inv.
