(* ===== verification/SemSteps.v ===== *)
(** * SemSteps: every step of semaph.c keeps the invariant. *)
From S2P Require Import Prelude Sem SemInv.
Local Open Scope Z_scope.

(** ** The operations of semaph.c on a set *)

Lemma do_op_lock v a :
  -1 <= m2 a <= 0 ->
  do_ops op_lock v a = if m2 v =? 0 then ODone (mk3 (m0 v) (m1 v) 1) (mk3 (m0 a) (m1 a) (m2 a - 1)) else OWait.
Proof.
  intros Ha. destruct v as [v0 v1 v2], a as [a0 a1 a2]. cbn in Ha |- *. destruct (Z.eqb_spec v2 0) as [->|]; [|done]. cbn.
  repeat (case_if; try lia); try done. all: unfold SEMAEM in *; lia.
Qed.

Lemma do_op_close v a :
  -1 <= m2 a <= 0 -> 0 <= m1 a <= BIGCOUNT -> 0 <= m1 v <= BIGCOUNT ->
  do_ops op_close v a =
    if m2 v =? 0 then ODone (mk3 (m0 v) (m1 v + 1) 1) (mk3 (m0 a) (m1 a - 1) (m2 a - 1)) else OWait.
Proof.
  intros Ha Hb Hv. destruct v as [v0 v1 v2], a as [a0 a1 a2]. cbn in Ha, Hb, Hv |- *.
  destruct (Z.eqb_spec v2 0) as [->|]; [|done]. cbn. unfold SEMAEM, SEMVMX, BIGCOUNT in *.
  repeat (case_if; bool_to_prop; try lia). done.
Qed.

Lemma do_op_endcreate v a :
  -1 <= m2 a <= 0 -> 0 <= m1 a <= BIGCOUNT -> 0 < m1 v <= BIGCOUNT -> m2 v = 1 ->
  do_ops op_endcreate v a = ODone (mk3 (m0 v) (m1 v - 1) 0) (mk3 (m0 a) (m1 a + 1) (m2 a + 1)).
Proof.
  intros Ha Hb Hv H2. destruct v as [v0 v1 v2], a as [a0 a1 a2]. cbn in Ha, Hb, Hv, H2 |- *. subst v2.
  unfold SEMAEM, SEMVMX, BIGCOUNT in *. repeat (case_if; bool_to_prop; try lia).
  all: f_equal; f_equal; lia.
Qed.

Lemma do_op_unlock v a :
  -1 <= m2 a <= 0 -> m2 v = 1 ->
  do_ops op_unlock v a = ODone (mk3 (m0 v) (m1 v) 0) (mk3 (m0 a) (m1 a) (m2 a + 1)).
Proof.
  intros Ha H2. destruct v as [v0 v1 v2], a as [a0 a1 a2]. cbn in Ha, H2 |- *. subst v2.
  unfold SEMAEM, SEMVMX, BIGCOUNT in *. repeat (case_if; bool_to_prop; try lia).
  all: f_equal; f_equal; lia.
Qed.

Lemma do_op_op value v a :
  value <> 0 -> 0 <= m0 v -> 0 <= m0 a -> m0 v + m0 a <= SEMVMX -> value <= m0 a ->
  do_ops (op_op value) v a =
    if m0 v + value <? 0 then OWait else ODone (mk3 (m0 v + value) (m1 v) (m2 v)) (mk3 (m0 a - value) (m1 a) (m2 a)).
Proof.
  intros Hn Hv Ha Hs Hle. destruct v as [v0 v1 v2], a as [a0 a1 a2]. cbn in *.
  unfold SEMAEM, SEMVMX, BIGCOUNT in *. repeat (case_if; bool_to_prop; try lia). all: try done; lia.
Qed.

Lemma adj_insert key v s p a : adj (mkSet key v (<[p := a]> (s_adj s))) p = a.
Proof. unfold adj. cbn [s_adj]. by rewrite lookup_insert_eq. Qed.
Lemma adj_insert_ne key v s p q a : q <> p -> adj (mkSet key v (<[p := a]> (s_adj s))) q = adj s q.
Proof. intros H. unfold adj. cbn [s_adj]. by rewrite lookup_insert_ne. Qed.
Lemma adj_setval key v s n q : adj (mkSet key v (set_member n 0 <$> s_adj s)) q = set_member n 0 (adj s q).
Proof.
  unfold adj. cbn [s_adj]. rewrite lookup_fmap. destruct (s_adj s !! q); [done|]. by destruct n as [|[|n]].
Qed.

Lemma find_key_spec key k id : find_key key k = Some id -> exists s, k_sets k !! id = Some s /\ s_key s = key.
Proof.
  unfold find_key. destruct (find _ _) as [[i s]|] eqn:E; [|done]. intros [= <-].
  apply find_some in E as [Hin Hk]. simpl in Hk. apply Z.eqb_eq in Hk. exists s. split; [|done].
  apply list_elem_of_In, elem_of_map_to_list in Hin. exact Hin.
Qed.

(** A semop fails by itself, or does what it does when nothing goes wrong. *)
Lemma semop_faults p f w id ops k :
  semop p f w id ops k = SFail EINTR \/ semop p f w id ops k = SFail ENOSPC \/ semop p f w id ops k = semop p None w id ops k.
Proof. destruct f as [[]|]; auto. Qed.

Section Steps.
Context (init : Z -> Z) (init_range : forall key, 0 <= init key <= SEMVMX).

(** What a process at work knows of its set. *)
Lemma set_facts st id s p pr :
  inv init st -> k_sets (kern st) !! id = Some s -> procs st !! p = Some pr ->
  inv_set init id s (procs st) /\ 0 <= opens id pr <= zsum (opens id) (procs st) /\
  zsum (opens id) (procs st) < BIGCOUNT /\ 0 <= m1 (s_val s) <= BIGCOUNT /\ 0 <= m2 (s_val s) <= 1 /\
  0 <= units id pr <= zsum (units id) (procs st) /\ (opens id pr = 0 -> units id pr = 0).
Proof.
  intros Hi Hs Hp. destruct Hi as [Is Ip Il]. destruct (Is id s Hs) as [_ Hset]. pose proof Hset as [I1 I2 I3 I4 I5 I6].
  pose proof (zsum_le (opens id) _ p pr (opens_nonneg id) Hp). pose proof (opens_nonneg id pr).
  pose proof (zsum_le (units id) _ p pr (units_nonneg id) Hp). pose proof (units_nonneg id pr).
  pose proof (zsum_le_fun (opens id) load (procs st) (opens_load id)).
  pose proof (zsum_nonneg (opens id) (procs st) (opens_nonneg id)). pose proof (zsum_nonneg (cs id) (procs st) (cs_nonneg id)).
  split_and!; try done; try lia.
  intros Hz. destruct (decide (0 < units id pr)) as [Hlt|]; [|lia]. pose proof (l_units _ _ _ (Ip p pr Hp) id Hlt). lia.
Qed.

(** When nobody has the set open, nobody holds units of it. *)
Lemma no_units st id : inv init st -> zsum (opens id) (procs st) = 0 ->
  (forall q x, procs st !! q = Some x -> opens id x = 0 /\ units id x = 0) /\ zsum (units id) (procs st) = 0.
Proof.
  intros [Is Ip Il] H0.
  assert (Hall : forall q x, procs st !! q = Some x -> opens id x = 0 /\ units id x = 0).
  { intros q x Hx. pose proof (zsum_le (opens id) _ q x (opens_nonneg id) Hx). pose proof (opens_nonneg id x).
    split; [lia|]. pose proof (units_nonneg id x). destruct (decide (0 < units id x)) as [Hlt|]; [|lia].
    pose proof (l_units _ _ _ (Ip q x Hx) id Hlt). lia. }
  split; [exact Hall|]. apply zsum_zero. intros q x Hx. by apply (Hall q).
Qed.

Ltac other_ids :=
  intros i Hne; unfold cs, opens, units, pc_ok; cbn;
  repeat match goal with H : p_pc _ = _ |- _ => rewrite H; clear H end; cbn;
  rewrite ?(proj2 (Z.eqb_neq _ _)) by congruence; split_and!; try done; try (intros; congruence).

Ltac name_proc x :=
  unfold update; cbn [advance fst snd];
  match goal with |- context [<[_ := ?y]> (procs _)] => set (x := y) end.

(** The process ends where it is when its semop fails by itself. *)
Ltac semop_fails st pr E :=
  match type of E with context [semop ?p ?f ?w ?id ?ops ?k] =>
    destruct (semop_faults p f w id ops k) as [Ef|[Ef|Ef]]; rewrite Ef in E; clear Ef;
    [cbn in E; injection E as <- <-; by apply (inv_exit init st p pr); unfold ending; auto
    |cbn in E; injection E as <- <-; by apply (inv_exit init st p pr); unfold ending; auto|]
  end.

(** The steps of sem_create. *)
Lemma create_get_inv st p pr key v f n k :
  inv init st -> procs st !! p = Some pr -> p_pc pr = CreateGet key v ->
  sem_create_step p f (CreateGet key v) (kern st) = Some (n, k) -> inv init (update p (advance p n pr k) st).
Proof.
  intros Hi Hp Hpc E. cbn in E. pose proof (l_pc _ _ _ (i_procs _ _ Hi p pr Hp)) as Hl. unfold pc_local in Hl. rewrite Hpc in Hl.
  destruct f as [e|].
  - injection E as <- <-. apply (inv_move init st p pr); try done; [intros id; unfold cs; by rewrite Hpc|].
    left. unfold creating. rewrite Hpc. cbn. lia.
  - unfold semget_create in E. destruct (find_key key (kern st)) as [id|] eqn:Ef; injection E as <- <-.
    + destruct (find_key_spec _ _ _ Ef) as (s & Hs & Hk).
      apply (inv_move init st p pr); try done; [intros i; unfold cs; by rewrite Hpc| | |].
      * intros i t Ht _. unfold pc_ok. cbn. intros <-. congruence.
      * cbn. split; [done|]. by apply (i_sets _ _ Hi id s).
      * left. unfold creating. rewrite Hpc. cbn. lia.
    + by apply (inv_new_set init st p pr key v).
Qed.

Lemma create_lock_inv st p pr w id key v f n k :
  inv init st -> procs st !! p = Some pr -> p_pc pr = CreateLock w id key v ->
  sem_create_step p f (CreateLock w id key v) (kern st) = Some (n, k) -> inv init (update p (advance p n pr k) st).
Proof.
  intros Hi Hp Hpc E. pose proof (l_pc _ _ _ (i_procs _ _ Hi p pr Hp)) as Hl. unfold pc_local in Hl. rewrite Hpc in Hl.
  destruct Hl as [Hv Hid]. cbn in E. semop_fails st pr E. unfold semop in E. destruct (k_sets (kern st) !! id) as [s|] eqn:Hs.
  - destruct (set_facts st id s p pr Hi Hs Hp) as (Hset & _). pose proof Hset as [I1 I2 I3 I4 I5 I6].
    rewrite (I5 p pr Hp), do_op_lock in E by (cbn; pose proof (cs_range id pr); lia).
    assert (Hc0 : cs id pr = 0) by (unfold cs; by rewrite Hpc).
    pose proof (I6 p pr Hp) as Hk. unfold pc_ok in Hk. rewrite Hpc in Hk. specialize (Hk eq_refl).
    destruct (Z.eqb_spec (m2 (s_val s)) 0) as [H2|H2]; cbn in E.
    + injection E as <- <-. name_proc pr'. assert (Hc1 : cs id pr' = 1) by (unfold cs; cbn; by rewrite Z.eqb_refl).
      assert (Eo : opens id pr' = opens id pr) by done. assert (Eu : units id pr' = units id pr) by done.
      apply (inv_change init st p pr pr' id s); try done; cbn [s_val m0 m1 m2 s_key].
      * by rewrite adj_insert, Hc0, Hc1.
      * intros q x Hq _. by apply adj_insert_ne.
      * lia.
      * rewrite Eo. lia.
      * rewrite Eu. intros Hm. destruct (I4 Hm). lia.
      * auto.
      * unfold pc_ok. cbn. by rewrite Hk.
      * other_ids.
      * by apply (l_units _ _ _ (i_procs _ _ Hi p pr Hp)).
      * unfold load, creating. rewrite Hpc. cbn. lia.
    + destruct w; [done|]. injection E as <- <-. apply (inv_move init st p pr); try done.
      * intros i. unfold cs. by rewrite Hpc.
      * intros i t Ht [_ _ _ _ _ J6]. pose proof (J6 p pr Hp) as J. unfold pc_ok in *. by rewrite Hpc in J.
      * left. unfold creating. rewrite Hpc. cbn. lia.
  - destruct w; cbn in E; injection E as <- <-.
    + apply (inv_exit init st p pr); unfold ending; auto 6.
    + apply (inv_move init st p pr); try done; [intros i; unfold cs; by rewrite Hpc|].
      left. unfold creating. rewrite Hpc. cbn. lia.
Qed.

(** A process in the critical section of [id]: the set exists, is locked by it and
    by nobody else. *)
Lemma in_section st p pr id :
  inv init st -> procs st !! p = Some pr -> cs id pr = 1 ->
  exists s, k_sets (kern st) !! id = Some s /\ m2 (s_val s) = 1 /\ zsum (cs id) (procs st) = 1 /\
    adj s p = mk3 (units id pr) (opens id pr) (-1) /\ pc_ok init id s (zsum (opens id) (procs st)) pr /\
    inv_set init id s (procs st).
Proof.
  intros Hi Hp Hc. destruct (l_cs _ _ _ (i_procs _ _ Hi p pr Hp) id ltac:(lia)) as [s Hs]. exists s.
  destruct (set_facts st id s p pr Hi Hs Hp) as (Hset & _). pose proof Hset as [I1 I2 I3 I4 I5 I6].
  pose proof (zsum_le (cs id) _ p pr (cs_nonneg id) Hp). rewrite (I5 p pr Hp), Hc. split_and!; try done; try lia. by apply (I6 p).
Qed.

Lemma create_getval_inv st p pr id v f n k :
  inv init st -> procs st !! p = Some pr -> p_pc pr = CreateGetval id v ->
  sem_create_step p f (CreateGetval id v) (kern st) = Some (n, k) -> inv init (update p (advance p n pr k) st).
Proof.
  intros Hi Hp Hpc E. destruct (in_section st p pr id Hi Hp) as (s & Hs & H2 & Hz & Ha & Hok & Hset);
    [unfold cs; by rewrite Hpc, Z.eqb_refl|]. destruct (set_facts st id s p pr Hi Hs Hp) as (_ & Ho & HH & _).
  pose proof Hset as [I1 I2 I3 I4 I5 I6]. unfold pc_ok in Hok. rewrite Hpc in Hok. specialize (Hok eq_refl).
  cbn in E. unfold semctl_getval in E. rewrite Hs in E. cbn in E. injection E as <- <-.
  destruct (Z.eqb_spec (m1 (s_val s)) 0) as [E1|E1]; apply (inv_move init st p pr); try done;
    try (intros i; unfold cs; by rewrite Hpc); try (left; unfold creating; rewrite Hpc; cbn; lia).
  - intros i t Ht _. unfold pc_ok. cbn. intros <-. rewrite Ht in Hs. injection Hs as ->. split_and!; [done|lia|lia].
  - intros i t Ht _. unfold pc_ok. cbn. intros <-. rewrite Ht in Hs. injection Hs as ->. lia.
Qed.

Lemma create_set0_inv st p pr id v f n k :
  inv init st -> procs st !! p = Some pr -> p_pc pr = CreateSet0 id v ->
  sem_create_step p f (CreateSet0 id v) (kern st) = Some (n, k) -> inv init (update p (advance p n pr k) st).
Proof.
  intros Hi Hp Hpc E. assert (Hc : cs id pr = 1) by (unfold cs; by rewrite Hpc, Z.eqb_refl).
  destruct (in_section st p pr id Hi Hp Hc) as (s & Hs & H2 & Hz & Ha & Hok & Hset).
  pose proof Hset as [I1 I2 I3 I4 I5 I6]. unfold pc_ok in Hok. rewrite Hpc in Hok. destruct (Hok eq_refl) as (Hv & E1 & EH).
  destruct (no_units st id Hi EH) as [Hno Hnu].
  cbn in E. unfold semctl_setval in E. rewrite Hs in E. cbn in E. injection E as <- <-. name_proc pr'.
  assert (Hc1 : cs id pr' = 1) by (unfold cs; cbn; by rewrite Z.eqb_refl).
  assert (Eo : opens id pr' = opens id pr) by done. assert (Eu : units id pr' = units id pr) by done.
  destruct (Hno p pr Hp) as [Eo0 Eu0].
  apply (inv_change init st p pr pr' id s); try done; cbn [s_val m0 m1 m2 s_key set_member].
  - by rewrite adj_setval, Ha, Hc1, Eo, Eu, Eu0.
  - intros q x Hq Hx. rewrite adj_setval, (I5 q x Hx). by destruct (Hno q x Hx) as [_ ->].
  - lia.
  - rewrite Eo. lia.
  - auto.
  - unfold pc_ok. cbn [p_pc pr' s_val m0 m1 s_key]. intros _. rewrite Eo. split_and!; [done|done|lia].
  - other_ids.
  - by apply (l_units _ _ _ (i_procs _ _ Hi p pr Hp)).
  - unfold load, creating. rewrite Hpc. cbn. lia.
Qed.

Lemma create_set1_inv st p pr id f n k :
  inv init st -> procs st !! p = Some pr -> p_pc pr = CreateSet1 id ->
  sem_create_step p f (CreateSet1 id) (kern st) = Some (n, k) -> inv init (update p (advance p n pr k) st).
Proof.
  intros Hi Hp Hpc E. assert (Hc : cs id pr = 1) by (unfold cs; by rewrite Hpc, Z.eqb_refl).
  destruct (in_section st p pr id Hi Hp Hc) as (s & Hs & H2 & Hz & Ha & Hok & Hset).
  pose proof Hset as [I1 I2 I3 I4 I5 I6]. unfold pc_ok in Hok. rewrite Hpc in Hok. destruct (Hok eq_refl) as (E0 & E1 & EH).
  destruct (no_units st id Hi EH) as [Hno Hnu]. pose proof (init_range (s_key s)).
  cbn in E. unfold semctl_setval in E. rewrite Hs in E. cbn in E. injection E as <- <-. name_proc pr'.
  assert (Hc1 : cs id pr' = 1) by (unfold cs; cbn; by rewrite Z.eqb_refl).
  assert (Eo : opens id pr' = opens id pr) by done. assert (Eu : units id pr' = units id pr) by done.
  destruct (Hno p pr Hp) as [Eo0 Eu0].
  apply (inv_change init st p pr pr' id s); try done; cbn [s_val m0 m1 m2 s_key set_member].
  - by rewrite adj_setval, Ha, Hc1, Eo, Eu, Eo0.
  - intros q x Hq Hx. rewrite adj_setval, (I5 q x Hx). by destruct (Hno q x Hx) as [-> _].
  - lia.
  - rewrite Eo. lia.
  - rewrite Eu. lia.
  - auto.
  - unfold pc_ok. cbn [p_pc pr' s_val m1]. intros _. rewrite Eo. lia.
  - other_ids.
  - by apply (l_units _ _ _ (i_procs _ _ Hi p pr Hp)).
  - unfold load, creating. rewrite Hpc. cbn. lia.
Qed.

Lemma create_end_inv st p pr w id f n k :
  inv init st -> procs st !! p = Some pr -> p_pc pr = CreateEnd w id ->
  sem_create_step p f (CreateEnd w id) (kern st) = Some (n, k) -> inv init (update p (advance p n pr k) st).
Proof.
  intros Hi Hp Hpc E. assert (Hc : cs id pr = 1) by (unfold cs; by rewrite Hpc, Z.eqb_refl).
  destruct (in_section st p pr id Hi Hp Hc) as (s & Hs & H2 & Hz & Ha & Hok & Hset).
  pose proof Hset as [I1 I2 I3 I4 I5 I6]. unfold pc_ok in Hok. rewrite Hpc in Hok. specialize (Hok eq_refl).
  destruct (set_facts st id s p pr Hi Hs Hp) as (_ & Ho & HH & Hm1 & _).
  cbn in E. semop_fails st pr E. unfold semop in E. rewrite Hs, Ha, do_op_endcreate in E by (cbn; lia). cbn in E. injection E as <- <-. name_proc pr'.
  assert (Hc1 : cs id pr' = 0) by done. assert (Eu : units id pr' = units id pr) by done.
  assert (Eo : opens id pr' = opens id pr + 1) by (unfold opens; cbn; rewrite Z.eqb_refl; lia).
  apply (inv_change init st p pr pr' id s); try done; cbn [s_val m0 m1 m2 s_key].
  - rewrite adj_insert, Hc1, Eo, Eu. done.
  - intros q x Hq _. by apply adj_insert_ne.
  - lia.
  - rewrite Eo. lia.
  - rewrite Eu. intros _. destruct (I4 ltac:(lia)). lia.
  - auto.
  - intros i Hne. assert (Hcn : cs i pr = 0) by (unfold cs; rewrite Hpc; destruct (Z.eqb_spec id i); congruence).
    rewrite Hcn. split_and!; [done| |done|done]. unfold opens. cbn. destruct (Z.eqb_spec id i); [congruence|lia].
  - lia.
  - unfold load, creating. rewrite Hpc. cbn [p_open pr' length p_pc]. lia.
Qed.

(** The steps of sem_close. *)
Lemma close_lock_inv st p pr w id f n k :
  inv init st -> procs st !! p = Some pr -> p_pc pr = CloseLock w id ->
  sem_close_step p f (CloseLock w id) (kern st) = Some (n, k) -> inv init (update p (advance p n pr k) st).
Proof.
  intros Hi Hp Hpc E. pose proof (i_procs _ _ Hi p pr Hp) as [L1 L2 L3 L4]. unfold pc_local in L4. rewrite Hpc in L4.
  destruct L4 as [Hopen Hunits]. destruct (L1 id Hopen) as [s Hs].
  destruct (set_facts st id s p pr Hi Hs Hp) as (Hset & Ho & HH & Hm1 & Hm2 & _). pose proof Hset as [I1 I2 I3 I4 I5 I6].
  assert (Hc0 : cs id pr = 0) by (unfold cs; by rewrite Hpc).
  cbn in E. semop_fails st pr E. unfold semop in E. rewrite Hs, (I5 p pr Hp), do_op_close in E by (cbn; lia).
  destruct (Z.eqb_spec (m2 (s_val s)) 0) as [H2|H2]; cbn in E.
  - injection E as <- <-. name_proc pr'. assert (Hc1 : cs id pr' = 1) by (unfold cs; cbn; by rewrite Z.eqb_refl).
    assert (Eu : forall i, units i pr' = units i pr) by done.
    assert (Eo : forall i, opens i pr' = opens i pr - (if i =? id then 1 else 0)).
    { intros i. unfold opens in *. cbn [p_open pr']. rewrite occ_drop_one. destruct (Z.ltb_spec 0 (occ id (p_open pr))); [|lia].
      by rewrite andb_true_r. }
    pose proof (Eo id) as Eoid. rewrite Z.eqb_refl in Eoid.
    apply (inv_change init st p pr pr' id s); try done; cbn [s_val m0 m1 m2 s_key].
    + by rewrite adj_insert, Hc0, Hc1, Eoid, Eu.
    + intros q x Hq _. by apply adj_insert_ne.
    + lia.
    + rewrite Eoid. lia.
    + rewrite Eu. intros _. destruct (I4 ltac:(lia)). lia.
    + auto.
    + unfold pc_ok. cbn [p_pc pr' s_val m1]. intros _. rewrite Eoid. lia.
    + intros i Hne. assert (Hcn : cs i pr' = 0) by (unfold cs; cbn; destruct (Z.eqb_spec id i); congruence).
      assert (Hcm : cs i pr = 0) by (unfold cs; by rewrite Hpc).
      rewrite Hcn, Hcm, (Eo i). split_and!; [done|destruct (Z.eqb_spec i id); [congruence|lia]|done|].
      intros t H. unfold pc_ok. cbn. congruence.
    + rewrite Eu. lia.
    + unfold load, creating. rewrite Hpc. cbn [p_open pr' p_pc]. pose proof (drop_one_length id (p_open pr)). lia.
  - destruct w; [done|]. injection E as <- <-. apply (inv_move init st p pr); try done.
    + intros i. unfold cs. by rewrite Hpc.
    + left. unfold creating. rewrite Hpc. cbn. lia.
Qed.

Lemma close_getval_inv st p pr id f n k :
  inv init st -> procs st !! p = Some pr -> p_pc pr = CloseGetval id ->
  sem_close_step p f (CloseGetval id) (kern st) = Some (n, k) -> inv init (update p (advance p n pr k) st).
Proof.
  intros Hi Hp Hpc E. destruct (in_section st p pr id Hi Hp) as (s & Hs & H2 & Hz & Ha & Hok & Hset);
    [unfold cs; by rewrite Hpc, Z.eqb_refl|]. destruct (set_facts st id s p pr Hi Hs Hp) as (_ & Ho & HH & Hm1 & _).
  unfold pc_ok in Hok. rewrite Hpc in Hok. specialize (Hok eq_refl).
  cbn in E. unfold semctl_getval in E. rewrite Hs in E. cbn in E. destruct (Z.ltb_spec BIGCOUNT (m1 (s_val s))); [lia|].
  injection E as <- <-. destruct (Z.eqb_spec (m1 (s_val s)) BIGCOUNT) as [E1|E1]; apply (inv_move init st p pr); try done;
    try (intros i; unfold cs; by rewrite Hpc); try (left; unfold creating; rewrite Hpc; cbn; lia).
  - intros i t Ht _. unfold pc_ok. cbn. intros <-. lia.
  - intros i t Ht _. unfold pc_ok. cbn. intros <-. rewrite Ht in Hs. injection Hs as ->. lia.
Qed.

Lemma close_rm_inv st p pr id n k :
  inv init st -> procs st !! p = Some pr -> p_pc pr = CloseRm id ->
  sem_rm_step (CloseRm id) (kern st) = Some (n, k) -> inv init (update p (advance p n pr k) st).
Proof.
  intros Hi Hp Hpc E. destruct (in_section st p pr id Hi Hp) as (s & Hs & _); [unfold cs; by rewrite Hpc, Z.eqb_refl|].
  cbn in E. unfold semctl_rmid in E. rewrite Hs in E. cbn in E. injection E as <- <-. by apply (inv_remove init st p pr id s).
Qed.

Lemma close_unlock_inv st p pr w id f n k :
  inv init st -> procs st !! p = Some pr -> p_pc pr = CloseUnlock w id ->
  sem_close_step p f (CloseUnlock w id) (kern st) = Some (n, k) -> inv init (update p (advance p n pr k) st).
Proof.
  intros Hi Hp Hpc E. assert (Hc : cs id pr = 1) by (unfold cs; by rewrite Hpc, Z.eqb_refl).
  destruct (in_section st p pr id Hi Hp Hc) as (s & Hs & H2 & Hz & Ha & Hok & Hset). pose proof Hset as [I1 I2 I3 I4 I5 I6].
  cbn in E. semop_fails st pr E. unfold semop in E. rewrite Hs, Ha, do_op_unlock in E by (cbn; lia). cbn in E. injection E as <- <-. name_proc pr'.
  assert (Hc1 : cs id pr' = 0) by done. assert (Eu : units id pr' = units id pr) by done.
  assert (Eo : opens id pr' = opens id pr) by done.
  apply (inv_change init st p pr pr' id s); try done; cbn [s_val m0 m1 m2 s_key].
  - by rewrite adj_insert, Hc1, Eo, Eu.
  - intros q x Hq _. by apply adj_insert_ne.
  - lia.
  - rewrite Eo. lia.
  - rewrite Eu. intros Hm. destruct (I4 Hm). lia.
  - auto.
  - other_ids.
  - by apply (l_units _ _ _ (i_procs _ _ Hi p pr Hp)).
  - unfold load, creating. rewrite Hpc. cbn. lia.
Qed.

(** The step of sem_op. *)
Lemma op_inv st p pr w id value f n k :
  inv init st -> procs st !! p = Some pr -> p_pc pr = Op w id value ->
  sem_op_step p f (Op w id value) (kern st) = Some (n, k) -> inv init (update p (advance p n pr k) st).
Proof.
  intros Hi Hp Hpc E. pose proof (i_procs _ _ Hi p pr Hp) as [L1 L2 L3 L4]. unfold pc_local in L4. rewrite Hpc in L4.
  destruct L4 as (Hopen & Hv0 & Hle). destruct (L1 id Hopen) as [s Hs].
  destruct (set_facts st id s p pr Hi Hs Hp) as (Hset & Ho & HH & Hm1 & Hm2 & Hu & _). pose proof Hset as [I1 I2 I3 I4 I5 I6].
  destruct (I4 ltac:(lia)) as [Hval Hm0]. pose proof (init_range (s_key s)).
  cbn in E. semop_fails st pr E. unfold semop in E. rewrite Hs, (I5 p pr Hp), do_op_op in E by (cbn; try lia; done). cbn [m0 m1 m2] in E.
  destruct (Z.ltb_spec (m0 (s_val s) + value) 0) as [Hw|Hw]; cbn in E.
  - destruct w; [done|]. injection E as <- <-. apply (inv_move init st p pr); try done.
    + intros i. unfold cs. by rewrite Hpc.
    + left. unfold creating. rewrite Hpc. cbn. lia.
  - injection E as <- <-. name_proc pr'. assert (Eo : forall i, opens i pr' = opens i pr) by done.
    assert (Hc1 : forall i, cs i pr' = 0) by done. assert (Hc0 : forall i, cs i pr = 0) by (intros i; unfold cs; by rewrite Hpc).
    assert (Eu : forall i, units i pr' = units i pr - (if i =? id then value else 0)).
    { intros i. unfold units in *. cbn [p_held pr']. destruct (Z.ltb_spec value 0).
      - rewrite occ_app, occ_replicate, (Z.eqb_sym id i). case_if; lia.
      - rewrite occ_drop_many by lia. case_if; lia. }
    pose proof (Eu id) as Euid. rewrite Z.eqb_refl in Euid.
    apply (inv_change init st p pr pr' id s); try done; cbn [s_val m0 m1 m2 s_key].
    + by rewrite adj_insert, Hc0, Hc1, Eo, Euid.
    + intros q x Hq _. by apply adj_insert_ne.
    + rewrite Hc0, Hc1. lia.
    + rewrite Eo. lia.
    + rewrite Euid. intros _. lia.
    + left. split; [right; lia|]. auto.
    + intros i Hne. rewrite Hc0, Hc1, (Eu i). split_and!; [done|done|destruct (Z.eqb_spec i id); [congruence|lia]|done].
    + unfold load, creating. rewrite Hpc. cbn. lia.
Qed.

Lemma step_inv st p pr f n k :
  inv init st -> procs st !! p = Some pr -> step p f (p_pc pr) (kern st) = Some (n, k) ->
  inv init (update p (advance p n pr k) st).
Proof.
  intros Hi Hp E. pose proof (l_pc _ _ _ (i_procs _ _ Hi p pr Hp)) as Hl. unfold pc_local in Hl.
  destruct (p_pc pr) eqn:Hpc; cbn [step] in E; try done;
    eauto using create_get_inv, create_lock_inv, create_getval_inv, create_set0_inv, create_set1_inv, create_end_inv,
      close_lock_inv, close_getval_inv, close_rm_inv, close_unlock_inv, op_inv.
Qed.

(** ** Runs of well-behaved processes *)

(** The rules: a creator knows the initial value its key stands for, and fewer than
    BIGCOUNT uses are under way; a semaphore is used and closed by a process that
    has it open, closed without units of it in hand, and no more units are given
    back than were taken.  System calls and exits happen at any time. *)
Definition may_op (pr : proc) (id value : Z) : Prop := 0 < opens id pr /\ value <> 0 /\ value <= units id pr.
Definition allowed (st : sys) (a : action) : Prop :=
  match a with
  | Start p c =>
    exists pr, procs st !! p = Some pr /\
      match c with
      | CCreate key initval => initval = init key /\ zsum load (procs st) + 1 < BIGCOUNT
      | CClose id => 0 < opens id pr /\ units id pr = 0
      | COp id value => may_op pr id value
      | CWait id => may_op pr id (-1)
      | CSignal id => may_op pr id 1
      | COpen _ | CRm _ => False
      end
  | Run _ _ | Exit _ => True
  end.

Inductive reach (n : nat) : sys -> Prop :=
  | reach_boot : reach n (boot n)
  | reach_act st a st' : reach n st -> allowed st a -> act a st = Some st' -> reach n st'.

Lemma start_inv st p pr c :
  inv init st -> procs st !! p = Some pr -> p_pc pr = Idle -> allowed st (Start p c) ->
  inv init (update p (advance p (enter c) pr (kern st)) st).
Proof.
  intros Hi Hp Hpc (pr0 & Hp0 & Hc). assert (pr0 = pr) as -> by congruence.
  assert (Hmove : forall c', (forall id, cs id (mkProc c' (p_ret pr) (p_open pr) (p_held pr)) = 0) ->
    (forall id s H, pc_ok init id s H (mkProc c' (p_ret pr) (p_open pr) (p_held pr))) ->
    pc_local init (k_next (kern st)) (mkProc c' (p_ret pr) (p_open pr) (p_held pr)) ->
    (creating (mkProc c' (p_ret pr) (p_open pr) (p_held pr)) <= 0 \/ zsum load (procs st) + 1 < BIGCOUNT) ->
    inv init (mkSys (kern st) (<[p := mkProc c' (p_ret pr) (p_open pr) (p_held pr)]> (procs st)))).
  { intros c' H1 H2 H3 H4. apply (inv_move init st p pr); try done; [intros id; rewrite H1; unfold cs; by rewrite Hpc|].
    assert (creating pr = 0) as -> by (unfold creating; by rewrite Hpc). done. }
  destruct c as [key v|key|id|id v|id|id|id]; try done; cbn [enter] in *.
  - destruct Hc as [Hv Hl]. unfold sem_create. destruct (bad_key key).
    + apply (inv_move init st p pr); try done; [intros id; unfold cs; by rewrite Hpc|]. left. unfold creating. rewrite Hpc. cbn. lia.
    + apply Hmove; auto; done.
  - apply Hmove; auto; try done. left. cbn. lia.
  - destruct Hc as (H1 & H2 & H3). unfold sem_op. destruct (Z.eqb_spec v 0); [done|]. apply Hmove; auto; try done. left. cbn. lia.
  - apply Hmove; auto; try done. left. cbn. lia.
  - apply Hmove; auto; try done. left. cbn. lia.
Qed.

Lemma boot_inv n : inv init (boot n).
Proof.
  assert (Hx : forall p x, replicate n (mkProc Idle 0 [] []) !! p = Some x -> x = mkProc Idle 0 [] []).
  { intros p x Hx. by apply lookup_replicate in Hx as [-> _]. }
  split; cbn [boot kern procs k_sets k_next].
  - intros id s Hs. by rewrite lookup_empty in Hs.
  - intros p pr Hp. rewrite (Hx p pr Hp). by split; cbn; try (intros; lia).
  - by rewrite zsum_replicate.
Qed.

Lemma reach_inv n st : reach n st -> inv init st.
Proof.
  induction 1 as [|st a st' _ IH Hal E]; [apply boot_inv|]. destruct a as [p c|p f|p]; cbn in E.
  - destruct (procs st !! p) as [pr|] eqn:Hp; [|done]. cbn in E. destruct (p_pc pr) eqn:Hpc; try done. injection E as <-.
    by apply start_inv.
  - destruct (procs st !! p) as [pr|] eqn:Hp; [|done]. cbn in E.
    destruct (step p f (p_pc pr) (kern st)) as [[m k]|] eqn:Es; [|done]. cbn in E. injection E as <-. by eapply step_inv.
  - destruct (procs st !! p) as [pr|] eqn:Hp; [|done]. cbn in E.
    assert (Some (update p (dead "exit" None, exit_undo p (kern st)) st) = Some st') as [= <-] by (by destruct (p_pc pr)).
    apply (inv_exit init st p pr); unfold ending; auto.
Qed.
End Steps.
