(* ===== verification/SemTheorems.v ===== *)
(** * SemTheorems: what semaph.c promises to concurrent processes.

    Under the rules of [allowed], for every number of processes, every interleaving
    of their system calls and exits at every point; and what goes wrong outside
    them, or in a case sem_create does not handle. *)
From S2P Require Import Prelude Sem SemInv SemSteps.
Local Open Scope Z_scope.

Lemma occ_elem id l : 0 < occ id l <-> id ∈ l.
Proof.
  induction l as [|x l IH]; simpl; [split; [lia|intros H; by apply elem_of_nil in H]|].
  rewrite elem_of_cons, <- IH. pose proof (occ_nonneg id l). destruct (Z.eqb_spec x id); intuition (subst; try lia; congruence).
Qed.

(** The processes hold no more units of a set than it started with. *)
Lemma units_at_most init st id s :
  (forall key, 0 <= init key <= SEMVMX) -> inv init st -> k_sets (kern st) !! id = Some s ->
  zsum (units id) (procs st) <= init (s_key s).
Proof.
  intros Hin Hi Hs. destruct (i_sets _ _ Hi id s Hs) as [_ [I1 I2 I3 I4 _ _]].
  pose proof (zsum_le_fun (opens id) load (procs st) (opens_load id)). pose proof (i_load _ _ Hi). pose proof (Hin (s_key s)).
  destruct I3 as [I3|[_ I3]]; [|destruct (no_units init st id Hi I3) as [_ ->]; lia].
  destruct (I4 ltac:(lia)) as [Hv Hv0]. lia.
Qed.


(** A run in which one process takes a unit and a second one creates, waits and is
    kept waiting. *)
Definition one (key : Z) : Z := 1.
Definition create0 : list action := Start 0 (CCreate 7 1) :: replicate 6 (Run 0 None).
Definition create1 : list action := Start 1 (CCreate 7 1) :: replicate 4 (Run 1 None).
Definition busy : list action := create0 ++ [Start 0 (CWait 0); Run 0 None] ++ create1 ++ [Start 1 (CWait 0); Run 1 None].

(** Is an action allowed?  Decides [allowed] for a concrete state. *)
Definition allowed_b (init : Z -> Z) (st : sys) (a : action) : bool :=
  match a with
  | Start p c =>
    match procs st !! p with
    | None => false
    | Some pr =>
      let op id value := (0 <? opens id pr) && negb (value =? 0) && (value <=? units id pr) in
      match c with
      | CCreate key initval => (initval =? init key) && (zsum load (procs st) + 1 <? BIGCOUNT)
      | CClose id => (0 <? opens id pr) && (units id pr =? 0)
      | COp id value => op id value
      | CWait id => op id (-1)
      | CSignal id => op id 1
      | COpen _ | CRm _ => false
      end
    end
  | Run _ _ | Exit _ => true
  end.
Fixpoint allowed_run (init : Z -> Z) (l : list action) (st : sys) : option sys :=
  match l with
  | [] => Some st
  | a :: l' => if allowed_b init st a then st' ← act a st; allowed_run init l' st' else None
  end.

Lemma allowed_b_spec init st a : allowed_b init st a = true -> allowed init st a.
Proof.
  destruct a as [p c|p d|p]; simpl; [|done|done]. destruct (procs st !! p) as [pr|]; [|done]. intros H. exists pr. split; [done|].
  unfold may_op. destruct c; try done; bool_to_prop; auto.
Qed.

Lemma allowed_run_reach init n l st st' : reach init n st -> allowed_run init l st = Some st' -> reach init n st'.
Proof.
  revert st. induction l as [|a l IH]; intros st Hr E; simpl in E; [by injection E as <-|].
  destruct (allowed_b init st a) eqn:Ha; [|done]. destruct (act a st) as [st1|] eqn:E1; [|done].
  eapply IH; [|exact E]. eapply reach_act; [exact Hr|by apply allowed_b_spec|exact E1].
Qed.

Lemma one_range key : 0 <= one key <= SEMVMX.
Proof. unfold one, SEMVMX. lia. Qed.






Lemma section_id i id : (if i =? id then 1 else 0) = 1 -> i = id.
Proof. by destruct (Z.eqb_spec i id). Qed.

(** How many system calls are left to the release of the lock. *)
Definition rank (c : pc) : nat :=
  match c with
  | CreateGetval _ _ => 4
  | CreateSet0 _ _ => 3
  | CreateSet1 _ | CloseGetval _ => 2
  | CreateEnd _ _ | CloseRm _ | CloseUnlock _ _ => 1
  | _ => 0
  end.

(** The lock is never held by a process that waits.  In every reachable state a
    process that holds the lock of a set can make its next system call at once, it
    succeeds when nothing goes wrong in the call itself, and each one brings the process nearer to the release of the lock. *)
Lemma sem_lock_released init n st p pr id :
  (forall key, 0 <= init key <= SEMVMX) -> reach init n st -> procs st !! p = Some pr -> cs id pr = 1 ->
  exists st' pr', act (Run p None) st = Some st' /\ procs st' !! p = Some pr' /\ (rank (p_pc pr') < rank (p_pc pr))%nat /\
    forall why e, p_pc pr' <> Dead why e.
Proof.
  intros Hin Hr Hp Hc. apply (reach_inv init Hin) in Hr.
  destruct (in_section init st p pr id Hr Hp Hc) as (s & Hs & H2 & _ & Ha & Hok & Hset).
  destruct (set_facts init st id s p pr Hr Hs Hp) as (_ & Ho & HH & Hm1 & _). pose proof (lookup_lt_Some _ _ _ Hp) as Hlt.
  assert (Hdo : forall m k, step p None (p_pc pr) (kern st) = Some (m, k) ->
    (rank (p_pc (advance p m pr k).1) < rank (p_pc pr))%nat -> (forall why e, p_pc (advance p m pr k).1 <> Dead why e) ->
    exists st' pr', act (Run p None) st = Some st' /\ procs st' !! p = Some pr' /\ (rank (p_pc pr') < rank (p_pc pr))%nat /\
      forall why e, p_pc pr' <> Dead why e).
  { intros m k E H3 H4. exists (update p (advance p m pr k) st), (advance p m pr k).1. cbn [act]. rewrite Hp. cbn [mbind option_bind].
    rewrite E. split_and!; [done| |done|done]. cbn [procs update]. by rewrite list_lookup_insert_eq. }
  unfold cs in Hc. unfold pc_ok in Hok. destruct (p_pc pr) eqn:Hpc; try done; apply section_id in Hc as ->;
    specialize (Hok eq_refl); cbn [step] in Hdo.
  - eapply Hdo; [cbn; unfold semctl_getval; rewrite Hs; reflexivity|cbn; case_if; cbn; lia|cbn; intros why e; by case_if].
  - eapply Hdo; [cbn; unfold semctl_setval; rewrite Hs; reflexivity|cbn; lia|done].
  - eapply Hdo; [cbn; unfold semctl_setval; rewrite Hs; reflexivity|cbn; lia|done].
  - eapply Hdo; [cbn -[do_ops]; rewrite Hs, Ha, do_op_endcreate by (cbn; lia); reflexivity|cbn; lia|done].
  - destruct (Z.ltb_spec BIGCOUNT (m1 (s_val s))) as [|Hb]; [lia|].
    eapply Hdo; [cbn; unfold semctl_getval; rewrite Hs; cbn; rewrite (proj2 (Z.ltb_ge _ _) Hb); reflexivity
      |cbn; case_if; cbn; lia|cbn; intros why e; by case_if].
  - eapply Hdo; [cbn; unfold semctl_rmid; rewrite Hs; reflexivity|cbn; lia|done].
  - eapply Hdo; [cbn -[do_ops]; rewrite Hs, Ha, do_op_unlock by (cbn; lia); reflexivity|cbn; lia|done].
Qed.

Lemma sem_lock_released_witness : exists st st' pr', allowed_run one (take 4 create0) (boot 1) = Some st /\
  act (Run 0 None) st = Some st' /\ procs st' !! 0%nat = Some pr' /\ (rank (p_pc pr') < 3)%nat.
Proof.
  destruct (allowed_run one (take 4 create0) (boot 1)) as [st|] eqn:E; [|vm_compute in E; discriminate].
  assert (Hr : reach one 1 st) by (eapply allowed_run_reach; [apply reach_boot|exact E]).
  assert (Hp : procs st !! 0%nat = Some (mkProc (CreateSet0 0 1) 0 [] [])) by (vm_compute in E; by injection E as <-).
  destruct (sem_lock_released one 1 st 0 _ 0 one_range Hr Hp eq_refl) as (st' & pr' & H1 & H2 & H3 & _).
  exists st, st', pr'. split; [reflexivity|]. split; [exact H1|]. split; [exact H2|]. exact H3.
Defined.

(** Sem_open is not safe.  It does not take the lock, so it can count itself in
    between the last user's look at the counter and the removal: it returns a good
    id, the set is gone, and the process dies at its first operation. *)
Lemma sem_open_race :
  match acts (create0 ++ [Start 1 (COpen 7); Run 1 None; Start 0 (CClose 0); Run 0 None; Run 0 None; Run 1 None; Run 0 None]) (boot 2) with
  | Some st =>
    procs st !! 1%nat = Some (mkProc Idle 0 [0] []) /\ k_sets (kern st) !! 0 = None /\
    (procs <$> acts [Start 1 (CWait 0); Run 1 None] st) ≫= (.!! 1%nat) = Some (dead "sem_op error" (Some EINVAL))
  | None => False
  end.
Proof. vm_compute. done. Qed.

(** Sem_create goes back and creates the set again when it was removed before
    the call that takes the lock (EINVAL), but not when it was removed during that
    call (EIDRM): a process that waits for the lock while the last user closes the
    semaphore ends with an error. *)
Lemma sem_create_race :
  (procs <$> acts (create0 ++ [Start 0 (CClose 0); Run 0 None; Start 1 (CCreate 7 1); Run 1 None; Run 1 None;
                               Run 0 None; Run 0 None; Run 1 None]) (boot 2)) ≫= (.!! 1%nat) = Some (dead "can't lock" (Some EIDRM)).
Proof. vm_compute. reflexivity. Qed.
