(* ===== verification/Acl.v ===== *)
(** * Acl: tlpi-dist/acl/acl_update.c, updates of access control lists.

    The program parses a textual list of entries and applies them, one after the
    other, to the ACLs of the files on its command line.  The ACL library libacl is
    not part of the repository: it is the class [AclLib] of the operations the
    program calls, with the class [AclLaws] of what their documentation says of
    them.  The name services are arguments. *)
From S2P Require Import Prelude Libc.
Local Open Scope Z_scope.

(** ** Constants of <sys/acl.h> *)

Definition ACL_UNDEFINED_TAG : Z := 0x00.
Definition ACL_USER_OBJ : Z := 0x01.
Definition ACL_USER : Z := 0x02.
Definition ACL_GROUP_OBJ : Z := 0x04.
Definition ACL_GROUP : Z := 0x08.
Definition ACL_MASK : Z := 0x10.
Definition ACL_OTHER : Z := 0x20.
Definition ACL_READ : Z := 4.
Definition ACL_WRITE : Z := 2.
Definition ACL_EXECUTE : Z := 1.
Definition ACL_TYPE_ACCESS : Z := 0x8000.
Definition ACL_TYPE_DEFAULT : Z := 0x4000.

(** ** Parsing *)

Definition MAX_ENTRIES : Z := 10000.
Definition COLON : Z := 58.
Definition COMMA : Z := 44.

(** struct AccessControlEntry; the permissions are set only when the text has them. *)
Record ace := mkAce { a_tag : Z; a_qual : Z; a_perms : option Z }.

(** strtol(name, &endptr, 10) with *endptr == 0: blanks, a sign, and digits to the
    end; the value becomes a 32-bit id. *)
Definition unsigned_digits (s : bytes) : bool :=
  match s with [] => false | _ => forallb isdigit s end.
Definition whole_number (s : bytes) : bool :=
  match skip_space s with
  | c :: s' => if (c =? 43) || (c =? 45) then unsigned_digits s' else unsigned_digits (c :: s')
  | [] => false
  end.
(** [userIdFromName] and [groupIdFromName], given getpwnam or getgrnam; -1 is the
    largest id. *)
Definition NO_ID : Z := 2 ^ 32 - 1.
Definition idFromName (lookup_name : bytes -> option Z) (name : bytes) : Z :=
  match name with
  | [] => NO_ID
  | _ => if whole_number name then wrap_u 32 (atol name) else default NO_ID (lookup_name name)
  end.

(** The loop over the permission characters. *)
Fixpoint parse_perms (perms : Z) (s : bytes) : option Z :=
  match s with
  | [] => Some perms
  | c :: s' =>
    if c =? 114 then parse_perms (Z.lor perms ACL_READ) s'
    else if c =? 119 then parse_perms (Z.lor perms ACL_WRITE) s'
    else if c =? 120 then parse_perms (Z.lor perms ACL_EXECUTE) s'
    else if c =? 45 then parse_perms perms s'
    else None
  end.

(** The tag type, from the tag's name and the presence of a qualifier. *)
Definition parse_tag (tag : bytes) (hasQual : bool) : option Z :=
  if bool_decide (tag = str "u") || bool_decide (tag = str "user") then Some (if hasQual then ACL_USER else ACL_USER_OBJ)
  else if bool_decide (tag = str "g") || bool_decide (tag = str "group") then Some (if hasQual then ACL_GROUP else ACL_GROUP_OBJ)
  else if bool_decide (tag = str "o") || bool_decide (tag = str "other") then Some ACL_OTHER
  else if bool_decide (tag = str "m") || bool_decide (tag = str "mask") then Some ACL_MASK
  else None.

Section Names.
Context (getpwnam getgrnam : bytes -> option Z).
Definition userIdFromName : bytes -> Z := idFromName getpwnam.
Definition groupIdFromName : bytes -> Z := idFromName getgrnam.

(** [parseEntrySpec]: [None] for FALSE. *)
Definition parseEntrySpec (entryStr : bytes) (permsReqd : bool) : option ace :=
  match strchr entryStr COLON with
  | None => None
  | Some colon1 =>
    let tag := take colon1 entryStr in
    let rest := drop (S colon1) entryStr in
    let hasQual := match rest with [] => false | c :: _ => negb (c =? COLON) end in
    let colon2 := strchr rest COLON in
    let qual := match colon2 with Some n => take n rest | None => rest end in
    let perms := match colon2 with Some n => drop (S n) rest | None => [] end in
    let hasPerms := negb (bool_decide (perms = [])) in
    if hasPerms && negb permsReqd then None
    else if negb hasPerms && permsReqd then None
    else
      t ← parse_tag tag hasQual;
      let id := if t =? ACL_USER then userIdFromName qual else if t =? ACL_GROUP then groupIdFromName qual else 0 in
      if ((t =? ACL_USER) || (t =? ACL_GROUP)) && (id =? NO_ID) then None
      else if hasPerms then p ← parse_perms 0 perms; Some (mkAce t id (Some p))
      else Some (mkAce t id None)
  end.

(** [parseACL]: the entries between commas; every turn shortens the text. *)
Fixpoint parse_entries (fuel : nat) (n : Z) (nextEntry : bytes) (permsReqd : bool) : option (list ace) :=
  match fuel with
  | O => None
  | S fuel' =>
    if MAX_ENTRIES <=? n then None
    else
      match strchr nextEntry COMMA with
      | None => a ← parseEntrySpec nextEntry permsReqd; Some [a]
      | Some comma =>
        a ← parseEntrySpec (take comma nextEntry) permsReqd;
        l ← parse_entries fuel' (n + 1) (drop (S comma) nextEntry) permsReqd;
        Some (a :: l)
      end
  end.
Definition parseACL (aclStr : bytes) (permsReqd : bool) : option (list ace) :=
  parse_entries (S (length aclStr)) 0 aclStr permsReqd.
End Names.

(** ** libacl *)

(** An entry: tag, qualifier and permissions. *)
Definition entry : Type := Z * Z * Z.
Definition e_tag (e : entry) : Z := e.1.1.
Definition e_qual (e : entry) : Z := e.1.2.
Definition e_perms (e : entry) : Z := e.2.

(** The operations, on an ACL [A]; [None] is the result -1, and an entry is named by
    its descriptor.  The calls that only read an ACL give what is in it. *)
Class AclLib (A : Type) := {
  acl_entry_t : Type;
  acl_entries : A -> list (acl_entry_t * entry);  (* what acl_get_entry goes through, in its order *)
  acl_delete_entry : acl_entry_t -> A -> option A;
  acl_create_entry : A -> option (acl_entry_t * A);
  acl_set_tag_type : acl_entry_t -> Z -> A -> option A;
  acl_set_qualifier : acl_entry_t -> Z -> A -> option A;
  (* on the permission set of an entry, through the descriptor of acl_get_permset *)
  acl_clear_perms : acl_entry_t -> A -> option A;
  acl_add_perm : acl_entry_t -> Z -> A -> option A;
  acl_set_permset : acl_entry_t -> A -> option A;  (* to the entry's own set *)
  acl_calc_mask : A -> option A;
  acl_valid : A -> bool
}.

(** Whether an entry has a qualifier, and what tells it from the other entries. *)
Definition qualified (t : Z) : bool := (t =? ACL_USER) || (t =? ACL_GROUP).
Definition key_of (t q : Z) : Z * Z := (t, if qualified t then q else 0).
Definition e_key (e : entry) : Z * Z := key_of (e_tag e) (e_qual e).

(** The file group class, whose permissions the mask limits. *)
Definition in_class (t : Z) : bool := (t =? ACL_USER) || (t =? ACL_GROUP) || (t =? ACL_GROUP_OBJ).
Definition class_perms (l : list entry) : Z :=
  foldr (fun e x => if in_class (e_tag e) then Z.lor (e_perms e) x else x) 0 l.

(** Their documentation.  It says which entry is changed and that the others stay, with
    their descriptors, but not where the entry is afterwards: the laws are up to the
    order of the entries. *)
Class AclLaws (A : Type) `{!AclLib A} : Prop := {
  law_delete : forall d (a a' : A) e l, acl_delete_entry d a = Some a' ->
    acl_entries a ≡ₚ (d, e) :: l -> acl_entries a' ≡ₚ l;
  law_create : forall d (a a' : A), acl_create_entry a = Some (d, a') ->
    exists q, acl_entries a' ≡ₚ (d, (ACL_UNDEFINED_TAG, q, 0)) :: acl_entries a;
  law_tag : forall d t (a a' : A) e l, acl_set_tag_type d t a = Some a' ->
    acl_entries a ≡ₚ (d, e) :: l -> exists q, acl_entries a' ≡ₚ (d, (t, q, e_perms e)) :: l;
  law_qual : forall d q (a a' : A) e l, acl_set_qualifier d q a = Some a' ->
    acl_entries a ≡ₚ (d, e) :: l -> acl_entries a' ≡ₚ (d, (e_tag e, q, e_perms e)) :: l;
  law_clear : forall d (a a' : A) e l, acl_clear_perms d a = Some a' ->
    acl_entries a ≡ₚ (d, e) :: l -> acl_entries a' ≡ₚ (d, (e_tag e, e_qual e, 0)) :: l;
  law_add : forall d p (a a' : A) e l, acl_add_perm d p a = Some a' ->
    acl_entries a ≡ₚ (d, e) :: l -> acl_entries a' ≡ₚ (d, (e_tag e, e_qual e, Z.lor (e_perms e) p)) :: l;
  law_set : forall d (a a' : A) e l, acl_set_permset d a = Some a' ->
    acl_entries a ≡ₚ (d, e) :: l -> acl_entries a' ≡ₚ (d, e) :: l;
  (* in an ACL without duplicates, the mask entry, which is made if there is none, gets
     the union of the permissions of the file group class; the descriptors are new *)
  law_mask : forall a a' : A, acl_calc_mask a = Some a' ->
    NoDup (map e_key (map snd (acl_entries a))) ->
    exists q, map snd (acl_entries a') ≡ₚ
      (ACL_MASK, q, class_perms (map snd (acl_entries a))) :: filter (fun e => e_tag e <> ACL_MASK) (map snd (acl_entries a));
  (* no two entries of a valid ACL are for the same user, group or class *)
  law_valid : forall a : A, acl_valid a = true -> NoDup (map e_key (map snd (acl_entries a)))
}.

Section Update.
Context {A : Type} `{!AclLib A}.

(** [findEntry]: the descriptor of the entry. *)
Fixpoint find_from (t q : Z) (l : list (acl_entry_t * entry)) : option acl_entry_t :=
  match l with
  | [] => None
  | (d, e) :: l' =>
    if (e_tag e =? t) && (negb (qualified t) || (e_qual e =? q)) then Some d else find_from t q l'
  end.
Definition findEntry (a : A) (t q : Z) : option acl_entry_t := find_from t q (acl_entries a).

(** [setPerms]. *)
Definition add_if (perms p : Z) (d : acl_entry_t) (a : A) : option A :=
  if negb (Z.land perms p =? 0) then acl_add_perm d p a else Some a.
Definition setPerms (d : acl_entry_t) (perms : Z) (a : A) : option A :=
  a ← acl_clear_perms d a;
  a ← add_if perms ACL_READ d a;
  a ← add_if perms ACL_WRITE d a;
  a ← add_if perms ACL_EXECUTE d a;
  acl_set_permset d a.

(** One entry of the list applied to an ACL, up to its validity. *)
Definition remove_entry (en : ace) (a : A) : option A :=
  match findEntry a (a_tag en) (a_qual en) with
  | Some d => acl_delete_entry d a
  | None => Some a
  end.
Definition modify_entry (en : ace) (a : A) : option A :=
  '(d, a) ← (match findEntry a (a_tag en) (a_qual en) with
             | Some d => Some (d, a)
             | None =>
               '(d, a) ← acl_create_entry a;
               a ← acl_set_tag_type d (a_tag en) a;
               a ← (if qualified (a_tag en) then acl_set_qualifier d (a_qual en) a else Some a);
               Some (d, a)
             end);
  setPerms d (default 0 (a_perms en)) a.
Definition apply_entry (remove recalcMask : bool) (en : ace) (a : A) : option A :=
  a ← (if remove then remove_entry en a else modify_entry en a);
  a ← (if recalcMask then acl_calc_mask a else Some a);
  if acl_valid a then Some a else None.

(** ** Files *)

(** The ACLs of the files, and which files may be changed. *)
Record fstate := mkF { f_acls : gmap (bytes * Z) A; f_denied : bytes -> bool }.
Inductive outcome := Finished (st : fstate) | Failed (st : fstate).

Definition acl_set_file (path : bytes) (type : Z) (a : A) (st : fstate) : option fstate :=
  if f_denied st path then None else Some (mkF (<[(path, type) := a]> (f_acls st)) (f_denied st)).

(** The entries applied to one file: the file is written after each one. *)
Fixpoint update_file (remove recalcMask : bool) (path : bytes) (type : Z) (es : list ace) (a : A) (st : fstate) : outcome :=
  match es with
  | [] => Finished st
  | en :: es' =>
    match apply_entry remove recalcMask en a with
    | None => Failed st
    | Some a' =>
      match acl_set_file path type a' st with
      | None => Failed st
      | Some st' => update_file remove recalcMask path type es' a' st'
      end
    end
  end.

(** The loop of [main] over the files, for -m and -x. *)
Fixpoint update_files (remove recalcMask : bool) (type : Z) (es : list ace) (paths : list bytes) (st : fstate) : outcome :=
  match paths with
  | [] => Finished st
  | path :: paths' =>
    match f_acls st !! (path, type) with
    | None => Failed st
    | Some a =>
      match update_file remove recalcMask path type es a st with
      | Finished st' => update_files remove recalcMask type es paths' st'
      | Failed st' => Failed st'
      end
    end
  end.

(** The same loop for -k: acl_delete_def_file. *)
Fixpoint delete_defaults (paths : list bytes) (st : fstate) : outcome :=
  match paths with
  | [] => Finished st
  | path :: paths' =>
    if f_denied st path then Failed st
    else delete_defaults paths' (mkF (delete (path, ACL_TYPE_DEFAULT) (f_acls st)) (f_denied st))
  end.

(** ** main *)

(** The options, as getopt returns them. *)
Inductive opt := OptM (spec : bytes) | OptX (spec : bytes) | OptK | OptV (spec : bytes) | OptD | OptN | OptBad.

Record settings := mkSettings {
  recalcMask : bool; useDefaultACL : bool; modifyACL : bool; removeACL : bool;
  removeDefaultACL : bool; checkValidity : bool; optCnt : Z; aclSpec : bytes
}.
Definition no_settings : settings := mkSettings true false false false false false 0 [].

(** [None]: usageError. *)
Fixpoint parse_opts (os : list opt) (s : settings) : option settings :=
  match os with
  | [] => Some s
  | o :: os' =>
    match o with
    | OptM spec => parse_opts os' (mkSettings (recalcMask s) (useDefaultACL s) true (removeACL s) (removeDefaultACL s) (checkValidity s) (optCnt s + 1) spec)
    | OptX spec => parse_opts os' (mkSettings (recalcMask s) (useDefaultACL s) (modifyACL s) true (removeDefaultACL s) (checkValidity s) (optCnt s + 1) spec)
    | OptK => parse_opts os' (mkSettings (recalcMask s) (useDefaultACL s) (modifyACL s) (removeACL s) true (checkValidity s) (optCnt s + 1) (aclSpec s))
    | OptV spec => parse_opts os' (mkSettings (recalcMask s) (useDefaultACL s) (modifyACL s) (removeACL s) (removeDefaultACL s) true (optCnt s + 1) spec)
    | OptD => parse_opts os' (mkSettings (recalcMask s) true (modifyACL s) (removeACL s) (removeDefaultACL s) (checkValidity s) (optCnt s) (aclSpec s))
    | OptN => parse_opts os' (mkSettings false (useDefaultACL s) (modifyACL s) (removeACL s) (removeDefaultACL s) (checkValidity s) (optCnt s) (aclSpec s))
    | OptBad => None
    end
  end.

Inductive result := Usage | BadSpec | Valid | Ran (o : outcome).

Definition acl_update (getpwnam getgrnam : bytes -> option Z) (os : list opt) (paths : list bytes) (st : fstate) : result :=
  match parse_opts os no_settings with
  | None => Usage
  | Some s =>
    if negb (optCnt s =? 1) then Usage
    else if checkValidity s && useDefaultACL s then Usage
    else if checkValidity s then
      match parseACL getpwnam getgrnam (aclSpec s) true with None => BadSpec | Some _ => Valid end
    else if removeDefaultACL s then Ran (delete_defaults paths st)
    else
      match parseACL getpwnam getgrnam (aclSpec s) (modifyACL s) with
      | None => BadSpec
      | Some es =>
        Ran (update_files (removeACL s) (recalcMask s) (if useDefaultACL s then ACL_TYPE_DEFAULT else ACL_TYPE_ACCESS) es paths st)
      end
  end.
End Update.
Arguments fstate A : clear implicits.
Arguments outcome A : clear implicits.
