(* ===== verification/AclSpec.v ===== *)
(** * AclSpec: acl_update.c against finite maps.

    An ACL stands for a map from the users, groups and classes it names, the mask among
    them, to their permissions.  Applying an entry of the command line is an insertion
    or a deletion, after which the mask becomes the union of the permissions of the file
    group class unless -n was given. *)
From S2P Require Import Prelude Libc Acl.
Local Open Scope Z_scope.

(** ** ACLs as maps *)

Definition entry_map (l : list entry) : gmap (Z * Z) Z := list_to_map (map (fun e => (e_key e, e_perms e)) l).

(** The union of the permissions of the file group class. *)
Definition class_of (m : gmap (Z * Z) Z) : Z :=
  foldr (fun x r => if in_class x.1.1 then Z.lor x.2 r else r) 0 (map_to_list m).

(** What one entry of the command line asks for. *)
Definition spec_entry (remove recalc : bool) (m : gmap (Z * Z) Z) (en : ace) : gmap (Z * Z) Z :=
  let k := key_of (a_tag en) (a_qual en) in
  let m := if remove then delete k m else <[k := default 0 (a_perms en)]> m in
  if recalc then <[(ACL_MASK, 0) := class_of m]> m else m.

Definition dup_free (l : list entry) : Prop := NoDup (map e_key l).

Lemma dup_free_map l : dup_free l -> NoDup (map (fun e => (e_key e, e_perms e)) l).*1.
Proof. unfold dup_free. intros H. rewrite <- list_fmap_compose. exact H. Qed.

Lemma dup_free_perm l l' : l ≡ₚ l' -> dup_free l -> dup_free l'.
Proof. unfold dup_free. intros H. by rewrite <- H. Qed.

(** The order of the entries does not matter. *)
Lemma entry_map_perm l l' : dup_free l -> l ≡ₚ l' -> entry_map l = entry_map l'.
Proof. intros Hd Hp. apply list_to_map_proper; [by apply dup_free_map|by apply Permutation_map]. Qed.

Lemma entry_map_cons e l : entry_map (e :: l) = <[e_key e := e_perms e]> (entry_map l).
Proof. done. Qed.

Lemma entry_map_fresh l k : k ∉ map e_key l -> entry_map l !! k = None.
Proof. intros Hk. apply not_elem_of_list_to_map_1. by rewrite <- list_fmap_compose. Qed.

Lemma class_of_entries l : dup_free l -> class_of (entry_map l) = class_perms l.
Proof.
  intros Hd. unfold class_of, entry_map.
  transitivity (foldr (fun x r => if in_class x.1.1 then Z.lor x.2 r else r) 0 (map (fun e => (e_key e, e_perms e)) l)).
  - apply (foldr_permutation eq); [apply _|..].
    + intros _ x _ y r _ _ _. destruct (in_class x.1.1), (in_class y.1.1); try done. by rewrite !Z.lor_assoc, (Z.lor_comm x.2).
    + apply map_to_list_to_map. by apply dup_free_map.
  - clear Hd. unfold class_perms. induction l as [|e l IH]; [done|]. cbn [map foldr fst snd]. by rewrite IH.
Qed.

(** Taking the mask out. *)
Lemma entry_map_no_mask l :
  dup_free l -> entry_map (filter (fun e => e_tag e <> ACL_MASK) l) = delete (ACL_MASK, 0) (entry_map l).
Proof.
  induction l as [|e l IH]; intros Hd; [symmetry; apply delete_empty|]. apply NoDup_cons in Hd as [Hf Hd]. rewrite filter_cons.
  destruct (decide (e_tag e <> ACL_MASK)) as [Hm|Hm].
  - rewrite !entry_map_cons, IH by done. rewrite delete_insert_ne; [done|]. intros E. destruct Hm. by injection E.
  - assert (Hk : e_key e = (ACL_MASK, 0)).
    { unfold e_key, key_of. destruct (decide (e_tag e = ACL_MASK)) as [->|]; [done|tauto]. }
    rewrite entry_map_cons, IH, Hk by done. rewrite Hk in Hf. by rewrite delete_insert_eq.
Qed.

Lemma dup_free_no_mask q p l : dup_free l -> dup_free ((ACL_MASK, q, p) :: filter (fun e => e_tag e <> ACL_MASK) l).
Proof.
  intros Hd. apply NoDup_cons. split.
  - intros (e & E & He)%list_elem_of_fmap. apply list_elem_of_filter in He as [Hm _]. destruct Hm. by injection E.
  - unfold dup_free in *. induction l as [|e l IH]; [done|]. apply NoDup_cons in Hd as [Hf Hd]. rewrite filter_cons.
    destruct (decide _); [|by apply IH]. apply NoDup_cons. split; [|by apply IH].
    intros (x & E & Hx)%list_elem_of_fmap. apply Hf, list_elem_of_fmap. apply list_elem_of_filter in Hx as [_ Hx]. eauto.
Qed.

(** ** Finding an entry *)

Lemma same_key e t q : (e_tag e =? t) && (negb (qualified t) || (e_qual e =? q)) = true <-> e_key e = key_of t q.
Proof.
  unfold e_key, key_of. destruct (Z.eqb_spec (e_tag e) t) as [<-|Hne]; simpl.
  - destruct (qualified (e_tag e)); simpl; [|by split]. rewrite Z.eqb_eq. split; [by intros ->|by intros [= ->]].
  - split; [done|]. intros [= ? _]. done.
Qed.

Section Spec.
Context {A : Type} `{!AclLib A} `{!AclLaws A}.

Lemma find_from_spec t q (l : list (acl_entry_t * entry)) :
  match find_from t q l with
  | Some d => exists e l', l ≡ₚ (d, e) :: l' /\ e_key e = key_of t q
  | None => key_of t q ∉ map e_key (map snd l)
  end.
Proof.
  induction l as [|[d e] l IH]; cbn [find_from map snd]; [by apply not_elem_of_nil|].
  destruct ((e_tag e =? t) && _) eqn:E.
  - exists e, l. split; [done|]. by apply same_key.
  - destruct (find_from t q l) as [d'|].
    + destruct IH as (x & l' & Hl & Hk). exists x, ((d, e) :: l'). split; [|done]. rewrite Hl. apply Permutation_swap.
    + rewrite elem_of_cons. intros [Hk|Hk]; [|done]. symmetry in Hk. apply same_key in Hk. congruence.
Qed.

Definition ents (a : A) : list entry := map snd (acl_entries a).
Definition amap (a : A) : gmap (Z * Z) Z := entry_map (ents a).
Definition proper (a : A) : Prop := dup_free (ents a).
Definition perms_wf (en : ace) : Prop := 0 <= default 0 (a_perms en) < 8.

Lemma ents_perm a l : acl_entries a ≡ₚ l -> ents a ≡ₚ map snd l.
Proof. apply Permutation_map. Qed.

(** An ACL with a known set of entries. *)
Lemma amap_perm a l : dup_free l -> ents a ≡ₚ l -> amap a = entry_map l /\ proper a.
Proof.
  intros Hd Hp. assert (proper a) by (eapply dup_free_perm; [symmetry; exact Hp|done]). split; [|done].
  by apply entry_map_perm.
Qed.

Lemma remove_entry_spec en a a' :
  proper a -> remove_entry en a = Some a' -> amap a' = delete (key_of (a_tag en) (a_qual en)) (amap a) /\ proper a'.
Proof.
  intros Hp E. unfold remove_entry, findEntry in E. pose proof (find_from_spec (a_tag en) (a_qual en) (acl_entries a)) as Hf.
  destruct (find_from _ _ _) as [d|].
  - destruct Hf as (e & l & Hl & Hk). assert (Hl' := law_delete _ _ _ _ _ E Hl). apply ents_perm in Hl, Hl'. cbn [map snd] in Hl.
    assert (Hd : dup_free (e :: map snd l)) by (by eapply dup_free_perm). apply NoDup_cons in Hd as [Hfr Hd].
    destruct (amap_perm a' _ Hd Hl') as [-> ?]. split; [|done]. unfold amap. rewrite (entry_map_perm _ _ Hp Hl), entry_map_cons, Hk.
    rewrite delete_insert_id; [done|]. rewrite <- Hk. by apply entry_map_fresh.
  - injection E as <-. split; [|done]. rewrite delete_id; [done|]. by apply entry_map_fresh.
Qed.

Lemma add_if_spec perms p d a a' e l :
  add_if perms p d a = Some a' -> acl_entries a ≡ₚ (d, e) :: l ->
  acl_entries a' ≡ₚ (d, (e_tag e, e_qual e, Z.lor (e_perms e) (if Z.land perms p =? 0 then 0 else p))) :: l.
Proof.
  unfold add_if. destruct (Z.land perms p =? 0); cbn [negb]; [|apply law_add]. intros [= <-].
  destruct e as [[t q] x]. cbn. by rewrite Z.lor_0_r.
Qed.

Lemma bits_of p : 0 <= p < 8 ->
  Z.lor (Z.lor (Z.lor 0 (if Z.land p 4 =? 0 then 0 else 4)) (if Z.land p 2 =? 0 then 0 else 2)) (if Z.land p 1 =? 0 then 0 else 1) = p.
Proof.
  intros Hp. assert (p = 0 \/ p = 1 \/ p = 2 \/ p = 3 \/ p = 4 \/ p = 5 \/ p = 6 \/ p = 7) as Hc by lia.
  repeat (destruct Hc as [-> | Hc]; [reflexivity|]). by subst.
Qed.

Lemma setPerms_spec d perms a a' e l :
  0 <= perms < 8 -> setPerms d perms a = Some a' -> acl_entries a ≡ₚ (d, e) :: l ->
  acl_entries a' ≡ₚ (d, (e_tag e, e_qual e, perms)) :: l.
Proof.
  intros Hp E Hl. unfold setPerms in E. destruct (acl_clear_perms d a) as [a1|] eqn:E1; [|done]. cbn in E.
  destruct (add_if perms ACL_READ d a1) as [a2|] eqn:E2; [|done]. cbn in E.
  destruct (add_if perms ACL_WRITE d a2) as [a3|] eqn:E3; [|done]. cbn in E.
  destruct (add_if perms ACL_EXECUTE d a3) as [a4|] eqn:E4; [|done]. cbn in E.
  assert (H1 := law_clear _ _ _ _ _ E1 Hl). assert (H2 := add_if_spec _ _ _ _ _ _ _ E2 H1).
  assert (H3 := add_if_spec _ _ _ _ _ _ _ E3 H2). assert (H4 := add_if_spec _ _ _ _ _ _ _ E4 H3).
  assert (H5 := law_set _ _ _ _ _ E H4). cbn -[Z.land Z.lor Z.eqb] in H5. unfold ACL_READ, ACL_WRITE, ACL_EXECUTE in H5.
  by rewrite bits_of in H5.
Qed.

Lemma modify_entry_spec en a a' :
  proper a -> perms_wf en -> modify_entry en a = Some a' ->
  amap a' = <[key_of (a_tag en) (a_qual en) := default 0 (a_perms en)]> (amap a) /\ proper a'.
Proof.
  intros Hp Hw E. unfold modify_entry, findEntry in E. pose proof (find_from_spec (a_tag en) (a_qual en) (acl_entries a)) as Hf.
  set (k := key_of (a_tag en) (a_qual en)) in *. set (p := default 0 (a_perms en)) in *.
  (* the outcome, from an ACL in which the entry is there, among [l] *)
  assert (Hset : forall a1 d e l, setPerms d p a1 = Some a' -> acl_entries a1 ≡ₚ (d, e) :: l -> e_key e = k ->
    dup_free (e :: map snd l) -> amap a' = <[k := p]> (entry_map (map snd l)) /\ proper a').
  { intros a1 d e l Es Hl Hk Hd. apply (setPerms_spec _ _ _ _ _ _ Hw Es), ents_perm in Hl. cbn [map snd] in Hl.
    eapply (amap_perm a') in Hl as [-> ?]; [|exact Hd]. rewrite entry_map_cons. by rewrite <- Hk. }
  destruct (find_from _ _ _) as [d|].
  - destruct Hf as (e & l & Hl & Hk). cbn in E. assert (Hl' := ents_perm _ _ Hl). cbn [map snd] in Hl'.
    assert (Hd : dup_free (e :: map snd l)) by (by eapply dup_free_perm).
    destruct (Hset a d e l E Hl Hk Hd) as [-> ?]. split; [|done]. unfold amap.
    rewrite (entry_map_perm _ _ Hp Hl'), entry_map_cons, Hk. by rewrite insert_insert_eq.
  - destruct (acl_create_entry a) as [[d a1]|] eqn:E1; [|done]. cbn in E.
    destruct (acl_set_tag_type d (a_tag en) a1) as [a2|] eqn:E2; [|done]. cbn in E.
    destruct (if qualified (a_tag en) then acl_set_qualifier d (a_qual en) a2 else Some a2) as [a3|] eqn:E3; [|done]. cbn in E.
    destruct (law_create _ _ _ E1) as [q1 H1]. destruct (law_tag _ _ _ _ _ _ E2 H1) as [q2 H2].
    assert (exists q, acl_entries a3 ≡ₚ (d, (a_tag en, q, 0)) :: acl_entries a /\ key_of (a_tag en) q = k) as (q & H3 & Hk).
    { unfold k, key_of. destruct (qualified (a_tag en)).
      - exists (a_qual en). split; [exact (law_qual _ _ _ _ _ _ E3 H2)|done].
      - injection E3 as <-. by exists q2. }
    apply (Hset a3 d (a_tag en, q, 0) (acl_entries a) E H3 Hk). apply NoDup_cons. split; [|exact Hp].
    change (e_key (a_tag en, q, 0)) with (key_of (a_tag en) q). by rewrite Hk.
Qed.

Lemma calc_mask_spec a a' :
  proper a -> acl_calc_mask a = Some a' -> amap a' = <[(ACL_MASK, 0) := class_of (amap a)]> (amap a) /\ proper a'.
Proof.
  intros Hp E. destruct (law_mask _ _ E Hp) as [q Hq].
  destruct (amap_perm a' _ (dup_free_no_mask _ _ _ Hp) Hq) as [-> ?]. split; [|done].
  rewrite entry_map_cons, entry_map_no_mask by done. unfold amap. rewrite class_of_entries by done.
  change (e_key (ACL_MASK, q, _)) with (ACL_MASK, 0). by rewrite insert_delete_eq.
Qed.

Lemma apply_entry_spec remove recalc en a a' :
  proper a -> perms_wf en -> apply_entry remove recalc en a = Some a' ->
  amap a' = spec_entry remove recalc (amap a) en /\ proper a'.
Proof.
  intros Hp Hw E. unfold apply_entry in E.
  destruct (if remove then remove_entry en a else modify_entry en a) as [a1|] eqn:E1; [|done]. cbn in E.
  assert (amap a1 = spec_entry remove false (amap a) en /\ proper a1) as [Ha1 Hp1]
    by (destruct remove; [by apply remove_entry_spec|by apply modify_entry_spec]).
  destruct (if recalc then acl_calc_mask a1 else Some a1) as [a2|] eqn:E2; [|done]. cbn in E.
  destruct (acl_valid a2); [|done]. injection E as <-. destruct recalc.
  - destruct (calc_mask_spec _ _ Hp1 E2) as [-> ?]. by rewrite Ha1.
  - injection E2 as <-. done.
Qed.

(** What became of one file: the first [k] entries have been applied to it. *)
Definition file_after (remove recalc : bool) (es : list ace) (k : nat) (a a' : A) : Prop :=
  proper a' /\ amap a' = foldl (spec_entry remove recalc) (amap a) (take k es).

Definition fstate_of (o : outcome A) : fstate A := match o with Finished st | Failed st => st end.
Definition finished (o : outcome A) : bool := match o with Finished _ => true | Failed _ => false end.

Lemma update_file_spec remove recalc path type es a st :
  proper a -> Forall perms_wf es -> f_acls st !! (path, type) = Some a ->
  let o := update_file remove recalc path type es a st in
  exists k a', f_acls (fstate_of o) = <[(path, type) := a']> (f_acls st) /\ file_after remove recalc es k a a' /\
    (finished o = true -> k = length es).
Proof.
  revert a st. induction es as [|en es IH]; intros a st Hp Hw Hl o.
  - exists 0%nat, a. split_and!; [by rewrite insert_id|by split|done].
  - apply Forall_cons in Hw as [Hw1 Hw]. subst o. cbn [update_file].
    destruct (apply_entry remove recalc en a) as [a1|] eqn:E1.
    2:{ exists 0%nat, a. cbn. split_and!; [by rewrite insert_id|by split|done]. }
    destruct (apply_entry_spec _ _ _ _ _ Hp Hw1 E1) as [Ha1 Hp1]. unfold acl_set_file. destruct (f_denied st path).
    { exists 0%nat, a. cbn. split_and!; [by rewrite insert_id|by split|done]. }
    destruct (IH a1 (mkF (<[(path, type) := a1]> (f_acls st)) (f_denied st)) Hp1 Hw) as (k & a' & Ef & [Hp' Ha'] & Hk);
      [cbn; by rewrite lookup_insert_eq|].
    cbv zeta in Ef, Hk. exists (S k), a'. split_and!.
    + rewrite Ef. cbn. by rewrite insert_insert_eq.
    + split; [done|]. cbn. by rewrite Ha', Ha1.
    + intros H. cbn. by rewrite Hk.
Qed.

(** All the files: the ones named get every entry, or, when the program stops
    with an error, a beginning of the list; the others stay as they are. *)
Lemma update_files_spec remove recalc type es paths st :
  NoDup paths -> Forall perms_wf es ->
  (forall path a, path ∈ paths -> f_acls st !! (path, type) = Some a -> proper a) ->
  let o := update_files remove recalc type es paths st in
  (forall path a, path ∈ paths -> f_acls st !! (path, type) = Some a ->
     exists k a', f_acls (fstate_of o) !! (path, type) = Some a' /\ file_after remove recalc es k a a' /\ (finished o = true -> k = length es)) /\
  (forall path t, path ∉ paths \/ t <> type -> f_acls (fstate_of o) !! (path, t) = f_acls st !! (path, t)) /\
  (finished o = true -> forall path, path ∈ paths -> is_Some (f_acls st !! (path, type))).
Proof.
  revert st. induction paths as [|p paths IH]; intros st Hn Hw Hp o.
  - split_and!; [by intros path a H%elem_of_nil|done|by intros _ path H%elem_of_nil].
  - apply NoDup_cons in Hn as [Hnp Hn]. subst o. cbn [update_files].
    destruct (f_acls st !! (p, type)) as [a|] eqn:Ea.
    2:{ split_and!; [|done|done]. intros path b Hb Eb. exists 0%nat, b. split; [exact Eb|]. split; [|done].
        split; [by eapply Hp|done]. }
    assert (Hpa : proper a) by (eapply Hp; [|exact Ea]; apply elem_of_cons; auto).
    destruct (update_file_spec remove recalc p type es a st Hpa Hw Ea) as (k & a' & Ef & Hf & Hk). cbv zeta in Ef, Hk.
    destruct (update_file remove recalc p type es a st) as [st1|st1]; cbn [fstate_of finished] in *.
    + assert (Hsame : forall path t, (path, t) <> (p, type) -> f_acls st1 !! (path, t) = f_acls st !! (path, t))
        by (intros path t Hne; by rewrite Ef, lookup_insert_ne).
      destruct (IH st1 Hn Hw) as (H1 & H2 & H3).
      { intros path b Hb Eb. rewrite Hsame in Eb by congruence. eapply Hp; [|exact Eb]. apply elem_of_cons. auto. }
      cbv zeta in H1, H2, H3. split_and!.
      * intros path b Hb Eb. destruct (decide (path = p)) as [->|Hne].
        -- exists k, a'. rewrite H2 by auto. rewrite Ef, lookup_insert_eq. rewrite Ea in Eb. injection Eb as <-. split_and!; auto.
        -- apply elem_of_cons in Hb as [->|Hb]; [done|]. apply H1; [done|]. rewrite Hsame by congruence. done.
      * intros path t Hd. rewrite elem_of_cons in Hd. rewrite H2, Hsame; [done| |]; intuition congruence.
      * intros Hfin path Hb. apply elem_of_cons in Hb as [->|Hb]; [eauto|]. specialize (H3 Hfin path Hb).
        rewrite Hsame in H3; [done|]. intros [= ->]. done.
    + split_and!.
      * intros path b Hb Eb. destruct (decide (path = p)) as [->|Hne].
        -- exists k, a'. rewrite Ef, lookup_insert_eq. rewrite Ea in Eb. injection Eb as <-. split_and!; auto.
        -- exists 0%nat, b. rewrite Ef, lookup_insert_ne by congruence. split; [done|]. split; [|done]. split; [by eapply Hp|done].
      * intros path t Hd. rewrite Ef, lookup_insert_ne; [done|]. rewrite elem_of_cons in Hd. intuition congruence.
      * done.
Qed.
End Spec.

(** ** The text of an ACL *)

Definition show_tag (long : bool) (t : Z) : bytes :=
  if (t =? ACL_USER) || (t =? ACL_USER_OBJ) then if long then str "user" else str "u"
  else if (t =? ACL_GROUP) || (t =? ACL_GROUP_OBJ) then if long then str "group" else str "g"
  else if t =? ACL_OTHER then if long then str "other" else str "o"
  else if long then str "mask" else str "m".
Definition show_perms (p : Z) : bytes :=
  [if Z.land p ACL_READ =? 0 then 45 else 114; if Z.land p ACL_WRITE =? 0 then 45 else 119;
   if Z.land p ACL_EXECUTE =? 0 then 45 else 120].
Definition show_entry (e : bool * ace) : bytes :=
  show_tag e.1 (a_tag e.2) ++ COLON :: (if qualified (a_tag e.2) then dec_u (a_qual e.2) else []) ++
  COLON :: show_perms (default 0 (a_perms e.2)).
Fixpoint show_acl (e : bool * ace) (es : list (bool * ace)) : bytes :=
  match es with [] => show_entry e | e' :: es' => show_entry e ++ COMMA :: show_acl e' es' end.

(** An entry -m can ask for. *)
Definition ace_wf (e : ace) : Prop :=
  a_tag e ∈ [ACL_USER_OBJ; ACL_USER; ACL_GROUP_OBJ; ACL_GROUP; ACL_MASK; ACL_OTHER] /\
  (exists p, a_perms e = Some p /\ 0 <= p < 8) /\
  (if qualified (a_tag e) then 0 <= a_qual e < NO_ID else a_qual e = 0).

Lemma parse_show_perms p : 0 <= p < 8 -> parse_perms 0 (show_perms p) = Some p.
Proof.
  intros Hp. assert (p = 0 \/ p = 1 \/ p = 2 \/ p = 3 \/ p = 4 \/ p = 5 \/ p = 6 \/ p = 7) as Hc by lia.
  repeat (destruct Hc as [-> | Hc]; [reflexivity|]). by subst.
Qed.

Lemma digits_forall n c : 0 <= n -> 57 < c \/ c < 48 -> Forall (fun x => x <> c) (dec_u n).
Proof. intros Hn Hc. eapply Forall_impl; [by apply dec_u_digits|]. intros x Hx. simpl in Hx. lia. Qed.

Lemma idFromName_digits f n : 0 <= n < NO_ID -> idFromName f (dec_u n) = n.
Proof.
  intros Hn. pose proof (dec_u_digits n ltac:(lia)) as Hd. pose proof (atol_fmt 0 n [] ltac:(unfold LONG_MAX, NO_ID in *; lia) I) as Ha.
  simpl in Ha. rewrite app_nil_r in Ha. pose proof (dec_u_nonempty n) as Hne. unfold idFromName.
  destruct (dec_u n) as [|c s] eqn:E; [done|]. assert (whole_number (c :: s) = true) as ->.
  { assert (forallb isdigit (c :: s) = true) as Hall.
    { apply forallb_forall. intros x Hx. apply list_elem_of_In in Hx. rewrite Forall_forall in Hd. specialize (Hd x Hx).
      unfold isdigit. lia. }
    apply Forall_cons in Hd as [Hc _]. unfold whole_number. simpl skip_space. unfold isspace.
    destruct (_ || _) eqn:Es; [bool_to_prop; lia|]. destruct ((c =? 43) || (c =? 45)) eqn:E2; [bool_to_prop; lia|]. exact Hall. }
  rewrite Ha. apply Z.mod_small. unfold NO_ID in Hn. lia.
Qed.

Lemma show_tag_no c long t : c < 97 \/ 122 < c -> Forall (fun x => x <> c) (show_tag long t).
Proof. intros Hc. unfold show_tag. repeat case_match; repeat constructor; simpl; lia. Qed.

Lemma parse_show_tag long t :
  t ∈ [ACL_USER_OBJ; ACL_USER; ACL_GROUP_OBJ; ACL_GROUP; ACL_MASK; ACL_OTHER] -> parse_tag (show_tag long t) (qualified t) = Some t.
Proof.
  intros Ht. repeat (apply elem_of_cons in Ht as [->|Ht]); [..|by apply elem_of_nil in Ht]; by destruct long.
Qed.

Lemma drop_past {X} (l : list X) c r : drop (S (length l)) (l ++ c :: r) = r.
Proof. by induction l. Qed.

Section Text.
Context (getpwnam getgrnam : bytes -> option Z).

Lemma parse_show_entry e : ace_wf e.2 -> parseEntrySpec getpwnam getgrnam (show_entry e) true = Some e.2.
Proof.
  destruct e as [long [t q pp]]. intros (Ht & (p & Hp & Hp8) & Hq). cbn [a_tag a_qual a_perms fst snd] in *. subst pp.
  unfold show_entry, parseEntrySpec. cbn [a_tag a_qual a_perms fst snd]. change (default 0 (Some p)) with p.
  rewrite strchr_app by (apply show_tag_no; unfold COLON; lia). cbv zeta.
  set (qs := if qualified t then dec_u q else []).
  rewrite take_app_length, drop_past. cbn [app].
  assert (Hqs : Forall (fun x => x <> COLON) qs).
  { unfold qs. destruct (qualified t); [|done]. apply digits_forall; [|unfold COLON; lia]. lia. }
  rewrite (strchr_app qs) by done. rewrite take_app_length, drop_past.
  change (negb (bool_decide (show_perms p = []))) with true. cbn [negb andb].
  rewrite parse_show_perms by done. cbn [mbind option_bind].
  assert (Hhas : match qs ++ COLON :: show_perms p with [] => false | c :: _ => negb (c =? COLON) end = qualified t).
  { unfold qs in *. destruct (qualified t); [|done]. pose proof (dec_u_nonempty q). destruct (dec_u q) as [|c s]; [done|].
    simpl. apply Forall_cons in Hqs as [Hc _]. by destruct (Z.eqb_spec c COLON). }
  rewrite Hhas. clear Hhas Hqs. unfold qs, userIdFromName, groupIdFromName in *. clear qs.
  rewrite parse_show_tag by done. cbn [mbind option_bind].
  repeat (apply elem_of_cons in Ht as [->|Ht]); [..|by apply elem_of_nil in Ht]; cbn -[dec_u idFromName NO_ID] in Hq |- *;
    subst; try reflexivity; rewrite idFromName_digits by done; (destruct (Z.eqb_spec q NO_ID); [lia|]); reflexivity.
Qed.

Lemma show_entry_no_comma e : ace_wf e.2 -> Forall (fun x => x <> COMMA) (show_entry e).
Proof.
  destruct e as [long [t q pp]]. intros (Ht & (p & Hp & Hp8) & Hq). cbn [a_tag a_qual a_perms fst snd] in *. subst pp.
  unfold show_entry. cbn [a_tag a_qual a_perms fst snd default].
  apply Forall_app. split; [apply show_tag_no; unfold COMMA; lia|]. apply Forall_cons. split; [done|].
  apply Forall_app. split.
  - destruct (qualified t); [|done]. apply digits_forall; [lia|unfold COMMA; lia].
  - apply Forall_cons. split; [done|]. unfold show_perms. by destruct (_ =? _), (_ =? _), (_ =? _); repeat constructor.
Qed.

Lemma parse_show_entries e es fuel n :
  Forall (fun e => ace_wf e.2) (e :: es) -> 0 <= n -> n + Z.of_nat (length es) < MAX_ENTRIES -> (length es < fuel)%nat ->
  parse_entries getpwnam getgrnam fuel n (show_acl e es) true = Some (map snd (e :: es)).
Proof.
  revert e fuel n. induction es as [|e' es IH]; intros e fuel n Hw Hn Hm Hf; (destruct fuel as [|fuel]; [lia|]);
    apply Forall_cons in Hw as [He Hw]; cbn [parse_entries show_acl];
    (destruct (Z.leb_spec MAX_ENTRIES n); [simpl in Hm; lia|]).
  - rewrite strchr_None by (by apply show_entry_no_comma). rewrite parse_show_entry by done. done.
  - rewrite strchr_app by (by apply show_entry_no_comma). rewrite take_app_length, drop_past, parse_show_entry by done.
    cbn [mbind option_bind]. rewrite IH by (done || (simpl length in *; lia)). done.
Qed.

(** Printing and parsing. *)
Lemma parse_show_acl e es :
  Forall (fun e => ace_wf e.2) (e :: es) -> Z.of_nat (length (e :: es)) <= MAX_ENTRIES ->
  parseACL getpwnam getgrnam (show_acl e es) true = Some (map snd (e :: es)).
Proof.
  intros Hw Hl. unfold parseACL. apply parse_show_entries; [done|lia|simpl in Hl; lia|].
  clear. revert e. induction es as [|e' es IH]; intros e; simpl; [lia|]. specialize (IH e'). rewrite length_app. simpl. lia.
Qed.
End Text.
