(* ===== verification/AclTheorems.v ===== *)
(** * AclTheorems: the properties of acl_update.c. *)
From S2P Require Import Prelude Libc Acl AclSpec.
Local Open Scope Z_scope.

(** ** A small ACL library *)

(** ACLs as finite maps from descriptors to entries, in whatever order the map has: an
    implementation of the interface. *)
Abbreviation fmap_acl := (gmap nat entry).
Definition f_update (f : entry -> entry) (d : nat) (m : fmap_acl) : option fmap_acl :=
  match m !! d with Some e => Some (<[d := f e]> m) | None => None end.
Definition f_list (l : list entry) : fmap_acl := map_seq 0 l.

#[export] Instance map_acl : AclLib fmap_acl := {
  acl_entry_t := nat;
  acl_entries m := map_to_list m;
  acl_delete_entry d m := Some (delete d m);
  acl_create_entry m := let d := fresh (dom m) in Some (d, <[d := (ACL_UNDEFINED_TAG, NO_ID, 0)]> m);
  acl_set_tag_type d t := f_update (fun e => (t, e_qual e, e_perms e)) d;
  acl_set_qualifier d q := f_update (fun e => (e_tag e, q, e_perms e)) d;
  acl_clear_perms := f_update (fun e => (e_tag e, e_qual e, 0));
  acl_add_perm d p := f_update (fun e => (e_tag e, e_qual e, Z.lor (e_perms e) p)) d;
  acl_set_permset := f_update id;
  acl_calc_mask m := let l := map snd (map_to_list m) in
    Some (f_list (filter (fun e => e_tag e <> ACL_MASK) l ++ [(ACL_MASK, NO_ID, class_perms l)]));
  acl_valid m := bool_decide (NoDup (map e_key (map snd (map_to_list m))))
}.

Lemma map_to_list_at (m : fmap_acl) d e l :
  map_to_list m ≡ₚ (d, e) :: l -> m !! d = Some e /\ map_to_list (delete d m) ≡ₚ l.
Proof.
  intros H. assert (Hd : m !! d = Some e) by (apply elem_of_map_to_list; rewrite H; left). split; [done|].
  apply (Permutation_cons_inv (a := (d, e))). transitivity (map_to_list m); [by apply map_to_list_delete|exact H].
Qed.

Lemma f_update_at f (m m' : fmap_acl) d e l :
  f_update f d m = Some m' -> map_to_list m ≡ₚ (d, e) :: l -> map_to_list m' ≡ₚ (d, f e) :: l.
Proof.
  unfold f_update. intros E [Hd Hl]%map_to_list_at. rewrite Hd in E. injection E as <-.
  rewrite <- insert_delete_eq, map_to_list_insert by apply lookup_delete_eq. by rewrite Hl.
Qed.

Lemma f_list_entries (l : list entry) : map snd (map_to_list (f_list l)) ≡ₚ l.
Proof.
  unfold f_list. generalize 0%nat. induction l as [|e l IH]; intros n; [done|]. cbn [map_seq].
  rewrite map_to_list_insert by (apply lookup_map_seq_None; lia). cbn. by rewrite IH.
Qed.

#[export] Instance map_acl_laws : AclLaws fmap_acl.
Proof.
  split; cbn; try (intros; match goal with E : f_update _ _ _ = _, H : _ ≡ₚ _ |- _ ≡ₚ _ => exact (f_update_at _ _ _ _ _ _ E H) end).
  - intros d a a' e l [= <-] H. by apply map_to_list_at in H as [_ H].
  - intros d a a' [= <- <-]. exists NO_ID. apply map_to_list_insert. apply not_elem_of_dom, is_fresh.
  - intros d t a a' e l E H. exists (e_qual e). exact (f_update_at _ _ _ _ _ _ E H).
  - intros a a' [= <-] _. exists NO_ID. rewrite f_list_entries. symmetry. apply Permutation_cons_append.
  - intros a H. by apply bool_decide_eq_true in H.
Qed.

(** ** Properties *)

(** The permissions of a parsed entry are three bits. *)
Lemma parse_perms_range s x p : 0 <= x < 8 -> parse_perms x s = Some p -> 0 <= p < 8.
Proof.
  assert (Hor : forall a b, 0 <= a < 8 -> 0 <= b < 8 -> 0 <= Z.lor a b < 8).
  { intros a b Ha Hb. split; [apply Z.lor_nonneg; lia|]. change 8 with (2 ^ 3).
    destruct (decide (Z.lor a b = 0)) as [->|]; [lia|]. apply Z.log2_lt_pow2; [pose proof (proj2 (Z.lor_nonneg a b)); lia|].
    rewrite Z.log2_lor by lia. apply Z.max_lub_lt.
    - destruct (decide (a = 0)) as [->|]; [simpl; lia|]. apply Z.log2_lt_pow2; lia.
    - destruct (decide (b = 0)) as [->|]; [simpl; lia|]. apply Z.log2_lt_pow2; lia. }
  revert x. induction s as [|c s IH]; intros x Hx E; cbn [parse_perms] in E; [by injection E as <-|].
  repeat case_match; try done; (eapply IH; [|exact E]); try done; apply Hor; try done; unfold ACL_READ, ACL_WRITE, ACL_EXECUTE; lia.
Qed.

Lemma parseEntrySpec_perms pw gr s b e : parseEntrySpec pw gr s b = Some e -> perms_wf e.
Proof.
  unfold parseEntrySpec. destruct (strchr s COLON) as [i|]; [|done]. cbv zeta.
  destruct (_ && negb b); [done|]. destruct (_ && b); [done|]. destruct (parse_tag _ _) as [t|]; [|done]. cbn [mbind option_bind].
  destruct (_ && _); [done|]. destruct (negb (bool_decide _)); [|intros [= <-]; unfold perms_wf; cbn; lia].
  destruct (parse_perms 0 _) as [p|] eqn:Ep; [|done]. cbn [mbind option_bind]. intros [= <-]. unfold perms_wf. cbn.
  eapply parse_perms_range; [|exact Ep]. lia.
Qed.

Lemma parse_entries_perms pw gr fuel n s b es : parse_entries pw gr fuel n s b = Some es -> Forall perms_wf es.
Proof.
  revert n s es. induction fuel as [|fuel IH]; intros n s es E; cbn [parse_entries] in E; [done|].
  destruct (MAX_ENTRIES <=? n); [done|]. destruct (strchr s COMMA) as [i|].
  - destruct (parseEntrySpec pw gr (take i s) b) as [a|] eqn:Ea; [|done]. cbn in E.
    destruct (parse_entries pw gr fuel (n + 1) _ b) as [l|] eqn:El; [|done]. cbn in E. injection E as <-.
    apply Forall_cons. split; [by eapply parseEntrySpec_perms|by eapply IH].
  - destruct (parseEntrySpec pw gr s b) as [a|] eqn:Ea; [|done]. cbn in E. injection E as <-.
    apply Forall_cons. split; [by eapply parseEntrySpec_perms|done].
Qed.

(** The command line of an update. *)
Definition options (remove dflt nomask : bool) (text : bytes) : list opt :=
  (if dflt then [OptD] else []) ++ (if nomask then [OptN] else []) ++ [if remove then OptX text else OptM text].


Definition file_acl : fmap_acl := f_list [(ACL_USER_OBJ, NO_ID, 7); (ACL_GROUP_OBJ, NO_ID, 5); (ACL_OTHER, NO_ID, 4)].
Definition nobody (name : bytes) : option Z := None.
Definition acls0 : fstate fmap_acl := mkF {[ (str "f", ACL_TYPE_ACCESS) := file_acl ]} (fun _ => false).


(** parsing inverts printing.  The text of a list of at most MAX_ENTRIES entries,
    with short or long tag names, numeric qualifiers and three permission
    characters, parses to exactly these entries, whatever the user and group
    databases say. *)
Lemma acl_parse_roundtrip pw gr e es :
  Forall (fun e => ace_wf e.2) (e :: es) -> Z.of_nat (length (e :: es)) <= MAX_ENTRIES ->
  parseACL pw gr (show_acl e es) true = Some (map snd (e :: es)).
Proof. exact (parse_show_acl pw gr e es). Qed.

Lemma acl_parse_roundtrip_witness :
  parseACL nobody nobody (str "user:1000:rw-,g::r-x,o::---") true =
  Some [mkAce ACL_USER 1000 (Some 6); mkAce ACL_GROUP_OBJ 0 (Some 5); mkAce ACL_OTHER 0 (Some 0)].
Proof.
  apply (acl_parse_roundtrip nobody nobody (true, mkAce ACL_USER 1000 (Some 6))
    [(false, mkAce ACL_GROUP_OBJ 0 (Some 5)); (false, mkAce ACL_OTHER 0 (Some 0))]); [|vm_compute; congruence].
  repeat (apply Forall_cons; split); [..|by apply Forall_nil]; unfold ace_wf; cbn [snd a_tag a_qual a_perms];
    (split; [rewrite !elem_of_cons; tauto|]; split; [eexists; split; [reflexivity|lia]|cbn; unfold NO_ID; lia]).
Defined.
