(* ===== verification/GetNum.v ===== *)
(** * GetNum: numbers on command lines.

    strtol and strtoul of the C library in any base, and tlpi-dist/lib/get_num.c
    over the former. *)
From S2P Require Import Prelude Libc.
Local Open Scope Z_scope.

(** ** strtol and strtoul *)

Definition ULONG_MAX : Z := 2 ^ 64 - 1.

(** The value of a digit: [0-9], then letters of either case. *)
Definition digit_val (c : Z) : option Z :=
  if (48 <=? c) && (c <=? 57) then Some (c - 48)
  else if (97 <=? c) && (c <=? 122) then Some (c - 87)
  else if (65 <=? c) && (c <=? 90) then Some (c - 55)
  else None.

Definition is_digit (base c : Z) : bool :=
  match digit_val c with Some d => d <? base | None => false end.

(** The digits of [base] at the start of [s]: their value after [acc], whether
    there are any, and what follows them. *)
Fixpoint digits (base acc : Z) (any : bool) (s : bytes) : Z * bool * bytes :=
  match s with
  | c :: s' =>
      match digit_val c with
      | Some d => if d <? base then digits base (acc * base + d) true s' else (acc, any, s)
      | None => (acc, any, s)
      end
  | [] => (acc, any, [])
  end.

(** [0x] or [0X] before a hexadecimal digit is a prefix in bases 0 and 16; in base
    0 another leading zero means octal. *)
Definition base_prefix (base : Z) (s : bytes) : Z * bytes :=
  match s with
  | z :: x :: h :: s' =>
      if (z =? 48) && ((x =? 120) || (x =? 88)) && ((base =? 0) || (base =? 16)) && is_digit 16 h
      then (16, h :: s')
      else (if base =? 0 then if z =? 48 then 8 else 10 else base, s)
  | z :: _ => (if base =? 0 then if z =? 48 then 8 else 10 else base, s)
  | [] => (if base =? 0 then 10 else base, s)
  end.

Definition sign (s : bytes) : bool * bytes :=
  match s with
  | c :: s' => if c =? 45 then (true, s') else if c =? 43 then (false, s') else (false, s)
  | [] => (false, s)
  end.

(** The number at the start of [s]: its sign and magnitude and what follows it;
    without digits there is none, and nothing is consumed. *)
Definition number (base : Z) (s : bytes) : option (bool * Z * bytes) :=
  let '(neg, s1) := sign (skip_space s) in
  let '(base, s2) := base_prefix base s1 in
  let '(v, any, rest) := digits base 0 false s2 in
  if any then Some (neg, v, rest) else None.

(** The value, the text [endptr] is left at, and whether errno is ERANGE. *)
Definition strtol (s : bytes) (base : Z) : Z * bytes * bool :=
  match number base s with
  | None => (0, s, false)
  | Some (neg, v, rest) =>
      let z := if neg then - v else v in
      if LONG_MAX <? z then (LONG_MAX, rest, true)
      else if z <? LONG_MIN then (LONG_MIN, rest, true)
      else (z, rest, false)
  end.

Definition strtoul (s : bytes) (base : Z) : Z * bytes * bool :=
  match number base s with
  | None => (0, s, false)
  | Some (neg, v, rest) =>
      if ULONG_MAX <? v then (ULONG_MAX, rest, true)
      else (wrap_u 64 (if neg then - v else v), rest, false)
  end.

(** ** get_num.c *)

Definition GN_NONNEG : Z := 1.
Definition GN_GT_0 : Z := 2.
Definition GN_ANY_BASE : Z := 64.
Definition GN_BASE_8 : Z := 128.
Definition GN_BASE_16 : Z := 256.

Definition flag (flags f : Z) : bool := negb (Z.land flags f =? 0).

(** The messages with which [gnFail] ends the program. *)
Inductive gn_error :=
| null_or_empty | strtol_failed | nonnumeric | negative | not_positive | out_of_range.

Definition gn_base (flags : Z) : Z :=
  if flag flags GN_ANY_BASE then 0
  else if flag flags GN_BASE_8 then 8
  else if flag flags GN_BASE_16 then 16 else 10.

(** [getNum]: [arg] is the argument, [None] for a null pointer.  The test of errno
    sees ERANGE only: glibc leaves errno alone when there are no digits. *)
Definition getNum (arg : option bytes) (flags : Z) : gn_error + Z :=
  match arg with
  | None | Some [] => inl null_or_empty
  | Some s =>
      let '(res, endptr, erange) := strtol s (gn_base flags) in
      if erange then inl strtol_failed
      else if negb (bool_decide (endptr = [])) then inl nonnumeric
      else if flag flags GN_NONNEG && (res <? 0) then inl negative
      else if flag flags GN_GT_0 && (res <=? 0) then inl not_positive
      else inr res
  end.

Definition getLong (arg : option bytes) (flags : Z) : gn_error + Z := getNum arg flags.

Definition INT_MAX : Z := 2 ^ 31 - 1.
Definition INT_MIN : Z := - 2 ^ 31.

Definition getInt (arg : option bytes) (flags : Z) : gn_error + Z :=
  match getNum arg flags with
  | inl e => inl e
  | inr res =>
      if (INT_MAX <? res) || (res <? INT_MIN) then inl out_of_range else inr (wrap_s 32 res)
  end.

(** ** Numbers as text *)

Definition digit_char (d : Z) : Z := if d <? 10 then 48 + d else 87 + d.

Fixpoint ubase (base : Z) (fuel : nat) (n : Z) : bytes :=
  match fuel with
  | O => []
  | S f => if n <? base then [digit_char n] else ubase base f (n / base) ++ [digit_char (n mod base)]
  end.

(** The digits of [n] in [base], the most significant first. *)
Definition text (base n : Z) : bytes := ubase base (S (Z.to_nat (Z.log2 n))) n.

Lemma digit_val_char d : 0 <= d < 16 -> digit_val (digit_char d) = Some d.
Proof.
  intros H. unfold digit_val, digit_char. destruct (Z.ltb_spec d 10).
  - rewrite (proj2 (Z.leb_le 48 _)), (proj2 (Z.leb_le _ 57)) by lia. simpl. f_equal. lia.
  - rewrite (proj2 (Z.leb_gt _ 57)) by lia. rewrite andb_false_r.
    rewrite (proj2 (Z.leb_le 97 _)), (proj2 (Z.leb_le _ 122)) by lia. simpl. f_equal. lia.
Qed.

Lemma digits_app base acc any b1 b2 v :
  digits base acc any b1 = (v, true, []) -> digits base acc any (b1 ++ b2) = digits base v true b2.
Proof.
  revert acc any. induction b1 as [|c b1 IH]; intros acc any H; simpl in *.
  { by simplify_eq. }
  destruct (digit_val c) as [d|]; [|done]. destruct (d <? base); [|done]. by apply IH.
Qed.

Lemma digits_char base acc any d rest :
  0 <= d < base -> base <= 16 ->
  digits base acc any (digit_char d :: rest) = digits base (acc * base + d) true rest.
Proof.
  intros Hd Hb. simpl. rewrite digit_val_char by lia. by rewrite (proj2 (Z.ltb_lt _ _)) by lia.
Qed.

Lemma ubase_val base f n :
  2 <= base <= 16 -> 0 <= n < 2 ^ Z.of_nat f -> (0 < f)%nat ->
  digits base 0 false (ubase base f n) = (n, true, []).
Proof.
  intros Hb. revert n. induction f as [|f IH]; intros n Hn Hf; [lia|].
  cbn [ubase]. destruct (Z.ltb_spec n base).
  - rewrite digits_char by lia. simpl. by rewrite Z.add_0_l.
  - assert (Hd : 0 <= n / base < 2 ^ Z.of_nat f).
    { rewrite Nat2Z.inj_succ, Z.pow_succ_r in Hn by lia.
      split; [apply Z.div_pos; lia|]. apply Z.div_lt_upper_bound; nia. }
    assert (0 < f)%nat.
    { destruct f; [|lia]. simpl in Hd. change (2 ^ 0) with 1 in Hd.
      assert (1 <= n / base) by (apply Z.div_le_lower_bound; lia). lia. }
    rewrite (digits_app _ _ _ _ _ (n / base)) by auto.
    pose proof (Z.mod_pos_bound n base ltac:(lia)).
    rewrite digits_char by lia. simpl. pose proof (Z.div_mod n base ltac:(lia)).
    do 2 f_equal. lia.
Qed.

Lemma text_val base n :
  2 <= base <= 16 -> 0 <= n -> digits base 0 false (text base n) = (n, true, []).
Proof.
  intros Hb Hn. apply ubase_val; [done| |lia].
  split; [done|]. destruct (Z.eq_dec n 0) as [->|]; [done|].
  pose proof (Z.log2_spec n ltac:(lia)) as [_ H]. pose proof (Z.log2_nonneg n).
  by rewrite Nat2Z.inj_succ, Z2Nat.id by lia.
Qed.

(** The first digit is not zero, except in the text of zero. *)
Lemma ubase_head base f n :
  2 <= base <= 16 -> 0 <= n < 2 ^ Z.of_nat f -> (0 < f)%nat ->
  exists d rest, ubase base f n = digit_char d :: rest /\ 0 <= d < base /\
    (d = 0 -> n = 0 /\ rest = []).
Proof.
  intros Hb. revert n. induction f as [|f IH]; intros n Hn Hf; [lia|].
  cbn [ubase]. destruct (Z.ltb_spec n base).
  - exists n, []. split_and!; [done|lia|lia|auto with lia].
  - assert (Hd : 0 <= n / base < 2 ^ Z.of_nat f).
    { rewrite Nat2Z.inj_succ, Z.pow_succ_r in Hn by lia.
      split; [apply Z.div_pos; lia|]. apply Z.div_lt_upper_bound; nia. }
    assert (Hq : 1 <= n / base) by (apply Z.div_le_lower_bound; lia).
    destruct f as [|f]; [simpl in Hd; lia|].
    destruct (IH (n / base) Hd ltac:(lia)) as (d & rest & -> & Hd' & Hz).
    eexists d, _. split; [done|]. split; [done|]. intros ->. destruct Hz; [done|lia].
Qed.

Lemma text_head base n :
  2 <= base <= 16 -> 0 <= n ->
  exists d rest, text base n = digit_char d :: rest /\ 0 <= d < base /\
    (d = 0 -> n = 0 /\ rest = []).
Proof.
  intros Hb Hn. apply ubase_head; [done| |lia].
  split; [done|]. destruct (Z.eq_dec n 0) as [->|]; [done|].
  pose proof (Z.log2_spec n ltac:(lia)) as [_ H]. pose proof (Z.log2_nonneg n).
  by rewrite Nat2Z.inj_succ, Z2Nat.id by lia.
Qed.

(** An integer in [base]: a minus sign, a prefix, the digits of its magnitude. *)
Definition num_text (base : Z) (prefix : bytes) (z : Z) : bytes :=
  (if z <? 0 then [45] else []) ++ prefix ++ text base (Z.abs z).

Definition stops (rest : bytes) : Prop :=
  match rest with c :: _ => digit_val c = None | [] => True end.

Lemma digits_stops base v any rest : stops rest -> digits base v any rest = (v, any, rest).
Proof. destruct rest as [|c rest]; [done|]. intros H. simpl in *. by rewrite H. Qed.

Lemma skip_space_digit d rest : 0 <= d < 16 -> skip_space (digit_char d :: rest) = digit_char d :: rest.
Proof.
  intros H. cbn [skip_space]. unfold isspace, digit_char. destruct (Z.ltb_spec d 10).
  - rewrite (proj2 (Z.eqb_neq _ 32)), (proj2 (Z.leb_gt _ 13)) by lia. by rewrite andb_false_r.
  - rewrite (proj2 (Z.eqb_neq _ 32)), (proj2 (Z.leb_gt _ 13)) by lia. by rewrite andb_false_r.
Qed.

(** The sign in front of a digit is all that is removed. *)
Lemma sign_spec (z d : Z) rest :
  0 <= d < 16 ->
  sign (skip_space ((if z <? 0 then [45] else []) ++ digit_char d :: rest)) =
  (z <? 0, digit_char d :: rest).
Proof.
  intros Hd. destruct (z <? 0); [done|]. cbn [app]. rewrite skip_space_digit by done.
  unfold sign. assert (48 <= digit_char d) by (unfold digit_char; case_if; lia).
  by rewrite (proj2 (Z.eqb_neq _ 45)), (proj2 (Z.eqb_neq _ 43)) by lia.
Qed.

Lemma digit_char_0 d : 0 <= d < 16 -> (digit_char d =? 48) = (d =? 0).
Proof.
  intros H. unfold digit_char. destruct (Z.ltb_spec d 10), (Z.eqb_spec d 0);
    (rewrite (proj2 (Z.eqb_eq _ _)) by lia) || (rewrite (proj2 (Z.eqb_neq _ _)) by lia); done.
Qed.

(** Digits that do not start with zero, and zero itself, have no prefix. *)
Lemma base_prefix_plain base d rest tail :
  0 <= d < 16 -> (d = 0 -> rest = [] /\ stops tail) ->
  base_prefix base (digit_char d :: rest ++ tail) =
  (if base =? 0 then if d =? 0 then 8 else 10 else base, digit_char d :: rest ++ tail).
Proof.
  intros Hd Hz. unfold base_prefix. rewrite digit_char_0 by done.
  destruct (Z.eqb_spec d 0) as [->|]; [|by destruct (rest ++ tail) as [|? [|??]]].
  destruct Hz as [-> Ht]; [done|]. destruct tail as [|x [|h t]]; [done..|]. simpl in Ht. simpl.
  destruct (Z.eqb_spec x 120) as [->|]; [by vm_compute in Ht|].
  destruct (Z.eqb_spec x 88) as [->|]; [by vm_compute in Ht|done].
Qed.

Lemma number_text base b z rest :
  base = 0 /\ b = 10 \/ base = b /\ 2 <= b <= 16 -> stops rest ->
  number base (num_text b [] z ++ rest) = Some (z <? 0, Z.abs z, rest).
Proof.
  intros Hb Hr. unfold number, num_text.
  assert (2 <= b <= 16) as Hb' by lia.
  destruct (text_head b (Z.abs z) Hb' ltac:(lia)) as (d & t & E & Hd & Hz).
  rewrite E, <- app_assoc. cbn [app]. rewrite sign_spec by lia.
  assert (Hv := text_val b (Z.abs z) Hb' ltac:(lia)). rewrite E in Hv.
  rewrite base_prefix_plain; [|lia|by intros ->; split; [apply Hz|]].
  assert (Hg : digits (if base =? 0 then if d =? 0 then 8 else 10 else base) 0 false
    (digit_char d :: t ++ rest) = (Z.abs z, true, rest)).
  { destruct Hb as [[-> ->]|[-> _]].
    - simpl (0 =? 0). destruct (Z.eqb_spec d 0) as [->|].
      + destruct Hz as [Hz ->]; [done|]. simpl. rewrite digits_stops by done. by rewrite Hz.
      + rewrite app_comm_cons, (digits_app _ _ _ _ _ _ Hv). by apply digits_stops.
    - rewrite (proj2 (Z.eqb_neq b 0)) by lia.
      rewrite app_comm_cons, (digits_app _ _ _ _ _ _ Hv). by apply digits_stops. }
  by rewrite Hg.
Qed.

(** The hexadecimal prefix is accepted in bases 0 and 16. *)
Lemma number_hex base z rest :
  base = 0 \/ base = 16 -> stops rest ->
  number base (num_text 16 (str "0x") z ++ rest) = Some (z <? 0, Z.abs z, rest).
Proof.
  intros Hb Hr. unfold number, num_text.
  destruct (text_head 16 (Z.abs z) ltac:(lia) ltac:(lia)) as (d & t & E & Hd & _).
  rewrite E, <- !app_assoc. change (str "0x") with [digit_char 0; 120]. cbn [app].
  rewrite sign_spec by lia.
  assert (Hp : base_prefix base (digit_char 0 :: 120 :: digit_char d :: t ++ rest) =
    (16, digit_char d :: t ++ rest)).
  { unfold base_prefix, is_digit. rewrite digit_val_char by lia.
    rewrite (proj2 (Z.ltb_lt d 16)) by lia. destruct Hb as [-> | ->]; done. }
  rewrite Hp. assert (Hv := text_val 16 (Z.abs z) ltac:(lia) ltac:(lia)). rewrite E in Hv.
  rewrite app_comm_cons, (digits_app _ _ _ _ _ _ Hv). by rewrite digits_stops.
Qed.

(** ** The outcome of getNum for a number that is read *)

(** What the flags say about a value. *)
Definition checked (flags z : Z) : gn_error + Z :=
  if flag flags GN_NONNEG && (z <? 0) then inl negative
  else if flag flags GN_GT_0 && (z <=? 0) then inl not_positive
  else inr z.

Lemma getNum_number s flags z rest :
  s <> [] -> number (gn_base flags) s = Some (z <? 0, Z.abs z, rest) ->
  getNum (Some s) flags =
    if (LONG_MAX <? z) || (z <? LONG_MIN) then inl strtol_failed
    else match rest with [] => checked flags z | _ => inl nonnumeric end.
Proof.
  intros Hs Hn. unfold getNum, strtol, checked. destruct s as [|c s]; [done|]. rewrite Hn.
  replace (if z <? 0 then - Z.abs z else Z.abs z) with z by (destruct (Z.ltb_spec z 0); lia).
  destruct (LONG_MAX <? z); [done|]. destruct (z <? LONG_MIN); [done|]. simpl.
  by destruct rest.
Qed.
