(* ===== verification/SockIo.v ===== *)
(** * SockIo: whole messages and lines over stream sockets.

    tlpi-dist/sockets/rdwrn.c ([readn], [writen]), read_line.c ([readLine]) and
    read_line_buf.c ([readLineBuf]).  A descriptor open for reading is the
    sequence of what its next reads will find, one open for writing the sequence
    of the outcomes of its next writes. *)
From S2P Require Import Prelude.
Local Open Scope Z_scope.

(** ** The system calls *)

Definition EINTR : Z := 4.
Definition EINVAL : Z := 22.

(** What a read finds: a segment of data that has arrived (an empty one is an end
    of file that is reported once), or an error. *)
Inductive inev := Data (b : bytes) | Fail (e : Z).

Abbreviation stream := (list inev).

Inductive rres := RBytes (b : bytes) | RErr (e : Z).

(** [read(fd, buf, n)]: at most [n] bytes of the first segment; past the last
    segment the peer has closed. *)
Definition read (s : stream) (n : nat) : rres * stream :=
  match s with
  | [] => (RBytes [], [])
  | Data b :: s' =>
      (RBytes (take n b), if (length b <=? n)%nat then s' else Data (drop n b) :: s')
  | Fail e :: s' => (RErr e, s')
  end.

(** The outcome of a write: how many bytes the kernel has room for, or an error. *)
Inductive wres := Wrote (k : nat) | WFail (e : Z).

Definition write (os : list wres) (b : bytes) : Z * Z * bytes * list wres :=
  match os with
  | [] => (Z.of_nat (length b), 0, b, [])
  | Wrote k :: os' => (Z.of_nat (length (take k b)), 0, take k b, os')
  | WFail e :: os' => (-1, e, [], os')
  end.

(** ** rdwrn.c *)

(** The loop of [readn]: [buf] is what has been stored so far, [totRead] its
    length. *)
Fixpoint readn_loop (fuel : nat) (s : stream) (n : nat) (buf : bytes) :
    option (Z * bytes * stream) :=
  match fuel with
  | O => None
  | S f =>
      if (length buf <? n)%nat then
        match read s (n - length buf) with
        | (RBytes [], s') => Some (Z.of_nat (length buf), buf, s')
        | (RErr e, s') => if e =? EINTR then readn_loop f s' n buf else Some (-1, buf, s')
        | (RBytes b, s') => readn_loop f s' n (buf ++ b)
        end
      else Some (Z.of_nat (length buf), buf, s)
  end.

(** [readn]: the value returned, the bytes stored, the rest of the input.  Every
    turn takes an event or a byte. *)
Definition readn (s : stream) (n : nat) : option (Z * bytes * stream) :=
  readn_loop (S (n + length s)) s n [].

(** The loop of [writen]: [tot] bytes of [b] are written, [sent] is what the
    kernel has accepted. *)
Fixpoint writen_loop (fuel : nat) (os : list wres) (b : bytes) (tot : nat) (sent : bytes) :
    option (Z * bytes * list wres) :=
  match fuel with
  | O => None
  | S f =>
      if (tot <? length b)%nat then
        let '(numWritten, errno, acc, os') := write os (drop tot b) in
        if numWritten <=? 0 then
          if (numWritten =? -1) && (errno =? EINTR) then writen_loop f os' b tot sent
          else Some (-1, sent, os')
        else writen_loop f os' b (tot + length acc) (sent ++ acc)
      else Some (Z.of_nat tot, sent, os)
  end.

Definition writen (os : list wres) (b : bytes) : option (Z * bytes * list wres) :=
  writen_loop (S (length b + length os)) os b 0 [].

(** ** read_line.c *)

(** The loop of [readLine]; the result is the value returned, what has been stored
    in the buffer (with the terminating NUL where there is one) and the rest of
    the input. *)
Fixpoint readLine_loop (fuel : nat) (s : stream) (n : nat) (buf : bytes) :
    option (Z * bytes * stream) :=
  match fuel with
  | O => None
  | S f =>
      match read s 1 with
      | (RErr e, s') => if e =? EINTR then readLine_loop f s' n buf else Some (-1, buf, s')
      | (RBytes [], s') =>
          if (length buf =? 0)%nat then Some (0, buf, s')
          else Some (Z.of_nat (length buf), buf ++ [0], s')
      | (RBytes (ch :: _), s') =>
          let buf := if (length buf <? n - 1)%nat then buf ++ [ch] else buf in
          if ch =? 10 then Some (Z.of_nat (length buf), buf ++ [0], s')
          else readLine_loop f s' n buf
      end
  end.

(** The bytes and events of an input, a bound for the turns of a loop over it. *)
Definition evsize (e : inev) : nat := match e with Data b => S (length b) | Fail _ => 1 end.
Definition work (s : stream) : nat := sum_list_with evsize s.

Definition readLine (s : stream) (buffer_null : bool) (n : nat) : option (Z * bytes * stream) :=
  if (n <=? 0)%nat || buffer_null then Some (-1, [], s)
  else readLine_loop (S (work s)) s n [].

(** ** read_line_buf.c *)

Definition RL_MAX_BUF : nat := 10.

(** [struct ReadLineBuf]; the descriptor is the stream passed along. *)
Record ReadLineBuf := mkRl { rl_buf : bytes; rl_next : Z; rl_len : Z }.

(** The array of a new structure is not initialized: [buf] is what it holds. *)
Definition readLineBufInit (buf : bytes) : ReadLineBuf := mkRl buf 0 0.

(** A turn's refill: [None] when the array already has characters to give, else
    the result of [read] and the structure it leaves. *)
Definition refill (r : ReadLineBuf) (s : stream) : option (Z * ReadLineBuf * stream) :=
  if rl_len r <=? rl_next r then
    match read s RL_MAX_BUF with
    | (RErr _, s') => Some (-1, mkRl (rl_buf r) (rl_next r) (-1), s')
    | (RBytes [], s') => Some (0, mkRl (rl_buf r) (rl_next r) 0, s')
    | (RBytes b, s') =>
        Some (Z.of_nat (length b),
              mkRl (b ++ drop (length b) (rl_buf r)) 0 (Z.of_nat (length b)), s')
    end
  else None.

(** The loop of [readLineBuf]; [cnt] is the length of [buffer], what has been
    stored so far.  An index outside the array has no result. *)
Fixpoint readLineBuf_loop (fuel : nat) (r : ReadLineBuf) (s : stream) (n : nat)
    (buffer : bytes) : option (Z * bytes * ReadLineBuf * stream) :=
  match fuel with
  | O => None
  | S f =>
      let fetch r s :=
        c ← rl_buf r !! Z.to_nat (rl_next r);
        let r := mkRl (rl_buf r) (rl_next r + 1) (rl_len r) in
        let buffer := if (length buffer <? n)%nat then buffer ++ [c] else buffer in
        if c =? 10 then Some (Z.of_nat (length buffer), buffer, r, s)
        else readLineBuf_loop f r s n buffer in
      match refill r s with
      | Some (k, r', s') =>
          if k =? -1 then Some (-1, buffer, r', s')
          else if k =? 0 then Some (Z.of_nat (length buffer), buffer, r', s')
          else fetch r' s'
      | None => fetch r s
      end
  end.

Definition readLineBuf (r : ReadLineBuf) (s : stream) (buffer_null : bool) (n : nat) :
    option (Z * bytes * ReadLineBuf * stream) :=
  if (n <=? 0)%nat || buffer_null then Some (-1, [], r, s)
  else readLineBuf_loop (S (RL_MAX_BUF + work s)) r s n [].

(** ** What a stream carries *)

(** The bytes and the ends of a stream, however it is cut into segments.  [retry]
    says whether an interrupted read is repeated by the reader. *)
Inductive item := Byte (c : Z) | Stop (e : option Z).

Fixpoint flat (retry : bool) (s : stream) : list item :=
  match s with
  | [] => []
  | Data [] :: s' => Stop None :: flat retry s'
  | Data b :: s' => map Byte b ++ flat retry s'
  | Fail e :: s' =>
      if retry && (e =? EINTR) then flat retry s' else Stop (Some e) :: flat retry s'
  end.

(** The next line of it: its bytes, how it ended, what follows. *)
Inductive ending := Newline | Eof | Error (e : Z).

Fixpoint line (l : list item) : bytes * ending * list item :=
  match l with
  | [] => ([], Eof, [])
  | Stop None :: l' => ([], Eof, l')
  | Stop (Some e) :: l' => ([], Error e, l')
  | Byte c :: l' =>
      if c =? 10 then ([c], Newline, l') else let '(b, e, r) := line l' in (c :: b, e, r)
  end.

(** The first [n] bytes of it. *)
Fixpoint chunk (n : nat) (l : list item) : bytes * ending * list item :=
  match n, l with
  | O, _ => ([], Newline, l)
  | _, [] => ([], Eof, [])
  | _, Stop None :: l' => ([], Eof, l')
  | _, Stop (Some e) :: l' => ([], Error e, l')
  | S n', Byte c :: l' => let '(b, e, r) := chunk n' l' in (c :: b, e, r)
  end.

(** ** Sequences of calls *)

(** What a caller of [readLine] or [readLineBuf] may use of the buffer. *)
Definition got (ret : Z) (buf : bytes) : Z * bytes := (ret, take (Z.to_nat ret) buf).

Fixpoint readLines (k : nat) (s : stream) (n : nat) : option (list (Z * bytes)) :=
  match k with
  | O => Some []
  | S k' =>
      '(ret, buf, s') ← readLine s false n;
      rest ← readLines k' s' n;
      Some (got ret buf :: rest)
  end.

Fixpoint readLineBufs (k : nat) (r : ReadLineBuf) (s : stream) (n : nat) :
    option (list (Z * bytes)) :=
  match k with
  | O => Some []
  | S k' =>
      '(ret, buf, r', s') ← readLineBuf r s false n;
      rest ← readLineBufs k' r' s' n;
      Some (got ret buf :: rest)
  end.

Fixpoint writen_all (os : list wres) (ms : list bytes) : option (bytes * list wres) :=
  match ms with
  | [] => Some ([], os)
  | m :: ms' =>
      '(ret, sent, os') ← writen os m;
      if ret =? -1 then None
      else '(sent', os'') ← writen_all os' ms'; Some (sent ++ sent', os'')
  end.

Fixpoint readn_all (s : stream) (ns : list nat) : option (list bytes * stream) :=
  match ns with
  | [] => Some ([], s)
  | n :: ns' =>
      '(ret, b, s') ← readn s n;
      if ret =? Z.of_nat n then '(bs, s'') ← readn_all s' ns'; Some (b :: bs, s'') else None
  end.
