(* ===== verification/SockIoSpec.v ===== *)
(** * SockIoSpec: the readers and writers of SockIo against the contents of the
    streams. *)
From S2P Require Import Prelude SockIo.
Local Open Scope Z_scope.

Create HintDb sockio.
Abbreviation nlen b := (Z.of_nat (length b)).

(** ** One read *)

(** What a read of [n > 0] bytes can find. *)
Inductive read_case (s : stream) (n : nat) : Prop :=
| read_end : s = [] -> read s n = (RBytes [], []) -> read_case s n
| read_eof s' : s = Data [] :: s' -> read s n = (RBytes [], s') -> read_case s n
| read_err e s' : s = Fail e :: s' -> read s n = (RErr e, s') -> read_case s n
| read_some c b s' :
    read s n = (RBytes (c :: b), s') ->
    (forall r, flat r s = map Byte (c :: b) ++ flat r s') ->
    (length (c :: b) <= n)%nat -> (work s' + length (c :: b) <= work s)%nat ->
    (length s' <= length s)%nat -> read_case s n.

Lemma flat_data r b s : b <> [] -> flat r (Data b :: s) = map Byte b ++ flat r s.
Proof. by destruct b. Qed.

Lemma read_cases s n : (0 < n)%nat -> read_case s n.
Proof.
  intros Hn. destruct s as [|[[|c b]|e] s].
  - by apply read_end.
  - apply (read_eof _ _ s); [done|]. simpl. by rewrite take_nil.
  - destruct n as [|n]; [lia|]. simpl. unfold read.
    destruct (Nat.leb_spec (length (c :: b)) (S n)) as [Hle|Hgt].
    + apply (read_some _ _ c (take n b) s).
      * simpl in *. by rewrite (proj2 (Nat.leb_le _ _)) by lia.
      * intros r. rewrite flat_data by done. simpl in *. by rewrite take_ge by lia.
      * simpl. rewrite length_take. lia.
      * unfold work. simpl. rewrite length_take. lia.
      * simpl. lia.
    + apply (read_some _ _ c (take n b) (Data (drop n b) :: s)).
      * simpl in *. by rewrite (proj2 (Nat.leb_gt _ _)) by lia.
      * intros r. simpl in Hgt. rewrite !flat_data; [|intros E%(f_equal length); len|done].
        cbn [map app]. by rewrite app_assoc, <- map_app, take_drop.
      * simpl. rewrite length_take. lia.
      * simpl in *. unfold work. simpl. rewrite length_take, length_drop. lia.
      * simpl. lia.
  - by apply (read_err _ _ e s).
Qed.

(** ** readn *)

Lemma chunk_app n b r :
  (length b <= n)%nat ->
  chunk n (map Byte b ++ r) = let '(b', e, r') := chunk (n - length b) r in (b ++ b', e, r').
Proof.
  revert n. induction b as [|c b IH]; intros n Hn; simpl.
  - rewrite Nat.sub_0_r. by destruct (chunk n r) as [[??]?].
  - destruct n as [|n]; simpl in *; [lia|]. rewrite IH by lia.
    by destruct (chunk (n - length b) r) as [[??]?].
Qed.

(** The value [readn] and [readLineBuf] return for what was found. *)
Definition ret_of (e : ending) (b : bytes) : Z :=
  match e with Error _ => -1 | _ => nlen b end.

Lemma sock_readn_loop_spec f s n buf :
  (n - length buf + length s < f)%nat ->
  let '(b, e, l) := chunk (n - length buf) (flat true s) in
  exists s', readn_loop f s n buf = Some (ret_of e (buf ++ b), buf ++ b, s') /\ flat true s' = l.
Proof.
  revert s buf. induction f as [|f IH]; intros s buf Hf; [lia|]. cbn [readn_loop].
  destruct (Nat.ltb_spec (length buf) n) as [Hlt|Hge].
  - destruct (read_cases s (n - length buf)) as [-> ->|s' -> ->|e s' -> ->|c b s' -> Hfl Hb _ Hl]; [lia|..].
    + destruct (n - length buf)%nat eqn:E; [lia|]. simpl. exists []. by rewrite app_nil_r.
    + destruct (n - length buf)%nat eqn:E; [lia|]. simpl. exists s'. by rewrite app_nil_r.
    + cbn [flat andb]. case_if.
      * apply IH. simpl in Hf. lia.
      * destruct (n - length buf)%nat eqn:E'; [lia|]. simpl. exists s'. by rewrite app_nil_r.
    + rewrite Hfl, chunk_app by done.
      specialize (IH s' (buf ++ c :: b)). rewrite length_app in IH.
      replace (n - (length buf + length (c :: b)))%nat
        with (n - length buf - length (c :: b))%nat in IH by lia.
      destruct (chunk (n - length buf - length (c :: b)) (flat true s')) as [[b' e] l].
      rewrite <- app_assoc in IH. apply IH. simpl in *. lia.
  - replace (n - length buf)%nat with 0%nat by lia. simpl. exists s. by rewrite app_nil_r.
Qed.

(** [readn] returns the first [n] bytes of the stream, fewer at an end of file and
    -1 on an error, whatever the segments and the interruptions. *)
Lemma readn_spec s n :
  let '(b, e, l) := chunk n (flat true s) in
  exists s', readn s n = Some (ret_of e b, b, s') /\ flat true s' = l.
Proof.
  pose proof (sock_readn_loop_spec (S (n + length s)) s n []) as H.
  cbn [length app] in H. rewrite Nat.sub_0_r in H. apply H. lia.
Qed.

(** ** writen *)

(** The ends of the bytes still to be written that are interrupted only. *)
Lemma sock_writen_loop_spec f os b tot sent :
  (length b - tot + length os < f)%nat -> (tot <= length b)%nat -> sent = take tot b ->
  exists ret sent' os', writen_loop f os b tot sent = Some (ret, sent', os') /\
    (ret = nlen b /\ sent' = b \/ ret = -1 /\ exists k, sent' = take k b) /\
    (exists pre, os = pre ++ os') /\
    (ret = -1 -> exists o, o ∈ os /\ (o = Wrote 0 \/ exists e, o = WFail e /\ e <> EINTR)).
Proof.
  revert os tot sent. induction f as [|f IH]; intros os tot sent Hf Ht ->; [lia|].
  cbn [writen_loop]. destruct (Nat.ltb_spec tot (length b)) as [Hlt|Hge].
  - destruct os as [|[k|e] os]; cbn [write].
    + rewrite (proj2 (Z.leb_gt _ _)) by len. 
      destruct (IH [] (tot + length (drop tot b))%nat (take tot b ++ drop tot b))
        as (ret & s' & os' & E & H); [len|len| |eauto 10].
      rewrite take_drop, take_ge by len. done.
    + destruct (decide (k = 0)%nat) as [->|Hk].
      * simpl. eexists _, _, _. split; [done|]. split; [right; eauto|].
        split; [by exists [Wrote 0]|]. intros _. exists (Wrote 0). split; [left|auto].
      * rewrite (proj2 (Z.leb_gt _ _)) by len.
        destruct (IH os (tot + length (take k (drop tot b)))%nat (take tot b ++ take k (drop tot b)))
          as (ret & s' & os' & E & H & [pre ->] & Hr); [len|len| |].
        { rewrite length_take, length_drop, take_take_drop.
          destruct (decide (k <= length b - tot)%nat); [by rewrite Nat.min_l by lia|].
          rewrite Nat.min_r by lia. rewrite (take_ge b (tot + k)) by lia.
          by rewrite take_ge by lia. }
        eexists _, _, _. split; [done|]. split; [done|]. split; [by exists (Wrote k :: pre)|].
        intros Hm. destruct (Hr Hm) as (o & Ho & Hc). exists o. split; [by right|done].
    + cbn [Z.leb Z.eqb Z.compare Pos.compare andb Pos.eqb]. case_if.
      * destruct (IH os tot (take tot b)) as (ret & s' & os' & E' & H & [pre ->] & Hr); [len|done|done|].
        eexists _, _, _. split; [done|]. split; [done|]. split; [by exists (WFail e :: pre)|].
        intros Hm. destruct (Hr Hm) as (o & Ho & Hc). exists o. split; [by right|done].
      * eexists _, _, _. split; [done|]. split; [right; eauto|].
        split; [by exists [WFail e]|]. intros _. exists (WFail e). split; [left|eauto].
  - assert (tot = length b) as -> by lia. eexists _, _, _. split; [done|].
    split; [left; by rewrite take_ge|]. split; [by exists []|]. lia.
Qed.

(** ** readLine *)

(** What [readLine] returns and stores for a line of which [kept] fits. *)
Definition readLine_result (e : ending) (kept : bytes) : Z * bytes :=
  match e with
  | Error _ => (-1, kept)
  | Newline => (nlen kept, kept ++ [0])
  | Eof => match kept with [] => (0, []) | _ => (nlen kept, kept ++ [0]) end
  end.

(** Storing one more byte in a buffer that keeps [m]. *)
Definition store (m : nat) (buf : bytes) (c : Z) : bytes :=
  if (length buf <? m)%nat then buf ++ [c] else buf.

Lemma store_take m buf c b :
  (length buf <= m)%nat ->
  (length (store m buf c) <= m)%nat /\
  store m buf c ++ take (m - length (store m buf c)) b = buf ++ take (m - length buf) (c :: b).
Proof.
  intros Hm. unfold store. destruct (Nat.ltb_spec (length buf) m) as [H|H].
  - rewrite length_app. simpl. split; [lia|]. rewrite <- app_assoc. simpl.
    destruct (m - length buf)%nat as [|k] eqn:E; [lia|]. simpl.
    by replace (m - (length buf + 1))%nat with k by lia.
  - split; [done|]. replace (m - length buf)%nat with 0%nat by lia. simpl.
    by rewrite !app_nil_r.
Qed.

Lemma readLine_loop_spec f s n buf :
  (work s < f)%nat -> (length buf <= n - 1)%nat ->
  let '(b, e, l) := line (flat true s) in
  let kept := buf ++ take (n - 1 - length buf) b in
  exists s', readLine_loop f s n buf =
      Some ((readLine_result e kept).1, (readLine_result e kept).2, s') /\ flat true s' = l.
Proof.
  revert s buf. induction f as [|f IH]; intros s buf Hf Hb; [lia|]. cbn [readLine_loop].
  destruct (read_cases s 1) as [-> ->|s' -> ->|e s' -> ->|c b s' -> Hfl Hl Hw _]; [lia|..].
  - simpl. rewrite take_nil, app_nil_r. exists []. by destruct buf.
  - simpl. rewrite take_nil, app_nil_r. exists s'. by destruct buf.
  - cbn [flat andb]. case_if.
    + apply IH; [|done]. unfold work in *. simpl in Hf. lia.
    + simpl. rewrite take_nil, app_nil_r. by exists s'.
  - destruct b as [|? b]; [|simpl in Hl; lia]. rewrite Hfl. cbn [map app line].
    fold (store (n - 1) buf c). case_if.
    + destruct (store_take (n - 1) buf c [] Hb) as [_ Hs].
      rewrite take_nil, app_nil_r in Hs. rewrite <- Hs. by exists s'.
    + specialize (IH s' (store (n - 1) buf c)).
      destruct (line (flat true s')) as [[b e] l].
      destruct (store_take (n - 1) buf c b Hb) as [Hs <-].
      apply IH; [simpl in *; lia|done].
Qed.

(** [readLine] takes exactly the next line of the stream, keeps its first [n - 1]
    bytes and terminates them. *)
Lemma readLine_spec s n :
  (0 < n)%nat ->
  let '(b, e, l) := line (flat true s) in
  let r := readLine_result e (take (n - 1) b) in
  exists s', readLine s false n = Some (r.1, r.2, s') /\ flat true s' = l.
Proof.
  intros Hn. unfold readLine. rewrite (proj2 (Nat.leb_gt _ _)) by done. cbn [orb].
  pose proof (readLine_loop_spec (S (work s)) s n []) as H. cbn [length app] in H.
  rewrite Nat.sub_0_r in H. apply H; lia.
Qed.

(** ** readLineBuf *)

(** The characters of the array that have not been delivered. *)
Definition pending (r : ReadLineBuf) : bytes :=
  take (Z.to_nat (rl_len r) - Z.to_nat (rl_next r)) (drop (Z.to_nat (rl_next r)) (rl_buf r)).

(** Type invariant of the structure. *)
Definition rl_ok (r : ReadLineBuf) : Prop :=
  length (rl_buf r) = RL_MAX_BUF /\ 0 <= rl_next r /\ -1 <= rl_len r <= Z.of_nat RL_MAX_BUF.

(** What the structure and the descriptor still have to give. *)
Definition rl_items (r : ReadLineBuf) (s : stream) : list item :=
  map Byte (pending r) ++ flat false s.

Lemma pending_empty r : 0 <= rl_next r -> rl_len r <= rl_next r -> pending r = [].
Proof.
  intros H0 H. unfold pending.
  by replace (Z.to_nat (rl_len r) - Z.to_nat (rl_next r))%nat with 0%nat by lia.
Qed.

Lemma pending_cons r :
  rl_ok r -> rl_next r < rl_len r ->
  exists c, rl_buf r !! Z.to_nat (rl_next r) = Some c /\
    pending r = c :: pending (mkRl (rl_buf r) (rl_next r + 1) (rl_len r)).
Proof.
  intros (Hl & Hn & Hm) Hlt.
  destruct (lookup_lt_is_Some_2 (rl_buf r) (Z.to_nat (rl_next r))) as [c Hc]; [lia|].
  exists c. split; [done|]. unfold pending. simpl. rewrite (drop_S _ c) by done.
  replace (Z.to_nat (rl_next r + 1)) with (S (Z.to_nat (rl_next r))) by lia.
  by replace (Z.to_nat (rl_len r) - Z.to_nat (rl_next r))%nat with
    (S (Z.to_nat (rl_len r) - S (Z.to_nat (rl_next r)))) by lia.
Qed.

(** The cases of [refill]. *)
Inductive refill_case (r : ReadLineBuf) (s : stream) : Prop :=
| refill_not : rl_next r < rl_len r -> refill r s = None -> refill_case r s
| refill_end r' s' :
    refill r s = Some (0, r', s') -> rl_ok r' ->
    line (rl_items r s) = ([], Eof, rl_items r' s') -> refill_case r s
| refill_err e r' s' :
    refill r s = Some (-1, r', s') -> rl_ok r' ->
    line (rl_items r s) = ([], Error e, rl_items r' s') -> refill_case r s
| refill_more k r' s' :
    refill r s = Some (k, r', s') -> 0 < k -> rl_next r' < rl_len r' -> rl_ok r' ->
    rl_items r s = rl_items r' s' ->
    (length (pending r') + work s' <= work s)%nat -> refill_case r s.

Lemma refill_cases r s : rl_ok r -> refill_case r s.
Proof.
  intros Hok. assert (Hok' := Hok). destruct Hok' as (Hl & Hn & Hm).
  destruct (decide (rl_next r < rl_len r)) as [Hlt|Hge].
  { apply refill_not; [done|]. unfold refill. by rewrite (proj2 (Z.leb_gt _ _)) by lia. }
  assert (Hp := pending_empty r Hn ltac:(lia)).
  assert (Hf : refill r s = match read s 10 with
    | (RErr _, s') => Some (-1, mkRl (rl_buf r) (rl_next r) (-1), s')
    | (RBytes [], s') => Some (0, mkRl (rl_buf r) (rl_next r) 0, s')
    | (RBytes b, s') =>
        Some (nlen b, mkRl (b ++ drop (length b) (rl_buf r)) 0 (nlen b), s')
    end) by (unfold refill; by rewrite (proj2 (Z.leb_le _ _)) by lia).
  unfold RL_MAX_BUF in *.
  destruct (read_cases s 10) as [-> E|s' -> E|e s' -> E|c b s' E Hfl Hb Hw _]; [lia|..];
    rewrite E in Hf.
  - eapply refill_end; [exact Hf|unfold rl_ok, RL_MAX_BUF; simpl; lia|].
    unfold rl_items. rewrite Hp, pending_empty; simpl; [done|lia..].
  - eapply refill_end; [exact Hf|unfold rl_ok, RL_MAX_BUF; simpl; lia|].
    unfold rl_items. rewrite Hp, pending_empty; simpl; [done|lia..].
  - eapply (refill_err _ _ e); [exact Hf|unfold rl_ok, RL_MAX_BUF; simpl; lia|].
    unfold rl_items. rewrite Hp, pending_empty; simpl; [done|lia..].
  - assert (Hpp : pending (mkRl ((c :: b) ++ drop (length (c :: b)) (rl_buf r)) 0 (nlen (c :: b))) = c :: b).
    { unfold pending. cbn [rl_buf rl_len rl_next Z.to_nat]. rewrite Nat2Z.id, Nat.sub_0_r, drop_0.
      by rewrite take_app_length. }
    eapply refill_more; [exact Hf|simpl; lia|simpl; lia| | |].
    + unfold rl_ok, RL_MAX_BUF. cbn [rl_buf rl_len rl_next].
      rewrite length_app, length_drop. lia.
    + unfold rl_items. rewrite Hp, Hpp. simpl. apply (Hfl false).
    + rewrite Hpp. lia.
Qed.

Lemma readLineBuf_loop_spec f r s n buf :
  rl_ok r -> (length (pending r) + work s < f)%nat -> (length buf <= n)%nat ->
  let '(b, e, l) := line (rl_items r s) in
  let kept := buf ++ take (n - length buf) b in
  exists r' s', readLineBuf_loop f r s n buf = Some (ret_of e kept, kept, r', s') /\
    rl_ok r' /\ rl_items r' s' = l.
Proof.
  revert r s buf. induction f as [|f IH]; intros r s buf Hok Hf Hb; [lia|].
  cbn [readLineBuf_loop].
  (* the common step: deliver the next character of the array *)
  assert (Hstep : forall r s, rl_ok r -> rl_next r < rl_len r ->
    (length (pending r) + work s < S f)%nat ->
    let '(b, e, l) := line (rl_items r s) in
    let kept := buf ++ take (n - length buf) b in
    exists r' s',
      (c ← rl_buf r !! Z.to_nat (rl_next r);
       (if c =? 10
        then Some (nlen (store n buf c), store n buf c, mkRl (rl_buf r) (rl_next r + 1) (rl_len r), s)
        else readLineBuf_loop f (mkRl (rl_buf r) (rl_next r + 1) (rl_len r)) s n (store n buf c))) =
      Some (ret_of e kept, kept, r', s') /\ rl_ok r' /\ rl_items r' s' = l).
  { clear r s Hok Hf. intros r s Hok Hlt Hf.
    destruct (pending_cons r Hok Hlt) as (c & -> & Hp). simpl.
    set (r1 := mkRl (rl_buf r) (rl_next r + 1) (rl_len r)) in *.
    assert (Hok1 : rl_ok r1) by (destruct Hok as (?&?&?); split_and!; simpl; lia).
    unfold rl_items at 1. rewrite Hp. cbn [map app line]. fold (rl_items r1 s). case_if.
    - destruct (store_take n buf c [] Hb) as [_ Hs]. rewrite take_nil, app_nil_r in Hs.
      rewrite <- Hs. by exists r1, s.
    - specialize (IH r1 s (store n buf c) Hok1). rewrite Hp in Hf.
      destruct (line (rl_items r1 s)) as [[b e] l].
      destruct (store_take n buf c b Hb) as [Hs <-].
      apply IH; [simpl in *; lia|done]. }
  destruct (refill_cases r s Hok) as [Hlt ->|r' s' -> Hok' ->|e r' s' -> Hok' ->
    |k r' s' -> Hk Hlt Hok' -> Hw].
  - by apply Hstep.
  - simpl. rewrite take_nil, app_nil_r. by exists r', s'.
  - simpl. rewrite take_nil, app_nil_r. by exists r', s'.
  - rewrite (proj2 (Z.eqb_neq k (-1))), (proj2 (Z.eqb_neq k 0)) by lia.
    apply Hstep; [done|done|]. lia.
Qed.

(** [readLineBuf] takes exactly the next line of what the structure and the
    descriptor hold and keeps its first [n] bytes. *)
Lemma readLineBuf_spec r s n :
  rl_ok r -> (0 < n)%nat ->
  let '(b, e, l) := line (rl_items r s) in
  exists r' s', readLineBuf r s false n = Some (ret_of e (take n b), take n b, r', s') /\
    rl_ok r' /\ rl_items r' s' = l.
Proof.
  intros Hok Hn. unfold readLineBuf. rewrite (proj2 (Nat.leb_gt _ _)) by done. cbn [orb].
  pose proof (readLineBuf_loop_spec (S (RL_MAX_BUF + work s)) r s n [] Hok) as H.
  cbn [length app] in H. rewrite Nat.sub_0_r in H. apply H; [|lia].
  destruct Hok as (Hl & _). unfold pending. rewrite length_take, length_drop. lia.
Qed.

(** ** Whole messages *)

Lemma chunk_exact b r : chunk (length b) (map Byte b ++ r) = (b, Newline, r).
Proof. rewrite chunk_app, Nat.sub_diag by done. simpl. by rewrite app_nil_r. Qed.

Lemma writen_all_sent os ms sent os' : writen_all os ms = Some (sent, os') -> sent = concat ms.
Proof.
  revert os sent os'. induction ms as [|m ms IH]; intros os sent os' H; simpl in H.
  { by simplify_eq. }
  destruct (sock_writen_loop_spec (S (length m + length os)) os m 0 [])
    as (ret & s1 & os1 & E & Hc & _); [lia|lia|done|].
  unfold writen in H. rewrite E in H. simpl in H.
  destruct Hc as [[-> ->]|[-> _]]; [|done].
  rewrite (proj2 (Z.eqb_neq _ _)) in H by lia.
  destruct (writen_all os1 ms) as [[s2 os2]|] eqn:E2; simplify_eq/=.
  f_equal. by eapply IH.
Qed.

Lemma readn_all_spec ms s rest :
  flat true s = map Byte (concat ms) ++ rest ->
  exists s', readn_all s (map length ms) = Some (ms, s') /\ flat true s' = rest.
Proof.
  revert s. induction ms as [|m ms IH]; intros s H; simpl in *; [by exists s|].
  pose proof (readn_spec s (length m)) as Hr.
  rewrite H, map_app, <- app_assoc, chunk_exact in Hr.
  destruct Hr as (s1 & -> & H1). simpl. rewrite Z.eqb_refl.
  destruct (IH s1 H1) as (s2 & -> & H2). by exists s2.
Qed.
