(* ===== verification/Sockets.v ===== *)
(** * Sockets: setting up stream and datagram sockets.

    tlpi-dist/sockets/inet_sockets.c and unix_sockets.c.  The state is the table of
    the process's open sockets and errno; what the kernel and the resolver answer
    is the class [NetKernel]. *)
From S2P Require Import Prelude.
Local Open Scope Z_scope.

(** ** The kernel *)

(** A socket address: a structure of an address list, or the [sun_path] array of a
    [sockaddr_un]. *)
Inductive addr := Inet (family : Z) (host : bytes) (addrlen : Z) | Unix (sun_path : bytes).

#[export] Instance addr_eq_dec : EqDecision addr.
Proof. solve_decision. Defined.

(** How far a socket has been set up. *)
Inductive sock :=
| Created (type : Z)
| Bound (a : addr)
| Listening (a : addr) (backlog : Z) (reuse : bool)
| Connected (a : addr).

Record net := mkNet { socks : gmap Z sock; errno : Z }.

(** The answers: a new descriptor, the list of addresses for a host and a service
    ([None] when the look-up fails), the error of a call where there is one, and
    what [close] leaves in errno. *)
Class NetKernel := {
  new_fd : gmap Z sock -> Z;
  getaddrinfo : option bytes -> bytes -> Z -> option (list addr);
  socket_err : addr -> option Z;
  setsockopt_err : addr -> option Z;
  bind_err : addr -> option Z;
  listen_err : addr -> option Z;
  connect_err : addr -> option Z;
  close_errno : Z -> Z;
}.

(** A descriptor that [socket] returns was not in use. *)
Class NetKernelOk (K : NetKernel) : Prop := {
  new_fd_free : forall m, m !! new_fd m = None;
  new_fd_nonneg : forall m, 0 <= new_fd m;
}.

Section calls.
Context {K : NetKernel}.

Definition sys_socket (w : net) (a : addr) (type : Z) : Z * net :=
  match socket_err a with
  | Some e => (-1, mkNet (socks w) e)
  | None =>
      let fd := new_fd (socks w) in
      (fd, mkNet (<[fd := Created type]> (socks w)) (errno w))
  end.

Definition sys_close (w : net) (fd : Z) : net :=
  mkNet (delete fd (socks w)) (close_errno (errno w)).

(** A call that fails with [err] or moves the socket on to [st]. *)
Definition sys_call (w : net) (fd : Z) (err : option Z) (st : sock) : Z * net :=
  match err with
  | Some e => (-1, mkNet (socks w) e)
  | None => (0, mkNet (<[fd := st]> (socks w)) (errno w))
  end.

Definition set_errno (e : Z) (w : net) : net := mkNet (socks w) e.

Definition SOCK_STREAM : Z := 1.
Definition ENOSYS : Z := 38.
Definition EINVAL : Z := 22.

(** ** inet_sockets.c *)

(** The loop over the addresses of [inetConnect]: the descriptor, or -1 when the
    list is exhausted ([rp == NULL]). *)
Fixpoint connect_loop (w : net) (result : list addr) (type : Z) : Z * net :=
  match result with
  | [] => (-1, w)
  | rp :: rest =>
      let '(sfd, w) := sys_socket w rp type in
      if sfd =? -1 then connect_loop w rest type
      else
        let '(r, w) := sys_call w sfd (connect_err rp) (Connected rp) in
        if negb (r =? -1) then (sfd, w) else connect_loop (sys_close w sfd) rest type
  end.

Definition inetConnect (w : net) (host : option bytes) (service : bytes) (type : Z) : Z * net :=
  match getaddrinfo host service type with
  | None => (-1, set_errno ENOSYS w)
  | Some result => connect_loop w result type
  end.

(** The loop of [inetPassiveSocket]: it can return from inside ([inl]), or end with
    the address found and its socket, or with none. *)
Fixpoint passive_loop (w : net) (result : list addr) (type : Z) (doListen : bool) :
    net * (Z + option (Z * addr)) :=
  match result with
  | [] => (w, inr None)
  | rp :: rest =>
      let '(sfd, w) := sys_socket w rp type in
      if sfd =? -1 then passive_loop w rest type doListen
      else
        let '(r, w) :=
          if doListen then sys_call w sfd (setsockopt_err rp) (Created type) else (0, w) in
        if r =? -1 then (sys_close w sfd, inl (-1))
        else
          let '(b, w) := sys_call w sfd (bind_err rp) (Bound rp) in
          if b =? 0 then (w, inr (Some (sfd, rp)))
          else passive_loop (sys_close w sfd) rest type doListen
  end.

Definition ai_addrlen (a : addr) : Z := match a with Inet _ _ l => l | Unix _ => 110 end.

(** [inetPassiveSocket]: the descriptor and what [*addrlen] is set to, if
    [addrlen] is not null and anything is stored. *)
Definition inetPassiveSocket (w : net) (service : bytes) (type : Z) (want_len : bool)
    (doListen : bool) (backlog : Z) : Z * option Z * net :=
  match getaddrinfo None service type with
  | None => (-1, None, w)
  | Some result =>
      match passive_loop w result type doListen with
      | (w, inl r) => (r, None, w)
      | (w, inr None) => (-1, None, w)
      | (w, inr (Some (sfd, rp))) =>
          let '(r, w) :=
            if doListen then sys_call w sfd (listen_err rp) (Listening rp backlog true)
            else (0, w) in
          if r =? -1 then (-1, None, w)
          else (sfd, if want_len then Some (ai_addrlen rp) else None, w)
      end
  end.

Definition inetListen (w : net) (service : bytes) (backlog : Z) (want_len : bool) :=
  inetPassiveSocket w service SOCK_STREAM want_len true backlog.

Definition inetBind (w : net) (service : bytes) (type : Z) (want_len : bool) :=
  inetPassiveSocket w service type want_len false 0.

(** ** unix_sockets.c *)

(** [sizeof(addr->sun_path)]. *)
Definition SUN_PATH : nat := 108.

Definition ENAMETOOLONG : Z := 36.

(** [unixBuildAddress]: [None] when it returns -1, with errno set. *)
Definition unixBuildAddress (w : net) (path : option bytes) (addr_null : bool) :
    net * option addr :=
  match path with
  | None => (set_errno EINVAL w, None)
  | Some path =>
      if addr_null || (SUN_PATH - 1 <=? length path)%nat then (set_errno EINVAL w, None)
      else if (length path <? SUN_PATH)%nat then
        (w, Some (Unix (take (SUN_PATH - 1) path ++ replicate (SUN_PATH - length path) 0)))
      else (set_errno ENAMETOOLONG w, None)
  end.

(** Closing on a failure without disturbing errno. *)
Definition close_saving (w : net) (fd : Z) : net := set_errno (errno w) (sys_close w fd).

Definition unixConnect (w : net) (path : option bytes) (type : Z) : Z * net :=
  match unixBuildAddress w path false with
  | (w, None) => (-1, w)
  | (w, Some a) =>
      let '(sd, w) := sys_socket w a type in
      if sd =? -1 then (-1, w)
      else
        let '(r, w) := sys_call w sd (connect_err a) (Connected a) in
        if r =? -1 then (-1, close_saving w sd) else (sd, w)
  end.

Definition unixPassiveSocket (w : net) (path : option bytes) (type : Z) (doListen : bool)
    (backlog : Z) : Z * net :=
  match unixBuildAddress w path false with
  | (w, None) => (-1, w)
  | (w, Some a) =>
      let '(sd, w) := sys_socket w a type in
      if sd =? -1 then (-1, w)
      else
        let '(r, w) := sys_call w sd (bind_err a) (Bound a) in
        if r =? -1 then (-1, close_saving w sd)
        else
          let '(l, w) :=
            if doListen then sys_call w sd (listen_err a) (Listening a backlog false)
            else (0, w) in
          if l =? -1 then (-1, close_saving w sd) else (sd, w)
  end.

Definition unixListen (w : net) (path : option bytes) (backlog : Z) :=
  unixPassiveSocket w path SOCK_STREAM true backlog.

Definition unixBind (w : net) (path : option bytes) (type : Z) :=
  unixPassiveSocket w path type false 0.

End calls.
