(* ===== verification/SeqNum.v ===== *)
(** * SeqNum: the sequence number service.

    tlpi-dist/sockets/is_seqnum_sv.c and is_seqnum_cl.c (and their versions
    is_seqnum_v2_sv.c and is_seqnum_v2_cl.c, which differ in how the socket is set
    up): a server that grants ranges of numbers over one-line requests, and its
    client. *)
From S2P Require Import Prelude Libc GetNum SockIo SockIoSpec.
Local Open Scope Z_scope.

Definition INT_LEN : nat := 30.

(** [snprintf(buf, n, ...)] of a text: at most [n - 1] bytes of it. *)
Definition snprintf (n : nat) (t : bytes) : bytes := take (n - 1) t.

(** ** The server *)

(** A connection as the server sees it: what its reads will find and what becomes
    of its writes. *)
Record conn := mkConn { c_in : stream; c_out : list wres }.

(** What one connection led to: the range granted and the bytes that went out. *)
Record grant := mkGrant { g_start : Z; g_len : Z; g_sent : bytes }.

(** The state before the loop: [seqNum] from the command line. *)
Definition init_seqNum (arg : option bytes) : gn_error + Z :=
  match arg with
  | None => inr 0
  | Some s => match getInt (Some s) 0 with inl e => inl e | inr n => inr (wrap_u 32 n) end
  end.

(** One turn of the server's loop; [None] for a failed accept.  The messages on
    the terminal are left out.  An unfinished read has no result. *)
Definition serve (seqNum : Z) (accepted : option conn) : option (Z * option grant) :=
  match accepted with
  | None => Some (seqNum, None)
  | Some c =>
      '(ret, reqLenStr, _) ← readLine (c_in c) false INT_LEN;
      if ret <=? 0 then Some (seqNum, None)
      else
        let reqLen := atoi (cstring reqLenStr) in
        if reqLen <=? 0 then Some (seqNum, None)
        else
          let seqNumStr := snprintf INT_LEN (fmt_ld (wrap_s 32 seqNum) ++ [10]) in
          let '(_, _, sent, _) := write (c_out c) seqNumStr in
          Some (wrap_u 32 (seqNum + reqLen), Some (mkGrant seqNum reqLen sent))
  end.

(** The server's loop over the connections that arrive. *)
Fixpoint server (seqNum : Z) (cs : list (option conn)) : option (Z * list grant) :=
  match cs with
  | [] => Some (seqNum, [])
  | c :: cs' =>
      '(seqNum', g) ← serve seqNum c;
      '(final, gs) ← server seqNum' cs';
      Some (final, option_list g ++ gs)
  end.

(** ** The client *)

(** The two writes of the request; [None] when one is partial or fails. *)
Definition client_send (os : list wres) (arg : option bytes) : option bytes :=
  let reqLenStr := match arg with Some a => a | None => str "1" end in
  let '(n1, _, b1, os) := write os reqLenStr in
  if negb (n1 =? Z.of_nat (length reqLenStr)) then None
  else
    let '(n2, _, b2, os) := write os [10] in
    if negb (n2 =? 1) then None else Some (b1 ++ b2).

(** The answer: the text after [Sequence number:], or how the client fails. *)
Inductive client_end := Shown (s : bytes) | ReadError | UnexpectedEof.

Definition client_receive (reply : stream) : option client_end :=
  '(numRead, seqNumStr, _) ← readLine reply false INT_LEN;
  Some (if numRead =? -1 then ReadError
        else if numRead =? 0 then UnexpectedEof
        else Shown (cstring seqNumStr)).

(** ** What is granted *)

(** The numbers of a range of 32-bit numbers. *)
Definition range (g : grant) : list Z :=
  map (fun i => wrap_u 32 (g_start g + Z.of_nat i)) (seq 0 (Z.to_nat (g_len g))).

(** Grants that follow one another from [seqNum]. *)
Fixpoint consecutive (seqNum : Z) (gs : list grant) : Prop :=
  match gs with
  | [] => True
  | g :: gs' =>
      g_start g = seqNum /\ 0 < g_len g < 2 ^ 31 /\
      consecutive (wrap_u 32 (seqNum + g_len g)) gs'
  end.

Definition total (gs : list grant) : Z := foldr (fun g t => g_len g + t) 0 gs.

Lemma wrap_u_add w a b : 0 <= w -> wrap_u w (wrap_u w a + b) = wrap_u w (a + b).
Proof. intros. unfold wrap_u. by rewrite Zplus_mod_idemp_l. Qed.

Lemma wrap_s_bound z : - 2 ^ 31 <= wrap_s 32 z < 2 ^ 31.
Proof. unfold wrap_s. pose proof (Z.mod_pos_bound (z + 2 ^ (32 - 1)) (2 ^ 32)). lia. Qed.

Lemma wrap_s_id z : - 2 ^ 31 <= z < 2 ^ 31 -> wrap_s 32 z = z.
Proof. intros. unfold wrap_s. rewrite Z.mod_small; lia. Qed.

Lemma readLine_total s n : exists r, readLine s false (S n) = Some r.
Proof.
  pose proof (readLine_spec s (S n) ltac:(lia)) as H.
  destruct (line (flat true s)) as [[b e] l]. destruct H as (s' & -> & _). eauto.
Qed.

(** Every turn of the loop ends, and a grant starts at the current number. *)
Lemma serve_spec seqNum c :
  exists seqNum' g, serve seqNum c = Some (seqNum', g) /\
    match g with
    | None => seqNum' = seqNum
    | Some g => g_start g = seqNum /\ 0 < g_len g < 2 ^ 31 /\
        seqNum' = wrap_u 32 (seqNum + g_len g)
    end.
Proof.
  destruct c as [c|]; [|by eexists _, None]. unfold serve, INT_LEN.
  destruct (readLine_total (c_in c) 29) as [[[ret b] s'] ->]. cbn [mbind option_bind].
  case_if; [by eexists _, None|]. case_if; [by eexists _, None|].
  destruct (write _ _) as [[[? ?] sent] ?]. eexists _, (Some _). split; [done|]. simpl.
  split; [done|]. split; [|done]. unfold atoi in *. pose proof (wrap_s_bound (atol (cstring b))). lia.
Qed.

(** A run of the server serves every connection, and its grants follow one
    another. *)
Lemma server_spec seqNum cs :
  0 <= seqNum < 2 ^ 32 ->
  exists final gs, server seqNum cs = Some (final, gs) /\ consecutive seqNum gs /\
    final = wrap_u 32 (seqNum + total gs).
Proof.
  revert seqNum. induction cs as [|c cs IH]; intros seqNum Hs; cbn [server].
  { eexists _, []. split_and!; [done|done|]. simpl. unfold wrap_u. rewrite Z.mod_small; lia. }
  destruct (serve_spec seqNum c) as (seqNum' & g & -> & Hg). cbn [mbind option_bind].
  destruct g as [g|].
  - destruct Hg as (Hst & Hl & ->).
    assert (Hb := Z.mod_pos_bound (seqNum + g_len g) (2 ^ 32) ltac:(lia)).
    fold (wrap_u 32 (seqNum + g_len g)) in Hb. destruct (IH _ Hb) as (final & gs & -> & Hc & ->). eexists _, (g :: gs).
    split; [done|]. split; [by simpl|]. simpl. rewrite wrap_u_add by lia. f_equal. lia.
  - subst. destruct (IH seqNum Hs) as (final & gs & -> & Hc & ->). by eexists _, gs.
Qed.

(** As long as fewer than 2^32 numbers are granted, no number is granted twice. *)
Lemma range_elem g x :
  x ∈ range g <-> exists i, 0 <= i < g_len g /\ x = wrap_u 32 (g_start g + i).
Proof.
  unfold range. rewrite list_elem_of_fmap. split.
  - intros (i & -> & Hi). rewrite elem_of_seq in Hi. exists (Z.of_nat i). split; [lia|done].
  - intros (i & Hi & ->). exists (Z.to_nat i). rewrite Z2Nat.id by lia.
    split; [done|]. apply elem_of_seq. lia.
Qed.

Lemma consecutive_elem seqNum gs x :
  consecutive seqNum gs -> x ∈ concat (map range gs) ->
  exists i, 0 <= i < total gs /\ x = wrap_u 32 (seqNum + i).
Proof.
  revert seqNum. induction gs as [|g gs IH]; intros seqNum Hc Hx; simpl in *.
  { by apply not_elem_of_nil in Hx. }
  destruct Hc as (Hs & Hl & Hc). apply elem_of_app in Hx as [Hx|Hx].
  - apply range_elem in Hx as (i & Hi & ->). exists i. subst. split; [|done].
    assert (0 <= total gs); [|lia]. clear -Hc.
    generalize dependent (wrap_u 32 (g_start g + g_len g)).
    induction gs as [|h gs IH]; intros z Hc; simpl in *; [lia|].
    destruct Hc as (_ & ? & ?%IH). lia.
  - destruct (IH _ Hc Hx) as (i & Hi & ->). exists (g_len g + i). split; [lia|].
    rewrite wrap_u_add by lia. f_equal. lia.
Qed.

Lemma wrap_u_inj a i j :
  0 <= i < 2 ^ 32 -> 0 <= j < 2 ^ 32 -> wrap_u 32 (a + i) = wrap_u 32 (a + j) -> i = j.
Proof.
  unfold wrap_u. intros Hi Hj H.
  assert (E : (a + i - (a + j)) mod 2 ^ 32 = 0).
  { rewrite Zminus_mod, H, Z.sub_diag. done. }
  apply Z.mod_divide in E as [k E]; [|lia]. nia.
Qed.

Lemma consecutive_nodup seqNum gs :
  consecutive seqNum gs -> total gs <= 2 ^ 32 -> NoDup (concat (map range gs)).
Proof.
  revert seqNum. induction gs as [|g gs IH]; intros seqNum Hc Ht; simpl in *; [constructor|].
  destruct Hc as (Hs & Hl & Hc). apply NoDup_app. split_and!.
  - unfold range. apply NoDup_fmap_2_strong; [|apply NoDup_seq].
    intros i j Hi Hj E. rewrite elem_of_seq in Hi, Hj.
    apply wrap_u_inj in E; lia.
  - intros x Hx Hx'. apply range_elem in Hx as (i & Hi & ->).
    apply (consecutive_elem _ _ _ Hc) in Hx' as (j & Hj & E).
    rewrite wrap_u_add, Hs, <- Z.add_assoc in E by lia. apply wrap_u_inj in E; lia.
  - eapply IH; [done|lia].
Qed.

(** ** A client's request and the answer *)

(** A stream that carries the line [b] and a newline first. *)
Lemma readLine_line s b rest n :
  flat true s = map Byte (b ++ [10]) ++ rest -> Forall (fun c => c <> 10) b ->
  (length b + 1 < n)%nat ->
  exists s', readLine s false n = Some (Z.of_nat (length b + 1), b ++ [10; 0], s') /\
    flat true s' = rest.
Proof.
  intros Hf Hb Hn. pose proof (readLine_spec s n ltac:(lia)) as H.
  assert (Hl : line (flat true s) = (b ++ [10], Newline, rest)).
  { rewrite Hf. clear -Hb. induction Hb as [|c b Hc _ IH]; [done|].
    cbn [app map line]. rewrite (proj2 (Z.eqb_neq _ _)) by done.
    by setoid_rewrite IH. }
  rewrite Hl in H. cbn [readLine_result fst snd] in H.
  rewrite take_ge in H by len. rewrite length_app, <- app_assoc in H. exact H.
Qed.
