(* ===== verification/SockTheorems.v ===== *)
(** * SockTheorems: properties of the socket library and of the sequence number
    service. *)
From S2P Require Import Prelude Libc GetNum SockIo SockIoSpec Sockets SeqNum.
Local Open Scope Z_scope.

(** ** Lines *)

Lemma got_readLine e (b : bytes) n :
  (0 < n)%nat ->
  got (readLine_result e (take n b)).1 (readLine_result e (take n b)).2 =
  got (ret_of e (take n b)) (take n b).
Proof.
  intros Hn. unfold got. destruct e; cbn [readLine_result ret_of fst snd].
  - rewrite Nat2Z.id, take_app_le by done. done.
  - destruct (take n b) as [|c k]; [done|]. cbn [fst snd].
    rewrite Nat2Z.id, take_app_le by done. done.
  - done.
Qed.

(** C28: The buffered line reader is equivalent to the one that reads byte by byte:
    for any number of calls, [readLineBuf] with room for [n] bytes returns the same
    values and the same bytes as [readLine] with room for [n] bytes and a NUL, on
    any two inputs that carry the same bytes, ends of file and errors, however each
    is cut into segments.  (An interrupted read counts as an error for
    [readLineBuf], which does not repeat it.)  Both always return. *)
Theorem readLineBuf_equiv_readLine k s1 s2 n buf :
  (0 < n)%nat -> length buf = RL_MAX_BUF -> flat true s1 = flat false s2 ->
  exists rs, readLines k s1 (n + 1) = Some rs /\
    readLineBufs k (readLineBufInit buf) s2 n = Some rs.
Proof.
  intros Hn Hlen Hf.
  assert (Hok : rl_ok (readLineBufInit buf)) by (split_and!; simpl; unfold RL_MAX_BUF in *; lia).
  assert (Hi : flat true s1 = rl_items (readLineBufInit buf) s2) by done.
  clear Hlen Hf. revert s1 s2 Hok Hi. generalize (readLineBufInit buf) as r.
  induction k as [|k IH]; intros r s1 s2 Hok Hi; cbn [readLines readLineBufs]; [by exists []|].
  pose proof (readLine_spec s1 (n + 1) ltac:(lia)) as H1.
  pose proof (readLineBuf_spec r s2 n Hok Hn) as H2. rewrite <- Hi in H2.
  destruct (line (flat true s1)) as [[b e] l].
  destruct H1 as (s1' & -> & H1), H2 as (r' & s2' & -> & Hok' & H2).
  destruct (IH r' s1' s2' Hok' ltac:(congruence)) as (rs & E1 & E2).
  cbn [mbind option_bind]. rewrite E1, E2. cbn [mbind option_bind]. eexists. split; [done|]. do 2 f_equal.
  rewrite Nat.add_sub. symmetry. by apply got_readLine.
Qed.

Lemma readLineBuf_equiv_readLine_witness :
  flat true [Data (str "a"); Fail EINTR; Data (10 :: str "bc"); Data []; Data (str "d")] =
    flat false [Data (str "a" ++ 10 :: str "bc"); Data []; Data (str "d")] /\
  exists rs,
    readLines 3 [Data (str "a"); Fail EINTR; Data (10 :: str "bc"); Data []; Data (str "d")] (4 + 1)
      = Some rs /\
    readLineBufs 3 (readLineBufInit (replicate 10 7))
      [Data (str "a" ++ 10 :: str "bc"); Data []; Data (str "d")] 4 = Some rs.
Proof.
  split; [reflexivity|].
  apply (readLineBuf_equiv_readLine 3 _ _ 4 (replicate 10 7)); [lia|reflexivity|reflexivity].
Defined.

(** ** Messages *)

(** Messages written with [writen] and read with [readn] arrive whole and in
    order: if [writen] does not fail, then whatever the sizes of the partial
    writes, the interruptions on either side and the segments in which the bytes
    arrive, reading as many bytes as each message has returns the messages, and
    leaves the input at what follows them. *)
Lemma messages_roundtrip ms os sent os' s rest :
  writen_all os ms = Some (sent, os') ->
  flat true s = map Byte sent ++ rest ->
  exists s', readn_all s (map length ms) = Some (ms, s') /\ flat true s' = rest.
Proof. intros ->%writen_all_sent. apply readn_all_spec. Qed.

Lemma messages_roundtrip_witness :
  writen_all [Wrote 2; WFail EINTR; Wrote 1] [str "hello"; str "yes"] = Some (str "helloyes", []) /\
  exists s', readn_all [Data (str "hel"); Fail EINTR; Data (str "loyesmore")]
    (map length [str "hello"; str "yes"]) = Some ([str "hello"; str "yes"], s') /\
    flat true s' = map Byte (str "more").
Proof.
  split; [reflexivity|].
  apply (messages_roundtrip [str "hello"; str "yes"] [Wrote 2; WFail EINTR; Wrote 1]
    (str "helloyes") []); reflexivity.
Defined.

(** ** Numbers on command lines *)

(** Reading numbers inverts writing them: the text of any integer in the base
    the flags select (with the prefix 0x also where a prefix is allowed) is
    accepted exactly when the integer fits a long (for [getInt], an int) and meets
    the conditions of the flags, and its value is returned; what does not fit is an
    error and never a wrapped value, and text that goes on after the number is
    rejected. *)
Lemma getInt_inverts_text flags base prefix z rest :
  (gn_base flags = 0 /\ base = 10 /\ prefix = [] \/
   gn_base flags = base /\ base <> 0 /\ prefix = [] \/
   (gn_base flags = 0 \/ gn_base flags = 16) /\ base = 16 /\ prefix = str "0x") ->
  stops rest ->
  let arg := Some (num_text base prefix z ++ rest) in
  getLong arg flags =
    (if (LONG_MAX <? z) || (z <? LONG_MIN) then inl strtol_failed
     else match rest with [] => checked flags z | _ => inl nonnumeric end) /\
  (rest = [] -> checked flags z = inr z ->
   getInt arg flags =
     if (LONG_MAX <? z) || (z <? LONG_MIN) then inl strtol_failed
     else if (INT_MAX <? z) || (z <? INT_MIN) then inl out_of_range else inr z).
Proof.
  intros Hb Hr arg.
  assert (Hne : num_text base prefix z ++ rest <> []).
  { assert (Hbase : 2 <= base <= 16).
    { destruct Hb as [(_ & -> & _)|[(<- & H & _)|(_ & -> & _)]]; [lia| |lia].
      revert H. unfold gn_base. repeat case_if; lia. }
    destruct (text_head base (Z.abs z) Hbase ltac:(lia)) as (d & t & E & _).
    intros [H _]%app_eq_nil. unfold num_text in H.
    apply app_eq_nil in H as [_ [_ H]%app_eq_nil]. by rewrite E in H. }
  assert (Hn : number (gn_base flags) (num_text base prefix z ++ rest) =
    Some (z <? 0, Z.abs z, rest)).
  { destruct Hb as [(-> & -> & ->)|[(<- & H & ->)|(H & -> & ->)]].
    - apply number_text; auto.
    - apply number_text; [|done]. right. split; [done|].
      revert H. unfold gn_base. repeat case_if; lia.
    - by apply number_hex. }
  assert (Hg := getNum_number _ flags z rest Hne Hn). split; [exact Hg|].
  intros -> Hc. unfold getInt, arg. rewrite Hg, Hc.
  destruct ((LONG_MAX <? z) || (z <? LONG_MIN)); [done|].
  destruct ((INT_MAX <? z) || (z <? INT_MIN)) eqn:E'; [done|]. bool_to_prop.
  unfold INT_MAX, INT_MIN in *. by rewrite wrap_s_id by lia.
Qed.

Lemma getInt_inverts_text_witness :
  num_text 16 (str "0x") (-255) ++ [] = str "-0xff" /\
  getLong (Some (num_text 16 (str "0x") (-255) ++ [])) 64 = inr (-255) /\
  getInt (Some (num_text 16 (str "0x") (-255) ++ [])) 64 = inr (-255).
Proof.
  split; [reflexivity|].
  destruct (getInt_inverts_text 64 16 (str "0x") (-255) []) as [H1 H2]; [|exact I|].
  - right; right. split; [left; reflexivity|split; reflexivity].
  - split; [exact H1|]. apply H2; reflexivity.
Defined.

(** ** The sequence number service *)

(** The server never grants a number twice: over any sequence of connections,
    well-behaved or not, the loop serves every one of them, every range it grants
    starts where the one before ended, the numbers of all ranges are different as
    long as there are at most 2^32 of them, and what each client is sent is a
    beginning of the line with the start of its range. *)
Lemma seqnum_unique seqNum cs :
  0 <= seqNum < 2 ^ 32 ->
  exists final gs, server seqNum cs = Some (final, gs) /\
    consecutive seqNum gs /\
    final = wrap_u 32 (seqNum + total gs) /\
    (total gs <= 2 ^ 32 -> NoDup (concat (map range gs))).
Proof.
  intros Hs. destruct (server_spec seqNum cs Hs) as (final & gs & E & Hc & Hf).
  exists final, gs. split_and!; [done..|]. by apply (consecutive_nodup seqNum).
Qed.

Lemma seqnum_unique_witness :
  (0 <= 2 ^ 32 - 3 < 2 ^ 32) /\
  exists final gs, server (2 ^ 32 - 3)
      [Some (mkConn [Data (str "5"); Data [10]] []); None; Some (mkConn [Data (str "x")] []);
       Some (mkConn [Data (str "7" ++ [10])] [Wrote 1])] = Some (final, gs) /\
    consecutive (2 ^ 32 - 3) gs /\ final = wrap_u 32 (2 ^ 32 - 3 + total gs) /\
    (total gs <= 2 ^ 32 -> NoDup (concat (map range gs))).
Proof. split; [lia|]. apply seqnum_unique. lia. Defined.

Lemma fmt_ld_chars z :
  Forall (fun c => c <> 10) (fmt_ld z) /\ Forall (fun c => c <> 0) (fmt_ld z).
Proof.
  assert (H : forall n, 0 <= n -> Forall (fun c => c <> 10 /\ c <> 0) (dec_u n)).
  { intros n Hn. eapply Forall_impl; [by apply dec_u_digits|]. simpl. lia. }
  assert (Hz : Forall (fun c => c <> 10 /\ c <> 0) (fmt_ld z)).
  { unfold fmt_ld. case_if; [constructor; [lia|]|]; apply H; lia. }
  split; (eapply Forall_impl; [exact Hz|]; simpl; tauto).
Qed.

Lemma fmt_ld_length z : - 2 ^ 31 <= z < 2 ^ 31 -> (length (fmt_ld z) <= 11)%nat.
Proof.
  intros H. unfold fmt_ld. case_if; cbn [length].
  - assert (length (dec_u (- z)) <= 10)%nat; [|lia]. apply dec_u_length; lia.
  - assert (length (dec_u z) <= 10)%nat; [|lia]. apply dec_u_length; lia.
Qed.

Lemma write_full os b n e acc os' :
  write os b = (n, e, acc, os') -> n = Z.of_nat (length b) -> acc = b.
Proof.
  intros E ->. destruct os as [|[k|e'] os]; simpl in E; simplify_eq; [done| |lia].
  apply take_ge. rewrite length_take in *. lia.
Qed.

Lemma client_send_request os a req : client_send os (Some a) = Some req -> req = a ++ [10].
Proof.
  unfold client_send. intros H. destruct (write os a) as [[[n1 e1] b1] os1] eqn:E1.
  destruct (Z.eqb_spec n1 (Z.of_nat (length a))) as [->|]; [|done]. simpl in H.
  destruct (write os1 [10]) as [[[n2 e2] b2] os2] eqn:E2.
  destruct (Z.eqb_spec n2 1) as [->|]; [|done]. simpl in H.
  apply write_full in E1, E2; [|done..]. by simplify_eq.
Qed.

(** A client is told the start of its range: a client that asks for [n] numbers
    (1 <= n < 2^31) and whose writes are complete reaches the server with that
    request however the connection cuts it up; the server grants [n] numbers from
    its current one, and when the answer gets through the client shows that number
    (as the signed 32-bit number of the same bits, for the format is %d). *)
Lemma seqnum_end_to_end os n req c rest seqNum reply rest' :
  1 <= n < 2 ^ 31 -> 0 <= seqNum < 2 ^ 32 ->
  client_send os (Some (fmt_ld n)) = Some req ->
  flat true (c_in c) = map Byte req ++ rest -> c_out c = [] ->
  exists g, serve seqNum (Some c) = Some (wrap_u 32 (seqNum + n), Some g) /\
    g_start g = seqNum /\ g_len g = n /\
    (flat true reply = map Byte (g_sent g) ++ rest' ->
     client_receive reply = Some (Shown (fmt_ld (wrap_s 32 seqNum) ++ [10]))).
Proof.
  intros Hn Hs Hq%client_send_request Hf Ho. subst req.
  destruct (fmt_ld_chars n) as [Hc10 Hc0]. pose proof (fmt_ld_length n ltac:(lia)) as Hl.
  destruct (readLine_line (c_in c) (fmt_ld n) rest INT_LEN Hf Hc10) as (s1 & E1 & _).
  { unfold INT_LEN. lia. }
  assert (Hatoi : atoi (cstring (fmt_ld n ++ [10; 0])) = n).
  { replace (fmt_ld n ++ [10; 0]) with ((fmt_ld n ++ [10]) ++ 0 :: []) by by rewrite <- app_assoc.
    rewrite cstring_nonzero by (apply Forall_app; split; [done|by repeat constructor]).
    unfold atoi, fmt_ld. rewrite (proj2 (Z.ltb_ge _ _)) by lia.
    pose proof (atol_fmt 0 n [10]) as Ha. cbn [replicate app] in Ha.
    rewrite Ha; [|unfold LONG_MAX; lia|done]. apply wrap_s_id. lia. }
  assert (Hw := wrap_s_bound seqNum). pose proof (fmt_ld_length _ Hw) as Hl2.
  unfold serve. rewrite E1. cbn [mbind option_bind].
  rewrite (proj2 (Z.leb_gt _ 0)) by lia. rewrite Hatoi, (proj2 (Z.leb_gt n 0)), Ho by lia.
  cbn [write]. eexists. split; [done|]. split; [done|]. split; [done|]. cbn [g_sent].
  unfold snprintf. rewrite take_ge by (rewrite length_app; unfold INT_LEN; simpl; lia).
  intros Hr. destruct (fmt_ld_chars (wrap_s 32 seqNum)) as [Hd10 Hd0].
  destruct (readLine_line reply _ rest' INT_LEN Hr Hd10) as (s2 & E2 & _).
  { unfold INT_LEN. lia. }
  unfold client_receive. rewrite E2. cbn [mbind option_bind].
  rewrite (proj2 (Z.eqb_neq _ (-1))), (proj2 (Z.eqb_neq _ 0)) by lia. do 2 f_equal.
  replace (fmt_ld (wrap_s 32 seqNum) ++ [10; 0])
    with ((fmt_ld (wrap_s 32 seqNum) ++ [10]) ++ 0 :: []) by by rewrite <- app_assoc.
  apply cstring_nonzero, Forall_app. split; [done|by repeat constructor].
Qed.

Lemma seqnum_end_to_end_witness :
  client_send [] (Some (fmt_ld 100)) = Some (str "100" ++ [10]) /\
  exists g, serve 40 (Some (mkConn [Data (str "10"); Data (str "0" ++ [10])] [])) =
      Some (wrap_u 32 (40 + 100), Some g) /\
    g_start g = 40 /\ g_len g = 100 /\
    (flat true [Data (str "40" ++ [10])] = map Byte (g_sent g) ++ [] ->
     client_receive [Data (str "40" ++ [10])] = Some (Shown (fmt_ld (wrap_s 32 40) ++ [10]))).
Proof.
  split; [reflexivity|].
  apply (seqnum_end_to_end [] 100 (str "100" ++ [10])
    (mkConn [Data (str "10"); Data (str "0" ++ [10])] []) [] 40);
    [lia|lia|reflexivity|reflexivity|reflexivity].
Defined.

(** ** Setting up sockets *)

(** The outcome of a call that sets up a socket: it fails and the table of open
    sockets is as before, or it returns a new descriptor, the only one added. *)
Definition clean (w : net) (r : Z) (st : sock -> Prop) (w' : net) : Prop :=
  r = -1 /\ socks w' = socks w \/
  0 <= r /\ socks w !! r = None /\ exists x, st x /\ socks w' = <[r := x]> (socks w).

Section setup.
Context {K : NetKernel} {KOk : NetKernelOk K}.

Lemma new_fd_not_m1 m : (new_fd m =? -1) = false.
Proof. pose proof (new_fd_nonneg m). apply Z.eqb_neq. lia. Qed.

Lemma delete_new (m : gmap Z sock) x y : delete (new_fd m) (<[new_fd m := x]> (<[new_fd m := y]> m)) = m.
Proof. rewrite insert_insert_eq, delete_insert_eq. apply delete_id, new_fd_free. Qed.

Lemma delete_new1 (m : gmap Z sock) x : delete (new_fd m) (<[new_fd m := x]> m) = m.
Proof. rewrite delete_insert_eq. apply delete_id, new_fd_free. Qed.

Lemma clean_new w x (st : sock -> Prop) w' :
  st x -> socks w' = <[new_fd (socks w) := x]> (socks w) -> clean w (new_fd (socks w)) st w'.
Proof. intros. right. split_and!; [apply new_fd_nonneg|apply new_fd_free|eauto]. Qed.

Lemma connect_loop_spec l type w :
  let '(r, w') := connect_loop w l type in
  (exists pre a post, l = pre ++ a :: post /\
    Forall (fun a => ~ (socket_err a = None /\ connect_err a = None)) pre /\
    socket_err a = None /\ connect_err a = None /\
    r = new_fd (socks w) /\ socks w' = <[r := Connected a]> (socks w)) \/
  (r = -1 /\ socks w' = socks w /\
    Forall (fun a => ~ (socket_err a = None /\ connect_err a = None)) l).
Proof.
  revert w. induction l as [|a l IH]; intros w; cbn [connect_loop]; [by right|].
  assert (Hskip : forall w1, socks w1 = socks w -> ~ (socket_err a = None /\ connect_err a = None) ->
    let '(r, w') := connect_loop w1 l type in
    (exists pre b post, a :: l = pre ++ b :: post /\
      Forall (fun a => ~ (socket_err a = None /\ connect_err a = None)) pre /\
      socket_err b = None /\ connect_err b = None /\
      r = new_fd (socks w) /\ socks w' = <[r := Connected b]> (socks w)) \/
    (r = -1 /\ socks w' = socks w /\
      Forall (fun a => ~ (socket_err a = None /\ connect_err a = None)) (a :: l))).
  { intros w1 Hw Ha. specialize (IH w1). destruct (connect_loop w1 l type) as [r w'].
    rewrite Hw in IH. destruct IH as [(pre & b & post & -> & Hp & H)|(-> & -> & H)].
    - left. exists (a :: pre), b, post. split; [done|]. split; [by constructor|done].
    - right. split_and!; [done..|by constructor]. }
  unfold sys_socket. destruct (socket_err a) eqn:Es.
  - simpl. apply Hskip; [done|]. intros [??]; congruence.
  - cbn [socks]. rewrite new_fd_not_m1. unfold sys_call. destruct (connect_err a) eqn:Ec.
    + cbn [Z.eqb Pos.eqb negb socks]. apply Hskip; [apply delete_new1|]. intros [??]; congruence.
    + cbn [Z.eqb negb socks]. left. exists [], a, l. split_and!; try done.
      simpl. by rewrite insert_insert_eq.
Qed.

Lemma passive_loop_spec l type d w :
  match passive_loop w l type d with
  | (w', inl r) => r = -1 /\ socks w' = socks w
  | (w', inr None) => socks w' = socks w
  | (w', inr (Some (fd, a))) => fd = new_fd (socks w) /\ a ∈ l /\ socks w' = <[fd := Bound a]> (socks w)
  end.
Proof.
  revert w. induction l as [|a l IH]; intros w; cbn [passive_loop]; [done|].
  assert (Hskip : forall w1, socks w1 = socks w -> match passive_loop w1 l type d with
    | (w', inl r) => r = -1 /\ socks w' = socks w
    | (w', inr None) => socks w' = socks w
    | (w', inr (Some (fd, b))) =>
        fd = new_fd (socks w) /\ b ∈ a :: l /\ socks w' = <[fd := Bound b]> (socks w)
    end).
  { intros w1 Hw. specialize (IH w1). destruct (passive_loop w1 l type d) as [w' [r|[[fd b]|]]];
      rewrite Hw in IH; [done| |done]. destruct IH as (-> & Hb & ->). split_and!; [done|by right|done]. }
  unfold sys_socket. destruct (socket_err a) eqn:Es; [by apply Hskip|].
  cbn [socks]. rewrite new_fd_not_m1. destruct d; unfold sys_call.
  - destruct (setsockopt_err a); cbn [Z.eqb Pos.eqb socks].
    { split; [done|]. apply delete_new1. }
    destruct (bind_err a); cbn [Z.eqb Pos.eqb socks]; [apply Hskip, delete_new|].
    split_and!; [done|left|by rewrite !insert_insert_eq].
  - cbn [Z.eqb Pos.eqb socks].
    destruct (bind_err a); cbn [Z.eqb Pos.eqb socks]; [apply Hskip, delete_new1|].
    split_and!; [done|left|by rewrite !insert_insert_eq].
Qed.

Lemma unixBuildAddress_socks w path n : socks (unixBuildAddress w path n).1 = socks w.
Proof. unfold unixBuildAddress. by repeat case_match. Qed.

(** The errors that [unixConnect] and [unixPassiveSocket] may report. *)
Definition unix_error (calls : list (addr -> option Z)) (w : net) (path : option bytes) (e : Z) : Prop :=
  (e = Sockets.EINVAL /\ (unixBuildAddress w path false).2 = None) \/
  exists a call, (unixBuildAddress w path false).2 = Some a /\ call ∈ calls /\ call a = Some e.

Lemma unixBuildAddress_errno w path :
  (unixBuildAddress w path false).2 = None ->
  errno (unixBuildAddress w path false).1 = Sockets.EINVAL.
Proof.
  unfold unixBuildAddress. destruct path as [p|]; [|done]. cbn [orb].
  destruct (Nat.leb_spec (SUN_PATH - 1) (length p)); [done|].
  by rewrite (proj2 (Nat.ltb_lt _ SUN_PATH)) by lia.
Qed.

Lemma unixConnect_clean w path type :
  let '(r, w') := unixConnect w path type in
  clean w r (fun x => exists a, x = Connected a) w' /\
  (r = -1 -> unix_error [socket_err; connect_err] w path (errno w')).
Proof.
  pose proof (unixBuildAddress_socks w path false) as Hs.
  pose proof (unixBuildAddress_errno w path) as He.
  unfold unixConnect, unix_error. destruct (unixBuildAddress w path false) as [w1 [a|]]; simpl in *.
  - unfold sys_socket. destruct (socket_err a) eqn:Es; cbn [socks].
    { split; [by left|]. intros _. right. exists a, socket_err. split_and!; [done|left|done]. }
    rewrite new_fd_not_m1. unfold sys_call. destruct (connect_err a) eqn:Ec; cbn [Z.eqb Pos.eqb socks].
    + split; [left; split; [done|]; cbn; by rewrite delete_new1|]. intros _. right.
      exists a, connect_err. split_and!; [done|right; left|done].
    + pose proof (new_fd_nonneg (socks w1)). split; [|lia]. rewrite Hs.
      eapply clean_new; [by exists a|]. simpl. by rewrite insert_insert_eq.
  - split; [by left|]. auto.
Qed.

Lemma unixPassiveSocket_clean w path type d b :
  let '(r, w') := unixPassiveSocket w path type d b in
  clean w r (fun x => exists a, x = if d then Listening a b false else Bound a) w' /\
  (r = -1 -> unix_error [socket_err; bind_err; listen_err] w path (errno w')).
Proof.
  pose proof (unixBuildAddress_socks w path false) as Hs.
  pose proof (unixBuildAddress_errno w path) as He.
  unfold unixPassiveSocket, unix_error.
  destruct (unixBuildAddress w path false) as [w1 [a|]]; simpl in *; [|split; [by left|]; auto].
  unfold sys_socket. destruct (socket_err a) eqn:Es; cbn [socks].
  { split; [by left|]. intros _. right. exists a, socket_err. split_and!; [done|left|done]. }
  rewrite new_fd_not_m1. unfold sys_call. destruct (bind_err a) eqn:Eb; cbn [Z.eqb Pos.eqb socks].
  { split; [left; split; [done|]; cbn; by rewrite delete_new1|]. intros _. right.
    exists a, bind_err. split_and!; [done|right; left|done]. }
  pose proof (new_fd_nonneg (socks w1)). destruct d; [destruct (listen_err a) eqn:El|];
    cbn [Z.eqb Pos.eqb socks].
  - split; [left; split; [done|]; cbn; by rewrite delete_new|]. intros _. right.
    exists a, listen_err. split_and!; [done|right; right; left|done].
  - split; [|lia]. rewrite Hs. eapply clean_new; [by exists a|]. simpl. by rewrite !insert_insert_eq.
  - split; [|lia]. rewrite Hs. eapply clean_new; [by exists a|]. simpl. by rewrite !insert_insert_eq.
Qed.

Lemma inetPassiveSocket_clean w service type wl d b :
  let '(r, _, w') := inetPassiveSocket w service type wl d b in
  clean w r (fun x => exists a, x = if d then Listening a b true else Bound a) w' \/
  (d = true /\ r = -1 /\ exists a e, listen_err a = Some e /\
    socks w' = <[new_fd (socks w) := Bound a]> (socks w)).
Proof.
  unfold inetPassiveSocket. destruct (getaddrinfo None service type) as [l|]; [|by left; left].
  pose proof (passive_loop_spec l type d w) as H.
  destruct (passive_loop w l type d) as [w1 [r|[[fd a]|]]].
  - destruct H as [-> Hw]. left. by left.
  - destruct H as (-> & _ & Hw). pose proof (new_fd_nonneg (socks w)).
    destruct d; [unfold sys_call; destruct (listen_err a) eqn:E|]; cbn [Z.eqb Pos.eqb].
    + right. split_and!; [done|done|]. by exists a, z.
    + left. eapply clean_new; [by exists a|]. simpl. by rewrite Hw, insert_insert_eq.
    + left. eapply clean_new; [by exists a|done].
  - left. by left.
Qed.

(** Setting up a socket leaves no descriptor behind: [inetConnect], [inetBind],
    [unixConnect], [unixBind] and [unixListen] either return a new descriptor in
    the state asked for, the only change to the table of open sockets, or return -1
    with the table as it was, whichever of the calls they make fail, and the two
    for UNIX sockets report the error of the call that failed although closing
    changes errno.  The exception is [inetListen] when [listen] fails: the socket,
    bound but not listening, stays open while -1 is returned. *)
Lemma setup_no_leak w host service path type backlog wl :
  (let '(r, w') := inetConnect w host service type in
   clean w r (fun x => exists a, x = Connected a) w') /\
  (let '(r, _, w') := inetBind w service type wl in
   clean w r (fun x => exists a, x = Bound a) w') /\
  (let '(r, w') := unixConnect w path type in
   clean w r (fun x => exists a, x = Connected a) w' /\
   (r = -1 -> unix_error [socket_err; connect_err] w path (errno w'))) /\
  (let '(r, w') := unixBind w path type in
   clean w r (fun x => exists a, x = Bound a) w' /\
   (r = -1 -> unix_error [socket_err; bind_err; listen_err] w path (errno w'))) /\
  (let '(r, w') := unixListen w path backlog in
   clean w r (fun x => exists a, x = Listening a backlog false) w' /\
   (r = -1 -> unix_error [socket_err; bind_err; listen_err] w path (errno w'))) /\
  (let '(r, _, w') := inetListen w service backlog wl in
   clean w r (fun x => exists a, x = Listening a backlog true) w' \/
   (r = -1 /\ exists a e, listen_err a = Some e /\
     socks w' = <[new_fd (socks w) := Bound a]> (socks w))).
Proof.
  split_and!.
  - unfold inetConnect. destruct (getaddrinfo host service type) as [l|]; [|by left].
    pose proof (connect_loop_spec l type w) as H. destruct (connect_loop w l type) as [r w'].
    destruct H as [(pre & a & post & _ & _ & _ & _ & -> & Hw)|(-> & Hw & _)]; [|by left].
    by apply (clean_new _ (Connected a)); [exists a|].
  - pose proof (inetPassiveSocket_clean w service type wl false 0) as H. unfold inetBind.
    destruct (inetPassiveSocket w service type wl false 0) as [[r o] w']. by destruct H as [H|(? & _)].
  - apply unixConnect_clean.
  - apply (unixPassiveSocket_clean w path type false 0).
  - apply (unixPassiveSocket_clean w path SOCK_STREAM true backlog).
  - pose proof (inetPassiveSocket_clean w service SOCK_STREAM wl true backlog) as H. unfold inetListen.
    destruct (inetPassiveSocket w service SOCK_STREAM wl true backlog) as [[r o] w'].
    destruct H as [H|(_ & H)]; auto.
Qed.

(** [inetConnect] tries the addresses of the host in order and connects to the
    first one for which both the socket and the connection can be had; it fails
    only when there is none. *)
Lemma inetConnect_first w host service type l :
  getaddrinfo host service type = Some l ->
  let '(r, w') := inetConnect w host service type in
  (exists pre a post, l = pre ++ a :: post /\
    Forall (fun a => ~ (socket_err a = None /\ connect_err a = None)) pre /\
    socket_err a = None /\ connect_err a = None /\
    r = new_fd (socks w) /\ socks w' = <[r := Connected a]> (socks w)) \/
  (r = -1 /\ socks w' = socks w /\
    Forall (fun a => ~ (socket_err a = None /\ connect_err a = None)) l).
Proof. intros H. unfold inetConnect. rewrite H. apply connect_loop_spec. Qed.

End setup.

(** ** A kernel *)

(** Descriptors one past the largest in use, two addresses for every host, of
    which the first refuses connections, and no room to listen. *)
Definition toy_fd (m : gmap Z sock) : Z := foldr (fun kv t => Z.max (kv.1 + 1) t) 3 (map_to_list m).

Definition toy_net : NetKernel := {|
  new_fd := toy_fd;
  getaddrinfo _ _ _ := Some [Inet 10 (str "::1") 28; Inet 2 (str "127.0.0.1") 16];
  socket_err _ := None;
  setsockopt_err _ := None;
  bind_err _ := None;
  listen_err _ := Some 98;
  connect_err a := match a with Inet 10 _ _ => Some 111 | _ => None end;
  close_errno _ := 0;
|}.

Lemma toy_fd_above (l : list (Z * sock)) k x :
  (k, x) ∈ l -> k < foldr (fun kv t => Z.max (kv.1 + 1) t) 3 l.
Proof.
  induction l as [|[k' x'] l IH]; intros H; [by apply not_elem_of_nil in H|].
  apply elem_of_cons in H as [[= <- <-]|H%IH]; simpl in *; lia.
Qed.

Lemma toy_net_ok : NetKernelOk toy_net.
Proof.
  split; simpl.
  - intros m. apply eq_None_not_Some. intros [x H%elem_of_map_to_list].
    apply toy_fd_above in H. unfold toy_fd in H. lia.
  - intros m. unfold toy_fd. induction (map_to_list m) as [|kv l IH]; simpl; lia.
Qed.

Lemma setup_no_leak_witness :
  @inetListen toy_net (mkNet ∅ 0) (str "80") 5 true =
    (-1, None, mkNet {[3 := Bound (Inet 10 (str "::1") 28)]} 98) /\
  (let '(r, w') := @inetConnect toy_net (mkNet ∅ 0) None (str "80") 1 in
   clean (mkNet ∅ 0) r (fun x => exists a, x = Connected a) w').
Proof.
  split; [reflexivity|].
  exact (proj1 (@setup_no_leak toy_net toy_net_ok (mkNet ∅ 0) None (str "80") None 1 5 true)).
Defined.

Lemma inetConnect_first_witness :
  @inetConnect toy_net (mkNet ∅ 0) None (str "80") 1 =
    (3, mkNet {[3 := Connected (Inet 2 (str "127.0.0.1") 16)]} 0) /\
  let '(r, w') := @inetConnect toy_net (mkNet ∅ 0) None (str "80") 1 in
  (exists pre a post, [Inet 10 (str "::1") 28; Inet 2 (str "127.0.0.1") 16] = pre ++ a :: post /\
    Forall (fun a => ~ (@socket_err toy_net a = None /\ @connect_err toy_net a = None)) pre /\
    @socket_err toy_net a = None /\ @connect_err toy_net a = None /\
    r = @new_fd toy_net ∅ /\ socks w' = <[r := Connected a]> ∅) \/
  (r = -1 /\ socks w' = ∅ /\
    Forall (fun a => ~ (@socket_err toy_net a = None /\ @connect_err toy_net a = None))
      [Inet 10 (str "::1") 28; Inet 2 (str "127.0.0.1") 16]).
Proof.
  split; [reflexivity|].
  exact (@inetConnect_first toy_net toy_net_ok (mkNet ∅ 0) None (str "80") 1 _ eq_refl).
Defined.
