(* ===== verification/Opend.v ===== *)
(** * Opend: the open server and its client.

    apue.2e/opend (client.c, request.c, loop.select.c, loop.poll.c), the argument
    check of opend.fe/cliargs.c, the client apue.2e/open/open.c, and the passing of
    descriptors in lib/sendfd.c, senderr.c and recvfd.c. *)
From S2P Require Import Prelude Libc Calld.
Local Open Scope Z_scope.

(** ** The server's state *)

(** [Client]; an entry with descriptor -1 is free. *)
Record Client := mkClient { fd : Z; uid : Z }.

(** A byte in a UNIX domain stream, with the descriptor that travels with it if it
    is the first byte of a message that passes one.  A descriptor stands for the
    open file it refers to. *)
Record cell := mkCell { c_byte : Z; c_rights : option Z }.

(** What the server does that can be seen outside.  [ENew] and [EClosed] are also the
    messages that are logged then: fixed text and two numbers, which fit the buffer of
    the log and have no conversion in them. *)
Inductive oev :=
| ENew (fd uid : Z) | ERequest (fd uid : Z) (buf : bytes) | EClosed (fd uid : Z)
| ESent (fd : Z) (cells : list cell) | EOpened (path : bytes) (flags fd : Z) | EShut (fd : Z)
| ELog (text : bytes).

Record pollfd := mkPollfd { p_fd : Z; p_revents : Z }.

(** The globals of main.c and the variables of [loop] that outlive a turn. *)
Record ost := mkOst {
  client : list Client;        (* client[], of client_size entries *)
  maxi : Z;                    (* largest index in use so far *)
  listenfd : Z;
  allset : list Z;             (* the set of loop.select.c, of descriptors below FD_SETSIZE *)
  maxfd : Z;
  pfds : list pollfd;          (* the array of loop.poll.c *)
  errmsg : bytes;              (* errmsg[MAXLINE], as a string *)
  pathname : bytes;
  oflag : Z;
  log_to_stderr : bool;        (* set by the option -d; else the log is syslog *)
  gone : list Z;               (* connections whose other end is closed *)
  evs : list oev               (* what was done, the latest first *)
}.

Definition upd_client v s := mkOst v (maxi s) (listenfd s) (allset s) (maxfd s) (pfds s) (errmsg s) (pathname s) (oflag s) (log_to_stderr s) (gone s) (evs s).
Definition upd_maxi v s := mkOst (client s) v (listenfd s) (allset s) (maxfd s) (pfds s) (errmsg s) (pathname s) (oflag s) (log_to_stderr s) (gone s) (evs s).
Definition upd_allset v m s := mkOst (client s) (maxi s) (listenfd s) v m (pfds s) (errmsg s) (pathname s) (oflag s) (log_to_stderr s) (gone s) (evs s).
Definition upd_pfds v s := mkOst (client s) (maxi s) (listenfd s) (allset s) (maxfd s) v (errmsg s) (pathname s) (oflag s) (log_to_stderr s) (gone s) (evs s).
Definition upd_errmsg v s := mkOst (client s) (maxi s) (listenfd s) (allset s) (maxfd s) (pfds s) v (pathname s) (oflag s) (log_to_stderr s) (gone s) (evs s).
Definition upd_args p o s := mkOst (client s) (maxi s) (listenfd s) (allset s) (maxfd s) (pfds s) (errmsg s) p o (log_to_stderr s) (gone s) (evs s).
Definition upd_evs v s := mkOst (client s) (maxi s) (listenfd s) (allset s) (maxfd s) (pfds s) (errmsg s) (pathname s) (oflag s) (log_to_stderr s) (gone s) v.

(** A step returns, ends the server (log_quit, log_sys), is killed by SIGPIPE, or is
    undefined. *)
Inductive ores (A : Type) :=
| ORet (a : A) (s : ost) | OQuit (why : string) (s : ost) | OPipe (s : ost) | OUndef (why : string).
Arguments ORet {A}. Arguments OQuit {A}. Arguments OPipe {A}. Arguments OUndef {A}.

Definition SM (A : Type) : Type := ost -> ores A.

#[export] Instance SM_ret : MRet SM := fun _ a s => ORet a s.
#[export] Instance SM_bind : MBind SM := fun _ _ f m s =>
  match m s with
  | ORet a s' => f a s'
  | OQuit w s' => OQuit w s'
  | OPipe s' => OPipe s'
  | OUndef w => OUndef w
  end.

Definition get : SM ost := fun s => ORet s s.
Definition modify (f : ost -> ost) : SM unit := fun s => ORet tt (f s).
Definition quit {A} (why : string) : SM A := fun s => OQuit why s.
Definition undef {A} (why : string) : SM A := fun _ => OUndef why.
Definition emit (e : oev) : SM unit := modify (fun s => upd_evs (e :: evs s) s).

(** ** client.c *)

Section Clients.

(** What malloc and realloc leave in the [uid] of a new entry. *)
Context (junk : Z).

Definition client_alloc : SM unit :=
  modify (fun s => upd_client (client s ++ replicate NALLOC (mkClient (-1) junk)) s).

(** The search of the array for an entry with descriptor [f]. *)
Fixpoint entry (f : Z) (l : list Client) (i : nat) : option nat :=
  match l with [] => None | c :: l' => if fd c =? f then Some i else entry f l' (S i) end.

(** [client_add]; the search after [client_alloc] succeeds, and the third outcome
    is there because the code would search again. *)
Definition client_add (clifd cuid : Z) : SM nat :=
  s ← get;
  (if bool_decide (client s = []) then client_alloc else mret tt);;
  s ← get;
  match entry (-1) (client s) 0 with
  | Some i => modify (fun s => upd_client (<[i := mkClient clifd cuid]> (client s)) s);; mret i
  | None =>
      client_alloc;;
      s ← get;
      match entry (-1) (client s) 0 with
      | Some i => modify (fun s => upd_client (<[i := mkClient clifd cuid]> (client s)) s);; mret i
      | None => undef "client_add does not end"
      end
  end.

Definition client_del (f : Z) : SM unit :=
  s ← get;
  match entry f (client s) 0 with
  | Some i =>
      modify (fun s => upd_client (alter (fun c => mkClient (-1) (uid c)) i (client s)) s)
  | None => quit "can't find client entry for fd"
  end.

End Clients.

(** ** sendfd.c and senderr.c *)

(** The message of [send_fd]: a NUL and a status, which is the lowest byte of the
    negated argument (1 in place of 0) or, with a descriptor, 0. *)
Definition fd_message (fd_to_send : Z) : list cell :=
  if fd_to_send <? 0 then
    let b := wrap_u 8 (- fd_to_send) in
    [mkCell 0 None; mkCell (if b =? 0 then 1 else b) None]
  else [mkCell 0 (Some fd_to_send); mkCell 0 None].

(** Sending on a connection: SIGPIPE, which the server does not handle, if the
    other end is closed. *)
Definition transmit (f : Z) (cells : list cell) : SM unit := fun s =>
  if bool_decide (f ∈ gone s) then OPipe s else ORet tt (upd_evs (ESent f cells :: evs s) s).

Definition send_fd (f fd_to_send : Z) : SM Z := transmit f (fd_message fd_to_send);; mret 0.

Definition text_cells (b : bytes) : list cell := map (fun c => mkCell c None) b.

Definition send_err (f errcode : Z) (msg : bytes) : SM Z :=
  (if (0 <? length msg)%nat then transmit f (text_cells msg) else mret tt);;
  send_fd f (if 0 <=? errcode then -1 else errcode);;
  mret 0.

(** ** cliargs.c and request.c *)

(** A string stored in errmsg[MAXLINE]. *)
Definition set_errmsg (m : bytes) : SM unit :=
  if Z.of_nat (length m) <? MAXLINE then modify (upd_errmsg m)
  else undef "write past the end of errmsg".

(** A text that is used as a format, without arguments: two percent signs stand for
    one, and any other conversion would take an argument that is not there. *)
Fixpoint fmt_expand (m : bytes) : option bytes :=
  match m with
  | [] => Some []
  | 37 :: 37 :: m' => cons 37 <$> fmt_expand m'
  | 37 :: _ => None
  | c :: m' => cons c <$> fmt_expand m'
  end.

Definition fmt_plain (m : bytes) : bool := match fmt_expand m with Some _ => true | None => false end.

(** [log_doit] of lib/errorlog.c for the formatted text [m]: vsnprintf leaves at most
    MAXLINE - 1 bytes of it in buf[MAXLINE], to which strcat adds a newline; for syslog
    the text is again a format. *)
Definition log_msg (m : bytes) : SM unit :=
  s ← get;
  if MAXLINE - 1 <=? Z.of_nat (length m) then undef "write past the end of the buffer of the log"
  else if log_to_stderr s then emit (ELog (m ++ [10]))
  else match fmt_expand (m ++ [10]) with
    | Some t => emit (ELog t)
    | None => undef "logged text used as a format"
    end.

(** [log_msg(errmsg)]: the text is used as a format. *)
Definition log_errmsg : SM unit :=
  s ← get;
  match fmt_expand (errmsg s) with
  | Some t => log_msg t
  | None => undef "errmsg used as a format"
  end.

Definition cli_args (argv : list bytes) : SM Z :=
  match argv with
  | [a0; a1; a2] =>
      if bool_decide (a0 = str "open") then modify (upd_args a1 (atoi a2));; mret 0
      else set_errmsg (str "usage: <pathname> <oflag>" ++ [10]);; mret (-1)
  | _ => set_errmsg (str "usage: <pathname> <oflag>" ++ [10]);; mret (-1)
  end.

(** lib/bufargs.c: argv[0] is the buffer itself, white space at its start
    included. *)
Definition buf_args (buf : bytes) (optfunc : list bytes -> SM Z) : SM Z :=
  let s := cstring buf in
  match tokens (S (length s)) is_white s with
  | [] => mret (-1)
  | t :: ts =>
      if (MAXARGC - 1 <=? length ts)%nat then mret (-1)
      else optfunc ((leading_white s ++ t) :: ts)
  end.

(** [%*.*s] with width and precision [n]. *)
Definition fmt_prec (n : nat) (b : bytes) : bytes :=
  let t := take n (cstring b) in replicate (n - length t) 32 ++ t.

Section Server.

(** The answer of [open]: a descriptor or the text of [strerror(errno)]. *)
Context (sys_open : bytes -> Z -> Z + bytes).
Context (junk : Z).

(** The messages that are logged for a request. *)
Definition request_text (buf : bytes) (cuid : Z) : bytes :=
  str "request: " ++ cstring buf ++ str ", from uid " ++ fmt_ld cuid.
Definition sent_text (newfd clifd : Z) (path : bytes) : bytes :=
  str "sent fd " ++ fmt_ld newfd ++ str " over fd " ++ fmt_ld clifd ++ str " for " ++ path.

(** [request]; [buf] is the [nread > 0] bytes that were read. *)
Definition request (buf : bytes) (clifd cuid : Z) : SM unit :=
  emit (ERequest clifd cuid buf);;
  if negb (default 0 (last buf) =? 0) then
    set_errmsg (str "request from uid " ++ fmt_ld cuid ++ str " not null terminated: " ++
                fmt_prec (length buf) buf ++ [10]);;
    s ← get; send_err clifd (-1) (errmsg s);; mret tt
  else
    log_msg (request_text buf cuid);;
    r ← buf_args buf cli_args;
    if r <? 0 then s ← get; send_err clifd (-1) (errmsg s);; log_errmsg
    else
      s ← get;
      match sys_open (pathname s) (oflag s) with
      | inr strerror =>
          set_errmsg (str "can't open " ++ pathname s ++ str ": " ++ strerror ++ [10]);;
          s ← get; send_err clifd (-1) (errmsg s);; log_errmsg
      | inl newfd =>
          emit (EOpened (pathname s) (oflag s) newfd);;
          send_fd clifd newfd;;
          log_msg (sent_text newfd clifd (pathname s));;
          emit (EShut newfd)
      end.

(** What a read on a ready connection finds. *)
Inductive oread := RFail | RGot (b : bytes).

(** A ready connection: forget it at the end of file, else serve the request. *)
Definition closed (i : nat) (clifd : Z) (forget : SM unit) : SM unit :=
  s ← get;
  emit (EClosed clifd (default 0 (uid <$> client s !! i)));;
  client_del clifd;;
  forget;;
  emit (EShut clifd).

Definition ready (i : nat) (clifd : Z) (d : oread) (forget : SM unit) : SM unit :=
  match d with
  | RFail => quit "read error on fd"
  | RGot [] => closed i clifd forget
  | RGot buf =>
      s ← get;
      match client s !! i with
      | Some c => request buf clifd (uid c)
      | None => undef "index outside client[]"
      end
  end.

(** ** loop.select.c *)

(** What select reports: an error; a connection waiting, with what serv_accept
    returns for it; or the descriptors with input and what reading them finds. *)
Inductive osel := SError | SConn (fd uid : Z) | SReady (data : list (Z * oread)).

(** How many descriptors an [fd_set] has room for. *)
Definition FD_SETSIZE : Z := 1024.

(** The data on a descriptor, if it is ready. *)
Definition isset (f : Z) (data : list (Z * oread)) : option oread :=
  snd <$> List.find (fun x => x.1 =? f) data.

(** The pass over client[i], client[i+1], ...; [n] entries. *)
Fixpoint select_pass (n i : nat) (data : list (Z * oread)) : SM unit :=
  match n with
  | 0%nat => mret tt
  | S n' =>
      s ← get;
      match client s !! i with
      | None => undef "index outside client[]"
      | Some c =>
          (if fd c <? 0 then mret tt
           else if FD_SETSIZE <=? fd c then undef "FD_ISSET past the end of rset"
           else match isset (fd c) data with
             | None => mret tt
             | Some d =>
                 ready i (fd c) d
                   (modify (fun s => upd_allset (filter (fun x => x <> fd c) (allset s)) (maxfd s) s))
             end);;
          select_pass n' (S i) data
      end
  end.

(** A turn of [loop] in loop.select.c. *)
Definition select_turn (ev : osel) : SM unit :=
  match ev with
  | SError => quit "select error"
  | SConn clifd cuid =>
      if clifd <? 0 then quit "serv_accept error"
      else
        i ← client_add junk clifd cuid;
        (if FD_SETSIZE <=? clifd then undef "FD_SET past the end of allset" else mret tt);;
        modify (fun s => upd_allset (clifd :: allset s) (Z.max clifd (maxfd s)) s);;
        modify (fun s => upd_maxi (Z.max (Z.of_nat i) (maxi s)) s);;
        emit (ENew clifd cuid)
  | SReady data => s ← get; select_pass (Z.to_nat (maxi s + 1)) 0 data
  end.

(** The state before the first turn; the set has room for [lfd] if it is below
    FD_SETSIZE. *)
Definition select_init (tty : bool) (lfd : Z) (closed_ends : list Z) : ost :=
  mkOst [] (-1) lfd [lfd] lfd [] [] [] 0 tty closed_ends [].

(** ** loop.poll.c *)

Definition POLLIN : Z := 1.
Definition POLLHUP : Z := 16.

(** What poll finds: an error, or the events of each descriptor and what reading
    finds; with POLLIN on the listening descriptor, what serv_accept returns. *)
Inductive opoll := PError | PEvents (revents : Z -> Z) (accepted : Z * Z) (data : Z -> oread).

(** poll(pollfd, n, -1): the events of the first [n] entries are set, to 0 where the
    descriptor is negative. *)
Definition poll_fill (revents : Z -> Z) (n : nat) (l : list pollfd) : list pollfd :=
  map (fun p => mkPollfd (p_fd p) (if p_fd p <? 0 then 0 else revents (p_fd p))) (take n l) ++ drop n l.

(** A store into the array, whose size is fixed by open_max(). *)
Definition set_pfd (i : nat) (p : pollfd) : SM unit :=
  s ← get;
  if (i <? length (pfds s))%nat then modify (fun s => upd_pfds (<[i := p]> (pfds s)) s)
  else undef "write past the end of pollfd".

Fixpoint poll_pass (n i : nat) (data : Z -> oread) : SM unit :=
  match n with
  | 0%nat => mret tt
  | S n' =>
      s ← get;
      match client s !! i, pfds s !! i with
      | Some c, Some p =>
          let forget := set_pfd i (mkPollfd (-1) (p_revents p)) in
          (if fd c <? 0 then mret tt
           else if negb (Z.land (p_revents p) POLLHUP =? 0) then closed i (fd c) forget
           else if negb (Z.land (p_revents p) POLLIN =? 0) then ready i (fd c) (data (fd c)) forget
           else mret tt);;
          poll_pass n' (S i) data
      | _, _ => undef "index outside client[] or pollfd"
      end
  end.

(** A turn of [loop] in loop.poll.c. *)
Definition poll_turn (ev : opoll) : SM unit :=
  match ev with
  | PError => quit "poll error"
  | PEvents revents (clifd, cuid) data =>
      modify (fun s => upd_pfds (poll_fill revents (Z.to_nat (maxi s + 1)) (pfds s)) s);;
      s ← get;
      match pfds s !! 0%nat with
      | None => undef "index outside pollfd"
      | Some p0 =>
          (if negb (Z.land (p_revents p0) POLLIN =? 0) then
             if clifd <? 0 then quit "serv_accept error"
             else
               i ← client_add junk clifd cuid;
               s ← get;
               set_pfd i (mkPollfd clifd (default 0 (p_revents <$> pfds s !! i)));;
               modify (fun s => upd_maxi (Z.max (Z.of_nat i) (maxi s)) s);;
               emit (ENew clifd cuid)
           else mret tt);;
          s ← get;
          poll_pass (Z.to_nat (maxi s)) 1 data
      end
  end.

(** What [loop] does before its first turn; [fresh] is the new array. *)
Definition poll_init (lfd : Z) (fresh : list pollfd) : SM unit :=
  modify (upd_pfds fresh);;
  client_add junk lfd 0;;
  s ← get;
  set_pfd 0 (mkPollfd lfd (default 0 (p_revents <$> pfds s !! 0%nat)));;
  modify (upd_maxi 0).

End Server.

(** ** recvfd.c *)

(** What recvmsg returns: some bytes, with a descriptor if one came with them, or an
    error. *)
Inductive rmsg := Seg (b : bytes) (rights : option Z) | RecvErr.

(** How [recv_fd] ends: with a value, by err_sys, or by err_dump. *)
Inductive rend := RRet (v : Z) | RSys | RDump (why : string).

(** The scan of the buffer for the NUL: [ptr] and [nr] as in the source.  The result
    is [status], [newfd] and [nr], or the reason of the dump. *)
Fixpoint scan (fuel : nat) (b : bytes) (rights : option Z) (ptr nr status newfd : Z) :
    string + (Z * Z * Z) :=
  match fuel with
  | 0%nat => inr (status, newfd, nr)
  | S f =>
      if ptr <? nr then
        if default 0 (b !! Z.to_nat ptr) =? 0 then
          let ptr := ptr + 1 in
          if negb (ptr =? nr - 1) then inl "message format error"
          else
            let status := Z.land (default 0 (b !! Z.to_nat ptr)) 255 in
            if status =? 0 then
              match rights with
              | None => inl "status = 0 but no fd"
              | Some f' => scan f b rights ptr (nr - 2) status f'
              end
            else scan f b rights ptr (nr - 2) status (- status)
        else scan f b rights (ptr + 1) nr status newfd
      else inr (status, newfd, nr)
  end.

(** [recv_fd]: what arrives in turn; [userfunc] returns how much it has taken, and
    what it was given is part of the result.  The end of the list is the end of the
    connection. *)
Fixpoint recv_fd (userfunc : bytes -> Z) (segs : list rmsg) : rend * bytes :=
  match segs with
  | [] => (RRet (-1), [])
  | RecvErr :: _ => (RSys, [])
  | Seg [] _ :: _ => (RRet (-1), [])
  | Seg b rights :: segs' =>
      match scan (S (length b)) b rights 0 (Z.of_nat (length b)) (-1) (-1) with
      | inl why => (RDump why, [])
      | inr (status, newfd, nr) =>
          let t := take (Z.to_nat nr) b in
          if (0 <? nr) && negb (userfunc t =? nr) then (RRet (-1), t)
          else
            let out := if 0 <? nr then t else [] in
            if 0 <=? status then (RRet newfd, out)
            else let '(r, rest) := recv_fd userfunc segs' in (r, out ++ rest)
      end
  end.

(** ** open.c *)

(** The request of [csopen]: undefined when the number does not fit buf[10]. *)
Definition csopen_request (name : bytes) (flags : Z) : option bytes :=
  let buf := 32 :: fmt_ld flags in
  if (length buf <? 10)%nat then Some (str "open " ++ name ++ buf ++ [0]) else None.

(** How [csopen] ends: undefined, by err_sys, or as [recv_fd] does. *)
Inductive csend := CsUndef | CsSys (why : string) | CsEnd (r : rend) (shown : bytes).

(** [csopen]: [csfd] is the static variable, [conn] what cli_conn would return,
    [written] what writev returns, [segs] what the server then sends. *)
Definition csopen (csfd conn written : Z) (name : bytes) (flags : Z) (write : bytes -> Z)
    (segs : list rmsg) : csend * Z :=
  let csfd' := if csfd <? 0 then conn else csfd in
  if csfd' <? 0 then (CsSys "cli_conn error", csfd')
  else
    match csopen_request name flags with
    | None => (CsUndef, csfd')
    | Some req =>
        if negb (written =? Z.of_nat (length req)) then (CsSys "writev error", csfd')
        else let '(r, shown) := recv_fd write segs in (CsEnd r shown, csfd')
    end.
