(* ===== verification/OpendOps.v ===== *)
(** * OpendOps: the operations of the open server against a map of clients. *)
From S2P Require Import Prelude Libc Calld Opend.
Local Open Scope Z_scope.

(** ** Weakest preconditions *)

(** The undefined behaviours of the messages in [request]: two of errmsg and two of the
    log. *)
Definition msg_fault (why : string) : Prop :=
  why = "write past the end of errmsg"%string \/ why = "errmsg used as a format"%string \/
  why = "write past the end of the buffer of the log"%string \/ why = "logged text used as a format"%string.

(** If the server goes on after [m], then with a value and a state in [Q]; nothing
    but a message of [request] can make it undefined. *)
Definition owp {A} (m : SM A) (Q : A -> ost -> Prop) (s : ost) : Prop :=
  match m s with ORet a s' => Q a s' | OUndef w => msg_fault w | _ => True end.

Lemma owp_ret {A} (a : A) Q s : Q a s -> owp (mret a) Q s.
Proof. done. Qed.
Lemma owp_bind {A B} (m : SM A) (k : A -> SM B) Q s :
  owp m (fun a s' => owp (k a) Q s') s -> owp (m ≫= k) Q s.
Proof. unfold owp, mbind, SM_bind. by destruct (m s). Qed.
Lemma owp_get Q s : Q s s -> owp get Q s.
Proof. done. Qed.
Lemma owp_modify f Q s : Q tt (f s) -> owp (modify f) Q s.
Proof. done. Qed.
Lemma owp_emit e Q s : Q tt (upd_evs (e :: evs s) s) -> owp (emit e) Q s.
Proof. done. Qed.
Lemma owp_quit {A} w Q s : owp (quit (A := A) w) Q s.
Proof. done. Qed.
Lemma owp_mono {A} (m : SM A) (Q Q' : A -> ost -> Prop) s :
  owp m Q s -> (forall a s', Q a s' -> Q' a s') -> owp m Q' s.
Proof. unfold owp. destruct (m s); auto. Qed.

Ltac owp_step :=
  match goal with
  | |- owp (_ ≫= _) _ _ => apply owp_bind
  | |- owp (mret _) _ _ => apply owp_ret
  | |- owp get _ _ => apply owp_get
  | |- owp (modify _) _ _ => apply owp_modify
  | |- owp (emit _) _ _ => apply owp_emit
  | |- owp (quit _) _ _ => apply owp_quit
  end.
Ltac owp_steps := repeat owp_step.

(** ** The array as a map *)

(** The entries of the array that are in use are the pairs of the map. *)
Record rep (l : list Client) (m : gmap Z Z) : Prop := {
  rep_in : forall i c, l !! i = Some c -> fd c = -1 \/ 0 <= fd c /\ m !! fd c = Some (uid c);
  rep_of : forall f u, m !! f = Some u -> 0 <= f /\ exists i, l !! i = Some (mkClient f u);
  rep_inj : forall i j c d, l !! i = Some c -> l !! j = Some d -> fd c = fd d -> fd c <> -1 -> i = j;
}.

Lemma rep_empty : rep [] ∅.
Proof. split; by intros; rewrite ?lookup_nil, ?lookup_empty in *. Qed.

Lemma rep_free m l i c : rep l m -> l !! i = Some c -> fd c < 0 -> fd c = -1.
Proof. intros H Hi Hf. destruct (rep_in _ _ H i c Hi) as [?|[? _]]; lia. Qed.

Lemma lookup_free l n j i c :
  (l ++ replicate n (mkClient (-1) j)) !! i = Some c -> fd c <> -1 -> l !! i = Some c.
Proof.
  intros H Hc. apply lookup_app_Some in H as [H|[_ H]]; [done|].
  apply lookup_replicate in H as [-> _]. done.
Qed.

Lemma rep_alloc l m n j : rep l m -> rep (l ++ replicate n (mkClient (-1) j)) m.
Proof.
  intros [Hin Hof Hinj]. split.
  - intros i c H. destruct (decide (fd c = -1)); [by left|]. apply lookup_free in H; [|done]. by eapply Hin.
  - intros f u H. destruct (Hof f u H) as [? [i Hi]]. split; [done|]. exists i. by apply lookup_app_l_Some.
  - intros i k c d Hi Hk E Hc. apply lookup_free in Hi; [|done].
    apply lookup_free in Hk; [|congruence]. by eapply Hinj.
Qed.

Lemma rep_add l m i c f u :
  rep l m -> l !! i = Some c -> fd c = -1 -> 0 <= f -> m !! f = None ->
  rep (<[i := mkClient f u]> l) (<[f := u]> m).
Proof.
  intros [Hin Hof Hinj] Hi Hc Hf Hm.
  assert (Hlt := lookup_lt_Some _ _ _ Hi). split.
  - intros j d Hj. destruct (decide (j = i)) as [->|Hne].
    + rewrite list_lookup_insert_eq in Hj by done. simplify_eq/=. right. by rewrite lookup_insert_eq.
    + rewrite list_lookup_insert_ne in Hj by done. destruct (Hin j d Hj) as [?|[? Hd]]; [by left|].
      right. rewrite lookup_insert_ne; [done|]. intros E. congruence.
  - intros g v H. apply lookup_insert_Some in H as [[<- <-]|[Hne H]].
    + split; [done|]. exists i. by rewrite list_lookup_insert_eq.
    + destruct (Hof g v H) as [? [j Hj]]. split; [done|]. exists j.
      rewrite list_lookup_insert_ne; [done|]. intros <-. simplify_eq. simpl in *. lia.
  - intros j k d e Hj Hk E Hd. destruct (decide (j = i)) as [->|Hj'], (decide (k = i)) as [->|Hk']; [done|..];
      rewrite ?list_lookup_insert_eq in * by done; rewrite ?list_lookup_insert_ne in * by done; simplify_eq/=.
    + destruct (Hin k e Hk) as [?|[? He]]; [congruence|]. congruence.
    + destruct (Hin j d Hj) as [?|[? He]]; [congruence|]. congruence.
    + by eapply Hinj.
Qed.

Lemma rep_del l m i f u :
  rep l m -> l !! i = Some (mkClient f u) -> 0 <= f ->
  rep (alter (fun c => mkClient (-1) (uid c)) i l) (delete f m).
Proof.
  intros [Hin Hof Hinj] Hi Hf. split.
  - intros j d Hj. destruct (decide (j = i)) as [->|Hne].
    + rewrite list_lookup_alter_eq, Hi in Hj. simplify_eq/=. by left.
    + rewrite list_lookup_alter_ne in Hj by done. destruct (Hin j d Hj) as [?|[? Hd]]; [by left|].
      right. rewrite lookup_delete_ne; [done|]. intros E. apply Hne. symmetry.
      eapply (Hinj i j); [exact Hi|exact Hj|exact E|simpl; lia].
  - intros g v H. apply lookup_delete_Some in H as [Hne H].
    destruct (Hof g v H) as [? [j Hj]]. split; [done|]. exists j.
    rewrite list_lookup_alter_ne; [done|]. intros ->. congruence.
  - intros j k d e Hj Hk E Hd. destruct (decide (j = i)) as [->|Hj'].
    { rewrite list_lookup_alter_eq, Hi in Hj. by simplify_eq/=. }
    destruct (decide (k = i)) as [->|Hk'].
    { rewrite list_lookup_alter_eq, Hi in Hk. by simplify_eq/=. }
    rewrite list_lookup_alter_ne in Hj, Hk by done. by eapply Hinj.
Qed.

(** ** client.c *)


Lemma entry_spec f l k :
  match entry f l k with
  | Some i => (k <= i)%nat /\ (exists c, l !! (i - k)%nat = Some c /\ fd c = f) /\
      forall j c, (j < i - k)%nat -> l !! j = Some c -> fd c <> f
  | None => forall j c, l !! j = Some c -> fd c <> f
  end.
Proof.
  revert k. induction l as [|c l IH]; intros k; simpl; [done|].
  destruct (Z.eqb_spec (fd c) f) as [E|E].
  - split; [done|]. rewrite Nat.sub_diag. split; [by exists c|]. lia.
  - specialize (IH (S k)). destruct (entry f l (S k)) as [i|].
    + destruct IH as (Hle & (d & Hd & Ef) & Hb). split; [lia|].
      replace (i - k)%nat with (S (i - S k)) by lia. split; [by exists d|].
      intros [|j] e Hj He; simpl in *; [by simplify_eq|]. apply (Hb j); [lia|done].
    + intros [|j] e He; simpl in *; [by simplify_eq|]. by apply (IH j).
Qed.

(** After [client_alloc] there is a free entry. *)
Lemma entry_alloc junk l : entry (-1) (l ++ replicate NALLOC (mkClient (-1) junk)) 0 <> None.
Proof.
  intros E. pose proof (entry_spec (-1) (l ++ replicate NALLOC (mkClient (-1) junk)) 0) as Hs.
  rewrite E in Hs. eapply (Hs (length l) (mkClient (-1) junk)); [|done].
  rewrite lookup_app_r, Nat.sub_diag by done. apply lookup_replicate. split; [done|]. unfold NALLOC. lia.
Qed.

Lemma client_add_returns junk f u s : exists i s', client_add junk f u s = ORet i s'.
Proof.
  unfold client_add, client_alloc, get, modify, mbind, SM_bind, mret, SM_ret.
  pose proof (entry_alloc junk (client s)) as Hfull.
  case_bool_decide; cbn [client upd_client].
  - destruct (entry _ (_ ++ _) _) eqn:E; [by eauto|done].
  - destruct (entry _ (client s) _) eqn:E0; [by eauto|]. cbn [client upd_client].
    destruct (entry _ (_ ++ _) _) eqn:E; [by eauto|done].
Qed.

(** A new client gets the lowest free entry, and the others keep theirs. *)
Lemma owp_client_add junk f u m Q s :
  rep (client s) m -> 0 <= f -> m !! f = None ->
  (forall i l', rep l' (<[f := u]> m) -> l' !! i = Some (mkClient f u) ->
    (forall j, (j < i)%nat -> exists c, client s !! j = Some c /\ fd c <> -1) ->
    (forall j c, l' !! j = Some c -> fd c <> -1 -> j = i \/ client s !! j = Some c) ->
    (forall j c, client s !! j = Some c -> fd c <> -1 -> l' !! j = Some c) ->
    (length (client s) <= length l')%nat ->
    Q i (upd_client l' s)) ->
  owp (client_add junk f u) Q s.
Proof.
  intros Hrep Hf Hm HQ.
  (* the entry found in an array that extends the old one with free entries *)
  assert (Hput : forall n i, entry (-1) (client s ++ replicate n (mkClient (-1) junk)) 0 = Some i ->
    Q i (upd_client (<[i := mkClient f u]> (client s ++ replicate n (mkClient (-1) junk))) s)).
  { intros n i He. pose proof (entry_spec (-1) (client s ++ replicate n (mkClient (-1) junk)) 0) as Hs.
    rewrite He, Nat.sub_0_r in Hs. destruct Hs as (_ & (c & Hc & Ec) & Hb).
    assert (Hlt := lookup_lt_Some _ _ _ Hc).
    apply HQ.
    - by eapply rep_add; [apply rep_alloc| | | |].
    - by apply list_lookup_insert_eq.
    - intros j Hj. destruct (lookup_lt_is_Some_2 (client s ++ replicate n (mkClient (-1) junk)) j) as [d Hd]; [lia|].
      exists d. assert (fd d <> -1) by (by eapply Hb). split; [by eapply lookup_free|done].
    - intros j d Hj Hd. destruct (decide (j = i)) as [->|Hne]; [by left|]. right.
      rewrite list_lookup_insert_ne in Hj by done. by eapply lookup_free.
    - intros j d Hj Hd. destruct (decide (j = i)) as [->|Hne].
      + apply (lookup_app_l_Some _ (replicate n (mkClient (-1) junk))) in Hj. congruence.
      + rewrite list_lookup_insert_ne by done. by apply lookup_app_l_Some.
    - rewrite length_insert, length_app. lia. }
  unfold client_add. owp_steps. case_bool_decide as E0.
  - unfold client_alloc. owp_steps. cbn [client upd_client].
    specialize (Hput NALLOC). pose proof (entry_alloc junk (client s)) as Hfull.
    destruct (entry (-1) (client s ++ replicate NALLOC (mkClient (-1) junk)) 0) as [i|]; [|done].
    owp_steps. exact (Hput i eq_refl).
  - owp_steps. assert (H0 := Hput 0%nat). simpl in H0. rewrite app_nil_r in H0.
    destruct (entry (-1) (client s) 0) as [i|].
    { owp_steps. exact (H0 i eq_refl). }
    unfold client_alloc. owp_steps. cbn [client upd_client].
    specialize (Hput NALLOC). pose proof (entry_alloc junk (client s)) as Hfull.
    destruct (entry (-1) (client s ++ replicate NALLOC (mkClient (-1) junk)) 0) as [i|]; [|done].
    owp_steps. exact (Hput i eq_refl).
Qed.

Lemma owp_client_del f u i m Q s :
  rep (client s) m -> client s !! i = Some (mkClient f u) -> 0 <= f ->
  (rep (alter (fun c => mkClient (-1) (uid c)) i (client s)) (delete f m) ->
    Q tt (upd_client (alter (fun c => mkClient (-1) (uid c)) i (client s)) s)) ->
  owp (client_del f) Q s.
Proof.
  intros Hrep Hi Hf HQ. unfold client_del. owp_steps.
  pose proof (entry_spec f (client s) 0) as Hs. destruct (entry f (client s) 0) as [j|].
  - rewrite Nat.sub_0_r in Hs. destruct Hs as (_ & (c & Hc & Ec) & _).
    assert (j = i) as ->.
    { eapply (rep_inj _ _ Hrep); [exact Hc|exact Hi|exact Ec|]. simpl. lia. }
    owp_steps. apply HQ. by eapply rep_del.
  - exfalso. by eapply (Hs i).
Qed.

(** ** The requests *)

(** What the clients see as their connections coming, asking and going. *)
Definition quiet (e : oev) : Prop :=
  match e with ENew _ _ | ERequest _ _ _ | EClosed _ _ => False | _ => True end.

(** Everything but errmsg, the arguments and the events is as before. *)
Definition same_tables (s s' : ost) : Prop :=
  client s' = client s /\ maxi s' = maxi s /\ listenfd s' = listenfd s /\
  allset s' = allset s /\ maxfd s' = maxfd s /\ pfds s' = pfds s /\ gone s' = gone s.

Definition answered (e : list oev) (s s' : ost) : Prop :=
  same_tables s s' /\ exists es, Forall quiet es /\ evs s' = es ++ e ++ evs s.

Lemma answered_refl s : answered [] s s.
Proof. split; [done|]. by exists []. Qed.

Lemma answered_step e s0 s s' :
  answered e s0 s -> same_tables s s' -> (exists es, Forall quiet es /\ evs s' = es ++ evs s) ->
  answered e s0 s'.
Proof.
  intros [(?&?&?&?&?&?&?) (es & He & E)] (?&?&?&?&?&?&?) (es' & He' & E').
  split; [unfold same_tables; intuition congruence|]. exists (es' ++ es).
  split; [by apply Forall_app|]. rewrite E', E. by rewrite app_assoc.
Qed.

(** A computation that only sends, logs and sets messages. *)
Definition tame {A} (m : SM A) : Prop :=
  forall s, owp m (fun _ s' => same_tables s s' /\ exists es, Forall quiet es /\ evs s' = es ++ evs s) s.

Lemma tame_ret {A} (a : A) : tame (mret a).
Proof. intros s. split; [done|]. by exists []. Qed.
Lemma tame_bind {A B} (m : SM A) (k : A -> SM B) : tame m -> (forall a, tame (k a)) -> tame (m ≫= k).
Proof.
  intros Hm Hk s. apply owp_bind. eapply owp_mono; [apply Hm|].
  intros a s1 [(?&?&?&?&?&?&?) (es & He & E)]. eapply owp_mono; [apply Hk|].
  intros b s2 [(?&?&?&?&?&?&?) (es' & He' & E')].
  split; [unfold same_tables; intuition congruence|]. exists (es' ++ es).
  split; [by apply Forall_app|]. rewrite E', E. by rewrite app_assoc.
Qed.
Lemma tame_get : tame get.
Proof. intros s. split; [done|]. by exists []. Qed.
Lemma tame_emit e : quiet e -> tame (emit e).
Proof. intros H s. split; [done|]. exists [e]. by split; [constructor|]. Qed.
Lemma tame_errmsg m : tame (modify (upd_errmsg m)).
Proof. intros s. split; [done|]. by exists []. Qed.
Lemma tame_args p o : tame (modify (upd_args p o)).
Proof. intros s. split; [done|]. by exists []. Qed.
Lemma tame_fault {A} w : msg_fault w -> tame (undef (A := A) w).
Proof. by intros H s. Qed.
Lemma tame_transmit f cs : tame (transmit f cs).
Proof.
  intros s. unfold owp, transmit. case_bool_decide; [done|]. split; [done|].
  exists [ESent f cs]. by split; [constructor|].
Qed.

Create HintDb tame.
#[export] Hint Resolve tame_ret tame_get tame_errmsg tame_args tame_transmit : tame.
#[export] Hint Extern 1 (tame (emit _)) => apply tame_emit; exact I : tame.

Lemma tame_set_errmsg m : tame (set_errmsg m).
Proof. unfold set_errmsg. case_if; [auto with tame|]. apply tame_fault. by left. Qed.
Lemma tame_log_msg m : tame (log_msg m).
Proof.
  unfold log_msg. apply tame_bind; [auto with tame|]. intros s.
  case_if; [apply tame_fault; unfold msg_fault; tauto|]. case_if; [auto with tame|].
  destruct (fmt_expand _); [auto with tame|]. apply tame_fault. unfold msg_fault. tauto.
Qed.
#[export] Hint Resolve tame_log_msg : tame.
Lemma tame_log_errmsg : tame log_errmsg.
Proof.
  unfold log_errmsg. apply tame_bind; [auto with tame|]. intros s.
  destruct (fmt_expand _); [auto with tame|]. apply tame_fault. by right; left.
Qed.
Lemma tame_send_fd f x : tame (send_fd f x).
Proof. unfold send_fd. apply tame_bind; auto with tame. Qed.
Lemma tame_send_err f e m : tame (send_err f e m).
Proof.
  unfold send_err. apply tame_bind; [case_if; auto with tame|]. intros _.
  apply tame_bind; [apply tame_send_fd|auto with tame].
Qed.
#[export] Hint Resolve tame_set_errmsg tame_log_errmsg tame_send_fd tame_send_err : tame.

Lemma tame_cli_args argv : tame (cli_args argv).
Proof.
  unfold cli_args. destruct argv as [|a0 [|a1 [|a2 [|]]]]; try case_bool_decide;
    apply tame_bind; auto with tame.
Qed.
#[export] Hint Resolve tame_cli_args : tame.

Lemma tame_buf_args b k : (forall argv, tame (k argv)) -> tame (buf_args b k).
Proof. intros H. unfold buf_args. destruct (tokens _ _ _); [auto with tame|]. case_if; auto with tame. Qed.

(** A request is answered and leaves the tables as they are. *)
Lemma owp_request sys_open buf f u s :
  owp (request sys_open buf f u) (fun _ s' => answered [ERequest f u buf] s s') s.
Proof.
  unfold request. apply owp_bind, owp_emit.
  match goal with |- owp ?m _ ?s1 => assert (H : tame m) end.
  { repeat first [ solve [auto with tame] | case_if | apply tame_buf_args
                 | apply tame_bind; [|intros ?] | case_match ]. }
  eapply owp_mono; [apply H|]. intros [] s' [(?&?&?&?&?&?&?) (es & He & E)].
  split; [by split_and!|]. exists es. by split.
Qed.
