(* ===== verification/OpendLoop.v ===== *)
(** * OpendLoop: the two server loops against a map of connected clients. *)
From S2P Require Import Prelude Libc Calld Opend OpendOps.
Local Open Scope Z_scope.

(** ** The abstract server *)

(** The clients that are connected, by descriptor.  Connections come with a new
    descriptor, and a client that asks or goes is one that is connected, with the
    user it connected as. *)
Definition astep (m : gmap Z Z) (e : oev) : option (gmap Z Z) :=
  match e with
  | ENew f u => if bool_decide (m !! f = None) then Some (<[f := u]> m) else None
  | ERequest f u _ => if bool_decide (m !! f = Some u) then Some m else None
  | EClosed f u => if bool_decide (m !! f = Some u) then Some (delete f m) else None
  | _ => Some m
  end.

(** The map after the events [es], the latest first. *)
Fixpoint history (m0 : gmap Z Z) (es : list oev) : option (gmap Z Z) :=
  match es with [] => Some m0 | e :: es' => m ← history m0 es'; astep m e end.

Lemma history_quiet m0 es es' m :
  Forall quiet es -> history m0 es' = Some m -> history m0 (es ++ es') = Some m.
Proof.
  intros Hq H. induction Hq as [|e es He _ IH]; [done|]. cbn [app history]. rewrite IH. simpl.
  by destruct e.
Qed.

(** What the client with descriptor [f] and user [u] causes by sending [b]. *)
Definition act (f u : Z) (b : bytes) : oev :=
  match b with [] => EClosed f u | _ => ERequest f u b end.

(** ** One client's turn *)

Section Pass.
Context (sys_open : bytes -> Z -> Z + bytes) (m0 : gmap Z Z).
Context (Inv : ost -> gmap Z Z -> Prop).
Context (Inv_rep : forall s m, Inv s m -> rep (client s) m).
Context (Inv_same : forall s s' m, Inv s m -> same_tables s s' -> Inv s' m).

(** The loop's invariant: that of the tables, and the events so far. *)
Definition at_map (s : ost) (m : gmap Z Z) : Prop := Inv s m /\ history m0 (evs s) = Some m.

(** From [s] to [s'] only entry [i] has changed, and the events are those of
    one client. *)
Definition moved (i : nat) (s s' : ost) : Prop :=
  (forall j, j <> i -> client s' !! j = client s !! j) /\
  length (client s') = length (client s) /\ maxi s' = maxi s /\
  (forall j, j <> i -> pfds s' !! j = pfds s !! j) /\ listenfd s' = listenfd s.

Definition did (e : oev) (s s' : ost) : Prop :=
  exists new, evs s' = new ++ evs s /\ e ∈ new /\ Forall (fun x => quiet x \/ x = e) new.

(** The entry point of the proof that [forget] is right: the entry is free and
    the events are recorded; [forget] re-establishes the invariant. *)
Definition forgets (i : nat) (f : Z) (forget : SM unit) (s : ost) (m : gmap Z Z) : Prop :=
  forall s1, client s1 = alter (fun c => mkClient (-1) (uid c)) i (client s) ->
    rep (client s1) (delete f m) ->
    maxi s1 = maxi s -> listenfd s1 = listenfd s -> allset s1 = allset s -> maxfd s1 = maxfd s ->
    pfds s1 = pfds s ->
    owp forget (fun _ s2 => Inv s2 (delete f m) /\ client s2 = client s1 /\ maxi s2 = maxi s1 /\
      listenfd s2 = listenfd s1 /\ (forall j, j <> i -> pfds s2 !! j = pfds s1 !! j) /\
      evs s2 = evs s1) s1.

Lemma owp_closed i f u forget s m :
  at_map s m -> client s !! i = Some (mkClient f u) -> 0 <= f -> forgets i f forget s m ->
  owp (closed i f forget)
    (fun _ s' => at_map s' (delete f m) /\ moved i s s' /\ did (EClosed f u) s s') s.
Proof.
  intros [Hinv Hh] Hi Hf Hforget. unfold closed. owp_steps. rewrite Hi. cbn [fmap option_fmap option_map default uid].
  eapply (owp_client_del f u i m); [exact (Inv_rep _ _ Hinv)|done|done|]. intros Hr.
  apply owp_bind. eapply owp_mono; [apply Hforget; first [exact Hr|reflexivity]|].
  intros [] s2 (Hi2 & Hc & Hm & Hl & Hp & He). cbn in Hc, Hm, Hl, Hp, He. owp_steps.
  assert (Hmf : m !! f = Some u).
  { destruct (rep_in _ _ (Inv_rep _ _ Hinv) i _ Hi) as [E|[_ E]]; [simpl in E; lia|done]. }
  split; [split|].
  - eapply Inv_same; [exact Hi2|done].
  - cbn. rewrite He. cbn. rewrite Hh. simpl. by rewrite bool_decide_true.
  - split.
    + unfold moved. cbn. rewrite Hc. split_and!; try done.
      * intros j Hj. by rewrite list_lookup_alter_ne.
      * apply length_alter.
    + exists [EShut f; EClosed f u]. cbn. rewrite He. split; [done|].
      split; [right; left|]. constructor; [by left|]. constructor; [by right|done].
Qed.

Lemma owp_ready i f u d forget s m :
  at_map s m -> client s !! i = Some (mkClient f u) -> 0 <= f -> forgets i f forget s m ->
  owp (ready sys_open i f d forget)
    (fun _ s' => exists b m', d = RGot b /\ at_map s' m' /\ moved i s s' /\ did (act f u b) s s') s.
Proof.
  intros Hat Hi Hf Hforget. unfold ready. destruct d as [|[|c b]]; [by owp_steps| |].
  - eapply owp_mono; [by eapply owp_closed|]. intros [] s' (?&?&?). by exists [], (delete f m).
  - owp_steps. rewrite Hi. eapply owp_mono; [apply owp_request|].
    intros [] s' [Hs (es & Hq & E)]. exists (c :: b), m. split; [done|].
    destruct Hat as [Hinv Hh].
    assert (Hmf : m !! f = Some u).
    { destruct (rep_in _ _ (Inv_rep _ _ Hinv) i _ Hi) as [E'|[_ E']]; [simpl in E'; lia|done]. }
    split; [split; [by eapply Inv_same|]|split].
    + rewrite E. apply history_quiet; [done|]. cbn [app history]. rewrite Hh. simpl.
      by rewrite bool_decide_true.
    + destruct Hs as (Hc & Hm & Hl & _ & _ & Hp & _). unfold moved. rewrite Hc, Hp. by split_and!.
    + exists (es ++ [ERequest f u (c :: b)]). rewrite E, <- app_assoc. split; [done|].
      split; [apply elem_of_app; right; left|]. apply Forall_app. split.
      * eapply Forall_impl; [exact Hq|]. by left.
      * constructor; [by right|done].
Qed.

End Pass.

(** ** The passes *)

(** What a pass over several clients did: [want f] is what the client with
    descriptor [f] sends, if it is its turn. *)
Definition served (want : Z -> option bytes) (done : nat -> Prop) (s s' : ost) : Prop :=
  exists new, evs s' = new ++ evs s /\
    (forall i f u b, done i -> client s !! i = Some (mkClient f u) -> 0 <= f -> want f = Some b ->
      act f u b ∈ new) /\
    Forall (fun e => quiet e \/ exists f u b, want f = Some b /\ e = act f u b) new.

Lemma served_nil want (done : nat -> Prop) s : (forall i, ~ done i) -> served want done s s.
Proof. intros H. exists []. split_and!; [done| |done]. intros i f u b Hd. by destruct (H i). Qed.

(** One client, then the clients after it. *)
Lemma served_cons want i f u b (done : nat -> Prop) s s1 s2 :
  did (act f u b) s s1 -> moved i s s1 -> want f = Some b ->
  client s !! i = Some (mkClient f u) ->
  (forall j, done j -> j <> i) ->
  served want done s1 s2 -> served want (fun j => j = i \/ done j) s s2.
Proof.
  intros (n1 & E1 & H1 & F1) (Hc & _) Hw Hi Hd (n2 & E2 & H2 & F2).
  exists (n2 ++ n1). rewrite E2, E1, app_assoc. split; [done|]. split.
  - intros j g v b' [->|Hj] Hg Hg0 Hwg; apply elem_of_app.
    + rewrite Hi in Hg. simplify_eq. by right.
    + left. eapply H2; [exact Hj| |done|done]. rewrite Hc; [done|]. by apply Hd.
  - apply Forall_app. split; [done|]. eapply Forall_impl; [exact F1|].
    intros e [?|Ee]; [by left|]. subst e. right. eauto.
Qed.

(** An entry that is not served now. *)
Lemma served_skip want i (done : nat -> Prop) s s2 :
  (forall f u, client s !! i = Some (mkClient f u) -> 0 <= f -> want f = None) ->
  served want done s s2 -> served want (fun j => j = i \/ done j) s s2.
Proof.
  intros Hn (n & E & H & F). exists n. split_and!; [done| |done].
  intros j f u b [->|Hj] Hg Hg0 Hw; [|by eapply H]. by rewrite (Hn f u) in Hw.
Qed.

Lemma served_weaken want (done done' : nat -> Prop) s s2 :
  (forall j, done' j -> done j) -> served want done s s2 -> served want done' s s2.
Proof.
  intros Hd (n & E & H & F). exists n. split_and!; [done| |done].
  intros j f u b Hj. by apply H, Hd.
Qed.

(** ** loop.select.c *)

Record sel_inv (s : ost) (m : gmap Z Z) : Prop := {
  sel_rep : rep (client s) m;
  sel_max : forall i c, client s !! i = Some c -> fd c <> -1 -> Z.of_nat i <= maxi s;
  sel_len : -1 <= maxi s < Z.of_nat (length (client s)) \/ maxi s = -1;
  sel_set : forall f, f ∈ allset s <-> f = listenfd s \/ is_Some (m !! f);
  sel_maxfd : forall f, f ∈ allset s -> f <= maxfd s;
  sel_listen : m !! listenfd s = None;
  sel_fds : forall f, f ∈ allset s -> f < FD_SETSIZE;
}.

Lemma sel_inv_same s s' m : sel_inv s m -> same_tables s s' -> sel_inv s' m.
Proof.
  intros [H1 H2 H3 H4 H5 H6 H7] (Ec & Em & El & Ea & Ef & _ & _).
  split; rewrite ?Ec, ?Em, ?El, ?Ea, ?Ef; done.
Qed.

(** Every client's descriptor is one that the set has room for. *)
Lemma sel_fd_bound s m i f u :
  sel_inv s m -> client s !! i = Some (mkClient f u) -> 0 <= f -> f < FD_SETSIZE.
Proof.
  intros H Hi Hf. apply (sel_fds _ _ H), (sel_set _ _ H). right.
  destruct (rep_in _ _ (sel_rep _ _ H) i _ Hi) as [E|[_ E]]; [simpl in E; lia|]. by eexists.
Qed.

Lemma sel_forgets i f u s m :
  sel_inv s m -> client s !! i = Some (mkClient f u) -> 0 <= f ->
  forgets sel_inv i f
    (modify (fun s => upd_allset (filter (fun x => x <> f) (allset s)) (maxfd s) s)) s m.
Proof.
  intros [H1 H2 H3 H4 H5 H6 H7] Hi Hf s1 Ec Hr Em El Ea Emf Ep. apply owp_modify.
  split; [|by split_and!].
  assert (Hmf : m !! f = Some u).
  { destruct (rep_in _ _ H1 i _ Hi) as [E|[_ E]]; [simpl in E; lia|done]. }
  split; cbn; [done|..].
  - rewrite Em. intros j c Hj Hc. rewrite Ec in Hj. destruct (decide (j = i)) as [->|Hne].
    + rewrite list_lookup_alter_eq, Hi in Hj. by simplify_eq/=.
    + rewrite list_lookup_alter_ne in Hj by done. by eapply H2.
  - by rewrite Em, Ec, length_alter.
  - intros g. rewrite list_elem_of_filter, Ea, El, H4. split.
    + intros [Hne [->|Hg]]; [by left|]. right. rewrite lookup_delete_ne by congruence. done.
    + intros [->|[v Hv]]; [|apply lookup_delete_Some in Hv as [Hne Hv]; split; [congruence|right; eauto]].
      split; [|by left]. intros <-. congruence.
  - intros g Hg. rewrite list_elem_of_filter, Ea in Hg. rewrite Emf. apply H5, Hg.
  - rewrite El. rewrite lookup_delete_ne; [done|]. intros E. congruence.
  - intros g Hg. rewrite list_elem_of_filter, Ea in Hg. apply H7, Hg.
Qed.

Section Select.
Context (sys_open : bytes -> Z -> Z + bytes) (junk : Z).

(** What a ready descriptor delivers. *)
Definition arrives (data : list (Z * oread)) (f : Z) : option bytes :=
  match isset f data with Some (RGot b) => Some b | _ => None end.

Lemma select_pass_spec n i data s m :
  at_map ∅ sel_inv s m -> (i + n <= length (client s))%nat ->
  owp (select_pass sys_open n i data) (fun _ s' =>
    (exists m', at_map ∅ sel_inv s' m') /\
    served (arrives data) (fun j => (i <= j < i + n)%nat) s s') s.
Proof.
  revert i s m. induction n as [|n IH]; intros i s m Hat Hlen; cbn [select_pass].
  { apply owp_ret. split; [by exists m|]. apply served_nil. lia. }
  owp_steps. destruct (lookup_lt_is_Some_2 (client s) i) as [[f u] Hi]; [lia|]. rewrite Hi.
  cbn [fd]. apply owp_bind.
  assert (Hskip : (forall g v, client s !! i = Some (mkClient g v) -> 0 <= g -> arrives data g = None) ->
    owp (mret tt) (fun _ s1 => owp (select_pass sys_open n (S i) data) (fun _ s' =>
      (exists m', at_map ∅ sel_inv s' m') /\
      served (arrives data) (fun j => (i <= j < i + S n)%nat) s s') s1) s).
  { intros Hn. apply owp_ret. eapply owp_mono; [eapply (IH (S i)); [exact Hat|lia]|].
    intros [] s' [Hm Hs]. split; [done|].
    eapply served_weaken; [|by apply (served_skip _ i)]. intros j Hj. simpl. lia. }
  destruct (Z.ltb_spec f 0) as [Hneg|Hpos].
  { apply Hskip. intros g v Hg. simplify_eq. lia. }
  rewrite (proj2 (Z.leb_gt _ _)) by (by eapply sel_fd_bound; [apply Hat|exact Hi|]).
  destruct (isset f data) as [d|] eqn:Ed.
  - eapply owp_mono; [eapply (owp_ready sys_open ∅ sel_inv)|].
    + by intros ?? [].
    + apply sel_inv_same.
    + exact Hat.
    + exact Hi.
    + done.
    + eapply sel_forgets; [apply Hat|exact Hi|done].
    + intros [] s1 (b & m1 & -> & Hat1 & Hmv & Hdid).
      eapply owp_mono; [eapply (IH (S i)); [exact Hat1|]|].
      { destruct Hmv as (_ & Hl & _). lia. }
      intros [] s' [Hm Hs]. split; [done|].
      eapply served_weaken; [|eapply (served_cons _ i f u b)]; [|done|done| |done| |exact Hs].
      * intros j Hj. simpl. lia.
      * unfold arrives. by rewrite Ed.
      * simpl. lia.
  - apply Hskip. intros g v Hg _. simplify_eq. unfold arrives. by rewrite Ed.
Qed.

(** A connection whose descriptor is too large for the set. *)
Definition set_full (ev : osel) : bool :=
  match ev with SConn f _ => FD_SETSIZE <=? f | _ => false end.

(** A descriptor that serv_accept returns is not one that is open. *)
Definition select_ok (s : ost) (ev : osel) : Prop :=
  match ev with SConn f _ => f ∉ allset s | _ => True end.

Lemma select_turn_spec ev s m :
  at_map ∅ sel_inv s m -> select_ok s ev -> set_full ev = false ->
  owp (select_turn sys_open junk ev) (fun _ s' => (exists m', at_map ∅ sel_inv s' m') /\
    match ev with
    | SError => False
    | SConn f u => evs s' = ENew f u :: evs s
    | SReady data => served (arrives data) (fun j => True) s s'
    end) s.
Proof.
  intros [Hinv Hh] Hok Hfull. destruct ev as [|f u|data]; cbn [select_turn].
  - by owp_steps.
  - case_if; [by owp_steps|]. destruct Hinv as [H1 H2 H3 H4 H5 H6 H7].
    cbn [set_full] in Hfull. assert (Hf : f < FD_SETSIZE) by lia. rewrite Hfull.
    assert (Hm : m !! f = None).
    { apply eq_None_not_Some. intros Hs. apply Hok, H4. by right. }
    apply owp_bind. eapply owp_client_add; [exact H1|lia|exact Hm|].
    intros i l' Hr Hi _ Hold _ Hlen. owp_steps. split; [|done].
    exists (<[f := u]> m). split; [|cbn; rewrite Hh; simpl; by rewrite bool_decide_true].
    assert (Hil := lookup_lt_Some _ _ _ Hi).
    split; cbn; [done|..].
    + intros j c Hj Hc. destruct (Hold j c Hj Hc) as [->|Hj']; [lia|]. specialize (H2 j c Hj' Hc). lia.
    + left. lia.
    + intros g. rewrite elem_of_cons, H4, lookup_insert_is_Some. split.
      * intros [->|[->|Hg]]; [by right; left|by left|]. destruct (decide (f = g)); auto.
      * intros [->|[->|[_ Hg]]]; auto.
    + intros g Hg. apply elem_of_cons in Hg as [->|Hg]; [lia|]. specialize (H5 g Hg). lia.
    + rewrite lookup_insert_ne; [done|]. intros ->. apply Hok, H4. by left.
    + intros g [->|Hg]%elem_of_cons; [done|by apply H7].
  - owp_steps. eapply owp_mono; [eapply (select_pass_spec _ 0); [split; [exact Hinv|exact Hh]|]|].
    { destruct (sel_len _ _ Hinv); lia. }
    intros [] s' [Hm Hs]. split; [done|]. destruct Hs as (new & E & Hd & F). exists new.
    split_and!; [done| |done]. intros j f u b _ Hj Hf. apply (Hd j); [|done|done].
    assert (Hmax := sel_max _ _ Hinv j _ Hj ltac:(simpl; lia)). lia.
Qed.

(** The states in which [loop] calls select. *)
Inductive select_reach (s0 : ost) : ost -> Prop :=
| select_here : select_reach s0 s0
| select_next s ev s' :
    select_reach s0 s -> select_ok s ev -> select_turn sys_open junk ev s = ORet tt s' ->
    select_reach s0 s'.

(** A descriptor too large for the set is written past its end. *)
Lemma select_turn_full ev s :
  set_full ev = true ->
  select_turn sys_open junk ev s = OUndef "FD_SET past the end of allset".
Proof.
  intros Hfull. destruct ev as [|f u|data]; [done| |done]. cbn [set_full select_turn] in *.
  assert (Hf : FD_SETSIZE <= f) by lia. rewrite (proj2 (Z.ltb_ge f 0)) by (unfold FD_SETSIZE in *; lia).
  destruct (client_add_returns junk f u s) as (i & s1 & E).
  unfold mbind, SM_bind. rewrite E, Hfull. done.
Qed.

Lemma select_reach_inv tty lfd g s :
  lfd < FD_SETSIZE ->
  select_reach (select_init tty lfd g) s -> exists m, at_map ∅ sel_inv s m.
Proof.
  intros Hlfd. induction 1 as [|s ev s' _ [m IH] Hok E].
  - exists ∅. split; [|done]. split; cbn; [apply rep_empty|by intros i c; rewrite lookup_nil|by right| | |apply lookup_empty|].
    + intros f. rewrite list_elem_of_singleton, lookup_empty. split; [by left|]. by intros [E|[x E]].
    + intros f ->%list_elem_of_singleton. lia.
    + by intros f ->%list_elem_of_singleton.
  - destruct (set_full ev) eqn:Hfull; [by rewrite (select_turn_full ev s Hfull) in E|].
    pose proof (select_turn_spec ev s m IH Hok Hfull) as H. unfold owp in H. rewrite E in H. apply H.
Qed.

End Select.

(** ** loop.poll.c *)

Record poll_inv (N : nat) (s : ost) (m : gmap Z Z) : Prop := {
  poll_rep : rep (client s) m;
  poll_max : forall i c, client s !! i = Some c -> fd c <> -1 -> Z.of_nat i <= maxi s;
  poll_len : 0 <= maxi s < Z.of_nat (length (client s));
  poll_size : length (pfds s) = N /\ maxi s < Z.of_nat N;
  poll_bound : forall f u, m !! f = Some u -> f < Z.of_nat N;
  poll_listen : client s !! 0%nat = Some (mkClient (listenfd s) 0) /\ 0 <= listenfd s;
  poll_fds : forall i c p, client s !! i = Some c -> pfds s !! i = Some p -> Z.of_nat i <= maxi s ->
    p_fd p = fd c;
}.

Lemma poll_inv_same N s s' m : poll_inv N s m -> same_tables s s' -> poll_inv N s' m.
Proof.
  intros [H1 H2 H3 H4 H5 H6 H7] (Ec & Em & El & Ea & Ef & Ep & _).
  split; rewrite ?Ec, ?Em, ?El, ?Ep; done.
Qed.

Lemma owp_set_pfd i p Q s :
  (i < length (pfds s))%nat -> Q tt (upd_pfds (<[i := p]> (pfds s)) s) -> owp (set_pfd i p) Q s.
Proof. intros Hi HQ. unfold set_pfd. owp_steps. by rewrite (proj2 (Nat.ltb_lt _ _)) by done. Qed.

Lemma poll_forgets N i f u r s m :
  poll_inv N s m -> client s !! i = Some (mkClient f u) -> 0 <= f -> (0 < i)%nat ->
  forgets (poll_inv N) i f (set_pfd i (mkPollfd (-1) r)) s m.
Proof.
  intros [H1 H2 H3 [H4 H4'] H5 [H6 H6'] H7] Hi Hf Hpos s1 Ec Hr Em El Ea Emf Ep.
  assert (Him := H2 i _ Hi ltac:(simpl; lia)).
  apply owp_set_pfd; [rewrite Ep; lia|]. split; [|split_and!; try done].
  2:{ cbn. intros j Hj. by rewrite list_lookup_insert_ne. }
  assert (Halt : forall j c, alter (fun c => mkClient (-1) (uid c)) i (client s) !! j = Some c ->
    fd c = -1 /\ j = i \/ j <> i /\ client s !! j = Some c).
  { intros j c Hj. destruct (decide (j = i)) as [->|Hne].
    - rewrite list_lookup_alter_eq, Hi in Hj. simplify_eq/=. by left.
    - rewrite list_lookup_alter_ne in Hj by done. by right. }
  split; cbn; [done|..].
  - rewrite Em. intros j c Hj Hc. rewrite Ec in Hj. apply Halt in Hj as [[? _]|[_ Hj]]; [done|]. by eapply H2.
  - by rewrite Em, Ec, length_alter.
  - by rewrite length_insert, Ep, Em.
  - intros g v [_ Hg]%lookup_delete_Some. by eapply H5.
  - rewrite Ec, El, list_lookup_alter_ne by lia. done.
  - rewrite Em, Ec, Ep. intros j c p Hj Hp Hjm. apply Halt in Hj as [[Hc ->]|[Hne Hj]].
    + rewrite list_lookup_insert_eq in Hp by lia. by simplify_eq/=.
    + rewrite list_lookup_insert_ne in Hp by done. by eapply H7.
Qed.

Lemma poll_fill_lookup rev n l i p :
  poll_fill rev n l !! i = Some p ->
  exists q, l !! i = Some q /\ p_fd p = p_fd q /\
    ((i < n)%nat -> p_revents p = if p_fd q <? 0 then 0 else rev (p_fd q)).
Proof.
  unfold poll_fill. intros H. destruct (decide (i < n)%nat) as [Hi|Hi].
  - apply lookup_app_Some in H as [H|[Hl H]].
    + rewrite list_lookup_fmap in H. destruct (take n l !! i) as [q|] eqn:E; simplify_eq/=.
      apply lookup_take_Some in E as [E _]. by exists q.
    + rewrite length_map, length_take in *. rewrite lookup_drop in H.
      apply lookup_lt_Some in H. lia.
  - exists p. split; [|split; [done|lia]]. apply lookup_app_Some in H as [H|[Hl H]].
    + apply lookup_lt_Some in H. rewrite length_map, length_take in H. lia.
    + rewrite length_map, length_take, lookup_drop in *.
      destruct (decide (n <= length l)%nat); [by replace (n + (i - n `min` length l))%nat with i in H by lia|].
      apply lookup_lt_Some in H. lia.
Qed.

Lemma length_poll_fill rev n l : length (poll_fill rev n l) = length l.
Proof. unfold poll_fill. rewrite length_app, length_map, <- length_app. by rewrite take_drop. Qed.

(** The events an entry can have are those of its descriptor. *)
Definition hup (r : Z) : bool := negb (Z.land r POLLHUP =? 0).
Definition pin (r : Z) : bool := negb (Z.land r POLLIN =? 0).

(** What the client with descriptor [f] and events [r] sends. *)
Definition poll_want (data : Z -> oread) (f r : Z) : option bytes :=
  if hup r then Some []
  else if pin r then match data f with RGot b => Some b | RFail => None end else None.

Section Poll.
Context (sys_open : bytes -> Z -> Z + bytes) (junk : Z) (N : nat) (m0 : gmap Z Z).

Lemma poll_pass_spec n i data (want : Z -> option bytes) s m :
  at_map m0 (poll_inv N) s m -> (0 < i)%nat -> (i + n <= length (client s))%nat -> (i + n <= N)%nat ->
  (forall j f u p, (i <= j)%nat -> client s !! j = Some (mkClient f u) -> 0 <= f -> pfds s !! j = Some p ->
    want f = poll_want data f (p_revents p)) ->
  owp (poll_pass sys_open n i data) (fun _ s' =>
    (exists m', at_map m0 (poll_inv N) s' m') /\
    served want (fun j => (i <= j < i + n)%nat) s s') s.
Proof.
  revert i s m. induction n as [|n IH]; intros i s m Hat Hpos Hlen HN Hw; cbn [poll_pass].
  { apply owp_ret. split; [by exists m|]. apply served_nil. lia. }
  owp_steps. destruct (lookup_lt_is_Some_2 (client s) i) as [[f u] Hi]; [lia|].
  destruct (lookup_lt_is_Some_2 (pfds s) i) as [p Hp]; [destruct (poll_size _ _ _ (proj1 Hat)); lia|].
  rewrite Hi, Hp. cbn [fd]. apply owp_bind.
  assert (Hskip : (forall g v, client s !! i = Some (mkClient g v) -> 0 <= g -> want g = None) ->
    owp (mret tt) (fun _ s1 => owp (poll_pass sys_open n (S i) data) (fun _ s' =>
      (exists m', at_map m0 (poll_inv N) s' m') /\
      served want (fun j => (i <= j < i + S n)%nat) s s') s1) s).
  { intros Hn. apply owp_ret. eapply owp_mono; [eapply (IH (S i)); [exact Hat|lia..|]|].
    { intros j g v q Hj. apply Hw. lia. }
    intros [] s' [Hm Hs]. split; [done|].
    eapply served_weaken; [|by apply (served_skip _ i)]. intros j Hj. simpl. lia. }
  assert (Hnext : forall b s1 m1, want f = Some b ->
    at_map m0 (poll_inv N) s1 m1 -> moved i s s1 -> did (act f u b) s s1 ->
    owp (poll_pass sys_open n (S i) data) (fun _ s' =>
      (exists m', at_map m0 (poll_inv N) s' m') /\
      served want (fun j => (i <= j < i + S n)%nat) s s') s1).
  { intros b s1 m1 Hwf Hat1 Hmv Hdid. assert (Hmv' := Hmv). destruct Hmv' as (Hc & Hl & Hm & Hpf & _).
    eapply owp_mono; [eapply (IH (S i)); [exact Hat1|lia..|]|].
    { intros j g v q Hj Hg Hg0 Hq. rewrite Hc in Hg by lia. rewrite Hpf in Hq by lia.
      eapply (Hw j); [lia|done..]. }
    intros [] s' [Hm' Hs]. split; [done|].
    eapply served_weaken; [|eapply (served_cons _ i f u b)]; [|done|done|done|done| |exact Hs].
    - intros j Hj. simpl. lia.
    - simpl. lia. }
  destruct (Z.ltb_spec f 0) as [Hneg|Hpf].
  { apply Hskip. intros g v Hg. simplify_eq. lia. }
  assert (Hwf := Hw i f u p ltac:(lia) Hi Hpf Hp). unfold poll_want, hup, pin in Hwf.
  assert (Hforg := poll_forgets N i f u (p_revents p) s m (proj1 Hat) Hi Hpf Hpos).
  destruct (negb (Z.land (p_revents p) POLLHUP =? 0)).
  - eapply owp_mono; [eapply (owp_closed m0 (poll_inv N)); [by intros ?? []|apply poll_inv_same|exact Hat|exact Hi|done|exact Hforg]|].
    intros [] s1 (Hat1 & Hmv & Hdid). by apply (Hnext [] s1 (delete f m)).
  - destruct (negb (Z.land (p_revents p) POLLIN =? 0)).
    + eapply owp_mono; [eapply (owp_ready sys_open m0 (poll_inv N)); [by intros ?? []|apply poll_inv_same|exact Hat|exact Hi|done|exact Hforg]|].
      intros [] s1 (b & m1 & Hd & Hat1 & Hmv & Hdid). rewrite Hd in Hwf. by apply (Hnext b s1 m1).
    + apply Hskip. intros g v Hg _. by simplify_eq.
Qed.

(** serv_accept returns a descriptor within the limit that is not one of those in
    use. *)
Definition poll_ok (s : ost) (ev : opoll) : Prop :=
  match ev with
  | PEvents _ (f, _) _ => 0 <= f -> f < Z.of_nat N /\ forall c, c ∈ client s -> fd c <> f
  | _ => True
  end.

(** The descriptors of the first [i] entries are different numbers below [N], and
    so is the new one. *)
Lemma entries_bound l m f i :
  rep l m -> (forall g u, m !! g = Some u -> g < Z.of_nat N) -> m !! f = None -> 0 <= f < Z.of_nat N ->
  (forall j, (j < i)%nat -> exists c, l !! j = Some c /\ fd c <> -1) -> (i < N)%nat.
Proof.
  intros Hr Hb Hm Hf Hused. assert (Hlen : (i <= length l)%nat).
  { destruct i as [|i]; [lia|]. destruct (Hused i ltac:(lia)) as (c & Hc & _).
    apply lookup_lt_Some in Hc. lia. }
  assert (Hin : forall j c, take i l !! j = Some c -> l !! j = Some c /\ 0 <= fd c /\ m !! fd c = Some (uid c)).
  { intros j c [Hc Hj]%lookup_take_Some. split; [done|].
    destruct (Hused j Hj) as (d & Hd & Hn). simplify_eq.
    by destruct (rep_in _ _ Hr j c Hc) as [?|?]. }
  assert (Hnd : NoDup (f :: (fd <$> take i l))).
  { apply NoDup_cons. split.
    - intros (c & -> & [j Hj]%list_elem_of_lookup)%list_elem_of_fmap. apply Hin in Hj as (_ & _ & ?). congruence.
    - apply NoDup_alt. intros j k x Hj Hk. rewrite list_lookup_fmap in Hj, Hk.
      destruct (take i l !! j) as [c|] eqn:Ej; simplify_eq/=.
      destruct (take i l !! k) as [d|] eqn:Ek; simplify_eq/=.
      apply Hin in Ej as (Ej & Hc & _). apply Hin in Ek as (Ek & _).
      eapply (rep_inj _ _ Hr); [exact Ej|exact Ek|congruence|lia]. }
  assert (Hsub : forall x, x ∈ f :: (fd <$> take i l) -> x ∈ seqZ 0 (Z.of_nat N)).
  { intros x [->|(c & -> & [j Hj]%list_elem_of_lookup)%list_elem_of_fmap]%elem_of_cons; apply elem_of_seqZ; [lia|].
    apply Hin in Hj as (_ & ? & Hx%Hb). lia. }
  pose proof (NoDup_submseteq _ _ Hnd Hsub) as Hs%submseteq_length.
  rewrite length_seqZ in Hs. simpl in Hs. rewrite length_fmap, length_take in Hs. lia.
Qed.

(** The requests and hang-ups of the clients that were connected before the turn
    are served; nobody else is, apart from a client accepted in the turn, whose
    entry has the events that were in the array. *)
Definition poll_served (revents : Z -> Z) (data : Z -> oread) (s s' : ost) : Prop :=
  exists new, evs s' = new ++ evs s /\
    forall i f u b, (0 < i)%nat -> client s !! i = Some (mkClient f u) -> 0 <= f ->
      poll_want data f (revents f) = Some b -> act f u b ∈ new.

(** The pass of a turn that began in [s], from a state in which the entries of [s]
    have the events that poll reported. *)
Lemma poll_pass_served s s1 m1 revents data :
  at_map m0 (poll_inv N) s1 m1 -> (exists new1, evs s1 = new1 ++ evs s) ->
  (forall i c, client s !! i = Some c -> 0 <= fd c -> client s1 !! i = Some c /\
    Z.of_nat i <= maxi s1 /\ exists p, pfds s1 !! i = Some p /\ p_revents p = revents (fd c)) ->
  owp (poll_pass sys_open (Z.to_nat (maxi s1)) 1 data) (fun _ s' =>
    (exists m', at_map m0 (poll_inv N) s' m') /\ poll_served revents data s s') s1.
Proof.
  intros Hat1 [new1 E1] Hold.
  destruct (poll_len _ _ _ (proj1 Hat1)) as [Hl1 Hl2].
  destruct (poll_size _ _ _ (proj1 Hat1)) as [Hz1 Hz2].
  set (want g := match list_find (fun c => fd c = g) (client s1) with
    | Some (j, _) => poll_want data g (default 0 (p_revents <$> pfds s1 !! j)) | None => None end).
  assert (Hwant : forall j g v p, client s1 !! j = Some (mkClient g v) -> 0 <= g -> pfds s1 !! j = Some p ->
    want g = poll_want data g (p_revents p)).
  { intros j g v p Hj Hg Hp. unfold want.
    destruct (list_find (fun c => fd c = g) (client s1)) as [[k c]|] eqn:E.
    - apply list_find_Some in E as (Hk & Ec & _).
      assert (k = j) as ->.
      { eapply (rep_inj _ _ (poll_rep _ _ _ (proj1 Hat1))); [exact Hk|exact Hj|exact Ec|lia]. }
      by rewrite Hp.
    - apply list_find_None in E. rewrite Forall_lookup in E. by specialize (E j _ Hj). }
  eapply owp_mono; [eapply (poll_pass_spec _ 1 data want s1 m1 Hat1); [lia|lia|lia|]|].
  { intros j g v p _. apply Hwant. }
  intros [] s' [Hm (new & E & Hd & F)]. split; [done|]. exists (new ++ new1).
  rewrite E, E1, app_assoc. split; [done|]. intros i g v b Hi Hg Hg0 Hw.
  apply elem_of_app. left. destruct (Hold i _ Hg Hg0) as (Hg1 & Him & p & Hp & Er).
  apply (Hd i); [lia|done|done|]. rewrite (Hwant i g v p) by done. by rewrite Er.
Qed.

(** After poll the array has the events of the descriptors. *)
Lemma poll_inv_fill revents s m :
  poll_inv N s m ->
  let s' := upd_pfds (poll_fill revents (Z.to_nat (maxi s + 1)) (pfds s)) s in
  poll_inv N s' m /\
  forall i c, client s !! i = Some c -> 0 <= fd c ->
    exists p, pfds s' !! i = Some p /\ p_fd p = fd c /\ p_revents p = revents (fd c).
Proof.
  intros [H1 H2 H3 [H4 H4'] H5 [H6 H6'] H7] s'. split.
  - split; cbn; try done.
    + by rewrite length_poll_fill.
    + intros i c p Hc Hp Hi. destruct (poll_fill_lookup _ _ _ _ _ Hp) as (q & Hq & -> & _). by eapply H7.
  - intros i c Hc Hf. assert (Him := H2 i c Hc ltac:(lia)).
    destruct (lookup_lt_is_Some_2 (pfds s') i) as [p Hp]; [cbn; rewrite length_poll_fill; lia|].
    exists p. split; [done|]. destruct (poll_fill_lookup _ _ _ _ _ Hp) as (q & Hq & -> & Er).
    assert (Eq := H7 i c q Hc Hq Him). split; [done|].
    rewrite Er by lia. by rewrite Eq, (proj2 (Z.ltb_ge _ _)) by lia.
Qed.

(** Accepting a client: its entry is within the array. *)
Lemma owp_poll_accept f u s m :
  at_map m0 (poll_inv N) s m -> 0 <= f < Z.of_nat N -> m !! f = None ->
  owp (i ← client_add junk f u;
       s ← get;
       set_pfd i (mkPollfd f (default 0 (p_revents <$> pfds s !! i)));;
       modify (fun s => upd_maxi (Z.max (Z.of_nat i) (maxi s)) s);;
       emit (ENew f u))
    (fun _ s1 => at_map m0 (poll_inv N) s1 (<[f := u]> m) /\ evs s1 = ENew f u :: evs s /\
      maxi s <= maxi s1 /\
      (forall j c, client s !! j = Some c -> fd c <> -1 -> client s1 !! j = Some c) /\
      (forall j, p_revents <$> pfds s1 !! j = p_revents <$> pfds s !! j)) s.
Proof.
  intros [[H1 H2 H3 [H4 H4'] H5 [H6 H6'] H7] Hh] Hf Hm.
  apply owp_bind. eapply owp_client_add; [exact H1|lia|exact Hm|].
  intros i l' Hr Hi Hused Hold Hkeep Hlen.
  assert (HiN : (i < N)%nat) by (by eapply (entries_bound (client s) m f)).
  assert (Hil := lookup_lt_Some _ _ _ Hi).
  destruct (lookup_lt_is_Some_2 (pfds s) i) as [q Hq]; [lia|].
  owp_steps. apply owp_set_pfd; [cbn; lia|]. owp_steps. cbn.
  split_and!; [|done|lia|done|].
  - split; [|cbn; rewrite Hh; simpl; by rewrite bool_decide_true].
    split; cbn; [done|..].
    + intros j c Hj Hc. destruct (Hold j c Hj Hc) as [->|Hj']; [lia|]. specialize (H2 j c Hj' Hc). lia.
    + lia.
    + rewrite length_insert. lia.
    + intros g v Hg. apply lookup_insert_Some in Hg as [[<- _]|[_ Hg]]; [lia|by eapply H5].
    + split; [apply Hkeep; [done|simpl; lia]|done].
    + intros j c p Hj Hp Hjm. destruct (decide (j = i)) as [->|Hne].
      * rewrite list_lookup_insert_eq in Hp by lia. rewrite Hi in Hj. by simplify_eq/=.
      * rewrite list_lookup_insert_ne in Hp by done.
        destruct (decide (fd c = -1)) as [Ec|Ec].
        -- destruct (decide (j < i)%nat) as [Hji|Hji].
           { destruct (Hused j Hji) as (d & Hd & Hd'). rewrite (Hkeep j d Hd Hd') in Hj. congruence. }
           destruct (lookup_lt_is_Some_2 (client s) j) as [d Hd]; [lia|].
           rewrite (H7 j d p Hd Hp) by lia. rewrite Ec.
           destruct (decide (fd d = -1)) as [?|Hd']; [done|]. rewrite (Hkeep j d Hd Hd') in Hj. congruence.
        -- destruct (Hold j c Hj Ec) as [?|Hj']; [done|]. apply (H7 j c p Hj' Hp). by eapply H2.
  - intros j. destruct (decide (j = i)) as [->|Hne].
    + rewrite list_lookup_insert_eq by lia. by rewrite Hq.
    + by rewrite list_lookup_insert_ne.
Qed.
Lemma poll_turn_spec ev s m :
  at_map m0 (poll_inv N) s m -> poll_ok s ev ->
  owp (poll_turn sys_open junk ev) (fun _ s' => (exists m', at_map m0 (poll_inv N) s' m') /\
    match ev with
    | PError => False
    | PEvents revents _ data => poll_served revents data s s'
    end) s.
Proof.
  intros [Hinv Hh] Hok. destruct ev as [|revents [f u] data]; cbn [poll_turn]; [by owp_steps|].
  destruct (poll_inv_fill revents s m Hinv) as [Hinv' Hrev]. owp_steps.
  set (s1 := upd_pfds (poll_fill revents (Z.to_nat (maxi s + 1)) (pfds s)) s) in *.
  destruct (poll_listen _ _ _ Hinv) as [Hl0 Hl1].
  destruct (Hrev 0%nat _ Hl0 Hl1) as (p0 & -> & _).
  apply owp_bind. destruct (negb (Z.land (p_revents p0) POLLIN =? 0)).
  - destruct (Z.ltb_spec f 0) as [Hneg|Hpos]; [by owp_steps|]. destruct (Hok Hpos) as [HfN Hfresh].
    assert (Hm : m !! f = None).
    { apply eq_None_not_Some. intros [v Hv]. destruct (rep_of _ _ (poll_rep _ _ _ Hinv) f v Hv) as [_ [i Hi]].
      by apply (Hfresh (mkClient f v)); [apply list_elem_of_lookup; exists i|]. }
    eapply owp_mono; [apply (owp_poll_accept f u s1 m); [by split|lia|done]|].
    intros [] s2 (Hat2 & E2 & Hmx & Hkeep & Hre). owp_steps.
    eapply poll_pass_served; [exact Hat2|exists [ENew f u]; by rewrite E2|].
    intros i c Hc Hc0. destruct (Hrev i c Hc Hc0) as (p & Hp & _ & Er).
    split; [apply Hkeep; [done|lia]|]. split.
    { assert (Z.of_nat i <= maxi s) by (eapply (poll_max _ _ _ Hinv); [done|lia]). cbn in Hmx. lia. }
    specialize (Hre i). rewrite Hp in Hre. destruct (pfds s2 !! i) as [p'|]; [|done].
    exists p'. split; [done|]. simpl in Hre. congruence.
  - owp_steps. eapply (poll_pass_served s s1 m); [by split|by exists []|].
    intros i c Hc Hc0. destruct (Hrev i c Hc Hc0) as (p & Hp & _ & Er).
    split; [done|]. split; [|by exists p]. eapply (poll_max _ _ _ Hinv); [done|lia].
Qed.

(** The states in which [loop] calls poll. *)
Inductive poll_reach (s0 : ost) : ost -> Prop :=
| poll_here : poll_reach s0 s0
| poll_next s ev s' :
    poll_reach s0 s -> poll_ok s ev -> poll_turn sys_open junk ev s = ORet tt s' ->
    poll_reach s0 s'.

Lemma poll_reach_inv s0 m s :
  at_map m0 (poll_inv N) s0 m -> poll_reach s0 s -> exists m', at_map m0 (poll_inv N) s m'.
Proof.
  intros H0. induction 1 as [|s ev s' _ [m1 IH] Hok E]; [by exists m|].
  pose proof (poll_turn_spec ev s m1 IH Hok) as H. unfold owp in H. rewrite E in H. apply H.
Qed.

End Poll.

(** The state in which the poll loop is entered. *)
Definition poll_start (tty : bool) (lfd : Z) (closed_ends : list Z) : ost :=
  mkOst [] (-1) lfd [] 0 [] [] [] 0 tty closed_ends [].

Lemma poll_init_spec junk tty lfd g fresh :
  0 <= lfd < Z.of_nat (length fresh) ->
  exists s, poll_init junk lfd fresh (poll_start tty lfd g) = ORet tt s /\ evs s = [] /\
    at_map {[lfd := 0]} (poll_inv (length fresh)) s {[lfd := 0]}.
Proof.
  intros Hl. destruct fresh as [|p0 fresh]; [simpl in Hl; lia|].
  eexists. split; [reflexivity|]. split; [done|]. split; [|done].
  assert (Hr : rep (mkClient lfd 0 :: replicate 9 (mkClient (-1) junk)) {[lfd := 0]}).
  { pose proof (rep_add (replicate 10 (mkClient (-1) junk)) ∅ 0 (mkClient (-1) junk) lfd 0) as H.
    simpl in H. rewrite <- insert_empty. apply H; [|done|done|lia|apply lookup_empty].
    apply (rep_alloc [] ∅ 10 junk rep_empty). }
  split; cbn.
  - exact Hr.
  - intros i c Hi Hc. destruct i as [|i]; [lia|]. exfalso. apply Hc.
    destruct (rep_in _ _ Hr _ _ Hi) as [E|[E1 E2]]; [done|]. exfalso.
    apply lookup_singleton_Some in E2 as [E2 _].
    by apply (rep_inj _ _ Hr 0%nat (S i) (mkClient lfd 0) c) in Hi; [|done|simpl; lia|simpl; lia].
  - lia.
  - split; [done|]. lia.
  - intros f u [<- _]%lookup_singleton_Some. simpl in Hl. lia.
  - split; [done|lia].
  - intros i c p Hc Hp Hi. assert (i = 0%nat) as -> by lia. simpl in *. by simplify_eq/=.
Qed.
