(* ===== verification/OpendTheorems.v ===== *)
(** * OpendTheorems: properties of the open server and its client. *)
From S2P Require Import Prelude Libc Calld Opend OpendOps OpendLoop.
Local Open Scope Z_scope.

(** ** The loops *)

(** C22: The select loop implements the server of a map from descriptors to users.
    In every state in which it waits, the events so far are a history of that
    server (connections with new descriptors; requests and ends of file of clients
    that are connected, with the user they connected as), the array holds exactly
    the clients of the map, each of them and the listening socket are in the set
    that select watches, and no index or descriptor is above the bounds the loop
    keeps.  Whatever select reports next, if the server goes on it has recorded a
    new client, or has served every connected client with input, with what that
    client sent, and nobody else; and it touches no entry outside its array and no bit
    outside its set, with one exception: a new client whose descriptor is FD_SETSIZE or
    more is always put past the end of the set.  Apart from that, what may be undefined
    is in the messages of a request: errmsg may overflow or be used as a format, and so
    may the text that is logged, whose buffer is no longer than that of the request and
    which syslog takes as a format when the server runs as a daemon.  (The listening
    descriptor is below FD_SETSIZE; a read gives what the client sent, of any length, so
    that reads of at most MAXLINE bytes are among them; memory does not run out.) *)
Theorem opend_select_refines sys_open junk tty lfd g s ev :
  lfd < FD_SETSIZE ->
  select_reach sys_open junk (select_init tty lfd g) s -> select_ok s ev ->
  exists m, history ∅ (evs s) = Some m /\ sel_inv s m /\
    if set_full ev then select_turn sys_open junk ev s = OUndef "FD_SET past the end of allset"
    else owp (select_turn sys_open junk ev) (fun _ s' =>
      (exists m', history ∅ (evs s') = Some m' /\ sel_inv s' m') /\
      match ev with
      | SError => False
      | SConn f u => evs s' = ENew f u :: evs s
      | SReady data => served (arrives data) (fun j => True) s s'
      end) s.
Proof.
  intros Hl Hr Hok. destruct (select_reach_inv sys_open junk tty lfd g s Hl Hr) as [m [Hi Hh]].
  exists m. split_and!; [done..|]. destruct (set_full ev) eqn:Hf; [by apply select_turn_full|].
  eapply owp_mono; [by apply (select_turn_spec sys_open junk ev s m)|].
  intros [] s' [(m' & Hi' & Hh') H]. split; [by exists m'|done].
Qed.

(** A server that cannot open anything. *)
Definition no_open : bytes -> Z -> Z + bytes := fun _ _ => inr (str "No such file or directory").

Lemma opend_select_refines_witness :
  exists s, select_turn no_open 7 (SConn 5 100) (select_init false 3 []) = ORet tt s /\
  (exists m, history ∅ (evs s) = Some m /\ sel_inv s m /\
    owp (select_turn no_open 7 (SReady [(5, RGot (str "open /etc/x 0" ++ [0]))])) (fun _ s' =>
      (exists m', history ∅ (evs s') = Some m' /\ sel_inv s' m') /\
      served (arrives [(5, RGot (str "open /etc/x 0" ++ [0]))]) (fun j => True) s s') s) /\
  (exists m, history ∅ (evs s) = Some m /\ sel_inv s m /\
    select_turn no_open 7 (SConn 1024 100) s = OUndef "FD_SET past the end of allset").
Proof.
  assert (W : forall s, select_reach no_open 7 (select_init false 3 []) s -> s.(allset) = [5; 3] ->
    (exists m, history ∅ (evs s) = Some m /\ sel_inv s m /\
      owp (select_turn no_open 7 (SReady [(5, RGot (str "open /etc/x 0" ++ [0]))])) (fun _ s' =>
        (exists m', history ∅ (evs s') = Some m' /\ sel_inv s' m') /\
        served (arrives [(5, RGot (str "open /etc/x 0" ++ [0]))]) (fun j => True) s s') s) /\
    (exists m, history ∅ (evs s) = Some m /\ sel_inv s m /\
      select_turn no_open 7 (SConn 1024 100) s = OUndef "FD_SET past the end of allset")).
  { intros s Hr Ea. split.
    - exact (opend_select_refines no_open 7 false 3 [] s (SReady [(5, RGot (str "open /etc/x 0" ++ [0]))])
        eq_refl Hr I).
    - apply (opend_select_refines no_open 7 false 3 [] s (SConn 1024 100) eq_refl Hr). simpl. rewrite Ea.
      intros [E|[E|E%not_elem_of_nil]%elem_of_cons]%elem_of_cons; [discriminate E|discriminate E|exact E]. }
  eexists. split; [reflexivity|]. apply W; [|reflexivity].
  eapply (select_next _ _ _ (select_init false 3 []) (SConn 5 100)); [apply select_here| |reflexivity].
  simpl. intros [E|E%not_elem_of_nil]%elem_of_cons; [discriminate E|exact E].
Defined.

(** C30: The poll loop implements the same server: in every state in which it waits,
    with descriptors below the limit open_max that sizes its array, the events are a
    history of the map of clients (which has the listening socket as its first
    entry), the arrays of clients and of poll agree, and if the server goes on after
    the next call of poll it has served every client that hung up or has input, and
    no index is outside the arrays, in particular not the one of a new client in
    the array of fixed size.  (What may be undefined are the messages of a request, as
    for the select loop.) *)
Theorem opend_poll_refines sys_open junk tty lfd g fresh s0 s ev :
  0 <= lfd < Z.of_nat (length fresh) ->
  poll_init junk lfd fresh (poll_start tty lfd g) = ORet tt s0 ->
  poll_reach sys_open junk (length fresh) s0 s -> poll_ok (length fresh) s ev ->
  exists m, history {[lfd := 0]} (evs s) = Some m /\ poll_inv (length fresh) s m /\
    owp (poll_turn sys_open junk ev) (fun _ s' =>
      (exists m', history {[lfd := 0]} (evs s') = Some m' /\ poll_inv (length fresh) s' m') /\
      match ev with
      | PError => False
      | PEvents revents _ data => poll_served revents data s s'
      end) s.
Proof.
  intros Hl Hinit Hr Hok. destruct (poll_init_spec junk tty lfd g fresh Hl) as (s1 & E & _ & Hat).
  assert (s1 = s0) as -> by congruence.
  destruct (poll_reach_inv sys_open junk (length fresh) {[lfd := 0]} s0 _ s Hat Hr) as [m [Hi Hh]].
  exists m. split_and!; [done..|].
  eapply owp_mono; [by apply (poll_turn_spec sys_open junk (length fresh) {[lfd := 0]} ev s m)|].
  intros [] s' [(m' & Hi' & Hh') H]. split; [by exists m'|done].
Qed.

Lemma opend_poll_refines_witness :
  exists s0, poll_init 7 3 (replicate 16 (mkPollfd 0 0)) (poll_start false 3 []) = ORet tt s0 /\
  exists m, history {[3 := 0]} (evs s0) = Some m /\ poll_inv 16 s0 m /\
    owp (poll_turn no_open 7 (PEvents (fun _ => 1) (5, 100) (fun _ => RFail))) (fun _ s' =>
      (exists m', history {[3 := 0]} (evs s') = Some m' /\ poll_inv 16 s' m') /\
      poll_served (fun _ => 1) (fun _ => RFail) s0 s') s0.
Proof.
  eexists. split; [reflexivity|].
  eapply (opend_poll_refines no_open 7 false 3 [] (replicate 16 (mkPollfd 0 0)) _ _
    (PEvents (fun _ => 1) (5, 100) (fun _ => RFail))); [simpl; lia|reflexivity|apply poll_here|].
  intros _. split; [simpl; lia|]. intros c Hc. vm_compute in Hc.
  repeat (apply elem_of_cons in Hc as [->|Hc]; [done|]). by apply not_elem_of_nil in Hc.
Defined.

(** ** Passing descriptors and errors *)

Lemma scan_skip j : forall f b r k nr st nf,
  0 <= k -> k + Z.of_nat j <= nr ->
  (forall i, (i < j)%nat -> default 0 (b !! Z.to_nat (k + Z.of_nat i)) <> 0) ->
  scan (j + f) b r k nr st nf = scan f b r (k + Z.of_nat j) nr st nf.
Proof.
  induction j as [|j IH]; intros f b r k nr st nf Hk Hn Hb.
  { by rewrite Nat.add_0_l, Z.add_0_r. }
  cbn [Nat.add scan]. rewrite (proj2 (Z.ltb_lt k nr)) by lia.
  specialize (Hb 0%nat ltac:(lia)) as H0. rewrite Z.add_0_r in H0.
  rewrite (proj2 (Z.eqb_neq _ _)) by done. rewrite IH; [f_equal; lia|lia|lia|].
  intros i Hi. replace (k + 1 + Z.of_nat i) with (k + Z.of_nat (S i)) by lia. apply Hb. lia.
Qed.

Lemma nonzero_at (t r : bytes) i :
  Forall (fun c => c <> 0) t -> (i < length t)%nat ->
  default 0 ((t ++ r) !! Z.to_nat (0 + Z.of_nat i)) <> 0.
Proof.
  intros Ht Hi. rewrite Z.add_0_l, Nat2Z.id, lookup_app_l by done.
  destruct (lookup_lt_is_Some_2 t i Hi) as [c Hc]. rewrite Hc. simpl.
  by eapply (Forall_lookup_1 (fun c => c <> 0)).
Qed.

(** A segment of text, and the last segment. *)
Lemma scan_text t r st nf :
  Forall (fun c => c <> 0) t ->
  scan (S (length t)) t r 0 (Z.of_nat (length t)) st nf = inr (st, nf, Z.of_nat (length t)).
Proof.
  intros Ht. replace (S (length t)) with (length t + 1)%nat by lia.
  rewrite scan_skip; [|lia|lia|].
  - cbn [scan]. by rewrite (proj2 (Z.ltb_ge _ _)) by lia.
  - intros i Hi. pose proof (nonzero_at t [] i Ht Hi) as H. by rewrite app_nil_r in H.
Qed.

Lemma scan_last t status r st nf :
  Forall (fun c => c <> 0) t -> 0 <= status < 256 ->
  scan (S (length (t ++ [0; status]))) (t ++ [0; status]) r 0 (Z.of_nat (length (t ++ [0; status]))) st nf =
  if status =? 0 then match r with None => inl "status = 0 but no fd"%string
                      | Some f => inr (0, f, Z.of_nat (length t)) end
  else inr (status, - status, Z.of_nat (length t)).
Proof.
  intros Ht Hs. rewrite length_app. cbn [length].
  replace (S (length t + 2)) with (length t + 3)%nat by lia.
  rewrite scan_skip; [|lia|lia|by intros i Hi; apply nonzero_at].
  cbn [scan]. rewrite (proj2 (Z.ltb_lt _ _)) by lia.
  assert (E0 : (t ++ [0; status]) !! Z.to_nat (0 + Z.of_nat (length t)) = Some 0).
  { rewrite Z.add_0_l, Nat2Z.id, lookup_app_r, Nat.sub_diag by done. done. }
  assert (E1 : (t ++ [0; status]) !! Z.to_nat (0 + Z.of_nat (length t) + 1) = Some status).
  { replace (Z.to_nat (0 + Z.of_nat (length t) + 1)) with (length t + 1)%nat by lia.
    rewrite lookup_app_r by lia. by replace (length t + 1 - length t)%nat with 1%nat by lia. }
  rewrite E0. cbn [from_option id Z.eqb]. rewrite (proj2 (Z.eqb_eq _ _)) by lia. cbn [negb].
  rewrite E1. cbn [from_option id].
  replace (Z.land status 255) with status.
  2:{ change 255 with (Z.ones 8). rewrite Z.land_ones by lia. rewrite Z.mod_small; lia. }
  replace (Z.of_nat (length t + 2) - 2) with (Z.of_nat (length t)) by lia.
  destruct (Z.eqb_spec status 0) as [->|]; [destruct r; [|done]|];
    by rewrite (proj2 (Z.ltb_ge _ _)) by lia.
Qed.

(** How a sequence of cells arrives: cut into segments that are not empty and fit
    the buffer, each with the first of the descriptors sent with its bytes. *)
Definition rights_of (cs : list cell) : option Z := head (omap c_rights cs).

Inductive arrives_as : list cell -> list rmsg -> Prop :=
| arrives_nil : arrives_as [] []
| arrives_seg cs rest segs :
    cs <> [] -> Z.of_nat (length cs) <= MAXLINE -> arrives_as rest segs ->
    arrives_as (cs ++ rest) (Seg (map c_byte cs) (rights_of cs) :: segs).

(** The last two bytes come together. *)
Definition last_whole (segs : list rmsg) : Prop :=
  match last segs with Some (Seg b _) => (2 <= length b)%nat | _ => False end.

(** What [recv_fd] returns for what was given to [send_fd]. *)
Definition fd_value (f : Z) : Z :=
  if f <? 0 then - (if wrap_u 8 (- f) =? 0 then 1 else wrap_u 8 (- f)) else f.

Lemma text_cells_bytes t : map c_byte (text_cells t) = t.
Proof. unfold text_cells. rewrite map_map. simpl. apply map_id. Qed.

Lemma text_cells_rights t : omap c_rights (text_cells t) = [].
Proof. by induction t. Qed.

Lemma fd_message_length f : length (fd_message f) = 2%nat.
Proof. unfold fd_message. by case_if. Qed.

Lemma recv_last uf t f :
  Forall (fun c => c <> 0) t -> (forall b, uf b = Z.of_nat (length b)) ->
  recv_fd uf [Seg (map c_byte (text_cells t ++ fd_message f)) (rights_of (text_cells t ++ fd_message f))] =
  (RRet (fd_value f), t).
Proof.
  intros Ht Huf. rewrite map_app, text_cells_bytes. unfold rights_of.
  rewrite omap_app, text_cells_rights. cbn [app].
  assert (Hout : forall x y, take (Z.to_nat (Z.of_nat (length t))) (t ++ [x; y]) = t).
  { intros x y. by rewrite Nat2Z.id, take_app_length. }
  assert (Hfin : forall status (v : Z) (r : option Z), 0 <= status < 256 ->
    (if status =? 0 then r = Some v else v = - status) ->
    recv_fd uf [Seg (t ++ [0; status]) r] = (RRet v, t)).
  { intros status v r Hs Hv. cbn [recv_fd].
    destruct (t ++ [0; status]) as [|c l] eqn:E; [by destruct t|]. rewrite <- E.
    rewrite scan_last by done.
    assert (Ht' : (if 0 <? Z.of_nat (length t) then t else []) = t).
    { destruct t; [done|]. by rewrite (proj2 (Z.ltb_lt _ _)) by (simpl; lia). }
    destruct (Z.eqb_spec status 0) as [->|].
    - rewrite Hv, Hout, Huf, Z.eqb_refl, andb_false_r, Ht'. done.
    - rewrite Hout, Huf, Z.eqb_refl, andb_false_r, Ht', (proj2 (Z.leb_le 0 status)) by lia. by rewrite Hv. }
  unfold fd_message, fd_value. destruct (Z.ltb_spec f 0) as [Hneg|Hpos]; cbn [map c_byte c_rights omap list_omap head].
  - assert (Hw : 0 <= wrap_u 8 (- f) < 256) by (apply Z.mod_pos_bound; lia).
    apply Hfin.
    + destruct (Z.eqb_spec (wrap_u 8 (- f)) 0); lia.
    + destruct (Z.eqb_spec (wrap_u 8 (- f)) 0); [done|]. by rewrite (proj2 (Z.eqb_neq _ _)).
  - by apply Hfin.
Qed.

(** A segment of text before the end. *)
Lemma recv_text uf t segs r :
  Forall (fun c => c <> 0) t -> t <> [] -> (forall b, uf b = Z.of_nat (length b)) ->
  recv_fd uf (Seg t r :: segs) = ((recv_fd uf segs).1, t ++ (recv_fd uf segs).2).
Proof.
  intros Ht Hne Huf. destruct t as [|c t]; [done|]. cbn [recv_fd].
  rewrite scan_text by done. rewrite Nat2Z.id, take_ge by done.
  rewrite Huf, Z.eqb_refl, andb_false_r. rewrite (proj2 (Z.ltb_lt 0 _)) by (simpl; lia).
  simpl (0 <=? -1). by destruct (recv_fd uf segs).
Qed.

Lemma recv_cells uf segs cells :
  arrives_as cells segs -> forall t f,
  cells = text_cells t ++ fd_message f -> last_whole segs ->
  Forall (fun c => c <> 0) t -> (forall b, uf b = Z.of_nat (length b)) ->
  recv_fd uf segs = (RRet (fd_value f), t).
Proof.
  induction 1 as [|cs rest segs Hne Hm Harr IH]; intros t f Ec Hl Ht Huf.
  { apply (f_equal length) in Ec. rewrite length_app, fd_message_length in Ec. simpl in Ec. lia. }
  destruct Harr as [|cs2 rest2 segs2 Hne2 Hm2 Harr2].
  - rewrite app_nil_r in Ec. subst cs. by apply recv_last.
  - assert (Hlong : (2 <= length (cs2 ++ rest2))%nat).
    { assert (Hx : forall cells l, arrives_as cells l -> last_whole l -> (2 <= length cells)%nat).
      { clear. induction 1 as [|cs rest segs Hne Hm Ha IH]; [done|]. intros Hl.
        destruct segs as [|x segs]; [unfold last_whole in Hl; simpl in Hl; len|].
        rewrite length_app. specialize (IH Hl). lia. }
      apply (Hx (cs2 ++ rest2) (Seg (map c_byte cs2) (rights_of cs2) :: segs2)); [by constructor|done]. }
    assert (Ecs : cs = take (length cs) (text_cells t) /\ cs2 ++ rest2 = drop (length cs) (text_cells t) ++ fd_message f).
    { assert (Hlc : (length cs <= length (text_cells t))%nat).
      { apply (f_equal length) in Ec. rewrite !length_app, fd_message_length in Ec. rewrite length_app in Hlong. lia. }
      split.
      - apply (f_equal (take (length cs))) in Ec. by rewrite take_app_length, take_app_le in Ec.
      - apply (f_equal (drop (length cs))) in Ec. by rewrite drop_app_length, drop_app_le in Ec. }
    destruct Ecs as [E1 E2]. set (k := length cs) in *.
    assert (Et : forall n, take n (text_cells t) = text_cells (take n t) /\ drop n (text_cells t) = text_cells (drop n t)).
    { intros n. unfold text_cells. by rewrite !firstn_map, !skipn_map. }
    rewrite (proj1 (Et k)) in E1. rewrite (proj2 (Et k)) in E2.
    rewrite E1, text_cells_bytes.
    rewrite recv_text; [|by apply Forall_take| |done].
    + rewrite (IH (drop k t) f E2); [|done|by apply Forall_drop|done]. simpl. by rewrite take_drop.
    + intros E0. rewrite E0 in E1. done.
Qed.

(** What is sent with [send_err] or [send_fd] is received with [recv_fd]: after
    any error text without NUL, a descriptor comes out as that descriptor and an
    error code as a negative number of at most 255, and the text, which arrives in
    any number of pieces, is handed on completely before it, as long as the last
    two bytes of the message are received together. *)
Lemma descriptor_roundtrip uf segs t f :
  arrives_as (text_cells t ++ fd_message f) segs -> last_whole segs ->
  Forall (fun c => c <> 0) t -> (forall b, uf b = Z.of_nat (length b)) ->
  recv_fd uf segs = (RRet (fd_value f), t).
Proof. intros Ha. by apply (recv_cells uf segs _ Ha). Qed.

Lemma descriptor_roundtrip_witness :
  arrives_as (text_cells (str "no file") ++ fd_message (-1))
    [Seg (str "no f") None; Seg (str "ile" ++ [0; 1]) None] /\
  recv_fd (fun b => Z.of_nat (length b)) [Seg (str "no f") None; Seg (str "ile" ++ [0; 1]) None] =
    (RRet (-1), str "no file").
Proof.
  assert (Ha : arrives_as (text_cells (str "no file") ++ fd_message (-1))
    [Seg (str "no f") None; Seg (str "ile" ++ [0; 1]) None]).
  { apply (arrives_seg (text_cells (str "no f")) (text_cells (str "ile") ++ fd_message (-1)));
      [done|vm_compute; discriminate|].
    apply (arrives_seg (text_cells (str "ile") ++ fd_message (-1)) []);
      [done|vm_compute; discriminate|apply arrives_nil]. }
  split; [exact Ha|].
  apply (descriptor_roundtrip _ _ (str "no file") (-1) Ha); [vm_compute; lia| |reflexivity].
  repeat constructor; discriminate.
Defined.

(** A NUL that is the last byte of a segment makes the client dump core. *)
Lemma split_status_dumps uf t st r r' :
  Forall (fun c => c <> 0) t ->
  exists out, recv_fd uf [Seg (t ++ [0]) r; Seg [st] r'] = (RDump "message format error", out).
Proof.
  intros Ht. cbn [recv_fd]. destruct (t ++ [0]) as [|c l] eqn:E; [by destruct t|].
  rewrite <- E. replace (S (length (t ++ [0]))) with (length t + 2)%nat by len.
  rewrite scan_skip; [|lia|len|by intros i Hi; apply nonzero_at].
  cbn [scan]. rewrite (proj2 (Z.ltb_lt _ _)) by len.
  assert (E0 : (t ++ [0]) !! Z.to_nat (0 + Z.of_nat (length t)) = Some 0).
  { rewrite Z.add_0_l, Nat2Z.id, lookup_app_r, Nat.sub_diag by done. done. }
  rewrite E0. cbn [from_option id Z.eqb]. rewrite (proj2 (Z.eqb_neq _ _)) by len. by exists [].
Qed.

(** ** From the client through the server and back *)

(** The cells sent on connection [f] among the events [es] (the latest first). *)
Definition output (f : Z) (es : list oev) : list cell :=
  concat (map (fun e => match e with ESent g cs => if g =? f then cs else [] | _ => [] end) (rev es)).

Definition word (w : bytes) : Prop := w <> [] /\ Forall (fun c => c <> 0 /\ is_white c = false) w.

Lemma strtok_word w c rest :
  word w -> is_white c = true -> strtok is_white (w ++ c :: rest) = Some (w, rest).
Proof.
  intros [Hne Hw] Hc. unfold strtok.
  assert (Hs : span_token is_white (w ++ c :: rest) = (w, rest)).
  { clear Hne. induction Hw as [|x w [_ Hx] _ IH]; simpl; [by rewrite Hc|]. rewrite Hx. by rewrite IH. }
  destruct Hw as [|x w [_ Hx] Hw]; [done|]. simpl in *. rewrite Hx. simpl. rewrite Hx in Hs.
  rewrite Hx. by rewrite Hs.
Qed.

Lemma strtok_last w : word w -> strtok is_white w = Some (w, []).
Proof.
  intros [Hne Hw]. unfold strtok.
  assert (Hs : span_token is_white w = (w, [])).
  { clear Hne. induction Hw as [|x w [_ Hx] _ IH]; simpl; [done|]. rewrite Hx. by rewrite IH. }
  destruct Hw as [|x w [_ Hx] Hw]; [done|]. simpl in *. rewrite Hx. simpl. rewrite Hx in Hs.
  rewrite Hx. by rewrite Hs.
Qed.

Lemma word_fmt n : 0 <= n -> word (fmt_ld n).
Proof.
  intros Hn. unfold fmt_ld. rewrite (proj2 (Z.ltb_ge _ _)) by lia. split; [apply dec_u_nonempty|].
  eapply Forall_impl; [by apply dec_u_digits|]. intros c Hc. split; [simpl in Hc; lia|]. simpl in Hc.
  unfold is_white. by rewrite !(proj2 (Z.eqb_neq _ _)) by lia.
Qed.

Lemma word_nonzero w : word w -> Forall (fun c => c <> 0) w.
Proof. intros [_ H]. eapply Forall_impl; [exact H|]. by intros c [? _]. Qed.

(** The server takes the request apart as the client has put it together. *)
Lemma request_args name flags :
  word name -> 0 <= flags < 10 ^ 8 ->
  exists req, csopen_request name flags = Some req /\ last req = Some 0 /\
    cstring req = str "open " ++ name ++ 32 :: fmt_ld flags /\
    forall s, buf_args req cli_args s = ORet 0 (upd_args name flags s).
Proof.
  intros Hw Hf. pose proof (word_fmt flags ltac:(lia)) as Hn.
  assert (Hlen : (length (fmt_ld flags) <= 8)%nat).
  { unfold fmt_ld. rewrite (proj2 (Z.ltb_ge _ _)) by lia. apply dec_u_length; lia. }
  eexists. unfold csopen_request. cbn [length]. rewrite (proj2 (Nat.ltb_lt _ _)) by lia.
  split; [done|].
  assert (Hc : cstring (str "open " ++ name ++ (32 :: fmt_ld flags) ++ [0]) =
    str "open " ++ name ++ 32 :: fmt_ld flags).
  { rewrite !app_assoc. apply cstring_nonzero. apply Forall_app. split.
    - apply Forall_app. split; [by repeat constructor|by apply word_nonzero].
    - constructor; [done|]. by apply word_nonzero. }
  split; [by rewrite !app_assoc, last_snoc|]. split; [exact Hc|].
  intros s. unfold buf_args. rewrite Hc.
  assert (Ht : tokens (S (length (str "open " ++ name ++ 32 :: fmt_ld flags))) is_white
    (str "open " ++ name ++ 32 :: fmt_ld flags) = [str "open"; name; fmt_ld flags]).
  { rewrite length_app. change (length (str "open ")) with 5%nat.
    change (str "open " ++ name ++ 32 :: fmt_ld flags) with
      (str "open" ++ 32 :: name ++ 32 :: fmt_ld flags).
    cbn [Nat.add tokens]. rewrite strtok_word; [|by split; [|repeat constructor]|done].
    rewrite strtok_word by done. rewrite strtok_last by done. done. }
  rewrite Ht.
  change (leading_white (str "open " ++ name ++ 32 :: fmt_ld flags)) with
    (take (length (str "open " ++ name ++ 32 :: fmt_ld flags) -
           length (str "open " ++ name ++ 32 :: fmt_ld flags)) (str "open " ++ name ++ 32 :: fmt_ld flags)).
  rewrite Nat.sub_diag. cbn [take app length MAXARGC Nat.sub Nat.leb].
  unfold cli_args. rewrite bool_decide_true by done. cbn.
  assert (Ha : atoi (fmt_ld flags) = flags).
  { unfold atoi, fmt_ld. rewrite (proj2 (Z.ltb_ge _ _)) by lia.
    pose proof (atol_fmt 0 flags []) as Ha. cbn [replicate app] in Ha. rewrite app_nil_r in Ha.
    rewrite Ha; [|unfold LONG_MAX; lia|done]. unfold wrap_s. rewrite Z.mod_small; lia. }
  by rewrite Ha.
Qed.

(** The message for a file that cannot be opened. *)
Definition cant_open (name strerror : bytes) : bytes :=
  str "can't open " ++ name ++ str ": " ++ strerror ++ [10].

Lemma send_err_sent f msg s :
  f ∉ gone s -> msg <> [] ->
  send_err f (-1) msg s =
    ORet 0 (upd_evs (ESent f (fd_message (-1)) :: ESent f (text_cells msg) :: evs s) s).
Proof.
  intros Hg Hm. unfold send_err, send_fd, transmit, mbind, SM_bind. destruct msg as [|c msg]; [done|].
  cbn [length Nat.ltb Nat.leb]. rewrite bool_decide_false by done. cbn [gone upd_evs].
  by rewrite bool_decide_false.
Qed.

(** A text that can be logged, and an errmsg that can be. *)
Definition log_ok (tty : bool) (m : bytes) : bool :=
  (Z.of_nat (length m) <? MAXLINE - 1) && (tty || fmt_plain (m ++ [10])).
Definition errmsg_ok (tty : bool) (m : bytes) : bool :=
  match fmt_expand m with Some t => log_ok tty t | None => false end.

Lemma log_msg_logs m s :
  log_ok (log_to_stderr s) m = true ->
  exists t, log_msg m s = ORet tt (upd_evs (ELog t :: evs s) s).
Proof.
  unfold log_ok, log_msg, fmt_plain, emit, modify, get, mbind, SM_bind.
  intros [Hl Hf]%andb_true_iff. rewrite (proj2 (Z.leb_gt _ _)) by lia.
  destruct (log_to_stderr s); [by eexists|]. cbn [orb] in Hf.
  destruct (fmt_expand (m ++ [10])) as [t|]; [by eexists|done].
Qed.

Lemma log_msg_faults m s :
  log_ok (log_to_stderr s) m = false -> exists why, log_msg m s = OUndef why.
Proof.
  unfold log_ok, log_msg, fmt_plain, undef, get, mbind, SM_bind. intros H.
  destruct (Z.leb_spec (MAXLINE - 1) (Z.of_nat (length m))); [by eexists|].
  rewrite (proj2 (Z.ltb_lt _ _)) in H by lia. cbn [andb] in H.
  destruct (log_to_stderr s); [done|]. cbn [orb] in H. destruct (fmt_expand (m ++ [10])); [done|by eexists].
Qed.

(** The server's side. *)
Lemma request_open sys_open name flags clifd cuid s :
  word name -> 0 <= flags < 10 ^ 8 -> clifd ∉ gone s ->
  exists req, csopen_request name flags = Some req /\
    (log_ok (log_to_stderr s) (request_text req cuid) = true ->
    match sys_open name flags with
    | inl f => log_ok (log_to_stderr s) (sent_text f clifd name) = true ->
        exists s' new, request sys_open req clifd cuid s = ORet tt s' /\ evs s' = new ++ evs s /\
        EOpened name flags f ∈ new /\ EShut f ∈ new /\ output clifd new = fd_message f
    | inr err =>
        Z.of_nat (length (cant_open name err)) < MAXLINE ->
        errmsg_ok (log_to_stderr s) (cant_open name err) = true ->
        exists s' new, request sys_open req clifd cuid s = ORet tt s' /\ evs s' = new ++ evs s /\
          output clifd new = text_cells (cant_open name err) ++ fd_message (-1)
    end).
Proof.
  intros Hw Hf Hg.
  destruct (request_args name flags Hw Hf) as (req & Ereq & Hlast & Hcs & Hargs).
  assert (Er : req = str "open " ++ name ++ (32 :: fmt_ld flags) ++ [0]).
  { unfold csopen_request in Ereq. by destruct (_ <? _)%nat; simplify_eq. }
  exists req. split; [done|]. intros Hlog.
  unfold request, emit, modify, get, mbind, SM_bind. rewrite Hlast. cbn [from_option id negb Z.eqb].
  match goal with |- context [log_msg _ ?s0] => destruct (log_msg_logs _ s0 Hlog) as [t ->] end.
  rewrite Hargs.
  cbn [Z.ltb Z.compare]. cbn [pathname oflag upd_args].
  destruct (sys_open name flags) as [f|err].
  - intros Hsent. unfold send_fd, transmit, mbind, SM_bind. cbn [gone upd_args upd_evs].
    rewrite bool_decide_false by done. cbn [mret SM_ret].
    match goal with |- context [log_msg _ ?s0] => destruct (log_msg_logs _ s0 Hsent) as [t' ->] end.
    cbn. eexists _, [_; _; _; _; _; _]. split; [reflexivity|]. split; [reflexivity|].
    split; [do 3 right; left|]. split; [left|]. unfold output. cbn [rev app map concat].
    rewrite Z.eqb_refl. by rewrite !app_nil_r.
  - intros Hlen Hfmt. fold (cant_open name err). unfold set_errmsg. rewrite (proj2 (Z.ltb_lt _ _)) by done.
    unfold modify. cbn [errmsg upd_errmsg].
    rewrite send_err_sent; [|done|by destruct name].
    unfold log_errmsg, mbind, SM_bind, get. cbn [errmsg upd_errmsg upd_evs].
    unfold errmsg_ok in Hfmt. destruct (fmt_expand (cant_open name err)) as [m|]; [|done].
    match goal with |- context [log_msg _ ?s0] => destruct (log_msg_logs m s0 Hfmt) as [t' ->] end. cbn. eexists _, [_; _; _; _; _]. split; [reflexivity|]. split; [reflexivity|].
    unfold output. cbn [rev app map concat]. rewrite !Z.eqb_refl. by rewrite app_nil_r.
Qed.

(** Opening a file through the server: a client that asks for a file whose name
    has no white space with some flags gets, over a connection that delivers the
    answer, the descriptor that opening exactly that name with exactly those flags
    gives, and nothing is printed; the server closes its copy.  If the file cannot
    be opened, the client gets -1 and prints the server's message with the name and
    the reason.  (The messages fit their buffers and have no conversions in them where
    they are used as formats.) *)
Lemma csopen_end_to_end sys_open name flags clifd cuid s csfd conn uf :
  word name -> 0 <= flags < 10 ^ 8 -> clifd ∉ gone s -> 0 <= csfd ->
  (forall p o f, sys_open p o = inl f -> 0 <= f) ->
  (forall b, uf b = Z.of_nat (length b)) ->
  exists req, csopen_request name flags = Some req /\
    (log_ok (log_to_stderr s) (request_text req cuid) = true ->
    match sys_open name flags with
    | inl f => log_ok (log_to_stderr s) (sent_text f clifd name) = true ->
        exists s' new, request sys_open req clifd cuid s = ORet tt s' /\ evs s' = new ++ evs s /\
        EOpened name flags f ∈ new /\ EShut f ∈ new /\
        forall segs, arrives_as (output clifd new) segs -> last_whole segs ->
          csopen csfd conn (Z.of_nat (length req)) name flags uf segs = (CsEnd (RRet f) [], csfd)
    | inr err =>
        Z.of_nat (length (cant_open name err)) < MAXLINE ->
        errmsg_ok (log_to_stderr s) (cant_open name err) = true ->
        Forall (fun c => c <> 0) err ->
        exists s' new, request sys_open req clifd cuid s = ORet tt s' /\ evs s' = new ++ evs s /\
          forall segs, arrives_as (output clifd new) segs -> last_whole segs ->
            csopen csfd conn (Z.of_nat (length req)) name flags uf segs =
              (CsEnd (RRet (-1)) (cant_open name err), csfd)
    end).
Proof.
  intros Hw Hf Hg Hcs Hopen Huf.
  destruct (request_open sys_open name flags clifd cuid s Hw Hf Hg) as (req & Ereq & H).
  exists req. split; [done|]. intros Hlog. specialize (H Hlog).
  assert (Hcl : forall segs t v, recv_fd uf segs = (RRet v, t) ->
    csopen csfd conn (Z.of_nat (length req)) name flags uf segs = (CsEnd (RRet v) t, csfd)).
  { intros segs t v Hr. unfold csopen. rewrite Ereq, Hr, Z.eqb_refl.
    by rewrite (proj2 (Z.ltb_ge csfd 0)), (proj2 (Z.ltb_ge csfd 0)) by lia. }
  destruct (sys_open name flags) as [f|err] eqn:Eo.
  - intros Hsent. destruct (H Hsent) as (s' & new & E & En & H1 & H2 & Ho). exists s', new. split_and!; [done..|].
    intros segs Ha Hl. apply Hcl. rewrite Ho in Ha.
    rewrite (recv_cells uf segs _ Ha [] f); [|done..].
    unfold fd_value. by rewrite (proj2 (Z.ltb_ge _ _)) by (by eapply Hopen).
  - intros Hlen Hfmt Herr. destruct (H Hlen Hfmt) as (s' & new & E & En & Ho).
    exists s', new. split_and!; [done..|]. intros segs Ha Hl. apply Hcl. rewrite Ho in Ha.
    rewrite (recv_cells uf segs _ Ha (cant_open name err) (-1)); [done..| |done].
    unfold cant_open. repeat (apply Forall_app; split); first [by apply word_nonzero|done|by repeat constructor].
Qed.

(** One file exists. *)
Definition one_file : bytes -> Z -> Z + bytes := fun p o =>
  if bool_decide (p = str "/etc/motd") && (o =? 0) then inl 9 else inr (str "No such file or directory").

Lemma csopen_end_to_end_witness :
  exists req, csopen_request (str "/etc/motd") 0 = Some req /\
    (log_ok false (request_text req 100) = true -> log_ok false (sent_text 9 5 (str "/etc/motd")) = true ->
    exists s' new, request one_file req 5 100 (select_init false 3 []) = ORet tt s' /\ evs s' = new ++ [] /\
      EOpened (str "/etc/motd") 0 9 ∈ new /\ EShut 9 ∈ new /\
      forall segs, arrives_as (output 5 new) segs -> last_whole segs ->
        csopen 4 (-1) (Z.of_nat (length req)) (str "/etc/motd") 0 (fun b => Z.of_nat (length b)) segs =
          (CsEnd (RRet 9) [], 4)) /\
    log_ok false (request_text req 100) = true /\ log_ok false (sent_text 9 5 (str "/etc/motd")) = true.
Proof.
  destruct (csopen_end_to_end one_file (str "/etc/motd") 0 5 100 (select_init false 3 []) 4 (-1)
    (fun b => Z.of_nat (length b))) as (req & E & H).
  - split; [discriminate|]. repeat constructor; discriminate.
  - lia.
  - apply not_elem_of_nil.
  - lia.
  - intros p o f. unfold one_file. destruct (bool_decide (p = str "/etc/motd") && (o =? 0)); intros E.
    + injection E as <-. lia.
    + discriminate E.
  - reflexivity.
  - exists req. split; [exact E|]. split; [exact H|]. vm_compute in E. injection E as <-.
    split; vm_compute; reflexivity.
Defined.

(** ** What a client can do to the server *)

Lemma fmt_prec_length n b : (n <= length (fmt_prec n b))%nat.
Proof. unfold fmt_prec. rewrite length_app, length_replicate. lia. Qed.


