(* ===== verification/IoMem.v ===== *)
(** * IoMem: the raw memory access utility io.c.

    [memread_memory], [write_memory] and [main], on a machine whose long has 64
    bits.  Physical memory is reached through the pages that are mapped; an access
    outside of them is a fault. *)
From S2P Require Import Prelude Libc Files GetNum.
Local Open Scope Z_scope.

(** ** Accesses *)

(** The [k]-byte little-endian word at offset [i] of the mapped pages. *)
Definition load (mem : bytes) (i : Z) (k : nat) : option Z :=
  if (0 <=? i) && (i + Z.of_nat k <=? Z.of_nat (length mem))
  then Some (le_word (slice mem (Z.to_nat i) k)) else None.

Definition store (mem : bytes) (i : Z) (k : nat) (v : Z) : option bytes :=
  if (0 <=? i) && (i + Z.of_nat k <=? Z.of_nat (length mem))
  then Some (splice mem (Z.to_nat i) (le_bytes k (wrap_u (8 * Z.of_nat k) v))) else None.

(** What the casts of the source access for an access size: [unsigned char],
    [unsigned short], [unsigned long]. *)
Definition cast_size (iosize : Z) : nat :=
  if iosize =? 1 then 1 else if iosize =? 2 then 2 else 8.

(** [printf] of [%0nx] and [%0nlx]. *)
Definition hex (w : nat) (v : Z) : bytes :=
  let t := text 16 v in replicate (w - length t) 48 ++ t.

(** A row of the dump: the inner loop of [memread_memory] from [i] on.  The results
    are the words, the offset and the length that remain. *)
Fixpoint read_row (fuel : nat) (mem : bytes) (addr len iosize i : Z) : option (list Z * Z * Z) :=
  match fuel with
  | O => None
  | S f =>
      if (i <? 16) && negb (len =? 0) then
        w ← load mem addr (cast_size iosize);
        '(ws, addr', len') ← read_row f mem (addr + iosize) (len - iosize) iosize (i + iosize);
        Some (w :: ws, addr', len')
      else Some ([], addr, len)
  end.

(** The outer loop: the rows, each with the address printed in front of it. *)
Fixpoint memread_rows (fuel : nat) (mem : bytes) (phys_addr addr len iosize : Z) :
    option (list (Z * list Z)) :=
  match fuel with
  | O => None
  | S f =>
      if len =? 0 then Some []
      else
        '(ws, addr', len') ← read_row (S (length mem)) mem addr len iosize 0;
        rest ← memread_rows f mem (wrap_u 64 (phys_addr + 16)) addr' len' iosize;
        Some ((phys_addr, ws) :: rest)
  end.

(** The text of a row. *)
Definition print_row (iosize : Z) (row : Z * list Z) : bytes :=
  hex 8 row.1 ++ str ": " ++
  concat (map (fun w => 32 :: hex (Z.to_nat (2 * iosize)) w) row.2) ++ [10].

(** [memread_memory]: what it prints, or a fault.  Every turn of a loop moves on in
    the pages by at least a byte. *)
Definition memread_memory (mem : bytes) (phys_addr addr len iosize : Z) : option bytes :=
  rows ← memread_rows (S (length mem)) mem phys_addr addr len iosize;
  Some (concat (map (print_row iosize) rows)).

Fixpoint write_loop (fuel : nat) (mem : bytes) (addr len iosize value : Z) : option bytes :=
  match fuel with
  | O => None
  | S f =>
      if len =? 0 then Some mem
      else
        mem' ← store mem addr (cast_size iosize) value;
        write_loop f mem' (addr + iosize) (len - iosize) iosize value
  end.

(** [write_memory]. *)
Definition write_memory (mem : bytes) (addr len iosize value : Z) : option bytes :=
  write_loop (S (length mem)) mem addr len iosize value.

(** ** The command line *)

(** What getopt delivers for [hv124rwl:f:]; [OptBad] is ['?']. *)
Inductive gopt := Opt (c : Z) | OptArg (c : Z) (arg : bytes) | OptBad.

Definition takes_arg (c : Z) : bool := (c =? 108) || (c =? 102).
Definition plain_opt (c : Z) : bool := bool_decide (c ∈ str "hv124rw").

(** The letters of one argument, with the arguments behind it. *)
Fixpoint letters (cs : bytes) (next : list bytes) : list gopt * list bytes :=
  match cs with
  | [] => ([], next)
  | c :: cs' =>
      if takes_arg c then
        match cs', next with
        | _ :: _, _ => ([OptArg c cs'], next)
        | [], a :: next' => ([OptArg c a], next')
        | [], [] => ([OptBad], [])
        end
      else
        let '(os, next') := letters cs' next in
        ((if plain_opt c then Opt c else OptBad) :: os, next')
  end.

(** The arguments after the program's name: the options, and the operands, which
    getopt moves behind them. *)
Fixpoint getopt (fuel : nat) (args ops : list bytes) : list gopt * list bytes :=
  match fuel, args with
  | O, _ | _, [] => ([], ops)
  | S f, a :: args' =>
      if bool_decide (a = str "--") then ([], ops ++ args')
      else
        match a with
        | 45 :: c :: cs =>
            let '(os, next) := letters (c :: cs) args' in
            let '(os', ops') := getopt f next ops in (os ++ os', ops')
        | _ => getopt f args' (ops ++ [a])
        end
  end.

(** ** main *)

(** How the program stops before it has touched memory. *)
Inductive stop :=
| Usage | UnknownOption | BadSize | NoAddress | BadAddress | FilenameAndValue | NoValue | BadValue
| ValueTooLarge | NoSize | TooMany | FileError | SeekError | AddrAlign | SizeAlign | TopPage
| WrapsAround | DevMem | MmapFailed | Aborted.

(** The variables set by the options. *)
Record opts := mkOpts {
  memread : bool; iosize : Z; req_len : Z; filename : option bytes; verbose : bool }.

Definition opts0 : opts := mkOpts true 1 0 None false.

(** [strtoul(s, &endptr, 0)] with the test of [*endptr]. *)
Definition number_arg (bad : stop) (s : bytes) : stop + Z :=
  let '(v, endptr, _) := strtoul s 0 in
  if bool_decide (endptr = []) then inr v else inl bad.

Definition option1 (o : opts) (g : gopt) : stop + opts :=
  match g with
  | OptBad => inl UnknownOption
  | Opt c =>
      if c =? 104 then inl Usage
      else if c =? 118 then inr (mkOpts (memread o) (iosize o) (req_len o) (filename o) true)
      else if c =? 114 then inr (mkOpts true (iosize o) (req_len o) (filename o) (verbose o))
      else if c =? 119 then inr (mkOpts false (iosize o) (req_len o) (filename o) (verbose o))
      else inr (mkOpts (memread o) (c - 48) (req_len o) (filename o) (verbose o))
  | OptArg c arg =>
      if c =? 108 then
        match number_arg BadSize arg with
        | inl e => inl e
        | inr v => inr (mkOpts (memread o) (iosize o) (wrap_s 32 v) (filename o) (verbose o))
        end
      else inr (mkOpts (memread o) (iosize o) (req_len o) (Some arg) (verbose o))
  end.

Fixpoint option_loop (o : opts) (gs : list gopt) : stop + opts :=
  match gs with
  | [] => inr o
  | g :: gs' => match option1 o g with inl e => inl e | inr o' => option_loop o' gs' end
  end.

(** What is to be done: the options, the address and the value. *)
Record job := mkJob { j_opts : opts; req_addr : Z; req_value : Z }.

(** The command line of [main], up to the files. *)
Definition parse_args (args : list bytes) : stop + job :=
  match args with
  | [] => inl Usage
  | _ =>
      let '(gs, ops) := getopt (length args) args [] in
      match option_loop opts0 gs with
      | inl e => inl e
      | inr o =>
          match ops with
          | [] => inl NoAddress
          | a :: ops =>
              match number_arg BadAddress a with
              | inl e => inl e
              | inr addr =>
                  let nofile := bool_decide (filename o = None) in
                  let rd := if nofile && negb (bool_decide (ops = [])) then false else memread o in
                  let o := mkOpts rd (iosize o) (req_len o) (filename o) (verbose o) in
                  (* "Filename AND value given" asks for optind > argc, which cannot be *)
                  if nofile && negb rd then
                    match ops with
                    | [] => inl NoValue
                    | v :: ops =>
                        match number_arg BadValue v with
                        | inl e => inl e
                        | inr value =>
                            if ((iosize o =? 1) && negb (Z.land value 0xffffff00 =? 0)) ||
                               ((iosize o =? 2) && negb (Z.land value 0xffff0000 =? 0))
                            then inl ValueTooLarge
                            else if bool_decide (ops = []) then inr (mkJob o addr value) else inl TooMany
                        end
                    end
                  else if negb nofile && rd && (req_len o =? 0) then inl NoSize
                  else if bool_decide (ops = []) then inr (mkJob o addr 0) else inl TooMany
              end
          end
      end
  end.

(** What the system answers: whether the file can be opened; its length for lseek
    (negative: an error); whether /dev/mem can be opened and mapped; the answer to
    [OK?]. *)
Record answers := mkAns {
  a_file : bool; a_size : Z; a_mem : bool; a_mmap : bool; a_char : Z }.

(** The region to map and the request inside it. *)
Record plan := mkPlan {
  p_job : job; p_len : Z; real_addr : Z; real_len : Z; offset : Z }.

(** [main] from the opening of the file to the access. *)
Definition prepare (a : answers) (j : job) : stop + plan :=
  let o := j_opts j in
  let file := negb (bool_decide (filename o = None)) in
  if file && negb (a_file a) then inl FileError
  else
    let seek := file && (req_len o =? 0) in
    let len := if seek then wrap_s 32 (a_size a) else req_len o in
    if seek && (len <? 0) then inl SeekError
    else
      let len := if len =? 0 then iosize o else len in
      if ((iosize o =? 2) && negb (Z.land (req_addr j) 1 =? 0)) ||
         ((iosize o =? 4) && negb (Z.land (req_addr j) 3 =? 0)) then inl AddrAlign
      else if ((iosize o =? 2) && negb (Z.land len 1 =? 0)) ||
              ((iosize o =? 4) && negb (Z.land len 3 =? 0)) then inl SizeAlign
      else
        let ra := Z.land (req_addr j) (wrap_u 64 (Z.lnot 4095)) in
        if ra =? 0xfffff000 then inl TopPage
        else
          let off := wrap_u 64 (req_addr j - ra) in
          let rl := wrap_u 64 (len + off) in
          let rl := Z.land (wrap_u 64 (rl + 4095)) (wrap_u 64 (Z.lnot 4095)) in
          if wrap_u 64 (ra + rl) <? ra then inl WrapsAround
          else if negb (a_mem a) then inl DevMem
          else if negb (a_mmap a) then inl MmapFailed
          else if verbose o && negb ((a_char a =? 121) || (a_char a =? 89)) then inl Aborted
          else inr (mkPlan j len ra rl off).

(** The access itself: the text printed and the pages afterwards, or a fault.  With
    a file, [moved] is what the write or read of the file returns and [data] what a
    read brings; anything but the length asked for is reported. *)
Inductive finish := Done (out : bytes) (mem : bytes) | FileFailed (mem : bytes) | Fault.

Definition access (p : plan) (mem : bytes) (moved : Z) (data : bytes) : finish :=
  let o := j_opts (p_job p) in
  match filename o, memread o with
  | Some _, true => if moved =? p_len p then Done [] mem else FileFailed mem
  | Some _, false =>
      let mem' := splice mem (Z.to_nat (offset p)) data in
      if moved =? p_len p then Done [] mem' else FileFailed mem'
  | None, true =>
      match memread_memory mem (req_addr (p_job p)) (offset p) (p_len p) (iosize o) with
      | Some out => Done out mem | None => Fault
      end
  | None, false =>
      match write_memory mem (offset p) (p_len p) (iosize o) (req_value (p_job p)) with
      | Some mem' => Done [] mem' | None => Fault
      end
  end.
