(* ===== verification/IoTheorems.v ===== *)
(** * IoTheorems: properties of io.c. *)
From S2P Require Import Prelude Libc Files GetNum IoMem.
Local Open Scope Z_scope.

(** ** The command line *)

Lemma wrap_u_bound w z : 0 <= w -> 0 <= wrap_u w z < 2 ^ w.
Proof. intros. apply Z.mod_pos_bound. by apply Z.pow_pos_nonneg. Qed.

Lemma digits_nonneg base acc any s :
  0 <= acc -> 0 <= base -> 0 <= (digits base acc any s).1.1.
Proof.
  revert acc any. induction s as [|c s IH]; intros acc any Ha Hb; simpl; [done|].
  destruct (digit_val c) as [d|] eqn:Ed; [|done]. case_if; [|done]. apply IH; [|done].
  assert (0 <= d); [|nia]. unfold digit_val in Ed.
  repeat match type of Ed with context [if ?b then _ else _] => destruct b eqn:?; bool_to_prop end;
    simplify_eq; lia.
Qed.

Lemma number_arg_bound bad s v : number_arg bad s = inr v -> 0 <= v < 2 ^ 64.
Proof.
  unfold number_arg, strtoul. destruct (number 0 s) as [[[neg m] rest]|]; [|by case_bool_decide; intros; simplify_eq].
  case_if; case_bool_decide; intros; simplify_eq; [unfold ULONG_MAX; lia|].
  by apply wrap_u_bound.
Qed.

Definition io_size (z : Z) : Prop := z = 1 \/ z = 2 \/ z = 4.

(** The options that getopt can deliver. *)
Definition gopt_ok (g : gopt) : Prop := match g with Opt c => c ∈ str "hv124rw" | _ => True end.

Lemma letters_ok cs next : Forall gopt_ok (letters cs next).1.
Proof.
  revert next. induction cs as [|c cs IH]; intros next; simpl; [done|].
  case_if; [destruct cs; [destruct next|]; by repeat constructor|].
  specialize (IH next). destruct (letters cs next) as [os next']. simpl in *. constructor; [|done].
  unfold plain_opt. by case_bool_decide.
Qed.

Lemma getopt_ok f args ops : Forall gopt_ok (getopt f args ops).1.
Proof.
  revert args ops. induction f as [|f IH]; intros args ops; [by destruct args|].
  destruct args as [|a args]; [done|]. cbn [getopt]. case_bool_decide; [done|].
  destruct a as [|x [|c cs]]; [apply IH| |].
  - destruct x as [|p|p]; [apply IH| |apply IH]. do 6 (destruct p as [p|p|]; try apply IH).
  - assert (Hl : Forall gopt_ok (let '(os, next) := letters (c :: cs) args in
      let '(os', ops') := getopt f next ops in (os ++ os', ops')).1).
    { pose proof (letters_ok (c :: cs) args) as Hx. destruct (letters (c :: cs) args) as [os next].
      specialize (IH next ops). destruct (getopt f next ops) as [os' ops']. by apply Forall_app. }
    destruct x as [|p|p]; [apply IH| |apply IH]. do 6 (destruct p as [p|p|]; try apply IH). apply Hl.
Qed.

Definition opts_ok (o : opts) : Prop := io_size (iosize o) /\ - 2 ^ 31 <= req_len o < 2 ^ 31.

Lemma wrap_s32_bound z : - 2 ^ 31 <= wrap_s 32 z < 2 ^ 31.
Proof. unfold wrap_s. pose proof (Z.mod_pos_bound (z + 2 ^ (32 - 1)) (2 ^ 32)). lia. Qed.

Lemma option_loop_ok gs o o' :
  Forall gopt_ok gs -> opts_ok o -> option_loop o gs = inr o' -> opts_ok o'.
Proof.
  intros H. revert o. induction H as [|g gs Hg _ IH]; intros o Ho E; simpl in E; [by simplify_eq|].
  destruct (option1 o g) as [e|o1] eqn:E1; [done|]. apply (IH o1); [|done].
  destruct Ho as [Hio Hlen]. destruct g as [c|c arg|]; simpl in E1; [| |done].
  - unfold gopt_ok in Hg. change (str "hv124rw") with [104; 118; 49; 50; 52; 114; 119] in Hg.
    repeat (apply elem_of_cons in Hg as [->|Hg];
      [simpl in E1; simplify_eq; split; simpl; unfold io_size in *; lia|]).
    by apply not_elem_of_nil in Hg.
  - case_match; [case_match|]; simplify_eq; split; try done. apply wrap_s32_bound.
Qed.

(** What an accepted command line gives. *)
Lemma parse_args_spec args j :
  parse_args args = inr j -> opts_ok (j_opts j) /\ 0 <= req_addr j < 2 ^ 64 /\
    0 <= req_value j < 2 ^ 64.
Proof.
  unfold parse_args. destruct args as [|a0 args]; [done|]. intros H.
  pose proof (getopt_ok (length (a0 :: args)) (a0 :: args) []) as Hok.
  destruct (getopt (length (a0 :: args)) (a0 :: args) []) as [gs ops].
  destruct (option_loop opts0 gs) as [e|o] eqn:Eo; [done|].
  assert (Hs : opts_ok o).
  { apply (option_loop_ok gs opts0 o Hok); [|exact Eo]. split; [by left|]. unfold opts0. cbn [req_len]. lia. }
  destruct ops as [|a ops]; [done|].
  destruct (number_arg BadAddress a) as [e|addr] eqn:Ea; [done|]. apply number_arg_bound in Ea.
  revert H. generalize (if bool_decide (filename o = None) && negb (bool_decide (ops = [])) then false else memread o).
  intros rd H. cbn [iosize req_len filename verbose] in H.
  destruct (bool_decide (filename o = None) && negb rd).
  - destruct ops as [|v ops]; [done|]. destruct (number_arg BadValue v) as [e|value] eqn:Ev; [done|].
    apply number_arg_bound in Ev. case_match; [done|]. case_match; by simplify_eq.
  - case_match; [done|]. case_match; by simplify_eq.
Qed.

(** ** The mapping *)

Lemma land_mask z : 0 <= z < 2 ^ 64 -> Z.land z (wrap_u 64 (Z.lnot 4095)) = z - z mod 4096.
Proof.
  intros Hz. change (wrap_u 64 (Z.lnot 4095)) with (Z.shiftl (Z.ones 52) 12).
  assert (E : Z.land z (Z.shiftl (Z.ones 52) 12) = Z.shiftl (Z.land (Z.shiftr z 12) (Z.ones 52)) 12).
  { apply Z.bits_inj'. intros n Hn. rewrite Z.land_spec.
    destruct (Z.ltb_spec n 12).
    - rewrite !Z.shiftl_spec_low by lia. apply andb_false_r.
    - rewrite !Z.shiftl_spec_high by lia. rewrite Z.land_spec, Z.shiftr_spec by lia.
      by replace (n - 12 + 12) with n by lia. }
  rewrite E, Z.land_ones, Z.shiftr_div_pow2, Z.shiftl_mul_pow2 by lia.
  rewrite Z.mod_small.
  - change (2 ^ 12) with 4096. pose proof (Z.div_mod z 4096). lia.
  - split; [apply Z.div_pos; lia|]. apply Z.div_lt_upper_bound; [lia|]. change (2 ^ 12 * 2 ^ 52) with (2 ^ 64). lia.
Qed.

Lemma land_low z k : 0 <= k -> Z.land z (Z.ones k) = z mod 2 ^ k.
Proof. apply Z.land_ones. Qed.

(** An alignment test of [prepare] that has been passed. *)
Lemma aligned sz z :
  io_size sz -> ((sz =? 2) && negb (Z.land z 1 =? 0)) || ((sz =? 4) && negb (Z.land z 3 =? 0)) = false ->
  z mod sz = 0.
Proof.
  change 1 with (Z.ones 1) at 1. change 3 with (Z.ones 2). rewrite !Z.land_ones by lia.
  intros [->|[->| ->]] H; [apply Z.mod_1_r|..]; simpl in H; by bool_to_prop.
Qed.

(** What [prepare] has computed when it succeeds. *)
Lemma prepare_spec a j p :
  prepare a j = inr p -> opts_ok (j_opts j) ->
  p_job p = j /\ - 2 ^ 31 <= p_len p < 2 ^ 31 /\ p_len p <> 0 /\
  real_addr p = Z.land (req_addr j) (wrap_u 64 (Z.lnot 4095)) /\
  offset p = wrap_u 64 (req_addr j - real_addr p) /\
  real_len p = Z.land (wrap_u 64 (wrap_u 64 (p_len p + offset p) + 4095)) (wrap_u 64 (Z.lnot 4095)) /\
  real_addr p <= wrap_u 64 (real_addr p + real_len p) /\
  req_addr j mod iosize (j_opts j) = 0 /\ p_len p mod iosize (j_opts j) = 0.
Proof.
  unfold prepare. intros Hp [Hio Hr].
  set (file := negb (bool_decide (filename (j_opts j) = None))) in Hp.
  set (len0 := if file && (req_len (j_opts j) =? 0) then wrap_s 32 (a_size a) else req_len (j_opts j)) in Hp.
  assert (Hlen0 : - 2 ^ 31 <= len0 < 2 ^ 31) by (unfold len0; case_if; [apply wrap_s32_bound|done]).
  assert (Hlen : let l := if len0 =? 0 then iosize (j_opts j) else len0 in - 2 ^ 31 <= l < 2 ^ 31 /\ l <> 0).
  { simpl. destruct (Z.eqb_spec len0 0); [unfold io_size in Hio; lia|lia]. }
  set (len := if len0 =? 0 then iosize (j_opts j) else len0) in Hp, Hlen.
  clearbody len len0 file. cbv zeta in Hp, Hlen.
  repeat match type of Hp with
    | (if ?b then inl _ else _) = inr _ => let E := fresh "E" in destruct b eqn:E; [discriminate Hp|]
    end.
  injection Hp as <-. cbn [p_job p_len real_addr offset real_len].
  split_and!; try done; try lia; by apply aligned.
Qed.

(** C29: The pages that are mapped hold the whole request: for every command line
    that is accepted and whose length is positive, the mapping starts at the page
    boundary at or below the address, does not wrap around the address space, and
    contains the requested bytes at the computed offset; address and length are
    multiples of the access size. *)
Theorem io_request_in_mapping args a j p :
  parse_args args = inr j -> prepare a j = inr p -> 0 < p_len p ->
  real_addr p mod 4096 = 0 /\ real_len p mod 4096 = 0 /\ 0 <= offset p < 4096 /\
  0 <= real_addr p /\ real_addr p + offset p = req_addr j /\
  offset p + p_len p <= real_len p /\ real_addr p + real_len p < 2 ^ 64 /\
  io_size (iosize (j_opts j)) /\
  req_addr j mod iosize (j_opts j) = 0 /\ p_len p mod iosize (j_opts j) = 0.
Proof.
  intros (Hok & Ha & _)%parse_args_spec Hp Hlen.
  destruct (prepare_spec a j p Hp Hok) as (_ & Hl & _ & Er & Eo & El & Hw & A1 & A2).
  rewrite land_mask in Er by done.
  assert (Hm := Z.mod_pos_bound (req_addr j) 4096 ltac:(lia)).
  assert (Ho : offset p = req_addr j mod 4096).
  { rewrite Eo, Er. unfold wrap_u. rewrite Z.mod_small; lia. }
  assert (Hs : wrap_u 64 (p_len p + offset p) = p_len p + offset p).
  { unfold wrap_u. rewrite Z.mod_small; lia. }
  rewrite Hs in El.
  assert (Hs' : wrap_u 64 (p_len p + offset p + 4095) = p_len p + offset p + 4095).
  { unfold wrap_u. rewrite Z.mod_small; lia. }
  rewrite Hs', land_mask in El by lia.
  assert (Hm2 := Z.mod_pos_bound (p_len p + offset p + 4095) 4096 ltac:(lia)).
  assert (Hpage : forall z, (z - z mod 4096) mod 4096 = 0).
  { intros z. rewrite Zminus_mod_idemp_r. by rewrite Z.sub_diag. }
  assert (Hnw : real_addr p + real_len p < 2 ^ 64).
  { destruct (Z.lt_ge_cases (real_addr p + real_len p) (2 ^ 64)) as [?|Hge]; [done|exfalso].
    assert (real_addr p + real_len p < 2 * 2 ^ 64) by lia.
    unfold wrap_u in Hw. rewrite <- (Z_mod_plus_full (real_addr p + real_len p) (-1)), Z.mod_small in Hw; lia. }
  destruct Hok as [Hio _]. assert (Hle := Z.mod_le (req_addr j) 4096 ltac:(lia) ltac:(lia)).
  split; [rewrite Er; apply Hpage|]. split; [rewrite El; apply Hpage|].
  split; [lia|]. split; [lia|]. split; [lia|]. split; [lia|]. split; [exact Hnw|].
  split; [exact Hio|]. split; [exact A1|exact A2].
Qed.

Lemma io_request_in_mapping_witness :
  parse_args (map str ["-2"; "-l"; "8"; "0x1ffc"]%string) = inr (mkJob (mkOpts true 2 8 None false) 0x1ffc 0) /\
  exists p, prepare (mkAns false 0 true true 0) (mkJob (mkOpts true 2 8 None false) 0x1ffc 0) = inr p /\
    offset p + p_len p <= real_len p /\ real_len p = 8192.
Proof.
  split; [reflexivity|].
  exists (mkPlan (mkJob (mkOpts true 2 8 None false) 0x1ffc 0) 8 0x1000 8192 0xffc).
  split; [reflexivity|]. split; [|reflexivity].
  apply (io_request_in_mapping (map str ["-2"; "-l"; "8"; "0x1ffc"]%string) (mkAns false 0 true true 0)
    (mkJob (mkOpts true 2 8 None false) 0x1ffc 0)); [reflexivity|reflexivity|simpl; lia].
Defined.

(** ** Accesses *)

Abbreviation zlen b := (Z.of_nat (length b)).

(** The first [n] words of [k] bytes. *)
Fixpoint words (k : nat) (r : bytes) (n : nat) : list Z :=
  match n with O => [] | S n' => le_word (take k r) :: words k (drop k r) n' end.

(** A word [n] times. *)
Definition fill (k n : nat) (v : Z) : bytes :=
  concat (replicate n (le_bytes k (wrap_u (8 * Z.of_nat k) v))).

Lemma load_at (a r : bytes) k :
  (k <= length r)%nat -> load (a ++ r) (zlen a) k = Some (le_word (take k r)).
Proof.
  intros H. unfold load. rewrite length_app.
  rewrite (proj2 (Z.leb_le 0 _)), (proj2 (Z.leb_le _ _)) by lia. cbn [andb].
  unfold slice. by rewrite Nat2Z.id, drop_app_length.
Qed.

Lemma store_at (a r : bytes) k v :
  (k <= length r)%nat ->
  store (a ++ r) (zlen a) k v = Some (a ++ le_bytes k (wrap_u (8 * Z.of_nat k) v) ++ drop k r).
Proof.
  intros H. unfold store. rewrite length_app.
  rewrite (proj2 (Z.leb_le 0 _)), (proj2 (Z.leb_le _ _)) by lia. cbn [andb].
  by rewrite Nat2Z.id, splice_mid, length_le_bytes.
Qed.

Lemma store_fault mem i k v : zlen mem < i + Z.of_nat k -> store mem i k v = None.
Proof. intros H. unfold store. rewrite (proj2 (Z.leb_gt (i + Z.of_nat k) _)) by done. by rewrite andb_false_r. Qed.

Lemma load_fault mem i k : zlen mem < i + Z.of_nat k -> load mem i k = None.
Proof. intros H. unfold load. rewrite (proj2 (Z.leb_gt (i + Z.of_nat k) _)) by done. by rewrite andb_false_r. Qed.

(** Access sizes 1 and 2 are those of the casts. *)
Definition byte_or_short (k : nat) : Prop := k = 1%nat \/ k = 2%nat.

Lemma cast_size_eq k : byte_or_short k -> cast_size (Z.of_nat k) = k.
Proof. by intros [->| ->]. Qed.

Lemma write_loop_spec k n v : byte_or_short k -> forall f a r,
  (n < f)%nat -> (k * n <= length r)%nat ->
  write_loop f (a ++ r) (zlen a) (Z.of_nat (k * n)) (Z.of_nat k) v =
  Some (a ++ fill k n v ++ drop (k * n) r).
Proof.
  intros Hk. induction n as [|n IH]; intros f a r Hf Hr; (destruct f as [|f]; [lia|]); cbn [write_loop].
  { rewrite Nat.mul_0_r. done. }
  assert (0 < k)%nat by (destruct Hk; lia).
  rewrite (proj2 (Z.eqb_neq _ _)), cast_size_eq by (done || nia).
  rewrite store_at by nia. cbn [mbind option_bind].
  rewrite app_assoc. set (w := le_bytes k (wrap_u (8 * Z.of_nat k) v)).
  assert (Hw : length w = k) by apply length_le_bytes.
  replace (zlen a + Z.of_nat k) with (zlen (a ++ w)) by len.
  replace (Z.of_nat (k * S n) - Z.of_nat k) with (Z.of_nat (k * n)) by lia.
  rewrite IH by (try rewrite length_drop; lia). f_equal. rewrite drop_drop.
  unfold fill. cbn [replicate concat]. fold w. rewrite <- !app_assoc. do 4 f_equal. lia.
Qed.

(** Access size 4 stores eight bytes at a time. *)
Lemma write_loop_long n v : forall f a r,
  (0 < n)%nat -> (n < f)%nat -> (4 * n + 4 <= length r)%nat ->
  write_loop f (a ++ r) (zlen a) (Z.of_nat (4 * n)) 4 v =
  Some (a ++ concat (replicate n (take 4 (le_bytes 8 (wrap_u 64 v)))) ++
        drop 4 (le_bytes 8 (wrap_u 64 v)) ++ drop (4 * n + 4) r).
Proof.
  induction n as [|n IH]; intros f a r Hn Hf Hr; [lia|]. destruct f as [|f]; [lia|]. cbn [write_loop].
  rewrite (proj2 (Z.eqb_neq _ _)) by lia. change (cast_size 4) with 8%nat.
  rewrite store_at by lia. cbn [mbind option_bind]. change (8 * Z.of_nat 8) with 64.
  set (w := le_bytes 8 (wrap_u 64 v)). assert (Hw : length w = 8%nat) by apply length_le_bytes.
  rewrite <- (take_drop 4 w) at 1. rewrite <- app_assoc, app_assoc.
  replace (zlen a + 4) with (zlen (a ++ take 4 w)) by len.
  replace (Z.of_nat (4 * S n) - 4) with (Z.of_nat (4 * n)) by lia.
  destruct n as [|n].
  - destruct f as [|f]; [lia|]. cbn [write_loop Nat.mul Z.of_nat Z.eqb replicate concat].
    rewrite app_nil_r, <- !app_assoc. done.
  - rewrite IH by len. f_equal. cbn [replicate concat]. fold w. rewrite <- !app_assoc. do 3 f_equal.
    rewrite drop_app_ge by len. rewrite drop_drop, length_drop, Hw.
    do 3 f_equal. lia.
Qed.

(** A negative length is never counted down to zero. *)
Lemma write_loop_negative f mem addr len sz v :
  len < 0 -> 0 < sz -> write_loop f mem addr len sz v = None.
Proof.
  revert mem addr len. induction f as [|f IH]; intros mem addr len Hl Hs; [done|]. cbn [write_loop].
  rewrite (proj2 (Z.eqb_neq _ _)) by lia. destruct (store mem addr (cast_size sz) v); [|done].
  cbn [mbind option_bind]. apply IH; lia.
Qed.

Lemma read_row_negative f mem addr len sz i ws a' l' :
  len < 0 -> 0 < sz -> read_row f mem addr len sz i = Some (ws, a', l') -> l' < 0.
Proof.
  revert addr len i ws a' l'. induction f as [|f IH]; intros addr len i ws a' l' Hl Hs H; [done|].
  cbn [read_row] in H. destruct ((i <? 16) && negb (len =? 0)); [|by simplify_eq].
  destruct (load mem addr (cast_size sz)); [|done]. cbn [mbind option_bind] in H.
  destruct (read_row f mem (addr + sz) (len - sz) sz (i + sz)) as [[[ws1 a1] l1]|] eqn:E; [|done].
  simplify_eq/=. apply IH in E; lia.
Qed.

Lemma memread_rows_negative f mem pa addr len sz :
  len < 0 -> 0 < sz -> memread_rows f mem pa addr len sz = None.
Proof.
  revert pa addr len. induction f as [|f IH]; intros pa addr len Hl Hs; [done|]. cbn [memread_rows].
  rewrite (proj2 (Z.eqb_neq _ _)) by lia.
  destruct (read_row (S (length mem)) mem addr len sz 0) as [[[ws a1] l1]|] eqn:E; [|done].
  cbn [mbind option_bind]. rewrite IH; [done| |done]. by eapply read_row_negative.
Qed.

(** ** Dumps *)

Lemma read_row_spec k q : byte_or_short k -> forall n f a r,
  (n `min` q < f)%nat -> (k * n <= length r)%nat ->
  read_row f (a ++ r) (zlen a) (Z.of_nat (k * n)) (Z.of_nat k) (16 - Z.of_nat (k * q)) =
  Some (words k r (n `min` q), zlen a + Z.of_nat (k * (n `min` q)), Z.of_nat (k * (n - n `min` q))).
Proof.
  intros Hk. assert (0 < k)%nat by (destruct Hk; lia).
  induction q as [|q IH]; intros n f a r Hf Hr; (destruct f as [|f]; [lia|]); cbn [read_row].
  { rewrite (proj2 (Z.ltb_ge _ _)) by lia. cbn [andb]. rewrite Nat.min_0_r. cbn [words].
    do 3 f_equal; lia. }
  rewrite (proj2 (Z.ltb_lt _ _)) by nia. cbn [andb]. destruct n as [|n].
  { rewrite Nat.mul_0_r. cbn. do 3 f_equal; lia. }
  rewrite (proj2 (Z.eqb_neq _ _)) by nia. cbn [negb]. rewrite cast_size_eq by done.
  rewrite load_at by nia. cbn [mbind option_bind].
  rewrite <- (take_drop k r) at 1. rewrite app_assoc.
  assert (Ht : length (take k r) = k) by (rewrite length_take; nia).
  replace (zlen a + Z.of_nat k) with (zlen (a ++ take k r)) by (rewrite length_app, Ht; lia).
  replace (Z.of_nat (k * S n) - Z.of_nat k) with (Z.of_nat (k * n)) by lia.
  replace (16 - Z.of_nat (k * S q) + Z.of_nat k) with (16 - Z.of_nat (k * q)) by lia.
  rewrite IH by (rewrite ?length_drop; nia). cbn [mbind option_bind Nat.min words Nat.sub].
  do 3 f_equal. rewrite length_app, Ht. lia.
Qed.

(** The words of a dump in rows of [per], with the address of each row. *)
Fixpoint rows_of (fuel per : nat) (pa : Z) (ws : list Z) : list (Z * list Z) :=
  match fuel, ws with
  | O, _ | _, [] => []
  | S f, _ => (pa, take per ws) :: rows_of f per (wrap_u 64 (pa + 16)) (drop per ws)
  end.

Lemma length_words k r n : length (words k r n) = n.
Proof. revert r. induction n as [|n IH]; intros r; simpl; [done|]. by rewrite IH. Qed.

Lemma words_take_drop k n m r :
  (m <= n)%nat -> take m (words k r n) = words k r m /\ drop m (words k r n) = words k (drop (k * m) r) (n - m).
Proof.
  revert n r. induction m as [|m IH]; intros n r Hm.
  { rewrite Nat.mul_0_r, Nat.sub_0_r. done. }
  destruct n as [|n]; [lia|]. simpl. destruct (IH n (drop k r) ltac:(lia)) as [-> ->].
  split; [done|]. rewrite drop_drop. do 2 f_equal. lia.
Qed.

Lemma memread_rows_spec k n : byte_or_short k -> forall f pa a r,
  (n < f)%nat -> (k * n <= length r)%nat ->
  memread_rows f (a ++ r) pa (zlen a) (Z.of_nat (k * n)) (Z.of_nat k) =
  Some (rows_of f (16 / k) pa (words k r n)).
Proof.
  intros Hk. induction n as [n IH] using lt_wf_ind. intros f pa a r Hf Hr.
  assert (Hkq : (k * (16 / k) = 16 /\ 0 < 16 / k <= 16 /\ 0 < k)%nat) by (destruct Hk as [->| ->]; simpl; lia).
  destruct f as [|f]; [lia|]. cbn [memread_rows rows_of]. destruct n as [|n].
  { rewrite Nat.mul_0_r. done. }
  rewrite (proj2 (Z.eqb_neq _ _)) by nia.
  pose proof (read_row_spec k (16 / k) Hk (S n) (S (length (a ++ r))) a r) as Hrow.
  rewrite (proj1 Hkq) in Hrow. change (16 - Z.of_nat 16) with 0 in Hrow.
  rewrite Hrow; [|rewrite length_app; nia|done]. cbn [mbind option_bind].
  set (m := (S n `min` (16 / k))%nat). assert (Hm : (0 < m <= S n)%nat) by lia.
  rewrite <- (take_drop (k * m) r) at 1. rewrite app_assoc.
  assert (Ht : length (take (k * m) r) = (k * m)%nat) by (rewrite length_take; nia).
  replace (zlen a + Z.of_nat (k * m)) with (zlen (a ++ take (k * m) r)) by (rewrite length_app, Ht; lia).
  rewrite IH; [|lia|lia|rewrite length_drop; nia]. cbn [mbind option_bind].
  destruct (words_take_drop k (S n) m r (proj2 Hm)) as [E1 E2].
  assert (Ew : take (16 / k) (words k r (S n)) = take m (words k r (S n)) /\
    drop (16 / k) (words k r (S n)) = drop m (words k r (S n))).
  { unfold m. destruct (decide (16 / k <= S n)%nat); [by rewrite Nat.min_r|].
    rewrite Nat.min_l by lia. by rewrite !take_ge, !drop_ge by (rewrite length_words; lia). }
  destruct Ew as [Ew1 Ew2]. rewrite Ew1, Ew2, E1, E2. cbn [words]. done.
Qed.

(** Writing and reading memory agree and touch nothing else: with access sizes 1
    and 2, an accepted write of [n] words inside the mapped pages stores the value
    in exactly the requested bytes, and a dump of them prints, row by row with the
    right addresses, the words that are there, each of them the value that was
    written. *)
Lemma io_write_then_dump k n v (a r : bytes) pa :
  byte_or_short k -> (k * n <= length r)%nat -> 0 <= v < 2 ^ (8 * Z.of_nat k) ->
  let mem' := a ++ fill k n v ++ drop (k * n) r in
  write_memory (a ++ r) (zlen a) (Z.of_nat (k * n)) (Z.of_nat k) v = Some mem' /\
  memread_memory mem' pa (zlen a) (Z.of_nat (k * n)) (Z.of_nat k) =
    Some (concat (map (print_row (Z.of_nat k)) (rows_of (S (length mem')) (16 / k) pa (replicate n v)))).
Proof.
  intros Hk Hr Hv mem'. assert (0 < k)%nat by (destruct Hk; lia). split.
  - unfold write_memory. apply write_loop_spec; [done|rewrite length_app; nia|done].
  - assert (Hf : forall m, length (fill k m v) = (k * m)%nat).
    { intros m. unfold fill. induction m as [|m IH]; [simpl; lia|]. cbn [replicate concat].
      rewrite length_app, IH, length_le_bytes. lia. }
    unfold memread_memory, mem'. rewrite memread_rows_spec; [|done|rewrite !length_app, Hf; nia|rewrite length_app, Hf; lia].
    cbn [mbind option_bind]. do 5 f_equal. generalize (drop (k * n) r). clear -Hv.
    induction n as [|n IH]; intros t; [done|]. unfold fill. cbn [replicate concat words].
    rewrite <- app_assoc, take_app_le, take_ge by (rewrite length_le_bytes; done).
    rewrite le_word_bytes.
    + f_equal; [unfold wrap_u; by rewrite Z.mod_small|].
      rewrite drop_app_ge, length_le_bytes, Nat.sub_diag by (rewrite length_le_bytes; done). apply IH.
    + change 256 with (2 ^ 8). rewrite <- Z.pow_mul_r by lia. apply Z.mod_pos_bound. lia.
Qed.

Lemma io_write_then_dump_witness :
  write_memory (replicate 16 0 ++ replicate 32 0) 16 4 2 513 =
    Some (replicate 16 0 ++ [1; 2; 1; 2] ++ replicate 28 0) /\
  memread_memory (replicate 16 0 ++ [1; 2; 1; 2] ++ replicate 28 0) 0x1010 16 4 2 =
    Some (str "00001010:  0201 0201" ++ [10]).
Proof.
  apply (io_write_then_dump 2 2 513 (replicate 16 0) (replicate 32 0) 0x1010);
    [by right|simpl; lia|vm_compute; split; [discriminate|reflexivity]].
Defined.

(** Access size 4 is not what the options say on this machine, where the long
    that is stored has eight bytes: writing [n] words changes the four bytes behind
    the last word too, to the upper half of the value, and faults if the last word
    ends the mapped pages. *)
Lemma io_long_access_overruns n v (a r : bytes) :
  (0 < n)%nat -> (4 * n <= length r)%nat ->
  write_memory (a ++ r) (zlen a) (Z.of_nat (4 * n)) 4 v =
    if (4 * n + 4 <=? length r)%nat
    then Some (a ++ concat (replicate n (take 4 (le_bytes 8 (wrap_u 64 v)))) ++
               drop 4 (le_bytes 8 (wrap_u 64 v)) ++ drop (4 * n + 4) r)
    else None.
Proof.
  intros Hn Hr. unfold write_memory. destruct (Nat.leb_spec (4 * n + 4) (length r)) as [H|H].
  { apply write_loop_long; [done|rewrite length_app; lia|done]. }
  generalize (S (length (a ++ r))) as f. intros f. revert f a r Hr H.
  induction n as [|n IH]; intros f a r Hr H; [lia|]. destruct f as [|f]; [done|]. cbn [write_loop].
  rewrite (proj2 (Z.eqb_neq _ _)) by lia. change (cast_size 4) with 8%nat.
  destruct (decide (8 <= length r)%nat) as [H8|H8].
  - rewrite store_at by done. cbn [mbind option_bind]. change (8 * Z.of_nat 8) with 64.
    set (w := le_bytes 8 (wrap_u 64 v)). assert (Hw : length w = 8%nat) by apply length_le_bytes.
    rewrite <- (take_drop 4 w) at 1. rewrite <- app_assoc, app_assoc.
    replace (zlen a + 4) with (zlen (a ++ take 4 w)) by len.
    replace (Z.of_nat (4 * S n) - 4) with (Z.of_nat (4 * n)) by lia.
    destruct n as [|n]; [lia|]. apply IH; len.
  - rewrite store_fault; [done|]. rewrite length_app. lia.
Qed.

Lemma io_long_access_overruns_witness :
  write_memory (replicate 8 7 ++ replicate 8 7) 8 4 4 1 = Some (replicate 8 7 ++ [1; 0; 0; 0; 0; 0; 0; 0]) /\
  write_memory (replicate 8 7 ++ replicate 4 7) 8 4 4 1 = None.
Proof.
  split.
  - apply (io_long_access_overruns 1 1 (replicate 8 7) (replicate 8 7)); [lia|simpl; lia].
  - apply (io_long_access_overruns 1 1 (replicate 8 7) (replicate 4 7)); [lia|simpl; lia].
Defined.

(** A negative length passes all checks, and the access goes on until it faults. *)
Lemma io_negative_length p mem moved data :
  p_len p < 0 -> 0 < iosize (j_opts (p_job p)) -> filename (j_opts (p_job p)) = None ->
  access p mem moved data = Fault.
Proof.
  intros Hl Hs Hf. unfold access. rewrite Hf. destruct (memread (j_opts (p_job p))).
  - unfold memread_memory. by rewrite memread_rows_negative.
  - unfold write_memory. by rewrite write_loop_negative.
Qed.

Example io_negative_length_accepted :
  exists p, match parse_args (map str ["-l"; "-8"; "0x10"]%string) with
    | inr j => prepare (mkAns false 0 true true 0) j = inr p | inl _ => False end /\ p_len p = -8.
Proof. eexists. split; reflexivity. Qed.

(** The test for values that are too large looks at 32 bits only. *)
Example io_value_check_misses :
  parse_args (map str ["0x1000"; "0x100000012"]%string) =
    inr (mkJob (mkOpts false 1 0 None false) 0x1000 0x100000012).
Proof. reflexivity. Qed.
