(* ===== verification/Threads.v ===== *)
(** * Threads: the shared structures of apue.2e/threads.

    rwlock.c, a doubly linked queue of jobs under a read-write lock, and mutex3.c, a
    hash table of objects with reference counts under one mutex.  Every operation
    runs under its lock from beginning to end, so an interleaving of threads is a
    sequence of whole operations.  Structures live in a heap as in PrintQueue; an
    operation has no result when it follows an address that holds no structure. *)
From S2P Require Import Prelude PrintQueue.
Local Open Scope Z_scope.

(** ** rwlock.c *)

(** [struct job] has the node's links and the thread's identifier. *)
Record queue := mkQueue { q_heap : gmap Z (node Z); q_head : Z; q_tail : Z }.

(** [queue_init]; [err] is what pthread_rwlock_init returns. *)
Definition queue_init (h : gmap Z (node Z)) (err : Z) : Z * queue := (err, mkQueue h NULL NULL).

Definition job_insert (jp : Z) (q : queue) : option queue :=
  h ← store_next jp (q_head q) (q_heap q);
  h ← store_prev jp NULL h;
  if negb (q_head q =? NULL) then
    h ← store_prev (q_head q) jp h; Some (mkQueue h jp (q_tail q))
  else Some (mkQueue h jp jp).

Definition job_append (jp : Z) (q : queue) : option queue :=
  h ← store_next jp NULL (q_heap q);
  h ← store_prev jp (q_tail q) h;
  if negb (q_tail q =? NULL) then
    h ← store_next (q_tail q) jp h; Some (mkQueue h (q_head q) jp)
  else Some (mkQueue h jp jp).

Definition job_remove (jp : Z) (q : queue) : option queue :=
  if jp =? q_head q then
    j ← q_heap q !! jp;
    Some (mkQueue (q_heap q) (n_next j) (if q_tail q =? jp then NULL else q_tail q))
  else if jp =? q_tail q then
    j ← q_heap q !! jp;
    Some (mkQueue (q_heap q) (if q_head q =? jp then NULL else q_head q) (n_prev j))
  else
    j ← q_heap q !! jp;
    h ← store_next (n_prev j) (n_next j) (q_heap q);
    j ← h !! jp;
    h ← store_prev (n_next j) (n_prev j) h;
    Some (mkQueue h (q_head q) (q_tail q)).

(** The walk of [job_find]; more turns than there are structures is a walk that
    does not end. *)
Fixpoint find_from (fuel : nat) (h : gmap Z (node Z)) (jp id : Z) : option Z :=
  match fuel with
  | O => None
  | S f =>
      if jp =? NULL then Some NULL
      else j ← h !! jp; if n_val j =? id then Some jp else find_from f h (n_next j) id
  end.

(** [job_find]; [rdlock] is what pthread_rwlock_rdlock returns. *)
Definition job_find (rdlock : Z) (id : Z) (q : queue) : option Z :=
  if negb (rdlock =? 0) then Some NULL
  else find_from (S (size (q_heap q))) (q_heap q) (q_head q) id.

(** *** Operations against a list *)

(** The jobs of [l] from head to tail.  The back link of the first one is never
    followed, and removing a head leaves it as it was. *)
Record queue_rep (q : queue) (l : list (Z * Z)) : Prop := {
  qr_seg : exists p0, dseg (q_heap q) p0 l NULL;
  qr_head : q_head q = first_ptr l NULL;
  qr_tail : q_tail q = last_ptr l NULL;
  qr_nodup : NoDup l.*1;
}.

(** The identifiers of the structures, in the queue or not. *)
Definition ids (q : queue) : gmap Z Z := n_val <$> q_heap q.

Inductive qop := Insert (jp : Z) | Append (jp : Z) | Remove (jp : Z) | Find (id : Z).

Definition exec_qop (o : qop) (q : queue) : option (Z * queue) :=
  match o with
  | Insert jp => q' ← job_insert jp q; Some (0, q')
  | Append jp => q' ← job_append jp q; Some (0, q')
  | Remove jp => q' ← job_remove jp q; Some (0, q')
  | Find id => p ← job_find 0 id q; Some (p, q)
  end.

(** The list after an operation.  Jobs that are put into the queue exist and are
    not in it; a job that is removed is in the queue, and is its head or not its
    tail. *)
Definition spec_qop (m : gmap Z Z) (o : qop) (l : list (Z * Z)) : option (Z * list (Z * Z)) :=
  match o with
  | Insert jp =>
      id ← m !! jp;
      if bool_decide (jp <> NULL /\ jp ∉ l.*1) then Some (0, (jp, id) :: l) else None
  | Append jp =>
      id ← m !! jp;
      if bool_decide (jp <> NULL /\ jp ∉ l.*1) then Some (0, l ++ [(jp, id)]) else None
  | Remove jp =>
      if bool_decide (jp ∈ l.*1 /\ (jp = first_ptr l NULL \/ jp <> last_ptr l NULL))
      then Some (0, filter (fun x => x.1 <> jp) l) else None
  | Find id => Some (from_option fst NULL (List.find (fun x => x.2 =? id) l), l)
  end.

Fixpoint exec_qops (os : list qop) (q : queue) : option (list Z * queue) :=
  match os with
  | [] => Some ([], q)
  | o :: os' => '(r, q') ← exec_qop o q; '(rs, q'') ← exec_qops os' q'; Some (r :: rs, q'')
  end.

Fixpoint spec_qops (m : gmap Z Z) (os : list qop) (l : list (Z * Z)) : option (list Z * list (Z * Z)) :=
  match os with
  | [] => Some ([], l)
  | o :: os' => '(r, l') ← spec_qop m o l; '(rs, l'') ← spec_qops m os' l'; Some (r :: rs, l'')
  end.

(** ** mutex3.c *)

Definition NHASH : Z := 29.
Definition HASH (fp : Z) : nat := Z.to_nat (fp mod NHASH).

(** [struct foo]; [f_lock] says whether the mutex is locked. *)
Record foo := mkFoo { f_count : Z; f_lock : bool; f_next : Z; f_id : Z }.

Record table := mkTable { fh : list Z; objs : gmap Z foo }.

Definition table0 : table := mkTable (replicate (Z.to_nat NHASH) NULL) ∅.

(** [foo_alloc]: [fp] is what malloc returns, [init] what pthread_mutex_init
    returns, [id] what the new structure holds in f_id. *)
Definition foo_alloc (fp init id : Z) (t : table) : option (Z * table) :=
  if fp =? NULL then Some (NULL, t)
  else if negb (init =? 0) then Some (NULL, t)
  else
    let idx := HASH fp in
    old ← fh t !! idx;
    let f := mkFoo 1 false old id in
    (* fh[idx] = fp->f_next *)
    Some (fp, mkTable (<[idx := f_next f]> (fh t))
                (<[fp := mkFoo (f_count f) true (f_next f) (f_id f)]> (objs t))).

Definition foo_hold (fp : Z) (t : table) : option table :=
  f ← objs t !! fp;
  Some (mkTable (fh t) (<[fp := mkFoo (f_count f + 1) (f_lock f) (f_next f) (f_id f)]> (objs t))).

Fixpoint chain_find (fuel : nat) (m : gmap Z foo) (fp id : Z) : option Z :=
  match fuel with
  | O => None
  | S n => if fp =? NULL then Some NULL
           else f ← m !! fp; if f_id f =? id then Some fp else chain_find n m (f_next f) id
  end.

(** [foo_find]; the index is computed from a pointer that is not initialized,
    [junk]. *)
Definition foo_find (junk id : Z) (t : table) : option (Z * table) :=
  hd ← fh t !! HASH junk;
  fp ← chain_find (S (size (objs t))) (objs t) hd id;
  if fp =? NULL then Some (NULL, t) else t' ← foo_hold fp t; Some (fp, t').

(** The loop of [foo_rele] that looks for the predecessor. *)
Fixpoint before (fuel : nat) (m : gmap Z foo) (tfp fp : Z) : option Z :=
  match fuel with
  | O => None
  | S n => f ← m !! tfp; if f_next f =? fp then Some tfp else before n m (f_next f) fp
  end.

(** [foo_rele]; destroying a locked mutex is undefined. *)
Definition foo_rele (fp : Z) (t : table) : option table :=
  f ← objs t !! fp;
  let f := mkFoo (f_count f - 1) (f_lock f) (f_next f) (f_id f) in
  let m := <[fp := f]> (objs t) in
  if f_count f =? 0 then
    let idx := HASH fp in
    tfp ← fh t !! idx;
    '(fh', m) ← (if tfp =? fp then Some (<[idx := f_next f]> (fh t), m)
                 else
                   p ← before (S (size m)) m tfp fp;
                   g ← m !! p;
                   Some (fh t, <[p := mkFoo (f_count g) (f_lock g) (f_next f) (f_id g)]> m));
    if f_lock f then None else Some (mkTable fh' (delete fp m))
  else Some (mkTable (fh t) m).

Inductive fop := FAlloc (fp init id : Z) | FHold (fp : Z) | FFind (junk id : Z) | FRele (fp : Z).

Definition exec_fop (o : fop) (t : table) : option (Z * table) :=
  match o with
  | FAlloc fp init id => foo_alloc fp init id t
  | FHold fp => t' ← foo_hold fp t; Some (0, t')
  | FFind junk id => foo_find junk id t
  | FRele fp => t' ← foo_rele fp t; Some (0, t')
  end.

(** The tables that the operations reach. *)
Inductive table_reach : table -> Prop :=
| table_new : table_reach table0
| table_step t o r t' : table_reach t -> exec_fop o t = Some (r, t') -> table_reach t'.
