(* ===== verification/ThreadsTheorems.v ===== *)
(** * ThreadsTheorems: properties of the shared structures of apue.2e/threads. *)
From S2P Require Import Prelude PrintQueue Threads.
Local Open Scope Z_scope.

(** ** The queue *)

(** Setting a link keeps the identifiers. *)
Lemma store_next_ids p v (h h' : gmap Z (node Z)) : store_next p v h = Some h' -> n_val <$> h' = n_val <$> h.
Proof.
  unfold store_next. destruct (h !! p) as [n|] eqn:E; [|done]. intros [= <-].
  rewrite fmap_insert. simpl. apply insert_id. by rewrite lookup_fmap, E.
Qed.

Lemma store_prev_ids p v (h h' : gmap Z (node Z)) : store_prev p v h = Some h' -> n_val <$> h' = n_val <$> h.
Proof.
  unfold store_prev. destruct (h !! p) as [n|] eqn:E; [|done]. intros [= <-].
  rewrite fmap_insert. simpl. apply insert_id. by rewrite lookup_fmap, E.
Qed.

Lemma ids_lookup q p id : ids q !! p = Some id -> exists n, q_heap q !! p = Some n /\ n_val n = id.
Proof. unfold ids. rewrite lookup_fmap. intros (n & ? & ->)%fmap_Some. eauto. Qed.

(** Both links of a structure outside the list are set. *)
Lemma link_new jp nx pv (q : queue) n :
  q_heap q !! jp = Some n ->
  exists h, (h ← store_next jp nx (q_heap q); store_prev jp pv h) = Some h /\
    h = <[jp := mkNode nx pv (n_val n)]> (q_heap q).
Proof.
  intros Hj. rewrite (store_next_some _ _ _ _ Hj). simpl.
  rewrite (store_prev_some _ _ _ _ (lookup_insert_eq _ _ _)). rewrite insert_insert_eq. eauto.
Qed.

Lemma bind_assoc {A B C} (m : option A) (f : A -> option B) (g : B -> option C) :
  (a ← m; b ← f a; g b) = (b ← (a ← m; f a); g b).
Proof. by destruct m. Qed.

Lemma job_insert_rep jp id q l :
  queue_rep q l -> ids q !! jp = Some id -> jp <> NULL -> jp ∉ l.*1 ->
  exists q', job_insert jp q = Some q' /\ queue_rep q' ((jp, id) :: l) /\ ids q' = ids q.
Proof.
  intros [[p0 Hs] Hh Ht Hn] (n & Hj & <-)%ids_lookup Hjp Hnot.
  destruct (link_new jp (q_head q) NULL q n Hj) as (h & El & Eh).
  assert (Hi : n_val <$> h = ids q).
  { rewrite Eh, fmap_insert. apply insert_id. unfold ids. by rewrite lookup_fmap, Hj. }
  assert (Hs1 : dseg h p0 l NULL) by (rewrite Eh; by apply dseg_ne).
  assert (Hjh : h !! jp = Some (mkNode (q_head q) NULL (n_val n))) by (rewrite Eh; apply lookup_insert_eq).
  unfold job_insert. rewrite bind_assoc, El. cbn [mbind option_bind]. rewrite Hh.
  assert (Hnd : NoDup ((jp, n_val n) :: l).*1) by (apply NoDup_cons; done).
  destruct l as [|[p w] l].
  - simpl. eexists. split; [done|]. split; [|done]. split; simpl; try done. exists NULL.
    rewrite Hh in Hjh. done.
  - pose proof Hs as (H0 & _). simpl first_ptr. destruct (Z.eqb_spec p NULL); [done|]. cbn [negb].
    destruct (dseg_set_prev h p0 ((p, w) :: l) NULL jp Hs1 Hn ltac:(done)) as (h' & Hst & Hs' & Hk).
    simpl first_ptr in Hst, Hk. rewrite Hst. cbn [mbind option_bind]. eexists. split; [done|].
    split; [|unfold ids; simpl; by rewrite (store_prev_ids _ _ _ _ Hst)].
    split; simpl q_heap; simpl q_head; simpl q_tail; [|done|by rewrite Ht|done].
    exists NULL. split; [done|]. split; [|done]. rewrite Hk by (intros ->; apply Hnot; set_solver).
    rewrite Hjh, Hh. done.
Qed.

Lemma job_append_rep jp id q l :
  queue_rep q l -> ids q !! jp = Some id -> jp <> NULL -> jp ∉ l.*1 ->
  exists q', job_append jp q = Some q' /\ queue_rep q' (l ++ [(jp, id)]) /\ ids q' = ids q.
Proof.
  intros [[p0 Hs] Hh Ht Hn] (n & Hj & <-)%ids_lookup Hjp Hnot.
  destruct (link_new jp NULL (q_tail q) q n Hj) as (h & El & Eh).
  assert (Hi : n_val <$> h = ids q).
  { rewrite Eh, fmap_insert. apply insert_id. unfold ids. by rewrite lookup_fmap, Hj. }
  assert (Hs1 : dseg h p0 l NULL) by (rewrite Eh; by apply dseg_ne).
  assert (Hjh : h !! jp = Some (mkNode NULL (q_tail q) (n_val n))) by (rewrite Eh; apply lookup_insert_eq).
  assert (Hnd : NoDup (l ++ [(jp, n_val n)]).*1).
  { rewrite fmap_app. apply NoDup_app. split; [done|]. split; [set_solver|apply NoDup_singleton]. }
  unfold job_append. rewrite bind_assoc, El. cbn [mbind option_bind]. rewrite Ht.
  destruct (decide (l = [])) as [->|Hne].
  - simpl. eexists. split; [done|]. split; [|done]. split; simpl; try done. exists NULL.
    rewrite Ht in Hjh. done.
  - assert (Hlast : last_ptr l NULL = last_ptr l p0) by (by destruct l as [|[]]).
    destruct (dseg_last_in _ _ _ _ Hs Hne) as [Hin H0]. rewrite Hlast.
    destruct (Z.eqb_spec (last_ptr l p0) NULL); [done|]. cbn [negb].
    destruct (dseg_set_next h p0 l NULL jp Hs1 Hn Hne) as (h' & Hst & Hs' & Hk).
    rewrite Hst. cbn [mbind option_bind]. eexists. split; [done|].
    split; [|unfold ids; simpl; by rewrite (store_next_ids _ _ _ _ Hst)].
    split; simpl; [|by rewrite Hh; destruct l as [|[]]|by rewrite last_ptr_snoc|done].
    exists p0. apply dseg_app. split; [done|]. simpl. split; [done|]. split; [|done].
    rewrite Hk by (intros ->; done). rewrite Hjh, Ht, Hlast. done.
Qed.

Lemma filter_out (l1 l2 : list (Z * Z)) p v :
  NoDup (l1 ++ (p, v) :: l2).*1 -> filter (fun x => x.1 <> p) (l1 ++ (p, v) :: l2) = l1 ++ l2.
Proof.
  intros Hn. rewrite fmap_app in Hn. apply NoDup_app in Hn as (_ & Hd & Hn2). simpl in Hd.
  apply NoDup_cons in Hn2 as [Hp2 _].
  assert (Hid : forall l : list (Z * Z), p ∉ l.*1 -> filter (fun x => x.1 <> p) l = l).
  { intros l Hl. induction l as [|x l IH]; [done|]. simpl in Hl. apply not_elem_of_cons in Hl as [Hx Hl].
    rewrite filter_cons_True by congruence. by rewrite IH. }
  rewrite filter_app, filter_cons_False by (simpl; tauto).
  rewrite !Hid; [done|done|]. intros Hin. apply (Hd p Hin). left.
Qed.

Lemma job_remove_head p v q l :
  queue_rep q ((p, v) :: l) ->
  exists q', job_remove p q = Some q' /\ queue_rep q' l /\ ids q' = ids q.
Proof.
  intros [[p0 (H0 & Hp & Hs)] Hh Ht Hn]. unfold job_remove. rewrite Hh. simpl first_ptr.
  rewrite Z.eqb_refl, Hp. cbn [mbind option_bind n_next]. eexists. split; [done|]. split; [|done].
  apply NoDup_cons in Hn as [Hnot Hn].
  split; simpl; [by exists p|done| |done]. rewrite Ht. simpl. destruct l as [|[x w] l].
  - simpl. by rewrite Z.eqb_refl.
  - destruct (dseg_last_in _ _ _ _ Hs ltac:(done)) as [Hin _].
    rewrite (proj2 (Z.eqb_neq _ _)); [done|]. intros E. apply Hnot. by rewrite <- E.
Qed.

Lemma job_remove_mid p v q l1 l2 :
  l1 <> [] -> l2 <> [] -> queue_rep q (l1 ++ (p, v) :: l2) ->
  exists q', job_remove p q = Some q' /\ queue_rep q' (l1 ++ l2) /\ ids q' = ids q.
Proof.
  intros Hne1 Hne2 [[p0 Hs] Hh Ht Hn]. apply dseg_app in Hs as [Hs1 (H0 & Hp & Hs2)]. simpl in Hs1.
  assert (Hnd := Hn). rewrite fmap_app in Hn. simpl in Hn.
  apply NoDup_app in Hn as (Hn1 & Hd & Hn2). apply NoDup_cons in Hn2 as [Hp2 Hn2].
  assert (Hp1 : p ∉ l1.*1) by (intros Hin; apply (Hd p Hin); set_solver).
  rewrite first_ptr_app in Hh. rewrite last_ptr_app in Ht. simpl in Hh, Ht.
  destruct (dseg_last_in _ _ _ _ Hs1 Hne1) as [Hin1 H01].
  destruct (dseg_last_in _ _ _ _ Hs2 Hne2) as [Hin2 _].
  assert (Hl1 : last_ptr l1 NULL = last_ptr l1 p0) by (by destruct l1 as [|[]]).
  assert (Hf1 : first_ptr l1 p ∈ l1.*1) by (destruct l1 as [|[]]; [done|simpl; set_solver]).
  unfold job_remove. rewrite Hh, Ht.
  rewrite (proj2 (Z.eqb_neq p _)) by (intros E; apply Hp1; rewrite E; done).
  rewrite (proj2 (Z.eqb_neq p _)) by (intros E; apply Hp2; rewrite E; done).
  rewrite Hp. cbn [mbind option_bind n_next n_prev].
  destruct (dseg_set_next (q_heap q) p0 l1 p (first_ptr l2 NULL) Hs1 Hn1 Hne1) as (h1 & Hst1 & Hs1' & Hk1).
  rewrite Hst1. cbn [mbind option_bind]. rewrite Hk1, Hp by (intros ->; done). cbn [mbind option_bind n_next n_prev].
  assert (Hs2' : dseg h1 p l2 NULL).
  { eapply dseg_ext; [|exact Hs2]. intros x Hx. apply Hk1. intros ->. apply (Hd _ Hin1). set_solver. }
  destruct (dseg_set_prev h1 p l2 NULL (last_ptr l1 p0) Hs2' Hn2 Hne2) as (h2 & Hst2 & Hs2'' & Hk2).
  rewrite Hst2. cbn [mbind option_bind]. eexists. split; [done|].
  assert (Hf2 : first_ptr l2 NULL ∈ l2.*1) by (destruct l2 as [|[]]; [done|simpl; set_solver]).
  split; [|unfold ids; simpl; by rewrite (store_prev_ids _ _ _ _ Hst2), (store_next_ids _ _ _ _ Hst1)].
  split; simpl.
  - exists p0. apply dseg_app. split; [|done]. eapply dseg_ext; [|exact Hs1'].
    intros x Hx. apply Hk2. intros ->. apply (Hd _ Hx). set_solver.
  - rewrite first_ptr_app. by destruct l1 as [|[]].
  - rewrite last_ptr_app. destruct l2 as [|[]]; [done|done].
  - rewrite fmap_app. apply NoDup_app. split_and!; [done| |done]. intros x Hx Hx2. apply (Hd x Hx). set_solver.
Qed.

(** The walk along a list. *)
Lemma find_from_list f h p0 l id :
  dseg h p0 l NULL -> (length l < f)%nat ->
  find_from f h (first_ptr l NULL) id = Some (from_option fst NULL (List.find (fun x => x.2 =? id) l)).
Proof.
  revert f p0. induction l as [|[p v] l IH]; intros f p0 Hs Hf; (destruct f as [|f]; [simpl in Hf; lia|]); [done|].
  destruct Hs as (H0 & Hp & Hs). cbn [find_from first_ptr]. rewrite (proj2 (Z.eqb_neq _ _)) by done.
  rewrite Hp. cbn [mbind option_bind n_val n_next List.find snd]. case_if; [done|].
  eapply IH; [done|simpl in Hf; lia].
Qed.

Lemma dseg_size (h : gmap Z (node Z)) p0 l nx : dseg h p0 l nx -> NoDup l.*1 -> (length l <= size h)%nat.
Proof.
  intros Hs Hn. rewrite <- (length_fmap fst l), <- (size_list_to_set (C := gset Z) l.*1) by done.
  rewrite <- size_dom. apply subseteq_size. intros x Hx%elem_of_list_to_set.
  apply list_elem_of_fmap in Hx as ([p v] & -> & Hin).
  apply list_elem_of_split in Hin as (l1 & l2 & ->). apply dseg_app in Hs as [_ (_ & Hp & _)].
  by apply elem_of_dom_2 in Hp.
Qed.

Lemma qop_sim o q l r l' :
  queue_rep q l -> spec_qop (ids q) o l = Some (r, l') ->
  exists q', exec_qop o q = Some (r, q') /\ queue_rep q' l' /\ ids q' = ids q.
Proof.
  intros Hrep Hs. destruct o as [jp|jp|jp|id]; cbn [spec_qop exec_qop] in *.
  - destruct (ids q !! jp) as [id|] eqn:Ei; [|done]. simpl in Hs. case_bool_decide as Hb; [|done]. simplify_eq.
    destruct (job_insert_rep jp id q l Hrep Ei) as (q' & -> & ?); [apply Hb..|]. by exists q'.
  - destruct (ids q !! jp) as [id|] eqn:Ei; [|done]. simpl in Hs. case_bool_decide as Hb; [|done]. simplify_eq.
    destruct (job_append_rep jp id q l Hrep Ei) as (q' & -> & ?); [apply Hb..|]. by exists q'.
  - case_bool_decide as Hb; [|done]. simplify_eq. destruct Hb as [Hin Hpos].
    apply list_elem_of_fmap in Hin as ([p v] & -> & (l1 & l2 & ->)%list_elem_of_split). simpl in *.
    assert (Hn := qr_nodup _ _ Hrep). rewrite filter_out by done.
    assert (Hq : exists q', job_remove p q = Some q' /\ queue_rep q' (l1 ++ l2) /\ ids q' = ids q).
    { destruct (decide (l1 = [])) as [->|Hne1]; [by eapply job_remove_head|].
      destruct (decide (l2 = [])) as [->|Hne2]; [exfalso|by eapply job_remove_mid].
      destruct Hpos as [E|E]; [|by rewrite last_ptr_snoc in E].
      destruct l1 as [|[x w] l1]; [done|]. simpl in E. subst x. rewrite fmap_app in Hn. simpl in Hn.
      apply NoDup_cons in Hn as [Hn _]. set_solver. }
    destruct Hq as (q' & -> & ?). by exists q'.
  - simplify_eq. unfold job_find. cbn [Z.eqb negb]. destruct Hrep as [[p0 Hseg] Hh Ht Hn].
    rewrite Hh. rewrite (find_from_list _ _ p0 l' id Hseg).
    + simpl. exists q. split; [done|]. split; [|done]. split; eauto.
    + pose proof (dseg_size _ _ _ _ Hseg Hn). lia.
Qed.

Lemma qops_sim os h rs l :
  spec_qops (n_val <$> h) os [] = Some (rs, l) ->
  exists q, exec_qops os (queue_init h 0).2 = Some (rs, q) /\ queue_rep q l.
Proof.
  assert (H0 : queue_rep (queue_init h 0).2 []) by (split; simpl; try done; [by exists NULL|constructor]).
  assert (Hi : ids (queue_init h 0).2 = n_val <$> h) by done. revert H0 Hi.
  generalize (queue_init h 0).2 as q. generalize (n_val <$> h) as m. generalize (@nil (Z * Z)) as l0.
  intros l0 m q. revert l0 q rs. induction os as [|o os IH]; intros l0 q rs Hrep Hm Hs; cbn [spec_qops exec_qops] in *.
  { simplify_eq. by exists q. }
  destruct (spec_qop m o l0) as [[r l1]|] eqn:E; [|done]. simpl in Hs.
  destruct (spec_qops m os l1) as [[rs' l2]|] eqn:E2; [|done]. simpl in Hs. simplify_eq.
  destruct (qop_sim o q l0 r l1 Hrep E) as (q1 & -> & Hrep1 & Hi1). cbn [mbind option_bind].
  destruct (IH l1 q1 rs' Hrep1 Hi1) as (q2 & E3 & Hrep2); [done|]. rewrite E3. simpl. by exists q2.
Qed.

(** The job queue is a list of jobs: starting from an initialized queue, any
    sequence of operations of the threads returns what the same operations on a
    list return and leaves a queue that represents the list, where jobs are
    inserted and appended that are not in the queue, and a job that is removed is
    the head of the queue or not its tail. *)
Lemma rwlock_queue_refines os h rs l :
  spec_qops (n_val <$> h) os [] = Some (rs, l) ->
  exists q, exec_qops os (queue_init h 0).2 = Some (rs, q) /\ queue_rep q l.
Proof. apply qops_sim. Qed.

Definition three_jobs : gmap Z (node Z) :=
  <[100 := mkNode 0 0 1]> (<[200 := mkNode 0 0 2]> (<[300 := mkNode 0 0 3]> ∅)).

Lemma rwlock_queue_refines_witness :
  exists q, exec_qops [Append 100; Insert 200; Append 300; Remove 100; Find 3; Remove 200; Find 1; Remove 300]
      (queue_init three_jobs 0).2 = Some ([0; 0; 0; 0; 300; 0; 0; 0], q) /\ queue_rep q [].
Proof. apply rwlock_queue_refines. vm_compute. reflexivity. Defined.

(** Removing the tail of a queue of two jobs or more does not take it out of the
    reach of the other threads: the job before it still points to it, and looking
    for the removed job still finds it. *)
Lemma removed_tail_still_found q l t id :
  queue_rep q (l ++ [(t, id)]) -> l <> [] -> Forall (fun x => x.2 <> id) l ->
  exists q', job_remove t q = Some q' /\ q_tail q' = last_ptr l NULL /\ job_find 0 id q' = Some t.
Proof.
  intros [[p0 Hs] Hh Ht Hn] Hne Hid.
  assert (Hlen := dseg_size _ _ _ _ Hs Hn). assert (Hs0 := Hs).
  apply dseg_app in Hs as [Hs1 (H0 & Hp & _)].
  rewrite fmap_app in Hn. apply NoDup_app in Hn as (_ & Hd & _).
  assert (Hnot : t ∉ l.*1) by (intros Hin; apply (Hd t Hin); set_solver).
  assert (Hf : first_ptr l t ∈ l.*1) by (destruct l as [|[]]; [done|simpl; set_solver]).
  rewrite last_ptr_snoc in Ht. rewrite first_ptr_app in Hh. simpl in Hh.
  unfold job_remove. rewrite Hh, Ht, Z.eqb_refl.
  rewrite (proj2 (Z.eqb_neq t _)) by (intros E; apply Hnot; rewrite E; done).
  rewrite Hp. cbn [mbind option_bind n_prev].
  rewrite (proj2 (Z.eqb_neq _ t)) by (intros E; apply Hnot; rewrite <- E; done).
  eexists. split; [done|]. split; [simpl; by destruct l as [|[]]|].
  unfold job_find. cbn [Z.eqb negb q_heap q_head].
  pose proof (find_from_list (S (size (q_heap q))) (q_heap q) p0 _ id Hs0) as Hw.
  rewrite first_ptr_app in Hw. simpl first_ptr in Hw. rewrite Hw by lia. f_equal.
  clear -Hid. induction Hid as [|[x w] l Hx _ IH]; simpl; [by rewrite Z.eqb_refl|].
  simpl in Hx. by rewrite (proj2 (Z.eqb_neq _ _)).
Qed.

Lemma removed_tail_still_found_witness :
  exists q, exec_qops [Append 100; Append 200] (queue_init three_jobs 0).2 = Some ([0; 0], q) /\
  exists q', job_remove 200 q = Some q' /\ q_tail q' = 100 /\ job_find 0 2 q' = Some 200.
Proof.
  destruct (qops_sim [Append 100; Append 200] three_jobs [0; 0] [(100, 1); (200, 2)])
    as (q & E & Hrep); [vm_compute; reflexivity|].
  exists q. split; [exact E|].
  apply (removed_tail_still_found q [(100, 1)] 200 2 Hrep); [discriminate|].
  repeat constructor; discriminate.
Defined.

(** ** The table *)

(** [fh[idx] = fp->f_next] stores what was there before. *)
Lemma table_empty t :
  table_reach t -> fh t = replicate (Z.to_nat NHASH) NULL /\ objs t !! NULL = None.
Proof.
  induction 1 as [|t o r t' _ [IH IHn] E]; [done|].
  assert (Hrep : forall i, <[i := NULL]> (replicate (Z.to_nat NHASH) NULL) = replicate (Z.to_nat NHASH) NULL).
  { intros i. destruct (decide (i < Z.to_nat NHASH)%nat).
    - apply list_insert_id. by apply lookup_replicate.
    - apply list_insert_ge. rewrite length_replicate. lia. }
  assert (Hhold : forall fp t1, foo_hold fp t = Some t1 -> fh t1 = fh t /\ objs t1 !! NULL = None).
  { intros fp t1 Eh. unfold foo_hold in Eh. destruct (objs t !! fp) eqn:Ef; [|done]. simplify_eq/=.
    split; [done|]. rewrite lookup_insert_ne; [done|]. intros ->. congruence. }
  destruct o as [fp init id|fp|junk id|fp]; cbn [exec_fop] in E.
  - unfold foo_alloc in E. destruct (Z.eqb_spec fp NULL) as [|Hfp]; [by simplify_eq|].
    case_match; [by simplify_eq|].
    destruct (fh t !! HASH fp) as [old|] eqn:Eo; [|done]. injection E as <- <-. cbn [fh objs f_next].
    rewrite IH in Eo. apply lookup_replicate in Eo as [-> _]. rewrite IH, lookup_insert_ne by done.
    split; [apply Hrep|done].
  - destruct (foo_hold fp t) as [t1|] eqn:Eh; [|done]. injection E as <- <-.
    destruct (Hhold _ _ Eh) as [-> ?]. by split.
  - unfold foo_find in E. destruct (fh t !! HASH junk) as [hd|]; [|done]. cbn [mbind option_bind] in E.
    destruct (chain_find _ _ _ _) as [fp|]; [|done]. cbn [mbind option_bind] in E. case_match; [by simplify_eq|].
    destruct (foo_hold fp t) as [t1|] eqn:Eh; [|done]. injection E as <- <-.
    destruct (Hhold _ _ Eh) as [-> ?]. by split.
  - destruct (foo_rele fp t) as [t1|] eqn:Er; [|done]. injection E as <- <-.
    unfold foo_rele in Er. destruct (objs t !! fp) as [f|] eqn:Ef; [|done]. cbn [mbind option_bind f_count f_next f_lock] in Er.
    assert (Hne : fp <> NULL) by (intros ->; congruence).
    case_match; [|injection Er as <-; cbn [fh objs]; by rewrite lookup_insert_ne].
    destruct (fh t !! HASH fp) as [tfp|] eqn:Et; [|done]. rewrite IH in Et.
    apply lookup_replicate in Et as [-> _]. cbn [mbind option_bind] in Er.
    rewrite (proj2 (Z.eqb_neq NULL fp)) in Er by done. cbn [before mbind option_bind] in Er.
    rewrite lookup_insert_ne, IHn in Er by done. done.
Qed.

(** The table of mutex3.c never holds an object: [foo_alloc] stores the old head
    of the chain instead of the new object, so that after any sequence of operations
    every chain is empty, [foo_find] finds nothing, whatever the identifier and the
    chain it happens to look at, and releasing the last reference of an object
    follows a null pointer. *)
Lemma foo_table_unusable t :
  table_reach t ->
  Forall (fun p => p = NULL) (fh t) /\
  (forall junk id, foo_find junk id t = Some (NULL, t)) /\
  (forall fp f, objs t !! fp = Some f -> f_count f = 1 -> foo_rele fp t = None).
Proof.
  intros [Hfh Hn]%table_empty. rewrite Hfh. split_and!.
  - apply Forall_replicate. done.
  - intros junk id. unfold foo_find. rewrite Hfh.
    assert (Hk : replicate (Z.to_nat NHASH) NULL !! HASH junk = Some NULL).
    { apply lookup_replicate. split; [done|]. unfold HASH.
      pose proof (Z.mod_pos_bound junk NHASH). unfold NHASH in *. lia. }
    by rewrite Hk.
  - intros fp f Ef Hc. assert (Hne : fp <> NULL) by (intros ->; congruence).
    unfold foo_rele. rewrite Ef. cbn [mbind option_bind f_count f_next f_lock f_id]. rewrite Hc, Hfh.
    change (1 - 1 =? 0) with true. cbv iota.
    destruct (replicate (Z.to_nat NHASH) NULL !! HASH fp) as [tfp|] eqn:Et; [|done].
    apply lookup_replicate in Et as [-> _]. cbn [mbind option_bind].
    rewrite (proj2 (Z.eqb_neq NULL fp)) by done. cbn [before].
    by rewrite lookup_insert_ne, Hn by done.
Qed.

Lemma foo_table_unusable_witness :
  exists t, exec_fop (FAlloc 4096 0 7) table0 = Some (4096, t) /\
    foo_find 4096 7 t = Some (NULL, t) /\ foo_rele 4096 t = None.
Proof.
  eexists. split; [reflexivity|].
  assert (Hr : table_reach (mkTable (replicate 29 0) {[4096 := mkFoo 1 true 0 7]})).
  { eapply (table_step table0 (FAlloc 4096 0 7)); [apply table_new|reflexivity]. }
  destruct (foo_table_unusable _ Hr) as (_ & Hf & Hrel). split; [apply Hf|].
  eapply Hrel; [reflexivity|reflexivity].
Defined.
