(* ===== verification/Motor.v ===== *)
(** * Motor: the hardware proxy design_pattern/HardwareProxy/MotorProxy.c.

    A register of a motor controller behind functions that pack and unpack its
    fields.  The file is a sketch: it names a member motorData that the structure
    does not have, calls marshall and unmarshall for [marshal] and [unmarshal],
    passes structures for pointers, and has a few misspellings that no compiler
    accepts.  It is read here with motorData for the register's address motorAddr
    and with one spelling of each name; every computation is taken as it stands. *)
From Stdlib Require Import Floats.SpecFloat.
From S2P Require Import Prelude.
Local Open Scope Z_scope.

(** ** MotorData.h and MotorProxy.h *)

Inductive DirectionType := NO_DIRECTION | FORWARD | REVERSE.

Record MotorData := mkMotor {
  on_off : Z; direction : DirectionType; speed : Z; errorStatus : Z; noPowerError : Z;
  noTorqueError : Z; BITError : Z; overTemperatureError : Z; reservedError1 : Z;
  reservedError2 : Z; unknownError : Z }.

(** [MotorProxy]: the register that [motorAddr] points to ([None] for a null
    pointer), and the length of the arm. *)
Record MotorProxy := mkProxy { motor : option Z; rotaryArmLength : Z }.

(** ** Packing and unpacking *)

Definition set_if (b : bool) (mask w : Z) : Z := if b then Z.lor w mask else w.

Definition marshal (d : MotorData) : Z :=
  let w := set_if (negb (on_off d =? 0)) 1 0 in
  let w := match direction d with
           | FORWARD => Z.lor w (Z.shiftl 2 1)
           | REVERSE => Z.lor w (Z.shiftl 1 1)
           | NO_DIRECTION => w
           end in
  let w := set_if ((speed d <? 32) && (0 <=? speed d)) (Z.shiftl (speed d) 3) w in
  let w := set_if (negb (errorStatus d =? 0)) (Z.shiftl 1 8) w in
  let w := set_if (negb (noPowerError d =? 0)) (Z.shiftl 1 9) w in
  let w := set_if (negb (noTorqueError d =? 0)) (Z.shiftl 1 10) w in
  let w := set_if (negb (BITError d =? 0)) (Z.shiftl 1 11) w in
  let w := set_if (negb (overTemperatureError d =? 0)) (Z.shiftl 1 12) w in
  let w := set_if (negb (reservedError1 d =? 0)) (Z.shiftl 1 13) w in
  let w := set_if (negb (reservedError2 d =? 0)) (Z.shiftl 1 14) w in
  set_if (negb (unknownError d =? 0)) (Z.shiftl 1 15) w.

(** The flags are stored in members of type unsigned char. *)
Definition uchar (z : Z) : Z := wrap_u 8 z.

Definition unmarshal (w : Z) : MotorData :=
  let temp := Z.shiftr (Z.land w (Z.shiftl 3 1)) 1 in
  mkMotor
    (uchar (Z.land w 1))
    (if temp =? 1 then REVERSE else if temp =? 2 then FORWARD else NO_DIRECTION)
    (Z.land w (Z.shiftl 31 3))
    (uchar (Z.land w (Z.shiftl 1 8)))
    (uchar (Z.land w (Z.shiftl 1 9)))
    (uchar (Z.land w (Z.shiftl 1 10)))
    (uchar (Z.land w (Z.shiftl 1 11)))
    (uchar (wrap_u 32 (w * Z.shiftl 1 12)))
    (uchar (Z.land w (Z.shiftl 1 13)))
    (uchar (Z.land w (Z.shiftl 1 14)))
    (uchar (Z.land w (Z.shiftl 1 15))).

(** ** The operations *)

Definition MotorProxy_Init (me : MotorProxy) : MotorProxy := mkProxy None (rotaryArmLength me).

(** [fresh] is the memory that malloc returns, if any. *)
Definition MotorProxy_Create (fresh : option MotorProxy) : option MotorProxy :=
  match fresh with Some me => Some (MotorProxy_Init me) | None => None end.

Definition MotorProxy_accessMotorDirection (me : MotorProxy) : DirectionType :=
  match motor me with None => NO_DIRECTION | Some w => direction (unmarshal w) end.

Definition MotorProxy_accessMotorSpeed (me : MotorProxy) : Z :=
  match motor me with None => 0 | Some w => speed (unmarshal w) end.

Definition MotorProxy_accessMotorState (me : MotorProxy) : Z :=
  match motor me with None => 0 | Some w => errorStatus (unmarshal w) end.

(** An update of the register. *)
Definition on_register (f : Z -> Z) (me : MotorProxy) : MotorProxy :=
  mkProxy (f <$> motor me) (rotaryArmLength me).

Definition MotorProxy_clearErrorStatus : MotorProxy -> MotorProxy := on_register (fun w => Z.land w 0xFF).

Definition MotorProxy_configure (me : MotorProxy) (length : Z) (location : option Z) : MotorProxy :=
  mkProxy location length.

Definition MotorProxy_disable : MotorProxy -> MotorProxy := on_register (fun w => Z.land w 0xFFFE).
Definition MotorProxy_enable : MotorProxy -> MotorProxy := on_register (fun w => Z.lor w 1).

Definition MotorProxy_initialize : MotorProxy -> MotorProxy :=
  on_register (fun _ => marshal (mkMotor 1 NO_DIRECTION 0 0 0 0 0 0 0 0 0)).

(** Double precision: integers, the constant 3.14159 (the double nearest to that
    quotient), division and multiplication rounded to nearest. *)
Definition dbl (z : Z) : spec_float := binary_normalize 53 1024 z 0 false.
Definition ddiv : spec_float -> spec_float -> spec_float := SFdiv 53 1024.
Definition dmul : spec_float -> spec_float -> spec_float := SFmul 53 1024.
Definition dPi : spec_float := ddiv (dbl 314159) (dbl 100000).

(** [(int)]: the integral part, undefined outside of int. *)
Definition to_int (f : spec_float) : option Z :=
  match f with
  | S754_zero _ => Some 0
  | S754_finite s m e =>
      let a := if 0 <=? e then Z.shiftl (Zpos m) e else Z.shiftr (Zpos m) (- e) in
      let z := if s then - a else a in
      if (- 2 ^ 31 <=? z) && (z <? 2 ^ 31) then Some z else None
  | _ => None
  end.

(** The speed adjusted for the length of the arm. *)
Definition adjust (sp armLength : Z) : option Z :=
  to_int (dmul (ddiv (ddiv (ddiv (dbl sp) (dbl 2)) dPi) (dbl armLength)) (dbl 10)).

(** [MotorProxy_writeMotorSpeed]; no result where the conversion is undefined. *)
Definition MotorProxy_writeMotorSpeed (me : MotorProxy) (dir : DirectionType) (sp : Z) :
    option MotorProxy :=
  match motor me with
  | None => Some me
  | Some w =>
      let d := unmarshal w in
      sp' ← (if 0 <? rotaryArmLength me then adjust sp (rotaryArmLength me) else Some sp);
      Some (mkProxy (Some (marshal (mkMotor (on_off d) dir (wrap_u 32 sp') (errorStatus d) (noPowerError d)
              (noTorqueError d) (BITError d) (overTemperatureError d) (reservedError1 d)
              (reservedError2 d) (unknownError d)))) (rotaryArmLength me))
  end.

(** ** Properties *)

Example adjust_100_10 : adjust 100 10 = Some 15.
Proof. vm_compute. reflexivity. Qed.

(** The number with the bits [bs], the lowest first. *)
Fixpoint of_bits (bs : list bool) : Z :=
  match bs with [] => 0 | b :: bs' => Z.b2z b + 2 * of_bits bs' end.

(** The register by its fields. *)
Definition fields (on : bool) (dir : DirectionType) (sp : Z) (errs : Z) : Z :=
  Z.b2z on + 2 * match dir with NO_DIRECTION => 0 | REVERSE => 1 | FORWARD => 2 end + 8 * sp + 256 * errs.

Definition error_bits (d : MotorData) : Z :=
  of_bits (map (fun f => negb (f d =? 0))
    [errorStatus; noPowerError; noTorqueError; BITError; overTemperatureError; reservedError1;
     reservedError2; unknownError]).

(** What reading a register gives back. *)
Definition read_back (on : bool) (dir : DirectionType) (sp : Z) : MotorData :=
  mkMotor (Z.b2z on) dir (8 * sp) 0 0 0 0 0 0 0 0.

(** A field above the bits in use is added to them. *)
Lemma lor_above w m k : 0 <= k -> 0 <= w < 2 ^ k -> 0 <= m -> Z.lor w (Z.shiftl m k) = w + 2 ^ k * m.
Proof.
  intros Hk Hw Hm.
  assert (H0 : Z.land w (Z.shiftl m k) = 0).
  { apply Z.bits_inj'. intros n Hn. rewrite Z.land_spec, Z.bits_0.
    destruct (Z.lt_ge_cases n k); [by rewrite Z.shiftl_spec_low, andb_false_r by lia|].
    assert (Z.testbit w n = false) as ->; [|done].
    destruct (Z.eq_dec w 0) as [->|]; [apply Z.bits_0|]. apply Z.bits_above_log2; [lia|].
    assert (Z.log2 w < k) by (apply Z.log2_lt_pow2; lia). lia. }
  rewrite <- Z.lxor_lor, <- Z.add_nocarry_lxor by done. rewrite Z.shiftl_mul_pow2 by lia. lia.
Qed.

Lemma set_if_above b w m k :
  0 <= k -> 0 <= w < 2 ^ k -> 0 <= m -> set_if b (Z.shiftl m k) w = w + 2 ^ k * (Z.b2z b * m).
Proof. intros. unfold set_if. destruct b; [rewrite lor_above by done|]; simpl; lia. Qed.

(** The field of [n] bits from bit [k] on. *)
Lemma land_field w n k :
  0 <= n -> 0 <= k -> Z.land w (Z.shiftl (Z.ones n) k) = 2 ^ k * ((w / 2 ^ k) mod 2 ^ n).
Proof.
  intros Hn Hk. rewrite <- Z.land_ones, <- Z.shiftr_div_pow2, Z.mul_comm, <- Z.shiftl_mul_pow2 by lia.
  apply Z.bits_inj'. intros i Hi. rewrite Z.land_spec. destruct (Z.lt_ge_cases i k).
  - by rewrite !Z.shiftl_spec_low, andb_false_r by lia.
  - rewrite !Z.shiftl_spec_high by lia. rewrite Z.land_spec, Z.shiftr_spec by lia.
    by replace (i - k + k) with i by lia.
Qed.

(** A flag above bit 7 does not fit an unsigned char. *)
Lemma uchar_high w k : 8 <= k -> uchar (Z.land w (Z.shiftl 1 k)) = 0.
Proof.
  intros Hk. change 1 with (Z.ones 1). rewrite land_field by lia. unfold uchar, wrap_u.
  replace k with (8 + (k - 8)) at 1 by lia. rewrite Z.pow_add_r, <- Z.mul_assoc by lia.
  rewrite Z.mul_comm. apply Z_mod_mult.
Qed.

Lemma marshal_fields d :
  marshal d = fields (negb (on_off d =? 0)) (direction d)
    (if (speed d <? 32) && (0 <=? speed d) then speed d else 0) (error_bits d).
Proof.
  unfold marshal, error_bits. cbn [map of_bits].
  set (bs := (speed d <? 32) && (0 <=? speed d)).
  assert (Hsp : bs = true -> 0 <= speed d < 32) by (unfold bs; intros; bool_to_prop; lia).
  set (w0 := set_if _ 1 0).
  assert (Hw0 : w0 = Z.b2z (negb (on_off d =? 0))) by (unfold w0, set_if; by destruct (negb _)).
  set (w1 := match direction d with FORWARD => _ | REVERSE => _ | NO_DIRECTION => _ end).
  set (dd := match direction d with NO_DIRECTION => 0 | REVERSE => 1 | FORWARD => 2 end).
  assert (Hb0 : 0 <= w0 < 2) by (rewrite Hw0; destruct (negb _); simpl; lia).
  assert (Hdd : 0 <= dd < 3) by (unfold dd; destruct (direction d); lia).
  assert (Hw1 : w1 = w0 + 2 * dd).
  { unfold w1, dd. destruct (direction d); [lia| |]; rewrite lor_above by lia; lia. }
  assert (Hs : set_if bs (Z.shiftl (speed d) 3) w1 = w1 + 8 * (if bs then speed d else 0)).
  { unfold set_if. destruct bs; [|lia]. specialize (Hsp eq_refl).
    rewrite lor_above; [change (2 ^ 3) with 8; lia|lia|change (2 ^ 3) with 8; lia|lia]. }
  rewrite Hs. clear Hs.
  assert (Hb : 0 <= (if bs then speed d else 0) < 32) by (destruct bs; [by apply Hsp|lia]).
  generalize dependent (if bs then speed d else 0). intros sp Hb. clear Hsp bs.
  assert (Hstep : forall b w k, 0 <= w < 2 ^ k -> 0 <= k ->
    set_if b (Z.shiftl 1 k) w = w + 2 ^ k * Z.b2z b /\ 0 <= w + 2 ^ k * Z.b2z b < 2 ^ (k + 1)).
  { intros b w k Hw Hk. rewrite set_if_above by lia. split; [lia|].
    rewrite Z.pow_add_r by lia. destruct b; simpl; lia. }
  assert (H8 : 0 <= w1 + 8 * sp < 2 ^ 8) by (rewrite Hw1; lia).
  unfold fields. fold dd. rewrite <- Hw0.
  repeat match goal with
    | H : 0 <= ?w < _ |- context [set_if ?b (Z.shiftl 1 ?k) ?w] =>
        let E := fresh in let B := fresh in
        destruct (Hstep b w k H ltac:(lia)) as [E B]; rewrite E; clear E
    end.
  rewrite Hw1.
  change (2 ^ 8) with 256. change (2 ^ 9) with 512. change (2 ^ 10) with 1024. change (2 ^ 11) with 2048.
  change (2 ^ 12) with 4096. change (2 ^ 13) with 8192. change (2 ^ 14) with 16384. change (2 ^ 15) with 32768.
  lia.
Qed.

Lemma unmarshal_fields on dir sp errs :
  0 <= sp < 32 -> 0 <= errs -> unmarshal (fields on dir sp errs) = read_back on dir sp.
Proof.
  intros Hsp He. set (w := fields on dir sp errs). unfold unmarshal, read_back.
  rewrite !uchar_high by lia.
  assert (E12 : uchar (wrap_u 32 (w * Z.shiftl 1 12)) = 0).
  { unfold uchar, wrap_u. change (2 ^ 32) with (2 ^ 8 * 2 ^ 24). rewrite Z.rem_mul_r by lia.
    rewrite Z.add_comm, Z.mul_comm, Z.add_comm, Z_mod_plus_full, Zmod_mod.
    change (Z.shiftl 1 12) with (16 * 2 ^ 8). rewrite Z.mul_assoc, Z_mod_mult. done. }
  rewrite E12. change 31 with (Z.ones 5). change (Z.shiftl 3 1) with (Z.shiftl (Z.ones 2) 1).
  change (Z.land w 1) with (Z.land w (Z.ones 1)). rewrite Z.land_ones, !land_field by lia.
  set (dd := match dir with NO_DIRECTION => 0 | REVERSE => 1 | FORWARD => 2 end).
  assert (Hw : w = Z.b2z on + 2 * dd + 8 * sp + 256 * errs) by done.
  assert (Hdd : 0 <= dd < 3) by (unfold dd; destruct dir; lia).
  assert (E1 : w mod 2 ^ 1 = Z.b2z on).
  { change (2 ^ 1) with 2. rewrite Hw. symmetry. apply (Z.mod_unique_pos _ _ (dd + 4 * sp + 128 * errs)); destruct on; simpl; lia. }
  assert (E2 : (w / 2 ^ 1) mod 2 ^ 2 = dd).
  { change (2 ^ 1) with 2. change (2 ^ 2) with 4.
    rewrite <- (Z.div_unique_pos w 2 (dd + 4 * sp + 128 * errs) (Z.b2z on)); [|destruct on; simpl; lia|lia].
    symmetry. apply (Z.mod_unique_pos _ _ (sp + 32 * errs)); lia. }
  assert (E3 : (w / 2 ^ 3) mod 2 ^ 5 = sp).
  { change (2 ^ 3) with 8. change (2 ^ 5) with 32.
    rewrite <- (Z.div_unique_pos w 8 (sp + 32 * errs) (Z.b2z on + 2 * dd)); [|destruct on; simpl; lia|lia].
    symmetry. apply (Z.mod_unique_pos _ _ errs); lia. }
  rewrite E1, E2, E3. change (2 ^ 1 * dd) with (2 * dd).
  replace (Z.shiftr (2 * dd) 1) with dd.
  2:{ rewrite Z.shiftr_div_pow2 by lia. change (2 ^ 1) with 2. rewrite Z.mul_comm, Z.div_mul; lia. }
  assert (Ed : (if dd =? 1 then REVERSE else if dd =? 2 then FORWARD else NO_DIRECTION) = dir)
    by (unfold dd; by destruct dir).
  rewrite Ed. f_equal. by destruct on.
Qed.

(** C39: The register is packed field by field (the enable bit, two bits of direction,
    five bits of speed, eight error bits, no field disturbing another), a speed that
    does not fit leaves the speed field zero; and unpacking gives back the enable
    bit and the direction, but eight times the speed, and no error at all. *)
Theorem motor_register_roundtrip d :
  let sp := if (speed d <? 32) && (0 <=? speed d) then speed d else 0 in
  marshal d = fields (negb (on_off d =? 0)) (direction d) sp (error_bits d) /\
  unmarshal (marshal d) = read_back (negb (on_off d =? 0)) (direction d) sp.
Proof.
  intros sp. split; [apply marshal_fields|]. rewrite marshal_fields. apply unmarshal_fields.
  - fold sp. unfold sp. destruct ((speed d <? 32) && (0 <=? speed d)) eqn:E; bool_to_prop; lia.
  - unfold error_bits. cbn [map of_bits].
    repeat match goal with |- context [Z.b2z ?b] => lazymatch b with true => fail | false => fail | _ => destruct b end end;
      simpl; lia.
Qed.

(** Writing a speed and reading it back, with no arm: the direction is right, the
    speed eight times what was written, and error bits that the device had set are
    gone. *)
Lemma motor_write_then_read w dir sp on dir0 sp0 errs :
  w = fields on dir0 sp0 errs -> 0 <= sp0 < 32 -> 0 <= errs -> 0 <= sp < 32 ->
  exists me, MotorProxy_writeMotorSpeed (mkProxy (Some w) 0) dir sp = Some me /\
    motor me = Some (fields on dir sp 0) /\
    MotorProxy_accessMotorDirection me = dir /\ MotorProxy_accessMotorSpeed me = 8 * sp.
Proof.
  intros -> H0 He Hsp. unfold MotorProxy_writeMotorSpeed. cbn [motor rotaryArmLength].
  rewrite unmarshal_fields by done. cbn [Z.ltb Z.compare mbind option_bind]. eexists. split; [done|].
  assert (Hw : wrap_u 32 sp = sp) by (apply Z.mod_small; lia).
  assert (E : forall d, d = mkMotor (Z.b2z on) dir (wrap_u 32 sp) 0 0 0 0 0 0 0 0 ->
    marshal d = fields on dir sp 0).
  { intros d ->. rewrite marshal_fields. cbn [on_off direction speed]. rewrite Hw.
    rewrite (proj2 (Z.ltb_lt sp 32)), (proj2 (Z.leb_le 0 sp)) by lia.
    by replace (negb (Z.b2z on =? 0)) with on by by destruct on. }
  unfold MotorProxy_accessMotorDirection, MotorProxy_accessMotorSpeed. cbn [motor].
  unfold read_back. cbn [on_off errorStatus noPowerError noTorqueError BITError overTemperatureError
    reservedError1 reservedError2 unknownError].
  rewrite !(E _ eq_refl), unmarshal_fields by lia. done.
Qed.
