(* ===== verification/ShmXfr.v ===== *)
(** * ShmXfr: copying through shared memory in lock step.

    tlpi-dist/svsem/binary_sems.c, and the two processes that use it,
    svshm/svshm_xfr_writer.c and svshm_xfr_reader.c.  A step is one system call of
    one process, with the accesses to the shared segment up to the next call, and
    the processes interleave at every step. *)
From S2P Require Import Prelude.
Local Open Scope Z_scope.

Definition BUF_SIZE : Z := 1024.
Definition WRITE_SEM : nat := 0.
Definition READ_SEM : nat := 1.

(** ** binary_sems.c *)

(** A set of semaphores; [None] when it has been removed. *)
Abbreviation semset := (option (list Z)).

(** The outcome of a call on the set: it returns, waits, or fails. *)
Inductive semres := SemOk (s : list Z) | SemWait | SemFail.

(** [semctl] with SETVAL; it fails for a number outside the set. *)
Definition setval (s : semset) (n : nat) (v : Z) : semres :=
  match s with
  | None => SemFail
  | Some l => if (n <? length l)%nat then SemOk (<[n := v]> l) else SemFail
  end.

Definition initSemAvailable (s : semset) (n : nat) : semres := setval s n 1.
Definition initSemInUse (s : semset) (n : nat) : semres := setval s n 0.

(** [semop] with [sem_op = -1]: waits until the value is positive.  A wait that a
    signal interrupts is begun again ([bsRetryOnEintr] is TRUE). *)
Definition reserveSem (s : semset) (n : nat) : semres :=
  match s with
  | None => SemFail
  | Some l => match l !! n with
      | Some v => if 0 <? v then SemOk (<[n := v - 1]> l) else SemWait
      | None => SemFail
      end
  end.

Definition releaseSem (s : semset) (n : nat) : semres :=
  match s with
  | None => SemFail
  | Some l => match l !! n with Some v => SemOk (<[n := v + 1]> l) | None => SemFail end
  end.

(** ** The processes *)

(** Where a process is; [WExit] and [RExit]: after errExit or fatal; [WUndef] and
    [RUndef]: a counter has overflowed. *)
Inductive wpc := WReserve | WRead | WRelease | WTest | WLast | WRemove | WDone | WExit | WUndef.
Inductive rpc := RReserve | RTest | RWrite | RRelease | RDetach | RFinal | RDone | RExit | RUndef.

(** Addition of ints; the overflow is undefined. *)
Definition INT_MAX : Z := 2147483647.
Definition int_add (a b : Z) : option Z := if (- INT_MAX - 1 <=? a + b) && (a + b <=? INT_MAX) then Some (a + b) else None.

(** What the writer's next reads of standard input return: blocks, or an error;
    then the end of file. *)
Inductive inp := Block (b : bytes) | ReadErr.

Record xst := mkX {
  sems : semset;
  cnt : Z; buf : bytes;                     (* struct shmseg *)
  w_pc : wpc; w_xfrs : Z; w_bytes : Z;      (* the writer, with its ints *)
  input : list inp;
  r_pc : rpc; r_xfrs : Z; r_bytes : Z;      (* the reader, with its ints *)
  output : bytes                            (* what it has written *)
}.

Definition upd_w (s : xst) (ss : semset) (pc : wpc) : xst :=
  mkX ss (cnt s) (buf s) pc (w_xfrs s) (w_bytes s) (input s) (r_pc s) (r_xfrs s) (r_bytes s) (output s).
Definition upd_r (s : xst) (ss : semset) (pc : rpc) : xst :=
  mkX ss (cnt s) (buf s) (w_pc s) (w_xfrs s) (w_bytes s) (input s) pc (r_xfrs s) (r_bytes s) (output s).

(** A call of the writer on the set, and where it goes on; errExit when it fails. *)
Definition w_call (s : xst) (r : semres) (next : wpc) : option xst :=
  match r with
  | SemOk l => Some (upd_w s (Some l) next)
  | SemWait => None
  | SemFail => Some (upd_w s (sems s) WExit)
  end.
Definition r_call (s : xst) (r : semres) (next : rpc) : option xst :=
  match r with
  | SemOk l => Some (upd_r s (Some l) next)
  | SemWait => None
  | SemFail => Some (upd_r s (sems s) RExit)
  end.

(** The next step of the writer; none when it waits or has ended. *)
Definition wstep (s : xst) : option xst :=
  match w_pc s with
  | WReserve => w_call s (reserveSem (sems s) WRITE_SEM) WRead
  | WRead =>
      match input s with
      | [] => Some (mkX (sems s) 0 (buf s) WRelease (w_xfrs s) (w_bytes s) [] (r_pc s) (r_xfrs s) (r_bytes s) (output s))
      | Block b :: rest =>
          Some (mkX (sems s) (Z.of_nat (length b)) (b ++ drop (length b) (buf s)) WRelease
                  (w_xfrs s) (w_bytes s) rest (r_pc s) (r_xfrs s) (r_bytes s) (output s))
      | ReadErr :: rest =>
          Some (mkX (sems s) (-1) (buf s) WExit (w_xfrs s) (w_bytes s) rest (r_pc s) (r_xfrs s) (r_bytes s) (output s))
      end
  | WRelease => w_call s (releaseSem (sems s) READ_SEM) WTest
  | WTest =>
      if cnt s =? 0 then Some (upd_w s (sems s) WLast)
      else
        match int_add (w_xfrs s) 1, int_add (w_bytes s) (cnt s) with
        | Some xfrs, Some bytes =>
            Some (mkX (sems s) (cnt s) (buf s) WReserve xfrs bytes (input s) (r_pc s) (r_xfrs s) (r_bytes s) (output s))
        | _, _ => Some (upd_w s (sems s) WUndef)
        end
  | WLast => w_call s (reserveSem (sems s) WRITE_SEM) WRemove
  | WRemove => Some (upd_w s None WDone)
  | WDone | WExit | WUndef => None
  end.

(** The next step of the reader; [ok] says whether its write is complete. *)
Definition rstep (ok : bool) (s : xst) : option xst :=
  match r_pc s with
  | RReserve => r_call s (reserveSem (sems s) READ_SEM) RTest
  | RTest =>
      if cnt s =? 0 then Some (upd_r s (sems s) RDetach)
      else
        match int_add (r_bytes s) (cnt s) with
        | Some bytes =>
            Some (mkX (sems s) (cnt s) (buf s) (w_pc s) (w_xfrs s) (w_bytes s) (input s) RWrite (r_xfrs s) bytes (output s))
        | None => Some (upd_r s (sems s) RUndef)
        end
  | RWrite =>
      if ok then
        Some (mkX (sems s) (cnt s) (buf s) (w_pc s) (w_xfrs s) (w_bytes s) (input s)
                RRelease (r_xfrs s) (r_bytes s) (output s ++ take (Z.to_nat (cnt s)) (buf s)))
      else Some (upd_r s (sems s) RExit)
  | RRelease =>
      match releaseSem (sems s) WRITE_SEM with
      | SemOk l =>
          match int_add (r_xfrs s) 1 with
          | Some xfrs =>
              Some (mkX (Some l) (cnt s) (buf s) (w_pc s) (w_xfrs s) (w_bytes s) (input s) RReserve xfrs (r_bytes s) (output s))
          | None => Some (upd_r s (Some l) RUndef)
          end
      | r => r_call s r RReserve
      end
  | RDetach => Some (upd_r s (sems s) RFinal)
  | RFinal => r_call s (releaseSem (sems s) WRITE_SEM) RDone
  | RDone | RExit | RUndef => None
  end.

(** The state when the reader may be started: the writer has created and
    initialized the set ([fresh] is what a new set holds) and the segment. *)
Definition xfr_init (fresh : list Z) (seg_cnt : Z) (seg_buf : bytes) (inputs : list inp) : option xst :=
  match initSemAvailable (Some fresh) WRITE_SEM with
  | SemOk l =>
      match initSemInUse (Some l) READ_SEM with
      | SemOk l => Some (mkX (Some l) seg_cnt seg_buf WReserve 0 0 inputs RReserve 0 0 [])
      | _ => None
      end
  | _ => None
  end.

(** Interleavings; an interrupted wait changes nothing and is no step. *)
Inductive xstep (s s' : xst) : Prop :=
| step_writer : wstep s = Some s' -> xstep s s'
| step_reader ok : rstep ok s = Some s' -> xstep s s'.

(** Runs in which every write of the reader is complete. *)
Inductive good_step (s s' : xst) : Prop :=
| good_writer : wstep s = Some s' -> good_step s s'
| good_reader : rstep true s = Some s' -> good_step s s'.

(** ** The invariant *)

(** The bytes that can be read, up to an error. *)
Fixpoint bytes_of (l : list inp) : bytes :=
  match l with Block b :: l' => b ++ bytes_of l' | _ => [] end.

(** Blocks are not empty and fit the buffer. *)
Definition blocks_ok (l : list inp) : Prop :=
  Forall (fun i => match i with Block b => 0 < Z.of_nat (length b) <= BUF_SIZE | ReadErr => True end) l.

Definition no_errors (l : list inp) : Prop := Forall (fun i => i <> ReadErr) l.

(** Who may touch the segment. *)
Definition writer_in (pc : wpc) : bool := match pc with WRead | WRelease => true | _ => false end.
Definition reader_in (pc : rpc) : bool :=
  match pc with RTest | RWrite | RRelease | RDetach => true | _ => false end.

Lemma int_add_ok a b : 0 <= a + b <= INT_MAX -> int_add a b = Some (a + b).
Proof. intros H. unfold int_add. rewrite (proj2 (Z.leb_le _ _)), (proj2 (Z.leb_le _ _)); unfold INT_MAX in *; done || lia. Qed.

Section Inv.
Context (T : bytes).   (* all that is to be copied *)
Context (T_fits : Z.of_nat (length T) <= INT_MAX).   (* no counter overflows *)

Definition block (s : xst) : bytes := take (Z.to_nat (cnt s)) (buf s).

(** The block in the segment: none at the end of the input. *)
Definition block_ok (s : xst) : Prop :=
  0 < cnt s <= BUF_SIZE \/ cnt s = 0 /\ bytes_of (input s) = [] /\ input s = [].

(** The block is waiting for the reader, or has been copied; [x] and [n] are the
    blocks and bytes before it. *)
Definition waiting (s : xst) (x n : Z) : Prop :=
  output s ++ block s ++ bytes_of (input s) = T /\ r_xfrs s = x /\ Z.of_nat (length (output s)) = n.
Definition copied (s : xst) (x n : Z) : Prop :=
  output s ++ bytes_of (input s) = T /\ r_xfrs s = x /\ Z.of_nat (length (output s)) = n + cnt s /\
  r_bytes s = n + cnt s.

(** The reader, when the writer has passed on a block. *)
Definition reader_side (s : xst) (x n : Z) : Prop :=
  match r_pc s with
  | RReserve => (sems s = Some [0; 1] /\ waiting s x n /\ r_bytes s = n) \/
                (sems s = Some [1; 0] /\ 0 < cnt s /\ copied s (x + 1) n)
  | RTest => sems s = Some [0; 0] /\ waiting s x n /\ r_bytes s = n
  | RWrite => sems s = Some [0; 0] /\ 0 < cnt s /\ waiting s x n /\ r_bytes s = n + cnt s
  | RRelease => sems s = Some [0; 0] /\ 0 < cnt s /\ copied s x n
  | RDetach | RFinal => sems s = Some [0; 0] /\ cnt s = 0 /\ copied s x n
  | RDone => sems s = Some [1; 0] /\ cnt s = 0 /\ copied s x n
  | RExit | RUndef => False
  end.

(** Nothing is under way: what the writer has read the reader has copied. *)
Definition even (s : xst) : Prop :=
  output s ++ bytes_of (input s) = T /\ r_xfrs s = w_xfrs s /\ r_bytes s = w_bytes s /\
  Z.of_nat (length (output s)) = w_bytes s.

Definition control (s : xst) : Prop :=
  match w_pc s with
  | WReserve => (r_pc s = RReserve /\ sems s = Some [1; 0] /\ even s) \/
                (block_ok s /\ 0 < cnt s /\ 0 <= w_xfrs s - 1 <= w_bytes s - cnt s /\
                 reader_side s (w_xfrs s - 1) (w_bytes s - cnt s))
  | WRead => r_pc s = RReserve /\ sems s = Some [0; 0] /\ even s
  | WRelease => r_pc s = RReserve /\ sems s = Some [0; 0] /\ block_ok s /\
                waiting s (w_xfrs s) (w_bytes s) /\ r_bytes s = w_bytes s
  | WTest => block_ok s /\ reader_side s (w_xfrs s) (w_bytes s)
  | WLast => block_ok s /\ cnt s = 0 /\ reader_side s (w_xfrs s) (w_bytes s)
  | WRemove => r_pc s = RDone /\ sems s = Some [0; 0] /\ even s /\ input s = []
  | WDone => r_pc s = RDone /\ sems s = None /\ even s /\ input s = []
  | WExit | WUndef => False
  end.

Record inv (s : xst) : Prop := {
  inv_blocks : blocks_ok (input s);
  inv_buf : Z.of_nat (length (buf s)) = BUF_SIZE;
  inv_xfrs : 0 <= w_xfrs s <= w_bytes s;
  inv_control : control s;
}.

(** A process has given up, which it does only while it has the segment, so that
    the other waits for ever. *)
Definition dead (s : xst) : Prop :=
  sems s = Some [0; 0] /\ output s `prefix_of` T /\
  (r_pc s = RExit /\ 0 < cnt s /\
   (w_pc s = WTest /\ 0 <= w_xfrs s <= w_bytes s /\ w_bytes s + cnt s <= Z.of_nat (length T) \/ w_pc s = WReserve) \/
   w_pc s = WExit /\ r_pc s = RReserve).

Lemma block_eq (s : xst) b rest :
  length b = Z.to_nat (cnt s) -> buf s = b ++ rest -> block s = b.
Proof. intros Hl Hb. unfold block. by rewrite Hb, <- Hl, take_app_length. Qed.

Lemma length_block s : Z.of_nat (length (buf s)) = BUF_SIZE -> block_ok s -> Z.of_nat (length (block s)) = cnt s.
Proof. intros Hb Hk. unfold block, block_ok in *. rewrite length_take. lia. Qed.

(** The counters with the block in the segment stay within the input. *)
Lemma waiting_fits s x n :
  Z.of_nat (length (buf s)) = BUF_SIZE -> block_ok s -> waiting s x n -> 0 <= n /\ 0 <= cnt s /\ n + cnt s <= Z.of_nat (length T).
Proof.
  intros Hb Hk (Ho & _ & Hn). pose proof (length_block s Hb Hk) as Hl. pose proof (f_equal length Ho) as Ht.
  rewrite !length_app in Ht. lia.
Qed.
Lemma side_fits s x n :
  Z.of_nat (length (buf s)) = BUF_SIZE -> block_ok s -> reader_side s x n -> n + cnt s <= Z.of_nat (length T).
Proof.
  intros Hb Hk Hr.
  assert (Hc : forall y, copied s y n -> n + cnt s <= Z.of_nat (length T)).
  { intros y (Ho & _ & Hn & _). pose proof (f_equal length Ho) as Ht. rewrite length_app in Ht. lia. }
  assert (Hw : waiting s x n -> n + cnt s <= Z.of_nat (length T)) by (intros H; by eapply waiting_fits).
  unfold reader_side in Hr. destruct (r_pc s); naive_solver.
Qed.

(** Case analysis on the state, with the facts about it taken apart. *)
Ltac open_x :=
  repeat match goal with
  | H : _ /\ _ |- _ => destruct H
  | H : _ \/ _ |- _ => destruct H
  | H : False |- _ => destruct H
  | H : Some _ = Some _ |- _ => injection H as H; subst
  | H : Some _ = None |- _ => discriminate H
  | H : None = Some _ |- _ => discriminate H
  | H : mkX _ _ _ _ _ _ _ _ _ _ _ = _ |- _ => subst
  end.

Lemma wstep_inv s s' : inv s -> wstep s = Some s' -> inv s' \/ dead s'.
Proof.
  destruct s as [ss c b wp wx wb ins rp rx rb out]. intros [Hb Hl Hx Hc] E.
  unfold wstep, w_call, reserveSem, releaseSem, upd_w in E. unfold control in Hc. cbn in Hb, Hl, Hx, Hc, E.
  destruct wp.
  - (* WReserve *) left. destruct Hc as [(-> & -> & He)|(Hk & Hcn & Hxn & Hr)].
    + cbn in E. open_x. split; [done|done|done|]. by split_and!.
    + unfold reader_side in Hr. cbn in Hr. destruct rp; open_x; subst; cbn in E; try discriminate E; try lia.
      open_x. split; [done|done|done|]. unfold control, even, copied in *. cbn in *. intuition lia.
  - (* WRead *) destruct Hc as (-> & -> & He). unfold even in He. cbn in He. destruct ins as [|[blk|] rest]; open_x.
    + left. split; [done|done|done|]. unfold control, block_ok, waiting, block. cbn. rewrite !app_nil_r in *.
      split_and!; try done. by right.
    + left. apply Forall_cons in Hb as [Hb1 Hb2].
      assert (Hd : Z.of_nat (length (blk ++ drop (length blk) b)) = BUF_SIZE) by (rewrite length_app, length_drop; lia).
      split; [done|exact Hd|done|]. unfold control, block_ok, waiting, block. cbn.
      rewrite Nat2Z.id, take_app_length. split_and!; try done. by left.
    + right. split_and!; [done| |right; by split]. cbn. by exists [].
  - (* WRelease *) left. destruct Hc as (-> & -> & Hk & Hw & Hrb). cbn in E. open_x.
    split; [done|done|done|]. split; [done|]. left. by split_and!.
  - (* WTest *) left. destruct Hc as [Hk Hr]. destruct (Z.eqb_spec c 0) as [->|Hne].
    + injection E as <-. split; [done|done|done|]. split; [done|]. by split.
    + pose proof (side_fits (mkX ss c b WTest wx wb ins rp rx rb out) _ _ Hl Hk Hr) as Hf. unfold block_ok in Hk. cbn in Hk, Hf.
      rewrite !int_add_ok in E by lia. injection E as <-.
      split; [done|done|cbn; lia|]. right. split; [done|]. split; [cbn; lia|]. split; [cbn; lia|].
      unfold reader_side, waiting, copied, block in *. cbn in *.
      replace (wx + 1 - 1) with wx by lia. replace (wb + c - c) with wb by lia. done.
  - (* WLast *) left. destruct Hc as (Hk & -> & Hr). unfold reader_side in Hr. cbn in Hr.
    destruct rp; open_x; subst; cbn in E; try discriminate E; try lia. open_x.
    split; [done|done|done|]. unfold control, even, copied, block_ok in *. cbn in *. intuition lia.
  - (* WRemove *) left. destruct Hc as (-> & -> & He & ->). open_x. split; [done|done|done|]. by split_and!.
  - discriminate E.
  - destruct Hc.
  - destruct Hc.
Qed.

Definition same_writer (s s' : xst) : Prop :=
  cnt s' = cnt s /\ buf s' = buf s /\ w_pc s' = w_pc s /\ w_xfrs s' = w_xfrs s /\
  w_bytes s' = w_bytes s /\ input s' = input s.

(** The reader's steps on a block. *)
Lemma rstep_side ok s s' x n :
  Z.of_nat (length (buf s)) = BUF_SIZE -> block_ok s -> 0 <= x -> x <= n -> reader_side s x n -> rstep ok s = Some s' ->
  same_writer s s' /\ (reader_side s' x n \/ r_pc s' = RExit /\ sems s' = Some [0; 0] /\ 0 < cnt s /\ output s' `prefix_of` T).
Proof.
  intros Hl Hk Hx0 Hxn Hr E. assert (Hlb := length_block s Hl Hk). pose proof (side_fits _ _ _ Hl Hk Hr) as Hfit.
  unfold rstep, r_call, reserveSem, releaseSem, upd_r in E. unfold reader_side in Hr.
  destruct (r_pc s) eqn:Ep; open_x.
  - (* RReserve, a block waits *) rewrite H in E. cbn in E. injection E as <-. split; [done|]. left. by split_and!.
  - rewrite H in E. cbn in E. discriminate E.
  - (* RTest *) destruct (waiting_fits s x n Hl Hk ltac:(done)) as (Hn0 & Hc0 & _).
    destruct (Z.eqb_spec (cnt s) 0) as [Hc|Hc]; [|rewrite int_add_ok in E by lia]; injection E as <-; (split; [done|]); left.
    + unfold reader_side, waiting, copied, block_ok, block in *. cbn.
      destruct Hk as [?|(_ & Hin & _)]; [lia|]. destruct H0 as (Ho & ? & ?). rewrite Hc in Ho. simpl in Ho.
      rewrite Hc. split_and!; try done; lia.
    + unfold reader_side, waiting, block_ok, block in *. cbn. split_and!; try done; try apply H0; lia.
  - (* RWrite *) destruct ok; injection E as <-; (split; [done|]).
    + left. unfold reader_side, waiting, copied in *. cbn. fold (block s). destruct H1 as (Ho & ? & ?).
      rewrite <- app_assoc, length_app. split_and!; try done. lia.
    + right. split_and!; try done. cbn. destruct H1 as (Ho & _). rewrite <- Ho. by exists (block s ++ bytes_of (input s)).
  - (* RRelease *) rewrite H in E. cbn in E.
    assert (r_xfrs s = x) as Hrx by (unfold copied in *; tauto). rewrite int_add_ok in E by lia. injection E as <-. split; [done|]. left.
    unfold reader_side, copied in *. cbn. right. intuition lia.
  - (* RDetach *) split; [done|]. left. by split_and!.
  - (* RFinal *) rewrite H in E. cbn in E. injection E as <-. split; [done|]. left. by split_and!.
Qed.

Lemma rstep_inv ok s s' : inv s -> rstep ok s = Some s' -> inv s' \/ dead s'.
Proof.
  intros [Hb Hl Hx Hc] E.
  (* while nothing waits the reader is blocked, and when it is done it has no step *)
  assert (Hblk : forall v, r_pc s = RReserve -> sems s = Some [v; 0] -> False).
  { intros v Hp Hs. unfold rstep in E. rewrite Hp, Hs in E. discriminate E. }
  assert (Hdone : r_pc s <> RDone) by (intros Hp; unfold rstep in E; rewrite Hp in E; discriminate E).
  assert (Hfit : w_pc s = WTest -> 0 <= w_xfrs s <= w_bytes s /\ w_bytes s + cnt s <= Z.of_nat (length T)).
  { intros Hw. unfold control in Hc. rewrite Hw in Hc. destruct Hc as [Hk Hr]. split; [done|]. by eapply side_fits. }
  assert (Hgo : forall x n, block_ok s -> 0 <= x <= n -> reader_side s x n ->
    w_pc s = WTest \/ w_pc s = WReserve \/ cnt s = 0 ->
    (reader_side s' x n -> same_writer s s' -> block_ok s' -> control s') -> inv s' \/ dead s').
  { intros x n Hk Hxn Hr Hw Hctl.
    destruct (rstep_side ok s s' x n Hl Hk (proj1 Hxn) (proj2 Hxn) Hr E) as [(E1 & E2 & E3 & E4 & E5 & E6) [Hr'|(Hrx & Hs & Hc0 & Hp)]].
    - left. split; [by rewrite E6|by rewrite E2|by rewrite E4, E5|]. apply Hctl; [done|by split_and!|].
      unfold block_ok in *. by rewrite E1, E6.
    - right. split_and!; [done..|]. left. rewrite E1, E3, E4, E5. split_and!; [done..|].
      destruct Hw as [?|[?|?]]; [left; split; [done|by apply Hfit]|by right|lia]. }
  unfold control in Hc. destruct (w_pc s) eqn:Ep.
  - destruct Hc as [(Hp & Hs & _)|(Hk & Hcn & Hxn & Hr)]; [by destruct (Hblk 1)|].
    eapply Hgo; [done|exact Hxn|exact Hr|tauto|]. intros Hr' (E1 & E2 & E3 & E4 & E5 & E6) Hk'.
    unfold control. rewrite E3, Ep. right. rewrite E1, E4, E5. do 3 (split; [done|]). done.
  - destruct Hc as (Hp & Hs & _). by destruct (Hblk 0).
  - destruct Hc as (Hp & Hs & _). by destruct (Hblk 0).
  - destruct Hc as [Hk Hr]. eapply Hgo; [done|exact Hx|exact Hr|tauto|].
    intros Hr' (E1 & E2 & E3 & E4 & E5 & E6) Hk'. unfold control. rewrite E3, Ep, E4, E5. by split.
  - destruct Hc as (Hk & Hcn & Hr). eapply Hgo; [done|exact Hx|exact Hr|tauto|].
    intros Hr' (E1 & E2 & E3 & E4 & E5 & E6) Hk'. unfold control. rewrite E3, Ep, E1, E4, E5. by split_and!.
  - by destruct Hc as (Hp & _).
  - by destruct Hc as (Hp & _).
  - done.
  - done.
Qed.

Lemma dead_step s s' : dead s -> xstep s s' -> dead s'.
Proof.
  intros (Hs & Hp & Hd) [E|ok E].
  - unfold wstep in E. destruct Hd as [(Hr & Hc & [(Hw & Hx & Hb)|Hw])|(Hw & _)]; rewrite Hw in E.
    + rewrite (proj2 (Z.eqb_neq _ _)) in E by lia. rewrite !int_add_ok in E by lia. injection E as <-. split_and!; [done..|]. left. by auto.
    + by rewrite Hs in E.
    + done.
  - unfold rstep in E. destruct Hd as [(Hr & _)|(_ & Hr)]; rewrite Hr in E; [done|]. by rewrite Hs in E.
Qed.

Lemma inv_prefix s : inv s -> output s `prefix_of` T.
Proof.
  intros [_ _ _ Hc].
  assert (Hw : forall x n, waiting s x n -> output s `prefix_of` T) by (intros x n [<- _]; by eexists).
  assert (Hcp : forall x n, copied s x n -> output s `prefix_of` T) by (intros x n [<- _]; by eexists).
  assert (He : even s -> output s `prefix_of` T) by (intros [<- _]; by eexists).
  assert (Hr : forall x n, reader_side s x n -> output s `prefix_of` T).
  { intros x n H. unfold reader_side in H. destruct (r_pc s); open_x; eauto. }
  unfold control in Hc. destruct (w_pc s); open_x; eauto.
Qed.

Lemma inv_defined s : inv s -> w_pc s <> WUndef /\ r_pc s <> RUndef.
Proof.
  intros [_ _ _ Hc]. unfold control, reader_side in Hc.
  split; intros Hp; rewrite Hp in Hc; [done|]. destruct (w_pc s); open_x; congruence || done.
Qed.

(** ** Progress *)

(** The steps that are left for each process. *)
Definition left_w (s : xst) : nat :=
  let n := (4 * length (input s))%nat in
  match w_pc s with
  | WReserve => n + 6
  | WRead => n + 5
  | WRelease => if (cnt s =? 0)%Z then 4 else n + 8
  | WTest => if (cnt s =? 0)%Z then 3 else n + 7
  | WLast => 2
  | WRemove => 1
  | WDone | WExit | WUndef => 0
  end.

Definition one_waits (s : xst) : nat :=
  if (0 <? cnt s) && match w_pc s, sems s with WRelease, _ | _, Some [_; 1] => true | _, _ => false end
  then 4 else 0.

Definition left_r (s : xst) : nat :=
  let n := (4 * length (input s))%nat in
  match r_pc s with
  | RReserve => n + one_waits s + 4
  | RTest => if (cnt s =? 0)%Z then 3 else n + 7
  | RWrite => n + 6
  | RRelease => n + 5
  | RDetach => 2
  | RFinal => 1
  | RDone | RExit | RUndef => 0
  end.

Lemma wstep_left s s' :
  inv s -> no_errors (input s) -> wstep s = Some s' ->
  (left_w s' + left_r s' < left_w s + left_r s)%nat /\ no_errors (input s') /\
  w_pc s' <> WExit /\ r_pc s' = r_pc s.
Proof.
  destruct s as [ss c b wp wx wb ins rp rx rb out]. intros [Hb Hl Hx Hc] Hne E.
  unfold wstep, w_call, reserveSem, releaseSem, upd_w in E. unfold control in Hc.
  cbn in Hb, Hl, Hc, E, Hne. unfold left_w, left_r, one_waits. destruct wp.
  - destruct Hc as [(-> & -> & He)|(Hk & Hcn & Hr)].
    + cbn in E. open_x. cbn. rewrite !andb_false_r. split_and!; try done. lia.
    + unfold reader_side in Hr. cbn in Hr. destruct rp; open_x; subst; cbn in E; try discriminate E; try lia.
      open_x. cbn. rewrite !andb_false_r. split_and!; try done. lia.
  - destruct Hc as (-> & -> & He). destruct ins as [|[blk|] rest]; open_x.
    + cbn. rewrite !andb_false_r. split_and!; try done. lia.
    + apply Forall_cons in Hb as [Hb1 Hb2]. apply Forall_cons in Hne as [_ Hne]. cbn.
      rewrite (proj2 (Z.eqb_neq _ 0)), (proj2 (Z.ltb_lt 0 _)), !andb_false_r by lia. cbn.
      split_and!; try done. lia.
    + by apply Forall_cons in Hne as [? _].
  - destruct Hc as (-> & -> & Hk & Hw & Hrb). cbn in E. open_x. cbn. unfold block_ok in Hk. cbn in Hk.
    split_and!; try done. destruct (Z.eqb_spec c 0) as [->|Hc0]; [cbn; lia|].
    rewrite (proj2 (Z.ltb_lt 0 c)) by lia. simpl. lia.
  - destruct Hc as [Hk Hr]. unfold block_ok in Hk. cbn in Hk.
    destruct (Z.eqb_spec c 0) as [->|Hc0]; [|destruct (int_add wx 1), (int_add wb c)];
      open_x; cbn; split_and!; try done; destruct rp; cbn; lia || idtac.
    all: try (rewrite (proj2 (Z.eqb_neq c 0)) by lia; lia).
  - destruct Hc as (Hk & -> & Hr). unfold reader_side in Hr. cbn in Hr.
    destruct rp; open_x; subst; cbn in E; try discriminate E; try lia. open_x. cbn. split_and!; try done. lia.
  - destruct Hc as (-> & -> & He & ->). open_x. cbn. split_and!; try done. lia.
  - discriminate E.
  - destruct Hc.
  - destruct Hc.
Qed.

Lemma rstep_left s s' :
  inv s -> rstep true s = Some s' ->
  (left_w s' + left_r s' < left_w s + left_r s)%nat /\ input s' = input s /\
  w_pc s' = w_pc s /\ r_pc s' <> RExit.
Proof.
  intros [Hb Hl Hx Hc] E.
  assert (Hcase : (exists v, r_pc s = RReserve /\ sems s = Some [v; 0]) \/ r_pc s = RDone \/
    exists x n, block_ok s /\ reader_side s x n /\ (w_pc s = WTest \/ w_pc s = WReserve \/ w_pc s = WLast)).
  { unfold control in Hc. destruct (w_pc s); open_x; eauto 10. }
  destruct Hcase as [(v & Hp & Hs)|[Hp|(x & n & Hk & Hr & Hw)]].
  { unfold rstep in E. by rewrite Hp, Hs in E. }
  { unfold rstep in E. by rewrite Hp in E. }
  unfold rstep, r_call, reserveSem, releaseSem, upd_r in E. unfold reader_side in Hr. unfold block_ok in Hk.
  unfold left_w, left_r, one_waits.
  destruct (r_pc s) eqn:Ep.
  - destruct Hr as [(Hs & _)|(Hs & _)]; rewrite Hs in E; cbn in E; [|discriminate E]. injection E as <-. cbn.
    rewrite Hs. assert (Hm : match w_pc s with WRelease | _ => true end = true) by by destruct (w_pc s).
    rewrite Hm, andb_true_r.
    split_and!; try done. destruct (Z.eqb_spec (cnt s) 0) as [Hc0|Hc0].
    + lia.
    + rewrite (proj2 (Z.ltb_lt 0 _)) by lia. lia.
  - destruct (cnt s =? 0) eqn:Hz; [|destruct (int_add (r_bytes s) (cnt s))]; injection E as <-; cbn; rewrite ?Hz; split_and!; try done; lia.
  - injection E as <-. cbn. split_and!; try done. lia.
  - destruct Hr as (Hs & _). rewrite Hs in E. cbn in E. destruct (int_add (r_xfrs s) 1); injection E as <-; cbn;
      [|split_and!; try done; lia].
    destruct Hw as [Hw|[Hw|Hw]]; rewrite !Hw, andb_false_r; split_and!; try done; lia.
  - injection E as <-. cbn. split_and!; try done. lia.
  - destruct Hr as (Hs & _). rewrite Hs in E. cbn in E. injection E as <-. cbn. split_and!; try done. lia.
  - done.
  - done.
  - done.
Qed.

(** A state without a step is the end. *)
Lemma stuck_done s : inv s -> wstep s = None -> rstep true s = None -> w_pc s = WDone.
Proof.
  intros [Hb Hl _ Hc] Ew Er. unfold control in Hc.
  assert (Hside : forall x n, block_ok s -> reader_side s x n -> r_pc s = RReserve /\ sems s = Some [1; 0] \/
    r_pc s = RDone /\ sems s = Some [1; 0]).
  { intros x n Hk Hr. unfold reader_side in Hr. unfold rstep, r_call, reserveSem, releaseSem in Er.
    destruct (r_pc s); open_x; rewrite ?H in Er; try discriminate Er; auto.
    all: cbn in Er; first [destruct (cnt s =? 0); [|destruct (int_add _ _)]; discriminate Er
      |destruct (int_add (r_xfrs s) 1); discriminate Er]. }
  unfold wstep, w_call, reserveSem, releaseSem in Ew. destruct (w_pc s); [| | | | | |done|done|done].
  - destruct Hc as [(_ & Hs & _)|(Hk & _ & _ & Hr)]; [by rewrite Hs in Ew|].
    destruct (Hside _ _ Hk Hr) as [[_ Hs]|[_ Hs]]; by rewrite Hs in Ew.
  - by repeat case_match.
  - destruct Hc as (_ & Hs & _). by rewrite Hs in Ew.
  - by repeat case_match.
  - destruct Hc as (Hk & _ & Hr). destruct (Hside _ _ Hk Hr) as [[_ Hs]|[_ Hs]]; by rewrite Hs in Ew.
  - done.
Qed.

End Inv.
