(* ===== verification/ShmXfrTheorems.v ===== *)
(** * ShmXfrTheorems: the lock-step transfer through shared memory.

    What the writer reads the reader writes, in every interleaving of the two
    processes; runs without an I/O error end, with everything copied. *)
From S2P Require Import Prelude ShmXfr.
From stdpp Require Import relations.
Local Open Scope Z_scope.

Lemma xfr_init_inv fresh c0 b0 inputs :
  length fresh = 2%nat -> Z.of_nat (length b0) = BUF_SIZE -> blocks_ok inputs ->
  exists s0, xfr_init fresh c0 b0 inputs = Some s0 /\ inv (bytes_of inputs) s0 /\
    input s0 = inputs /\ (left_w s0 + left_r s0 = 8 * length inputs + 10)%nat.
Proof.
  intros Hf Hb Hi. destruct fresh as [|v0 [|v1 [|]]]; try discriminate Hf. eexists. split; [reflexivity|].
  split_and!; [|done|].
  - split; [done|done|done|]. left. by split_and!.
  - unfold left_w, left_r, one_waits. cbn. rewrite andb_false_r. lia.
Qed.

Lemma xsteps_inv T s s' : Z.of_nat (length T) <= INT_MAX -> rtc xstep s s' -> inv T s \/ dead T s -> inv T s' \/ dead T s'.
Proof.
  intros HT. induction 1 as [|s1 s2 s3 Hs Hrtc IH]; [done|]. intros [Hi|Hd]; apply IH.
  - destruct Hs; [by eapply wstep_inv|by eapply rstep_inv].
  - right. by eapply dead_step.
Qed.

Lemma good_steps_left T n s s' :
  Z.of_nat (length T) <= INT_MAX -> nsteps good_step n s s' -> inv T s -> no_errors (input s) -> w_pc s <> WExit -> r_pc s <> RExit ->
  inv T s' /\ no_errors (input s') /\ (n + (left_w s' + left_r s') <= left_w s + left_r s)%nat.
Proof.
  intros HT. induction 1 as [s|n s1 s2 s3 Hs Hn IH]; intros Hi He Hw Hr; [split_and!; [done|done|lia]|].
  assert (H2 : inv T s2 /\ no_errors (input s2) /\ (left_w s2 + left_r s2 < left_w s1 + left_r s1)%nat /\
    w_pc s2 <> WExit /\ r_pc s2 <> RExit).
  { destruct Hs as [Hs|Hs].
    - destruct (wstep_left T _ _ Hi He Hs) as (Hl & He' & Hw' & Hr').
      destruct (wstep_inv T HT _ _ Hi Hs) as [?|(_ & _ & [[? _]|[? _]])]; [|congruence|congruence].
      rewrite Hr'. by split_and!.
    - destruct (rstep_left T _ _ Hi Hs) as (Hl & Hin & Hw' & Hr').
      destruct (rstep_inv T HT _ _ _ Hi Hs) as [?|(_ & _ & [[? _]|[? _]])]; [|congruence|congruence].
      rewrite Hin, Hw'. by split_and!. }
  destruct H2 as (Hi2 & He2 & Hl & Hw2 & Hr2). destruct (IH Hi2 He2 Hw2 Hr2) as (? & ? & ?).
  split_and!; [done|done|lia].
Qed.

(** C23: for an input of at most 2^31 - 1 bytes up to a read error, which comes in
    blocks of 1 to BUF_SIZE bytes, the transfer through shared memory is exact in
    every interleaving, reads and writes that fail included: no counter overflows, at
    any time what the reader has written is a prefix of what the writer can read, the
    two are never both between taking and giving up the segment, and when the
    writer has removed the set the reader has finished, the copy is complete and
    both report the same numbers of blocks and bytes. *)
Theorem xfr_delivers fresh c0 b0 inputs s0 s :
  length fresh = 2%nat -> Z.of_nat (length b0) = BUF_SIZE -> blocks_ok inputs ->
  Z.of_nat (length (bytes_of inputs)) <= INT_MAX ->
  xfr_init fresh c0 b0 inputs = Some s0 -> rtc xstep s0 s ->
  w_pc s <> WUndef /\ r_pc s <> RUndef /\
  output s `prefix_of` bytes_of inputs /\
  writer_in (w_pc s) && reader_in (r_pc s) = false /\
  (w_pc s = WDone -> r_pc s = RDone /\ sems s = None /\ output s = bytes_of inputs /\
     r_xfrs s = w_xfrs s /\ r_bytes s = w_bytes s /\ w_bytes s = Z.of_nat (length (bytes_of inputs))).
Proof.
  intros Hf Hb Hi HT E0 Hs. destruct (xfr_init_inv fresh c0 b0 inputs Hf Hb Hi) as (s0' & E0' & Hinv & _ & _).
  rewrite E0 in E0'. injection E0' as <-.
  destruct (xsteps_inv _ _ _ HT Hs (or_introl Hinv)) as [H|(_ & Hp & Hd)].
  - destruct (inv_defined _ s H) as [Hw Hr]. split; [exact Hw|]. split; [exact Hr|].
    split; [by eapply inv_prefix|]. destruct H as [_ _ _ Hc]. unfold control in Hc. split.
    + destruct (w_pc s); try done; destruct Hc as (Hp & _); by rewrite Hp.
    + intros Hd. rewrite Hd in Hc. destruct Hc as (Hr' & Hn & (Ho & Hx & Hby & Hlen) & Hin).
      rewrite Hin in Ho. simpl in Ho. rewrite app_nil_r in Ho. rewrite <- Ho. by split_and!.
  - destruct Hd as [(Hr & _ & Hw)|(Hw & Hr)]; rewrite Hr.
    + assert (Hw' : w_pc s = WTest \/ w_pc s = WReserve) by tauto.
      rewrite andb_false_r. split_and!; try done; destruct Hw' as [-> | ->]; done.
    + rewrite Hw. by split_and!.
Qed.

Definition demo_inputs : list inp := [Block [104; 105]%Z; Block [10]%Z].
Definition demo_state : xst :=
  default (mkX None 0 [] WExit 0 0 [] RExit 0 0 []) (xfr_init [7; 7] 99 (replicate 1024 0) demo_inputs).
Lemma demo_init : xfr_init [7; 7] 99 (replicate 1024 0) demo_inputs = Some demo_state.
Proof. reflexivity. Defined.

Lemma demo_ok : blocks_ok demo_inputs.
Proof. unfold demo_inputs, blocks_ok, BUF_SIZE. repeat apply Forall_cons_2; [simpl; lia..|apply Forall_nil_2]. Defined.

Lemma demo_fits : Z.of_nat (length (bytes_of demo_inputs)) <= INT_MAX.
Proof. vm_compute. discriminate. Defined.

Lemma xfr_delivers_witness :
  writer_in (w_pc demo_state) && reader_in (r_pc demo_state) = false /\
  forall s, rtc xstep demo_state s -> output s `prefix_of` [104; 105; 10].
Proof.
  split.
  - by apply (xfr_delivers [7; 7] 99 (replicate 1024 0) demo_inputs demo_state demo_state
      eq_refl eq_refl demo_ok demo_fits demo_init (rtc_refl _ _)).
  - intros s Hs. by apply (xfr_delivers [7; 7] 99 (replicate 1024 0) demo_inputs demo_state s
      eq_refl eq_refl demo_ok demo_fits demo_init Hs).
Defined.

(** the transfer ends: when no read or write fails, no run of the two
    processes is longer than eight steps for each block and ten more, and a state
    from which neither can go on is the end of both, with everything copied: the
    lock step has no deadlock. *)
Lemma xfr_completes fresh c0 b0 inputs :
  length fresh = 2%nat -> Z.of_nat (length b0) = BUF_SIZE -> blocks_ok inputs -> no_errors inputs ->
  Z.of_nat (length (bytes_of inputs)) <= INT_MAX ->
  exists s0, xfr_init fresh c0 b0 inputs = Some s0 /\
    forall n s, nsteps good_step n s0 s ->
      (n <= 8 * length inputs + 10)%nat /\
      ((forall s', ~ good_step s s') -> w_pc s = WDone /\ r_pc s = RDone /\ output s = bytes_of inputs).
Proof.
  intros Hf Hb Hi He HT. destruct (xfr_init_inv fresh c0 b0 inputs Hf Hb Hi) as (s0 & E0 & Hinv & Hin & Hleft).
  exists s0. split; [done|]. intros n s Hn.
  assert (Hpc : w_pc s0 <> WExit /\ r_pc s0 <> RExit).
  { unfold xfr_init, initSemAvailable, initSemInUse, setval in E0. repeat case_match; simplify_eq; by rewrite <- E0. }
  destruct (good_steps_left _ n s0 s HT Hn Hinv) as (Hs & _ & Hle); [by rewrite Hin|apply Hpc|apply Hpc|].
  split; [lia|]. intros Hno.
  assert (Hw : w_pc s = WDone).
  { apply (stuck_done _ s Hs); apply eq_None_not_Some; intros [s' E]; apply (Hno s').
    - by apply good_writer.
    - by apply good_reader. }
  destruct Hs as [_ _ _ Hc]. unfold control in Hc. rewrite Hw in Hc.
  destruct Hc as (Hr & _ & (Ho & _) & Hnil). rewrite Hnil, app_nil_r in Ho. done.
Qed.

Lemma xfr_completes_witness :
  exists s0, xfr_init [7; 7] 99 (replicate 1024 0) demo_inputs = Some s0 /\
    forall n s, nsteps good_step n s0 s ->
      (n <= 26)%nat /\
      ((forall s', ~ good_step s s') -> w_pc s = WDone /\ r_pc s = RDone /\ output s = [104; 105; 10]).
Proof.
  apply (xfr_completes [7; 7] 99 (replicate 1024 0) demo_inputs eq_refl eq_refl demo_ok).
  - repeat constructor; discriminate.
  - exact demo_fits.
Defined.
