(* ===== verification/Ftw.v ===== *)
(** * Ftw: walking a directory tree.

    apue.2e/file/ftw4.c with path_alloc of lib/pathalloc.c.  One buffer holds the
    name of the file that is being looked at; it is extended on the way down and cut
    on the way up.  The file system is given by what lstat and readdir return for
    each name. *)
From S2P Require Import Prelude.
Local Open Scope Z_scope.

(** ** pathalloc.c *)

Definition PATH_MAX_GUESS : Z := 1024.
Definition SUSV3 : Z := 200112.

(** The static variables [pathmax] and [posix_version]. *)
Record pa_state := mkPa { pathmax : Z; posix_version : Z }.

(** [pathconf]: the limit, none (indeterminate), or an error.  The result is the size
    of the memory, or [None] for err_sys. *)
Inductive pc_result := PcLimit (n : Z) | PcNone | PcError.

Definition path_alloc (sysconf_version : Z) (pathconf : pc_result) (malloc_ok : bool) (st : pa_state) :
    option (Z * pa_state) :=
  let ver := if posix_version st =? 0 then sysconf_version else posix_version st in
  let pm :=
    if pathmax st =? 0 then
      match pathconf with
      | PcLimit n => Some (n + 1)
      | PcNone => Some PATH_MAX_GUESS
      | PcError => None
      end
    else Some (pathmax st) in
  match pm with
  | None => None
  | Some pm =>
      let size := if ver <? SUSV3 then pm + 1 else pm in
      if malloc_ok then Some (size, mkPa pm ver) else None
  end.

(** ** ftw4.c *)

(** The type of a file in st_mode; [S_none] is any other pattern. *)
Inductive ifmt := S_IFREG | S_IFDIR | S_IFBLK | S_IFCHR | S_IFIFO | S_IFLNK | S_IFSOCK | S_none.

#[export] Instance ifmt_eq_dec : EqDecision ifmt.
Proof. solve_decision. Defined.

(** The third argument of the function that is called for each file, with the mode
    where [statbuf] holds one. *)
Inductive kind := FTW_F (mode : ifmt) | FTW_D | FTW_DNR | FTW_NS.

(** A walk returns, writes past its buffer, ends the process (err_dump), or needs
    more turns than allowed for. *)
Inductive walk (A : Type) := Ret (a : A) | Overflow | Dumped | NoFuel.
Arguments Ret {A}. Arguments Overflow {A}. Arguments Dumped {A}. Arguments NoFuel {A}.

(** What the file system answers. *)
Record fs := mkFs {
  lstat : bytes -> option ifmt;                (* None: an error *)
  readdir_all : bytes -> option (list bytes)   (* the names in a directory; None: opendir fails *)
}.

Definition dots (name : bytes) : bool :=
  bool_decide (name = str ".") || bool_decide (name = str "..").

Section Walk.
Context (K : fs) (len : Z) {St : Type} (func : St -> bytes -> kind -> option (Z * St)).

(** A call of the caller's function. *)
Definition call (fullpath : bytes) (s : St) (k : kind) : walk (Z * bytes * St) :=
  match func s fullpath k with
  | Some (r, s') => Ret (r, fullpath, s')
  | None => Dumped
  end.

(** The loop over the names in a directory: [ptr] is the offset behind the slash,
    [ret] the variable. *)
Fixpoint entries (dopath : bytes -> St -> walk (Z * bytes * St)) (ptr : nat)
    (names : list bytes) (ret : Z) (fullpath : bytes) (s : St) : walk (Z * bytes * St) :=
  match names with
  | [] => Ret (ret, fullpath, s)
  | name :: rest =>
      if dots name then entries dopath ptr rest ret fullpath s
      else if len <? Z.of_nat (ptr + length name) + 1 then Overflow
      else
        match dopath (take ptr fullpath ++ name) s with
        | Ret (r, fp, s') =>
            if negb (r =? 0) then Ret (r, fp, s') else entries dopath ptr rest r fp s'
        | e => e
        end
  end.

Fixpoint dopath (fuel : nat) (fullpath : bytes) (s : St) : walk (Z * bytes * St) :=
  match fuel with
  | O => NoFuel
  | S f =>
      match lstat K fullpath with
      | None => call fullpath s FTW_NS
      | Some mode =>
          if negb (bool_decide (mode = S_IFDIR)) then call fullpath s (FTW_F mode)
          else
            match call fullpath s FTW_D with
            | Ret (ret, _, s1) =>
                if negb (ret =? 0) then Ret (ret, fullpath, s1)
                else if len <? Z.of_nat (length fullpath) + 2 then Overflow
                else
                  let fp := fullpath ++ str "/" in
                  let ptr := length fp in
                  match readdir_all K fp with
                  | None => call fp s1 FTW_DNR
                  | Some names =>
                      match entries (dopath f) ptr names ret fp s1 with
                      | Ret (ret, fp, s2) => Ret (ret, take (ptr - 1) fp, s2)
                      | e => e
                      end
                  end
            | e => e
            end
      end
  end.

(** [myftw]: [strncpy] and the NUL at the end of the buffer. *)
Definition myftw (fuel : nat) (pathname : bytes) (s : St) : walk (Z * bytes * St) :=
  dopath fuel (take (Z.to_nat (len - 1)) pathname) s.

End Walk.

(** *** The counters *)

Record counts := mkCounts {
  nreg : Z; ndir : Z; nblk : Z; nchr : Z; nfifo : Z; nslink : Z; nsock : Z }.
Definition counts0 : counts := mkCounts 0 0 0 0 0 0 0.

Definition myfunc (c : counts) (pathname : bytes) (type : kind) : option (Z * counts) :=
  let '(mkCounts r d b ch f l s) := c in
  match type with
  | FTW_F S_IFREG => Some (0, mkCounts (r + 1) d b ch f l s)
  | FTW_F S_IFBLK => Some (0, mkCounts r d (b + 1) ch f l s)
  | FTW_F S_IFCHR => Some (0, mkCounts r d b (ch + 1) f l s)
  | FTW_F S_IFIFO => Some (0, mkCounts r d b ch (f + 1) l s)
  | FTW_F S_IFLNK => Some (0, mkCounts r d b ch f (l + 1) s)
  | FTW_F S_IFSOCK => Some (0, mkCounts r d b ch f l (s + 1))
  | FTW_F S_IFDIR => None
  | FTW_F S_none => Some (0, c)
  | FTW_D => Some (0, mkCounts r (d + 1) b ch f l s)
  | FTW_DNR | FTW_NS => Some (0, c)
  end.

(** What [main] prints: the counters and their total, 1 in place of 0. *)
Definition ntot (c : counts) : Z :=
  let n := nreg c + ndir c + nblk c + nchr c + nfifo c + nslink c + nsock c in
  if n =? 0 then 1 else n.

Definition ftw_main (K : fs) (len : Z) (fuel : nat) (args : list bytes) : option (walk (Z * counts * Z)) :=
  match args with
  | [pathname] =>
      Some match myftw K len myfunc fuel pathname counts0 with
           | Ret (ret, _, c) => Ret (ret, c, ntot c)
           | Overflow => Overflow | Dumped => Dumped | NoFuel => NoFuel
           end
  | _ => None
  end.

(** ** Trees *)

(** A file with everything below it; a directory that cannot be read has no
    entries. *)
Inductive tree :=
| NoStat
| Leaf (mode : ifmt)
| Dir (entries : option (list (bytes * tree))).

(** The tree at a name, as the file system shows it.  Every name but dot and dot-dot
    is in the tree, in the order of readdir. *)
Inductive shows (K : fs) : bytes -> tree -> Prop :=
| shows_nostat p : lstat K p = None -> shows K p NoStat
| shows_leaf p m : lstat K p = Some m -> m <> S_IFDIR -> shows K p (Leaf m)
| shows_unreadable p :
    lstat K p = Some S_IFDIR -> readdir_all K (p ++ str "/") = None -> shows K p (Dir None)
| shows_dir p names ts :
    lstat K p = Some S_IFDIR -> readdir_all K (p ++ str "/") = Some names ->
    filter (fun n => negb (dots n)) names = ts.*1 ->
    shows_all K (p ++ str "/") ts -> shows K p (Dir (Some ts))
with shows_all (K : fs) : bytes -> list (bytes * tree) -> Prop :=
| shows_nil p : shows_all K p []
| shows_cons p n t ts : shows K (p ++ n) t -> shows_all K p ts -> shows_all K p ((n, t) :: ts).

Scheme shows_ind2 := Minimality for shows Sort Prop
  with shows_all_ind2 := Minimality for shows_all Sort Prop.
Combined Scheme shows_both_ind from shows_ind2, shows_all_ind2.

(** The calls of the function for a tree: a directory before what is below it. *)
Fixpoint visits (p : bytes) (t : tree) : list (bytes * kind) :=
  match t with
  | NoStat => [(p, FTW_NS)]
  | Leaf m => [(p, FTW_F m)]
  | Dir None => [(p, FTW_D); (p ++ str "/", FTW_DNR)]
  | Dir (Some ts) => (p, FTW_D) :: concat (map (fun '(n, t) => visits ((p ++ str "/") ++ n) t) ts)
  end.

(** The levels of a tree. *)
Fixpoint depth (t : tree) : nat :=
  match t with
  | Dir (Some ts) => S (foldr (fun '(_, t) d => Nat.max (depth t) d) 0%nat ts)
  | _ => 0%nat
  end.

(** The longest string that is built for a tree at a name of [n] bytes. *)
Fixpoint room (n : nat) (t : tree) : nat :=
  match t with
  | Dir (Some ts) => foldr (fun '(nm, t) d => Nat.max (room (n + 1 + length nm) t) d) (n + 1)%nat ts
  | Dir None => (n + 1)%nat
  | _ => n
  end.

(** Calling a function for names in turn, until it returns something but 0. *)
Fixpoint run {St} (func : St -> bytes -> kind -> option (Z * St)) (vs : list (bytes * kind)) (s : St) :
    option (Z * St) :=
  match vs with
  | [] => Some (0, s)
  | (p, k) :: vs' =>
      match func s p k with
      | Some (r, s') => if negb (r =? 0) then Some (r, s') else run func vs' s'
      | None => None
      end
  end.
