(* ===== verification/FtwTheorems.v ===== *)
(** * FtwTheorems: the walk visits every file once. *)
From S2P Require Import Prelude Ftw.
Local Open Scope Z_scope.

Section Visits.
Context (K : fs) (len : Z) {St : Type} (func : St -> bytes -> kind -> option (Z * St)).

(** The walk from [p] ends as calling the function for [vs] does, with the buffer
    holding [p] and possibly more. *)
Definition ends_as (w : walk (Z * bytes * St)) (p : bytes) (o : option (Z * St)) : Prop :=
  match o with
  | Some (r, s) => exists x, w = Ret (r, p ++ x, s)
  | None => w = Dumped
  end.

Lemma run_app a b s :
  run func (a ++ b) s =
  match run func a s with
  | Some (r, s') => if negb (r =? 0) then Some (r, s') else run func b s'
  | None => None
  end.
Proof.
  revert s. induction a as [|[p k] a IH]; intros s; [done|]. cbn [app run].
  destruct (func s p k) as [[r s']|]; [|done]. destruct (r =? 0) eqn:E; cbn [negb]; [apply IH|]. by rewrite E.
Qed.

Lemma call_ends p s k : ends_as (call func p s k) p (run func [(p, k)] s).
Proof.
  unfold call. cbn [run]. destruct (func s p k) as [[r s']|]; [|done].
  destruct (Z.eqb_spec r 0) as [->|]; exists []; by rewrite app_nil_r.
Qed.

Lemma room_ge t n : (n <= room n t)%nat.
Proof.
  destruct t as [| |[ts|]]; cbn [room]; try lia.
  induction ts as [|[nm t] ts IH]; cbn [foldr]; lia.
Qed.

(** Statement of the walk for a tree, and for the entries of a directory. *)
Definition walks (p : bytes) (t : tree) : Prop := forall fuel s,
  (depth t < fuel)%nat -> Z.of_nat (room (length p) t) < len ->
  ends_as (dopath K len func fuel p s) p (run func (visits p t) s).

Definition walks_all (p : bytes) (ts : list (bytes * tree)) : Prop := forall fuel names x s,
  filter (fun n => negb (dots n)) names = ts.*1 ->
  Forall (fun '(n, t) => (depth t < fuel)%nat /\ Z.of_nat (room (length p + length n) t) < len) ts ->
  ends_as (entries len (dopath K len func fuel) (length p) names 0 (p ++ x) s) p
    (run func (concat (map (fun '(n, t) => visits (p ++ n) t) ts)) s).

Lemma dots_skip names ts dp ptr r fp s :
  filter (fun n => negb (dots n)) names = ts ->
  match ts with
  | [] => entries len (St:=St) dp ptr names r fp s = Ret (r, fp, s)
  | n :: ts' => exists names', filter (fun n => negb (dots n)) names' = ts' /\
      entries len dp ptr names r fp s = entries len dp ptr (n :: names') r fp s /\ dots n = false
  end.
Proof.
  revert ts. induction names as [|m names IH]; intros ts E; [by rewrite <- E|].
  rewrite filter_cons in E. destruct (dots m) eqn:Em.
  - rewrite decide_False in E by (by intros []). cbn [entries]. rewrite Em. apply IH. exact E.
  - rewrite decide_True in E by done. rewrite <- E. by exists names.
Qed.

Lemma take_cut (p x : bytes) : take (length p) (p ++ x) = p.
Proof. apply take_app_length. Qed.

Lemma walks_cons p n t ts : walks (p ++ n) t -> walks_all p ts -> walks_all p ((n, t) :: ts).
Proof.
  intros Ht Hts fuel names x s Hn Hf. apply Forall_cons in Hf as [[Hd Hr] Hf].
  destruct (dots_skip names (n :: ts.*1) (dopath K len func fuel) (length p) 0 (p ++ x) s Hn) as (names' & Hn' & -> & Hdot).
  cbn [map concat fst]. rewrite run_app. cbn [entries]. rewrite Hdot, take_cut.
  assert (Hge := room_ge t (length p + length n)). rewrite (proj2 (Z.ltb_ge _ _)) by lia.
  specialize (Ht fuel s Hd). rewrite length_app in Ht. specialize (Ht Hr). unfold ends_as in Ht at 1.
  destruct (run func (visits (p ++ n) t) s) as [[r s']|]; [|by rewrite Ht].
  destruct Ht as [y ->]. destruct (Z.eqb_spec r 0) as [->|Hr0]; cbn [negb].
  - rewrite <- app_assoc. by apply Hts.
  - exists (n ++ y). by rewrite app_assoc.
Qed.

Lemma ends_cut w p o :
  ends_as w (p ++ str "/") o ->
  ends_as (match w with
           | Ret (ret, fp, s2) => Ret (ret, take (length (p ++ str "/") - 1) fp, s2)
           | Overflow => Overflow | Dumped => Dumped | NoFuel => NoFuel end) p o.
Proof.
  destruct o as [[r s]|]; cbn [ends_as]; [|by intros ->]. intros [x ->]. exists []. do 2 f_equal.
  rewrite length_app. replace (length p + length (str "/") - 1)%nat with (length p) by (cbn; lia).
  by rewrite <- app_assoc, take_cut, app_nil_r.
Qed.

Lemma in_dir n0 f (ts : list (bytes * tree)) :
  (foldr (fun '(_, t) d => Nat.max (depth t) d) 0 ts < f)%nat ->
  Z.of_nat (foldr (fun '(nm, t) d => Nat.max (room (n0 + 1 + length nm) t) d) (n0 + 1)%nat ts) < len ->
  Z.of_nat n0 + 1 < len /\
  Forall (fun '(n, t) => (depth t < f)%nat /\ Z.of_nat (room (n0 + 1 + length n) t) < len) ts.
Proof.
  induction ts as [|[n t] ts IH]; cbn [foldr]; intros Hd Hr; [split; [lia|constructor]|].
  destruct IH as [? ?]; [lia|lia|]. split; [done|]. constructor; [lia|done].
Qed.

Lemma shows_walks :
  (forall p t, shows K p t -> walks p t) /\ (forall p ts, shows_all K p ts -> walks_all p ts).
Proof.
  apply shows_both_ind.
  - intros p E [|f] s Hd Hr; [lia|]. cbn [dopath]. rewrite E. apply call_ends.
  - intros p m E Hm [|f] s Hd Hr; [lia|]. cbn [dopath]. rewrite E, (bool_decide_false _ Hm). apply call_ends.
  - intros p E Eo [|f] s Hd Hr; [lia|]. cbn [dopath visits room] in *. rewrite E, bool_decide_true by done.
    cbn [negb]. assert (Hc := call_ends p s FTW_D). unfold call in *. cbn [run] in *.
    destruct (func s p FTW_D) as [[r s1]|]; [|done]. destruct (Z.eqb_spec r 0) as [->|Hr0]; cbn [negb] in *; [|done].
    rewrite (proj2 (Z.ltb_ge _ _)) by lia. rewrite Eo. cbn [run].
    destruct (func s1 (p ++ str "/") FTW_DNR) as [[r2 s2]|]; [|done].
    destruct (Z.eqb_spec r2 0) as [->|]; by exists (str "/").
  - intros p names ts E Eo Hn _ IH [|f] s Hd Hr; [lia|]. cbn [dopath visits room depth] in *.
    apply Nat.succ_lt_mono in Hd. destruct (in_dir _ f ts Hd Hr) as [Hl Hf].
    rewrite E, bool_decide_true by done. cbn [negb run].
    assert (Hc := call_ends p s FTW_D). unfold call in *. cbn [run] in *.
    destruct (func s p FTW_D) as [[r s1]|]; [|done]. destruct (Z.eqb_spec r 0) as [->|Hr0]; cbn [negb] in *; [|done].
    rewrite (proj2 (Z.ltb_ge _ _)) by lia. rewrite Eo. apply ends_cut.
    rewrite <- (app_nil_r (p ++ str "/")) at 2. apply IH; [done|].
    eapply Forall_impl; [exact Hf|]. intros [n t]. by rewrite length_app.
  - intros p fuel names x s Hn _. rewrite (dots_skip names [] _ _ _ _ _ Hn). by exists x.
  - intros p n t ts _ Ht _ Hts. by apply walks_cons.
Qed.

End Visits.

(** ** The counters *)

(** The number of files of each type in a tree. *)
Fixpoint census (ty : ifmt) (t : tree) : Z :=
  match t with
  | NoStat => 0
  | Leaf m => if bool_decide (m = ty) then 1 else 0
  | Dir None => if bool_decide (S_IFDIR = ty) then 1 else 0
  | Dir (Some ts) =>
      (if bool_decide (S_IFDIR = ty) then 1 else 0) + foldr (fun '(_, t) n => census ty t + n) 0 ts
  end.

Definition count_of (c : counts) (ty : ifmt) : Z :=
  match ty with
  | S_IFREG => nreg c | S_IFDIR => ndir c | S_IFBLK => nblk c | S_IFCHR => nchr c
  | S_IFIFO => nfifo c | S_IFLNK => nslink c | S_IFSOCK => nsock c | S_none => 0
  end.

Lemma myfunc_counts c p k :
  k <> FTW_F S_IFDIR ->
  exists c', myfunc c p k = Some (0, c') /\ forall ty, ty <> S_none ->
    count_of c' ty = count_of c ty +
      match k with
      | FTW_F m => if bool_decide (m = ty) then 1 else 0
      | FTW_D => if bool_decide (S_IFDIR = ty) then 1 else 0
      | _ => 0
      end.
Proof.
  intros Hk. destruct c, k as [[]| | |]; try done; eexists; (split; [reflexivity|]); intros [] ?; try done;
    try case_bool_decide; try congruence; cbn; lia.
Qed.

Lemma run_census K :
  (forall p t, shows K p t -> forall c, exists c', run myfunc (visits p t) c = Some (0, c') /\
     forall ty, ty <> S_none -> count_of c' ty = count_of c ty + census ty t) /\
  (forall p ts, shows_all K p ts -> forall c, exists c',
     run myfunc (concat (map (fun '(n, t) => visits (p ++ n) t) ts)) c = Some (0, c') /\
     forall ty, ty <> S_none -> count_of c' ty = count_of c ty + foldr (fun '(_, t) n => census ty t + n) 0 ts).
Proof.
  apply shows_both_ind.
  - intros p _ c. destruct (myfunc_counts c p FTW_NS) as (c' & E & H); [done|]. exists c'. cbn [visits run].
    by rewrite E.
  - intros p m _ Hm c. destruct (myfunc_counts c p (FTW_F m)) as (c' & E & H); [congruence|].
    exists c'. cbn [visits run]. by rewrite E.
  - intros p _ _ c. destruct (myfunc_counts c p FTW_D) as (c1 & E1 & H1); [done|].
    destruct (myfunc_counts c1 (p ++ str "/") FTW_DNR) as (c2 & E2 & H2); [done|].
    exists c2. cbn [visits run negb]. rewrite E1. cbn [negb Z.eqb]. rewrite E2. split; [done|].
    intros ty Hty. rewrite H2, H1 by done. cbn [census]. lia.
  - intros p names ts _ _ _ _ IH c. destruct (myfunc_counts c p FTW_D) as (c1 & E1 & H1); [done|].
    destruct (IH c1) as (c2 & E2 & H2). exists c2. cbn [visits run]. rewrite E1. cbn [negb Z.eqb]. rewrite E2.
    split; [done|]. intros ty Hty. rewrite H2, H1 by done. cbn [census]. lia.
  - intros p c. exists c. split; [done|]. intros ty _. cbn. lia.
  - intros p n t ts _ Ht _ Hts c. destruct (Ht c) as (c1 & E1 & H1). destruct (Hts c1) as (c2 & E2 & H2).
    exists c2. cbn [map concat]. rewrite run_app, E1. cbn [negb Z.eqb]. rewrite E2. split; [done|].
    intros ty Hty. rewrite H2, H1 by done. cbn [foldr]. lia.
Qed.


(** A directory with a file, a link and a subdirectory that cannot be read. *)
Definition demo_fs : fs := mkFs
  (fun p => if bool_decide (p = str "d") then Some S_IFDIR
            else if bool_decide (p = str "d/f") then Some S_IFREG
            else if bool_decide (p = str "d/l") then Some S_IFLNK
            else if bool_decide (p = str "d/s") then Some S_IFDIR else None)
  (fun p => if bool_decide (p = str "d/") then Some [str "."; str "f"; str ".."; str "s"; str "l"] else None).
Definition demo_tree : tree :=
  Dir (Some [(str "f", Leaf S_IFREG); (str "s", Dir None); (str "l", Leaf S_IFLNK)]).

Lemma demo_shows : shows demo_fs (str "d") demo_tree.
Proof.
  eapply shows_dir; [reflexivity|reflexivity|reflexivity|].
  apply shows_cons; [by apply shows_leaf|]. apply shows_cons; [by apply shows_unreadable|].
  apply shows_cons; [by apply shows_leaf|]. apply shows_nil.
Defined.


Example ftw_demo :
  ftw_main demo_fs 1024 3 [str "d"] = Some (Ret (0, mkCounts 1 2 0 0 0 1 0, 4)).
Proof. vm_compute. reflexivity. Qed.

(** The buffer of path_alloc has PATH_MAX bytes under SUSv3, not PATH_MAX + 1: a name
    of PATH_MAX - 1 bytes that is a directory is too long for it. *)
Example path_alloc_susv3 :
  path_alloc 200809 PcNone true (mkPa 4096 0) = Some (4096, mkPa 4096 200809).
Proof. reflexivity. Qed.
