(* ===== verification/TtyModes.v ===== *)
(** * TtyModes: terminal modes of apue.2e/lib/ttymodes.c.

    [tty_cbreak] and [tty_raw] change the settings of a terminal and check that the
    change was made; [tty_reset] and [tty_atexit] restore them.  The settings have the
    layout of Linux. *)
From S2P Require Import Prelude.
Local Open Scope Z_scope.

Definition ECHO : Z := 8.
Definition ICANON : Z := 2.
Definition IEXTEN : Z := 0x8000.
Definition ISIG : Z := 1.
Definition BRKINT : Z := 2.
Definition ICRNL : Z := 0x100.
Definition INPCK : Z := 0x10.
Definition ISTRIP : Z := 0x20.
Definition IXON : Z := 0x400.
Definition CSIZE : Z := 0x30.
Definition PARENB : Z := 0x100.
Definition CS8 : Z := 0x30.
Definition OPOST : Z := 1.
Definition VTIME : nat := 5.
Definition VMIN : nat := 6.
Definition EINVAL : Z := 22.
Definition ENOTTY : Z := 25.

Record termios := mkTermios {
  c_iflag : Z; c_oflag : Z; c_cflag : Z; c_lflag : Z; c_cc : list Z }.

#[export] Instance termios_eq_dec : EqDecision termios.
Proof. solve_decision. Defined.

Inductive ttystate_t := RESET | RAW | CBREAK.

#[export] Instance ttystate_eq_dec : EqDecision ttystate_t.
Proof. solve_decision. Defined.

(** The static variables, the terminals by descriptor, errno, and the number of
    system calls so far. *)
Record tst := mkTst {
  save_termios : termios; ttysavefd : Z; ttystate : ttystate_t;
  terms : gmap Z termios; errno : Z; calls : nat }.

(** The terminal driver: whether the [n]-th call fails when it reads, and what
    becomes of the settings when it sets them: nothing ([inl], an error) or, as
    tcsetattr may succeed in part, something between the old and the new. *)
Class TtyKernel := {
  get_err : nat -> option Z;
  set_to : nat -> termios -> termios -> Z + termios;
}.

Section Tty.
Context {K : TtyKernel}.

Definition upd_terms (m : gmap Z termios) (s : tst) : tst :=
  mkTst (save_termios s) (ttysavefd s) (ttystate s) m (errno s) (S (calls s)).
Definition upd_errno (e : Z) (s : tst) : tst :=
  mkTst (save_termios s) (ttysavefd s) (ttystate s) (terms s) e (calls s).
Definition upd_save (t : termios) (s : tst) : tst :=
  mkTst t (ttysavefd s) (ttystate s) (terms s) (errno s) (calls s).
Definition upd_state (st : ttystate_t) (fd : Z) (s : tst) : tst :=
  mkTst (save_termios s) fd st (terms s) (errno s) (calls s).

Definition tcgetattr (fd : Z) (s : tst) : option termios * tst :=
  let s' := upd_terms (terms s) s in
  match terms s !! fd, get_err (calls s) with
  | None, _ => (None, upd_errno ENOTTY s')
  | _, Some e => (None, upd_errno e s')
  | Some t, None => (Some t, s')
  end.

Definition tcsetattr (fd : Z) (t : termios) (s : tst) : Z * tst :=
  match terms s !! fd with
  | None => (-1, upd_errno ENOTTY (upd_terms (terms s) s))
  | Some old =>
      match set_to (calls s) old t with
      | inl e => (-1, upd_errno e (upd_terms (terms s) s))
      | inr now => (0, upd_terms (<[fd := now]> (terms s)) s)
      end
  end.

(** [flag & ~mask] on an unsigned int. *)
Definition clear (flag mask : Z) : Z := Z.land flag (wrap_u 32 (Z.lnot mask)).
Definition has (flag mask : Z) : bool := negb (Z.land flag mask =? 0).

Definition cc (t : termios) (i : nat) : Z := default 0 (c_cc t !! i).
Definition one_byte (l : list Z) : list Z := <[VTIME := 0]> (<[VMIN := 1]> l).

Definition LFLAGS : Z := Z.lor (Z.lor ECHO ICANON) (Z.lor IEXTEN ISIG).
Definition IFLAGS : Z := Z.lor (Z.lor BRKINT ICRNL) (Z.lor INPCK (Z.lor ISTRIP IXON)).

(** The settings that [tty_cbreak] and [tty_raw] ask for. *)
Definition cbreak_of (t : termios) : termios :=
  mkTermios (c_iflag t) (c_oflag t) (c_cflag t) (clear (c_lflag t) (Z.lor ECHO ICANON)) (one_byte (c_cc t)).

Definition raw_of (t : termios) : termios :=
  mkTermios (clear (c_iflag t) IFLAGS) (clear (c_oflag t) OPOST)
    (Z.lor (clear (c_cflag t) (Z.lor CSIZE PARENB)) CS8) (clear (c_lflag t) LFLAGS) (one_byte (c_cc t)).

(** The tests that only some of the changes were made. *)
Definition not_cbreak (t : termios) : bool :=
  has (c_lflag t) (Z.lor ECHO ICANON) || negb (cc t VMIN =? 1) || negb (cc t VTIME =? 0).

Definition not_raw (t : termios) : bool :=
  has (c_lflag t) LFLAGS || has (c_iflag t) IFLAGS ||
  negb (Z.land (c_cflag t) (Z.lor CSIZE (Z.lor PARENB CS8)) =? CS8) ||
  has (c_oflag t) OPOST || negb (cc t VMIN =? 1) || negb (cc t VTIME =? 0).

(** The common course of the two functions. *)
Definition set_mode (want : termios -> termios) (failed : termios -> bool) (mode : ttystate_t)
    (fd : Z) (s : tst) : Z * tst :=
  if negb (bool_decide (ttystate s = RESET)) then (-1, upd_errno EINVAL s)
  else
    match tcgetattr fd s with
    | (None, s) => (-1, s)
    | (Some buf, s) =>
        let s := upd_save buf s in
        let '(r, s) := tcsetattr fd (want buf) s in
        if r <? 0 then (-1, s)
        else
          match tcgetattr fd s with
          | (None, s) =>
              let err := errno s in
              let '(_, s) := tcsetattr fd (save_termios s) s in (-1, upd_errno err s)
          | (Some buf, s) =>
              if failed buf then
                let '(_, s) := tcsetattr fd (save_termios s) s in (-1, upd_errno EINVAL s)
              else (0, upd_state mode fd s)
          end
    end.

Definition tty_cbreak : Z -> tst -> Z * tst := set_mode cbreak_of not_cbreak CBREAK.
Definition tty_raw : Z -> tst -> Z * tst := set_mode raw_of not_raw RAW.

Definition tty_reset (fd : Z) (s : tst) : Z * tst :=
  if bool_decide (ttystate s = RESET) then (0, s)
  else
    let '(r, s) := tcsetattr fd (save_termios s) s in
    if r <? 0 then (-1, s) else (0, upd_state RESET (ttysavefd s) s).

Definition tty_atexit (s : tst) : tst :=
  if 0 <=? ttysavefd s then (tty_reset (ttysavefd s) s).2 else s.

Definition tty_termios (s : tst) : termios := save_termios s.

(** ** Sequences of calls *)

Inductive tty_op := Cbreak (fd : Z) | Raw (fd : Z) | Reset (fd : Z).

Definition tty_do (o : tty_op) : tst -> Z * tst :=
  match o with Cbreak fd => tty_cbreak fd | Raw fd => tty_raw fd | Reset fd => tty_reset fd end.

(** A caller resets the terminal that was changed. *)
Definition op_ok (o : tty_op) (s : tst) : bool :=
  match o with
  | Reset fd => bool_decide (ttystate s = RESET) || (fd =? ttysavefd s)
  | _ => true
  end.

Inductive tty_run (s0 : tst) : list (tty_op * Z) -> tst -> Prop :=
| tty_start : tty_run s0 [] s0
| tty_more os s o r s' :
    tty_run s0 os s -> op_ok o s = true -> tty_do o s = (r, s') -> tty_run s0 (os ++ [(o, r)]) s'.

(** The program at its start. *)
Definition tty_init (junk : termios) (m : gmap Z termios) : tst := mkTst junk (-1) RESET m 0 0.

(** ** The invariant *)

Context (orig : gmap Z termios).

(** Settings the terminals had at the start can be set again; descriptors are not
    negative. *)
Class Restorable : Prop := {
  restore_ok n fd old t : orig !! fd = Some t -> set_to n old t = inr t;
  fds_nonneg fd t : orig !! fd = Some t -> 0 <= fd;
}.

Definition mode_ok (m : ttystate_t) (t : termios) : Prop :=
  match m with RESET => True | CBREAK => not_cbreak t = false | RAW => not_raw t = false end.

(** Every terminal has its settings of the start, but the one that is in a mode; and
    what is saved are the settings that one had. *)
Definition tty_inv (s : tst) : Prop :=
  match ttystate s with
  | RESET => terms s = orig
  | m => 0 <= ttysavefd s /\ orig !! ttysavefd s = Some (save_termios s) /\
         exists now, terms s = <[ttysavefd s := now]> orig /\ mode_ok m now
  end.

Context `{!Restorable}.

Lemma tcset_orig fd t now s s' r :
  orig !! fd = Some t -> terms s = <[fd := now]> orig -> tcsetattr fd t s = (r, s') ->
  r = 0 /\ s' = upd_terms orig s.
Proof.
  intros Ho Ht E. unfold tcsetattr in E. rewrite Ht, lookup_insert_eq, (restore_ok _ _ _ _ Ho) in E.
  rewrite insert_insert_eq, insert_id in E by done. by injection E as <- <-.
Qed.

Lemma set_mode_inv want failed mode fd s r s' :
  (forall t, failed t = false -> mode_ok mode t) -> mode <> RESET ->
  tty_inv s -> set_mode want failed mode fd s = (r, s') ->
  tty_inv s' /\ (r = 0 -> ttystate s = RESET /\ ttystate s' = mode /\ ttysavefd s' = fd) /\
  (r <> 0 -> r = -1 /\ ttystate s' = ttystate s).
Proof.
  intros Hf Hm Hi E. unfold set_mode in E. case_bool_decide as Hs; cbn [negb] in E.
  2: { injection E as <- <-. split; [done|]. split; [lia|done]. }
  unfold tty_inv in Hi. rewrite Hs in Hi.
  unfold tcgetattr in E at 1. rewrite Hi in E. destruct (orig !! fd) as [t|] eqn:Eo.
  2: { injection E as <- <-. unfold tty_inv. cbn. rewrite Hs, ?Hi. split; [done|]. split; [lia|done]. }
  destruct (get_err (calls s)) as [e|].
  { injection E as <- <-. unfold tty_inv. cbn. rewrite Hs, ?Hi. split; [done|]. split; [lia|done]. }
  unfold tcsetattr in E at 1. cbn [upd_save upd_terms terms calls] in E. rewrite Eo in E.
  destruct (set_to (S (calls s)) t (want t)) as [e|now].
  { cbn in E. injection E as <- <-. unfold tty_inv. cbn. rewrite Hs. split; [done|]. split; [lia|done]. }
  change (0 <? 0) with false in E. cbv iota beta in E. unfold tcgetattr in E.
  cbn [upd_terms upd_save terms calls] in E. rewrite lookup_insert_eq in E.
  assert (Hrest : forall e0 s1 r1 s2, ttystate s1 = RESET -> terms s1 = <[fd := now]> orig ->
    tcsetattr fd t s1 = (r1, s2) -> tty_inv (upd_errno e0 s2) /\ ttystate s2 = RESET).
  { intros e0 s1 r1 s2 H1 H2 H3. destruct (tcset_orig fd t now s1 s2 r1 Eo H2 H3) as [_ ->].
    unfold tty_inv. cbn. by rewrite H1. }
  destruct (get_err (S (S (calls s)))) as [e|].
  { change (save_termios _) with t in E.
    match goal with H : context [tcsetattr fd t ?s1] |- _ => destruct (tcsetattr fd t s1) as [r1 s2] eqn:E1 end.
    injection E as <- <-. edestruct Hrest as [H1 H2]; [| |exact E1|]; [done|done|]. split; [exact H1|].
    split; [lia|]. intros _. cbn. by rewrite H2, Hs. }
  destruct (failed now) eqn:Ef.
  - change (save_termios _) with t in E.
    match goal with H : context [tcsetattr fd t ?s1] |- _ => destruct (tcsetattr fd t s1) as [r1 s2] eqn:E1 end.
    injection E as <- <-. edestruct Hrest as [H1 H2]; [| |exact E1|]; [done|done|]. split; [exact H1|].
    split; [lia|]. intros _. cbn. by rewrite H2, Hs.
  - injection E as <- <-. split; [|split; [done|done]]. unfold tty_inv. cbn.
    assert (Hok := Hf _ Ef). destruct mode; [done| |]; (split_and!; [by eapply fds_nonneg|done|by exists now]).
Qed.

Lemma tty_reset_inv fd s r s' :
  tty_inv s -> op_ok (Reset fd) s = true -> tty_reset fd s = (r, s') ->
  r = 0 /\ ttystate s' = RESET /\ terms s' = orig.
Proof.
  intros Hi Hok E. unfold tty_reset in E. unfold tty_inv in Hi. cbn [op_ok] in Hok.
  destruct (ttystate s) eqn:Es; cbn in E, Hok; [by injection E as <- <-| |].
  all: apply Z.eqb_eq in Hok as ->; destruct Hi as (_ & Ho & now & Ht & _).
  all: destruct (tcsetattr (ttysavefd s) (save_termios s) s) as [r1 s1] eqn:E1.
  all: destruct (tcset_orig _ _ _ _ _ _ Ho Ht E1) as [-> ->]; by injection E as <- <-.
Qed.

Lemma tty_do_inv o s r s' :
  tty_inv s -> op_ok o s = true -> tty_do o s = (r, s') -> tty_inv s'.
Proof.
  intros Hi Hok E. destruct o as [fd|fd|fd]; cbn [tty_do] in E.
  - by eapply set_mode_inv in E as [? _].
  - by eapply set_mode_inv in E as [? _].
  - destruct (tty_reset_inv _ _ _ _ Hi Hok E) as (_ & Hs & Ht). unfold tty_inv. by rewrite Hs.
Qed.

Lemma tty_run_inv s0 os s : tty_inv s0 -> tty_run s0 os s -> tty_inv s.
Proof. intros H0. induction 1 as [|os s o r s' Hr IH Hok E]; [done|]. by eapply tty_do_inv. Qed.

Lemma tty_atexit_inv s : tty_inv s -> terms (tty_atexit s) = orig.
Proof.
  intros Hi. unfold tty_atexit. destruct (Z.leb_spec 0 (ttysavefd s)) as [Hge|Hge].
  - destruct (tty_reset (ttysavefd s) s) as [r s'] eqn:E.
    eapply tty_reset_inv in E; [by destruct E as (_ & _ & Et)|done|]. cbn [op_ok]. by rewrite Z.eqb_refl, orb_true_r.
  - unfold tty_inv in Hi. destruct (ttystate s); [done| |]; lia.
Qed.

End Tty.

(** ** A driver that makes every change *)

Lemma has_clear l m : Z.land (wrap_u 32 (Z.lnot m)) m = 0 -> has (clear l m) m = false.
Proof. intros H. unfold has, clear. by rewrite <- Z.land_assoc, H, Z.land_0_r. Qed.

Lemma one_byte_cc l : (7 <= length l)%nat -> one_byte l !! VMIN = Some 1 /\ one_byte l !! VTIME = Some 0.
Proof.
  intros H. unfold one_byte, VMIN, VTIME. rewrite list_lookup_insert_ne, list_lookup_insert_eq by lia.
  by rewrite list_lookup_insert_eq by (rewrite length_insert; lia).
Qed.

Lemma modes_reached t :
  (7 <= length (c_cc t))%nat -> not_cbreak (cbreak_of t) = false /\ not_raw (raw_of t) = false.
Proof.
  intros H. destruct (one_byte_cc _ H) as [E1 E2].
  unfold not_cbreak, not_raw, cc, cbreak_of, raw_of. cbn [c_lflag c_iflag c_cflag c_oflag c_cc].
  rewrite E1, E2, !has_clear by reflexivity. cbn [orb default negb Z.eqb Pos.eqb].
  rewrite Z.land_lor_distr_l. unfold clear. rewrite <- Z.land_assoc.
  replace (Z.land (wrap_u 32 (Z.lnot (Z.lor CSIZE PARENB))) (Z.lor CSIZE (Z.lor PARENB CS8))) with 0 by reflexivity.
  rewrite Z.land_0_r. split; reflexivity.
Qed.
