(* ===== verification/TtyTheorems.v ===== *)
(** * TtyTheorems: terminals are left as they were found. *)
From S2P Require Import Prelude TtyModes.
Local Open Scope Z_scope.

(** Terminals are restored: after any sequence of calls of [tty_cbreak],
    [tty_raw] and [tty_reset], on any descriptors, whichever of their system calls
    fail or change only a part of what they were asked for, every terminal has the
    settings it had at the start, except the one terminal that is in a mode, which
    has the settings of that mode and whose old settings are the saved ones; a mode
    is entered only from RESET and a refused change leaves everything as it was.
    [tty_reset] of that terminal succeeds, and after it or after [tty_atexit] all
    terminals are as at the start.  (Provided that settings a terminal had can be
    set again.) *)
Lemma tty_restored {K : TtyKernel} (orig : gmap Z termios) `{!Restorable orig} junk os s :
  tty_run (tty_init junk orig) os s ->
  tty_inv orig s /\
  terms (tty_atexit s) = orig /\
  (forall fd r s', op_ok (Reset fd) s = true -> tty_reset fd s = (r, s') -> r = 0 /\ terms s' = orig) /\
  (forall fd r s', tty_cbreak fd s = (r, s') \/ tty_raw fd s = (r, s') ->
     r = -1 /\ ttystate s' = ttystate s \/ r = 0 /\ ttystate s = RESET /\ ttysavefd s' = fd).
Proof.
  intros Hr. assert (Hi : tty_inv orig s) by (by eapply tty_run_inv; [| |exact Hr]).
  split_and!; [done|by apply tty_atexit_inv| |].
  - intros fd r s' Hok E. destruct (tty_reset_inv orig _ _ _ _ Hi Hok E) as (-> & _ & ->). done.
  - intros fd r s' [E|E]; eapply (set_mode_inv orig) in E as (_ & H1 & H2); try done.
    all: destruct (decide (r = 0)) as [->|Hn]; [right; naive_solver|left; by apply H2].
Qed.

(** On a driver that makes every change, the calls reach exactly the settings they
    ask for. *)
Lemma tty_modes_set (K : TtyKernel) fd s t :
  (forall n, get_err n = None) -> (forall n old new, set_to n old new = inr new) ->
  ttystate s = RESET -> terms s !! fd = Some t -> (7 <= length (c_cc t))%nat ->
  (exists s', tty_cbreak fd s = (0, s') /\ terms s' = <[fd := cbreak_of t]> (terms s)) /\
  (exists s', tty_raw fd s = (0, s') /\ terms s' = <[fd := raw_of t]> (terms s)).
Proof.
  intros Hg Hs Hr Ht Hl. destruct (modes_reached t Hl) as [H1 H2].
  unfold tty_cbreak, tty_raw, set_mode. rewrite Hr, bool_decide_true by done. cbn [negb].
  unfold tcgetattr at 1 3. rewrite Ht, Hg. unfold tcsetattr. cbn [upd_save upd_terms terms calls].
  rewrite Ht, !Hs. cbn [Z.ltb Z.compare]. unfold tcgetattr. cbn [upd_save upd_terms terms calls].
  rewrite !lookup_insert_eq, Hg, H1, H2. split; by eexists.
Qed.

(** A driver whose second call fails and that does not clear ECHO in the fourth. *)
Definition demo_tty : TtyKernel := {|
  get_err n := if (n =? 1)%nat then Some 5 else None;
  set_to n old new :=
    if (n =? 3)%nat && negb (has (c_lflag new) ECHO)
    then inr (mkTermios (c_iflag new) (c_oflag new) (c_cflag new) (Z.lor (c_lflag new) ECHO) (c_cc new))
    else inr new |}.

Definition cooked : termios := mkTermios 0x500 5 0xBF 0x8A3B (replicate 32 4).

Lemma demo_restorable : @Restorable demo_tty {[0 := cooked]}.
Proof.
  split.
  - intros n fd old t H. apply lookup_singleton_Some in H as [_ <-]. simpl.
    replace (has (c_lflag cooked) ECHO) with true by reflexivity. by rewrite andb_false_r.
  - intros fd t H. apply lookup_singleton_Some in H as [<- _]. done.
Defined.

Lemma tty_restored_witness :
  let s := (@tty_raw demo_tty 0 (@tty_cbreak demo_tty 0 (tty_init cooked {[0 := cooked]})).2).2 in
  terms (@tty_atexit demo_tty s) = {[0 := cooked]}.
Proof.
  intros s.
  assert (Hrun : @tty_run demo_tty (tty_init cooked {[0 := cooked]})
    [(Cbreak 0, (@tty_cbreak demo_tty 0 (tty_init cooked {[0 := cooked]})).1);
     (Raw 0, (@tty_raw demo_tty 0 (@tty_cbreak demo_tty 0 (tty_init cooked {[0 := cooked]})).2).1)] s).
  { eapply (tty_more _ [_]); [eapply (tty_more _ []); [apply tty_start|reflexivity|apply surjective_pairing]|
      reflexivity|apply surjective_pairing]. }
  apply (@tty_restored demo_tty {[0 := cooked]} demo_restorable cooked _ s Hrun).
Defined.
