(* ===== verification/Env.v ===== *)
(** * Env: the environment and the search of PATH.

    tlpi-dist/proc/setenv.c ([setenv], [unsetenv]) and procexec/execlp.c
    ([execlp]).  The environment is the array environ without its null pointer; its
    strings are not changed once they are in it. *)
From S2P Require Import Prelude Libc.
Local Open Scope Z_scope.

Abbreviation environ := (list bytes).

Definition EINVAL : Z := 22.
Definition EACCES : Z := 13.
Definition ENOEXEC : Z := 8.

(** ** The standard library *)

(** Whether an entry is for a name: it starts with the name and an equals sign. *)
Definition for_name (name e : bytes) : bool := bool_decide (name ++ str "=" `prefix_of` e).

Definition getenv (env : environ) (name : bytes) : option bytes :=
  drop (S (length name)) <$> List.find (for_name name) env.

(** [putenv] of a string [name=value]: in place of the first entry for the name, or
    at the end. *)
Fixpoint putenv (env : environ) (name es : bytes) : environ :=
  match env with
  | [] => [es]
  | e :: env' => if for_name name e then es :: env' else e :: putenv env' name es
  end.

(** ** setenv.c *)

(** The test of the arguments of both functions. *)
Definition bad_name (name : option bytes) : bool :=
  match name with
  | None => true
  | Some n => bool_decide (n = []) || bool_decide (is_Some (strchr n 61))
  end.

(** The loop of [unsetenv]: [ep] is an index; the inner loop moves the entries
    behind it one place down. *)
Fixpoint unset_loop (fuel : nat) (name : bytes) (ep : nat) (env : environ) : environ :=
  match fuel with
  | O => env
  | S f =>
      match env !! ep with
      | None => env
      | Some e =>
          if bool_decide (take (length name) e = name) && bool_decide (e !! length name = Some 61)
          then unset_loop f name ep (take ep env ++ drop (S ep) env)
          else unset_loop f name (S ep) env
      end
  end.

(** The result is the return value, errno when it is set, and the environment. *)
Definition unsetenv (name : option bytes) (env : environ) : Z * option Z * environ :=
  match name with
  | Some n => if bad_name name then (-1, Some EINVAL, env)
              else (0, None, unset_loop (S (length env)) n 0 env)
  | None => (-1, Some EINVAL, env)
  end.

(** [malloc_ok] and [putenv_ok] say whether those calls succeed. *)
Definition setenv (malloc_ok putenv_ok : bool) (name value : option bytes) (overwrite : Z) (env : environ) :
    Z * option Z * environ :=
  match name, value with
  | Some n, Some v =>
      if bad_name name then (-1, Some EINVAL, env)
      else if negb (bool_decide (getenv env n = None)) && (overwrite =? 0) then (0, None, env)
      else
        let '(_, _, env) := unsetenv name env in
        if negb malloc_ok then (-1, None, env)
        else
          let es := n ++ str "=" ++ v in
          if putenv_ok then (0, None, putenv env n es) else (-1, None, env)
  | _, _ => (-1, Some EINVAL, env)
  end.

(** ** execlp.c *)

(** How [execlp] ends: in the new program, with errno set, or undefined. *)
Inductive exec_end := Executed (pathname : bytes) (argv : list bytes) (envp : environ)
  | ExecFailed (errno : Z) | ExecUndef (why : string).

Section Exec.
Context (execve : bytes -> option Z).   (* the error of executing a file, if any *)

(** An array of pointers, [None] for a null pointer; storing outside it has no
    result. *)
Abbreviation pointers := (list (option bytes)).
Definition store_at (i : nat) (v : option bytes) (a : pointers) : option pointers :=
  if (i <? length a)%nat then Some (<[i := v]> a) else None.

(** The loop that builds [argv]: [va] are the arguments still to come, which a null
    pointer ends; [argvSize] counts 100 more after a realloc that leaves room for one
    pointer. *)
Fixpoint argv_loop (va : list bytes) (argv : pointers) (argc argvSize : nat) : option (pointers * nat) :=
  let '(argv, argvSize) :=
    if (argvSize <=? argc + 1)%nat then (take 1 argv, (argvSize + 100)%nat) else (argv, argvSize) in
  match va with
  | [] => argv ← store_at argc None argv; Some (argv, S argc)
  | a :: va' => argv ← store_at argc (Some a) argv; argv_loop va' argv (S argc) argvSize
  end.

(** [argv] and [argc], which counts the null pointer; [args] are [arg] and the rest. *)
Definition build_argv (args : list bytes) : option (pointers * nat) :=
  let argv := replicate 100 None in
  match args with
  | [] => Some (argv, 1%nat)
  | arg :: va => argv_loop va (<[0%nat := Some arg]> argv) 1 100
  end.

(** What a program finds in an argument vector. *)
Fixpoint until_null (a : pointers) : list bytes :=
  match a with Some x :: a' => x :: until_null a' | _ => [] end.

Definition SHELL_PATH : bytes := str "/bin/sh".

(** The loop of [execShScript], [shArgv[j + 1] = argv[j]]. *)
Fixpoint sh_loop (n j : nat) (argv shArgv : pointers) : option pointers :=
  match n with
  | O => Some shArgv
  | S n' => v ← argv !! j; shArgv ← store_at (S j) v shArgv; sh_loop n' (S j) argv shArgv
  end.

(** [execShScript]: [None] when it returns, as the shell cannot be executed; the
    elements of a new array hold anything, here null pointers. *)
Definition execShScript (argc : nat) (argv : pointers) (envp : environ) : option exec_end :=
  match (shArgv ← store_at 0 (Some SHELL_PATH) (replicate (argc + 1) None); sh_loop (S argc) 0 argv shArgv) with
  | None => Some (ExecUndef "shArgv overflow")
  | Some shArgv =>
      match execve SHELL_PATH with
      | None => Some (Executed SHELL_PATH (until_null shArgv) envp)
      | Some _ => None
      end
  end.

(** The loop over the prefixes: [prStart] is what is left of PATH; the names tried so
    far are kept. *)
Fixpoint path_loop (fuel : nat) (prStart filename : bytes) (argc : nat) (argv : pointers) (envp : environ)
    (fndEACCES : bool) (tried : list bytes) : option (exec_end * list bytes) :=
  match fuel with
  | O => None
  | S f =>
      let found := strchr prStart 58 in
      let prEnd := match found with Some i => i | None => length prStart end in
      let size := (Nat.max 1 prEnd + length filename + 2)%nat in
      let prefix := if bool_decide (prEnd = 0%nat) then str "." else take prEnd prStart in
      let pathname := prefix ++ str "/" ++ filename in
      if (size <? S (length pathname))%nat then Some (ExecUndef "pathname overflow", tried)
      else
        let tried := tried ++ [pathname] in
        match execve pathname with
        | None => Some (Executed pathname (until_null argv) envp, tried)
        | Some e =>
            match (if e =? ENOEXEC then execShScript argc argv envp else None) with
            | Some stop => Some (stop, tried)
            | None =>
                let fnd := fndEACCES || (e =? EACCES) in
                match found with
                | Some i => path_loop f (drop (S i) prStart) filename argc argv envp fnd tried
                | None => Some (ExecFailed (if fnd then EACCES else e), tried)
                end
            end
        end
  end.

Definition execlp (filename : bytes) (args : list bytes) (env : environ) : option (exec_end * list bytes) :=
  match build_argv args with
  | None => Some (ExecUndef "argv overflow", [])
  | Some (argv, argc) =>
      match strchr filename 47 with
      | Some _ =>
          match execve filename with
          | None => Some (Executed filename (until_null argv) env, [filename])
          | Some e =>
              match (if e =? ENOEXEC then execShScript argc argv env else None) with
              | Some stop => Some (stop, [filename])
              | None => Some (ExecFailed e, [filename])
              end
          end
      | None =>
          let PATH := match getenv env (str "PATH") with
                      | None | Some [] => str "."
                      | Some p => p
                      end in
          path_loop (S (length PATH)) PATH filename argc argv env false []
      end
  end.

(** ** What they compute *)

(** The names in a search path; an empty one is the current directory. *)
Fixpoint split_colon (cur p : bytes) : list bytes :=
  match p with
  | [] => [cur]
  | c :: p' => if c =? 58 then cur :: split_colon [] p' else split_colon (cur ++ [c]) p'
  end.

Definition candidates (path filename : bytes) : list bytes :=
  map (fun d => (if bool_decide (d = []) then str "." else d) ++ str "/" ++ filename) (split_colon [] path).

(** Trying names in turn: the first that can be executed, or the error to report. *)
Fixpoint first_exec (cs : list bytes) (argv : list bytes) (envp : environ) (fnd : bool) (last : Z) : exec_end :=
  match cs with
  | [] => ExecFailed (if fnd then EACCES else last)
  | c :: cs' =>
      match execve c with
      | None => Executed c argv envp
      | Some e => first_exec cs' argv envp (fnd || (e =? EACCES)) e
      end
  end.

End Exec.

(** *** A map *)

Inductive env_op :=
| Set_ (malloc_ok putenv_ok : bool) (name value : option bytes) (overwrite : Z)
| Unset (name : option bytes).

Definition env_do (o : env_op) (env : environ) : Z * environ :=
  match o with
  | Set_ a b n v ov => let '(r, _, env') := setenv a b n v ov env in (r, env')
  | Unset n => let '(r, _, env') := unsetenv n env in (r, env')
  end.

(** The same on a map of names to values: arguments that are not valid are refused, a
    variable that is set is kept unless it is to be overwritten, and a failure for
    want of memory deletes it. *)
Definition map_do (o : env_op) (m : gmap bytes bytes) : Z * gmap bytes bytes :=
  match o with
  | Unset (Some n) => if bad_name (Some n) then (-1, m) else (0, delete n m)
  | Set_ a b (Some n) (Some v) ov =>
      if bad_name (Some n) then (-1, m)
      else if bool_decide (is_Some (m !! n)) && (ov =? 0) then (0, m)
      else if a && b then (0, <[n := v]> m) else (-1, delete n m)
  | _ => (-1, m)
  end.

Fixpoint env_dos (os : list env_op) (env : environ) : list Z * environ :=
  match os with
  | [] => ([], env)
  | o :: os' => let '(r, env) := env_do o env in let '(rs, env) := env_dos os' env in (r :: rs, env)
  end.

Fixpoint map_dos (os : list env_op) (m : gmap bytes bytes) : list Z * gmap bytes bytes :=
  match os with
  | [] => ([], m)
  | o :: os' => let '(r, m) := map_do o m in let '(rs, m) := map_dos os' m in (r :: rs, m)
  end.

(** An environment with the values of a map: for every name without an equals sign,
    what [getenv] finds. *)
Definition env_rep (env : environ) (m : gmap bytes bytes) : Prop :=
  forall n, bad_name (Some n) = false -> getenv env n = m !! n.

(** ** The environment as a map, and the search of PATH *)

(** ** Entries and names *)

Lemma good_name n : bad_name (Some n) = false -> n <> [] /\ Forall (fun x => x <> 61) n.
Proof.
  cbn [bad_name]. intros [H1 H2]%orb_false_iff. apply bool_decide_eq_false in H1, H2. split; [done|].
  apply strchr_None_inv. destruct (strchr n 61); [|done]. by destruct H2.
Qed.

Lemma for_name_spec n e : for_name n e = true <-> exists v, e = n ++ 61 :: v.
Proof.
  unfold for_name. rewrite bool_decide_eq_true. split; intros [v ->]; exists v; by rewrite <- app_assoc.
Qed.

Lemma for_name_test n e :
  bool_decide (take (length n) e = n) && bool_decide (e !! length n = Some 61) = for_name n e.
Proof.
  apply eq_true_iff_eq. rewrite for_name_spec, andb_true_iff, !bool_decide_eq_true. split.
  - intros [H1 H2]. exists (drop (S (length n)) e).
    rewrite <- (take_drop_middle e (length n) 61 H2) at 1. by rewrite H1.
  - intros [v ->]. split; [apply take_app_length|by apply list_lookup_middle].
Qed.

Lemma for_name_unique n n' e :
  Forall (fun x => x <> 61) n -> Forall (fun x => x <> 61) n' ->
  for_name n e = true -> for_name n' e = true -> n = n'.
Proof.
  intros H1 H2 [v E1]%for_name_spec [v' E2]%for_name_spec.
  assert (L1 := strchr_app n 61 v H1). assert (L2 := strchr_app n' 61 v' H2).
  assert (E3 : n ++ 61 :: v = n' ++ 61 :: v') by congruence. rewrite E3, L2 in L1. injection L1 as L.
  by apply app_inj_1 in E3 as [-> _].
Qed.

Lemma find_cons_other n n' e env :
  bad_name (Some n) = false -> bad_name (Some n') = false -> n <> n' -> for_name n e = true ->
  List.find (for_name n') (e :: env) = List.find (for_name n') env.
Proof.
  intros [_ H1]%good_name [_ H2]%good_name Hne He. cbn [List.find].
  destruct (for_name n' e) eqn:E; [|done]. destruct Hne. by eapply for_name_unique.
Qed.

(** ** unsetenv and setenv *)

Abbreviation others n := (filter (fun e => negb (for_name n e))).

Lemma unset_loop_filter fuel n ep env :
  (length env - ep < fuel)%nat ->
  unset_loop fuel n ep env = take ep env ++ others n (drop ep env).
Proof.
  revert ep env. induction fuel as [|f IH]; intros ep env Hf; [lia|]. cbn [unset_loop].
  destruct (env !! ep) as [e|] eqn:E.
  - assert (Hlt := lookup_lt_Some _ _ _ E). rewrite for_name_test. rewrite (drop_S env e ep E), filter_cons.
    destruct (for_name n e) eqn:En.
    + rewrite decide_False by (by intros []).
      assert (Hl : length (take ep env) = ep) by (rewrite length_take; lia).
      rewrite IH by (rewrite length_app, Hl, length_drop; lia).
      by rewrite take_app_length', drop_app_length' by done.
    + rewrite decide_True by done. rewrite IH by lia. rewrite (take_S_r env ep e E), <- app_assoc. done.
  - apply lookup_ge_None in E. by rewrite take_ge, drop_ge, filter_nil, app_nil_r.
Qed.

Lemma unsetenv_others n env :
  bad_name (Some n) = false -> unsetenv (Some n) env = (0, None, others n env).
Proof.
  intros H. unfold unsetenv. rewrite H, unset_loop_filter by lia. by rewrite take_0, drop_0.
Qed.

Lemma getenv_others n n' env :
  bad_name (Some n) = false -> bad_name (Some n') = false ->
  getenv (others n env) n' = if bool_decide (n = n') then None else getenv env n'.
Proof.
  intros H1 H2. unfold getenv. case_bool_decide as Hn.
  - subst n'. destruct (List.find (for_name n) (others n env)) as [e|] eqn:E; [|done].
    apply List.find_some in E as [Hin He]. apply list_elem_of_In, list_elem_of_filter in Hin as [Hneg _].
    by rewrite He in Hneg.
  - f_equal. induction env as [|e env IH]; [done|]. rewrite filter_cons. destruct (for_name n e) eqn:En.
    + rewrite decide_False by (by intros []). by rewrite (find_cons_other n n' e env).
    + rewrite decide_True by done. cbn [List.find]. by rewrite IH.
Qed.

Lemma getenv_put n n' v env :
  bad_name (Some n) = false -> bad_name (Some n') = false ->
  getenv (putenv (others n env) n (n ++ str "=" ++ v)) n' =
  if bool_decide (n = n') then Some v else getenv (others n env) n'.
Proof.
  intros H1 H2.
  assert (Hput : putenv (others n env) n (n ++ str "=" ++ v) = others n env ++ [n ++ str "=" ++ v]).
  { induction env as [|e env IH]; [done|]. rewrite filter_cons. destruct (for_name n e) eqn:En.
    - rewrite decide_False by (by intros []). done.
    - rewrite decide_True by done. cbn [putenv app]. by rewrite En, IH. }
  rewrite Hput. unfold getenv. assert (Hown : for_name n (n ++ str "=" ++ v) = true) by (apply for_name_spec; by exists v).
  assert (Happ : forall l, List.find (for_name n') (l ++ [n ++ str "=" ++ v]) =
    match List.find (for_name n') l with Some e => Some e | None => List.find (for_name n') [n ++ str "=" ++ v] end).
  { induction l as [|e l IH]; [done|]. cbn [app List.find]. by destruct (for_name n' e). }
  rewrite Happ. case_bool_decide as Hn.
  - subst n'. assert (En := getenv_others n n env H1 H1). rewrite bool_decide_true in En by done.
    unfold getenv in En. destruct (List.find (for_name n) (others n env)); [done|].
    cbn [List.find]. rewrite Hown. cbn [fmap option_fmap option_map]. f_equal.
    replace (n ++ str "=" ++ v) with ((n ++ [61]) ++ v) by (by rewrite <- app_assoc).
    replace (S (length n)) with (length (n ++ [61])) by (rewrite length_app; cbn; lia). apply drop_app_length.
  - rewrite (find_cons_other n n') by done. cbn [List.find]. by destruct (List.find (for_name n') (others n env)).
Qed.

Lemma env_do_sim o env m :
  env_rep env m -> (env_do o env).1 = (map_do o m).1 /\ env_rep (env_do o env).2 (map_do o m).2.
Proof.
  intros Hr.
  assert (Hdel : forall n, bad_name (Some n) = false -> env_rep (others n env) (delete n m)).
  { intros n Hn n' Hn'. rewrite getenv_others by done. case_bool_decide as E.
    - subst. by rewrite lookup_delete_eq.
    - rewrite lookup_delete_ne by done. by apply Hr. }
  destruct o as [a b [n|] [v|] ov|[n|]]; try done; cbn [env_do map_do setenv].
  - destruct (bad_name (Some n)) eqn:Hn; [done|]. rewrite (Hr n Hn).
    replace (negb (bool_decide (m !! n = None))) with (bool_decide (is_Some (m !! n)))
      by (destruct (m !! n); [by rewrite bool_decide_true, bool_decide_false by (eauto || done)|];
          rewrite bool_decide_false, bool_decide_true by (done || by intros []); done).
    destruct (bool_decide (is_Some (m !! n)) && (ov =? 0)); [done|].
    rewrite unsetenv_others by done. destruct a; cbn [negb andb]; [|by split; [|apply Hdel]].
    destruct b; [|by split; [|apply Hdel]]. split; [done|]. intros n' Hn'. cbn [snd].
    rewrite getenv_put by done. case_bool_decide as E.
    + subst. by rewrite lookup_insert_eq.
    + rewrite lookup_insert_ne by done. rewrite (Hdel n Hn n' Hn'). by rewrite lookup_delete_ne.
  - destruct (bad_name (Some n)) eqn:Hn; [by unfold unsetenv; rewrite Hn|].
    rewrite unsetenv_others by done. split; [done|by apply Hdel].
Qed.

(** The map that an environment stands for: the first entry for a name counts. *)
Fixpoint env_map (env : environ) : gmap bytes bytes :=
  match env with
  | [] => ∅
  | e :: env' =>
      match strchr e 61 with
      | Some i => <[take i e := drop (S i) e]> (env_map env')
      | None => env_map env'
      end
  end.

Lemma env_map_rep env : env_rep env (env_map env).
Proof.
  induction env as [|e env IH]; intros n Hn; [done|]. assert (Hg := good_name n Hn). destruct Hg as [_ Hg].
  cbn [env_map]. unfold getenv. cbn [List.find]. destruct (strchr e 61) as [i|] eqn:Ei.
  - destruct (strchr_Some_inv _ _ _ Ei) as [Ee Fe]. destruct (for_name n e) eqn:En.
    + assert (Ename : n = take i e).
      { eapply (for_name_unique n (take i e) e); [done|done|done|]. apply for_name_spec. by exists (drop (S i) e). }
      rewrite <- Ename, lookup_insert_eq. cbn. do 2 f_equal. rewrite Ename, length_take.
      assert (Hl := f_equal length Ee). rewrite length_app, length_take in Hl. cbn [length] in Hl. lia.
    + rewrite lookup_insert_ne; [by apply IH|]. intros E. rewrite <- E in En.
      assert (for_name (take i e) e = true) by (apply for_name_spec; by exists (drop (S i) e)). congruence.
  - destruct (for_name n e) eqn:En; [|by apply IH].
    apply for_name_spec in En as [v ->]. by rewrite strchr_app in Ei.
Qed.

(** C33: [setenv] and [unsetenv] make the environment a map from names to values:
    whatever the environment is at the start (with several entries for a name too),
    any sequence of calls, with valid arguments or not, returns what the same
    operations on the map return, and afterwards [getenv] finds for every name what
    the map has.  (An insertion for which there is no memory fails with the variable
    deleted.) *)
Theorem env_refines_map os env :
  let '(rs, env') := env_dos os env in
  let '(rs', m') := map_dos os (env_map env) in
  rs = rs' /\ env_rep env' m'.
Proof.
  generalize (env_map_rep env). generalize (env_map env) as m. revert env.
  induction os as [|o os IH]; intros env m Hr; [done|]. cbn [env_dos map_dos].
  destruct (env_do_sim o env m Hr) as [E1 E2].
  destruct (env_do o env) as [r env1], (map_do o m) as [r' m1]. cbn in E1, E2. subst r'.
  specialize (IH env1 m1 E2). destruct (env_dos os env1), (map_dos os m1). destruct IH as [-> ?]. done.
Qed.

(** ** The search of PATH *)

Lemma split_colon_eq cur p :
  split_colon cur p =
  match strchr p 58 with
  | Some i => (cur ++ take i p) :: split_colon [] (drop (S i) p)
  | None => [cur ++ p]
  end.
Proof.
  revert cur. induction p as [|c p IH]; intros cur; cbn [split_colon strchr]; [by rewrite app_nil_r|].
  destruct (c =? 58); [by rewrite take_0, app_nil_r|]. rewrite IH. destruct (strchr p 58); cbn; by rewrite <- app_assoc.
Qed.

(** The vector is right for fewer than 99 arguments, and too small for more. *)
Lemma argv_loop_spec va pre argc :
  argc = length pre -> (length pre + length va < 99)%nat ->
  exists pad, argv_loop va (map Some pre ++ replicate (100 - length pre) None) argc 100 =
    Some (map Some (pre ++ va) ++ None :: pad, (length pre + length va + 1)%nat).
Proof.
  revert pre argc. induction va as [|a va IH]; intros pre argc -> Hl; cbn [argv_loop length] in *.
  all: assert (Hi : forall v rest, <[length pre := v]> (map Some pre ++ None :: rest) = map Some pre ++ v :: rest)
    by (intros v rest; rewrite <- (length_map (@Some bytes) pre); apply insert_middle).
  - rewrite (proj2 (Nat.leb_gt _ _)) by lia. unfold store_at.
    rewrite (proj2 (Nat.ltb_lt _ _)) by (rewrite length_app, length_map, length_replicate; lia).
    exists (replicate (100 - length pre - 1) None). cbn [mbind option_bind]. rewrite app_nil_r.
    replace (100 - length pre)%nat with (S (100 - length pre - 1)) at 1 by lia. cbn [replicate].
    rewrite Hi. do 2 f_equal. lia.
  - rewrite (proj2 (Nat.leb_gt _ _)) by lia. unfold store_at.
    rewrite (proj2 (Nat.ltb_lt _ _)) by (rewrite length_app, length_map, length_replicate; lia).
    cbn [mbind option_bind]. replace (100 - length pre)%nat with (S (100 - length pre - 1)) by lia. cbn [replicate].
    rewrite Hi.
    destruct (IH (pre ++ [a]) (S (length pre))) as [pad E]; [rewrite length_app; cbn; lia|rewrite length_app; cbn; lia|].
    exists pad. rewrite length_app in E. cbn [length] in E.
    replace (100 - (length pre + 1))%nat with (100 - length pre - 1)%nat in E by lia.
    rewrite map_app in E. rewrite <- app_assoc in E. cbn [map app] in E. rewrite E. rewrite <- app_assoc. cbn [app].
    do 2 f_equal. lia.
Qed.

Lemma until_null_map args rest : until_null (map Some args ++ None :: rest) = args.
Proof. induction args as [|a args IH]; cbn; [done|]. by f_equal. Qed.

Lemma build_argv_spec args :
  (length args < 99)%nat -> exists argv argc, build_argv args = Some (argv, argc) /\ until_null argv = args.
Proof.
  intros Hl. destruct args as [|arg va]; [by eexists _, _|]. cbn [length] in Hl. unfold build_argv.
  destruct (argv_loop_spec va [arg] 1 eq_refl) as [pad E]; [cbn; lia|].
  change (<[0%nat := Some arg]> (replicate 100 None)) with (map Some [arg] ++ replicate (100 - length [arg]) None).
  rewrite E. eexists _, _. split; [done|]. apply until_null_map.
Qed.

Lemma path_loop_first execve fuel p filename argc argv envp fnd tried last :
  (length p < fuel)%nat -> Forall (fun c => execve c <> Some ENOEXEC) (candidates p filename) ->
  exists cs, cs `prefix_of` candidates p filename /\
    path_loop execve fuel p filename argc argv envp fnd tried =
      Some (first_exec execve (candidates p filename) (until_null argv) envp fnd last, tried ++ cs).
Proof.
  revert p fnd tried last. induction fuel as [|f IH]; intros p fnd tried last Hf; [lia|].
  unfold candidates. rewrite split_colon_eq. cbn [path_loop].
  set (i := match strchr p 58 with Some i => i | None => length p end).
  assert (Hd : take i p = (match strchr p 58 with Some i => take i p | None => p end)).
  { unfold i. destruct (strchr p 58); [done|]. by rewrite take_ge. }
  assert (Hi : (i <= length p)%nat).
  { unfold i. destruct (strchr p 58) as [j|] eqn:Ej; [|done]. destruct (strchr_Some_inv _ _ _ Ej) as [E _].
    assert (Hl := f_equal length E). rewrite length_app, length_take in Hl. cbn in Hl. lia. }
  set (d := (if bool_decide (take i p = []) then str "." else take i p) ++ str "/" ++ filename).
  assert (Ed : (if bool_decide (i = 0%nat) then str "." else take i p) ++ str "/" ++ filename = d).
  { unfold d. f_equal. destruct (decide (i = 0%nat)) as [E|E].
    - rewrite E, take_0. by rewrite !bool_decide_true.
    - rewrite !bool_decide_false; [done| |done]. intros E'. apply (f_equal length) in E'.
      rewrite length_take in E'. cbn in E'. lia. }
  rewrite Ed. assert (Hsz : (Nat.max 1 i + length filename + 2 <? S (length d))%nat = false).
  { apply Nat.ltb_ge. rewrite <- Ed, !length_app. case_bool_decide; cbn; rewrite ?length_take; lia. }
  rewrite Hsz.
  assert (Hcs : exists rest, map (fun d => (if bool_decide (d = []) then str "." else d) ++ str "/" ++ filename)
      (match strchr p 58 with
       | Some i => ([] ++ take i p) :: split_colon [] (drop (S i) p) | None => [[] ++ p] end) = d :: rest /\
      rest = match strchr p 58 with Some j => candidates (drop (S j) p) filename | None => [] end).
  { eexists. split; [|reflexivity]. unfold d. rewrite Hd. by destruct (strchr p 58). }
  destruct Hcs as (rest & -> & Hrest). cbn [first_exec]. intros Hno. apply Forall_cons in Hno as [Hn1 Hn2].
  destruct (execve d) as [e|] eqn:Ee.
  2: { exists [d]. split; [by apply (prefix_cons d), prefix_nil|done]. }
  destruct (Z.eqb_spec e ENOEXEC) as [->|Hne]; [done|].
  destruct (strchr p 58) as [j|] eqn:Ej; subst rest.
  - destruct (IH (drop (S j) p) (fnd || (e =? EACCES)) (tried ++ [d]) e) as (cs & Hcs & ->);
      [rewrite length_drop; destruct p; [done|cbn [length] in *; lia]|done|].
    exists (d :: cs). split; [by apply prefix_cons|]. by rewrite <- app_assoc.
  - exists [d]. done.
Qed.

(** [execlp] searches as documented: a name without a slash is tried in every
    directory of PATH in order (an empty directory name, and an unset or empty PATH,
    stand for the current directory), with the arguments and the environment
    unchanged, and the first that can be executed is; names built never exceed the
    memory for them.  If there is none, the error is EACCES if any try failed with
    that, else the last one.  A name with a slash is tried alone.  (For fewer than
    99 arguments and files in a known format.) *)
Lemma execlp_searches_path execve filename args env :
  let path := match getenv env (str "PATH") with None | Some [] => str "." | Some p => p end in
  let cs := match strchr filename 47 with Some _ => [filename] | None => candidates path filename end in
  (length args < 99)%nat -> Forall (fun c => execve c <> Some ENOEXEC) cs ->
  exists tried, tried `prefix_of` cs /\
    execlp execve filename args env = Some (first_exec execve cs args env false 0, tried).
Proof.
  intros path cs Ha Hno. unfold execlp.
  destruct (build_argv_spec args Ha) as (argv & argc & -> & Hargv). unfold cs in *.
  destruct (strchr filename 47) as [j|].
  - apply Forall_cons in Hno as [Hno _]. exists [filename]. split; [done|]. cbn [first_exec orb].
    destruct (execve filename) as [e|]; [|by rewrite Hargv]. destruct (Z.eqb_spec e ENOEXEC) as [->|]; [done|].
    by destruct (Z.eqb_spec e EACCES) as [->|].
  - destruct (path_loop_first execve (S (length path)) path filename argc argv env false [] 0) as (tried & Hp & E);
      [lia|done|]. exists tried. split; [done|]. unfold path in E. by rewrite E, Hargv.
Qed.

Definition demo_env : environ := [str "HOME=/root"; str "PATH=/a::/b"; str "PATH=/z"].
Definition demo_execve (p : bytes) : option Z :=
  if bool_decide (p = str "/b/ls") then None else if bool_decide (p = str "./ls") then Some 13 else Some 2.

Lemma execlp_searches_path_witness :
  exists tried, tried `prefix_of` [str "/a/ls"; str "./ls"; str "/b/ls"] /\
    execlp demo_execve (str "ls") [str "ls"; str "-l"] demo_env =
      Some (Executed (str "/b/ls") [str "ls"; str "-l"] demo_env, tried).
Proof.
  apply (execlp_searches_path demo_execve (str "ls") [str "ls"; str "-l"] demo_env).
  - simpl. lia.
  - vm_compute. repeat constructor; discriminate.
Defined.

(** Composition: after [setenv] of PATH the search follows the new value. *)
Example setenv_then_execlp :
  let '(_, env) := env_dos [Set_ true true (Some (str "PATH")) (Some (str "/q:/b")) 1] demo_env in
  env = [str "HOME=/root"; str "PATH=/q:/b"] /\
  execlp demo_execve (str "ls") [str "ls"] env =
    Some (Executed (str "/b/ls") [str "ls"] env, [str "/q/ls"; str "/b/ls"]).
Proof. vm_compute. done. Qed.

(** Running a script always stores one pointer behind the array for the shell's
    arguments. *)
Lemma execShScript_overflows execve argc argv envp :
  execShScript execve argc argv envp = Some (ExecUndef "shArgv overflow").
Proof.
  assert (H : forall n j a, length a = (argc + 1)%nat -> (j + n = argc)%nat -> sh_loop (S n) j argv a = None).
  { induction n as [|n IH]; intros j a Hl Hj; cbn [sh_loop]; destruct (argv !! j) as [v|]; cbn [mbind option_bind]; try done.
    - unfold store_at. by rewrite (proj2 (Nat.ltb_ge _ _)) by lia.
    - unfold store_at. rewrite (proj2 (Nat.ltb_lt _ _)) by lia. cbn [mbind option_bind].
      apply IH; [by rewrite length_insert|lia]. }
  unfold execShScript, store_at. rewrite (proj2 (Nat.ltb_lt _ _)) by (rewrite length_replicate; lia).
  cbn [mbind option_bind]. rewrite H; [done|by rewrite length_insert, length_replicate|lia].
Qed.

(** With 99 arguments the vector is written past its end. *)
Example execlp_99_arguments :
  build_argv (replicate 99 (str "x")) = None /\ is_Some (build_argv (replicate 98 (str "x"))).
Proof. vm_compute. split; [done|by eexists]. Qed.
