(* ===== verification/CondVar.v ===== *)
(** * CondVar: producers and a consumer with a condition variable.

    tlpi-dist/threads/prod_condvar.c.  A step is one call of the pthread library by
    one thread, with what the thread does up to its next call; the counter is only
    used with the mutex locked.  Threads interleave at every step, and a wait may end
    without a signal. *)
From S2P Require Import Prelude Libc.
From stdpp Require Import relations.
Local Open Scope Z_scope.

(** Where a producer is: before locking the mutex, holding it, or before the
    signal. *)
Inductive ppc := PLock | PCrit | PSignal.

(** Where the main thread is: creating threads; before locking; holding the mutex;
    asleep on the condition; woken and about to lock again; after exit. *)
Inductive cpc := CCreate | CLock | CTest | CSleep | CWake | CDone.

Inductive who := Consumer | Producer (i : nat).

Record pst := mkP {
  mtx : option who;              (* who has the mutex *)
  avail : Z;
  prods : list (ppc * Z);        (* each producer, with cnt - j *)
  args : list Z;                 (* the counts of threads not created yet *)
  main_pc : cpc; totRequired : Z; numConsumed : Z; done : bool }.

(** [exit] ends every thread. *)
Definition ended (pc : cpc) : bool := match pc with CDone => true | _ => false end.

(** The effect of a signal. *)
Definition wake (pc : cpc) : cpc := match pc with CSleep => CWake | _ => pc end.

(** The loop of [threadFunc], for producer [i]. *)
Definition pstep (i : nat) (s : pst) : option pst :=
  if ended (main_pc s) then None
  else
    match prods s !! i with
    | None => None
    | Some (PLock, r) =>
        if 0 <? r then
          match mtx s with
          | None => Some (mkP (Some (Producer i)) (avail s) (<[i := (PCrit, r)]> (prods s)) (args s)
                            (main_pc s) (totRequired s) (numConsumed s) (done s))
          | Some _ => None
          end
        else None
    | Some (PCrit, r) =>
        Some (mkP None (avail s + 1) (<[i := (PSignal, r)]> (prods s)) (args s)
                (main_pc s) (totRequired s) (numConsumed s) (done s))
    | Some (PSignal, r) =>
        Some (mkP (mtx s) (avail s) (<[i := (PLock, r - 1)]> (prods s)) (args s)
                (wake (main_pc s)) (totRequired s) (numConsumed s) (done s))
    end.

(** The inner loop of [main], which consumes what is there. *)
Fixpoint consume (fuel : nat) (tot : Z) (st : Z * Z * bool) : Z * Z * bool :=
  match fuel with
  | O => st
  | S f =>
      let '(num, av, d) := st in
      if 0 <? av then consume f tot (num + 1, av - 1, tot <=? num + 1) else st
  end.

Definition cstep (s : pst) : option pst :=
  let goto m pc := mkP m (avail s) (prods s) (args s) pc (totRequired s) (numConsumed s) (done s) in
  match main_pc s with
  | CCreate =>
      match args s with
      | a :: rest => Some (mkP (mtx s) (avail s) (prods s ++ [(PLock, a)]) rest CCreate
                             (totRequired s + a) (numConsumed s) (done s))
      | [] => Some (mkP (mtx s) (avail s) (prods s) [] CLock (totRequired s) 0 false)
      end
  | CLock | CWake => match mtx s with None => Some (goto (Some Consumer) CTest) | Some _ => None end
  | CTest =>
      if avail s =? 0 then Some (goto None CSleep)
      else
        let '(num, av, d) := consume (Z.to_nat (avail s)) (totRequired s) (numConsumed s, avail s, done s) in
        Some (mkP None av (prods s) (args s) (if d then CDone else CLock) (totRequired s) num d)
  | CSleep | CDone => None
  end.

(** A wait that ends without a signal. *)
Definition spurious (s : pst) : option pst :=
  match main_pc s with
  | CSleep => Some (mkP (mtx s) (avail s) (prods s) (args s) CWake (totRequired s) (numConsumed s) (done s))
  | _ => None
  end.

(** The program started with some arguments. *)
Definition start (argv : list bytes) : pst := mkP None 0 [] (map atoi argv) CCreate 0 0 false.

(** Steps but for wake-ups without a signal, and all steps. *)
Inductive good_step (s s' : pst) : Prop :=
| step_producer i : pstep i s = Some s' -> good_step s s'
| step_main : cstep s = Some s' -> good_step s s'.

Inductive any_step (s s' : pst) : Prop :=
| any_good : good_step s s' -> any_step s s'
| any_spurious : spurious s = Some s' -> any_step s s'.

(** Runs from [s0] with the number of units made in them: how often a producer that
    holds the mutex went through its step with [avail++]. *)
Definition makes (i : nat) (s : pst) : Z := match prods s !! i with Some (PCrit, _) => 1 | _ => 0 end.
Inductive made (s0 : pst) : Z -> pst -> Prop :=
| made_start : made s0 0 s0
| made_producer m i s s' : made s0 m s -> pstep i s = Some s' -> made s0 (m + makes i s) s'
| made_main m s s' : made s0 m s -> cstep s = Some s' -> made s0 m s'
| made_spurious m s s' : made s0 m s -> spurious s = Some s' -> made s0 m s'.

(** ** Units *)

(** What a producer has still to produce. *)
Definition pend (x : ppc * Z) : Z := match x with (PSignal, r) => r - 1 | (_, r) => r end.

#[local] Arguments zsum : simpl never.

Lemma consume_all fuel tot num av d :
  0 < av -> (Z.to_nat av <= fuel)%nat ->
  consume fuel tot (num, av, d) = (num + av, 0, tot <=? num + av).
Proof.
  revert num av d. induction fuel as [|f IH]; intros num av d Hav Hf; [lia|]. cbn [consume].
  rewrite (proj2 (Z.ltb_lt _ _) Hav). destruct (decide (av = 1)) as [->|Hn].
  - replace (1 - 1) with 0 by lia. by destruct f.
  - rewrite IH by lia. by replace (num + 1 + (av - 1)) with (num + av) by lia.
Qed.

(** ** The invariant *)

Section Inv.
Context (T : Z).   (* all that will be produced *)

Definition prod_ok (x : ppc * Z) : Prop := match x with (PLock, r) => 0 <= r | (_, r) => 1 <= r end.

Definition holds (s : pst) : Prop :=
  (mtx s = Some Consumer <-> main_pc s = CTest) /\
  (forall i, mtx s = Some (Producer i) <-> exists r, prods s !! i = Some (PCrit, r)).

Record inv (s : pst) : Prop := {
  i_units : zsum pend (prods s) + avail s + numConsumed s + zsum id (args s) = T;
  i_total : totRequired s + zsum id (args s) = T;
  i_avail : 0 <= avail s;
  i_num : 0 <= numConsumed s;
  i_args : Forall (fun a => 0 <= a) (args s);
  i_prods : Forall prod_ok (prods s);
  i_mutex : holds s;
  i_sleep : main_pc s = CSleep -> 0 < avail s -> exists i r, prods s !! i = Some (PSignal, r);
  i_main : match main_pc s with
           | CCreate => numConsumed s = 0
           | CDone => args s = [] /\ numConsumed s = T
           | _ => args s = [] /\ numConsumed s < T
           end;
}.

(** The steps that are left. *)
Definition ppot (x : ppc * Z) : Z :=
  match x with (PLock, r) => 8 * r | (PCrit, r) => 8 * r - 1 | (PSignal, r) => 8 * r - 2 end.
Definition cpot (pc : cpc) : Z :=
  match pc with CCreate => 3 | CLock | CWake => 2 | CTest => 1 | CSleep | CDone => 0 end.
Definition pot (s : pst) : Z :=
  zsum ppot (prods s) + 2 * (avail s + zsum pend (prods s) + zsum id (args s)) +
  zsum (fun a => 8 * a + 1) (args s) + cpot (main_pc s).

Lemma prod_ok_pend x : prod_ok x -> 0 <= pend x.
Proof. destruct x as [[] r]; cbn; lia. Qed.
Lemma prod_ok_ppot x : prod_ok x -> 0 <= ppot x.
Proof. destruct x as [[] r]; cbn; lia. Qed.

Lemma inv_pend s : inv s -> 0 <= zsum pend (prods s).
Proof. intros H. apply zsum_Forall. eapply Forall_impl; [exact (i_prods _ H)|exact prod_ok_pend]. Qed.

Lemma pot_nonneg s : inv s -> 0 <= pot s.
Proof.
  intros H. unfold pot. assert (H1 := inv_pend s H). assert (H2 := i_avail _ H).
  assert (0 <= zsum ppot (prods s)).
  { apply zsum_Forall. eapply Forall_impl; [exact (i_prods _ H)|exact prod_ok_ppot]. }
  assert (0 <= zsum id (args s)) by (apply zsum_Forall; exact (i_args _ H)).
  assert (0 <= zsum (fun a => 8 * a + 1) (args s)).
  { apply zsum_Forall. eapply Forall_impl; [exact (i_args _ H)|]. intros a Ha; cbv beta in *; lia. }
  assert (0 <= cpot (main_pc s)) by (by destruct (main_pc s)). lia.
Qed.

Lemma holds_insert s i x y pc' m' :
  holds s -> prods s !! i = Some x ->
  (m' = Some Consumer <-> pc' = CTest) ->
  (forall j, j <> i -> m' = Some (Producer j) <-> mtx s = Some (Producer j)) ->
  (m' = Some (Producer i) <-> y.1 = PCrit) ->
  forall av ar t n d, holds (mkP m' av (<[i := y]> (prods s)) ar pc' t n d).
Proof.
  intros [_ Hp] Hx Hc Ho Hi av ar t n d. split; [done|]. intros j. cbn. destruct (decide (j = i)) as [->|Hj].
  - rewrite list_lookup_insert_eq by (by eapply lookup_lt_Some). rewrite Hi. destruct y as [pc r].
    cbn. split; [intros ->; by exists r|intros [r' [= -> _]]; done].
  - rewrite list_lookup_insert_ne by done. rewrite Ho by done. apply Hp.
Qed.

Lemma pstep_inv i s s' : inv s -> pstep i s = Some s' -> inv s' /\ pot s' < pot s.
Proof.
  intros H E. unfold pstep in E. destruct (ended (main_pc s)) eqn:Hd; [done|].
  destruct (prods s !! i) as [[pc r]|] eqn:Ei; [|done].
  assert (Hok : prod_ok (pc, r)) by (by eapply (Forall_lookup_1 _ _ _ _ (i_prods _ H))).
  assert (Hlt := lookup_lt_Some _ _ _ Ei).
  destruct H as [Hu Ht Ha Hn Har Hp Hm Hs Hmain].
  assert (Hins : forall y, prod_ok y -> Forall prod_ok (<[i := y]> (prods s))) by (intros y Hy; by apply Forall_insert).
  destruct pc; cbn in Hok.
  - (* PLock *)
    destruct (Z.ltb_spec 0 r) as [Hr|Hr]; [|done]. destruct (mtx s) eqn:Em; [done|]. injection E as <-. split.
    + split; cbn; try done.
      * rewrite (zsum_insert pend _ _ _ _ Ei). cbn. lia.
      * apply Hins. cbn. lia.
      * eapply holds_insert; [exact Hm|exact Ei| | |done].
        -- split; [done|]. intros Hc. apply (proj1 Hm) in Hc. by rewrite Em in Hc.
        -- intros j Hj. rewrite Em. split; [|done]. intros [= ->]. done.
      * intros Hsl Hav. destruct (Hs Hsl Hav) as (j & r' & Hj). exists j, r'.
        rewrite list_lookup_insert_ne; [done|]. intros ->. congruence.
    + unfold pot. cbn. rewrite (zsum_insert ppot _ _ _ _ Ei), (zsum_insert pend _ _ _ _ Ei). cbn. lia.
  - (* PCrit *)
    injection E as <-. assert (Em : mtx s = Some (Producer i)) by (apply (proj2 Hm); by exists r). split.
    + split; cbn; try done; try lia.
      * rewrite (zsum_insert pend _ _ _ _ Ei). cbn. lia.
      * apply Hins. done.
      * eapply holds_insert; [exact Hm|exact Ei| | |done].
        -- split; [done|]. intros Hc. apply (proj1 Hm) in Hc. by rewrite Em in Hc.
        -- intros j Hj. rewrite Em. split; [done|]. intros [= ->]. done.
      * intros _ _. exists i, r. by apply list_lookup_insert_eq.
    + unfold pot. cbn. rewrite (zsum_insert ppot _ _ _ _ Ei), (zsum_insert pend _ _ _ _ Ei). cbn. lia.
  - (* PSignal *) set (pc' := wake (main_pc s)) in *.
    injection E as <-. split.
    + split; cbn; try done.
      * rewrite (zsum_insert pend _ _ _ _ Ei). cbn. lia.
      * apply Hins. cbn. lia.
      * eapply holds_insert; [exact Hm|exact Ei| |done|].
        -- rewrite (proj1 Hm). unfold pc', wake. by destruct (main_pc s).
        -- split; [|done]. intros Hi. apply (proj2 Hm) in Hi as [r' Hr']. congruence.
      * unfold pc', wake. by destruct (main_pc s).
      * unfold pc', wake. by destruct (main_pc s).
    + unfold pot. cbn. rewrite (zsum_insert ppot _ _ _ _ Ei), (zsum_insert pend _ _ _ _ Ei). cbn.
      assert (cpot pc' <= cpot (main_pc s) + 2) by (unfold pc', wake; destruct (main_pc s); cbn; lia). lia.
Qed.

(** A change of the main thread that leaves the producers alone. *)
Lemma holds_main s m' pc' :
  holds s -> (m' = Some Consumer <-> pc' = CTest) ->
  (forall i, m' = Some (Producer i) <-> mtx s = Some (Producer i)) ->
  forall av ar t n d, holds (mkP m' av (prods s) ar pc' t n d).
Proof. intros [_ Hp] Hc Ho av ar t n d. split; [done|]. intros i. cbn. by rewrite Ho. Qed.

Lemma cstep_inv s s' : 0 < T -> inv s -> cstep s = Some s' -> inv s' /\ pot s' < pot s.
Proof.
  intros HT H E. assert (Hpend := inv_pend s H). destruct H as [Hu Ht Ha Hn Har Hp Hm Hs Hmain].
  unfold cstep in E. destruct (main_pc s) eqn:Ep; try discriminate E.
  - (* CCreate *) assert (Hc : mtx s <> Some Consumer) by (intros Hc; by apply (proj1 Hm) in Hc; rewrite Ep in Hc).
    destruct (args s) as [|a rest] eqn:Ea.
    + injection E as <-. cbn in *. split.
      * split; cbn; try done; try lia. eapply holds_main; [exact Hm|done|done].
      * unfold pot. cbn. rewrite Ep, Ea. cbn. lia.
    + apply Forall_cons in Har as [Ha0 Har]. injection E as <-. rewrite zsum_cons in Hu, Ht.
      change (id a) with a in *. split.
      * split; cbn [prods avail args main_pc totRequired numConsumed mtx]; try done; try lia.
        -- rewrite zsum_app, zsum_cons, zsum_nil. cbn [pend]. lia.
        -- apply Forall_app_2; [done|]. by repeat constructor.
        -- split; [done|]. intros i. cbn. rewrite (proj2 Hm). split; intros [r Hr]; exists r.
           ++ by apply lookup_app_l_Some.
           ++ apply lookup_app_Some in Hr as [Hr|[_ Hr]]; [done|].
              apply list_lookup_singleton_Some in Hr as [_ Hr]. discriminate Hr.
      * unfold pot. rewrite Ea, Ep. cbn [prods avail args main_pc]. rewrite !zsum_app.
        rewrite !zsum_cons, !zsum_nil. cbn [pend ppot cpot]. change (id a) with a. lia.
  - (* CLock *) destruct (mtx s) eqn:Em; [done|]. injection E as <-. split.
    + split; cbn; try done. eapply holds_main; [exact Hm|done|]. intros i. by rewrite Em.
    + unfold pot. cbn. rewrite Ep. cbn. lia.
  - (* CTest *) assert (Em : mtx s = Some Consumer) by (by apply (proj1 Hm)).
    destruct (Z.eqb_spec (avail s) 0) as [Hz|Hz].
    + injection E as <-. split.
      * split; cbn; try done; try lia. eapply holds_main; [exact Hm|done|]. intros i. by rewrite Em.
      * unfold pot. cbn. rewrite Ep. cbn. lia.
    + rewrite consume_all in E by lia. injection E as <-. destruct Hmain as [Har0 Hlt]. rewrite Har0 in *.
      rewrite zsum_nil in Hu, Ht. split.
      * split; cbn; rewrite ?zsum_nil; try done; try lia.
        -- eapply holds_main; [exact Hm|by destruct (_ <=? _)|]. intros i. by rewrite Em.
        -- destruct (Z.leb_spec (totRequired s) (numConsumed s + avail s)); split; try done; lia.
      * unfold pot. cbn. rewrite Ep, Har0, !zsum_nil. cbn. destruct (_ <=? _); cbn; lia.
  - (* CWake *) destruct (mtx s) eqn:Em; [done|]. injection E as <-. split.
    + split; cbn; try done. eapply holds_main; [exact Hm|done|]. intros i. by rewrite Em.
    + unfold pot. cbn. rewrite Ep. cbn. lia.
Qed.

Lemma spurious_inv s s' : inv s -> spurious s = Some s' -> inv s'.
Proof.
  intros [Hu Ht Ha Hn Har Hp Hm Hs Hmain] E. unfold spurious in E. destruct (main_pc s) eqn:Ep; try discriminate E.
  injection E as <-. split; cbn; try done. eapply holds_main; [exact Hm| |done].
  rewrite (proj1 Hm), Ep. done.
Qed.

(** While main has not ended, some thread can go on. *)
Lemma progress s : inv s -> main_pc s <> CDone -> exists s', good_step s s'.
Proof.
  intros [Hu Ht Ha Hn Har Hp Hm Hs Hmain] Hd.
  assert (Hprod : forall i pc r, prods s !! i = Some (pc, r) -> (pc = PLock -> 0 < r /\ mtx s = None) ->
    exists s', good_step s s').
  { intros i pc r Hi Hl. assert (Hsome : is_Some (pstep i s)).
    { unfold pstep. replace (ended (main_pc s)) with false by (by destruct (main_pc s)). rewrite Hi.
      destruct pc; [|done|done]. destruct (Hl eq_refl) as [Hr ->]. by rewrite (proj2 (Z.ltb_lt _ _) Hr). }
    destruct Hsome as [s' E]. exists s'. by eapply step_producer. }
  assert (Hmain' : is_Some (cstep s) -> exists s', good_step s s') by (intros [s' E]; exists s'; by apply step_main).
  destruct (mtx s) as [[|i]|] eqn:Em.
  - (* main holds the mutex *) apply (proj1 Hm) in Em. apply Hmain'. unfold cstep. rewrite Em.
    destruct (avail s =? 0); [done|]. by destruct (consume _ _ _) as [[? ?] ?].
  - (* a producer does *) apply (proj2 Hm) in Em as [r Hi]. by eapply Hprod.
  - destruct (main_pc s) eqn:Ep; [| | | | |done].
    + apply Hmain'. unfold cstep. rewrite Ep. by destruct (args s).
    + apply Hmain'. unfold cstep. by rewrite Ep, Em.
    + destruct Hm as [Hm _]. rewrite Em in Hm. by destruct Hm as [_ Hm]; specialize (Hm Ep).
    + (* asleep: a signal is under way, or a producer has work *)
      destruct (decide (0 < avail s)) as [Hav|Hav].
      { destruct (Hs eq_refl Hav) as (i & r & Hi). by eapply Hprod. }
      destruct Hmain as [Har0 Hlt]. rewrite Har0, zsum_nil in Hu.
      assert (Hex : exists i x, prods s !! i = Some x /\ 0 < pend x).
      { assert (Hpos : 0 < zsum pend (prods s)) by lia. clear -Hpos.
        induction (prods s) as [|x l IH]; [rewrite zsum_nil in Hpos; lia|]. rewrite zsum_cons in Hpos.
        destruct (decide (0 < pend x)) as [Hx|Hx]; [by exists 0%nat, x|].
        destruct IH as (i & y & Hi & Hy); [lia|].
        by exists (S i), y. }
      destruct Hex as (i & [pc r] & Hi & Hpos). eapply Hprod; [exact Hi|]. intros ->. done.
    + apply Hmain'. unfold cstep. by rewrite Ep, Em.
Qed.

End Inv.

(** ** Nothing produced is lost, and the consumer ends *)

#[local] Arguments zsum : simpl never.

(** What the producers started with some arguments will produce together. *)
Definition units (argv : list bytes) : Z := zsum atoi argv.

Lemma condvar_start_inv argv :
  Forall (fun a => 0 <= atoi a) argv ->
  inv (units argv) (start argv) /\ pot (start argv) = 10 * units argv + Z.of_nat (length argv) + 3.
Proof.
  intros Ha. assert (Hsum : zsum id (map atoi argv) = units argv /\
    zsum (fun a => 8 * a + 1) (map atoi argv) = 8 * units argv + Z.of_nat (length argv)).
  { unfold units. clear Ha. induction argv as [|a argv [IH1 IH2]]; [done|]. cbn [map length].
    rewrite !zsum_cons, IH1, IH2. change (id (atoi a)) with (atoi a). lia. }
  destruct Hsum as [E1 E2]. split.
  - split; cbn; rewrite ?E1; try done; try lia; [by apply Forall_map|].
    split; [done|]. intros i. cbn. rewrite lookup_nil. by split; [|intros [? ?]].
  - unfold pot. cbn. rewrite E1, E2, !zsum_nil. lia.
Qed.

Lemma any_steps_inv T s s' : 0 < T -> rtc any_step s s' -> inv T s -> inv T s'.
Proof.
  intros HT. induction 1 as [|s1 s2 s3 [[i E|E]|E] _ IH]; [done| | |]; intros Hi; apply IH.
  - by eapply pstep_inv.
  - by eapply cstep_inv.
  - by eapply spurious_inv.
Qed.

Lemma good_steps_pot T n s s' :
  0 < T -> nsteps good_step n s s' -> inv T s -> inv T s' /\ Z.of_nat n + pot s' <= pot s.
Proof.
  intros HT. induction 1 as [s|n s1 s2 s3 Hs Hn IH]; intros Hi; [split; [done|lia]|].
  assert (H2 : inv T s2 /\ pot s2 < pot s1).
  { destruct Hs as [i E|E]; [by eapply pstep_inv|by eapply cstep_inv]. }
  destruct H2 as [H2 Hp]. destruct (IH H2) as [? ?]. split; [done|lia].
Qed.

Lemma made_exists s0 s : rtc any_step s0 s -> exists m, made s0 m s.
Proof.
  revert s. apply rtc_ind_r; [exists 0; apply made_start|]. intros s1 s2 _ H2 [m IH].
  destruct H2 as [[i E|E]|E]; [exists (m + makes i s1); by apply made_producer|exists m; by apply (made_main _ _ s1)
    |exists m; by apply (made_spurious _ _ s1)].
Qed.

Lemma made_steps s0 m s : made s0 m s -> rtc any_step s0 s.
Proof.
  induction 1 as [|m i s s' _ IH E|m s s' _ IH E|m s s' _ IH E]; [done|..]; (eapply rtc_r; [exact IH|]).
  - apply any_good. by eapply step_producer.
  - apply any_good. by apply step_main.
  - by apply any_spurious.
Qed.

(** Every unit made is consumed or still there. *)
Lemma made_conserved T s0 m s :
  0 < T -> inv T s0 -> avail s0 + numConsumed s0 = 0 -> made s0 m s -> avail s + numConsumed s = m.
Proof.
  intros HT Hi H0 Hm. induction Hm as [|m i s s' Hs IH E|m s s' Hs IH E|m s s' Hs IH E]; [done|..];
    assert (Hinv := any_steps_inv T _ _ HT (made_steps _ _ _ Hs) Hi).
  - unfold pstep in E. unfold makes. destruct (ended (main_pc s)); [done|]. destruct (prods s !! i) as [[[] r]|]; [|..|done].
    + destruct (0 <? r); [|done]. destruct (mtx s); [done|]. injection E as <-. cbn. lia.
    + injection E as <-. cbn. lia.
    + injection E as <-. cbn. lia.
  - destruct Hinv as [Hu Ht Ha Hn Har Hp Hmx Hsl Hmain]. unfold cstep in E. destruct (main_pc s) eqn:Ep; try discriminate E.
    + destruct (args s); injection E as <-; cbn; lia.
    + destruct (mtx s); [done|]. injection E as <-. cbn. lia.
    + destruct (Z.eqb_spec (avail s) 0); [injection E as <-; cbn; lia|]. rewrite consume_all in E by lia. injection E as <-. cbn. lia.
    + destruct (mtx s); [done|]. injection E as <-. cbn. lia.
  - unfold spurious in E. destruct (main_pc s); try discriminate E. injection E as <-. cbn. lia.
Qed.

(** C34: No unit is lost and no wake-up is missed: for producers whose counts (what
    atoi makes of the arguments) are not negative and positive together (less than
    2^31), in every interleaving, with waits that end without a signal too, the units
    made so far (the times a producer has incremented the counter) are exactly those
    consumed and those available, and at most what was asked for, so that no counter
    overflows; main is with the counter only
    when no producer is, and two producers never are at once; main exits only when
    it has consumed everything that was asked for.  Apart from wake-ups without a
    signal a run has at most ten steps for each unit, one for each thread and three
    more, and a state in which no thread can go on is the end: main never sleeps
    through the last signal. *)
Theorem condvar_consumes_all argv :
  Forall (fun a => 0 <= atoi a) argv -> 0 < units argv < 2 ^ 31 ->
  (forall s, rtc any_step (start argv) s ->
     (exists m, made (start argv) m s) /\
     (forall m, made (start argv) m s -> m = numConsumed s + avail s /\ m <= units argv) /\
     0 <= avail s /\ 0 <= numConsumed s /\
     (forall i j r r', prods s !! i = Some (PCrit, r) ->
        main_pc s <> CTest /\ (prods s !! j = Some (PCrit, r') -> i = j)) /\
     (main_pc s = CDone -> numConsumed s = units argv)) /\
  (forall n s, nsteps good_step n (start argv) s ->
     Z.of_nat n <= 10 * units argv + Z.of_nat (length argv) + 3 /\
     ((forall s', ~ good_step s s') -> main_pc s = CDone /\ numConsumed s = units argv)).
Proof.
  intros Ha HT. destruct (condvar_start_inv argv Ha) as [Hi Hp]. split.
  - intros s Hs. assert (H := any_steps_inv _ _ _ (proj1 HT) Hs Hi). assert (Hpend := inv_pend _ _ H).
    assert (Har : 0 <= zsum id (args s)) by (apply zsum_Forall; exact (i_args _ _ H)).
    split_and!; [by apply made_exists| |exact (i_avail _ _ H)|exact (i_num _ _ H)| |].
    + intros m Hm. assert (Hc := made_conserved _ _ _ _ (proj1 HT) Hi eq_refl Hm). assert (Hu := i_units _ _ H). lia.
    + intros i j r r' Hcr. destruct (i_mutex _ _ H) as [Hc Hpr].
      assert (Em : mtx s = Some (Producer i)) by (apply Hpr; by exists r). split.
      * intros Ht. apply Hc in Ht. congruence.
      * intros Hj. assert (Ej : mtx s = Some (Producer j)) by (apply Hpr; by exists r'). congruence.
    + intros Hd. assert (Hm := i_main _ _ H). rewrite Hd in Hm. by destruct Hm.
  - intros n s Hn. destruct (good_steps_pot _ _ _ _ (proj1 HT) Hn Hi) as [H Hle].
    assert (Hnn := pot_nonneg _ _ H). split; [lia|]. intros Hno.
    assert (Hd : main_pc s = CDone).
    { destruct (main_pc s) eqn:E; try done; exfalso;
        (destruct (progress _ _ H) as [s' Hs']; [congruence|by apply (Hno s')]). }
    split; [done|]. assert (Hm := i_main _ _ H). rewrite Hd in Hm. by destruct Hm.
Qed.

Lemma condvar_consumes_all_witness :
  units [str "2"; str "1"] = 3 /\
  (forall s, rtc any_step (start [str "2"; str "1"]) s -> forall m, made (start [str "2"; str "1"]) m s -> m = numConsumed s + avail s) /\
  forall n s, nsteps good_step n (start [str "2"; str "1"]) s ->
    Z.of_nat n <= 35 /\ ((forall s', ~ good_step s s') -> main_pc s = CDone /\ numConsumed s = 3).
Proof.
  destruct (condvar_consumes_all [str "2"; str "1"]) as [H1 H2];
    [repeat constructor; vm_compute; discriminate|split; reflexivity|].
  split; [reflexivity|]. split; [|exact H2]. intros s Hs m Hm. destruct (H1 s Hs) as (_ & Hc & _). by destruct (Hc m Hm).
Defined.

(** With nothing to produce main waits for a signal that nobody will send. *)
Example condvar_nothing_hangs :
  exists s, rtc good_step (start []) s /\ main_pc s = CSleep /\ forall s', ~ good_step s s'.
Proof.
  eexists. split; [|split].
  - eapply rtc_l; [by apply step_main|]. eapply rtc_l; [by apply step_main|].
    eapply rtc_l; [by apply step_main|]. apply rtc_refl.
  - done.
  - intros s' [i E|E]; [|done]. unfold pstep in E. cbn in E. discriminate E.
Qed.
