(* ===== verification/SvMsg.v ===== *)
(** * SvMsg: a file server over message queues.

    tlpi-dist/svmsg/svmsg_file_server.c and svmsg_file_client.c.  Any number of
    clients; the server forks a child for every request.  A step is one system call
    of one process, and the processes interleave at every step.  A client sends one
    request, so a request on the server's queue is given by the client it comes from,
    and a child is kept with the client it serves.  A call waits while a queue is full
    or empty.  The server's own calls do not fail. *)
From S2P Require Import Prelude Libc.
From stdpp Require Import relations.
Local Open Scope Z_scope.

Definition PATH_MAX : Z := 4096.
Definition RESP_MSG_SIZE : nat := Z.to_nat 8192.
Definition RESP_MT_FAILURE : Z := 1.
Definition RESP_MT_DATA : Z := 2.
Definition RESP_MT_END : Z := 3.

(** [struct responseMsg], with the bytes that are sent. *)
Record responseMsg := mkResp { mtype : Z; data : bytes }.

(** Where a child is in [serveRequest]: before open; before sending the failure; before
    a read, with what is left of the file; before sending what was read; before
    sending the end. *)
Inductive child_pc := SOpen | SFail | SRead (rest : bytes) | SSend (chunk rest : bytes) | SEnd.

(** The request of a client: not sent, on the server's queue, in the hands of a child,
    or served. *)
Inductive stage_t := NotSent | Queued | Child (pc : child_pc) | Served.

(** Where a client is: before its request; before the first response; in the loop, with
    totBytes, numMsgs and the type of the last message; after its end, with what it
    has printed. *)
Inductive client_pc :=
| KSend | KFirst | KLoop (totBytes numMsgs mt : Z)
| KDone (totBytes numMsgs : Z) | KFailed (text : bytes) | KTooLong.

(** A client, the state of its request, and its queue, [None] once it is removed. *)
Record session := mkS {
  path : bytes; stage : stage_t; queue : option (list responseMsg); kpc : client_pc }.

(** The server's queue, first to last, and the clients. *)
Record st := mkSt { sq : list nat; sess : list session }.

Section Steps.
Context (fs : bytes -> option bytes).   (* what open and read find under a name *)
Context (cap : nat).                    (* how many messages fit a queue *)

(** [msgsnd] to a client: [None] to wait; else whether it succeeded. *)
Definition msgsnd (m : responseMsg) (q : option (list responseMsg)) : option (bool * option (list responseMsg)) :=
  match q with
  | None => Some (false, None)
  | Some l => if (length l <? cap)%nat then Some (true, Some (l ++ [m])) else None
  end.

Definition failure : responseMsg := mkResp RESP_MT_FAILURE (str "Couldn't open" ++ [0]).

(** A step of a child; [ok] says whether a read succeeds. *)
Definition serveRequest (ok : bool) (x : session) : option session :=
  let goto pc := Some (mkS (path x) (Child pc) (queue x) (kpc x)) in
  match stage x with
  | Child SOpen => match fs (path x) with None => goto SFail | Some c => goto (SRead c) end
  | Child SFail =>
      match msgsnd failure (queue x) with
      | Some (_, q) => Some (mkS (path x) Served q (kpc x))
      | None => None
      end
  | Child (SRead rest) =>
      let chunk := take RESP_MSG_SIZE rest in
      if negb ok then goto SEnd
      else if (0 <? length chunk)%nat then goto (SSend chunk (drop RESP_MSG_SIZE rest)) else goto SEnd
  | Child (SSend chunk rest) =>
      match msgsnd (mkResp RESP_MT_DATA chunk) (queue x) with
      | Some (r, q) => Some (mkS (path x) (Child (if r then SRead rest else SEnd)) q (kpc x))
      | None => None
      end
  | Child SEnd =>
      match msgsnd (mkResp RESP_MT_END []) (queue x) with
      | Some (_, q) => Some (mkS (path x) Served q (kpc x))
      | None => None
      end
  | _ => None
  end.

(** [msgrcv] of a client and what it does with the message. *)
Definition receive (x : session) (k : responseMsg -> client_pc) : option session :=
  match queue x with
  | Some (m :: q) =>
      let pc := k m in
      Some (mkS (path x) (stage x) (match pc with KFailed _ => None | _ => Some q end) pc)
  | _ => None
  end.

(** A step of client [i] but for the sending of its request. *)
Definition client_own (x : session) : option session :=
  match kpc x with
  | KFirst => receive x (fun m =>
      if mtype m =? RESP_MT_FAILURE then KFailed (cstring (data m))
      else KLoop (Z.of_nat (length (data m))) 1 (mtype m))
  | KLoop tot num mt =>
      if mt =? RESP_MT_DATA
      then receive x (fun m => KLoop (tot + Z.of_nat (length (data m))) (num + 1) (mtype m))
      else Some (mkS (path x) (stage x) None (KDone tot num))
  | _ => None
  end.

Definition client_step (i : nat) (s : st) : option st :=
  x ← sess s !! i;
  match kpc x with
  | KSend =>
      if PATH_MAX - 1 <? Z.of_nat (length (path x)) then
        Some (mkSt (sq s) (<[i := mkS (path x) (stage x) None KTooLong]> (sess s)))
      else if (length (sq s) <? cap)%nat then
        Some (mkSt (sq s ++ [i]) (<[i := mkS (path x) Queued (queue x) KFirst]> (sess s)))
      else None
  | _ => x' ← client_own x; Some (mkSt (sq s) (<[i := x']> (sess s)))
  end.

(** A turn of the server's loop: receive and fork. *)
Definition server_step (s : st) : option st :=
  match sq s with
  | [] => None
  | i :: rest => Some (mkSt rest (alter (fun x => mkS (path x) (Child SOpen) (queue x) (kpc x)) i (sess s)))
  end.

Definition child_step (ok : bool) (i : nat) (s : st) : option st :=
  x ← sess s !! i; x' ← serveRequest ok x; Some (mkSt (sq s) (<[i := x']> (sess s))).

(** Steps in which no read fails. *)
Inductive mstep (s s' : st) : Prop :=
| m_client i : client_step i s = Some s' -> mstep s s'
| m_server : server_step s = Some s' -> mstep s s'
| m_child i : child_step true i s = Some s' -> mstep s s'.

End Steps.

(** Clients started for some files. *)
Definition start_clients (paths : list bytes) : st := mkSt [] (map (fun p => mkS p NotSent (Some []) KSend) paths).

(** ** What is to arrive *)

Fixpoint chunks (fuel : nat) (c : bytes) : list bytes :=
  match fuel, c with
  | O, _ | _, [] => []
  | S f, _ => take RESP_MSG_SIZE c :: chunks f (drop RESP_MSG_SIZE c)
  end.
Definition blocks (c : bytes) : list bytes := chunks (length c) c.
Definition contents (c : bytes) : list responseMsg :=
  map (mkResp RESP_MT_DATA) (blocks c) ++ [mkResp RESP_MT_END []].

Definition response (fs : bytes -> option bytes) (p : bytes) : list responseMsg :=
  match fs p with None => [failure] | Some c => contents c end.

Lemma msg_size_pos : (0 < RESP_MSG_SIZE)%nat.
Proof. unfold RESP_MSG_SIZE. lia. Qed.
#[global] Opaque RESP_MSG_SIZE.

Lemma chunks_fuel f g c : (length c <= f)%nat -> (length c <= g)%nat -> chunks f c = chunks g c.
Proof.
  revert g c. induction f as [|f IH]; intros [|g] [|x c] Hf Hg; cbn [length] in *; try done; try lia.
  cbn [chunks]. f_equal. apply IH; rewrite length_drop; cbn [length]; pose proof msg_size_pos; lia.
Qed.

Lemma blocks_cons c : c <> [] -> blocks c = take RESP_MSG_SIZE c :: blocks (drop RESP_MSG_SIZE c).
Proof.
  intros Hc. unfold blocks. destruct c as [|x c]; [done|]. cbn [length chunks]. f_equal.
  apply chunks_fuel; rewrite length_drop; cbn [length]; pose proof msg_size_pos; lia.
Qed.

Lemma blocks_bytes c : concat (blocks c) = c.
Proof.
  remember (length c) as n eqn:Hn. revert c Hn. induction (lt_wf n) as [n _ IH]. intros c ->.
  destruct (decide (c = [])) as [->|Hc]; [done|]. rewrite blocks_cons by done. cbn [concat].
  rewrite (IH (length (drop RESP_MSG_SIZE c))); [apply take_drop| |done].
  rewrite length_drop. destruct c; [done|]. cbn [length]. pose proof msg_size_pos. lia.
Qed.

(** What a child has still to send. *)
Definition todo (fs : bytes -> option bytes) (p : bytes) (pc : child_pc) : list responseMsg :=
  match pc with
  | SOpen => response fs p
  | SFail => [failure]
  | SRead rest => contents rest
  | SSend chunk rest => mkResp RESP_MT_DATA chunk :: contents rest
  | SEnd => [mkResp RESP_MT_END []]
  end.
Definition left_over (fs : bytes -> option bytes) (p : bytes) (sg : stage_t) : list responseMsg :=
  match sg with NotSent | Queued => response fs p | Child pc => todo fs p pc | Served => [] end.

Definition bytes_in (l : list responseMsg) : Z := zsum (fun m => Z.of_nat (length (data m))) l.

(** ** Every client gets its own file *)

Section Inv.
Context (fs : bytes -> option bytes) (cap : nat).

(** ** Responses *)

Lemma left_over_nil p sg : left_over fs p sg = [] -> sg = Served.
Proof.
  assert (Hc : forall c, contents c <> []) by (intros c; unfold contents; by destruct (blocks c)).
  destruct sg as [| |[| |r|ch r|]|]; cbn; unfold response; try destruct (fs p); intros E; try done; by apply Hc in E.
Qed.

(** A message that is not data ends the contents of a file. *)
Lemma end_is_last c l1 m l2 : contents c = l1 ++ m :: l2 -> mtype m <> RESP_MT_DATA -> l2 = [].
Proof.
  unfold contents. generalize (blocks c) as bs. intros bs. revert l1. induction bs as [|b bs IH]; intros l1 E Hm.
  - destruct l1 as [|y l1]; [by injection E as _ <-|]. injection E as _ E. by destruct l1.
  - destruct l1 as [|y l1]; cbn in E.
    + by injection E as <- _.
    + injection E as _ E. by eapply IH.
Qed.

Lemma bytes_in_app a b : bytes_in (a ++ b) = bytes_in a + bytes_in b.
Proof. apply zsum_app. Qed.

Lemma contents_size c :
  bytes_in (contents c) = Z.of_nat (length c) /\ length (contents c) = S (length (blocks c)).
Proof.
  unfold contents. rewrite bytes_in_app, length_app, length_map. cbn. split; [|lia].
  rewrite <- (blocks_bytes c) at 2. unfold bytes_in. induction (blocks c) as [|b bs IH]; [done|].
  cbn [map concat zsum data]. rewrite length_app. lia.
Qed.

(** ** The invariant of a client *)

Definition client_ok (x : session) : Prop :=
  match kpc x with
  | KSend => stage x = NotSent /\ queue x = Some []
  | KTooLong => stage x = NotSent
  | KFirst => stage x <> NotSent /\ exists q, queue x = Some q /\ q ++ left_over fs (path x) (stage x) = response fs (path x)
  | KLoop tot num mt => stage x <> NotSent /\ exists q got m, queue x = Some q /\
      got ++ m :: q ++ left_over fs (path x) (stage x) = response fs (path x) /\
      tot = bytes_in (got ++ [m]) /\ num = Z.of_nat (length (got ++ [m])) /\ mt = mtype m /\ mt <> RESP_MT_FAILURE
  | KDone tot num => stage x = Served /\ exists c, fs (path x) = Some c /\
      tot = Z.of_nat (length c) /\ num = Z.of_nat (length (blocks c)) + 1
  | KFailed t => stage x = Served /\ fs (path x) = None /\ t = str "Couldn't open"
  end.

Definition sent_to (m : responseMsg) (x : session) (sg : stage_t) : Prop :=
  left_over fs (path x) (stage x) = m :: left_over fs (path x) sg.

(** Putting the next message into the queue keeps a client's invariant. *)
Lemma client_ok_send x m q sg r :
  client_ok x -> msgsnd cap m (queue x) = Some (r, q) -> sent_to m x sg -> stage x <> NotSent -> sg <> NotSent ->
  r = true /\ client_ok (mkS (path x) sg q (kpc x)).
Proof.
  unfold client_ok, sent_to, msgsnd. intros H E Hl H1 H2. cbn [stage queue kpc path].
  destruct (kpc x).
  - by destruct H.
  - destruct H as (_ & l & Hq & Hr). rewrite Hq in E. destruct (length l <? cap)%nat; [|done]. injection E as <- <-.
    split; [done|]. split; [done|]. exists (l ++ [m]). split; [done|]. rewrite <- Hr, Hl, <- app_assoc. done.
  - destruct H as (_ & l & got & m0 & Hq & Hr & Ht). rewrite Hq in E. destruct (length l <? cap)%nat; [|done].
    injection E as <- <-. split; [done|]. split; [done|]. exists (l ++ [m]), got, m0. split; [done|].
    rewrite <- Hr, Hl, <- app_assoc. done.
  - destruct H as [H _]. rewrite H in Hl. done.
  - destruct H as [H _]. rewrite H in Hl. done.
  - done.
Qed.

(** A step of the child that sends nothing. *)
Lemma client_ok_quiet x sg :
  client_ok x -> left_over fs (path x) (stage x) = left_over fs (path x) sg ->
  stage x <> NotSent -> sg <> NotSent -> stage x <> Served -> client_ok (mkS (path x) sg (queue x) (kpc x)).
Proof.
  unfold client_ok. intros H Hl H1 H2 H3. cbn [stage queue kpc path]. rewrite <- Hl.
  destruct (kpc x); naive_solver.
Qed.

Lemma child_ok x x' :
  client_ok x -> serveRequest fs cap true x = Some x' ->
  client_ok x' /\ path x' = path x /\ stage x' <> Queued /\ (exists pc, stage x = Child pc) /\ kpc x' = kpc x.
Proof.
  intros H E. unfold serveRequest in E. destruct (stage x) as [| |pc|] eqn:Es; try discriminate E.
  destruct pc as [| |rest|chunk rest|].
  - assert (Hq : client_ok (mkS (path x) (Child (match fs (path x) with None => SFail | Some c => SRead c end)) (queue x) (kpc x))).
    { apply client_ok_quiet; rewrite ?Es; try done. cbn. unfold response. by destruct (fs (path x)). }
    destruct (fs (path x)); injection E as <-; by eauto 10.
  - destruct (msgsnd cap failure (queue x)) as [[r q]|] eqn:Em; [|done]. injection E as <-.
    eapply (client_ok_send x _ _ Served) in Em as [_ Hq]; rewrite ?Es; try done; [by eauto 10|].
    unfold sent_to. by rewrite Es.
  - assert (Hq : client_ok (mkS (path x) (Child (if (0 <? length (take RESP_MSG_SIZE rest))%nat
        then SSend (take RESP_MSG_SIZE rest) (drop RESP_MSG_SIZE rest) else SEnd)) (queue x) (kpc x))).
    { apply client_ok_quiet; rewrite ?Es; try done. cbn [left_over todo]. rewrite length_take.
      destruct (Nat.ltb_spec 0 (Nat.min RESP_MSG_SIZE (length rest))) as [Hlt|Hge]; cbn [todo].
      - unfold contents. rewrite blocks_cons; [done|]. intros ->. cbn in Hlt. lia.
      - pose proof msg_size_pos. destruct rest; [done|]. cbn [length] in Hge. lia. }
    cbn [negb] in E. destruct (0 <? length (take RESP_MSG_SIZE rest))%nat; injection E as <-; by eauto 10.
  - destruct (msgsnd cap (mkResp RESP_MT_DATA chunk) (queue x)) as [[r q]|] eqn:Em; [|done]. injection E as <-.
    eapply (client_ok_send x _ _ (Child (SRead rest))) in Em as [-> Hq]; rewrite ?Es; try done; [by eauto 10|].
    unfold sent_to. by rewrite Es.
  - destruct (msgsnd cap (mkResp RESP_MT_END []) (queue x)) as [[r q]|] eqn:Em; [|done]. injection E as <-.
    eapply (client_ok_send x _ _ Served) in Em as [_ Hq]; rewrite ?Es; try done; [by eauto 10|].
    unfold sent_to. by rewrite Es.
Qed.

Lemma client_own_ok x x' :
  client_ok x -> client_own x = Some x' ->
  client_ok x' /\ path x' = path x /\ stage x' = stage x.
Proof.
  unfold client_ok at 1, client_own, receive. intros H E. destruct (kpc x) as [| |tot num mt| | |] eqn:Ek; try discriminate E.
  - destruct H as (Hs & q & Hq & Hr). rewrite Hq in E. destruct q as [|m q]; [done|]. injection E as <-.
    split; [|done]. unfold client_ok. cbn [kpc path stage queue]. cbn [app] in Hr.
    destruct (Z.eqb_spec (mtype m) RESP_MT_FAILURE) as [Hm|Hm]; cbn [kpc].
    + unfold response in Hr. destruct (fs (path x)) as [c|] eqn:Ef.
      * exfalso. assert (He : q ++ left_over fs (path x) (stage x) = []).
        { eapply (end_is_last c [] m); [done|]. rewrite Hm. done. }
        rewrite He in Hr. unfold contents in Hr. destruct (blocks c) as [|b bs]; cbn in Hr; [|by destruct bs].
        injection Hr as ->. discriminate Hm.
      * injection Hr as -> He. apply app_eq_nil in He as [_ He]. apply left_over_nil in He. split_and!; [done|done|].
        cbn [data]. apply cstring_nonzero. vm_compute. repeat constructor; discriminate.
    + split; [done|]. exists q, [], m. split_and!; try done. unfold bytes_in. cbn. lia.
  - destruct H as (Hs & q & got & m & Hq & Hr & -> & -> & -> & Hf). destruct (Z.eqb_spec (mtype m) RESP_MT_DATA) as [Hm|Hm].
    + rewrite Hq in E. destruct q as [|m' q]; [done|]. injection E as <-. split; [|done]. unfold client_ok.
      cbn [kpc path stage queue]. split; [done|]. exists q, (got ++ [m]), m'. split_and!; try done.
      * rewrite <- Hr, <- app_assoc. done.
      * rewrite (bytes_in_app (got ++ [m])). unfold bytes_in at 3. cbn. lia.
      * rewrite (length_app (got ++ [m])). cbn [length]. lia.
      * intros Hm'. unfold response in Hr. destruct (fs (path x)) as [c|].
        -- assert (Hr' : contents c = (got ++ [m]) ++ m' :: q ++ left_over fs (path x) (stage x))
             by (rewrite <- Hr, <- app_assoc; done).
           rewrite (end_is_last _ _ _ _ Hr') in Hr' by (by rewrite Hm').
           apply app_inj_tail in Hr' as [_ <-]. discriminate Hm'.
        -- destruct got as [|y got]; [|by destruct got]. by injection Hr.
    + injection E as <-. unfold response in Hr. destruct (fs (path x)) as [c|] eqn:Ef.
      * assert (He : q ++ left_over fs (path x) (stage x) = []) by (by eapply end_is_last).
        rewrite He in Hr. apply app_eq_nil in He as [_ He]. apply left_over_nil in He. split; [|done].
        unfold client_ok. cbn [kpc path stage]. split; [done|]. exists c. destruct (contents_size c) as [H1 H2].
        rewrite Hr. split; [done|]. split; [done|]. rewrite H2. lia.
      * destruct got as [|y got]; [injection Hr as -> _; done|by destruct got].
Qed.

(** ** The invariant of the system *)

Record sys_ok (paths : list bytes) (s : st) : Prop := {
  so_paths : map path (sess s) = paths;
  so_nodup : NoDup (sq s);
  so_queued : forall i, i ∈ sq s <-> exists x, sess s !! i = Some x /\ stage x = Queued;
  so_clients : forall i x, sess s !! i = Some x -> client_ok x;
}.

Lemma map_insert_path l i x y :
  l !! i = Some x -> path y = path x -> map path (<[i := y]> l) = map path l.
Proof.
  intros H E. change (path <$> <[i := y]> l = path <$> l). rewrite list_fmap_insert, E.
  apply list_insert_id. by rewrite list_lookup_fmap, H.
Qed.

(** A change of one session that leaves the server's queue alone. *)
Lemma sys_ok_insert paths s i x y :
  sys_ok paths s -> sess s !! i = Some x -> client_ok y -> path y = path x ->
  (stage y = Queued <-> stage x = Queued) -> sys_ok paths (mkSt (sq s) (<[i := y]> (sess s))).
Proof.
  intros [H1 H2 H3 H4] Hx Hy Hp Hs. assert (Hlt := lookup_lt_Some _ _ _ Hx). split; cbn.
  - by rewrite (map_insert_path _ _ x).
  - done.
  - intros j. rewrite H3. destruct (decide (j = i)) as [->|Hj].
    + rewrite list_lookup_insert_eq, Hx by done. naive_solver.
    + by rewrite list_lookup_insert_ne by done.
  - intros j z Hz. destruct (decide (j = i)) as [->|Hj].
    + rewrite list_lookup_insert_eq in Hz by done. by injection Hz as <-.
    + rewrite list_lookup_insert_ne in Hz by done. by eapply H4.
Qed.

Lemma client_step_ok paths i s s' : sys_ok paths s -> client_step cap i s = Some s' -> sys_ok paths s'.
Proof.
  intros H E. unfold client_step in E. destruct (sess s !! i) as [x|] eqn:Hx; [|done]. cbn [mbind option_bind] in E.
  assert (Hc := so_clients _ _ H i x Hx). assert (Hlt := lookup_lt_Some _ _ _ Hx).
  assert (Hown : (y ← client_own x; Some (mkSt (sq s) (<[i := y]> (sess s)))) = Some s' -> sys_ok paths s').
  { intros E'. destruct (client_own x) as [y|] eqn:Ey; [|done]. injection E' as <-.
    destruct (client_own_ok _ _ Hc Ey) as (H1 & H2 & H3). by eapply sys_ok_insert; [done|done|done|done|rewrite H3]. }
  destruct (kpc x) eqn:Ek; try (by apply Hown). clear Hown.
  unfold client_ok in Hc. rewrite Ek in Hc. destruct Hc as [Hs Hq].
  destruct (PATH_MAX - 1 <? Z.of_nat (length (path x))).
  { injection E as <-. eapply sys_ok_insert; [done|done|done|done|done]. }
  destruct (length (sq s) <? cap)%nat; [|done]. injection E as <-.
  assert (Hni : i ∉ sq s).
  { intros Hi. apply (so_queued _ _ H) in Hi as (z & Hz & Hsz). rewrite Hx in Hz. injection Hz as <-. congruence. }
  destruct H as [H1 H2 H3 H4]. split; cbn.
  - by rewrite (map_insert_path _ _ x).
  - apply NoDup_app. split_and!; [done| |apply NoDup_singleton]. intros j Hj ->%list_elem_of_singleton. done.
  - intros j. rewrite elem_of_app, list_elem_of_singleton, H3. destruct (decide (j = i)) as [->|Hj].
    + rewrite list_lookup_insert_eq by done. naive_solver.
    + rewrite list_lookup_insert_ne by done. naive_solver.
  - intros j z Hz. destruct (decide (j = i)) as [->|Hj].
    + rewrite list_lookup_insert_eq in Hz by done. injection Hz as <-. unfold client_ok. cbn. split; [done|].
      by exists [].
    + rewrite list_lookup_insert_ne in Hz by done. by eapply H4.
Qed.

Lemma child_step_ok paths i s s' : sys_ok paths s -> child_step fs cap true i s = Some s' -> sys_ok paths s'.
Proof.
  intros H E. unfold child_step in E. destruct (sess s !! i) as [x|] eqn:Hx; [|done]. cbn [mbind option_bind] in E.
  destruct (serveRequest fs cap true x) as [y|] eqn:Ey; [|done]. injection E as <-.
  destruct (child_ok _ _ (so_clients _ _ H i x Hx) Ey) as (H1 & H2 & H3 & [pc H4] & _).
  eapply sys_ok_insert; [done|done|done|done|]. rewrite H4. split; [done|]. intros [=].
Qed.

(** The session that the server takes from its queue. *)
Lemma server_step_spec paths s s' :
  sys_ok paths s -> server_step s = Some s' ->
  exists i rest x, sq s = i :: rest /\ sess s !! i = Some x /\ stage x = Queued /\
    s' = mkSt rest (<[i := mkS (path x) (Child SOpen) (queue x) (kpc x)]> (sess s)).
Proof.
  intros H E. unfold server_step in E. destruct (sq s) as [|i rest] eqn:Eq; [done|].
  assert (Hi : i ∈ sq s) by (rewrite Eq; apply list_elem_of_here).
  apply (so_queued _ _ H) in Hi as (x & Hx & Hs). exists i, rest, x. split_and!; try done.
  injection E as <-. f_equal. rewrite list_insert_alter. apply list_alter_ext; [|done].
  intros y Hy. rewrite Hx in Hy. by injection Hy as <-.
Qed.

Lemma server_step_ok paths s s' : sys_ok paths s -> server_step s = Some s' -> sys_ok paths s'.
Proof.
  intros H E. destruct (server_step_spec _ _ _ H E) as (i & rest & x & Hsq & Hx & Hs & ->).
  assert (Hlt := lookup_lt_Some _ _ _ Hx). assert (Hc := so_clients _ _ H i x Hx).
  destruct H as [H1 H2 H3 H4]. rewrite Hsq in H2, H3. apply NoDup_cons in H2 as [Hni H2]. split; cbn.
  - by rewrite (map_insert_path _ _ x).
  - done.
  - intros j. specialize (H3 j). rewrite elem_of_cons in H3. destruct (decide (j = i)) as [->|Hj].
    + rewrite list_lookup_insert_eq by done. split; [done|]. intros (z & [= <-] & Hz). discriminate Hz.
    + rewrite list_lookup_insert_ne by done. rewrite <- H3. naive_solver.
  - intros j z Hz. destruct (decide (j = i)) as [->|Hj].
    + rewrite list_lookup_insert_eq in Hz by done. injection Hz as <-. apply client_ok_quiet; rewrite ?Hs; done.
    + rewrite list_lookup_insert_ne in Hz by done. by eapply H4.
Qed.

Lemma mstep_ok paths s s' : sys_ok paths s -> mstep fs cap s s' -> sys_ok paths s'.
Proof.
  intros H [i E|E|i E]; [by eapply client_step_ok|by eapply server_step_ok|by eapply child_step_ok].
Qed.

(** ** Progress *)

Definition child_pot (p : bytes) (pc : child_pc) : Z :=
  match pc with
  | SOpen => 1 + match fs p with None => 2 | Some c => 3 * Z.of_nat (length (blocks c)) + 3 end
  | SFail => 2
  | SRead rest => 3 * Z.of_nat (length (blocks rest)) + 3
  | SSend _ rest => 3 * Z.of_nat (length (blocks rest)) + 5
  | SEnd => 2
  end.
Definition stage_pot (p : bytes) (sg : stage_t) : Z :=
  match sg with NotSent | Queued => 1 + child_pot p SOpen | Child pc => child_pot p pc | Served => 0 end.
Definition client_pot (pc : client_pc) : Z :=
  match pc with KSend => 2 | KFirst | KLoop _ _ _ => 1 | _ => 0 end.
Definition queue_pot (q : option (list responseMsg)) : Z := match q with Some l => Z.of_nat (length l) | None => 0 end.
Definition sess_pot (x : session) : Z := stage_pot (path x) (stage x) + client_pot (kpc x) + queue_pot (queue x).

Lemma child_pot_pos p pc : 0 < child_pot p pc.
Proof. destruct pc; cbn; try destruct (fs p); lia. Qed.

Lemma sess_pot_nonneg x : 0 <= sess_pot x.
Proof.
  unfold sess_pot. assert (0 <= stage_pot (path x) (stage x)).
  { pose proof (child_pot_pos (path x) SOpen).
    destruct (stage x) as [| |pc|]; cbn [stage_pot]; [lia|lia| |lia]. pose proof (child_pot_pos (path x) pc). lia. }
  assert (0 <= client_pot (kpc x)) by (destruct (kpc x); cbn; lia).
  assert (0 <= queue_pot (queue x)) by (destruct (queue x); cbn; lia). lia.
Qed.

Lemma msgsnd_pot m q r q' : msgsnd cap m q = Some (r, q') -> queue_pot q' <= queue_pot q + 1.
Proof.
  unfold msgsnd. destruct q as [l|]; [|intros [= <- <-]; cbn; lia]. destruct (length l <? cap)%nat; [|done].
  intros [= <- <-]. cbn. rewrite length_app. cbn. lia.
Qed.

Lemma child_step_pot x x' : serveRequest fs cap true x = Some x' -> sess_pot x' < sess_pot x.
Proof.
  unfold serveRequest, sess_pot. intros E. destruct (stage x) as [| |pc|] eqn:Es; try discriminate E.
  cbn [stage_pot]. destruct pc as [| |rest|chunk rest|].
  - cbn [child_pot]. destruct (fs (path x)) as [c|]; injection E as <-; cbn; lia.
  - destruct (msgsnd cap failure (queue x)) as [[r q]|] eqn:Em; [|done]. apply msgsnd_pot in Em.
    injection E as <-. cbn. lia.
  - cbn [negb] in E. rewrite length_take in E. destruct (Nat.ltb_spec 0 (Nat.min RESP_MSG_SIZE (length rest))) as [H|H].
    + injection E as <-. cbn. rewrite (blocks_cons rest); [cbn; lia|]. intros ->. cbn in H. lia.
    + injection E as <-. cbn. lia.
  - destruct (msgsnd cap (mkResp RESP_MT_DATA chunk) (queue x)) as [[r q]|] eqn:Em; [|done]. apply msgsnd_pot in Em.
    injection E as <-. cbn. destruct r; cbn; lia.
  - destruct (msgsnd cap (mkResp RESP_MT_END []) (queue x)) as [[r q]|] eqn:Em; [|done]. apply msgsnd_pot in Em.
    injection E as <-. cbn. lia.
Qed.

Lemma client_own_pot x x' : client_own x = Some x' -> sess_pot x' < sess_pot x.
Proof.
  unfold client_own, receive, sess_pot. intros E. destruct (kpc x) as [| |tot num mt| | |] eqn:Ek; try discriminate E.
  - destruct (queue x) as [[|m q]|]; try discriminate E. injection E as <-. cbn.
    destruct (mtype m =? RESP_MT_FAILURE); cbn; lia.
  - destruct (mt =? RESP_MT_DATA).
    + destruct (queue x) as [[|m q]|]; try discriminate E. injection E as <-. cbn. lia.
    + injection E as <-. cbn. destruct (queue x); cbn; lia.
Qed.

Definition sys_pot (s : st) : Z := zsum sess_pot (sess s).

Lemma mstep_pot paths s s' : sys_ok paths s -> mstep fs cap s s' -> sys_pot s' < sys_pot s.
Proof.
  intros H Hs.
  assert (Hins : forall i x y q, sess s !! i = Some x -> sess_pot y < sess_pot x ->
    sys_pot (mkSt q (<[i := y]> (sess s))) < sys_pot s).
  { intros i x y q Hx Hlt. unfold sys_pot. cbn [sess]. rewrite (zsum_insert _ _ _ _ _ Hx). lia. }
  destruct Hs as [i E|E|i E].
  - unfold client_step in E. destruct (sess s !! i) as [x|] eqn:Hx; [|done]. cbn [mbind option_bind] in E.
    assert (Hown : (y ← client_own x; Some (mkSt (sq s) (<[i := y]> (sess s)))) = Some s' -> sys_pot s' < sys_pot s).
    { intros E'. destruct (client_own x) as [y|] eqn:Ey; [|done]. injection E' as <-.
      apply client_own_pot in Ey. by eapply Hins. }
    destruct (kpc x) eqn:Ek; try (by apply Hown). clear Hown.
    assert (Hc := so_clients _ _ H i x Hx). unfold client_ok in Hc. rewrite Ek in Hc. destruct Hc as [Hst Hq].
    destruct (PATH_MAX - 1 <? Z.of_nat (length (path x))).
    { injection E as <-. eapply Hins; [done|]. unfold sess_pot. cbn. rewrite Ek, Hq. cbn. lia. }
    destruct (length (sq s) <? cap)%nat; [|done]. injection E as <-. eapply Hins; [done|].
    unfold sess_pot. cbn [path stage kpc queue]. rewrite Ek, Hst. cbn. lia.
  - destruct (server_step_spec _ _ _ H E) as (i & rest & x & Hsq & Hx & Hst & ->). eapply Hins; [done|].
    unfold sess_pot. cbn [path stage kpc queue stage_pot]. rewrite Hst. cbn [stage_pot]. lia.
  - unfold child_step in E. destruct (sess s !! i) as [x|] eqn:Hx; [|done]. cbn [mbind option_bind] in E.
    destruct (serveRequest fs cap true x) as [y|] eqn:Ey; [|done]. injection E as <-.
    apply child_step_pot in Ey. by eapply Hins.
Qed.

Definition finished (pc : client_pc) : bool :=
  match pc with KDone _ _ | KFailed _ | KTooLong => true | _ => false end.

Lemma server_can s : sq s <> [] -> exists s', mstep fs cap s s'.
Proof. intros H. destruct (sq s) as [|i rest] eqn:E; [done|]. eexists. apply m_server. unfold server_step. by rewrite E. Qed.

(** When a client's queue is empty its request moves on, or everything has been sent. *)
Lemma request_moves paths s i x :
  (0 < cap)%nat -> sys_ok paths s -> sess s !! i = Some x -> queue x = Some [] -> stage x <> NotSent ->
  stage x = Served \/ exists s', mstep fs cap s s'.
Proof.
  intros Hcap H Hx Hq Hs. destruct (stage x) as [| |pc|] eqn:Es; [done| | |by left]; right.
  - apply server_can. assert (Hi : i ∈ sq s) by (apply (so_queued _ _ H); by exists x). intros E. rewrite E in Hi.
    by apply elem_of_nil in Hi.
  - assert (Hsome : is_Some (serveRequest fs cap true x)).
    { unfold serveRequest, msgsnd. rewrite Es, Hq. cbn [length]. rewrite (proj2 (Nat.ltb_lt _ _) Hcap).
      destruct pc as [| |rest|ch rest|]; try done; [by destruct (fs (path x))|].
      cbn [negb]. by destruct (0 <? length (take RESP_MSG_SIZE rest))%nat. }
    destruct Hsome as [y Ey]. eexists. apply (m_child _ _ _ _ i). unfold child_step. rewrite Hx. cbn [mbind option_bind].
    rewrite Ey. done.
Qed.

Lemma client_can paths s i x :
  (0 < cap)%nat -> sys_ok paths s -> sess s !! i = Some x -> finished (kpc x) = false ->
  exists s', mstep fs cap s s'.
Proof.
  intros Hcap H Hx Hf. assert (Hc := so_clients _ _ H i x Hx). unfold client_ok in Hc.
  assert (Hown : is_Some (client_own x) -> kpc x <> KSend -> exists s', mstep fs cap s s').
  { intros [y Ey] Hk. eexists. apply (m_client _ _ _ _ i). unfold client_step. rewrite Hx. cbn [mbind option_bind].
    rewrite Ey. cbn [mbind option_bind]. by destruct (kpc x). }
  destruct (kpc x) as [| |tot num mt| | |] eqn:Ek; try discriminate Hf.
  - destruct (PATH_MAX - 1 <? Z.of_nat (length (path x))) eqn:El.
    { eexists. apply (m_client _ _ _ _ i). unfold client_step. rewrite Hx. cbn [mbind option_bind]. by rewrite Ek, El. }
    destruct (Nat.ltb_spec (length (sq s)) cap) as [Hl|Hl].
    + eexists. apply (m_client _ _ _ _ i). unfold client_step. rewrite Hx. cbn [mbind option_bind].
      by rewrite Ek, El, (proj2 (Nat.ltb_lt _ _) Hl).
    + apply server_can. intros E. rewrite E in Hl. cbn in Hl. lia.
  - destruct Hc as (Hs & q & Hq & Hr). destruct q as [|m q].
    + destruct (request_moves _ _ _ _ Hcap H Hx Hq Hs) as [Hst|?]; [|done]. rewrite Hst in Hr. cbn in Hr.
      unfold response, contents in Hr. destruct (fs (path x)) as [c|]; [by destruct (blocks c)|done].
    + apply Hown; [|done]. unfold client_own, receive. rewrite Ek, Hq. done.
  - destruct Hc as (Hs & q & got & m & Hq & Hr & _ & _ & -> & Hmf).
    destruct (Z.eqb_spec (mtype m) RESP_MT_DATA) as [Hm|Hm].
    + destruct q as [|m' q].
      * destruct (request_moves _ _ _ _ Hcap H Hx Hq Hs) as [Hst|?]; [|done]. exfalso. rewrite Hst in Hr. cbn in Hr.
        unfold response, contents in Hr. destruct (fs (path x)) as [c|].
        -- apply app_inj_tail in Hr as [_ ->]. discriminate Hm.
        -- destruct got as [|y got]; [injection Hr as ->; discriminate Hm|by destruct got].
      * apply Hown; [|done]. unfold client_own, receive. rewrite Ek, Hq, (proj2 (Z.eqb_eq _ _) Hm). done.
    + apply Hown; [|done]. unfold client_own. rewrite Ek, (proj2 (Z.eqb_neq _ _) Hm). done.
Qed.

Lemma start_ok paths : sys_ok paths (start_clients paths).
Proof.
  split; cbn.
  - rewrite map_map. cbn. apply map_id.
  - apply NoDup_nil_2.
  - intros i. split; [by intros ?%elem_of_nil|]. intros (x & Hx & Hs). change (map ?f ?l) with (f <$> l) in Hx.
    rewrite list_lookup_fmap in Hx. destruct (paths !! i); [|done]. injection Hx as <-. discriminate Hs.
  - intros i x Hx. change (map ?f ?l) with (f <$> l) in Hx.
    rewrite list_lookup_fmap in Hx. destruct (paths !! i); [|done]. injection Hx as <-. done.
Qed.

Lemma msteps_ok paths n s s' :
  nsteps (mstep fs cap) n s s' -> sys_ok paths s -> sys_ok paths s' /\ Z.of_nat n + sys_pot s' <= sys_pot s.
Proof.
  induction 1 as [s|n s1 s2 s3 Hs Hn IH]; intros H; [split; [done|lia]|].
  assert (Hp := mstep_pot _ _ _ H Hs). destruct (IH (mstep_ok _ _ _ H Hs)) as [? ?]. split; [done|lia].
Qed.

End Inv.

(** What client number [i] may print in the end. *)
Definition right_answer (fs : bytes -> option bytes) (p : bytes) (pc : client_pc) : Prop :=
  match pc with
  | KDone tot num => exists c, fs p = Some c /\ tot = Z.of_nat (length c) /\ num = Z.of_nat (length (blocks c)) + 1
  | KFailed t => fs p = None /\ t = str "Couldn't open"
  | _ => True
  end.

(** C31: Every client gets its own file: with any number of clients asking at once,
    queues of any size and any interleaving of the clients, the server and its
    children (in which no read fails), a client that has ended has reported the size
    of the file it asked for and one message for each block of it and one for the
    end, or that the file cannot be opened if it cannot; the number of steps is
    bounded; and a state in which nobody can go on is one in which every client has
    ended. *)
Theorem svmsg_files_delivered fs cap paths n s :
  (0 < cap)%nat -> nsteps (mstep fs cap) n (start_clients paths) s ->
  Z.of_nat n <= sys_pot fs (start_clients paths) /\
  (forall i p, paths !! i = Some p -> exists x, sess s !! i = Some x /\ path x = p /\ right_answer fs p (kpc x)) /\
  ((forall s', ~ mstep fs cap s s') -> forall i x, sess s !! i = Some x -> finished (kpc x) = true).
Proof.
  intros Hcap Hn. destruct (msteps_ok fs cap paths _ _ _ Hn (start_ok fs paths)) as [H Hle].
  assert (0 <= sys_pot fs s) by (apply zsum_nonneg; apply sess_pot_nonneg). split_and!.
  - lia.
  - intros i p Hp. assert (Hm := so_paths _ _ _ H). assert (Hl : map path (sess s) !! i = Some p) by (by rewrite Hm).
    change (map ?f ?l) with (f <$> l) in Hl. rewrite list_lookup_fmap in Hl.
    destruct (sess s !! i) as [x|] eqn:Hx; [|done]. injection Hl as <-. exists x. split_and!; [done|done|].
    assert (Hc := so_clients _ _ _ H i x Hx). unfold client_ok in Hc. unfold right_answer. destruct (kpc x); naive_solver.
  - intros Hno i x Hx. destruct (finished (kpc x)) eqn:Hf; [done|]. exfalso.
    destruct (client_can fs cap paths s i x Hcap H Hx Hf) as [s' Hs']. by apply (Hno s').
Qed.

Definition demo_files (p : bytes) : option bytes :=
  if bool_decide (p = str "a") then Some (str "hello") else None.

Lemma svmsg_files_delivered_witness :
  sys_pot demo_files (start_clients [str "a"; str "b"]) = 16 /\
  forall s, nsteps (mstep demo_files 1) 1 (start_clients [str "a"; str "b"]) s ->
    exists x, sess s !! 0%nat = Some x /\ path x = str "a" /\ right_answer demo_files (str "a") (kpc x).
Proof.
  split; [reflexivity|]. intros s Hs.
  apply (svmsg_files_delivered demo_files 1 [str "a"; str "b"] 1 s); [lia|exact Hs|reflexivity].
Defined.

(** A read error looks like the end of the file: the client reports 0 bytes as a
    success. *)
Example svmsg_read_error :
  let x := mkS (str "a") (Child (SRead (str "hello"))) (Some []) KFirst in
  (y ← serveRequest demo_files 1 false x; y ← serveRequest demo_files 1 true y;
   y ← client_own y; y ← client_own y; Some (kpc y)) = Some (KDone 0 1).
Proof. reflexivity. Qed.
