(* ===== verification/MultiJoin.v ===== *)
(** * MultiJoin: a main thread that joins whichever thread has ended.

    tlpi-dist/threads/thread_multijoin.c.  A step is one call of the pthread library
    by one thread, with what the thread does up to its next call.  Threads interleave
    at every step; a wait may end without a signal; [pthread_create] may fail;
    [pthread_join] returns only when the joined thread has returned. *)
From S2P Require Import Prelude Libc GetNum.
From stdpp Require Import relations.
Local Open Scope Z_scope.

#[local] Arguments zsum : simpl never.

Inductive tstate := TS_ALIVE | TS_TERMINATED | TS_JOINED.

#[export] Instance tstate_eq_dec : EqDecision tstate.
Proof. solve_decision. Defined.

(** Where a thread is: not created; before locking; holding the mutex; before the
    signal; returned. *)
Inductive tpc := TNew | TRun | TCrit | TSignal | TExit.

(** An element of the array [thread], with where that thread is. *)
Record tinfo := mkT { pc : tpc; state : tstate; sleepTime : Z }.

(** Where main is: creating a thread; at the outer test; holding the mutex at the
    inner test; asleep; woken and about to lock again; in the loop over the array,
    with the mutex; after exit; after an error exit. *)
Inductive mpc := MCreate (idx : nat) | MTop | MTest | MSleep | MWake | MScan (idx : nat) | MDone | MError.

Inductive holder := Main | Thr (i : nat).

Record jst := mkJ {
  threadMutex : option holder;
  totThreads : Z; numLive : Z; numUnjoined : Z;
  thread : list tinfo;
  mainpc : mpc;
  reaped : list nat }.          (* the threads reported as reaped, the last first *)

Definition over (p : mpc) : bool := match p with MDone | MError => true | _ => false end.

(** The effect of [pthread_cond_signal(&threadDied)]. *)
Definition wake_main (p : mpc) : mpc := match p with MSleep => MWake | _ => p end.

(** [threadFunc], for thread [i]. *)
Definition tstep (i : nat) (s : jst) : option jst :=
  if over (mainpc s) then None
  else
    match thread s !! i with
    | Some (mkT TRun st sl) =>
        match threadMutex s with
        | None => Some (mkJ (Some (Thr i)) (totThreads s) (numLive s) (numUnjoined s)
                          (<[i := mkT TCrit st sl]> (thread s)) (mainpc s) (reaped s))
        | Some _ => None
        end
    | Some (mkT TCrit st sl) =>
        Some (mkJ None (totThreads s) (numLive s) (numUnjoined s + 1)
                (<[i := mkT TSignal TS_TERMINATED sl]> (thread s)) (mainpc s) (reaped s))
    | Some (mkT TSignal st sl) =>
        Some (mkJ (threadMutex s) (totThreads s) (numLive s) (numUnjoined s)
                (<[i := mkT TExit st sl]> (thread s)) (wake_main (mainpc s)) (reaped s))
    | _ => None
    end.

Section Main.
Context (create_err : nat -> Z).     (* what each pthread_create returns *)
Context (argv : list bytes).         (* argv[1], argv[2], ... *)

Definition goto (s : jst) (m : option holder) (p : mpc) : jst :=
  mkJ m (totThreads s) (numLive s) (numUnjoined s) (thread s) p (reaped s).

(** The body of the loop that creates the threads. *)
Definition create (idx : nat) (s : jst) : option jst :=
  match argv !! idx with
  | None => Some (mkJ (threadMutex s) (Z.of_nat (length argv)) (Z.of_nat (length argv)) (numUnjoined s)
                    (thread s) MTop (reaped s))
  | Some a =>
      match getInt (Some a) GN_NONNEG with
      | inl _ => Some (goto s (threadMutex s) MError)
      | inr n =>
          if create_err idx =? 0 then
            Some (mkJ (threadMutex s) (totThreads s) (numLive s) (numUnjoined s)
                    (<[idx := mkT TRun TS_ALIVE n]> (thread s)) (MCreate (S idx)) (reaped s))
          else Some (goto s (threadMutex s) MError)
      end
  end.

(** The body of the loop over the array; at its end the mutex is unlocked. *)
Definition scan (idx : nat) (s : jst) : option jst :=
  if Z.of_nat idx <? totThreads s then
    match thread s !! idx with
    | Some (mkT p TS_TERMINATED sl) =>
        match p with
        | TExit => Some (mkJ (threadMutex s) (totThreads s) (numLive s - 1) (numUnjoined s - 1)
                           (<[idx := mkT TExit TS_JOINED sl]> (thread s)) (MScan (S idx)) (idx :: reaped s))
        | _ => None
        end
    | Some _ => Some (goto s (threadMutex s) (MScan (S idx)))
    | None => None
    end
  else Some (goto s None MTop).

Definition mstep (s : jst) : option jst :=
  match mainpc s with
  | MCreate idx => create idx s
  | MTop =>
      if 0 <? numLive s then
        match threadMutex s with None => Some (goto s (Some Main) MTest) | Some _ => None end
      else Some (goto s (threadMutex s) MDone)
  | MTest => if numUnjoined s =? 0 then Some (goto s None MSleep) else Some (goto s (threadMutex s) (MScan 0))
  | MWake => match threadMutex s with None => Some (goto s (Some Main) MTest) | Some _ => None end
  | MScan idx => scan idx s
  | MSleep | MDone | MError => None
  end.

(** The program after the check of its arguments; [calloc] clears the array. *)
Definition begin : jst := mkJ None 0 0 0 (replicate (length argv) (mkT TNew TS_ALIVE 0)) (MCreate 0) [].

Inductive gstep (s s' : jst) : Prop :=
| gstep_thread i : tstep i s = Some s' -> gstep s s'
| gstep_main : mstep s = Some s' -> gstep s s'.

End Main.

(** A wait that ends without a signal. *)
Definition spurious_wake (s : jst) : option jst :=
  match mainpc s with MSleep => Some (goto s (threadMutex s) MWake) | _ => None end.

Inductive astep (create_err : nat -> Z) (argv : list bytes) (s s' : jst) : Prop :=
| astep_good : gstep create_err argv s s' -> astep create_err argv s s'
| astep_spurious : spurious_wake s = Some s' -> astep create_err argv s s'.

(** ** Counting threads *)

Definition waiting (t : tinfo) : Z := match state t with TS_TERMINATED => 1 | _ => 0 end.
Definition unjoined (t : tinfo) : Z := match state t with TS_JOINED => 0 | _ => 1 end.

(** The state of a thread agrees with where it is. *)
Definition tinfo_ok (t : tinfo) : Prop :=
  match pc t with
  | TNew | TRun | TCrit => state t = TS_ALIVE
  | TSignal => state t = TS_TERMINATED
  | TExit => state t <> TS_ALIVE
  end.

Lemma waiting_nonneg t : 0 <= waiting t.
Proof. unfold waiting. by destruct (state t). Qed.
Lemma unjoined_nonneg t : 0 <= unjoined t.
Proof. unfold unjoined. by destruct (state t). Qed.
Lemma waiting_unjoined t : waiting t <= unjoined t.
Proof. unfold waiting, unjoined. by destruct (state t). Qed.

Lemma zsum_unjoined_all l :
  (forall i t, l !! i = Some t -> state t <> TS_JOINED) -> zsum unjoined l = Z.of_nat (length l).
Proof.
  induction l as [|t l IH]; intros H; [done|]. cbn [length]. rewrite zsum_cons, IH by (intros i; apply (H (S i))).
  assert (Ht := H 0%nat t eq_refl). unfold unjoined. destruct (state t); [lia|lia|done].
Qed.

(** When some thread is counted, there is one. *)
Lemma zsum_exists {A} (f : A -> Z) l : 0 < zsum f l -> exists i x, l !! i = Some x /\ 0 < f x.
Proof.
  induction l as [|x l IH]; [rewrite zsum_nil; lia|]. rewrite zsum_cons. intros H.
  destruct (decide (0 < f x)) as [Hx|Hx]; [by exists 0%nat, x|].
  destruct IH as (i & y & Hi & Hy); [lia|]. by exists (S i), y.
Qed.

(** ** The invariant *)

Section Inv.
Context (create_err : nat -> Z) (argv : list bytes).
Abbreviation n := (length argv).

Definition main_holds (p : mpc) : bool := match p with MTest | MScan _ => true | _ => false end.

Definition mutex_ok (s : jst) : Prop :=
  (threadMutex s = Some Main <-> main_holds (mainpc s) = true) /\
  (forall i, threadMutex s = Some (Thr i) <-> exists t, thread s !! i = Some t /\ pc t = TCrit).

(** What main knows at each point. *)
Definition main_ok (s : jst) : Prop :=
  match mainpc s with
  | MCreate idx =>
      (idx <= n)%nat /\ reaped s = [] /\
      (forall i t, thread s !! i = Some t -> state t <> TS_JOINED /\ (pc t = TNew <-> (idx <= i)%nat))
  | MError => True
  | p =>
      totThreads s = Z.of_nat n /\ numLive s = zsum unjoined (thread s) /\
      (forall i t, thread s !! i = Some t -> pc t <> TNew) /\
      match p with
      | MScan idx => (idx <= n)%nat /\ forall i t, (i < idx)%nat -> thread s !! i = Some t -> waiting t = 0
      | MDone => numLive s = 0
      | MSleep => 0 < numLive s /\
          (0 < numUnjoined s -> exists i t, thread s !! i = Some t /\ pc t = TSignal)
      | MTest | MWake => 0 < numLive s
      | _ => True
      end
  end.

Record jinv (s : jst) : Prop := {
  j_length : length (thread s) = n;
  j_waiting : numUnjoined s = zsum waiting (thread s);
  j_threads : Forall tinfo_ok (thread s);
  j_mutex : mutex_ok s;
  j_main : main_ok s;
  j_reaped : NoDup (reaped s);
  j_joined : forall i, i ∈ reaped s <-> exists t, thread s !! i = Some t /\ state t = TS_JOINED;
}.


(** The steps that are left: every thread that is not joined yet may cost one more
    loop over the array. *)
Definition tpot (t : tinfo) : Z :=
  match pc t with TNew => 7 | TRun => 6 | TCrit => 5 | TSignal => 4 | TExit => 0 end.
Definition loop_cost : Z := Z.of_nat n + 5.
Definition mpot (p : mpc) (u : Z) : Z :=
  match p with
  | MCreate idx => Z.of_nat n - Z.of_nat idx + 4
  | MTop | MWake => 3
  | MTest => 2
  | MScan idx => Z.of_nat n - Z.of_nat idx + 4 - (if 0 <? u then loop_cost else 0)
  | MSleep | MDone | MError => 0
  end.
Definition jpot (s : jst) : Z :=
  zsum tpot (thread s) + loop_cost * zsum unjoined (thread s) + mpot (mainpc s) (numUnjoined s).

Lemma tpot_nonneg t : 0 <= tpot t.
Proof. unfold tpot. by destruct (pc t). Qed.

Lemma unjoined_le s : jinv s -> 0 <= numUnjoined s <= zsum unjoined (thread s).
Proof.
  intros H. rewrite (j_waiting _ H). split; [apply zsum_nonneg, waiting_nonneg|apply zsum_le_fun, waiting_unjoined].
Qed.

Lemma jpot_nonneg s : jinv s -> 0 <= jpot s.
Proof.
  intros H. unfold jpot, mpot, loop_cost. assert (Hu := unjoined_le s H). assert (Hm := j_main _ H).
  assert (0 <= zsum tpot (thread s)) by apply zsum_nonneg, tpot_nonneg.
  unfold main_ok in Hm. destruct (mainpc s) as [idx| | | | |idx| |] eqn:E; try nia.
  destruct Hm as (_ & _ & _ & Hi & _). destruct (Z.ltb_spec 0 (numUnjoined s)); nia.
Qed.

(** A change of one thread that is not joined and stays so. *)
Lemma joined_insert s i t t' :
  jinv s -> thread s !! i = Some t -> state t <> TS_JOINED -> state t' <> TS_JOINED ->
  forall j, j ∈ reaped s <-> exists t0, <[i := t']> (thread s) !! j = Some t0 /\ state t0 = TS_JOINED.
Proof.
  intros H Hi Ht Ht' j. rewrite (j_joined _ H). assert (Hlt := lookup_lt_Some _ _ _ Hi).
  destruct (decide (j = i)) as [->|Hj].
  - rewrite list_lookup_insert_eq by done. split; intros (t0 & [= E] & Hs); [|congruence].
    rewrite Hi in E. congruence.
  - by rewrite list_lookup_insert_ne by done.
Qed.

Lemma main_ok_thread s i t t' m' u' p' :
  main_ok s -> thread s !! i = Some t -> pc t <> TNew -> pc t' <> TNew ->
  state t <> TS_JOINED -> state t' <> TS_JOINED ->
  waiting t' <= waiting t \/ main_holds (mainpc s) = false ->
  p' = wake_main (mainpc s) \/
    p' = mainpc s /\ (exists j t0, <[i := t']> (thread s) !! j = Some t0 /\ pc t0 = TSignal) \/
    p' = mainpc s /\ u' = numUnjoined s /\ pc t <> TSignal ->
  main_ok (mkJ m' (totThreads s) (numLive s) u' (<[i := t']> (thread s)) p' (reaped s)).
Proof.
  intros Hm Hi Hp Hp' Hs Hs' Hw Hpc. assert (Hlt := lookup_lt_Some _ _ _ Hi).
  assert (Hun : zsum unjoined (<[i := t']> (thread s)) = zsum unjoined (thread s)).
  { rewrite (zsum_insert unjoined _ _ _ _ Hi). unfold unjoined. destruct (state t), (state t'); try done; lia. }
  assert (Hall : forall P : nat -> tinfo -> Prop, (forall j t0, thread s !! j = Some t0 -> P j t0) -> P i t' ->
    forall j t0, <[i := t']> (thread s) !! j = Some t0 -> P j t0).
  { intros P HP Hi' j t0 Hj. apply list_lookup_insert_Some in Hj as [(-> & -> & _)|(_ & Hj)]; [done|by apply HP]. }
  unfold main_ok in *. cbn [mainpc totThreads numLive numUnjoined thread reaped].
  destruct (mainpc s) as [idx| | | | |idx| |] eqn:Ep; cbn [wake_main] in Hpc;
    (* where main is, unless it is asleep, does not change *)
    try (assert (p' = mainpc s) as -> by (rewrite Ep; by destruct Hpc as [?|[[? _]|[? _]]]); rewrite Ep, ?Hun).
  - destruct Hm as (? & ? & Hm). split_and!; [done|done|]. apply Hall; [done|].
    split; [done|]. destruct (Hm _ _ Hi) as [_ Hn]. tauto.
  - destruct Hm as (? & ? & Hm & ?). split_and!; [done|done|by apply Hall|done].
  - destruct Hm as (? & ? & Hm & ?). split_and!; [done|done|by apply Hall|done].
  - destruct Hm as (Ht & Hl & Hm & Hlv & Hsl). destruct Hpc as [->|[[-> Hex]|(-> & -> & Hns)]]; rewrite Hun.
    + split_and!; [done|done|by apply Hall|done].
    + split_and!; [done|done|by apply Hall|done|done].
    + split_and!; [done|done|by apply Hall|done|]. intros Hu. destruct (Hsl Hu) as (j & t0 & Hj & Hpj).
      exists j, t0. rewrite list_lookup_insert_ne; [done|]. intros ->. congruence.
  - destruct Hm as (? & ? & Hm & ?). split_and!; [done|done|by apply Hall|done].
  - destruct Hm as (? & ? & Hm & ? & Hz). destruct Hw as [Hw|Hw]; [|done].
    split_and!; [done|done|by apply Hall|done|]. intros j t0 Hj Hl.
    apply list_lookup_insert_Some in Hl as [(<- & -> & _)|(_ & Hl)]; [|by apply (Hz j)].
    assert (Hz0 := Hz i t Hj Hi). assert (Hz1 := waiting_nonneg t0). lia.
  - destruct Hm as (? & ? & Hm & ?). split_and!; [done|done|by apply Hall|done].
  - done.
Qed.

Lemma mutex_insert s i t t' m' :
  mutex_ok s -> thread s !! i = Some t ->
  forall p' tot lv u r,
  (m' = Some Main <-> main_holds p' = true) ->
  (forall j, j <> i -> m' = Some (Thr j) <-> threadMutex s = Some (Thr j)) ->
  (m' = Some (Thr i) <-> pc t' = TCrit) ->
  mutex_ok (mkJ m' tot lv u (<[i := t']> (thread s)) p' r).
Proof.
  intros [_ Hm] Hi p' tot lv u r Hmain Ho Hself. split; [done|]. intros j. cbn [threadMutex thread].
  destruct (decide (j = i)) as [->|Hj].
  - rewrite list_lookup_insert_eq by (by eapply lookup_lt_Some). rewrite Hself. naive_solver.
  - rewrite list_lookup_insert_ne by done. by rewrite Ho.
Qed.

Lemma tstep_inv i s s' : jinv s -> tstep i s = Some s' -> jinv s' /\ jpot s' < jpot s.
Proof.
  intros H E. unfold tstep in E. destruct (over (mainpc s)); [done|].
  destruct (thread s !! i) as [[p st sl]|] eqn:Ei; [|done].
  assert (Hok : tinfo_ok (mkT p st sl)) by (by eapply (Forall_lookup_1 _ _ _ _ (j_threads _ H))).
  assert (Hm := j_mutex _ H). assert (Hself := proj2 Hm i). rewrite Ei in Hself.
  (* the step, from what the thread becomes *)
  assert (Hgen : forall m' u' t' p',
    u' = numUnjoined s - waiting (mkT p st sl) + waiting t' -> tinfo_ok t' ->
    pc t' <> TNew -> state t' <> TS_JOINED -> p <> TNew -> st <> TS_JOINED ->
    waiting t' <= waiting (mkT p st sl) \/ main_holds (mainpc s) = false ->
    (p' = wake_main (mainpc s) \/
      p' = mainpc s /\ (exists j t0, <[i := t']> (thread s) !! j = Some t0 /\ pc t0 = TSignal) \/
      p' = mainpc s /\ u' = numUnjoined s /\ p <> TSignal) ->
    mutex_ok (mkJ m' (totThreads s) (numLive s) u' (<[i := t']> (thread s)) p' (reaped s)) ->
    tpot t' + mpot p' u' < tpot (mkT p st sl) + mpot (mainpc s) (numUnjoined s) ->
    jinv (mkJ m' (totThreads s) (numLive s) u' (<[i := t']> (thread s)) p' (reaped s)) /\
    jpot (mkJ m' (totThreads s) (numLive s) u' (<[i := t']> (thread s)) p' (reaped s)) < jpot s).
  { intros m' u' t' p' Hu Hok' Hn' Hj' Hn Hj Hw Hp Hm' Hpot. split.
    - split; cbn [thread numUnjoined reaped].
      + by rewrite length_insert, (j_length _ H).
      + by rewrite (zsum_insert waiting _ _ _ _ Ei), <- (j_waiting _ H).
      + by apply Forall_insert; [exact (j_threads _ H)|].
      + done.
      + eapply main_ok_thread; [exact (j_main _ H)|exact Ei|done|done|done|done|done|done].
      + exact (j_reaped _ H).
      + by eapply joined_insert.
    - unfold jpot. cbn [thread numUnjoined mainpc].
      rewrite (zsum_insert tpot _ _ _ _ Ei), (zsum_insert unjoined _ _ _ _ Ei).
      assert (unjoined t' = unjoined (mkT p st sl)) as -> by (unfold unjoined; cbn; by destruct (state t'), st).
      nia. }
  destruct p; try discriminate E.
  - (* TRun *) cbn in Hok. subst st. destruct (threadMutex s) eqn:Em; [done|]. injection E as <-.
    apply Hgen; cbn; try done; [lia|by left|right; right; done| |lia].
    eapply mutex_insert; [done|exact Ei| | |done].
    + rewrite <- (proj1 Hm). by rewrite Em.
    + intros j Hj. rewrite Em. split; [intros [= ->]; done|done].
  - (* TCrit *) cbn in Hok. subst st. injection E as <-.
    assert (Em : threadMutex s = Some (Thr i)) by (apply Hself; eexists; by split).
    assert (Hnh : main_holds (mainpc s) = false).
    { apply not_true_iff_false. rewrite <- (proj1 Hm), Em. done. }
    apply Hgen; cbn; try done; [lia|by right| | |].
    + right; left. split; [done|]. exists i, (mkT TSignal TS_TERMINATED sl). split; [|done].
      apply list_lookup_insert_eq. by eapply lookup_lt_Some.
    + eapply mutex_insert; [done|exact Ei|by rewrite Hnh| |done].
      intros j Hj. rewrite Em. split; [done|intros [= ->]; done].
    + unfold tpot; cbn. unfold mpot. destruct (mainpc s); try done; cbn; lia.
  - (* TSignal *) cbn in Hok. subst st. injection E as <-.
    apply Hgen; cbn; try done; [lia|left; unfold waiting; cbn; lia|by left| |].
    + eapply mutex_insert; [done|exact Ei| |done|].
      * rewrite (proj1 Hm). by destruct (mainpc s).
      * split; [|done]. intros Hc. apply Hself in Hc as (t & [= <-] & Hc). done.
    + unfold tpot; cbn. destruct (mainpc s); cbn; lia.
Qed.

(** A move of main that leaves the threads alone. *)
Lemma goto_inv s m' p' :
  jinv s -> main_ok (goto s m' p') ->
  (m' = Some Main <-> main_holds p' = true) ->
  (forall i, m' = Some (Thr i) <-> threadMutex s = Some (Thr i)) ->
  jinv (goto s m' p') /\ (mpot p' (numUnjoined s) < mpot (mainpc s) (numUnjoined s) -> jpot (goto s m' p') < jpot s).
Proof.
  intros H Hmain Hh Ho. split.
  - split; try apply H; [|done]. split; [done|]. intros i. cbn. rewrite Ho. apply (j_mutex _ H).
  - intros Hp. unfold jpot. cbn. lia.
Qed.

(** Main takes the mutex, or drops it. *)
Lemma holder_none s : jinv s -> threadMutex s = None -> main_holds (mainpc s) = false.
Proof. intros H E. apply not_true_iff_false. rewrite <- (proj1 (j_mutex _ H)), E. done. Qed.

Lemma create_inv idx s s' :
  jinv s -> mainpc s = MCreate idx -> create create_err argv idx s = Some s' -> jinv s' /\ jpot s' < jpot s.
Proof.
  intros H Ep E. unfold create in E. assert (Hm := j_mutex _ H). assert (Hmain := j_main _ H).
  assert (Hno : threadMutex s <> Some Main) by (intros Hc; apply (proj1 Hm) in Hc; by rewrite Ep in Hc).
  unfold main_ok in Hmain. rewrite Ep in Hmain. destruct Hmain as (Hle & Hr & Hnew).
  assert (Hfail : jinv (goto s (threadMutex s) MError) /\ jpot (goto s (threadMutex s) MError) < jpot s).
  { destruct (goto_inv s (threadMutex s) MError) as [Hi Hp]; [done|done|by split|done|].
    split; [done|]. apply Hp. rewrite Ep. cbn. lia. }
  destruct (argv !! idx) as [a|] eqn:Ea.
  - apply lookup_lt_Some in Ea. destruct (getInt (Some a) GN_NONNEG) as [e|v]; [by injection E as <-|].
    destruct (create_err idx =? 0); [|by injection E as <-]. injection E as <-. clear Hfail.
    destruct (lookup_lt_is_Some_2 (thread s) idx) as [t Ht]; [by rewrite (j_length _ H)|].
    destruct (Hnew _ _ Ht) as [Hj Hn]. assert (Hpc : pc t = TNew) by (apply Hn; lia).
    assert (Hok : tinfo_ok t) by (by eapply (Forall_lookup_1 _ _ _ _ (j_threads _ H))).
    unfold tinfo_ok in Hok. rewrite Hpc in Hok. destruct t as [p st sl]. cbn in Hpc, Hok. subst p st. split.
    + split; cbn [thread numUnjoined reaped].
      * by rewrite length_insert, (j_length _ H).
      * rewrite (zsum_insert waiting _ _ _ _ Ht), <- (j_waiting _ H). cbn. lia.
      * by apply Forall_insert; [exact (j_threads _ H)|].
      * eapply mutex_insert; [exact Hm|exact Ht|done|done|]. split; [|done]. intros Hc.
        apply (proj2 Hm) in Hc as (t & Ht' & Hc). rewrite Ht in Ht'. by injection Ht' as <-.
      * unfold main_ok. cbn. split_and!; [lia|done|]. intros j t Hjt.
        apply list_lookup_insert_Some in Hjt as [(<- & <- & _)|(Hne & Hjt)]; [cbn; split; [done|]; split; [done|lia]|].
        destruct (Hnew _ _ Hjt) as [? Hn']. split; [done|]. rewrite Hn'. lia.
      * exact (j_reaped _ H).
      * by eapply joined_insert.
    + unfold jpot. cbn [thread numUnjoined mainpc]. rewrite Ep.
      rewrite (zsum_insert tpot _ _ _ _ Ht), (zsum_insert unjoined _ _ _ _ Ht).
      unfold unjoined at 2 3, tpot at 2 3. cbn. lia.
  - injection E as <-. apply lookup_ge_None in Ea. split.
    + split; try apply H; [split; [cbn; done|apply Hm]|]. unfold main_ok. cbn. split_and!; [done| | |done].
      * rewrite <- (j_length _ H). symmetry. apply zsum_unjoined_all. intros i t Hi. apply (Hnew i t Hi).
      * intros i t Hi. destruct (Hnew _ _ Hi) as [_ ->]. apply lookup_lt_Some in Hi. rewrite (j_length _ H) in Hi. lia.
    + unfold jpot. cbn [thread numUnjoined mainpc]. rewrite Ep. cbn. lia.
Qed.

Lemma scan_inv idx s s' :
  jinv s -> mainpc s = MScan idx -> scan idx s = Some s' -> jinv s' /\ jpot s' < jpot s.
Proof.
  intros H Ep E. assert (Hm := j_mutex _ H). assert (Hmain := j_main _ H). unfold main_ok in Hmain.
  rewrite Ep in Hmain. destruct Hmain as (Htot & Hlv & Hnew & Hle & Hz).
  assert (Em : threadMutex s = Some Main) by (apply (proj1 Hm); by rewrite Ep).
  unfold scan in E. rewrite Htot, (j_waiting _ H) in E. destruct (Z.ltb_spec (Z.of_nat idx) (Z.of_nat n)) as [Hlt|Hge].
  - destruct (lookup_lt_is_Some_2 (thread s) idx) as [[p st sl] Ht]; [rewrite (j_length _ H); lia|].
    rewrite Ht in E. destruct (decide (st = TS_TERMINATED)) as [->|Hst].
    + destruct p; try discriminate E. injection E as <-.
      assert (Hw := zsum_insert waiting _ _ _ (mkT TExit TS_JOINED sl) Ht).
      assert (Hun := zsum_insert unjoined _ _ _ (mkT TExit TS_JOINED sl) Ht).
      unfold waiting at 3 4 in Hw. unfold unjoined at 3 4 in Hun. cbn in Hw, Hun. split.
      * split; cbn [thread numUnjoined reaped].
        -- by rewrite length_insert, (j_length _ H).
        -- lia.
        -- by apply Forall_insert; [exact (j_threads _ H)|].
        -- eapply mutex_insert; [exact Hm|exact Ht|by rewrite Em|done|by rewrite Em].
        -- unfold main_ok. cbn. split_and!; [done|lia| |lia|].
           ++ intros j t Hj. apply list_lookup_insert_Some in Hj as [(_ & <- & _)|(_ & Hj)]; [done|by eapply Hnew].
           ++ intros j t Hji Hj. apply list_lookup_insert_Some in Hj as [(_ & <- & _)|(Hne & Hj)]; [done|].
              apply (Hz j); [lia|done].
        -- apply NoDup_cons. split; [|exact (j_reaped _ H)]. rewrite (j_joined _ H). intros (t & Ht' & Hs).
           rewrite Ht in Ht'. injection Ht' as <-. done.
        -- intros j. rewrite elem_of_cons, (j_joined _ H). destruct (decide (j = idx)) as [->|Hj].
           ++ rewrite list_lookup_insert_eq by (by eapply lookup_lt_Some). split; [eauto|by left].
           ++ rewrite list_lookup_insert_ne by done. split; [by intros [?|?]|by right].
      * assert (Hle1 := zsum_le waiting _ _ _ waiting_nonneg Ht). cbn in Hle1.
        unfold jpot. cbn [thread numUnjoined mainpc mpot]. rewrite Ep, (j_waiting _ H), Hun.
        rewrite (zsum_insert tpot _ _ _ _ Ht). cbn [mpot tpot pc]. unfold loop_cost.
        destruct (Z.ltb_spec 0 (zsum waiting (thread s))) as [_|Hc]; [|unfold waiting in Hle1, Hc; cbn in Hle1; lia].
        destruct (0 <? _); nia.
    + assert (E' : s' = goto s (threadMutex s) (MScan (S idx))) by (destruct st; congruence). subst s'.
      destruct (goto_inv s (threadMutex s) (MScan (S idx))) as [Hi Hp]; [done| |by rewrite Em|done|].
      * unfold main_ok. cbn. split_and!; [done|done|done|lia|]. intros j t Hji Hj.
        destruct (decide (j = idx)) as [->|Hne]; [|by apply (Hz j); [lia|]].
        rewrite Ht in Hj. injection Hj as <-. unfold waiting. cbn. by destruct st.
      * split; [done|]. apply Hp. rewrite Ep. unfold mpot. lia.
  - injection E as <-. destruct (goto_inv s None MTop) as [Hi Hp]; [done|done|done|by intros i; rewrite Em|].
    split; [done|]. apply Hp. rewrite Ep, (j_waiting _ H). unfold mpot.
    rewrite (zsum_zero waiting); [cbn; lia|]. intros j t Hj. apply (Hz j); [|done].
    apply lookup_lt_Some in Hj. rewrite (j_length _ H) in Hj. lia.
Qed.

Lemma mstep_inv s s' : jinv s -> mstep create_err argv s = Some s' -> jinv s' /\ jpot s' < jpot s.
Proof.
  intros H E. unfold mstep in E. assert (Hm := j_mutex _ H). assert (Hmain := j_main _ H). unfold main_ok in Hmain.
  (* a move of main, from what holds where it goes *)
  assert (Hgo : forall m' p', s' = goto s m' p' -> main_ok (goto s m' p') ->
    (m' = Some Main <-> main_holds p' = true) -> (forall i, m' = Some (Thr i) <-> threadMutex s = Some (Thr i)) ->
    mpot p' (numUnjoined s) < mpot (mainpc s) (numUnjoined s) -> jinv s' /\ jpot s' < jpot s).
  { intros m' p' -> Hok Hh Ho Hp. destruct (goto_inv s m' p' H Hok Hh Ho). split; auto. }
  assert (Hl : main_holds (mainpc s) = true -> threadMutex s = Some Main) by apply Hm.
  destruct (mainpc s) as [idx| | | | |idx| |] eqn:Ep; try discriminate E.
  - by eapply create_inv.
  - destruct Hmain as (? & Hlv & ? & _). destruct (Z.ltb_spec 0 (numLive s)) as [Hp|Hp].
    + destruct (threadMutex s) eqn:Em; [done|]. injection E as <-. by eapply Hgo.
    + assert (Hnm : threadMutex s <> Some Main) by (rewrite (proj1 Hm), Ep; done).
      injection E as <-. eapply Hgo; [done| |done|done|cbn; lia]. unfold main_ok. cbn.
      assert (0 <= zsum unjoined (thread s)) by apply zsum_nonneg, unjoined_nonneg. split_and!; [done..|lia].
  - destruct Hmain as (? & ? & ? & ?). specialize (Hl eq_refl). destruct (Z.eqb_spec (numUnjoined s) 0) as [Hu|Hu].
    + injection E as <-. eapply Hgo; [done| |done|by rewrite Hl|done]. unfold main_ok. cbn. split_and!; [done..|lia].
    + injection E as <-. eapply Hgo; [done| |by rewrite Hl|done|].
      * unfold main_ok. cbn. split_and!; [done..|lia|]. intros j t Hj. lia.
      * cbn. assert (Hnn := unjoined_le s H). destruct (Z.ltb_spec 0 (numUnjoined s)); unfold loop_cost; lia.
  - destruct Hmain as (? & ? & ? & ?). destruct (threadMutex s) eqn:Em; [done|]. injection E as <-. by eapply Hgo.
  - by eapply scan_inv.
Qed.

Lemma spurious_wake_inv s s' : jinv s -> spurious_wake s = Some s' -> jinv s'.
Proof.
  intros H E. assert (Hm := proj1 (j_mutex _ H)). assert (Hmain := j_main _ H). unfold main_ok in Hmain.
  unfold spurious_wake in E. destruct (mainpc s) eqn:Ep; try discriminate E. injection E as <-.
  destruct Hmain as (? & ? & ? & ? & _). apply goto_inv; [done|by unfold main_ok; cbn|by rewrite Hm|done].
Qed.

Lemma tstep_enabled s i t :
  over (mainpc s) = false -> thread s !! i = Some t ->
  match pc t with TRun => threadMutex s = None | TCrit | TSignal => True | _ => False end ->
  exists s', gstep create_err argv s s'.
Proof.
  intros Ho Hi Hp. assert (Hsome : is_Some (tstep i s)).
  { unfold tstep. rewrite Ho, Hi. destruct t as [[] st sl]; cbn in Hp; try done. by rewrite Hp. }
  destruct Hsome as [s' E]. exists s'. by eapply gstep_thread.
Qed.

(** A thread that is neither joined nor waiting to be joined can go on. *)
Lemma alive_enabled s i t :
  jinv s -> over (mainpc s) = false -> threadMutex s = None -> thread s !! i = Some t ->
  pc t <> TNew -> unjoined t <> 0 -> waiting t = 0 -> exists s', gstep create_err argv s s'.
Proof.
  intros H Ho Em Hi Hn Hu Hw. eapply tstep_enabled; [done|exact Hi|].
  assert (Hok : tinfo_ok t) by (by eapply (Forall_lookup_1 _ _ _ _ (j_threads _ H))).
  unfold tinfo_ok in Hok. unfold unjoined, waiting in Hu, Hw. destruct (pc t); try done; destruct (state t); done.
Qed.

(** Until main has exited, some thread can go on. *)
Lemma jprogress s : jinv s -> over (mainpc s) = false -> exists s', gstep create_err argv s s'.
Proof.
  intros H Ho. assert (Hm := j_mutex _ H). assert (Hmain := j_main _ H).
  assert (Hgo : is_Some (mstep create_err argv s) -> exists s', gstep create_err argv s s').
  { intros [s' E]. exists s'. by apply gstep_main. }
  destruct (threadMutex s) as [[|i]|] eqn:Em.
  - (* main holds the mutex *)
    apply (proj1 Hm) in Em. unfold main_ok in Hmain. unfold mstep in Hgo.
    destruct (mainpc s) as [| | | | |idx| |] eqn:Ep; try discriminate Em; [apply Hgo; by destruct (_ =? _)|].
    destruct Hmain as (Htot & _). unfold scan in Hgo. rewrite Htot in Hgo.
    destruct (Z.ltb_spec (Z.of_nat idx) (Z.of_nat n)) as [Hlt|]; [|by apply Hgo].
    destruct (lookup_lt_is_Some_2 (thread s) idx) as [[p st sl] Ht]; [rewrite (j_length _ H); lia|].
    rewrite Ht in Hgo. destruct st; [by apply Hgo| |by apply Hgo].
    assert (Hok := Forall_lookup_1 _ _ _ _ (j_threads _ H) Ht). destruct p; try done; [|by apply Hgo].
    eapply tstep_enabled; [by rewrite Ep|exact Ht|done].
  - (* a thread does *)
    apply (proj2 Hm) in Em as (t & Hi & Hp). eapply tstep_enabled; [done|exact Hi|by rewrite Hp].
  - assert (Hnh := holder_none s H Em). unfold main_ok in Hmain. unfold mstep in Hgo.
    destruct (mainpc s) as [idx| | | | |idx| |] eqn:Ep; try done.
    + apply Hgo. unfold create. destruct (argv !! idx); [|done]. destruct (getInt _ _); [done|]. by destruct (_ =? _).
    + apply Hgo. rewrite Em. by destruct (_ <? _).
    + (* asleep: a signal is under way, or some thread is alive *)
      destruct Hmain as (_ & Hlv & Hnew & Hpos & Hsig). assert (Hnn := unjoined_le s H).
      destruct (decide (0 < numUnjoined s)) as [Hu|Hu].
      * destruct (Hsig Hu) as (i & t & Hi & Hp). eapply tstep_enabled; [by rewrite Ep|exact Hi|by rewrite Hp].
      * destruct (zsum_exists unjoined (thread s)) as (i & t & Hi & Ht); [lia|].
        assert (Hw := zsum_le waiting _ _ _ waiting_nonneg Hi). rewrite <- (j_waiting _ H) in Hw.
        assert (Hw0 := waiting_nonneg t).
        eapply alive_enabled; [done|by rewrite Ep|done|exact Hi|by eapply Hnew|lia|lia].
    + apply Hgo. by rewrite Em.
Qed.

End Inv.

(** ** Every thread is joined once, and main exits *)

#[local] Arguments zsum : simpl never.

Lemma begin_inv argv :
  jinv argv (begin argv) /\
  jpot argv (begin argv) = Z.of_nat (length argv) * Z.of_nat (length argv) + 13 * Z.of_nat (length argv) + 4.
Proof.
  set (t0 := mkT TNew TS_ALIVE 0).
  assert (Hl : forall i t, replicate (length argv) t0 !! i = Some t -> t = t0 /\ (i < length argv)%nat)
    by (intros i t Hi; by apply lookup_replicate in Hi).
  assert (Hs : forall f : tinfo -> Z, zsum f (replicate (length argv) t0) = Z.of_nat (length argv) * f t0).
  { intros f. clear Hl. induction (length argv) as [|k IH]; [cbn; by rewrite zsum_nil|]. cbn [replicate]. rewrite zsum_cons, IH. lia. }
  split.
  - split; cbn.
    + apply length_replicate.
    + rewrite Hs. cbn. lia.
    + by apply Forall_replicate.
    + split; [done|]. intros i. split; [done|]. intros (t & Hi & Hc). cbn in Hi. by apply Hl in Hi as [-> _].
    + unfold main_ok. cbn. split_and!; [lia|done|]. intros i t Hi. apply Hl in Hi as [-> Hi]. cbn. split; [done|].
      split; [lia|done].
    + apply NoDup_nil_2.
    + intros i. split; [by intros ?%elem_of_nil|]. intros (t & Hi & Hc). by apply Hl in Hi as [-> _].
  - unfold jpot. cbn. rewrite !Hs. unfold tpot, unjoined, loop_cost. cbn. lia.
Qed.

Lemma astep_inv create_err argv s s' : rtc (astep create_err argv) s s' -> jinv argv s -> jinv argv s'.
Proof.
  induction 1 as [|s1 s2 s3 [[i E|E]|E] _ IH]; [done| | |]; intros Hi; apply IH.
  - by eapply tstep_inv.
  - by eapply mstep_inv.
  - by eapply spurious_wake_inv.
Qed.

Lemma gsteps_pot create_err argv k s s' :
  nsteps (gstep create_err argv) k s s' -> jinv argv s ->
  jinv argv s' /\ Z.of_nat k + jpot argv s' <= jpot argv s.
Proof.
  induction 1 as [s|k s1 s2 s3 Hs Hn IH]; intros Hi; [split; [done|lia]|].
  assert (H2 : jinv argv s2 /\ jpot argv s2 < jpot argv s1).
  { destruct Hs as [i E|E]; [by eapply tstep_inv|by eapply mstep_inv]. }
  destruct H2 as [H2 Hp]. destruct (IH H2) as [? ?]. split; [done|lia].
Qed.

(** Main fails only at an argument that is not a number or at a thread that cannot be
    created. *)
Definition args_ok (argv : list bytes) : Prop := Forall (fun a => exists v, getInt (Some a) GN_NONNEG = inr v) argv.

Lemma no_failure create_err argv s s' :
  args_ok argv -> (forall idx, create_err idx = 0) ->
  rtc (gstep create_err argv) s s' -> mainpc s <> MError -> mainpc s' <> MError.
Proof.
  intros Ha Hc. induction 1 as [|s1 s2 s3 Hs _ IH]; [done|]. intros Hp. apply IH. destruct Hs as [i E|E].
  - unfold tstep in E. destruct (over (mainpc s1)); [done|]. destruct (thread s1 !! i) as [[[] ? ?]|]; try discriminate E.
    + destruct (threadMutex s1); [done|]. by injection E as <-.
    + by injection E as <-.
    + injection E as <-. cbn. by destruct (mainpc s1).
  - unfold mstep in E. destruct (mainpc s1) as [idx| | | | |idx| |]; try discriminate E.
    + unfold create in E. destruct (argv !! idx) as [a|] eqn:Ea; [|by injection E as <-].
      destruct (Forall_lookup_1 _ _ _ _ Ha Ea) as [v Hv]. rewrite Hv, Hc in E. by injection E as <-.
    + destruct (0 <? numLive s1); [|by injection E as <-]. destruct (threadMutex s1); [done|by injection E as <-].
    + destruct (numUnjoined s1 =? 0); by injection E as <-.
    + destruct (threadMutex s1); [done|by injection E as <-].
    + unfold scan in E. destruct (_ <? _); [|by injection E as <-].
      destruct (thread s1 !! idx) as [[p [] sl]|]; [by injection E as <-| |by injection E as <-|done].
      destruct p; try discriminate E. by injection E as <-.
Qed.

(** What main has reported when it exits. *)
Lemma done_all argv s : jinv argv s -> mainpc s = MDone -> reaped s ≡ₚ seq 0 (length argv).
Proof.
  intros H Hd. assert (Hm := j_main _ _ H). unfold main_ok in Hm. rewrite Hd in Hm. destruct Hm as (_ & Hlv & _ & H0).
  rewrite Hlv in H0. apply NoDup_Permutation; [exact (j_reaped _ _ H)|apply NoDup_seq|].
  intros i. rewrite elem_of_seq, (j_joined _ _ H). split.
  - intros (t & Hi & _). apply lookup_lt_Some in Hi. rewrite (j_length _ _ H) in Hi. lia.
  - intros Hi. destruct (lookup_lt_is_Some_2 (thread s) i) as [t Ht]; [rewrite (j_length _ _ H); lia|].
    exists t. split; [done|]. assert (Hle := zsum_le unjoined _ _ _ unjoined_nonneg Ht).
    unfold unjoined in Hle at 1. destruct (state t); [lia|lia|done].
Qed.

(** C15: Main joins every thread exactly once and exits.  In every interleaving, with
    waits that end without a signal too: the counter of terminated threads is the
    number of elements of the array in that state and, while main joins, the counter
    of live threads the number not joined yet; a thread is reported only after it has
    returned, and never twice; two threads never hold the mutex together, nor main
    and a thread.  When main exits it has reported each of the threads once.  When
    every argument is a number and every thread can be created, a run without
    wake-ups other than signals has at most n*n + 13*n + 4 steps, and where nothing
    can go on main has exited: no signal is missed, and main never waits in
    [pthread_join], with the mutex, for a thread that needs the mutex. *)
Theorem multijoin_reaps_all create_err argv :
  args_ok argv -> (forall idx, create_err idx = 0) ->
  (forall s, rtc (astep create_err argv) (begin argv) s ->
     numUnjoined s = zsum waiting (thread s) /\
     NoDup (reaped s) /\
     (forall i, i ∈ reaped s -> exists sl, thread s !! i = Some (mkT TExit TS_JOINED sl)) /\
     (forall i j t t', thread s !! i = Some t -> thread s !! j = Some t' -> pc t = TCrit ->
        main_holds (mainpc s) = false /\ (pc t' = TCrit -> i = j)) /\
     (main_holds (mainpc s) = true -> numLive s = zsum unjoined (thread s)) /\
     (mainpc s = MDone -> reaped s ≡ₚ seq 0 (length argv))) /\
  (forall k s, nsteps (gstep create_err argv) k (begin argv) s ->
     Z.of_nat k <= Z.of_nat (length argv) * Z.of_nat (length argv) + 13 * Z.of_nat (length argv) + 4 /\
     ((forall s', ~ gstep create_err argv s s') -> mainpc s = MDone /\ reaped s ≡ₚ seq 0 (length argv))).
Proof.
  intros Ha Hc. destruct (begin_inv argv) as [Hi Hp]. split.
  - intros s Hs. assert (H := astep_inv _ _ _ _ Hs Hi). destruct (j_mutex _ _ H) as [Hmm Hmt].
    split_and!; [exact (j_waiting _ _ H)|exact (j_reaped _ _ H)| | | |].
    + intros i Hr. apply (j_joined _ _ H) in Hr as ([p st sl] & Ht & Hst). cbn in Hst. subst st.
      assert (Hok := Forall_lookup_1 _ _ _ _ (j_threads _ _ H) Ht). exists sl. by destruct p.
    + intros i j t t' Ht Ht' Hcr. assert (Em : threadMutex s = Some (Thr i)) by (apply Hmt; eauto). split.
      * apply not_true_iff_false. rewrite <- Hmm, Em. done.
      * intros Hcr'. assert (Ej : threadMutex s = Some (Thr j)) by (apply Hmt; eauto). congruence.
    + intros Hh. assert (Hm := j_main _ _ H). unfold main_ok in Hm. destruct (mainpc s); try done; apply Hm.
    + by apply done_all.
  - intros k s Hk. destruct (gsteps_pot _ _ _ _ _ Hk Hi) as [H Hle]. assert (Hnn := jpot_nonneg _ _ H).
    split; [lia|]. intros Hno. assert (Hover : over (mainpc s) = true).
    { apply not_false_iff_true. intros Ho. destruct (jprogress create_err _ _ H Ho) as [s' Hs']. by apply (Hno s'). }
    assert (Hnf : mainpc s <> MError) by (eapply (no_failure create_err argv); [done|done|by eapply rtc_nsteps_2|done]).
    assert (Hd : mainpc s = MDone) by (by destruct (mainpc s)). split; [done|by apply done_all].
Qed.

Lemma multijoin_reaps_all_witness :
  getInt (Some (str "2")) GN_NONNEG = inr 2 /\
  forall k s, nsteps (gstep (fun _ => 0) [str "1"; str "2"]) k (begin [str "1"; str "2"]) s ->
    Z.of_nat k <= 34 /\
    ((forall s', ~ gstep (fun _ => 0) [str "1"; str "2"] s s') -> mainpc s = MDone /\ reaped s ≡ₚ [0%nat; 1%nat]).
Proof.
  split; [reflexivity|]. apply (multijoin_reaps_all (fun _ => 0) [str "1"; str "2"]).
  - repeat constructor; eexists; reflexivity.
  - reflexivity.
Defined.

(** A thread that cannot be created, or an argument that is not a number, ends the
    program with the threads made so far. *)
Example multijoin_create_fails :
  exists s, rtc (gstep (fun idx => if (idx =? 1)%nat then 11 else 0) [str "1"; str "2"]) (begin [str "1"; str "2"]) s /\
    mainpc s = MError /\ map pc (thread s) = [TRun; TNew].
Proof.
  eexists. split; [|split].
  - eapply rtc_l; [by apply gstep_main|]. eapply rtc_l; [by apply gstep_main|]. apply rtc_refl.
  - reflexivity.
  - reflexivity.
Qed.
