(* ===== verification/FileLocks.v ===== *)
(** * FileLocks: record locks and programs that use them.

    Programs are trees of system calls, so that processes can be interleaved call by
    call: tlpi-dist/filelock/region_locking.c and create_pid_file.c, apue.2e/lib/
    lockreg.c and locktest.c, apue.2e/daemons/lockfile.c and single.c.  The kernel's
    [fcntl] is an interface with the laws its manual page gives; a small kernel that
    keeps a list of locks implements it. *)
From S2P Require Import Prelude Libc.
Local Open Scope Z_scope.

(** ** Constants *)

Definition F_GETLK : Z := 5.
Definition F_SETLK : Z := 6.
Definition F_SETLKW : Z := 7.
Definition F_OFD_GETLK : Z := 36.
Definition F_OFD_SETLK : Z := 37.
Definition F_OFD_SETLKW : Z := 38.
Definition F_RDLCK : Z := 0.
Definition F_WRLCK : Z := 1.
Definition F_UNLCK : Z := 2.
Definition SEEK_SET : Z := 0.
Definition SEEK_CUR : Z := 1.
Definition SEEK_END : Z := 2.
Definition EAGAIN : Z := 11.
Definition EACCES : Z := 13.
Definition FD_CLOEXEC : Z := 1.
Definition CPF_CLOEXEC : Z := 1.

Record flock := mkFlock { l_type : Z; l_whence : Z; l_start : Z; l_len : Z; l_pid : Z }.

(** ** Programs as trees of system calls *)

Inductive call :=
  | Open (path : bytes)
  | GetFD (fd : Z)
  | SetFD (fd flags : Z)
  | Fcntl (fd cmd : Z) (fl : flock)
  | Ftruncate (fd len : Z)
  | Write (fd : Z) (b : bytes)
  | Close (fd : Z).

(** What a call returns: its value, errno, and the [flock] structure it leaves. *)
Record res := mkRes { rv : Z; err : Z; rfl : flock }.

(** A program returns a value (with errno), ends the process, or makes a call. *)
Inductive prog :=
  | Ret (v errno : Z)
  | Die
  | Sys (c : call) (k : res -> prog).

(** The caller of a function goes on with its value and errno. *)
Fixpoint bind (m : prog) (f : Z -> Z -> prog) : prog :=
  match m with
  | Ret v e => f v e
  | Die => Die
  | Sys c k => Sys c (fun r => bind (k r) f)
  end.

(** *** region_locking.c *)

Section Region.
Context (junk : Z).   (* the member l_pid, which is not set *)

(** The members l_type and l_whence are shorts; [start] is an int. *)
Definition lockReg (fd cmd type whence start len : Z) : prog :=
  let fl := mkFlock (wrap_s 16 type) (wrap_s 16 whence) start len junk in
  Sys (Fcntl fd cmd fl) (fun r => Ret (rv r) (err r)).

Definition lockRegion (fd type whence start len : Z) : prog := lockReg fd F_SETLK type whence start len.
Definition lockRegionWait (fd type whence start len : Z) : prog := lockReg fd F_SETLKW type whence start len.

Definition regionIsLocked (fd type whence start len : Z) : prog :=
  let fl := mkFlock (wrap_s 16 type) (wrap_s 16 whence) start len junk in
  Sys (Fcntl fd F_GETLK fl) (fun r =>
    if rv r =? -1 then Ret (-1) (err r)
    else Ret (if l_type (rfl r) =? F_UNLCK then 0 else l_pid (rfl r)) (err r)).

(** *** lockreg.c, locktest.c and lockfile.c *)

Definition lock_reg (fd cmd type offset whence len : Z) : prog :=
  let lock := mkFlock (wrap_s 16 type) (wrap_s 16 whence) offset len junk in
  Sys (Fcntl fd cmd lock) (fun r => Ret (rv r) (err r)).

Definition lock_test (fd type offset whence len : Z) : prog :=
  let lock := mkFlock (wrap_s 16 type) (wrap_s 16 whence) offset len junk in
  Sys (Fcntl fd F_GETLK lock) (fun r =>
    if rv r <? 0 then Die
    else if l_type (rfl r) =? F_UNLCK then Ret 0 (err r)
    else Ret (l_pid (rfl r)) (err r)).

Definition lockfile (fd : Z) : prog :=
  let fl := mkFlock F_WRLCK SEEK_SET 0 0 junk in
  Sys (Fcntl fd F_SETLK fl) (fun r => Ret (rv r) (err r)).

(** *** create_pid_file.c *)

Definition BUF_SIZE : nat := 100.

(** [snprintf] keeps what fits, with the NUL that ends it. *)
Definition pid_line (pid : Z) : bytes := take (BUF_SIZE - 1) (fmt_ld pid ++ [10]).

Definition createPidFile (pid : Z) (pidFile : bytes) (flags : Z) : prog :=
  let locked fd :=
    Sys (Ftruncate fd 0) (fun r =>
      if rv r =? -1 then Die
      else
        let buf := pid_line pid in
        Sys (Write fd buf) (fun r =>
          if negb (rv r =? Z.of_nat (length buf)) then Die else Ret fd (err r))) in
  let lock fd := bind (lockRegion fd F_WRLCK SEEK_SET 0 0) (fun v e => if v =? -1 then Die else locked fd) in
  Sys (Open pidFile) (fun r =>
    let fd := rv r in
    if fd =? -1 then Die
    else if negb (Z.land flags CPF_CLOEXEC =? 0) then
      Sys (GetFD fd) (fun r =>
        if rv r =? -1 then Die
        else Sys (SetFD fd (Z.lor (rv r) FD_CLOEXEC)) (fun r => if rv r =? -1 then Die else lock fd))
    else lock fd).

(** *** single.c *)

Definition LOCKFILE : bytes := str "/var/run/daemon.pid".

Definition already_running (pid : Z) : prog :=
  Sys (Open LOCKFILE) (fun r =>
    let fd := rv r in
    if fd <? 0 then Die
    else
      bind (lockfile fd) (fun v e =>
        if v <? 0 then
          if (e =? EACCES) || (e =? EAGAIN) then Sys (Close fd) (fun r => Ret 1 (err r)) else Die
        else
          Sys (Ftruncate fd 0) (fun _ =>
            Sys (Write fd (fmt_ld pid ++ [0])) (fun r => Ret 0 (err r))))).

End Region.

(** ** The kernel *)

(** The bytes a request from the start of the file is about: length 0 means to the
    end, however far the file grows. *)
Definition region (fl : flock) (b : Z) : Prop :=
  l_start fl <= b /\ (l_len fl = 0 \/ b < l_start fl + l_len fl).

(** Locks of two processes on one byte that exclude each other. *)
Definition incompatible (t t' : Z) : Prop :=
  (t = F_WRLCK /\ (t' = F_RDLCK \/ t' = F_WRLCK)) \/ (t = F_RDLCK /\ t' = F_WRLCK).

Definition from_start (fl : flock) : Prop := l_whence fl = SEEK_SET /\ 0 <= l_start fl /\ 0 <= l_len fl.

(** What the manual page of [fcntl] says of locks, and those of [open], [close] and
    [_exit] of their effect on them.  [holds w f p b t]: in [w] process [p] has a lock
    of type [t] on byte [b] of file [f]. *)
Class RecordLocks (W : Type) := {
  fcntl : Z -> Z -> Z -> flock -> W -> res * W;
  kopen : Z -> bytes -> W -> res * W;
  kclose : Z -> Z -> W -> res * W;
  kexit : Z -> W -> W;
  holds : W -> bytes -> Z -> Z -> Z -> Prop;
  fd_file : W -> Z -> Z -> option bytes;
  conflict (w : W) (f : bytes) (p : Z) (fl : flock) (q : Z) : Prop :=
    q <> p /\ exists b t, region fl b /\ holds w f q b t /\ incompatible (l_type fl) t;
  setlk_ok : forall p fd cmd fl w r w' f, cmd = F_SETLK \/ cmd = F_SETLKW -> from_start fl ->
    fd_file w p fd = Some f -> fcntl p fd cmd fl w = (r, w') -> rv r <> -1 ->
    (forall q, ~ conflict w f p fl q) /\
    (forall g q b t, holds w' g q b t <->
       (g = f /\ q = p /\ region fl b /\ t = l_type fl /\ t <> F_UNLCK) \/
       (~ (g = f /\ q = p /\ region fl b) /\ holds w g q b t));
  setlk_fail : forall p fd cmd fl w r w', fcntl p fd cmd fl w = (r, w') -> rv r = -1 ->
    forall g q b t, holds w' g q b t <-> holds w g q b t;
  setlk_busy : forall p fd fl w r w' f, from_start fl -> fd_file w p fd = Some f ->
    fcntl p fd F_SETLK fl w = (r, w') -> rv r = -1 -> err r = EAGAIN \/ err r = EACCES ->
    exists q, conflict w f p fl q;
  getlk_ok : forall p fd fl w r w' f, from_start fl -> l_type fl <> F_UNLCK -> fd_file w p fd = Some f ->
    fcntl p fd F_GETLK fl w = (r, w') -> rv r <> -1 ->
    (forall g q b t, holds w' g q b t <-> holds w g q b t) /\
    (l_type (rfl r) = F_UNLCK -> forall q, ~ conflict w f p fl q) /\
    (l_type (rfl r) <> F_UNLCK -> conflict w f p fl (l_pid (rfl r)));
  fcntl_rv : forall p fd cmd fl w r w', fcntl p fd cmd fl w = (r, w') -> rv r = -1 \/ 0 <= rv r;
  fcntl_fds : forall p fd cmd fl w r w' q e, fcntl p fd cmd fl w = (r, w') -> fd_file w' q e = fd_file w q e;
  kopen_ok : forall p path w r w', kopen p path w = (r, w') ->
    (forall g q b t, holds w' g q b t <-> holds w g q b t) /\
    (rv r = -1 \/ 0 <= rv r /\ fd_file w' p (rv r) = Some path) /\
    (forall q e f, fd_file w q e = Some f -> fd_file w' q e = Some f);
  kclose_ok : forall p fd w r w' f, kclose p fd w = (r, w') -> fd_file w p fd = Some f ->
    (forall g q b t, holds w' g q b t <-> holds w g q b t /\ (q = p -> g <> f)) /\
    (forall q e, q <> p -> fd_file w' q e = fd_file w q e);
  kexit_ok : forall p w,
    (forall g q b t, holds (kexit p w) g q b t <-> holds w g q b t /\ q <> p) /\
    (forall q e, q <> p -> fd_file (kexit p w) q e = fd_file w q e);
}.

(** ** A small kernel with record locks *)

(** A lock of a process on the bytes of a file from [e_start] to before [e_end]. *)
Record entry := mkEntry { e_file : bytes; e_pid : Z; e_type : Z; e_start : Z; e_end : option Z }.

Record toy := mkToy { t_fds : gmap (Z * Z) bytes; t_next : Z; t_locks : list entry }.

Definition before (b : Z) (e : option Z) : bool := match e with Some z => b <? z | None => true end.
Definition covers (e : entry) (b : Z) : Prop := e_start e <= b /\ before b (e_end e) = true.

Definition fl_end (fl : flock) : option Z := if l_len fl =? 0 then None else Some (l_start fl + l_len fl).

Definition omin (e e' : option Z) : option Z :=
  match e, e' with Some a, Some b => Some (Z.min a b) | Some a, None => Some a | None, x => x end.

(** What is left of a lock when a region is taken out of it. *)
Definition subtract (fl : flock) (e : entry) : list entry :=
  mkEntry (e_file e) (e_pid e) (e_type e) (e_start e) (omin (e_end e) (Some (l_start fl))) ::
  match fl_end fl with
  | Some z => [mkEntry (e_file e) (e_pid e) (e_type e) (Z.max (e_start e) z) (e_end e)]
  | None => []
  end.

Definition owned (f : bytes) (p : Z) (e : entry) : bool := bool_decide (e_file e = f) && (e_pid e =? p).

Definition incompatible_b (t t' : Z) : bool :=
  ((t =? F_WRLCK) && ((t' =? F_RDLCK) || (t' =? F_WRLCK))) || ((t =? F_RDLCK) && (t' =? F_WRLCK)).

Definition nonempty (a : Z) (e : option Z) : bool := match e with Some z => a <? z | None => true end.

(** Locks of others that keep [p] from the region. *)
Definition blocks (f : bytes) (p : Z) (fl : flock) (e : entry) : bool :=
  bool_decide (e_file e = f) && negb (e_pid e =? p) && incompatible_b (l_type fl) (e_type e) &&
  nonempty (Z.max (l_start fl) (e_start e)) (omin (fl_end fl) (e_end e)).

Definition set_locks (w : toy) (l : list entry) : toy := mkToy (t_fds w) (t_next w) l.

Definition take_lock (f : bytes) (p : Z) (fl : flock) (l : list entry) : list entry :=
  (if l_type fl =? F_UNLCK then [] else [mkEntry f p (l_type fl) (l_start fl) (fl_end fl)]) ++
  concat (map (fun e => if owned f p e then subtract fl e else [e]) l).

Definition toy_fcntl (p fd cmd : Z) (fl : flock) (w : toy) : res * toy :=
  match t_fds w !! (p, fd) with
  | None => (mkRes (-1) 9 fl, w)
  | Some f =>
      let found := filter (fun e => blocks f p fl e = true) (t_locks w) in
      if cmd =? F_GETLK then
        match found with
        | [] => (mkRes 0 0 (mkFlock F_UNLCK (l_whence fl) (l_start fl) (l_len fl) (l_pid fl)), w)
        | e :: _ =>
            (mkRes 0 0 (mkFlock (e_type e) SEEK_SET (e_start e)
                          (match e_end e with Some z => z - e_start e | None => 0 end) (e_pid e)), w)
        end
      else if (cmd =? F_SETLK) || (cmd =? F_SETLKW) then
        match found with
        | [] => (mkRes 0 0 fl, set_locks w (take_lock f p fl (t_locks w)))
        | _ => (mkRes (-1) EAGAIN fl, w)
        end
      else (mkRes (-1) 22 fl, w)
  end.

Definition no_fl : flock := mkFlock 0 0 0 0 0.

Definition toy_open (p : Z) (path : bytes) (w : toy) : res * toy :=
  let fd := Z.max 0 (t_next w) in
  match t_fds w !! (p, fd) with
  | Some _ => (mkRes (-1) 24 no_fl, w)
  | None => (mkRes fd 0 no_fl, mkToy (<[(p, fd) := path]> (t_fds w)) (fd + 1) (t_locks w))
  end.

Definition toy_close (p fd : Z) (w : toy) : res * toy :=
  match t_fds w !! (p, fd) with
  | None => (mkRes (-1) 9 no_fl, w)
  | Some f => (mkRes 0 0 no_fl, mkToy (delete (p, fd) (t_fds w)) (t_next w)
                                 (filter (fun e => owned f p e = false) (t_locks w)))
  end.

Definition toy_exit (p : Z) (w : toy) : toy :=
  mkToy (filter (fun kv => kv.1.1 <> p) (t_fds w)) (t_next w) (filter (fun e => (e_pid e =? p) = false) (t_locks w)).

Definition toy_holds (w : toy) (f : bytes) (p b t : Z) : Prop :=
  exists e, e ∈ t_locks w /\ e_file e = f /\ e_pid e = p /\ e_type e = t /\ covers e b.

(** ** The laws *)

Lemma fl_end_region fl b : from_start fl -> region fl b <-> l_start fl <= b /\ before b (fl_end fl) = true.
Proof.
  intros (_ & _ & Hl). unfold region, fl_end. destruct (Z.eqb_spec (l_len fl) 0) as [->|Hn]; cbn.
  - tauto.
  - rewrite Z.ltb_lt. intuition lia.
Qed.

Lemma before_omin b e e' : before b (omin e e') = before b e && before b e'.
Proof.
  destruct e as [x|], e' as [y|]; cbn; rewrite ?andb_true_r; try done.
  destruct (Z.ltb_spec b x), (Z.ltb_spec b y), (Z.ltb_spec b (Z.min x y)); cbn; try done; lia.
Qed.

Lemma incompatible_spec t t' : incompatible_b t t' = true <-> incompatible t t'.
Proof.
  unfold incompatible_b, incompatible. rewrite orb_true_iff, !andb_true_iff, orb_true_iff, !Z.eqb_eq. tauto.
Qed.

Lemma owned_spec f p e : owned f p e = true <-> e_file e = f /\ e_pid e = p.
Proof. unfold owned. by rewrite andb_true_iff, bool_decide_eq_true, Z.eqb_eq. Qed.

(** Two ranges that share a byte. *)
Lemma nonempty_spec a e : nonempty a e = true <-> exists b, a <= b /\ before b e = true.
Proof.
  unfold nonempty, before. destruct e as [z|]; [|split; [by exists a|done]].
  rewrite Z.ltb_lt. split; [intros; exists a; rewrite Z.ltb_lt; lia|intros (b & ? & ?%Z.ltb_lt); lia].
Qed.

Lemma blocks_spec f p fl e :
  from_start fl ->
  blocks f p fl e = true <->
  e_file e = f /\ e_pid e <> p /\ incompatible (l_type fl) (e_type e) /\ exists b, region fl b /\ covers e b.
Proof.
  intros Hf. unfold blocks. rewrite !andb_true_iff, bool_decide_eq_true, negb_true_iff, Z.eqb_neq, incompatible_spec.
  rewrite nonempty_spec.
  assert (Hb : (exists b, Z.max (l_start fl) (e_start e) <= b /\ before b (omin (fl_end fl) (e_end e)) = true) <->
    exists b, region fl b /\ covers e b).
  { split; intros (b & H); exists b; revert H; rewrite fl_end_region, before_omin, andb_true_iff by done; unfold covers;
      intuition lia. }
  rewrite Hb. tauto.
Qed.

(** The bytes that are left are those out of the region. *)
Lemma subtract_spec fl e b :
  from_start fl ->
  (exists e', e' ∈ subtract fl e /\ e_file e' = e_file e /\ e_pid e' = e_pid e /\ e_type e' = e_type e /\ covers e' b) <->
  covers e b /\ ~ region fl b.
Proof.
  intros Hf. rewrite fl_end_region by done. unfold subtract, covers. split.
  - intros (e' & He & _ & _ & _ & Hs & Hb). apply elem_of_cons in He as [->|He]; cbn in Hs, Hb.
    + rewrite before_omin, andb_true_iff in Hb. destruct Hb as [Hb Hl%Z.ltb_lt]. split; [done|lia].
    + destruct (fl_end fl) as [z|] eqn:Ez; [|by apply elem_of_nil in He].
      apply list_elem_of_singleton in He as ->. cbn in Hs, Hb. split; [split; [lia|done]|].
      intros [_ Hz]. cbn in Hz. apply Z.ltb_lt in Hz. lia.
  - intros [[Hs Hb] Hn]. destruct (decide (b < l_start fl)) as [Hl|Hl].
    + eexists. split; [apply elem_of_cons; by left|]. cbn. split_and!; [done..|].
      rewrite before_omin, Hb. cbn. by apply Z.ltb_lt.
    + destruct (fl_end fl) as [z|]; [|exfalso; apply Hn; split; [lia|done]].
      eexists. split; [apply elem_of_cons; right; by apply list_elem_of_singleton|]. cbn. split_and!; try done.
      destruct (Z.ltb_spec b z); [|lia]. exfalso. apply Hn. cbn. split; [lia|by apply Z.ltb_lt].
Qed.

Lemma subtract_owner fl e e' : e' ∈ subtract fl e -> e_file e' = e_file e /\ e_pid e' = e_pid e /\ e_type e' = e_type e.
Proof.
  unfold subtract. intros [->|H]%elem_of_cons; [done|].
  destruct (fl_end fl); [by apply list_elem_of_singleton in H as ->|by apply elem_of_nil in H].
Qed.

Lemma take_lock_spec f p fl w g q b t :
  from_start fl ->
  toy_holds (set_locks w (take_lock f p fl (t_locks w))) g q b t <->
  (g = f /\ q = p /\ region fl b /\ t = l_type fl /\ t <> F_UNLCK) \/
  (~ (g = f /\ q = p /\ region fl b) /\ toy_holds w g q b t).
Proof.
  intros Hf. unfold toy_holds, take_lock. cbn [t_locks set_locks]. split.
  - intros (e & He & <- & <- & <- & Hc). apply elem_of_app in He as [He|He].
    + left. destruct (Z.eqb_spec (l_type fl) F_UNLCK) as [Hu|Hu]; [by apply elem_of_nil in He|].
      apply list_elem_of_singleton in He as ->. split_and!; try done. by apply fl_end_region.
    + right. apply list_elem_of_In, in_concat in He as (l & Hl & He). apply in_map_iff in Hl as (e0 & <- & H0).
      apply list_elem_of_In in H0, He. destruct (owned f p e0) eqn:Eo.
      * apply owned_spec in Eo. destruct (subtract_owner _ _ _ He) as (E1 & E2 & E3).
        destruct (proj1 (subtract_spec fl e0 b Hf)) as [Hc0 Hr]; [by exists e|].
        split; [tauto|]. exists e0. by rewrite E1, E2, E3.
      * apply list_elem_of_singleton in He as ->. split; [|by exists e0].
        intros (H1 & H2 & _). apply not_true_iff_false in Eo. apply Eo. by apply owned_spec.
  - intros [(-> & -> & Hr & -> & Hu)|[Hn (e & He & <- & <- & <- & Hc)]].
    + eexists. split; [apply elem_of_app; left|].
      { rewrite (proj2 (Z.eqb_neq _ _) Hu). by apply list_elem_of_singleton. }
      cbn. split_and!; [done..|]. by apply fl_end_region in Hr.
    + destruct (owned f p e) eqn:Eo.
      * destruct (proj2 (subtract_spec fl e b Hf)) as (e' & He' & E1 & E2 & E3 & Hc').
        { split; [done|]. intros Hr. apply Hn. by apply owned_spec in Eo as [-> ->]. }
        exists e'. split; [|done]. apply elem_of_app; right. apply list_elem_of_In, in_concat.
        exists (subtract fl e). split; [|by apply list_elem_of_In]. apply in_map_iff. exists e.
        rewrite Eo. split; [done|by apply list_elem_of_In].
      * exists e. split; [|done]. apply elem_of_app; right. apply list_elem_of_In, in_concat.
        exists [e]. split; [|by left]. apply in_map_iff. exists e. rewrite Eo. split; [done|by apply list_elem_of_In].
Qed.

Lemma blocks_conflict w f p fl e :
  from_start fl -> e ∈ t_locks w -> blocks f p fl e = true ->
  e_pid e <> p /\ exists b t, region fl b /\ toy_holds w f (e_pid e) b t /\ incompatible (l_type fl) t.
Proof.
  intros Hf He Hb. apply blocks_spec in Hb as (Hfi & Hp & Hi & b & Hr & Hc); [|done].
  split; [done|]. exists b, (e_type e). split_and!; [done| |done]. exists e. by rewrite Hfi.
Qed.

Lemma no_blocks w f p fl q :
  from_start fl -> filter (fun e => blocks f p fl e = true) (t_locks w) = [] ->
  ~ (q <> p /\ exists b t, region fl b /\ toy_holds w f q b t /\ incompatible (l_type fl) t).
Proof.
  intros Hf Hn (Hq & b & t & Hr & (e & He & E1 & E2 & E3 & Hc) & Hi).
  assert (Hin : e ∈ filter (fun e => blocks f p fl e = true) (t_locks w)).
  { apply list_elem_of_filter. split; [|done]. apply blocks_spec; [done|]. rewrite E2, E3. split_and!; [done..|by exists b]. }
  rewrite Hn in Hin. by apply elem_of_nil in Hin.
Qed.

#[export] Program Instance toy_locks : RecordLocks toy := {|
  fcntl := toy_fcntl; kopen := toy_open; kclose := toy_close; kexit := toy_exit;
  holds := toy_holds; fd_file := fun w p fd => t_fds w !! (p, fd) |}.
Next Obligation.
  intros p fd cmd fl w r w' f Hcmd Hf Hfd E Hr. unfold toy_fcntl in E. rewrite Hfd in E.
  destruct (Z.eqb_spec cmd F_GETLK) as [->|_]; [by destruct Hcmd as [Hc|Hc]|].
  replace ((cmd =? F_SETLK) || (cmd =? F_SETLKW)) with true in E by (by destruct Hcmd as [-> | ->]).
  destruct (filter _ _) as [|e l] eqn:Ef; injection E as <- <-; [|done]. split.
  - intros q. by apply no_blocks.
  - intros g q b t. by apply take_lock_spec.
Qed.
Next Obligation.
  intros p fd cmd fl w r w' E Hr g q b t. unfold toy_fcntl in E.
  destruct (t_fds w !! (p, fd)) as [f|]; [|by injection E as <- <-].
  destruct (cmd =? F_GETLK); [by destruct (filter _ _); injection E as <- <-|].
  destruct (_ || _); [|by injection E as <- <-]. destruct (filter _ _); injection E as <- <-; done.
Qed.
Next Obligation.
  intros p fd fl w r w' f Hf Hfd E Hr He. unfold toy_fcntl in E. rewrite Hfd in E.
  cbn [Z.eqb F_SETLK F_GETLK F_SETLKW Pos.eqb orb] in E.
  destruct (filter _ _) as [|e l] eqn:Ef; injection E as <- <-; [done|].
  assert (Hin : e ∈ filter (fun e => blocks f p fl e = true) (t_locks w)) by (rewrite Ef; by left).
  apply list_elem_of_filter in Hin as [Hb Hin]. exists (e_pid e). by eapply blocks_conflict.
Qed.
Next Obligation.
  intros p fd fl w r w' f Hf Ht Hfd E Hr. unfold toy_fcntl in E. rewrite Hfd in E.
  cbn [Z.eqb F_GETLK Pos.eqb] in E.
  destruct (filter _ _) as [|e l] eqn:Ef; injection E as <- <-; cbn.
  - split_and!; [done| |done]. intros _ q. by apply no_blocks.
  - assert (Hin : e ∈ filter (fun e => blocks f p fl e = true) (t_locks w)) by (rewrite Ef; by left).
    apply list_elem_of_filter in Hin as [Hb Hin]. split_and!; [done| |].
    + intros Hu. apply blocks_spec in Hb as (_ & _ & Hi & _); [|done]. rewrite Hu in Hi. by destruct Hi as [[_ [|]]|[_ ?]].
    + intros _. by eapply blocks_conflict.
Qed.
Next Obligation.
  intros p fd cmd fl w r w' E. unfold toy_fcntl in E.
  destruct (t_fds w !! (p, fd)) as [f|]; [|injection E as <- <-; by left].
  destruct (cmd =? F_GETLK); [destruct (filter _ _); injection E as <- <-; by right|].
  destruct (_ || _); [|injection E as <- <-; by left]. destruct (filter _ _); injection E as <- <-; [by right|by left].
Qed.
Next Obligation.
  intros p fd cmd fl w r w' q e E. unfold toy_fcntl in E.
  destruct (t_fds w !! (p, fd)) as [f|]; [|by injection E as <- <-].
  destruct (cmd =? F_GETLK); [by destruct (filter _ _); injection E as <- <-|].
  destruct (_ || _); [|by injection E as <- <-]. destruct (filter _ _); injection E as <- <-; done.
Qed.
Next Obligation.
  intros p path w r w' E. unfold toy_open in E. destruct (t_fds w !! (p, Z.max 0 (t_next w))) eqn:Ew; injection E as <- <-.
  - split_and!; [done|by left|done].
  - split_and!; [done| |].
    + right. cbn. split; [lia|]. apply lookup_insert_eq.
    + intros q e f H. cbn. rewrite lookup_insert_ne; [done|]. congruence.
Qed.
Next Obligation.
  intros p fd w r w' f E Hf. unfold toy_close in E. rewrite Hf in E. injection E as <- <-. split.
  - intros g q b t. unfold toy_holds. cbn [t_locks]. split.
    + intros (e & [Ho He]%list_elem_of_filter & <- & <- & Hrest). split; [by exists e|].
      intros Hp Hg. apply not_true_iff_false in Ho. apply Ho. by apply owned_spec.
    + intros [(e & He & <- & <- & Hrest) Hn]. exists e. split; [|done]. apply list_elem_of_filter. split; [|done].
      apply not_true_iff_false. rewrite owned_spec. intros [Hg Hp]. by apply Hn.
  - intros q e Hq. cbn. apply lookup_delete_ne. congruence.
Qed.
Next Obligation.
  intros p w. split.
  - intros g q b t. unfold toy_holds. cbn [t_locks toy_exit]. split.
    + intros (e & [Ho%Z.eqb_neq He]%list_elem_of_filter & <- & <- & Hrest). split; [by exists e|done].
    + intros [(e & He & <- & <- & Hrest) Hn]. exists e. split; [|done]. apply list_elem_of_filter.
      split; [by apply Z.eqb_neq|done].
  - intros q e Hq. cbn. apply option_eq. intros f. rewrite map_lookup_filter_Some. naive_solver.
Qed.
