(* ===== verification/PidFile.v ===== *)
(** * PidFile: processes that make sure they are the only ones of their kind.

    Any number of processes run [createPidFile] or [already_running] on one file;
    their system calls interleave, each call may fail, and a process may end at any
    point.  The kernel is any that keeps the laws of [RecordLocks]. *)
From S2P Require Import Prelude Libc FileLocks.
Local Open Scope Z_scope.

Inductive kind := CPF (flags : Z) | AR.

Section System.
Context {W : Type} {K : RecordLocks W} (path : bytes) (junk : Z).

(** What a process runs; [already_running] has one fixed file. *)
Definition code (p : Z) (k : kind) : prog :=
  match k with CPF flags => createPidFile junk p path flags | AR => already_running junk p end.
Definition allowed (k : kind) : Prop := match k with CPF _ => True | AR => path = LOCKFILE end.

(** The kernel, the bytes of the file, and what each process has left to do. *)
Record sys := mkSys { kern : W; content : bytes; procs : gmap Z (kind * prog) }.

Definition resize (len : Z) (c : bytes) : bytes :=
  take (Z.to_nat len) c ++ replicate (Z.to_nat len - length c) 0.

(** The effect of a call of process [p] on the kernel and the file.  A process
    writes once to a descriptor it has opened, so at offset 0. *)
Inductive call_step (p : Z) (w : W) (c : bytes) : call -> res -> W -> bytes -> Prop :=
| do_open f r w' : kopen p f w = (r, w') -> call_step p w c (Open f) r w' c
| do_getfd fd r : call_step p w c (GetFD fd) r w c
| do_setfd fd fl r : call_step p w c (SetFD fd fl) r w c
| do_fcntl fd cmd fl r w' : fcntl p fd cmd fl w = (r, w') -> call_step p w c (Fcntl fd cmd fl) r w' c
| do_truncate fd len r :
    rv r = 0 -> fd_file w p fd = Some path -> call_step p w c (Ftruncate fd len) r w (resize len c)
| no_truncate fd len r : rv r = -1 -> call_step p w c (Ftruncate fd len) r w c
| do_write fd b n r :
    rv r = Z.of_nat n -> (n <= length b)%nat -> fd_file w p fd = Some path ->
    call_step p w c (Write fd b) r w (take n b ++ drop n c)
| no_write fd b r : rv r = -1 -> call_step p w c (Write fd b) r w c
| do_close fd r w' : kclose p fd w = (r, w') -> call_step p w c (Close fd) r w' c.

Inductive pstep (s : sys) : sys -> Prop :=
| step_call p k c f r w' b' :
    procs s !! p = Some (k, Sys c f) -> call_step p (kern s) (content s) c r w' b' ->
    pstep s (mkSys w' b' (<[p := (k, f r)]> (procs s)))
| step_start p k :
    procs s !! p = None -> allowed k -> pstep s (mkSys (kern s) (content s) (<[p := (k, code p k)]> (procs s)))
| step_exit p x :
    procs s !! p = Some x -> pstep s (mkSys (kexit p (kern s)) (content s) (delete p (procs s))).

(** A process that goes on as the only instance. *)
Definition running (s : sys) (p : Z) : Prop :=
  match procs s !! p with
  | Some (CPF _, Ret _ _) => True
  | Some (AR, Ret v _) => v = 0
  | _ => False
  end.

(** ** What a process does, call by call *)

(** When the process returns. *)
Definition post (p : Z) (k : kind) (h : bool) (c : bytes) (v : Z) : Prop :=
  match k with
  | CPF _ => h = true /\ c = pid_line p
  | AR => v = 0 -> h = true
  end.

(** [fdo]: the descriptor of the file; [h]: whether the process has the lock; [c]:
    what the file holds, while it has. *)
Fixpoint safe (p : Z) (k : kind) (fdo : option Z) (h : bool) (c : bytes) (m : prog) : Prop :=
  match m with
  | Ret v _ => post p k h c v
  | Die => True
  | Sys cl f =>
      match cl with
      | Open g =>
          g = path /\ h = false /\
          forall r, (rv r = -1 -> safe p k fdo h c (f r)) /\ (0 <= rv r -> safe p k (Some (rv r)) h c (f r))
      | GetFD _ | SetFD _ _ => forall r, safe p k fdo h c (f r)
      | Fcntl fd cmd fl =>
          fdo = Some fd /\ h = false /\ cmd = F_SETLK /\
          (exists pid, fl = mkFlock F_WRLCK SEEK_SET 0 0 pid) /\
          forall r, (rv r = -1 -> safe p k fdo false c (f r)) /\
                    (0 <= rv r -> forall c', safe p k fdo true c' (f r))
      | Ftruncate fd len =>
          fdo = Some fd /\ h = true /\ len = 0 /\
          forall r, (rv r = -1 -> safe p k fdo h c (f r)) /\ (rv r = 0 -> safe p k fdo h [] (f r))
      | Write fd b =>
          fdo = Some fd /\ h = true /\
          forall r, (rv r = -1 -> safe p k fdo h c (f r)) /\
            forall n, rv r = Z.of_nat n -> (n <= length b)%nat -> safe p k fdo h (take n b ++ drop n c) (f r)
      | Close fd => fdo = Some fd /\ h = false /\ forall r, safe p k None h c (f r)
      end
  end.

Lemma createPidFile_safe p flags c : safe p (CPF flags) None false c (createPidFile junk p path flags).
Proof.
  assert (Hlock : forall fd, safe p (CPF flags) (Some fd) false c
    (bind (lockRegion junk fd F_WRLCK SEEK_SET 0 0) (fun v _ =>
       if v =? -1 then Die
       else Sys (Ftruncate fd 0) (fun r => if rv r =? -1 then Die
              else Sys (Write fd (pid_line p)) (fun r =>
                if negb (rv r =? Z.of_nat (length (pid_line p))) then Die else Ret fd (err r)))))).
  { intros fd. cbn -[pid_line]. split_and!; [done|done|done|by exists junk|]. intros r. split; [by intros ->|].
    intros Hr c'. rewrite (proj2 (Z.eqb_neq (rv r) (-1))) by lia. cbn -[pid_line]. split_and!; [done|done|done|].
    clear r Hr. intros r. split; [by intros ->|]. intros ->. cbn -[pid_line]. split_and!; [done|done|].
    clear r. intros r. split.
    - intros ->. by destruct (_ =? _) eqn:E; [apply Z.eqb_eq in E; lia|].
    - intros n Hn Hle. rewrite Hn. destruct (Z.eqb_spec (Z.of_nat n) (Z.of_nat (length (pid_line p)))) as [E|E]; [|done].
      cbn -[pid_line]. split; [done|]. rewrite drop_nil, app_nil_r. apply take_ge. lia. }
  cbn [createPidFile safe]. split_and!; [done|done|]. intros r. split; [by intros ->|]. intros Hr.
  rewrite (proj2 (Z.eqb_neq (rv r) (-1))) by lia.
  destruct (negb (Z.land flags CPF_CLOEXEC =? 0)); [|apply Hlock].
  intros r'. destruct (rv r' =? -1); [done|]. intros r''. destruct (rv r'' =? -1); [done|apply Hlock].
Qed.

Lemma already_running_safe p c : path = LOCKFILE -> safe p AR None false c (already_running junk p).
Proof.
  intros Hp. cbn -[LOCKFILE]. split_and!; [done|done|]. intros r. split; [by intros ->|]. intros Hr.
  rewrite (proj2 (Z.ltb_ge _ _) Hr). cbn. split_and!; [done|done|done|by exists junk|]. intros r'. split.
  - intros ->. cbn. destruct (_ || _); [|done]. cbn. by split_and!.
  - intros Hr' c'. rewrite (proj2 (Z.ltb_ge _ _) Hr'). cbn. split_and!; [done..|]. intros r2.
    split; intros _; cbn; (split_and!; [done..|]); intros r3; by split.
Qed.

Lemma code_safe p k c : allowed k -> safe p k None false c (code p k).
Proof. destruct k; intros H; [apply createPidFile_safe|by apply already_running_safe]. Qed.

(** ** The invariant *)

(** A process that has the lock, and the file as it left it. *)
Definition owner (w : W) (p : Z) : Prop := forall b, 0 <= b -> holds w path p b F_WRLCK.

Definition proc_inv (w : W) (c : bytes) (p : Z) (x : kind * prog) : Prop :=
  exists fdo h c0, safe p x.1 fdo h c0 x.2 /\
    (forall fd, fdo = Some fd -> fd_file w p fd = Some path) /\
    (h = true -> c0 = c /\ owner w p).

Record pinv (s : sys) : Prop := {
  p_procs : map_Forall (proc_inv (kern s) (content s)) (procs s);
  p_excl : forall p q b t, holds (kern s) path p b F_WRLCK -> holds (kern s) path q b t ->
             t = F_RDLCK \/ t = F_WRLCK -> p = q;
}.

Lemma owner_unique s p q : pinv s -> owner (kern s) p -> owner (kern s) q -> p = q.
Proof. intros H Hp Hq. eapply (p_excl _ H p q 0); [by apply Hp|by apply Hq|by right]. Qed.

(** Processes other than the one that made a call. *)
Lemma proc_inv_other w w' c c' p q x :
  proc_inv w c q x -> q <> p ->
  (forall e, fd_file w q e = Some path -> fd_file w' q e = Some path) ->
  (forall b, holds w path q b F_WRLCK -> holds w' path q b F_WRLCK) ->
  c' = c \/ ~ owner w q -> proc_inv w' c' q x.
Proof.
  intros (fdo & h & c0 & Hs & Hfd & Hh) Hq Hf Hl Hc. exists fdo, h, c0. split_and!; [done| |].
  - intros fd E. by apply Hf, Hfd.
  - intros E. destruct (Hh E) as [-> Ho]. destruct Hc as [->|Hc]; [|done]. split; [done|].
    intros b Hb. by apply Hl, Ho.
Qed.

(** Locks after a step: none but those of [p] may have changed, to be held on the whole file. *)
Lemma excl_grown (w w' : W) p :
  (forall p q b t, holds w path p b F_WRLCK -> holds w path q b t -> t = F_RDLCK \/ t = F_WRLCK -> p = q) ->
  (forall q, q <> p -> forall b t, t = F_RDLCK \/ t = F_WRLCK -> 0 <= b -> ~ holds w path q b t) ->
  (forall q b t, holds w' path q b t -> (q = p /\ 0 <= b) \/ holds w path q b t) ->
  forall q1 q2 b t, holds w' path q1 b F_WRLCK -> holds w' path q2 b t -> t = F_RDLCK \/ t = F_WRLCK -> q1 = q2.
Proof.
  intros He Hno Hw q1 q2 b t H1 H2 Ht. apply Hw in H1, H2.
  destruct (decide (q1 = p)) as [->|N1], (decide (q2 = p)) as [->|N2]; try done.
  - destruct H2 as [[? ?]|H2]; [done|]. destruct H1 as [[_ Hb]|H1]; [|by eapply He]. by edestruct (Hno q2 N2 b t).
  - destruct H1 as [[? ?]|H1]; [done|]. destruct H2 as [[_ Hb]|H2]; [|by eapply He].
    edestruct (Hno q1 N1 b F_WRLCK); [by right|done|done].
  - destruct H1 as [[? ?]|H1]; [done|]. destruct H2 as [[? ?]|H2]; [done|]. by eapply He.
Qed.

(** A step of process [p] that leaves the file alone, or one of the owner. *)
Lemma pinv_step s p k m' w' c' :
  pinv s ->
  proc_inv w' c' p (k, m') ->
  (forall q e, q <> p -> fd_file (kern s) q e = Some path -> fd_file w' q e = Some path) ->
  (forall q b t, q <> p -> holds (kern s) path q b t -> holds w' path q b t) ->
  (forall q1 q2 b t, holds w' path q1 b F_WRLCK -> holds w' path q2 b t -> t = F_RDLCK \/ t = F_WRLCK -> q1 = q2) ->
  c' = content s \/ owner (kern s) p ->
  pinv (mkSys w' c' (<[p := (k, m')]> (procs s))).
Proof.
  intros H Hp Hf Hl He Hc. split; cbn; [|done]. intros q x Hq.
  apply lookup_insert_Some in Hq as [[<- <-]|[N Hq]]; [done|].
  eapply proc_inv_other; [exact (p_procs _ H q x Hq)|done|by intros e; apply Hf|by intros b; apply Hl|].
  destruct Hc as [Hc|Hc]; [by left|]. right. intros Hq'. by apply N, (owner_unique s).
Qed.

(** A step that changes neither locks nor, for other processes, descriptors. *)
Lemma pinv_quiet s p k m' w' c' :
  pinv s ->
  (forall q b t, holds w' path q b t <-> holds (kern s) path q b t) ->
  (forall q e, q <> p -> fd_file (kern s) q e = Some path -> fd_file w' q e = Some path) ->
  proc_inv w' c' p (k, m') -> c' = content s \/ owner (kern s) p ->
  pinv (mkSys w' c' (<[p := (k, m')]> (procs s))).
Proof.
  intros H Hw Hf Hp Hc. eapply pinv_step; [done|done|done|by intros; apply Hw| |done].
  intros q1 q2 b t H1 H2. apply Hw in H1, H2. by eapply (p_excl _ H).
Qed.

Lemma owner_same (w w' : W) p : (forall q b t, holds w' path q b t <-> holds w path q b t) -> owner w p -> owner w' p.
Proof. intros Hw Ho b Hb. by apply Hw, Ho. Qed.

(** Taking the lock on the whole file. *)
Lemma pinv_locked s p k f fd pid r w' :
  pinv s -> fd_file (kern s) p fd = Some path ->
  fcntl p fd F_SETLK (mkFlock F_WRLCK SEEK_SET 0 0 pid) (kern s) = (r, w') -> 0 <= rv r ->
  (forall c', safe p k (Some fd) true c' (f r)) ->
  pinv (mkSys w' (content s) (<[p := (k, f r)]> (procs s))).
Proof.
  intros H Hfd E Hr Hs.
  assert (Hst : from_start (mkFlock F_WRLCK SEEK_SET 0 0 pid)) by (unfold from_start; cbn; lia).
  destruct (setlk_ok _ _ _ _ _ _ _ _ (or_introl eq_refl) Hst Hfd E) as [Hno Hw]; [lia|].
  assert (Hfds : forall q e, fd_file w' q e = fd_file (kern s) q e) by (intros q e; by eapply fcntl_fds).
  assert (Hreg : forall b, region (mkFlock F_WRLCK SEEK_SET 0 0 pid) b <-> 0 <= b) by (intros b; unfold region; cbn; tauto).
  eapply pinv_step; [done| | | | |by left].
  - exists (Some fd), true, (content s). cbn. split_and!; [by apply Hs| |].
    + intros fd' [= <-]. by rewrite Hfds.
    + intros _. split; [done|]. intros b Hb. apply Hw. left. by rewrite Hreg.
  - intros q e _. by rewrite Hfds.
  - intros q b t Hq Hh. apply Hw. right. split; [|done]. by intros (_ & ? & _).
  - eapply (excl_grown (kern s) w' p); [exact (p_excl _ H)| |].
    + intros q Hq b t Ht Hb Hh. apply (Hno q). split; [done|]. exists b, t. rewrite Hreg. split_and!; [done..|].
      left. split; [done|]. tauto.
    + intros q b t Hh. apply Hw in Hh as [(_ & -> & Hb & _)|[_ Hh]]; [left; by rewrite Hreg in Hb|by right].
Qed.

Lemma call_pinv s p k c f r w' b' :
  pinv s -> procs s !! p = Some (k, Sys c f) -> call_step p (kern s) (content s) c r w' b' ->
  pinv (mkSys w' b' (<[p := (k, f r)]> (procs s))).
Proof.
  intros H Hp Hc. destruct (p_procs _ H _ _ Hp) as (fdo & h & c0 & Hs & Hfd & Hh). cbn in Hs.
  destruct Hc as [g r w' E|fd r|fd fl r|fd cmd fl r w' E|fd len r Hr Hf|fd len r Hr|fd b n r Hr Hn Hf|fd b r Hr|fd r w' E].
  - destruct Hs as (-> & -> & Hs). destruct (kopen_ok _ _ _ _ _ E) as (Hw & Hr & Hf).
    eapply pinv_quiet; [done|exact (Hw path)|by intros; apply Hf| |by left].
    destruct Hr as [Hr|[Hr Hfd']].
    + exists fdo, false, c0. split_and!; [by apply Hs| |done]. intros fd Hx. by apply Hf, Hfd.
    + exists (Some (rv r)), false, c0. split_and!; [by apply Hs| |done]. by intros fd [= <-].
  - eapply pinv_quiet; [done|done|done| |by left]. exists fdo, h, c0. split_and!; [by apply Hs|done|done].
  - eapply pinv_quiet; [done|done|done| |by left]. exists fdo, h, c0. split_and!; [by apply Hs|done|done].
  - destruct Hs as (-> & -> & -> & [pid ->] & Hs). destruct (Hs r) as [Hbad Hgood].
    destruct (fcntl_rv _ _ _ _ _ _ _ E) as [Hr|Hr].
    + assert (Hw := setlk_fail _ _ _ _ _ _ _ E Hr).
      assert (Hfds : forall q e, fd_file w' q e = fd_file (kern s) q e) by (intros q e; by eapply fcntl_fds).
      eapply pinv_quiet; [done|exact (Hw path)|by intros q e _; rewrite Hfds| |by left].
      exists (Some fd), false, c0. split_and!; [by apply Hbad| |done]. intros fd' Hx. rewrite Hfds. by apply Hfd.
    + eapply pinv_locked; [done|by apply Hfd|exact E|done|by apply Hgood].
  - destruct Hs as (-> & -> & -> & Hs). destruct (Hh eq_refl) as [-> Ho].
    eapply pinv_quiet; [done|done|done| |by right]. exists (Some fd), true, []. cbn. split_and!; [by apply Hs|done|done].
  - destruct Hs as (-> & -> & -> & Hs). eapply pinv_quiet; [done|done|done| |by left].
    exists (Some fd), true, c0. cbn. split_and!; [by apply Hs|done|done].
  - destruct Hs as (-> & -> & Hs). destruct (Hh eq_refl) as [-> Ho].
    eapply pinv_quiet; [done|done|done| |by right]. eexists (Some fd), true, _. cbn. split_and!; [by apply Hs|done|done].
  - destruct Hs as (-> & -> & Hs). eapply pinv_quiet; [done|done|done| |by left].
    exists (Some fd), true, c0. cbn. split_and!; [by apply Hs|done|done].
  - destruct Hs as (-> & -> & Hs). destruct (kclose_ok _ _ _ _ _ _ E (Hfd fd eq_refl)) as [Hw Hf].
    eapply pinv_step; [done| | | | |by left].
    + exists None, false, c0. split_and!; [by apply Hs|done|done].
    + intros q e Hq. by rewrite Hf.
    + intros q b t Hq Hb. apply Hw. split; [done|]. by intros ->.
    + intros q1 q2 b t H1 H2. apply Hw in H1 as [H1 _], H2 as [H2 _]. by eapply (p_excl _ H).
Qed.

Lemma pstep_pinv s s' : pinv s -> pstep s s' -> pinv s'.
Proof.
  intros H Hs. destruct Hs as [p k c f r w' b' Hp Hc|p k Hp Ha|p x Hp].
  - by eapply call_pinv.
  - eapply pinv_quiet; [done|done|done| |by left]. exists None, false, []. cbn. split_and!; [by apply code_safe|done|done].
  - destruct (kexit_ok p (kern s)) as [Hw Hf]. split; cbn.
    + intros q y Hq. apply lookup_delete_Some in Hq as [N Hq].
      eapply proc_inv_other; [exact (p_procs _ H q y Hq)|by symmetry| | |by left].
      * intros e. by rewrite Hf.
      * intros b Hb. by apply Hw.
    + intros q1 q2 b t H1 H2. apply Hw in H1 as [H1 _], H2 as [H2 _]. by eapply (p_excl _ H).
Qed.

End System.
