(* ===== verification/FcntlCmd.v ===== *)
(** * FcntlCmd: a command loop that places record locks.

    tlpi-dist/filelock/i_fcntl_locking.c: lines of the form
    "[file-num] cmd lock start length [whence]" become calls of [fcntl].  The
    variables the commands are read into live across commands; [None] is a variable
    that has not been assigned. *)
From S2P Require Import Prelude Libc GetNum FileLocks.
Local Open Scope Z_scope.

Definition MAX_LINE : nat := 100.
Definition S_ISGID : Z := 0x400.
Definition S_IXGRP : Z := 8.
Definition EDEADLK : Z := 35.

(** ** sscanf *)

(** A white-space directive, %c, %d and %lld. *)
Inductive conv := CSpace | CChar | CInt | CLong.

(** The values assigned, in order; the first directive that does not match ends the
    scan.  A number out of range saturates; %d keeps its low 32 bits. *)
Fixpoint sscanf (fmt : list conv) (s : bytes) : list Z :=
  match fmt with
  | [] => []
  | CSpace :: fmt' => sscanf fmt' (skip_space s)
  | CChar :: fmt' => match s with [] => [] | c :: s' => c :: sscanf fmt' s' end
  | (CInt | CLong) as d :: fmt' =>
      match number 10 s with
      | None => []
      | Some _ =>
          let '(v, s', _) := strtol s 10 in
          (match d with CInt => wrap_s 32 v | _ => v end) :: sscanf fmt' s'
      end
  end.

(** Its value: EOF when the input ends before anything is read. *)
Definition num_read (vals : list Z) (s : bytes) : Z :=
  match vals, skip_space s with [], [] => -1 | _, _ => Z.of_nat (length vals) end.

(** " %c %c %lld %lld %c" and "%d %c %c %lld %lld %c". *)
Definition fmt_one : list conv :=
  [CSpace; CChar; CSpace; CChar; CSpace; CLong; CSpace; CLong; CSpace; CChar].
Definition fmt_many : list conv := CInt :: fmt_one.

(** [fgets] into a buffer of [n] bytes: up to n - 1 bytes, through a newline. *)
Fixpoint fgets_line (room : nat) (s : bytes) : bytes * bytes :=
  match room, s with
  | S room', c :: s' =>
      if c =? 10 then ([c], s') else let '(l, rest) := fgets_line room' s' in (c :: l, rest)
  | _, _ => ([], s)
  end.
Definition fgets (n : nat) (s : bytes) : option (bytes * bytes) :=
  match s with [] => None | _ => Some (fgets_line (n - 1) s) end.

(** ** The variables of main *)

Record vars := mkVars {
  fileNum : option Z; cmdCh : option Z; lockCh : option Z; st : option Z; len : option Z; whenceCh : option Z }.

(** What [sscanf] leaves in a variable. *)
Definition assign (vals : list Z) (i : nat) (old : option Z) : option Z :=
  match vals !! i with Some v => Some v | None => old end.

(** The two calls of [sscanf], after [whence = 's'] (and [fileNum = 1]). *)
Definition scan_line (argc : Z) (line : bytes) (v : vars) : Z * vars :=
  if argc =? 2 then
    let vals := sscanf fmt_one line in
    (num_read vals line,
     mkVars (Some 1) (assign vals 0 (cmdCh v)) (assign vals 1 (lockCh v)) (assign vals 2 (st v))
       (assign vals 3 (len v)) (assign vals 4 (Some 115)))
  else
    let vals := sscanf fmt_many line in
    (num_read vals line,
     mkVars (assign vals 0 (fileNum v)) (assign vals 1 (cmdCh v)) (assign vals 2 (lockCh v))
       (assign vals 3 (st v)) (assign vals 4 (len v)) (assign vals 5 (Some 115))).

(** What a command asks for; or why nothing is asked for. *)
Inductive action :=
  | Blank                                   (* an empty line *)
  | Help
  | BadFile                                 (* "File number must be in range" *)
  | Invalid                                 (* "Invalid command!" *)
  | Request (fd cmd : Z) (fl : flock) (unlock : bool)
  | Undef.                                  (* a variable is used that was not assigned *)

Definition command (cmdCh : Z) : Z :=
  if cmdCh =? 71 then F_OFD_GETLK else if cmdCh =? 83 then F_OFD_SETLK else if cmdCh =? 87 then F_OFD_SETLKW
  else if cmdCh =? 103 then F_GETLK else if cmdCh =? 115 then F_SETLK else F_SETLKW.
Definition lock_type (lock : Z) : Z := if lock =? 114 then F_RDLCK else if lock =? 119 then F_WRLCK else F_UNLCK.
Definition whence_of (w : Z) : Z := if w =? 99 then SEEK_CUR else if w =? 101 then SEEK_END else SEEK_SET.

(** One line without its newline: lines 138 to 185. *)
Definition parse (argc : Z) (fdList : list Z) (line : bytes) (v : vars) : action * vars :=
  match line with
  | [] => (Blank, v)
  | c :: _ =>
      if c =? 63 then (Help, v)
      else
        let '(numRead, v) := scan_line argc line v in
        match fileNum v with
        | None => (Undef, v)
        | Some n =>
            if (n <? 1) || (argc <=? n) then (BadFile, v)
            else if negb (((4 <=? numRead) && (argc =? 2)) || ((5 <=? numRead) && (2 <? argc))) then (Invalid, v)
            else
              match cmdCh v, lockCh v, st v, len v, whenceCh v with
              | Some c, Some l, Some s, Some n', Some w =>
                  match strchr (str "gswGSW") c, strchr (str "rwu") l, strchr (str "sce") w, fdList !! Z.to_nat n with
                  | Some _, Some _, Some _, Some fd =>
                      (Request fd (command c) (mkFlock (lock_type l) (whence_of w) s n' 0) (l =? 117), v)
                  | Some _, Some _, Some _, None => (Undef, v)
                  | _, _, _, _ => (Invalid, v)
                  end
              | _, _, _, _, _ => (Undef, v)
              end
        end
  end.

(** ** Carrying commands out *)

Inductive report :=
  | RFormat (files : list (Z * bytes * bool))    (* the help text; the files when there are several *)
  | RRange (last : Z)
  | RInvalid
  | RPlaceable                                   (* "Lock can be placed" *)
  | RDenied (write : bool) (start len pid : Z)
  | RUnlocked | RGot                             (* "unlocked", "got lock" *)
  | RIncompatible | RDeadlock                    (* "failed (...)" *)
  | RError (errno : Z).

Inductive event := Req (fd cmd : Z) (fl : flock) | Rep (r : report).
Inductive ending := Success | Failure | Undefined | OutOfFuel.

Section Loop.
Context {W : Type} (kfcntl : Z -> Z -> flock -> W -> res * W).
Context (st_mode : Z -> option Z).              (* fstat: None when it fails *)

Definition mandLockingEnabled (fd : Z) : option bool :=
  match st_mode fd with
  | None => None
  | Some m => Some (negb (Z.land m S_ISGID =? 0) && (Z.land m S_IXGRP =? 0))
  end.

(** Which files of the command line have mandatory locking. *)
Fixpoint lock_modes (j : Z) (names : list bytes) (fds : list Z) : option (list (Z * bytes * bool)) :=
  match names, fds with
  | n :: names', fd :: fds' =>
      match mandLockingEnabled fd with
      | None => None
      | Some b => option_map (cons (j, n, b)) (lock_modes (j + 1) names' fds')
      end
  | _, _ => Some []
  end.

(** [names] are argv[1] and so on; [fdList] has an unused element 0. *)
Definition displayCmdFmt (argc : Z) (names : list bytes) (fdList : list Z) : option report :=
  if argc =? 2 then Some (RFormat []) else option_map RFormat (lock_modes 1 names (tail fdList)).

(** The request and what is reported of it: lines 187 to 217. *)
Definition perform (fd cmd : Z) (fl : flock) (unlock : bool) (w : W) : report * W :=
  let '(r, w') := kfcntl fd cmd fl w in
  (if (cmd =? F_GETLK) || (cmd =? F_OFD_GETLK) then
     if rv r =? -1 then RError (err r)
     else if l_type (rfl r) =? F_UNLCK then RPlaceable
     else RDenied (negb (l_type (rfl r) =? F_RDLCK)) (l_start (rfl r)) (l_len (rfl r)) (l_pid (rfl r))
   else if rv r =? 0 then if unlock then RUnlocked else RGot
   else if (err r =? EAGAIN) || (err r =? EACCES) then RIncompatible
   else if err r =? EDEADLK then RDeadlock
   else RError (err r), w').

(** The line as the loop sees it: [line[strlen(line) - 1] = '\0'], which with an empty
    string writes before the buffer. *)
Definition chop (line : bytes) : option bytes :=
  match cstring line with [] => None | s => Some (removelast s) end.

Fixpoint session (fuel : nat) (argc : Z) (names : list bytes) (fdList : list Z) (input : bytes) (v : vars) (w : W) :
    list event * ending * W :=
  match fuel with
  | O => ([], OutOfFuel, w)
  | S f =>
      let next evs input v w :=
        let '(evs', e, w') := session f argc names fdList input v w in (evs ++ evs', e, w') in
      match fgets MAX_LINE input with
      | None => ([], Success, w)
      | Some (line, rest) =>
          match chop line with
          | None => ([], Undefined, w)
          | Some line =>
              let '(a, v) := parse argc fdList line v in
              match a with
              | Blank => next [] rest v w
              | Help =>
                  match displayCmdFmt argc names fdList with
                  | None => ([], Failure, w)
                  | Some r => next [Rep r] rest v w
                  end
              | BadFile => next [Rep (RRange (argc - 1))] rest v w
              | Invalid => next [Rep RInvalid] rest v w
              | Request fd cmd fl unlock =>
                  let '(r, w') := perform fd cmd fl unlock w in next [Req fd cmd fl; Rep r] rest v w'
              | Undef => ([], Undefined, w)
              end
          end
      end
  end.

(** [main]: the files are opened, their modes shown, and commands carried out. *)
Inductive outcome :=
  | Usage
  | CannotOpen (name : bytes)
  | CannotStat
  | Ran (modes : list (Z * bytes * bool)) (evs : list event) (e : ending) (w : W).

Context (kopen_rdwr : bytes -> Z).              (* open(name, O_RDWR) *)

Fixpoint open_files (names : list bytes) : bytes + list Z :=
  match names with
  | [] => inr []
  | n :: names' =>
      let fd := kopen_rdwr n in
      if fd =? -1 then inl n else match open_files names' with inl e => inl e | inr fds => inr (fd :: fds) end
  end.

Definition main (names : list bytes) (input : bytes) (w : W) : outcome :=
  let argc := Z.of_nat (length names) + 1 in
  if (argc <? 2) || bool_decide (head names = Some (str "--help")) then Usage
  else
    match open_files names with
    | inl n => CannotOpen n
    | inr fds =>
        match lock_modes 1 names fds with
        | None => CannotStat
        | Some ms =>
            let '(evs, e, w') :=
              session (S (length input)) argc names (0 :: fds) input (mkVars None None None None None None) w in
            Ran ms evs e w'
        end
    end.

End Loop.

(** ** Commands as they are meant *)

Record lock_cmd := mkCmd {
  s_file : Z; s_cmd : Z; s_lock : Z; s_start : Z; s_len : Z; s_whence : option Z }.

Definition cmd_ok (argc : Z) (c : lock_cmd) : Prop :=
  1 <= s_file c < argc /\ s_cmd c ∈ str "gswGSW" /\ s_lock c ∈ str "rwu" /\
  LONG_MIN <= s_start c <= LONG_MAX /\ LONG_MIN <= s_len c <= LONG_MAX /\
  (forall w, s_whence c = Some w -> w ∈ str "sce").

(** The line a user types. *)
Definition cmd_body (c : lock_cmd) : bytes :=
  [s_cmd c; 32; s_lock c; 32] ++ num_text 10 [] (s_start c) ++ [32] ++ num_text 10 [] (s_len c) ++
  match s_whence c with Some w => [32; w] | None => [] end.
Definition cmd_line (argc : Z) (c : lock_cmd) : bytes :=
  (if argc =? 2 then [] else num_text 10 [] (s_file c) ++ [32]) ++ cmd_body c.

(** The request it stands for. *)
Definition cmd_flock (c : lock_cmd) : flock :=
  mkFlock (lock_type (s_lock c)) (whence_of (default 115 (s_whence c))) (s_start c) (s_len c) 0.
Definition cmd_fd (fdList : list Z) (argc : Z) (c : lock_cmd) : Z :=
  nth (Z.to_nat (if argc =? 2 then 1 else s_file c)) fdList 0.

(** The requests of a list of commands, in order. *)
Fixpoint run_cmds {W} (kfcntl : Z -> Z -> flock -> W -> res * W) (fdList : list Z) (argc : Z) (cs : list lock_cmd) (w : W) :
    list event * W :=
  match cs with
  | [] => ([], w)
  | c :: cs' =>
      let fd := cmd_fd fdList argc c in
      let '(r, w1) := perform kfcntl fd (command (s_cmd c)) (cmd_flock c) (s_lock c =? 117) w in
      let '(evs, w2) := run_cmds kfcntl fdList argc cs' w1 in
      (Req fd (command (s_cmd c)) (cmd_flock c) :: Rep r :: evs, w2)
  end.

(** ** Reading numbers *)

Lemma skip_space_idem s : skip_space (skip_space s) = skip_space s.
Proof. induction s as [|c s IH]; [done|]. cbn. destruct (isspace c) eqn:E; [done|]. cbn. by rewrite E. Qed.

Lemma number_skip b s : number b (skip_space s) = number b s.
Proof. unfold number. by rewrite skip_space_idem. Qed.

Lemma strtol_text z rest :
  LONG_MIN <= z <= LONG_MAX -> stops rest ->
  number 10 (num_text 10 [] z ++ rest) <> None /\ strtol (num_text 10 [] z ++ rest) 10 = (z, rest, false).
Proof.
  intros Hz Hr. assert (E := number_text 10 10 z rest ltac:(right; lia) Hr). split; [by rewrite E|].
  unfold strtol. rewrite E.
  replace (if z <? 0 then - Z.abs z else Z.abs z) with z by (destruct (Z.ltb_spec z 0); lia).
  by rewrite (proj2 (Z.ltb_ge _ _)), (proj2 (Z.ltb_ge _ _)) by lia.
Qed.

(** A number directive on a number, with white space before it or not. *)
Lemma sscanf_num d z sp fmt rest :
  d = CInt \/ d = CLong -> Forall (fun c => c = 32) sp -> LONG_MIN <= z <= LONG_MAX -> stops rest ->
  sscanf (d :: fmt) (skip_space (sp ++ num_text 10 [] z ++ rest)) =
    (match d with CInt => wrap_s 32 z | _ => z end) :: sscanf fmt rest /\
  sscanf (d :: fmt) (num_text 10 [] z ++ rest) =
    (match d with CInt => wrap_s 32 z | _ => z end) :: sscanf fmt rest.
Proof.
  intros Hd Hsp Hz Hr. destruct (strtol_text z rest Hz Hr) as [Hn Hs].
  assert (Hk : skip_space (sp ++ num_text 10 [] z ++ rest) = skip_space (num_text 10 [] z ++ rest)).
  { clear -Hsp. induction Hsp as [|c l -> _ IH]; [done|]. cbn. exact IH. }
  assert (Hs' : strtol (skip_space (num_text 10 [] z ++ rest)) 10 = (z, rest, false)).
  { unfold strtol in *. rewrite number_skip. destruct (number 10 _) as [[[neg v] s']|]; [exact Hs|done]. }
  rewrite Hk. split; cbn [sscanf]; rewrite ?number_skip, ?Hs, ?Hs';
    (destruct (number 10 _) as [x|]; [|done]); by destruct Hd as [-> | ->].
Qed.

Lemma ubase_length f n k : 0 <= n < 10 ^ Z.of_nat k -> (1 <= k)%nat -> (length (ubase 10 f n) <= k)%nat.
Proof.
  revert n k. induction f as [|f IH]; intros n k Hn Hk; [cbn; lia|]. cbn [ubase].
  destruct (Z.ltb_spec n 10); [cbn; lia|]. rewrite length_app. cbn [length].
  destruct k as [|[|k]]; [lia|cbn in Hn; lia|]. specialize (IH (n / 10) (S k)).
  rewrite Nat2Z.inj_succ, Z.pow_succ_r in Hn by lia.
  assert (length (ubase 10 f (n / 10)) <= S k)%nat; [|lia].
  apply IH; [|lia]. split; [apply Z.div_pos; lia|apply Z.div_lt_upper_bound; lia].
Qed.

Lemma num_text_length z : LONG_MIN <= z <= LONG_MAX -> (length (num_text 10 [] z) <= 20)%nat.
Proof.
  intros Hz. unfold num_text, text. rewrite !length_app.
  assert (length (ubase 10 (S (Z.to_nat (Z.log2 (Z.abs z)))) (Z.abs z)) <= 19)%nat.
  { apply ubase_length; [|lia]. unfold LONG_MIN, LONG_MAX in Hz. lia. }
  destruct (z <? 0); cbn [length app]; lia.
Qed.

(** Bytes of a command line: no white space but blanks, no NUL. *)
Definition plain (c : Z) : Prop := 32 <= c.

Lemma digit_char_plain d : 0 <= d -> plain (digit_char d).
Proof. intros H. unfold plain, digit_char. destruct (d <? 10); lia. Qed.

Lemma ubase_plain f n : 0 <= n -> Forall plain (ubase 10 f n).
Proof.
  revert n. induction f as [|f IH]; intros n Hn; [constructor|]. cbn [ubase].
  destruct (n <? 10); [constructor; [by apply digit_char_plain|constructor]|].
  apply Forall_app_2; [apply IH, Z.div_pos; lia|]. constructor; [|constructor].
  apply digit_char_plain, Z.mod_pos_bound. lia.
Qed.

Lemma num_text_plain z : Forall plain (num_text 10 [] z).
Proof.
  unfold num_text. apply Forall_app_2; [destruct (z <? 0); repeat constructor; unfold plain; lia|].
  apply ubase_plain. lia.
Qed.

(** ** A typed command is read back *)

Lemma wrap_s32_int z : - 2 ^ 31 <= z < 2 ^ 31 -> wrap_s 32 z = z.
Proof. intros H. unfold wrap_s. change (2 ^ (32 - 1)) with (2 ^ 31). rewrite Z.mod_small by lia. lia. Qed.

Lemma type_letters_ok (s : string) c :
  forallb (fun c => negb (isspace c) && (32 <=? c) && negb (c =? 63)) (str s) = true -> c ∈ str s ->
  isspace c = false /\ plain c /\ c <> 63 /\ exists i, strchr (str s) c = Some i.
Proof.
  intros Hall Hc. rewrite forallb_forall in Hall. specialize (Hall c ltac:(by apply list_elem_of_In)).
  apply andb_true_iff in Hall as [[Hs%negb_true_iff Hp%Z.leb_le]%andb_true_iff Hq%negb_true_iff%Z.eqb_neq].
  split_and!; try done. clear -Hc. induction (str s) as [|x l IH]; [by apply elem_of_nil in Hc|]. cbn.
  destruct (Z.eqb_spec x c) as [->|N]; [by eexists|]. apply elem_of_cons in Hc as [->|Hc]; [done|].
  destruct (IH Hc) as [i ->]. by eexists.
Qed.

Definition whence_vals (c : lock_cmd) : list Z := match s_whence c with Some w => [w] | None => [] end.

Lemma sscanf_body argc c sp :
  cmd_ok argc c -> sp = [] \/ sp = [32] ->
  sscanf fmt_one (sp ++ cmd_body c) = [s_cmd c; s_lock c; s_start c; s_len c] ++ whence_vals c.
Proof.
  intros (_ & Hc & Hl & Hs & Hn & Hw) Hsp.
  destruct (type_letters_ok "gswGSW" (s_cmd c) eq_refl Hc) as (Hc1 & _).
  destruct (type_letters_ok "rwu" (s_lock c) eq_refl Hl) as (Hl1 & _).
  set (tl := match s_whence c with Some w => [32; w] | None => [] end).
  assert (Htl : stops tl) by (unfold tl; by destruct (s_whence c)).
  assert (E : sscanf fmt_one (sp ++ cmd_body c) =
    s_cmd c :: s_lock c :: sscanf [CSpace; CLong; CSpace; CLong; CSpace; CChar]
      ([32] ++ num_text 10 [] (s_start c) ++ [32] ++ num_text 10 [] (s_len c) ++ tl)).
  { unfold fmt_one, cmd_body. destruct Hsp as [-> | ->]; cbn -[num_text number strtol skip_space];
      cbn [skip_space isspace Z.eqb Pos.eqb orb app]; rewrite ?Hc1; cbn [sscanf];
      cbn [skip_space isspace Z.eqb Pos.eqb orb]; by rewrite Hl1. }
  rewrite E. clear E.
  destruct (sscanf_num CLong (s_start c) [32] [CSpace; CLong; CSpace; CChar] ([32] ++ num_text 10 [] (s_len c) ++ tl))
    as [E1 _]; [by right|by repeat constructor|done|done|].
  destruct (sscanf_num CLong (s_len c) [32] [CSpace; CChar] tl) as [E2 _]; [by right|by repeat constructor|done|done|].
  change (sscanf (CSpace :: ?f) ?x) with (sscanf f (skip_space x)). rewrite E1.
  change (sscanf [CSpace; CLong; CSpace; CChar] ?x) with (sscanf [CLong; CSpace; CChar] (skip_space x)). rewrite E2.
  cbn [app]. do 4 f_equal. unfold tl, whence_vals. destruct (s_whence c) as [w|] eqn:Ew; [|done].
  destruct (type_letters_ok "sce" w eq_refl (Hw w eq_refl)) as (Hw1 & _). cbn. by rewrite Hw1.
Qed.

Lemma sscanf_line argc c :
  cmd_ok argc c -> argc < 2 ^ 31 ->
  sscanf fmt_many (num_text 10 [] (s_file c) ++ [32] ++ cmd_body c) =
    s_file c :: [s_cmd c; s_lock c; s_start c; s_len c] ++ whence_vals c.
Proof.
  intros H Ha. unfold fmt_many.
  destruct (sscanf_num CInt (s_file c) [] fmt_one ([32] ++ cmd_body c)) as [_ E];
    [by left|constructor|destruct H as [H _]; unfold LONG_MIN, LONG_MAX; lia|done|].
  rewrite E, (sscanf_body argc) by auto. f_equal. apply wrap_s32_int. destruct H as [H _]. lia.
Qed.

(** The first character of a number is not a question mark. *)
Lemma num_text_head z : exists c l, num_text 10 [] z = c :: l /\ c <> 63 /\ isspace c = false.
Proof.
  unfold num_text. destruct (z <? 0); [by eexists _, _|].
  destruct (text_head 10 (Z.abs z)) as (d & rest & -> & Hd & _); [lia|lia|]. eexists _, _. split; [done|].
  unfold digit_char, isspace. destruct (Z.ltb_spec d 10); [|lia]. split; [lia|].
  rewrite (proj2 (Z.eqb_neq _ 32)), (proj2 (Z.leb_gt _ 13)) by lia. by rewrite andb_false_r.
Qed.

Lemma parse_request argc fdList c0 line v nr n ch l s n' w fd i j k :
  c0 <> 63 -> scan_line argc (c0 :: line) v = (nr, mkVars (Some n) (Some ch) (Some l) (Some s) (Some n') (Some w)) ->
  1 <= n < argc -> (4 <= nr /\ argc = 2) \/ (5 <= nr /\ 2 < argc) ->
  strchr (str "gswGSW") ch = Some i -> strchr (str "rwu") l = Some j -> strchr (str "sce") w = Some k ->
  fdList !! Z.to_nat n = Some fd ->
  (parse argc fdList (c0 :: line) v).1 = Request fd (command ch) (mkFlock (lock_type l) (whence_of w) s n' 0) (l =? 117).
Proof.
  intros H0 Hs Hn Hnr Hi Hj Hk Hfd. unfold parse. rewrite (proj2 (Z.eqb_neq _ _) H0), Hs. cbn [fileNum cmdCh lockCh st len whenceCh].
  rewrite (proj2 (Z.ltb_ge _ _)), (proj2 (Z.leb_gt _ _)) by lia. cbn [orb].
  replace (((4 <=? nr) && (argc =? 2)) || ((5 <=? nr) && (2 <? argc))) with true.
  - cbn [negb]. by rewrite Hi, Hj, Hk, Hfd.
  - symmetry. rewrite orb_true_iff, !andb_true_iff, !Z.leb_le, Z.eqb_eq, Z.ltb_lt. tauto.
Qed.

Lemma scan_cmd argc c v :
  2 <= argc < 2 ^ 31 -> cmd_ok argc c ->
  exists nr, scan_line argc (cmd_line argc c) v =
    (nr, mkVars (Some (if argc =? 2 then 1 else s_file c)) (Some (s_cmd c)) (Some (s_lock c)) (Some (s_start c))
           (Some (s_len c)) (Some (default 115 (s_whence c)))) /\
    ((4 <= nr /\ argc = 2) \/ (5 <= nr /\ 2 < argc)).
Proof.
  intros Ha H. unfold scan_line, cmd_line. destruct (Z.eqb_spec argc 2) as [->|Hne].
  - assert (E := sscanf_body 2 c [] H (or_introl eq_refl)). cbn [app] in E. cbn [app]. rewrite E.
    unfold whence_vals, num_read. destruct (s_whence c); eexists; (split; [reflexivity|left; cbn; lia]).
  - rewrite <- app_assoc, (sscanf_line argc c H (proj2 Ha)).
    unfold whence_vals, num_read. destruct (s_whence c); eexists; (split; [reflexivity|right; cbn; lia]).
Qed.

Lemma cmd_line_head argc c : cmd_ok argc c -> exists x l, cmd_line argc c = x :: l /\ x <> 63.
Proof.
  intros (_ & Hc & _). unfold cmd_line. destruct (argc =? 2).
  - destruct (type_letters_ok "gswGSW" (s_cmd c) eq_refl Hc) as (_ & _ & Hc2 & _). by eexists _, _.
  - destruct (num_text_head (s_file c)) as (x & l & -> & Hx & _). by eexists _, _.
Qed.

Lemma parse_cmd argc fdList c v :
  2 <= argc < 2 ^ 31 -> length fdList = Z.to_nat argc -> cmd_ok argc c ->
  (parse argc fdList (cmd_line argc c) v).1 =
    Request (cmd_fd fdList argc c) (command (s_cmd c)) (cmd_flock c) (s_lock c =? 117).
Proof.
  intros Ha Hfd H. destruct (scan_cmd argc c v Ha H) as (nr & Hs & Hnr). destruct (cmd_line_head argc c H) as (x & l & Ex & Hx).
  destruct H as (Hf & Hc & Hl & _ & _ & Hw).
  destruct (type_letters_ok "gswGSW" (s_cmd c) eq_refl Hc) as (_ & _ & _ & i & Hi).
  destruct (type_letters_ok "rwu" (s_lock c) eq_refl Hl) as (_ & _ & _ & j & Hj).
  assert (Hk : exists k, strchr (str "sce") (default 115 (s_whence c)) = Some k).
  { destruct (s_whence c) as [w|]; [|by eexists]. by destruct (type_letters_ok "sce" w eq_refl (Hw w eq_refl)) as (_ & _ & _ & ?). }
  destruct Hk as [k Hk]. rewrite Ex in *. set (n := if argc =? 2 then 1 else s_file c) in *.
  assert (Hn : 1 <= n < argc) by (unfold n; destruct (Z.eqb_spec argc 2); lia).
  destruct (lookup_lt_is_Some_2 fdList (Z.to_nat n)) as [fd Hfd1]; [lia|].
  unfold cmd_fd, cmd_flock. fold n. rewrite (nth_lookup_Some fdList _ 0 fd Hfd1). by eapply parse_request.
Qed.

(** ** Lines *)

Lemma fgets_line_newline room l rest :
  Forall (fun c => c <> 10) l -> (length l < room)%nat -> fgets_line room (l ++ 10 :: rest) = (l ++ [10], rest).
Proof.
  intros H. revert room. induction H as [|c l Hc _ IH]; intros [|room] Hr; cbn in Hr; try lia; [done|]. cbn.
  rewrite (proj2 (Z.eqb_neq _ _) Hc), IH by lia. done.
Qed.

Lemma fgets_line_cons room c s :
  fgets_line (S room) (c :: s) =
    if c =? 10 then ([c], s) else let '(l, rest) := fgets_line room s in (c :: l, rest).
Proof. done. Qed.

Lemma fgets_line_app room s : s = (fgets_line room s).1 ++ (fgets_line room s).2.
Proof.
  revert s. induction room as [|room IH]; intros [|c s]; [done..|]. rewrite fgets_line_cons.
  destruct (c =? 10); [done|]. specialize (IH s). destruct (fgets_line room s) as [l rest]. cbn in *. by rewrite IH at 1.
Qed.

Lemma fgets_line_rest room s l rest :
  fgets_line (S room) s = (l, rest) -> s <> [] -> (length rest < length s)%nat.
Proof.
  destruct s as [|c s]; [done|]. rewrite fgets_line_cons. intros E _. assert (Hs := fgets_line_app room s).
  destruct (c =? 10); [injection E as <- <-; cbn; lia|]. destruct (fgets_line room s) as [l' rest'].
  injection E as <- <-. rewrite Hs. cbn. rewrite length_app. lia.
Qed.

Lemma fgets_rest n s l rest : (2 <= n)%nat -> fgets n s = Some (l, rest) -> (length rest < length s)%nat.
Proof.
  intros Hn. unfold fgets. destruct s as [|c s]; [done|]. intros [= E]. destruct n as [|[|n]]; [lia|lia|].
  cbn [Nat.sub] in E. by eapply fgets_line_rest.
Qed.

Lemma cmd_line_plain argc c : cmd_ok argc c -> Forall plain (cmd_line argc c).
Proof.
  intros (_ & Hc & Hl & _ & _ & Hw).
  destruct (type_letters_ok "gswGSW" (s_cmd c) eq_refl Hc) as (_ & Hc1 & _).
  destruct (type_letters_ok "rwu" (s_lock c) eq_refl Hl) as (_ & Hl1 & _).
  assert (H32 : plain 32) by (unfold plain; lia).
  assert (Hn := num_text_plain). unfold cmd_line, cmd_body. apply Forall_app_2.
  - destruct (argc =? 2); [constructor|]. apply Forall_app_2; [apply Hn|by repeat constructor].
  - do 2 (apply Forall_app_2; [by repeat constructor|]; apply Forall_app_2; [apply Hn|]).
    destruct (s_whence c) as [w|]; [|constructor].
    destruct (type_letters_ok "sce" w eq_refl (Hw w eq_refl)) as (_ & Hw1 & _). by repeat constructor.
Qed.

Lemma cmd_line_length argc c : argc < 2 ^ 31 -> cmd_ok argc c -> (length (cmd_line argc c) < 90)%nat.
Proof.
  intros Ha (Hf & _ & _ & Hs & Hn & _). assert (H1 := num_text_length _ Hs). assert (H2 := num_text_length _ Hn).
  assert (H3 : (length (num_text 10 [] (s_file c)) <= 20)%nat) by (apply num_text_length; unfold LONG_MIN, LONG_MAX; lia).
  unfold cmd_line, cmd_body. rewrite !length_app. cbn [length].
  destruct (argc =? 2), (s_whence c); rewrite ?length_app; cbn [length]; lia.
Qed.

Lemma chop_line l : Forall plain l -> chop (l ++ [10]) = Some l.
Proof.
  intros H. unfold chop. rewrite cstring_all_nonzero.
  - destruct (l ++ [10]) as [|x t] eqn:E; [by destruct l|]. by rewrite <- E, removelast_last.
  - apply Forall_app_2; [|by repeat constructor]. eapply Forall_impl; [exact H|]. unfold plain. intros; lia.
Qed.

Section Sessions.
Context {W : Type} (kfcntl : Z -> Z -> flock -> W -> res * W) (st_mode : Z -> option Z).

(** A file of commands is carried out as written. *)
Lemma session_cmds argc names fdList cs fuel v w :
  2 <= argc < 2 ^ 31 -> length fdList = Z.to_nat argc -> Forall (cmd_ok argc) cs -> (length cs < fuel)%nat ->
  session kfcntl st_mode fuel argc names fdList (concat (map (fun c => cmd_line argc c ++ [10]) cs)) v w =
  ((run_cmds kfcntl fdList argc cs w).1, Success, (run_cmds kfcntl fdList argc cs w).2).
Proof.
  intros Ha Hfd Hcs. revert fuel v w. induction Hcs as [|c cs Hc _ IH]; intros [|fuel] v w Hf; cbn in Hf; try lia; [done|].
  cbn [map concat]. rewrite <- app_assoc. cbn [session]. set (rest := concat _).
  assert (Hpl := cmd_line_plain argc c Hc). assert (Hlen := cmd_line_length argc c (proj2 Ha) Hc).
  destruct (cmd_line_head argc c Hc) as (x & t & Ex & _).
  assert (Hg : fgets MAX_LINE (cmd_line argc c ++ [10] ++ rest) = Some (cmd_line argc c ++ [10], rest)).
  { unfold fgets. destruct (cmd_line argc c ++ [10] ++ rest) as [|y u] eqn:Ey; [by rewrite Ex in Ey|].
    rewrite <- Ey. f_equal. apply fgets_line_newline.
    - eapply Forall_impl; [exact Hpl|]. unfold plain. intros; lia.
    - cbn. lia. }
  rewrite Hg, chop_line by done. assert (Hp := parse_cmd argc fdList c v Ha Hfd Hc).
  destruct (parse argc fdList (cmd_line argc c) v) as [a v']. cbn in Hp. subst a. cbn [run_cmds].
  destruct (perform kfcntl _ _ _ _ w) as [r w1]. unfold rest. rewrite IH by lia.
  by destruct (run_cmds kfcntl fdList argc cs w1) as [evs w2].
Qed.

(** A request is for one of the files, and its members have one of the values that
    [fcntl] knows. *)
Definition req_ok (fdList : list Z) (e : event) : Prop :=
  match e with
  | Req fd cmd fl =>
      fd ∈ tail fdList /\ cmd ∈ [F_GETLK; F_SETLK; F_SETLKW; F_OFD_GETLK; F_OFD_SETLK; F_OFD_SETLKW] /\
      l_type fl ∈ [F_RDLCK; F_WRLCK; F_UNLCK] /\ l_whence fl ∈ [SEEK_SET; SEEK_CUR; SEEK_END] /\ l_pid fl = 0
  | Rep _ => True
  end.

Lemma command_ok c : command c ∈ [F_GETLK; F_SETLK; F_SETLKW; F_OFD_GETLK; F_OFD_SETLK; F_OFD_SETLKW].
Proof. unfold command. repeat (destruct (_ =? _); [set_solver|]). set_solver. Qed.
Lemma lock_type_ok c : lock_type c ∈ [F_RDLCK; F_WRLCK; F_UNLCK].
Proof. unfold lock_type. repeat (destruct (_ =? _); [set_solver|]). set_solver. Qed.
Lemma whence_ok c : whence_of c ∈ [SEEK_SET; SEEK_CUR; SEEK_END].
Proof. unfold whence_of. repeat (destruct (_ =? _); [set_solver|]). set_solver. Qed.

Lemma parse_req_ok argc fdList line v fd cmd fl u :
  (parse argc fdList line v).1 = Request fd cmd fl u -> req_ok fdList (Req fd cmd fl).
Proof.
  unfold parse. destruct line as [|c line]; [done|]. destruct (c =? 63); [done|].
  destruct (scan_line argc (c :: line) v) as [nr v']. destruct (fileNum v') as [n|]; [|done].
  destruct (Z.ltb_spec n 1); [done|]. cbn [orb]. destruct (argc <=? n); [done|].
  destruct (negb _); [done|]. destruct (cmdCh v') as [ch|]; [|done]. destruct (lockCh v') as [l|]; [|done].
  destruct (st v') as [s|]; [|done]. destruct (len v') as [n'|]; [|done]. destruct (whenceCh v') as [wh|]; [|done].
  destruct (strchr (str "gswGSW") ch); [|done]. destruct (strchr (str "rwu") l); [|done].
  destruct (strchr (str "sce") wh); [|done]. destruct (fdList !! Z.to_nat n) as [fd'|] eqn:Efd; [|done].
  intros [= <- <- <- <-]. cbn. split_and!; [|apply command_ok|apply lock_type_ok|apply whence_ok|done].
  destruct fdList as [|x l']; [done|]. destruct (Z.to_nat n) as [|k] eqn:En; [lia|]. cbn. by eapply list_elem_of_lookup_2.
Qed.

(** Every session ends, and its requests are in order. *)
Lemma session_ok fuel argc names fdList input v w :
  (length input < fuel)%nat ->
  let '(evs, e, _) := session kfcntl st_mode fuel argc names fdList input v w in
  e <> OutOfFuel /\ Forall (req_ok fdList) evs.
Proof.
  revert input v w. induction fuel as [|fuel IH]; intros input v w Hf; [lia|]. cbn [session].
  destruct (fgets MAX_LINE input) as [[line rest]|] eqn:Eg; [|done].
  assert (Hr : (length rest < fuel)%nat).
  { apply fgets_rest in Eg; [lia|unfold MAX_LINE; lia]. }
  destruct (chop line) as [l|]; [|done]. assert (Hp := parse_req_ok argc fdList l v).
  destruct (parse argc fdList l v) as [a v']. cbn in Hp.
  assert (Hnext : forall evs v' w', Forall (req_ok fdList) evs ->
    let '(evs', e, _) := let '(evs', e, w'') := session kfcntl st_mode fuel argc names fdList rest v' w' in (evs ++ evs', e, w'') in
    e <> OutOfFuel /\ Forall (req_ok fdList) evs').
  { intros evs v1 w1 He. specialize (IH rest v1 w1 Hr).
    destruct (session kfcntl st_mode fuel argc names fdList rest v1 w1) as [[evs' e] w2]. destruct IH as [? ?].
    split; [done|]. by apply Forall_app_2. }
  destruct a as [| | | |fd cmd fl u|]; try done; try (by apply Hnext; repeat constructor).
  - destruct (displayCmdFmt st_mode argc names fdList); [|done]. by apply Hnext; repeat constructor.
  - destruct (perform kfcntl fd cmd fl u w) as [r w1]. apply Hnext.
    apply Forall_cons_2; [by apply (Hp fd cmd fl u)|]. by repeat constructor.
Qed.

End Sessions.
