(* ===== verification/FileLockTheorems.v ===== *)
(** * FileLockTheorems: what record locks are used for. *)
From S2P Require Import Prelude Libc GetNum FileLocks PidFile FcntlCmd.
From stdpp Require Import relations.
Local Open Scope Z_scope.

(** The kernel at the start: nobody has a lock on the file. *)
Definition unlocked {W} {K : RecordLocks W} (path : bytes) (w : W) : Prop := forall p b t, ~ holds w path p b t.

Lemma initial_pinv {W} {K : RecordLocks W} path w c : unlocked path w -> pinv path (mkSys w c ∅).
Proof. intros H. split; cbn; [apply map_Forall_empty|]. intros p q b t Hp. by apply H in Hp. Qed.

Lemma psteps_pinv {W} {K : RecordLocks W} path junk s s' : rtc (pstep path junk) s s' -> pinv path s -> pinv path s'.
Proof. induction 1 as [|s1 s2 s3 H1 _ IH]; [done|]. intros Hi. apply IH. by eapply pstep_pinv. Qed.

(** A process that goes on has the lock. *)
Lemma running_owner {W} {K : RecordLocks W} path s p :
  pinv path s -> running s p ->
  owner path (kern s) p /\ forall flags v e, procs s !! p = Some (CPF flags, Ret v e) -> content s = pid_line p.
Proof.
  intros H Hr. unfold running in Hr. destruct (procs s !! p) as [[k m]|] eqn:Ep; [|done].
  destruct (p_procs _ _ H _ _ Ep) as (fdo & h & c0 & Hs & _ & Hh).
  destruct m as [v e| |c f]; [|by destruct k|by destruct k]. cbn in Hs. destruct k as [flags|].
  - destruct Hs as [-> ->]. destruct (Hh eq_refl) as [<- Ho]. split; [done|]. by intros ? ? ? [= <- <- <-].
  - destruct (Hh (Hs Hr)) as [_ Ho]. by split.
Qed.

(** The text of a process id fits and is read back. *)
Lemma pid_line_atol p : 0 < p < 2 ^ 31 -> pid_line p = fmt_ld p ++ [10] /\ atol (pid_line p) = p.
Proof.
  intros Hp. assert (E : pid_line p = fmt_ld p ++ [10]).
  { unfold pid_line. apply take_ge. rewrite length_app. unfold fmt_ld.
    rewrite (proj2 (Z.ltb_ge _ _)) by lia.
    assert (length (dec_u p) <= 10)%nat; [|unfold BUF_SIZE; cbn [length]; lia]. apply dec_u_length; lia. }
  split; [done|]. rewrite E. unfold fmt_ld. rewrite (proj2 (Z.ltb_ge _ _)) by lia.
  assert (Ha := atol_fmt 0 p [10]). cbn [replicate app] in Ha. apply Ha; [unfold LONG_MAX; lia|done].
Qed.

(** C13: A PID file admits one instance.  Let any number of processes run
    [createPidFile] (or [already_running], when the file is its lock file) on one
    file that nobody has locked before, their system calls interleaved in any way,
    each call failing when it will and processes ending when they will.  At every
    moment at most one process has come through and goes on; it has a write lock on
    every byte of the file; and if it came through [createPidFile], the file holds
    its process id and a newline, as long as it lives. *)
Theorem single_instance {W} {K : RecordLocks W} path junk w c s :
  unlocked path w -> rtc (pstep path junk) (mkSys w c ∅) s ->
  (forall p q, running s p -> running s q -> p = q) /\
  (forall p b, running s p -> 0 <= b -> holds (kern s) path p b F_WRLCK) /\
  (forall p flags v e, procs s !! p = Some (CPF flags, Ret v e) -> 0 < p < 2 ^ 31 ->
     content s = fmt_ld p ++ [10] /\ atol (content s) = p).
Proof.
  intros Hu Hs. assert (H := psteps_pinv _ _ _ _ Hs (initial_pinv path w c Hu)). split_and!.
  - intros p q Hp Hq. eapply (owner_unique path s); [done|by apply running_owner|by apply running_owner].
  - intros p b Hp Hb. by apply (running_owner path s p).
  - intros p flags v e Ep Hp. assert (Hr : running s p) by (unfold running; by rewrite Ep).
    destruct (running_owner path s p H Hr) as [_ Hc]. rewrite (Hc flags v e Ep). by apply pid_line_atol.
Qed.

(** Two processes on a kernel without locks: the first comes through, the second
    ends. *)
Definition toy0 : toy := mkToy ∅ 3 [].
Definition pidfile0 : bytes := str "/run/d.pid".

Lemma toy0_unlocked path : unlocked path toy0.
Proof. intros p b t (e & He & _). by apply elem_of_nil in He. Qed.

Lemma single_instance_witness :
  exists s, rtc (pstep pidfile0 0) (mkSys toy0 (str "old") ∅) s /\
    procs s !! 501 = Some (CPF 0, Ret 3 0) /\ procs s !! 502 = Some (CPF 0, Die) /\
    content s = str "501" ++ [10] /\ atol (content s) = 501.
Proof.
  set (r0 := mkRes 0 0 no_fl). set (r4 := mkRes 4 0 no_fl). set (fl := mkFlock F_WRLCK SEEK_SET 0 0 0).
  set (fds1 := {[(501, 3) := pidfile0]} : gmap (Z * Z) bytes). set (fds2 := <[(502, 4) := pidfile0]> fds1).
  set (e1 := mkEntry pidfile0 501 F_WRLCK 0 None).
  assert (Hrun : exists s, rtc (pstep pidfile0 0) (mkSys toy0 (str "old") ∅) s /\
    procs s !! 501 = Some (CPF 0, Ret 3 0) /\ procs s !! 502 = Some (CPF 0, Die)).
  { eexists. split.
    - eapply rtc_l; [apply (step_start _ _ _ 501 (CPF 0)); reflexivity || exact I|].
      eapply rtc_l; [eapply (step_call _ _ _ 501); [reflexivity|apply (do_open _ _ _ _ _ (mkRes 3 0 no_fl) (mkToy fds1 4 [])); vm_compute; reflexivity]|].
      eapply rtc_l; [eapply (step_call _ _ _ 501); [reflexivity|apply (do_fcntl _ _ _ _ _ _ _ (mkRes 0 0 fl) (mkToy fds1 4 [e1])); vm_compute; reflexivity]|].
      eapply rtc_l; [eapply (step_call _ _ _ 501 _ _ _ r0); [reflexivity|apply do_truncate; reflexivity]|].
      eapply rtc_l; [eapply (step_call _ _ _ 501 _ _ _ r4); [reflexivity|eapply (do_write _ _ _ _ _ _ 4); [reflexivity|apply Nat.leb_le; reflexivity|reflexivity]]|].
      eapply rtc_l; [apply (step_start _ _ _ 502 (CPF 0)); reflexivity || exact I|].
      eapply rtc_l; [eapply (step_call _ _ _ 502); [reflexivity|apply (do_open _ _ _ _ _ (mkRes 4 0 no_fl) (mkToy fds2 5 [e1])); vm_compute; reflexivity]|].
      eapply rtc_l; [eapply (step_call _ _ _ 502); [reflexivity|apply (do_fcntl _ _ _ _ _ _ _ (mkRes (-1) EAGAIN fl) (mkToy fds2 5 [e1])); vm_compute; reflexivity]|].
      apply rtc_refl.
    - split; reflexivity. }
  destruct Hrun as (s & Hs & H1 & H2). exists s. split_and!; [exact Hs|exact H1|exact H2| |];
    apply (proj2 (proj2 (single_instance pidfile0 0 toy0 (str "old") s (toy0_unlocked _) Hs)) 501 0 3 0 H1); lia.
Defined.

(** ** Locking and testing regions *)

(** A function that only calls [fcntl], run by process [p]. *)
Fixpoint exec {W} {K : RecordLocks W} (p : Z) (m : prog) (w : W) : option (Z * Z * W) :=
  match m with
  | Ret v e => Some (v, e, w)
  | Sys (Fcntl fd cmd fl) k => let '(r, w') := fcntl p fd cmd fl w in exec p (k r) w'
  | _ => None
  end.

Lemma wrap_s16_type t : t = F_RDLCK \/ t = F_WRLCK \/ t = F_UNLCK -> wrap_s 16 t = t.
Proof. by intros [-> | [-> | ->]]. Qed.

(** What a process has locked, another finds locked: after a successful
    [lockRegion] of [p], [regionIsLocked] (and [lock_test]) of [q] on bytes that
    overlap, for a lock that [p]'s excludes, does not say that the region is free; it
    fails, or names a process that stands in the way. *)
Lemma lock_then_test {W} {K : RecordLocks W} junk p q fdp fdq f t t' s l s' l' b (w w' w'' : W) v e v' e' :
  fd_file w p fdp = Some f -> fd_file w q fdq = Some f -> q <> p ->
  incompatible t' t -> 0 <= s -> 0 <= l -> 0 <= s' -> 0 <= l' ->
  region (mkFlock t SEEK_SET s l junk) b -> region (mkFlock t' SEEK_SET s' l' junk) b ->
  exec p (lockRegion junk fdp t SEEK_SET s l) w = Some (v, e, w') -> v <> -1 ->
  exec q (regionIsLocked junk fdq t' SEEK_SET s' l') w' = Some (v', e', w'') ->
  v' = -1 \/ conflict w' f q (mkFlock t' SEEK_SET s' l' junk) v'.
Proof.
  intros Hp Hq Hne Hi Hs Hl Hs' Hl' Hr Hr' E1 Hv E2.
  assert (Ht : wrap_s 16 t = t /\ t <> F_UNLCK) by (by destruct Hi as [[_ [-> | ->]]|[_ ->]]).
  assert (Ht' : wrap_s 16 t' = t' /\ t' <> F_UNLCK) by (by destruct Hi as [[-> _]|[-> _]]).
  destruct Ht as [Ht Hnu], Ht' as [Ht' Hnu'].
  assert (Hst : from_start (mkFlock t SEEK_SET s l junk)) by (by split_and!).
  assert (Hst' : from_start (mkFlock t' SEEK_SET s' l' junk)) by (by split_and!).
  unfold lockRegion, lockReg in E1. cbn [exec] in E1. rewrite Ht in E1. change (wrap_s 16 SEEK_SET) with SEEK_SET in E1.
  destruct (fcntl p fdp F_SETLK _ w) as [r1 w1] eqn:F1. injection E1 as <- <- ->.
  destruct (setlk_ok _ _ _ _ _ _ _ _ (or_introl eq_refl) Hst Hp F1 Hv) as [_ Hw].
  assert (Hheld : holds w' f p b t) by (apply Hw; left; by split_and!).
  unfold regionIsLocked in E2. cbn [exec] in E2. rewrite Ht' in E2. change (wrap_s 16 SEEK_SET) with SEEK_SET in E2.
  destruct (fcntl q fdq F_GETLK _ w') as [r2 w2] eqn:F2. destruct (Z.eqb_spec (rv r2) (-1)) as [Hr2|Hr2].
  - cbn in E2. injection E2 as <- _ _. by left.
  - right. assert (Hq' : fd_file w' q fdq = Some f) by (by rewrite (fcntl_fds _ _ _ _ _ _ _ q fdq F1)).
    destruct (getlk_ok _ _ _ _ _ _ _ Hst' Hnu' Hq' F2 Hr2) as (_ & Hfree & Hbusy).
    cbn in E2. destruct (Z.eqb_spec (l_type (rfl r2)) F_UNLCK) as [Hu|Hu]; injection E2 as <- _ _.
    + exfalso. apply (Hfree Hu p). split; [done|]. exists b, t. by split_and!.
    + by apply Hbusy.
Qed.

(** ** The command loop *)

(** Commands are carried out as typed.  For any list of well-formed commands, one
    to a line, the session makes exactly the [fcntl] calls the commands stand for, in
    order, each on the descriptor of the file it names, with the lock type, start and
    length typed, and whence SEEK_SET where none is typed; it reports each, and ends
    at the end of the input.  And whatever the input, every session ends, and a call
    it makes is on one of the files of the command line, with a command, lock type
    and whence that [fcntl] knows. *)
Lemma fcntl_session {W} (kfcntl : Z -> Z -> flock -> W -> res * W) st_mode argc names fdList :
  2 <= argc < 2 ^ 31 -> length fdList = Z.to_nat argc ->
  (forall cs v w, Forall (cmd_ok argc) cs ->
     let input := concat (map (fun c => cmd_line argc c ++ [10]) cs) in
     let '(evs, w') := run_cmds kfcntl fdList argc cs w in
     session kfcntl st_mode (S (length input)) argc names fdList input v w = (evs, Success, w')) /\
  (forall input v w,
     let '(evs, e, _) := session kfcntl st_mode (S (length input)) argc names fdList input v w in
     e <> OutOfFuel /\ Forall (req_ok fdList) evs).
Proof.
  intros Ha Hfd. split.
  - intros cs v w Hcs input. destruct (run_cmds kfcntl fdList argc cs w) as [evs w'] eqn:Er.
    unfold input. rewrite session_cmds; [by rewrite Er|done|done|done|].
    apply le_n_S. clear. induction cs as [|c cs IH]; [done|]. cbn [map concat length]. rewrite !length_app. cbn [length]. lia.
  - intros input v w. apply session_ok. lia.
Qed.

(** Two files; a write lock on the second, then a question about the first. *)
Definition cmds0 : list lock_cmd := [mkCmd 2 115 119 0 10 None; mkCmd 1 103 114 (-5) 5 (Some 101)].
Definition vars0 : vars := mkVars None None None None None None.

Lemma fcntl_session_witness :
  concat (map (fun c => cmd_line 3 c ++ [10]) cmds0) = str "2 s w 0 10" ++ [10] ++ str "1 g r -5 5 e" ++ [10] /\
  session (fun fd cmd fl (w : unit) => (mkRes 0 0 fl, w)) (fun _ => None) 25 3 [str "a"; str "b"] [0; 4; 5]
    (str "2 s w 0 10" ++ [10] ++ str "1 g r -5 5 e" ++ [10]) vars0 tt =
    ([Req 5 F_SETLK (mkFlock F_WRLCK SEEK_SET 0 10 0); Rep RGot;
      Req 4 F_GETLK (mkFlock F_RDLCK SEEK_END (-5) 5 0); Rep (RDenied false (-5) 5 0)], Success, tt).
Proof.
  split; [reflexivity|].
  assert (H : Forall (cmd_ok 3) cmds0).
  { unfold cmds0. apply Forall_cons_2; [|apply Forall_cons_2; [|apply Forall_nil_2]];
      unfold cmd_ok; cbn [s_file s_cmd s_lock s_start s_len s_whence]; unfold LONG_MIN, LONG_MAX; split_and!;
      try lia; try (apply list_elem_of_In; cbn; tauto); intros w [= <-]; apply list_elem_of_In; cbn; tauto. }
  exact (proj1 (fcntl_session (fun fd cmd fl (w : unit) => (mkRes 0 0 fl, w)) (fun _ => None) 3 [str "a"; str "b"] [0; 4; 5]
    ltac:(lia) eq_refl) cmds0 vars0 tt H).
Defined.

(** The last line without a newline loses its last character: ten bytes become one. *)
Example fcntl_last_line :
  (session (fun fd cmd fl (w : unit) => (mkRes 0 0 fl, w)) (fun _ => None) 9 2 [str "a"] [0; 4] (str "s w 0 10") vars0 tt).1.1 =
    [Req 4 F_SETLK (mkFlock F_WRLCK SEEK_SET 0 1 0); Rep RGot].
Proof. reflexivity. Qed.

(** With several files a first line without a number uses [fileNum] unassigned; a
    line that starts with NUL writes before the buffer. *)
Example fcntl_undefined :
  (session (fun fd cmd fl (w : unit) => (mkRes 0 0 fl, w)) (fun _ => None) 9 3 [str "a"; str "b"] [0; 4; 5] (str "x" ++ [10]) vars0 tt).1.2 =
    Undefined /\
  (session (fun fd cmd fl (w : unit) => (mkRes 0 0 fl, w)) (fun _ => None) 9 2 [str "a"] [0; 4] [0; 10] vars0 tt).1.2 = Undefined.
Proof. split; reflexivity. Qed.
