(* ===== verification/SimpleInit.v ===== *)
(** * SimpleInit: an init process that runs commands and reaps children.

    tlpi-dist/namespaces/simple_init.c.  The process is a step machine: main goes from
    system call to system call, a SIGCHLD that is pending interrupts it anywhere, and
    the handler makes one waitpid at a time while children go on dying.  Like any
    standard signal SIGCHLD is not queued: it is pending or not, and is held back
    while its handler runs. *)
From S2P Require Import Prelude Libc FcntlCmd.
From stdpp Require Import relations.
Local Open Scope Z_scope.

#[local] Arguments zsum : simpl never.

Definition CMD_SIZE : nat := Z.to_nat 10000.
#[global] Opaque CMD_SIZE.

(** ** Running a command *)

Section Child.
Context (wordexp : bytes -> option (list bytes)).   (* None: the expansion fails *)

(** A vector of words and the NULL that ends it. *)
Definition expand_words (cmd : bytes) : option (list (option bytes)) :=
  match wordexp cmd with
  | None => None
  | Some ws => Some (map Some ws ++ [None])
  end.

(** What the child does: it exits, or has an error, or executes a program; execvp of
    a null pointer is [ExecNull]. *)
Inductive child_end := ChildExit | ChildError | Exec (path : bytes) (argv : list (option bytes)) | ExecNull.

Definition child_main (setpgid_ok tcsetpgrp_ok : bool) (cmd : bytes) : child_end :=
  match expand_words cmd with
  | None => ChildExit
  | Some arg_vec =>
      if negb setpgid_ok then ChildError
      else if negb tcsetpgrp_ok then ChildError
      else match arg_vec !! 0%nat with Some (Some path) => Exec path arg_vec | _ => ExecNull end
  end.

End Child.

(** ** The process *)

(** A child: whether it has terminated, and whether it has stopped or continued
    since it was last waited for. *)
Record child := mkChild { cpid : Z; zombie : bool; news : bool }.

(** Where main is: before sigaction; setpgid; tcsetpgrp; the two mounts; reading a
    command; before fork; after it; in pause; before tcsetpgrp; before umount; after exit;
    after an access before the buffer. *)
Inductive ipc :=
  | ISigaction | ISetpgid | ITcsetpgrp | IMakeSlave | IMount | IPrompt | IFork (cmd : bytes) | IForked | IPause | ITake
  | IUmount | IExit (ok : bool) | IUndef.

Record ist := mkI {
  pc : ipc;
  input : bytes;
  children : list child;
  pending : bool;          (* SIGCHLD *)
  handling : bool;         (* child_handler is running *)
  mounted : bool;          (* the procfs *)
  started : list (Z * bytes) }.    (* the children forked, the last first, and their commands *)

Definition set_pc (s : ist) (p : ipc) : ist :=
  mkI p (input s) (children s) (pending s) (handling s) (mounted s) (started s).

(** The command in a line: the newline is stripped. *)
Definition strip (line : bytes) : option bytes :=
  match cstring line with
  | [] => None
  | s => Some (if bool_decide (last s = Some 10) then removelast s else s)
  end.

Section Init.
Context (proc_path : option bytes).

Definition after_start : ipc := match proc_path with Some _ => IMakeSlave | None => IPrompt end.
Definition before_end : ipc := match proc_path with Some _ => IUmount | None => IExit true end.

(** The loop up to fork: lines 196 to 208. *)
Definition read_cmd (s : ist) : ist :=
  match fgets CMD_SIZE (input s) with
  | None => set_pc s before_end
  | Some (line, rest) =>
      let s := mkI (pc s) rest (children s) (pending s) (handling s) (mounted s) (started s) in
      match strip line with
      | None => set_pc s IUndef
      | Some [] => set_pc s IPrompt
      | Some cmd => set_pc s (IFork cmd)
      end
  end.

(** A step of main, when no handler runs. *)
Inductive main_step (s : ist) : ist -> Prop :=
| m_sigaction : pc s = ISigaction -> main_step s (set_pc s ISetpgid)
| m_setpgid : pc s = ISetpgid -> main_step s (set_pc s ITcsetpgrp)
| m_tcsetpgrp : pc s = ITcsetpgrp -> main_step s (set_pc s after_start)
| m_slave : pc s = IMakeSlave -> main_step s (set_pc s IMount)     (* whatever it returns *)
| m_mount : pc s = IMount ->
    main_step s (mkI IPrompt (input s) (children s) (pending s) (handling s) true (started s))
| m_fails : pc s ∈ [ISigaction; ISetpgid; ITcsetpgrp; IMount; ITake; IUmount] -> main_step s (set_pc s (IExit false))
| m_read : pc s = IPrompt -> main_step s (read_cmd s)
| m_fork cmd p : pc s = IFork cmd -> p ∉ map cpid (children s) ->
    main_step s (mkI IForked (input s) (mkChild p false false :: children s) (pending s) (handling s) (mounted s)
                   ((p, cmd) :: started s))
| m_fork_fails cmd : pc s = IFork cmd -> main_step s (set_pc s before_end)
| m_pause : pc s = IForked -> main_step s (set_pc s IPause)
| m_take : pc s = ITake -> main_step s (set_pc s IPrompt)
| m_umount : pc s = IUmount ->
    main_step s (mkI (IExit true) (input s) (children s) (pending s) (handling s) false (started s)).

(** The handler is installed, and the process is there. *)
Definition up (p : ipc) : bool := match p with ISigaction | IExit _ | IUndef => false | _ => true end.

(** One call of waitpid in the handler.  When no child has anything to report it
    returns 0, or -1 with ECHILD when there is no child, and the handler returns:
    a pause it interrupted ends. *)
Inductive handler_step (s : ist) : ist -> Prop :=
| h_reap i c : children s !! i = Some c -> zombie c = true ->
    handler_step s (mkI (pc s) (input s) (delete i (children s)) (pending s) (handling s) (mounted s) (started s))
| h_news i c : children s !! i = Some c -> zombie c = false -> news c = true ->
    handler_step s (mkI (pc s) (input s) (<[i := mkChild (cpid c) false false]> (children s)) (pending s) (handling s)
                      (mounted s) (started s))
| h_return : Forall (fun c => zombie c = false /\ news c = false) (children s) ->
    handler_step s (mkI (match pc s with IPause => ITake | p => p end) (input s) (children s) (pending s) false
                      (mounted s) (started s)).

(** What the world does: a child terminates, stops or continues; an orphan, alive or
    dead, becomes a child of init.  SA_NOCLDSTOP: a stop sends no signal. *)
Inductive world_step (s : ist) : ist -> Prop :=
| w_exit i c : children s !! i = Some c -> zombie c = false ->
    world_step s (mkI (pc s) (input s) (<[i := mkChild (cpid c) true (news c)]> (children s)) true (handling s)
                    (mounted s) (started s))
| w_stop i c : children s !! i = Some c -> zombie c = false ->
    world_step s (mkI (pc s) (input s) (<[i := mkChild (cpid c) false true]> (children s)) (pending s) (handling s)
                    (mounted s) (started s))
| w_orphan p z : p ∉ map cpid (children s) ->
    world_step s (mkI (pc s) (input s) (mkChild p z false :: children s) (pending s || z) (handling s) (mounted s) (started s)).

(** Delivery of the signal, and the handler's work. *)
Inductive reap_step (s : ist) : ist -> Prop :=
| r_deliver : up (pc s) = true -> pending s = true -> handling s = false ->
    reap_step s (mkI (pc s) (input s) (children s) false true (mounted s) (started s))
| r_handler s' : up (pc s) = true -> handling s = true -> handler_step s s' -> reap_step s s'.

Inductive istep (s : ist) : ist -> Prop :=
| i_main s' : handling s = false -> main_step s s' -> istep s s'
| i_reap s' : reap_step s s' -> istep s s'
| i_world s' : up (pc s) = true -> world_step s s' -> istep s s'.

End Init.

(** [main] after the options; the first process of a PID namespace has no children. *)
Definition istart (input : bytes) : ist := mkI ISigaction input [] false false false [].

(** ** Reaping *)

Record iinv (s : ist) : Prop := {
  i_zombie : up (pc s) = true -> pending s = false -> handling s = false -> Forall (fun c => zombie c = false) (children s);
  i_handling : handling s = true -> up (pc s) = true;
  i_before : pc s = ISigaction -> children s = [];
}.

Section Inv.
Context (proc_path : option bytes).

(** Main has mounted the procfs only when it was asked to, and unmounts it. *)
Definition mount_inv (s : ist) : Prop :=
  (proc_path = None -> mounted s = false) /\
  match pc s with
  | ISigaction | ISetpgid | ITcsetpgrp | IExit true => mounted s = false
  | IMakeSlave | IMount => mounted s = false /\ proc_path <> None
  | _ => True
  end.

(** Main moves on and leaves the children alone. *)
Lemma iinv_move s p m inp st :
  iinv s -> up (pc s) = true \/ children s = [] -> p <> ISigaction -> handling s = false ->
  iinv (mkI p inp (children s) (pending s) (handling s) m st).
Proof.
  intros H Hu Hn Hh. split; cbn; [|by rewrite Hh|done]. intros _ Hp _.
  destruct Hu as [Hu| ->]; [by apply (i_zombie _ H)|constructor].
Qed.

Lemma main_iinv s s' :
  iinv s -> handling s = false -> main_step proc_path s s' -> iinv s'.
Proof.
  intros H Hh Hs. destruct Hs as [E|E|E|E|E|E|E|cmd p E Hp|cmd E|E|E|E];
    try (apply iinv_move; rewrite ?E; [done|by left|done|done]).
  - apply iinv_move; [done|right; by apply (i_before _ H)|done|done].
  - apply iinv_move; rewrite ?E; [done|by left|unfold after_start; by destruct proc_path|done].
  - apply iinv_move; [done| |done|done]. apply elem_of_cons in E as [E|E]; [right; by apply (i_before _ H)|].
    left. repeat (apply elem_of_cons in E as [E|E]; [by rewrite E|]). by apply elem_of_nil in E.
  - unfold read_cmd, before_end. destruct (fgets _ _) as [[line rest]|]; [destruct (strip line) as [[|]|]|];
      (apply (iinv_move s); rewrite ?E; [done|by left|by destruct proc_path|done]).
  - split; cbn; [|by rewrite Hh|done]. intros _ Hp' _. constructor; [done|]. apply (i_zombie _ H); by rewrite ?E.
  - apply iinv_move; rewrite ?E; [done|by left|unfold before_end; by destruct proc_path|done].
Qed.

Lemma main_mount s s' : mount_inv s -> main_step proc_path s s' -> mount_inv s'.
Proof.
  intros [Hm1 Hm2] Hs. destruct Hs as [E|E|E|E|E|E|E|cmd p E Hp|cmd E|E|E|E]; try rewrite E in Hm2;
    try (by split).
  - split; [done|]. cbn. unfold after_start. by destruct proc_path.
  - split; [|done]. cbn. intros Hn. by destruct Hm2.
  - unfold read_cmd, before_end. destruct (fgets _ _) as [[line rest]|]; [destruct (strip line) as [[|]|]|];
      split; cbn; try done; destruct proc_path; try done; by apply Hm1.
  - split; cbn; [done|]. unfold before_end. destruct proc_path; [done|by apply Hm1].
Qed.

Lemma handler_iinv s s' : iinv s -> up (pc s) = true -> handling s = true -> handler_step s s' -> iinv s'.
Proof.
  intros H Hu Hh Hs. destruct Hs as [i c Hi Hz|i c Hi Hz Hn|Hall].
  - split; cbn; [by rewrite Hh|done|]. intros E. by rewrite E in Hu.
  - split; cbn; [by rewrite Hh|done|]. intros E. by rewrite E in Hu.
  - split; cbn; [|done|].
    + intros _ _ _. eapply Forall_impl; [exact Hall|]. by intros c [? _].
    + by destruct (pc s).
Qed.

Lemma world_iinv s s' : iinv s -> up (pc s) = true -> world_step s s' -> iinv s'.
Proof.
  intros H Hu Hs. destruct Hs as [i c Hi Hz|i c Hi Hz|p z Hp]; (split; cbn; [|done|intros E; by rewrite E in Hu]).
  - done.
  - intros _ Hp Hh. apply Forall_insert; [by apply (i_zombie _ H)|done].
  - intros _ Hp' Hh. apply orb_false_iff in Hp' as [Hp' ->]. constructor; [done|by apply (i_zombie _ H)].
Qed.

Lemma istep_inv s s' : iinv s -> mount_inv s -> istep proc_path s s' -> iinv s' /\ mount_inv s'.
Proof.
  intros H Hm Hs. destruct Hs as [s1 Hh Hs|s1 [Hu Hp Hh|s2 Hu Hh Hs]|s1 Hu Hs].
  - split; [by eapply main_iinv|by eapply main_mount].
  - split; [|done]. split; cbn; [done|done|]. intros E. by rewrite E in Hu.
  - split; [by eapply handler_iinv|]. destruct Hm as [Hm1 Hm2]. destruct Hs; split; cbn; try done. by destruct (pc s).
  - split; [by eapply world_iinv|]. destruct Hm as [Hm1 Hm2]. destruct Hs; by split.
Qed.

End Inv.

(** ** The handler's work *)

Definition to_report (c : child) : Z := (if zombie c then 1 else 0) + (if news c then 1 else 0).

(** Calls of waitpid that are left, and the delivery. *)
Definition rpot (s : ist) : Z :=
  zsum to_report (children s) + (if handling s then 1 else 0) + (if pending s then 2 else 0).

Lemma to_report_nonneg c : 0 <= to_report c.
Proof. unfold to_report. by destruct (zombie c), (news c). Qed.

Lemma rpot_nonneg s : 0 <= rpot s.
Proof.
  unfold rpot. assert (0 <= zsum to_report (children s)) by apply zsum_nonneg, to_report_nonneg.
  destruct (handling s), (pending s); lia.
Qed.

Lemma zsum_delete {A} (f : A -> Z) l i x : l !! i = Some x -> zsum f (delete i l) = zsum f l - f x.
Proof.
  revert i. induction l as [|y l IH]; intros [|i] Hi; try done.
  - injection Hi as ->. change (delete 0%nat (x :: l)) with l. rewrite zsum_cons. lia.
  - change (delete (S i) (y :: l)) with (y :: delete i l). rewrite !zsum_cons, (IH i Hi). lia.
Qed.

(** The children that are alive. *)
Definition alive (l : list child) : list Z := map cpid (filter (fun c => zombie c = false) l).

Lemma alive_delete l i c : l !! i = Some c -> zombie c = true -> alive (delete i l) = alive l.
Proof.
  unfold alive. revert i. induction l as [|y l IH]; intros [|i] Hi Hz; try done.
  - injection Hi as ->. change (delete 0%nat (c :: l)) with l. rewrite filter_cons_False; [done|]. by rewrite Hz.
  - change (delete (S i) (y :: l)) with (y :: delete i l). rewrite !filter_cons. case_decide; cbn; by rewrite (IH i Hi Hz).
Qed.

Lemma alive_insert l i c c' : l !! i = Some c -> zombie c = false -> zombie c' = false -> cpid c' = cpid c ->
  alive (<[i := c']> l) = alive l.
Proof.
  unfold alive. revert i. induction l as [|y l IH]; intros [|i] Hi Hz Hz' Hc; try done.
  - injection Hi as ->. change (<[0%nat := c']> (c :: l)) with (c' :: l). rewrite !filter_cons_True by done. cbn. by rewrite Hc.
  - change (<[S i := c']> (y :: l)) with (y :: <[i := c']> l). rewrite !filter_cons.
    case_decide; cbn [map]; by rewrite (IH i Hi Hz Hz' Hc).
Qed.

Lemma alive_all l : Forall (fun c => zombie c = false) l -> alive l = map cpid l.
Proof.
  unfold alive. induction 1 as [|c l Hc _ IH]; [done|]. rewrite filter_cons_True by done. cbn. by rewrite IH.
Qed.

Lemma reap_step_ok s s' :
  reap_step s s' ->
  rpot s' < rpot s /\ alive (children s') = alive (children s) /\
  (pc s' = pc s \/ pc s = IPause /\ pc s' = ITake) /\ up (pc s') = true.
Proof.
  intros [Hu Hp Hh|s1 Hu Hh [i c Hi Hz|i c Hi Hz Hn|Hall]]; unfold rpot; cbn.
  - rewrite Hp, Hh. split_and!; [lia|done|by left|done].
  - rewrite (zsum_delete _ _ _ _ Hi). unfold to_report at 2. rewrite Hz, Hh. split_and!; [|by eapply alive_delete|by left|done].
    destruct (news c), (pending s); lia.
  - rewrite (zsum_insert _ _ _ _ _ Hi). unfold to_report at 2 3. cbn. rewrite Hz, Hn, Hh.
    split_and!; [destruct (pending s); lia|by eapply alive_insert|by left|done].
  - rewrite Hh. split_and!; [destruct (pending s); lia|done| |by destruct (pc s)].
    destruct (pc s); try (by left). by right.
Qed.

(** Until nothing is pending and the handler has returned, there is a next step. *)
Lemma reap_progress s : up (pc s) = true -> handling s || pending s = true -> exists s', reap_step s s'.
Proof.
  intros Hu Hb. destruct (handling s) eqn:Hh; [|cbn in Hb; eexists; by apply r_deliver].
  destruct (decide (Forall (fun c => zombie c = false /\ news c = false) (children s))) as [Hall|Hex].
  - eexists. apply r_handler; [done|done|by apply h_return].
  - apply not_Forall_Exists in Hex; [|apply _]. apply Exists_exists in Hex as (c & Hc & Hn).
    apply list_elem_of_lookup_1 in Hc as [i Hi]. destruct (zombie c) eqn:Hz.
    + eexists. apply r_handler; [done|done|by eapply h_reap].
    + destruct (news c) eqn:Hnw; [|by destruct Hn].
      eexists. apply r_handler; [done|done|by eapply h_news].
Qed.

(** ** Init leaves no zombies *)

#[local] Arguments zsum : simpl never.

Lemma isteps_inv proc_path input s :
  rtc (istep proc_path) (istart input) s -> iinv s /\ mount_inv proc_path s.
Proof.
  intros Hs. assert (H0 : iinv (istart input) /\ mount_inv proc_path (istart input)) by (split; [by split|by split]).
  revert H0. induction Hs as [|s1 s2 s3 H1 _ IH]; [done|]. intros [Hi Hm]. apply IH. by eapply istep_inv.
Qed.

(** A run of the handler. *)
Lemma reaps_ok n s s' :
  nsteps reap_step n s s' -> up (pc s) = true ->
  Z.of_nat n + rpot s' <= rpot s /\ alive (children s') = alive (children s) /\
  (pc s' = pc s \/ pc s = IPause /\ pc s' = ITake) /\ up (pc s') = true.
Proof.
  induction 1 as [s|n s1 s2 s3 Hs _ IH]; intros Hu; [split_and!; [lia|done|by left|done]|].
  destruct (reap_step_ok _ _ Hs) as (Hp & Ha & Hpc & Hu2). destruct (IH Hu2) as (Hp' & Ha' & Hpc' & Hu').
  split_and!; [lia|congruence| |done]. destruct Hpc as [Hpc|[H1 H2]]; [by rewrite <- Hpc|].
  right. split; [done|]. destruct Hpc' as [-> |[H3 _]]; [done|congruence].
Qed.

(** A pause the handler interrupts has ended when the handler has returned. *)
Lemma reap_wakes n s s' :
  nsteps reap_step n s s' -> pc s = IPause -> handling s || pending s = true -> handling s' || pending s' = false ->
  pc s' = ITake.
Proof.
  induction 1 as [s|n s1 s2 s3 Hs Hn IH]; intros Hp Hb Hb'; [congruence|].
  destruct Hs as [Hu Hpe Hh|s2 Hu Hh [i c Hi Hz|i c Hi Hz Hnw|Hall]]; try (by apply IH; [|cbn; rewrite ?Hh|]).
  destruct (reaps_ok _ _ _ Hn ltac:(cbn; by rewrite Hp)) as (_ & _ & Hpc & _). cbn in Hpc. rewrite Hp in Hpc.
  by destruct Hpc as [?|[? _]].
Qed.

(** C16: Init reaps.  In every state the process can reach, with any commands, any
    children stopping, continuing and dying at any moment and any orphans becoming its
    children, and although signals that come while one is pending are lost: when no
    SIGCHLD is pending and its handler is not running there is no zombie.  When one is
    pending, or the handler runs, then left alone the handler makes as many calls as
    there are reports, and at most three steps more, and comes to an end; then exactly
    the children that were alive are left, and a pause of main that was interrupted
    has ended.  An exit with success leaves no procfs mounted. *)
Theorem init_reaps proc_path input s :
  rtc (istep proc_path) (istart input) s ->
  (pc s = IExit true -> mounted s = false) /\
  (up (pc s) = true ->
     (pending s = false -> handling s = false -> Forall (fun c => zombie c = false) (children s)) /\
     forall n s', nsteps reap_step n s s' ->
       Z.of_nat n <= zsum to_report (children s) + 3 /\
       ((forall s'', ~ reap_step s' s'') ->
          map cpid (children s') = alive (children s) /\
          (pc s = IPause -> pending s = true \/ handling s = true -> pc s' = ITake))).
Proof.
  intros Hs. destruct (isteps_inv _ _ _ Hs) as [Hi [_ Hm]]. split; [intros E; by rewrite E in Hm|]. intros Hu.
  split; [by apply (i_zombie _ Hi)|]. intros n s' Hn. destruct (reaps_ok _ _ _ Hn Hu) as (Hp & Ha & Hpc & Hu').
  split.
  - assert (Hnn := rpot_nonneg s'). unfold rpot in Hp at 2. destruct (handling s), (pending s); lia.
  - intros Hno. assert (Hb : handling s' || pending s' = false).
    { apply not_true_iff_false. intros Hb. destruct (reap_progress s' Hu' Hb) as [s'' H2]. by apply (Hno s''). }
    split.
    + rewrite <- Ha. symmetry. apply alive_all. apply orb_false_iff in Hb as [Hh Hpe].
      assert (Hi' : iinv s') by (apply (isteps_inv proc_path input); etrans; [exact Hs|];
        clear -Hn; induction Hn as [|n s1 s2 s3 H1 _ IH]; [by apply rtc_refl|]; eapply rtc_l; [by apply i_reap|done]).
      by apply (i_zombie _ Hi').
    + intros Ep Hor. eapply reap_wakes; [exact Hn|done| |done]. by destruct Hor as [-> | ->]; rewrite ?orb_true_r.
Qed.

(** Two children die while init waits, with one signal; an orphan that lives stays. *)
Definition two_dead : ist :=
  mkI IPause [] [mkChild 3 true true; mkChild 4 false false; mkChild 2 true false] true false false [(2, str "ls")].

Lemma read_ls s : input s = str "ls" ++ [10] ->
  read_cmd None s = mkI (IFork (str "ls")) [] (children s) (pending s) (handling s) (mounted s) (started s).
Proof.
  intros E. unfold read_cmd. rewrite E. assert (Hf : fgets CMD_SIZE (str "ls" ++ [10]) = Some (str "ls" ++ [10], [])).
  { vm_compute. reflexivity. }
  by rewrite Hf.
Qed.

(** Init has read its first command and forked child 2. *)
Lemma forked_reached : rtc (istep None) (istart (str "ls" ++ [10]))
  (mkI IForked [] [mkChild 2 false false] false false false [(2, str "ls")]).
Proof.
  eapply rtc_l; [by apply i_main; [|apply m_sigaction]|]. eapply rtc_l; [by apply i_main; [|apply m_setpgid]|].
  eapply rtc_l; [by apply i_main; [|apply m_tcsetpgrp]|]. eapply rtc_l; [by apply i_main; [|apply m_read]|].
  rewrite read_ls by done. eapply rtc_l; [apply i_main; [done|apply (m_fork _ _ (str "ls") 2); [done|apply not_elem_of_nil]]|].
  apply rtc_refl.
Qed.

Lemma two_dead_reached : rtc (istep None) (istart (str "ls" ++ [10])) two_dead.
Proof.
  etrans; [exact forked_reached|]. eapply rtc_l; [by apply i_main; [|apply m_pause]|].
  eapply rtc_l; [apply i_world; [done|apply (w_orphan _ 4 false); cbn; set_solver]|].
  eapply rtc_l; [apply i_world; [done|apply (w_orphan _ 3 false); cbn; set_solver]|].
  eapply rtc_l; [apply i_world; [done|by eapply (w_stop _ 0)]|].
  eapply rtc_l; [apply i_world; [done|by eapply (w_exit _ 0)]|].
  eapply rtc_l; [apply i_world; [done|by eapply (w_exit _ 2)]|]. apply rtc_refl.
Qed.

Lemma init_reaps_witness :
  exists s', rtc reap_step two_dead s' /\ map cpid (children s') = [4] /\ pc s' = ITake.
Proof.
  set (s2 := mkI ITake [] [mkChild 4 false false] false false false [(2, str "ls")]).
  assert (Hn : nsteps reap_step 4 two_dead s2).
  { eapply nsteps_l; [by apply r_deliver|]. eapply nsteps_l; [apply r_handler; [done|done|by eapply (h_reap _ 0)]|].
    eapply nsteps_l; [apply r_handler; [done|done|by eapply (h_reap _ 1)]|].
    eapply nsteps_l; [apply r_handler; [done|done|apply h_return; by repeat constructor]|]. apply nsteps_O. }
  exists s2. split; [by eapply rtc_nsteps_2|].
  destruct (init_reaps None (str "ls" ++ [10]) two_dead two_dead_reached) as [_ H].
  destruct (H eq_refl) as [_ H']. destruct (H' 4%nat s2 Hn) as [_ Hdone].
  destruct Hdone as [Ha Hw].
  - intros s'' [_ Hp _|s3 _ Hh _]; discriminate.
  - split; [exact Ha|]. apply Hw; [reflexivity|by left].
Defined.

(** When the child dies between fork and pause, the signal is handled before the pause,
    which nothing ends: init waits although there is no child left. *)
Example init_misses_child :
  exists s, rtc (istep None) (istart (str "ls" ++ [10])) s /\ pc s = IPause /\ children s = [] /\
    (forall s', ~ main_step None s s') /\ (forall s', ~ reap_step s s').
Proof.
  exists (mkI IPause [] [] false false false [(2, str "ls")]). split_and!; [|done|done| |].
  - etrans; [exact forked_reached|].
    eapply rtc_l; [apply i_world; [done|by eapply (w_exit _ 0)]|].
    eapply rtc_l; [by apply i_reap, r_deliver|].
    eapply rtc_l; [apply i_reap, r_handler; [done|done|by eapply (h_reap _ 0)]|].
    eapply rtc_l; [apply i_reap, r_handler; [done|done|apply h_return; constructor]|].
    eapply rtc_l; [by apply i_main; [|apply m_pause]|]. apply rtc_refl.
  - intros s' Hs. inversion Hs as [E|E|E|E|E|E|E|cmd p E _|cmd E|E|E|E]; cbn in E; try discriminate E.
    repeat (apply elem_of_cons in E as [E|E]; [discriminate E|]). by apply elem_of_nil in E.
  - intros s' [_ Hp _|s3 _ Hh _]; discriminate.
Qed.

(** A command of blanks alone: the word list is empty, and execvp is given a null
    pointer. *)
Example init_blank_command :
  (forall ws, child_main (fun _ => Some ws) true true (str "  ") = ExecNull <-> ws = []).
Proof. intros [|w ws]; cbn; split; congruence. Qed.
