(* ===== verification/Diag.v ===== *)
(** * Diag: the error functions of both libraries.

    tlpi-dist/lib/error_functions.c, apue.2e/lib/error.c and errorlog.c.  The text of
    a message is what its format gives; each function returns what it does to the
    standard streams and the log, and how it ends.  A write past the end of a buffer
    is [None]. *)
From S2P Require Import Prelude Libc Env.
Local Open Scope Z_scope.

(** What is done to the streams and the log. *)
Inductive io := FlushOut | FlushErr | FlushAll | Puts (b : bytes) | Syslog (priority : Z) (format : bytes).

(** How a function ends. *)
Inductive how := Returns | Exit (status : Z) | ExitNow (status : Z) | Aborts.

(** The string [snprintf] leaves in a buffer of [n] bytes. *)
Definition snprintf (n : Z) (s : bytes) : bytes := take (Z.to_nat (n - 1)) s.

Section Diag.
Context (strerror : Z -> bytes).

(** ** error_functions.c *)

Context (ename : Z -> bytes) (MAX_ENAME : Z).   (* ename.c.inc, which the build generates *)

Definition BUF_SIZE : Z := 500.

Definition terminate (env : environ) (useExit3 : bool) : how :=
  match getenv env (str "EF_DUMPCORE") with
  | Some (_ :: _) => Aborts
  | _ => if useExit3 then Exit 1 else ExitNow 1
  end.

Definition outputError (useErr : bool) (e : Z) (flushStdout : bool) (msg : bytes) : list io :=
  let userMsg := snprintf BUF_SIZE msg in
  let errText :=
    if useErr then
      snprintf BUF_SIZE (str " [" ++ (if (0 <? e) && (e <=? MAX_ENAME) then ename e else str "?UNKNOWN?") ++
                         str " " ++ strerror e ++ str "]")
    else snprintf BUF_SIZE (str ":") in
  let buf := snprintf BUF_SIZE (str "ERROR" ++ errText ++ str " " ++ userMsg ++ [10]) in
  (if flushStdout then [FlushOut] else []) ++ [Puts buf; FlushErr].

(** Each with errno before and what the output calls leave there; the result has
    errno after. *)
Definition errMsg (errno clobbered : Z) (msg : bytes) : list io * Z * how :=
  let savedErrno := errno in
  let out := outputError true errno true msg in
  let errno := clobbered in
  let errno := savedErrno in
  (out, errno, Returns).

Definition errExit (env : environ) (errno : Z) (msg : bytes) : list io * how :=
  (outputError true errno true msg, terminate env true).
Definition err_exit (env : environ) (errno : Z) (msg : bytes) : list io * how :=
  (outputError true errno false msg, terminate env false).
Definition errExitEN (env : environ) (errnum : Z) (msg : bytes) : list io * how :=
  (outputError true errnum true msg, terminate env true).
Definition fatal (env : environ) (msg : bytes) : list io * how :=
  (outputError false 0 true msg, terminate env true).
Definition usageErr (msg : bytes) : list io * how :=
  ([FlushOut; Puts (str "Usage: "); Puts msg; FlushErr], Exit 1).
Definition cmdLineErr (msg : bytes) : list io * how :=
  ([FlushOut; Puts (str "Command-line usage error: "); Puts msg; FlushErr], Exit 1).

(** ** error.c and errorlog.c *)

Definition MAXLINE : Z := 4096.

(** [vsnprintf], [snprintf] of the error text after it, and [strcat] of a newline,
    which does not look at the size of the buffer. *)
Definition message (errnoflag : bool) (error : Z) (msg : bytes) : option bytes :=
  let b := snprintf MAXLINE msg in
  let b := if errnoflag then b ++ snprintf (MAXLINE - Z.of_nat (length b)) (str ": " ++ strerror error) else b in
  if Z.of_nat (length b) + 2 <=? MAXLINE then Some (b ++ [10]) else None.

Definition err_doit (errnoflag : bool) (error : Z) (msg : bytes) : option (list io) :=
  match message errnoflag error msg with None => None | Some b => Some [FlushOut; Puts b; FlushAll] end.

Definition ending (h : how) (o : option (list io)) : option (list io * how) :=
  match o with None => None | Some out => Some (out, h) end.

Definition err_ret (errno : Z) (msg : bytes) := ending Returns (err_doit true errno msg).
Definition err_sys (errno : Z) (msg : bytes) := ending (Exit 1) (err_doit true errno msg).
Definition apue_err_exit (error : Z) (msg : bytes) := ending (Exit 1) (err_doit true error msg).
Definition err_dump (errno : Z) (msg : bytes) := ending Aborts (err_doit true errno msg).
Definition err_msg (msg : bytes) := ending Returns (err_doit false 0 msg).
Definition err_quit (msg : bytes) := ending (Exit 1) (err_doit false 0 msg).

Definition LOG_ERR : Z := 3.

(** In a daemon the finished text is the format of [syslog]. *)
Definition log_doit (log_to_stderr : bool) (errnoflag : bool) (errno priority : Z) (msg : bytes) : option (list io) :=
  let errno_save := errno in
  match message errnoflag errno_save msg with
  | None => None
  | Some b => Some (if log_to_stderr then [FlushOut; Puts b; FlushErr] else [Syslog priority b])
  end.

Definition log_ret (to_err : bool) (errno : Z) (msg : bytes) := ending Returns (log_doit to_err true errno LOG_ERR msg).
Definition log_sys (to_err : bool) (errno : Z) (msg : bytes) := ending (Exit 2) (log_doit to_err true errno LOG_ERR msg).
Definition log_msg (to_err : bool) (errno : Z) (msg : bytes) := ending Returns (log_doit to_err false errno LOG_ERR msg).
Definition log_quit (to_err : bool) (errno : Z) (msg : bytes) := ending (Exit 2) (log_doit to_err false errno LOG_ERR msg).

(** ** What is written *)

Lemma snprintf_short n s : Z.of_nat (length s) < n -> snprintf n s = s.
Proof. intros H. unfold snprintf. apply take_ge. lia. Qed.

Lemma snprintf_length n s : 0 < n -> Z.of_nat (length (snprintf n s)) = Z.min (n - 1) (Z.of_nat (length s)).
Proof. intros H. unfold snprintf. rewrite length_take. lia. Qed.

(** The whole of a diagnostic, before anything is cut. *)
Definition errtext (useErr : bool) (e : Z) : bytes :=
  if useErr then str " [" ++ (if (0 <? e) && (e <=? MAX_ENAME) then ename e else str "?UNKNOWN?") ++ str " " ++
                 strerror e ++ str "]"
  else str ":".
Definition diagnostic (useErr : bool) (e : Z) (msg : bytes) : bytes :=
  str "ERROR" ++ errtext useErr e ++ str " " ++ msg ++ [10].

Definition suffix (errnoflag : bool) (error : Z) : bytes := if errnoflag then str ": " ++ strerror error else [].

(** The strings given to [fputs]. *)
Definition written (o : list io) : list bytes := omap (fun x => match x with Puts b => Some b | _ => None end) o.

Lemma outputError_written useErr e fl msg :
  exists b, written (outputError useErr e fl msg) = [b] /\ Z.of_nat (length b) < BUF_SIZE /\ take 5 b = str "ERROR" /\
    (Z.of_nat (length (diagnostic useErr e msg)) < BUF_SIZE -> b = diagnostic useErr e msg).
Proof.
  assert (E : written (outputError useErr e fl msg) =
    [snprintf BUF_SIZE (str "ERROR" ++ snprintf BUF_SIZE (errtext useErr e) ++ str " " ++ snprintf BUF_SIZE msg ++ [10])])
    by (unfold written, outputError; by destruct fl, useErr).
  eexists. split; [exact E|]. split_and!.
  - rewrite snprintf_length by (unfold BUF_SIZE; lia). lia.
  - reflexivity.
  - change (diagnostic useErr e msg) with (str "ERROR" ++ errtext useErr e ++ str " " ++ msg ++ [10]). intros Hl.
    assert (Hl' := Hl). rewrite !length_app in Hl'. rewrite (snprintf_short BUF_SIZE (errtext useErr e)) by lia.
    rewrite (snprintf_short BUF_SIZE msg) by lia. by apply snprintf_short.
Qed.

(** The buffer is long enough exactly when the text, the error text and the newline
    leave room for the NUL. *)
Lemma message_spec errnoflag error msg :
  message errnoflag error msg =
    if Z.of_nat (length (msg ++ suffix errnoflag error)) <=? MAXLINE - 2
    then Some (msg ++ suffix errnoflag error ++ [10]) else None.
Proof.
  unfold message, suffix. rewrite length_app, Nat2Z.inj_add.
  assert (Hb := snprintf_length MAXLINE msg ltac:(unfold MAXLINE; lia)). set (b := snprintf MAXLINE msg) in *.
  set (x := str ": " ++ strerror error) in *.
  assert (Hs : Z.of_nat (length msg) < MAXLINE -> b = msg) by apply snprintf_short.
  destruct errnoflag.
  - assert (Hx := snprintf_length (MAXLINE - Z.of_nat (length b)) x ltac:(lia)).
    rewrite length_app, Nat2Z.inj_add.
    destruct (Z.leb_spec (Z.of_nat (length msg) + Z.of_nat (length x)) (MAXLINE - 2)) as [Hl|Hl].
    + rewrite (snprintf_short _ x) by lia. rewrite Hs by lia. rewrite (proj2 (Z.leb_le _ _)) by lia.
      by rewrite <- app_assoc.
    + rewrite (proj2 (Z.leb_gt _ _)); [done|]. lia.
  - cbn [length]. destruct (Z.leb_spec (Z.of_nat (length msg) + Z.of_nat 0) (MAXLINE - 2)) as [Hl|Hl].
    + rewrite Hs by lia. rewrite (proj2 (Z.leb_le _ _)) by lia. done.
    + rewrite (proj2 (Z.leb_gt _ _)); [done|]. lia.
Qed.

End Diag.

(** ** What the error functions write, and how they end *)

(** Diagnostics.  In the TLPI library, whatever the message, exactly one string
    goes to the standard error stream, of at most 499 bytes, that starts with ERROR;
    it is the whole diagnostic with the name and text of the error number and a
    newline when that fits; [errMsg] leaves errno as it was, and [terminate] aborts
    exactly when EF_DUMPCORE is set and not empty.  In the APUE library the message,
    the error text and a newline are written whole when together they leave room for
    a NUL in 4096 bytes, and otherwise the newline is written past the end of the
    buffer: [err_doit] and [log_doit] have no other outcome. *)
Lemma diagnostics_bounded strerror ename MAX_ENAME :
  (forall useErr e fl msg, exists b,
     written (outputError strerror ename MAX_ENAME useErr e fl msg) = [b] /\
     Z.of_nat (length b) <= 499 /\ take 5 b = str "ERROR" /\
     (Z.of_nat (length (diagnostic strerror ename MAX_ENAME useErr e msg)) <= 499 ->
        b = diagnostic strerror ename MAX_ENAME useErr e msg)) /\
  (forall errno clobbered msg, (errMsg strerror ename MAX_ENAME errno clobbered msg).1.2 = errno) /\
  (forall env useExit3, terminate env useExit3 = Aborts <-> exists c s, getenv env (str "EF_DUMPCORE") = Some (c :: s)) /\
  (forall flag e msg,
     err_doit strerror flag e msg =
       (if Z.of_nat (length (msg ++ suffix strerror flag e)) <=? 4094
        then Some [FlushOut; Puts (msg ++ suffix strerror flag e ++ [10]); FlushAll] else None) /\
     forall to_err priority,
       log_doit strerror to_err flag e priority msg =
         (if Z.of_nat (length (msg ++ suffix strerror flag e)) <=? 4094
          then Some (if to_err then [FlushOut; Puts (msg ++ suffix strerror flag e ++ [10]); FlushErr]
                     else [Syslog priority (msg ++ suffix strerror flag e ++ [10])])
          else None)).
Proof.
  split_and!.
  - intros useErr e fl msg. destruct (outputError_written strerror ename MAX_ENAME useErr e fl msg) as (b & H1 & H2 & H3 & H4).
    unfold BUF_SIZE in *. exists b. split_and!; [done|lia|done|]. intros Hl. apply H4. lia.
  - done.
  - intros env u. unfold terminate. destruct (getenv env (str "EF_DUMPCORE")) as [[|c s]|].
    + destruct u; split; [done|by intros (? & ? & ?)|done|by intros (? & ? & ?)].
    + split; [by eauto|done].
    + destruct u; split; [done|by intros (? & ? & ?)|done|by intros (? & ? & ?)].
  - intros flag e msg. split; [|intros to_err priority]; unfold err_doit, log_doit; rewrite message_spec;
      change (MAXLINE - 2) with 4094; by destruct (_ <=? _).
Qed.

(** A message of 491 bytes is the longest that [fatal] writes with its newline. *)
Example fatal_longest (strerror ename : Z -> bytes) :
  (forall n, (n <= 491)%nat -> written (fatal strerror ename 0 [] (replicate n 120)).1 =
     [str "ERROR: " ++ replicate n 120 ++ [10]]) /\
  written (fatal strerror ename 0 [] (replicate 492 120)).1 = [str "ERROR: " ++ replicate 492 120].
Proof.
  split; [|reflexivity]. intros n Hn.
  destruct (outputError_written strerror ename 0 false 0 true (replicate n 120)) as (b & H1 & _ & _ & H4).
  unfold fatal. cbn [fst]. rewrite H1, H4; [done|]. unfold diagnostic, errtext, BUF_SIZE. rewrite !length_app, length_replicate.
  cbn [length str]. cbn. lia.
Qed.
