(* ===== verification/TellWait.v ===== *)
(** * TellWait: a parent and a child that take turns.

    The interface of TELL_WAIT, TELL_CHILD, WAIT_PARENT and their mirror images; its
    two implementations, over pipes (apue.2e/ipc/tellwait.c) and over signals
    (apue.2e/lib/tellwait.c); and a client, apue.2e/advio/devzero.c, whose two
    processes increment a counter in shared memory in turn. *)
From S2P Require Import Prelude.
From stdpp Require Import relations.
Local Open Scope Z_scope.

Inductive side := Parent | Child.

#[export] Instance side_eq_dec : EqDecision side.
Proof. solve_decision. Defined.

Definition other (x : side) : side := match x with Parent => Child | Child => Parent end.

(** ** The interface *)

(** [owed s x]: how many times [x] has been told and has not yet waited for it. *)
Class Sync (S : Type) := {
  sync_init : S;                      (* after TELL_WAIT and fork *)
  tell : side -> S -> S;              (* a side tells the other *)
  enter : side -> S -> S;             (* a side calls its WAIT function *)
  waiting : S -> side -> bool;        (* the call has not returned *)
  sync_step : S -> S -> Prop;         (* a step inside a WAIT, or of a signal *)
  owed : S -> side -> nat;
  sync_ok : S -> Prop;
  init_ok : sync_ok sync_init /\ forall x, owed sync_init x = 0%nat /\ waiting sync_init x = false;
  tell_ok : forall s x, sync_ok s -> waiting s x = false -> owed s (other x) = 0%nat ->
    sync_ok (tell x s) /\ owed (tell x s) (other x) = 1%nat /\ owed (tell x s) x = owed s x /\
    forall y, waiting (tell x s) y = waiting s y;
  enter_ok : forall s x, sync_ok s -> waiting s x = false ->
    sync_ok (enter x s) /\ (forall y, owed (enter x s) y = owed s y) /\
    waiting (enter x s) x = true /\ waiting (enter x s) (other x) = waiting s (other x);
  step_ok : forall s s', sync_ok s -> sync_step s s' ->
    sync_ok s' /\
    forall x, (waiting s' x = waiting s x /\ owed s' x = owed s x) \/
              (waiting s x = true /\ waiting s' x = false /\ owed s x = Datatypes.S (owed s' x));
}.

(** A WAIT that is owed something returns, in a bounded number of steps. *)
Class SyncLive (S : Type) {I : Sync S} := {
  work : S -> nat;
  cost : nat;
  work_init : (work sync_init <= cost)%nat;
  work_tell : forall s x, (work (tell x s) <= work s + cost)%nat;
  work_enter : forall s x, (work (enter x s) <= work s + cost)%nat;
  work_step : forall s s', sync_ok s -> sync_step s s' -> (work s' < work s)%nat;
  wait_progress : forall s x, sync_ok s -> waiting s x = true -> (0 < owed s x)%nat -> exists s', sync_step s s';
}.

(** ** Over pipes *)

Record pipes := mkPipes {
  pfd1 : bytes;        (* written to the child, not yet read *)
  pfd2 : bytes;        (* written to the parent *)
  reading : side -> bool;
  broken : bool }.     (* "incorrect data" *)

Definition to (s : pipes) (x : side) : bytes := match x with Child => pfd1 s | Parent => pfd2 s end.
Definition mark (x : side) : Z := match x with Child => 112 | Parent => 99 end.     (* what is sent to [x] *)

Definition set_reading (f : side -> bool) (x : side) (b : bool) : side -> bool :=
  fun y => if decide (y = x) then b else f y.

(** TELL_CHILD by the parent, TELL_PARENT by the child: one byte is written. *)
Definition pipe_tell (x : side) (s : pipes) : pipes :=
  match x with
  | Parent => mkPipes (pfd1 s ++ [112]) (pfd2 s) (reading s) (broken s)
  | Child => mkPipes (pfd1 s) (pfd2 s ++ [99]) (reading s) (broken s)
  end.

Definition pipe_enter (x : side) (s : pipes) : pipes :=
  mkPipes (pfd1 s) (pfd2 s) (set_reading (reading s) x true) (broken s).

(** The read of WAIT_PARENT and WAIT_CHILD returns when there is a byte, which is
    checked. *)
Definition pipe_read (x : side) (s : pipes) : option pipes :=
  if negb (reading s x) then None
  else
    match x, to s x with
    | _, [] => None
    | Child, c :: rest =>
        Some (mkPipes rest (pfd2 s) (set_reading (reading s) x false) (broken s || negb (c =? 112)))
    | Parent, c :: rest =>
        Some (mkPipes (pfd1 s) rest (set_reading (reading s) x false) (broken s || negb (c =? 99)))
    end.

Definition pipes_ok (s : pipes) : Prop := broken s = false /\ forall x, Forall (fun c => c = mark x) (to s x).

Lemma set_reading_eq f x b : set_reading f x b x = b.
Proof. unfold set_reading. by destruct (decide (x = x)). Qed.
Lemma set_reading_ne f x b y : y <> x -> set_reading f x b y = f y.
Proof. unfold set_reading. by destruct (decide (y = x)). Qed.
Lemma other_ne x : other x <> x.
Proof. by destruct x. Qed.

Lemma pipe_read_ok x s s' :
  pipes_ok s -> pipe_read x s = Some s' ->
  pipes_ok s' /\ reading s x = true /\ reading s' x = false /\ length (to s x) = S (length (to s' x)) /\
  reading s' (other x) = reading s (other x) /\ to s' (other x) = to s (other x).
Proof.
  intros [Hb Hp] E. unfold pipe_read in E. destruct (reading s x) eqn:Hr; [|done]. cbn [negb] in E.
  assert (Hx := Hp x). assert (Ho := Hp (other x)).
  destruct x; cbn [to other mark] in *.
  - destruct (pfd2 s) as [|c rest] eqn:E2; [done|]. injection E as <-. apply Forall_cons in Hx as [-> Hx].
    cbn. rewrite set_reading_eq, set_reading_ne by done. split_and!; try done. rewrite Hb. split; [done|].
    intros []; cbn; [done|exact Ho].
  - destruct (pfd1 s) as [|c rest] eqn:E2; [done|]. injection E as <-. apply Forall_cons in Hx as [-> Hx].
    cbn. rewrite set_reading_eq, set_reading_ne by done. split_and!; try done. rewrite Hb. split; [done|].
    intros []; cbn; [exact Ho|done].
Qed.

#[export] Program Instance sync_pipes : Sync pipes := {|
  sync_init := mkPipes [] [] (fun _ => false) false;
  tell := pipe_tell; enter := pipe_enter; waiting := reading;
  sync_step := fun s s' => exists x, pipe_read x s = Some s';
  owed := fun s x => length (to s x); sync_ok := pipes_ok |}.
Next Obligation. split; [split; [done|by intros []]|by intros []]. Qed.
Next Obligation.
  intros s x [Hb Hp] Hw Ho. assert (H1 := Hp Child). assert (H2 := Hp Parent). destruct x; cbn in *.
  - apply nil_length_inv in Ho. rewrite Ho. cbn. split_and!; [split; [done|]; intros []; cbn; [done|by repeat constructor]|done..].
  - apply nil_length_inv in Ho. rewrite Ho. cbn. split_and!; [split; [done|]; intros []; cbn; [by repeat constructor|done]|done..].
Qed.
Next Obligation.
  intros s x [Hb Hp] Hw. unfold pipe_enter. cbn [reading]. rewrite set_reading_eq, set_reading_ne by apply other_ne.
  split_and!; [split; [done|]; intros []; [exact (Hp Parent)|exact (Hp Child)]|by intros []|done|done].
Qed.
Next Obligation.
  intros s s' H [x E]. destruct (pipe_read_ok x s s' H E) as (Hok & Hr & Hr' & Hl & Ho & Ht). split; [done|].
  intros y. destruct (decide (y = x)) as [->|Hn]; [by right|]. left.
  assert (y = other x) as -> by (by destruct x, y). by rewrite Ht.
Qed.

#[export] Program Instance sync_live_pipes : SyncLive pipes := {|
  work := fun s => (length (pfd1 s) + length (pfd2 s))%nat; cost := 1%nat |}.
Next Obligation. cbn. lia. Qed.
Next Obligation. intros s []; cbn; rewrite length_app; cbn; lia. Qed.
Next Obligation. intros s []; cbn; lia. Qed.
Next Obligation.
  intros s s' H [x E]. destruct (pipe_read_ok x s s' H E) as (_ & _ & _ & Hl & _ & Ht). destruct x; cbn in *; rewrite ?Ht; lia.
Qed.
Next Obligation.
  intros s x H Hw Ho. cbn in *. assert (Hsome : is_Some (pipe_read x s)).
  { unfold pipe_read. rewrite Hw. cbn. destruct x; cbn in Ho |- *;
      [destruct (pfd2 s)|destruct (pfd1 s)]; cbn in Ho; (lia || done). }
  destruct Hsome as [s' E]. by exists s', x.
Qed.

(** ** Over signals *)

(** Where a WAIT function is: at the test of sigflag; before or in sigsuspend; before
    the assignment; before sigprocmask. *)
Inductive wpc := WTest | WSuspend | WClear | WMask.

(** A process: sigflag, whether its signal is blocked and pending, and its WAIT. *)
Record sproc := mkSp { sigflag : bool; blocked : bool; pend : bool; wait_pc : option wpc }.

Definition sigs : Type := side -> sproc.

Definition set_proc (s : sigs) (x : side) (p : sproc) : sigs := fun y => if decide (y = x) then p else s y.

Lemma set_proc_eq s x p : set_proc s x p x = p.
Proof. unfold set_proc. by destruct (decide (x = x)). Qed.
Lemma set_proc_ne s x p y : y <> x -> set_proc s x p y = s y.
Proof. unfold set_proc. by destruct (decide (y = x)). Qed.

Section Signals.
Context (old : bool).     (* oldmask: the signals were blocked before TELL_WAIT *)

(** TELL_WAIT blocks the signals; both processes inherit that. *)
Definition sig_init : sigs := fun _ => mkSp false true false None.

(** [kill]: the signal becomes pending for the other process. *)
Definition sig_tell (x : side) (s : sigs) : sigs :=
  let p := s (other x) in set_proc s (other x) (mkSp (sigflag p) (blocked p) true (wait_pc p)).

Definition sig_enter (x : side) (s : sigs) : sigs :=
  let p := s x in set_proc s x (mkSp (sigflag p) (blocked p) (pend p) (Some WTest)).

(** WAIT_PARENT and WAIT_CHILD, a step at a time.  sigsuspend unblocks the signals and
    waits: it returns after the handler [sig_usr] has run. *)
Definition wait_step (p : sproc) : option sproc :=
  match wait_pc p with
  | None => None
  | Some WTest => Some (mkSp (sigflag p) (blocked p) (pend p) (Some (if sigflag p then WClear else WSuspend)))
  | Some WSuspend => if pend p then Some (mkSp true (blocked p) false (Some WTest)) else None
  | Some WClear => Some (mkSp false (blocked p) (pend p) (Some WMask))
  | Some WMask => Some (mkSp (sigflag p) old (pend p) None)
  end.

(** A signal that is pending and not blocked is delivered, wherever the process is. *)
Definition deliver (p : sproc) : option sproc :=
  if pend p && negb (blocked p) then Some (mkSp true (blocked p) false (wait_pc p)) else None.

Definition sig_owed (p : sproc) : nat :=
  ((if pend p then 1 else 0) + (if sigflag p then 1 else 0) +
   match wait_pc p with Some WMask => 1 | _ => 0 end)%nat.

(** While the signals have been blocked all along, sigflag is set only on the way out
    of sigsuspend. *)
Definition sproc_ok (p : sproc) : Prop :=
  (sig_owed p <= 1)%nat /\ (wait_pc p = Some WClear -> sigflag p = true) /\
  (blocked p = true -> sigflag p = true -> wait_pc p = Some WTest \/ wait_pc p = Some WClear) /\
  (old = true -> blocked p = true).

Lemma wait_step_ok p p' :
  sproc_ok p -> wait_step p = Some p' ->
  sproc_ok p' /\ wait_pc p <> None /\
  ((wait_pc p' <> None /\ sig_owed p' = sig_owed p) \/ (wait_pc p' = None /\ sig_owed p = S (sig_owed p'))).
Proof.
  intros (Ho & Hc & Hb & Hm) E. unfold wait_step in E. destruct p as [fl bl pe [[]|]]; cbn in *; try discriminate E.
  - injection E as <-. unfold sproc_ok, sig_owed in *. destruct fl; cbn in *; split_and!; try done; try lia; try (by left);
      try (by right; left); intros; by right.
  - destruct pe; [|done]. injection E as <-. unfold sproc_ok, sig_owed in *. destruct fl; cbn in *; [lia|].
    split_and!; try done; [by intros; left|by left].
  - injection E as <-. rewrite (Hc eq_refl) in *. unfold sproc_ok, sig_owed in *. destruct pe; cbn in *; [lia|].
    split_and!; try done. by left.
  - injection E as <-. unfold sproc_ok, sig_owed in *. destruct fl, pe; cbn in *; try lia.
    split_and!; try done; try lia. by right.
Qed.

Lemma deliver_ok p p' :
  sproc_ok p -> deliver p = Some p' -> sproc_ok p' /\ wait_pc p' = wait_pc p /\ sig_owed p' = sig_owed p.
Proof.
  intros (Ho & Hc & Hb & Hm) E. unfold deliver in E. destruct p as [fl bl pe w]; cbn in *.
  destruct pe, bl; try discriminate E. injection E as <-. unfold sproc_ok, sig_owed in *. cbn in *.
  destruct fl; [lia|]. by split_and!.
Qed.

Definition sig_step (s s' : sigs) : Prop :=
  exists x p', (wait_step (s x) = Some p' \/ deliver (s x) = Some p') /\ forall y, s' y = set_proc s x p' y.

End Signals.

Definition sigs_ok (old : bool) (s : sigs) : Prop := forall x, sproc_ok old (s x).

Lemma sigs_ok_set old s x p : sigs_ok old s -> sproc_ok old p -> sigs_ok old (set_proc s x p).
Proof. intros H Hp y. unfold set_proc. by destruct (decide (y = x)). Qed.

Program Definition sync_signals (old : bool) : Sync sigs := {|
  sync_init := sig_init; tell := sig_tell; enter := sig_enter;
  waiting := fun s x => match wait_pc (s x) with Some _ => true | None => false end;
  sync_step := sig_step old; owed := fun s x => sig_owed (s x); sync_ok := sigs_ok old |}.
Next Obligation. intros old. split; [|done]. intros x. unfold sproc_ok, sig_owed. cbn. split_and!; try done; lia. Qed.
Next Obligation.
  intros old s x H Hw Ho. cbn in Hw, Ho. unfold sig_tell. rewrite set_proc_eq, (set_proc_ne _ _ _ x) by (apply not_eq_sym, other_ne).
  destruct (H (other x)) as (H1 & H2 & H3 & H4). destruct (s (other x)) as [fl bl pe w] eqn:E. unfold sig_owed in *. cbn in *.
  assert (fl = false) as -> by (destruct fl; [lia|done]). split_and!; try (destruct w as [[]|]; lia).
  - apply sigs_ok_set; [done|]. unfold sproc_ok, sig_owed. cbn. split_and!; try done. destruct w as [[]|]; lia.
  - intros y. destruct (decide (y = other x)) as [->|Hy]; [by rewrite set_proc_eq, E|by rewrite set_proc_ne].
Qed.
Next Obligation.
  intros old s x H Hw. cbn in Hw. unfold sig_enter. rewrite set_proc_eq, (set_proc_ne _ _ _ (other x)) by apply other_ne.
  destruct (H x) as (H1 & H2 & H3 & H4). destruct (s x) as [fl bl pe w] eqn:E. cbn in Hw. destruct w as [w|]; [done|].
  split_and!; try done.
  - apply sigs_ok_set; [done|]. unfold sproc_ok, sig_owed in *. cbn in *. split_and!; try done. by left.
  - intros y. destruct (decide (y = x)) as [->|Hy]; [by rewrite set_proc_eq, E|by rewrite set_proc_ne].
Qed.
Next Obligation.
  intros old s s' H (x & p' & Hp & Hs). destruct Hp as [Hp|Hp].
  - destruct (wait_step_ok old _ _ (H x) Hp) as (Hok & Hw & Hcase). split.
    + intros y. rewrite Hs. by apply sigs_ok_set.
    + intros y. rewrite !Hs. destruct (decide (y = x)) as [->|Hy]; [|left; by rewrite set_proc_ne].
      rewrite set_proc_eq. destruct Hcase as [[Hn Ho]|[Hn Ho]]; [left|right].
      * split; [|done]. by destruct (wait_pc p'), (wait_pc (s x)).
      * rewrite Hn. by destruct (wait_pc (s x)).
  - destruct (deliver_ok old _ _ (H x) Hp) as (Hok & Hw & Ho). split.
    + intros y. rewrite Hs. by apply sigs_ok_set.
    + intros y. left. rewrite !Hs. destruct (decide (y = x)) as [->|Hy]; [|by rewrite set_proc_ne].
      rewrite set_proc_eq. by rewrite Hw.
Qed.

(** A WAIT makes progress as long as the signals are blocked outside sigsuspend: in
    the first WAIT always, in later ones when they were blocked before TELL_WAIT. *)
Lemma blocked_wait_progress old s x :
  sigs_ok old s -> wait_pc (s x) <> None -> blocked (s x) = true -> (0 < sig_owed (s x))%nat ->
  exists s', sig_step old s s'.
Proof.
  intros H Hw Hb Ho. destruct (H x) as (_ & _ & H3 & _). assert (Hsome : is_Some (wait_step old (s x))).
  { unfold wait_step. destruct (wait_pc (s x)) as [[]|] eqn:E; try done. destruct (pend (s x)) eqn:Ep; [done|].
    unfold sig_owed in Ho. rewrite Ep, E in Ho. destruct (sigflag (s x)) eqn:Ef; [|lia].
    destruct (H3 Hb eq_refl); congruence. }
  destruct Hsome as [p' E]. exists (set_proc s x p'), x, p'. split; [by left|done].
Qed.

(** Steps left in a WAIT, and for a signal under way. *)
Definition sproc_work (p : sproc) : nat :=
  ((if pend p then 3 else 0) +
   match wait_pc p with None => 0 | Some WTest => 4 | Some WSuspend => 2 | Some WClear => 2 | Some WMask => 1 end)%nat.

Lemma sig_step_work s s' :
  sigs_ok true s -> sig_step true s s' ->
  (sproc_work (s' Parent) + sproc_work (s' Child) < sproc_work (s Parent) + sproc_work (s Child))%nat.
Proof.
  intros H (x & p' & Hp & Hs).
  assert (Hlt : (sproc_work p' < sproc_work (s x))%nat).
  { destruct (H x) as (Ho & _ & _ & Hb). specialize (Hb eq_refl). destruct (s x) as [fl bl pe w]. cbn in Hb. subst bl.
    destruct Hp as [Hp|Hp]; [|unfold deliver in Hp; cbn in Hp; by rewrite andb_false_r in Hp].
    unfold wait_step in Hp. unfold sproc_work. destruct w as [[]|]; cbn in *; try discriminate Hp.
    - injection Hp as <-. destruct fl; cbn; lia.
    - destruct pe; [|done]. injection Hp as <-. cbn. lia.
    - injection Hp as <-. cbn. lia.
    - injection Hp as <-. cbn. lia. }
  destruct x; rewrite !Hs, set_proc_eq, set_proc_ne by done; lia.
Qed.

#[export] Program Instance sync_live_signals : @SyncLive sigs (sync_signals true) := {|
  work := fun s => (sproc_work (s Parent) + sproc_work (s Child))%nat; cost := 4%nat |}.
Next Obligation. cbn. lia. Qed.
Next Obligation.
  intros s x. cbn. unfold sig_tell. destruct x; cbn [other]; rewrite set_proc_eq, set_proc_ne by done;
    unfold sproc_work; cbn; destruct (pend _); lia.
Qed.
Next Obligation.
  intros s x. cbn. unfold sig_enter. destruct x; rewrite set_proc_eq, set_proc_ne by done;
    unfold sproc_work; cbn; lia.
Qed.
Next Obligation. intros s s'. apply sig_step_work. Qed.
Next Obligation.
  intros s x H Hw Ho. cbn in *. apply (blocked_wait_progress true s x); [done| | |done].
  - by destruct (wait_pc (s x)).
  - by apply (H x).
Qed.

(** ** The client *)

(** The parent: at the test of its loop and the update; before TELL_CHILD; before and
    in WAIT_CHILD; after exit; after err_quit. *)
Inductive ppc := PUpdate (i : Z) | PTell (i : Z) | PEnter (i : Z) | PWait (i : Z) | PDone | PQuit.
(** The child: at the test of its loop and before WAIT_PARENT; in it; before the
    update; before TELL_PARENT. *)
Inductive cpc := CTop (i : Z) | CWait (i : Z) | CUpdate (i : Z) | CTell (i : Z) | CDone | CQuit.

Section Client.
Context {S : Type} {I : Sync S} (NLOOPS : Z).

Record dz := mkDz { sync : S; area : Z; par : ppc; chi : cpc }.

Definition dz_init : dz := mkDz sync_init 0 (PUpdate 0) (CTop 1).

Definition parent_step (s : dz) : option dz :=
  match par s with
  | PUpdate i =>
      if i <? NLOOPS then
        (* update *)
        Some (mkDz (sync s) (area s + 1) (if area s =? i then PTell i else PQuit) (chi s))
      else Some (mkDz (sync s) (area s) PDone (chi s))
  | PTell i => Some (mkDz (tell Parent (sync s)) (area s) (PEnter i) (chi s))
  | PEnter i => Some (mkDz (enter Parent (sync s)) (area s) (PWait i) (chi s))
  | PWait i => if waiting (sync s) Parent then None else Some (mkDz (sync s) (area s) (PUpdate (i + 2)) (chi s))
  | PDone | PQuit => None
  end.

Definition child_step (s : dz) : option dz :=
  match chi s with
  | CTop i =>
      if i <? NLOOPS + 1 then Some (mkDz (enter Child (sync s)) (area s) (par s) (CWait i))
      else Some (mkDz (sync s) (area s) (par s) CDone)
  | CWait i => if waiting (sync s) Child then None else Some (mkDz (sync s) (area s) (par s) (CUpdate i))
  | CUpdate i => Some (mkDz (sync s) (area s + 1) (par s) (if area s =? i then CTell i else CQuit))
  | CTell i => Some (mkDz (tell Child (sync s)) (area s) (par s) (CTop (i + 2)))
  | CDone | CQuit => None
  end.

Inductive dz_step (s s' : dz) : Prop :=
| dz_parent : parent_step s = Some s' -> dz_step s s'
| dz_child : child_step s = Some s' -> dz_step s s'
| dz_sync y : sync_step (sync s) y -> s' = mkDz y (area s) (par s) (chi s) -> dz_step s s'.

(** ** Taking turns *)

(** The child has not come back from the WAIT of turn [i], or has ended when there is
    no such turn; it has. *)
Definition child_at (s : dz) (i : Z) : Prop :=
  (chi s = CTop i /\ waiting (sync s) Child = false) \/
  (chi s = CWait i /\ i < NLOOPS + 1 /\ waiting (sync s) Child = true) \/
  (chi s = CDone /\ NLOOPS + 1 <= i /\ waiting (sync s) Child = false).
Definition child_back (s : dz) (i : Z) : Prop := chi s = CWait i /\ waiting (sync s) Child = false.

Definition parent_at (s : dz) (i : Z) : Prop :=
  (par s = PEnter i /\ waiting (sync s) Parent = false) \/ (par s = PWait i /\ waiting (sync s) Parent = true).
Definition parent_back (s : dz) (i : Z) : Prop := par s = PWait i /\ waiting (sync s) Parent = false.

Definition owes (s : dz) (p c : nat) : Prop := owed (sync s) Parent = p /\ owed (sync s) Child = c.

(** The turns: the parent updates [i] and tells; the child waits, updates [i + 1] and
    tells; the parent waits. *)
Inductive turn (s : dz) : Prop :=
| t_update i : par s = PUpdate i \/ (par s = PDone /\ NLOOPS <= i) -> area s = i -> i < NLOOPS + 2 ->
    child_at s (i + 1) -> waiting (sync s) Parent = false -> owes s 0 0 -> turn s
| t_tell i : par s = PTell i -> i < NLOOPS -> area s = i + 1 -> child_at s (i + 1) ->
    waiting (sync s) Parent = false -> owes s 0 0 -> turn s
| t_told i : parent_at s i -> i < NLOOPS -> area s = i + 1 -> child_at s (i + 1) -> owes s 0 1 -> turn s
| t_child i : parent_at s i -> i < NLOOPS ->
    (child_back s (i + 1) /\ area s = i + 1) \/
    (waiting (sync s) Child = false /\
       ((chi s = CUpdate (i + 1) /\ area s = i + 1) \/ (chi s = CTell (i + 1) /\ area s = i + 2))) ->
    owes s 0 0 -> turn s
| t_answered i : parent_at s i -> i < NLOOPS -> area s = i + 2 -> child_at s (i + 3) -> owes s 1 0 -> turn s
| t_back i : parent_back s i -> i < NLOOPS -> area s = i + 2 -> child_at s (i + 3) -> owes s 0 0 -> turn s.

Lemma turn_init : 0 <= NLOOPS -> sync_ok (sync dz_init) /\ turn dz_init.
Proof.
  intros HN.
  destruct init_ok as [Hok H]. destruct (H Parent) as [O1 W1], (H Child) as [O2 W2]. split; [done|].
  eapply (t_update _ 0); cbn; [by left|done|lia|by left|done|done].
Qed.

(** A step of the child where it may take one. *)
Lemma child_at_step s s' i :
  sync_ok (sync s) -> child_at s i -> child_step s = Some s' ->
  sync_ok (sync s') /\ child_at s' i /\ area s' = area s /\ par s' = par s /\
  (forall x, owed (sync s') x = owed (sync s) x) /\ waiting (sync s') Parent = waiting (sync s) Parent.
Proof.
  intros Hok [[Hc Hw]|[(Hc & Hi & Hw)|(Hc & _)]] E; unfold child_step in E; rewrite Hc in E.
  - destruct (Z.ltb_spec i (NLOOPS + 1)); injection E as <-; cbn.
    + destruct (enter_ok (sync s) Child Hok Hw) as (Hok' & Ho & Hw1 & Hw2). split_and!; try done. right; left. by cbn.
    + split_and!; try done. right; right. by cbn.
  - rewrite Hw in E. done.
  - done.
Qed.

Lemma parent_at_step s s' i :
  sync_ok (sync s) -> parent_at s i -> parent_step s = Some s' ->
  sync_ok (sync s') /\ parent_at s' i /\ area s' = area s /\ chi s' = chi s /\
  (forall x, owed (sync s') x = owed (sync s) x) /\ waiting (sync s') Child = waiting (sync s) Child.
Proof.
  intros Hok [[Hp Hw]|[Hp Hw]] E; unfold parent_step in E; rewrite Hp in E.
  - injection E as <-. destruct (enter_ok (sync s) Parent Hok Hw) as (Hok' & Ho & Hw1 & Hw2). split_and!; try done.
    right. by cbn.
  - rewrite Hw in E. done.
Qed.

Lemma child_at_same s s' i :
  child_at s i -> chi s' = chi s -> waiting (sync s') Child = waiting (sync s) Child -> child_at s' i.
Proof. unfold child_at. intros H -> ->. done. Qed.
Lemma parent_at_same s s' i :
  parent_at s i -> par s' = par s -> waiting (sync s') Parent = waiting (sync s) Parent -> parent_at s' i.
Proof. unfold parent_at. intros H -> ->. done. Qed.

Lemma parent_turn s s' : sync_ok (sync s) -> turn s -> parent_step s = Some s' -> sync_ok (sync s') /\ turn s'.
Proof.
  intros Hok Ht E.
  destruct Ht as [i Hp Ha Hb Hc Hw Ho|i Hp Hi Ha Hc Hw Ho|i Hp Hi Ha Hc Ho|i Hp Hi Hc Ho|i Hp Hi Ha Hc Ho|i [Hp Hw] Hi Ha Hc Ho].
  - destruct Hp as [Hp|[Hp _]]; unfold parent_step in E; rewrite Hp in E; [|done].
    destruct (Z.ltb_spec i NLOOPS); injection E as <-; (split; [done|]).
    + rewrite Ha, Z.eqb_refl. eapply (t_tell _ i); cbn; [done|done|lia|done|done|done].
    + eapply (t_update _ i); cbn; [by right|done|done|done|done|done].
  - unfold parent_step in E. rewrite Hp in E. injection E as <-. destruct Ho as [O1 O2].
    destruct (tell_ok (sync s) Parent Hok Hw O2) as (Hok' & Ho1 & Ho2 & Hw'). split; [done|].
    eapply (t_told _ i); cbn; [left; by rewrite Hw'|done|done| |split; cbn; [by rewrite Ho2|done]].
    eapply child_at_same; [done|done|by cbn; rewrite Hw'].
  - destruct (parent_at_step _ _ _ Hok Hp E) as (Hok' & Hp' & Ha' & Hc' & Ho' & Hw'). split; [done|].
    eapply (t_told _ i); [done|done|by rewrite Ha'|by eapply child_at_same|]. unfold owes. by rewrite !Ho'.
  - destruct (parent_at_step _ _ _ Hok Hp E) as (Hok' & Hp' & Ha' & Hc' & Ho' & Hw'). split; [done|].
    eapply (t_child _ i); [done|done| |unfold owes; by rewrite !Ho']. unfold child_back in *. by rewrite Hc', Hw', Ha'.
  - destruct (parent_at_step _ _ _ Hok Hp E) as (Hok' & Hp' & Ha' & Hc' & Ho' & Hw'). split; [done|].
    eapply (t_answered _ i); [done|done|by rewrite Ha'|by eapply child_at_same|]. unfold owes. by rewrite !Ho'.
  - unfold parent_step in E. rewrite Hp, Hw in E. injection E as <-. split; [done|].
    eapply (t_update _ (i + 2)); cbn; [by left|done|lia| |done|done].
    replace (i + 2 + 1) with (i + 3) by lia. done.
Qed.

Lemma child_turn s s' : sync_ok (sync s) -> turn s -> child_step s = Some s' -> sync_ok (sync s') /\ turn s'.
Proof.
  intros Hok Ht E.
  destruct Ht as [i Hp Ha Hb Hc Hw Ho|i Hp Hi Ha Hc Hw Ho|i Hp Hi Ha Hc Ho|i Hp Hi Hc Ho|i Hp Hi Ha Hc Ho|i [Hp Hw] Hi Ha Hc Ho];
    try (destruct (child_at_step _ _ _ Hok Hc E) as (Hok' & Hc' & Ha' & Hp' & Ho' & Hw'); split; [done|]).
  - eapply (t_update _ i); [by rewrite Hp'|by rewrite Ha'|done|done|by rewrite Hw'|]. unfold owes. by rewrite !Ho'.
  - eapply (t_tell _ i); [by rewrite Hp'|done|by rewrite Ha'|done|by rewrite Hw'|]. unfold owes. by rewrite !Ho'.
  - eapply (t_told _ i); [by eapply parent_at_same|done|by rewrite Ha'|done|]. unfold owes. by rewrite !Ho'.
  - unfold child_step in E. destruct Hc as [[[Hc Hw] Ha]|[Hw [[Hc Ha]|[Hc Ha]]]]; rewrite Hc in E.
    + rewrite Hw in E. injection E as <-. split; [done|]. eapply (t_child _ i); cbn; [done|done| |done].
      right. split; [done|]. left. done.
    + injection E as <-. split; [done|]. rewrite Ha, Z.eqb_refl. eapply (t_child _ i); cbn; [done|done| |done].
      right. split; [done|]. right. split; [done|lia].
    + injection E as <-. destruct Ho as [O1 O2]. destruct (tell_ok (sync s) Child Hok Hw O1) as (Hok' & Ho1 & Ho2 & Hw').
      split; [done|]. eapply (t_answered _ i); cbn; [eapply (parent_at_same s); [done|done|cbn; by rewrite Hw']|done|done| |].
      * left. cbn. rewrite Hw'. split; [f_equal; lia|done].
      * split; [done|by rewrite <- O2].
  - eapply (t_answered _ i); [by eapply parent_at_same|done|by rewrite Ha'|done|]. unfold owes. by rewrite !Ho'.
  - eapply (t_back _ i); [split; [by rewrite Hp'|by rewrite Hw']|done|by rewrite Ha'|done|]. unfold owes. by rewrite !Ho'.
Qed.

(** A step inside a WAIT: only a side that is owed something comes back. *)
Lemma sync_turn s y :
  sync_ok (sync s) -> turn s -> sync_step (sync s) y -> sync_ok y /\ turn (mkDz y (area s) (par s) (chi s)).
Proof.
  intros Hok Ht Hs. destruct (step_ok _ _ Hok Hs) as [Hok' Hx]. split; [done|]. set (s' := mkDz y _ _ _).
  assert (Hstay : forall x, owed (sync s) x = 0%nat -> waiting y x = waiting (sync s) x /\ owed y x = 0%nat).
  { intros x Ho. destruct (Hx x) as [[? ?]|(? & ? & ?)]; [split; congruence|lia]. }
  destruct Ht as [i Hp Ha Hb Hc Hw [O1 O2]|i Hp Hi Ha Hc Hw [O1 O2]|i Hp Hi Ha Hc [O1 O2]|i Hp Hi Hc [O1 O2]|
                  i Hp Hi Ha Hc [O1 O2]|i [Hp Hw] Hi Ha Hc [O1 O2]].
  - destruct (Hstay _ O1) as [W1 O1'], (Hstay _ O2) as [W2 O2'].
    eapply (t_update s' i); [done|done|done|by eapply (child_at_same s)|cbn; by rewrite W1|by split].
  - destruct (Hstay _ O1) as [W1 O1'], (Hstay _ O2) as [W2 O2'].
    eapply (t_tell s' i); [done|done|done|by eapply (child_at_same s)|cbn; by rewrite W1|by split].
  - destruct (Hstay _ O1) as [W1 O1']. destruct (Hx Child) as [[W2 O2']|(W2 & W2' & O2')].
    + eapply (t_told s' i); [by eapply (parent_at_same s)|done|done|by eapply (child_at_same s)|by split; [|cbn; rewrite O2']].
    + eapply (t_child s' i); [by eapply (parent_at_same s)|done| |split; [done|cbn; lia]].
      left. split; [|done]. split; [|done]. destruct Hc as [[_ Hc]|[[Hc _]|(_ & _ & Hc)]]; [congruence|done|congruence].
  - destruct (Hstay _ O1) as [W1 O1'], (Hstay _ O2) as [W2 O2'].
    eapply (t_child s' i); [by eapply (parent_at_same s)|done| |by split]. unfold child_back in *. cbn. by rewrite W2.
  - destruct (Hstay _ O2) as [W2 O2']. destruct (Hx Parent) as [[W1 O1']|(W1 & W1' & O1')].
    + eapply (t_answered s' i); [by eapply (parent_at_same s)|done|done|by eapply (child_at_same s)|split; cbn; [by rewrite O1'|done]].
    + eapply (t_back s' i); [|done|done|by eapply (child_at_same s)|split; cbn; [lia|done]].
      split; [|done]. destruct Hp as [[_ Hp]|[Hp _]]; [congruence|done].
  - destruct (Hstay _ O1) as [W1 O1'], (Hstay _ O2) as [W2 O2'].
    eapply (t_back s' i); [split; [done|cbn; by rewrite W1]|done|done|by eapply (child_at_same s)|by split].
Qed.

Lemma dz_step_turn s s' : sync_ok (sync s) -> turn s -> dz_step s s' -> sync_ok (sync s') /\ turn s'.
Proof. intros Hok Ht [E|E|y E ->]; [by eapply parent_turn|by eapply child_turn|by apply sync_turn]. Qed.

(** ** Ending *)

Context {L : SyncLive S}.

Definition unit_cost : Z := Z.of_nat cost + 1.
Definition rounds (i : Z) : Z := Z.max 0 ((NLOOPS - i + 1) / 2).

Definition parent_pot (p : ppc) : Z :=
  match p with
  | PUpdate i => 4 * unit_cost * rounds i + unit_cost
  | PTell i => 4 * unit_cost * rounds i
  | PEnter i => 4 * unit_cost * rounds i - unit_cost
  | PWait i => 4 * unit_cost * rounds i - 2 * unit_cost
  | PDone | PQuit => 0
  end.
Definition child_pot (p : cpc) : Z :=
  match p with
  | CTop i => 4 * unit_cost * rounds (i - 1) + unit_cost
  | CWait i => 4 * unit_cost * rounds (i - 1)
  | CUpdate i => 4 * unit_cost * rounds (i - 1) - unit_cost
  | CTell i => 4 * unit_cost * rounds (i - 1) - 2 * unit_cost
  | CDone | CQuit => 0
  end.
Definition dz_pot (s : dz) : Z := Z.of_nat (work (sync s)) + parent_pot (par s) + child_pot (chi s).

Lemma unit_cost_pos : 0 < unit_cost.
Proof. unfold unit_cost. lia. Qed.

Lemma rounds_next i : i < NLOOPS -> rounds i = rounds (i + 2) + 1 /\ 1 <= rounds i.
Proof. intros H. unfold rounds. split; Z.to_euclidean_division_equations; lia. Qed.

Lemma rounds_nonneg i : 0 <= rounds i.
Proof. unfold rounds. lia. Qed.

Lemma parent_pot_step s s' :
  turn s -> parent_step s = Some s' -> dz_pot s' < dz_pot s.
Proof.
  intros Ht E. unfold parent_step in E. assert (Hu := unit_cost_pos). unfold dz_pot.
  destruct (par s) as [i|i|i|i| |] eqn:Hp; try discriminate E.
  - assert (Hr := rounds_nonneg i). destruct (i <? NLOOPS); injection E as <-; cbn.
    + destruct (area s =? i); cbn; nia.
    + nia.
  - injection E as <-. cbn. assert (Hw := work_tell (sync s) Parent). unfold unit_cost in *. lia.
  - injection E as <-. cbn. assert (Hw := work_enter (sync s) Parent). unfold unit_cost in *. lia.
  - destruct (waiting (sync s) Parent); [done|]. injection E as <-. cbn.
    assert (Hi : i < NLOOPS).
    { destruct Ht as [j [Hj|[Hj _]]|j Hj|j [[Hj _]|[Hj _]]|j [[Hj _]|[Hj _]]|j [[Hj _]|[Hj _]]|j [Hj _]];
        rewrite Hp in Hj; by simplify_eq. }
    destruct (rounds_next i Hi) as [-> _]. nia.
Qed.

(** The child updates and tells only in turns there are. *)
Lemma child_inside s i : turn s -> chi s = CUpdate i \/ chi s = CTell i -> i - 1 < NLOOPS.
Proof.
  intros Ht Hc. destruct Ht as [j _ _ _ H|j _ _ _ H|j _ _ _ H|j _ Hj [[[H _] _]|[_ [[H _]|[H _]]]]|j _ _ _ H|j _ _ _ H];
    unfold child_at in *; try (destruct H as [[? _]|[[? _]|[? _]]], Hc; congruence);
    destruct Hc as [Hc|Hc]; rewrite Hc in H; simplify_eq; lia.
Qed.

Lemma child_pot_step s s' :
  turn s -> child_step s = Some s' -> dz_pot s' < dz_pot s.
Proof.
  intros Ht E. unfold child_step in E. assert (Hu := unit_cost_pos). unfold dz_pot.
  destruct (chi s) as [i|i|i|i| |] eqn:Hc; try discriminate E.
  - assert (Hr := rounds_nonneg (i - 1)). destruct (i <? NLOOPS + 1); injection E as <-; cbn.
    + assert (Hw := work_enter (sync s) Child). unfold unit_cost in *. lia.
    + nia.
  - destruct (waiting (sync s) Child); [done|]. injection E as <-. cbn. lia.
  - injection E as <-. cbn.
    assert (Hi : i - 1 < NLOOPS) by (apply (child_inside s i Ht); auto).
    destruct (rounds_next _ Hi) as [_ Hr]. destruct (area s =? i); cbn; nia.
  - injection E as <-. cbn. assert (Hw := work_tell (sync s) Child).
    assert (Hi : i - 1 < NLOOPS) by (apply (child_inside s i Ht); auto).
    destruct (rounds_next _ Hi) as [Hr _]. replace (i + 2 - 1) with (i - 1 + 2) by lia. unfold unit_cost in *. nia.
Qed.

Lemma dz_step_pot s s' : sync_ok (sync s) -> turn s -> dz_step s s' -> dz_pot s' < dz_pot s.
Proof.
  intros Hok Ht [E|E|y E ->]; [by apply parent_pot_step|by apply child_pot_step|].
  assert (Hw := work_step _ _ Hok E). unfold dz_pot. cbn. lia.
Qed.

Lemma dz_pot_nonneg s : turn s -> 0 <= dz_pot s.
Proof.
  intros Ht. assert (Hu := unit_cost_pos). unfold dz_pot.
  assert (Hp : 0 <= parent_pot (par s)).
  { destruct (par s) as [i|i|i|i| |] eqn:Hp; cbn; try (assert (Hr := rounds_nonneg i)); try nia;
      (assert (Hi : i < NLOOPS) by (destruct Ht as [j [Hj|[Hj _]]|j Hj|j [[Hj _]|[Hj _]]|j [[Hj _]|[Hj _]]|j [[Hj _]|[Hj _]]|j [Hj _]];
        rewrite Hp in Hj; by simplify_eq)); destruct (rounds_next i Hi) as [_ H1]; nia. }
  assert (Hc : 0 <= child_pot (chi s)).
  { destruct (chi s) as [i|i|i|i| |] eqn:Hc; cbn; try (assert (Hr := rounds_nonneg (i - 1))); try nia;
      (assert (Hi : i - 1 < NLOOPS) by (apply (child_inside s i Ht); auto)); destruct (rounds_next _ Hi) as [_ H1]; nia. }
  lia.
Qed.

(** The parent's turns are even. *)
Definition even_turn (s : dz) : Prop :=
  match par s with
  | PUpdate i | PTell i | PEnter i | PWait i => Z.Even i
  | PDone => Z.Even (area s)
  | PQuit => True
  end.

Lemma even_step s s' : turn s -> even_turn s -> dz_step s s' -> even_turn s'.
Proof.
  intros Ht He [E|E|y E ->]; [| |done]; unfold even_turn in *.
  - unfold parent_step in E. destruct (par s) as [i|i|i|i| |] eqn:Hp; try discriminate E.
    + destruct (i <? NLOOPS); injection E as <-; cbn; [by destruct (_ =? _)|].
      destruct Ht as [j [Hj|[Hj _]] Ha|j Hj|j [[Hj _]|[Hj _]]|j [[Hj _]|[Hj _]]|j [[Hj _]|[Hj _]]|j [Hj _]];
        rewrite Hp in Hj; simplify_eq. done.
    + by injection E as <-.
    + by injection E as <-.
    + destruct (waiting _ _); [done|]. injection E as <-. cbn. destruct He as [k ->]. exists (k + 1). lia.
  - destruct Ht as [j [Hj|[Hj _]] Ha _ Hc|j Hj|j [[Hj _]|[Hj _]]|j [[Hj _]|[Hj _]]|j [[Hj _]|[Hj _]]|j [Hj _]];
      (assert (Hp' : par s' = par s) by (unfold child_step in E; destruct (chi s); try discriminate E;
         repeat (match type of E with context [if ?b then _ else _] => destruct b end); by simplify_eq));
      rewrite Hp', Hj in *; try done.
    unfold child_step in E. destruct Hc as [[Hc _]|[(Hc & _ & Hw)|[Hc _]]]; rewrite Hc in E; [|by rewrite Hw in E|done].
    destruct (_ <? _); injection E as <-; done.
Qed.

(** Where no step is left both have ended, and every turn was taken. *)
Lemma dz_progress s :
  sync_ok (sync s) -> turn s -> (forall s', ~ dz_step s s') ->
  par s = PDone /\ chi s = CDone /\ NLOOPS <= area s < NLOOPS + 2.
Proof.
  intros Hok Ht Hno.
  assert (Hp : parent_step s = None).
  { destruct (parent_step s) as [s'|] eqn:E; [|done]. exfalso. apply (Hno s'). by apply dz_parent. }
  assert (Hc : child_step s = None).
  { destruct (child_step s) as [s'|] eqn:E; [|done]. exfalso. apply (Hno s'). by apply dz_child. }
  assert (Hs : forall x, waiting (sync s) x = true -> (0 < owed (sync s) x)%nat -> False).
  { intros x Hw Ho. destruct (wait_progress _ x Hok Hw Ho) as [y Hy]. eapply Hno. by eapply dz_sync. }
  unfold parent_step in Hp. unfold child_step in Hc.
  assert (Hca : forall i, child_at s i -> (chi s = CWait i /\ i < NLOOPS + 1 /\ waiting (sync s) Child = true) \/ (chi s = CDone /\ NLOOPS + 1 <= i)).
  { intros i [[E _]|[?|(? & ? & _)]]; [|by left|by right]. rewrite E in Hc. by destruct (_ <? _). }
  destruct Ht as [i Hi Ha Hb Hat Hw [O1 O2]|i Hi _ _ _ _ _|i Hi HN Ha Hat [O1 O2]|i Hi HN Hch [O1 O2]|i Hi HN Ha Hat [O1 O2]|i [Hi Hw] _ _ _ _].
  - destruct Hi as [Hi|[Hi HN]]; [rewrite Hi in Hp; by destruct (_ <? _)|].
    destruct (Hca _ Hat) as [(_ & Hlt & _)|[Hd _]]; [lia|]. split_and!; [done|done|lia|lia].
  - by rewrite Hi in Hp.
  - destruct (Hca _ Hat) as [(_ & _ & Hw)|[_ Hlt]]; [|lia]. exfalso. apply (Hs Child Hw). lia.
  - destruct Hch as [[[E Hw] _]|[_ [[E _]|[E _]]]]; rewrite E in Hc; [by rewrite Hw in Hc|done|done].
  - destruct Hi as [[E _]|[E Hw]]; [by rewrite E in Hp|]. exfalso. apply (Hs Parent Hw). lia.
  - rewrite Hi, Hw in Hp. done.
Qed.

End Client.

(** ** Processes that take turns *)

Lemma dz_steps_turn {S} {I : Sync S} NLOOPS s s' :
  rtc (dz_step NLOOPS) s s' -> sync_ok (sync s) -> turn NLOOPS s -> sync_ok (sync s') /\ turn NLOOPS s'.
Proof.
  induction 1 as [|s1 s2 s3 H1 _ IH]; [done|]. intros Hok Ht.
  destruct (dz_step_turn _ _ _ Hok Ht H1) as [Hok' Ht']. by apply IH.
Qed.

Lemma dz_nsteps_pot {S} {I : Sync S} {L : SyncLive S} NLOOPS n s s' :
  nsteps (dz_step NLOOPS) n s s' -> sync_ok (sync s) -> turn NLOOPS s -> even_turn s ->
  sync_ok (sync s') /\ turn NLOOPS s' /\ even_turn s' /\ Z.of_nat n + dz_pot NLOOPS s' <= dz_pot NLOOPS s.
Proof.
  induction 1 as [s|n s1 s2 s3 H1 _ IH]; intros Hok Ht He; [split_and!; try done; lia|].
  destruct (dz_step_turn _ _ _ Hok Ht H1) as [Hok' Ht']. assert (Hp := dz_step_pot _ _ _ Hok Ht H1).
  destruct (IH Hok' Ht' (even_step _ _ _ Ht He H1)) as (? & ? & ? & ?). split_and!; try done. lia.
Qed.

(** Neither process has found another number than it expected. *)
Lemma turn_no_quit {S} {I : Sync S} NLOOPS s : turn NLOOPS s -> par s <> PQuit /\ chi s <> CQuit.
Proof.
  intros [j [Hj|[Hj _]] _ _ H|j Hj _ _ H|j [[Hj _]|[Hj _]] _ _ H|j [[Hj _]|[Hj _]] _ [[[H _] _]|[_ [[H _]|[H _]]]]|
          j [[Hj _]|[Hj _]] _ _ H|j [Hj _] _ _ H];
    rewrite Hj; (split; [done|]); unfold child_at in *; try (by rewrite H);
    destruct H as [[H _]|[[H _]|[H _]]]; by rewrite H.
Qed.

(** C27: Parent and child take turns.  Over any implementation of TELL and WAIT in which
    a WAIT returns only for a TELL, each TELL for one WAIT, the two processes of
    devzero.c increment the shared counter in turn: in every interleaving neither ever
    finds another number than the one it expects.  If moreover a WAIT that has been
    told returns, both end after a bounded number of steps, with the counter at
    [NLOOPS] (which is even), and never wait for each other.  The implementations over
    pipes, and over signals that were blocked beforehand, are of this kind. *)
Theorem devzero_takes_turns {S} {I : Sync S} {L : SyncLive S} NLOOPS :
  0 <= NLOOPS -> Z.Even NLOOPS ->
  (forall s, rtc (dz_step NLOOPS) dz_init s -> par s <> PQuit /\ chi s <> CQuit) /\
  (forall n s, nsteps (dz_step NLOOPS) n dz_init s ->
     Z.of_nat n <= (4 * NLOOPS + 3) * (Z.of_nat cost + 1) /\
     ((forall s', ~ dz_step NLOOPS s s') -> par s = PDone /\ chi s = CDone /\ area s = NLOOPS)).
Proof.
  intros HN HE. destruct (turn_init NLOOPS HN) as [Hok Ht]. assert (He : even_turn (@dz_init S I)) by (by exists 0).
  split.
  - intros s Hs. destruct (dz_steps_turn _ _ _ Hs Hok Ht) as [_ Ht']. by eapply turn_no_quit.
  - intros n s Hn. destruct (dz_nsteps_pot _ _ _ _ Hn Hok Ht He) as (Hok' & Ht' & He' & Hp).
    assert (Hnn := dz_pot_nonneg _ _ Ht'). split.
    + assert (Hw := work_init). unfold dz_pot in Hp at 2. cbn in Hp. unfold rounds, unit_cost in Hp.
      destruct HE as [k ->]. replace ((2 * k - 0 + 1) / 2) with k in Hp by (Z.to_euclidean_division_equations; lia).
      replace ((2 * k - (1 - 1) + 1) / 2) with k in Hp by (Z.to_euclidean_division_equations; lia). nia.
    + intros Hno. destruct (dz_progress _ _ Hok' Ht' Hno) as (H1 & H2 & H3). split_and!; [done|done|].
      unfold even_turn in He'. rewrite H1 in He'. destruct HE as [k ->], He' as [k' Hk']. lia.
Qed.

(** The program, over pipes. *)
Lemma devzero_takes_turns_witness :
  Z.Even 1000 /\
  forall n s, nsteps (dz_step 1000) n (@dz_init pipes _) s ->
    Z.of_nat n <= 8006 /\
    ((forall s', ~ dz_step 1000 s s') -> par s = PDone /\ chi s = CDone /\ area s = 1000).
Proof.
  assert (He : Z.Even 1000) by (by exists 500). split; [exact He|].
  exact (proj2 (@devzero_takes_turns pipes _ _ 1000 ltac:(lia) He)).
Defined.

(** Over signals the safety part holds whatever the mask was. *)
Lemma devzero_signals_safe old NLOOPS s :
  0 <= NLOOPS -> rtc (@dz_step sigs (sync_signals old) NLOOPS) (@dz_init sigs (sync_signals old)) s ->
  par s <> PQuit /\ chi s <> CQuit.
Proof.
  intros HN Hs. destruct (@turn_init sigs (sync_signals old) NLOOPS HN) as [Hok Ht].
  destruct (@dz_steps_turn sigs (sync_signals old) _ _ _ Hs Hok Ht) as [_ Ht']. by eapply turn_no_quit.
Qed.

(** ** The second WAIT over signals may miss its signal *)

(** The child has found sigflag clear and is about to call sigsuspend, its signals no
    longer blocked, when the signal comes: the handler runs first, and both processes
    wait for ever. *)
Definition parent_waits : sproc := mkSp false false false (Some WSuspend).
Definition child_missed : sproc := mkSp true false false (Some WSuspend).
(** A schedule: who goes next. *)
Inductive who := P | C | PW | CW | CD.

Definition exec1 (old : bool) (n : Z) (w : who) (s : @dz sigs) : option dz :=
  let upd x p := mkDz (fun y => match y, x with
                                | Parent, Parent | Child, Child => p
                                | _, _ => sync s y end) (area s) (par s) (chi s) in
  match w with
  | P => @parent_step sigs (sync_signals old) n s
  | C => @child_step sigs (sync_signals old) n s
  | PW => option_map (upd Parent) (wait_step old (sync s Parent))
  | CW => option_map (upd Child) (wait_step old (sync s Child))
  | CD => option_map (upd Child) (deliver (sync s Child))
  end.

Fixpoint exec (old : bool) (n : Z) (ws : list who) (s : @dz sigs) : option dz :=
  match ws with
  | [] => Some s
  | w :: ws' => match exec1 old n w s with Some s' => exec old n ws' s' | None => None end
  end.

Lemma exec_steps old n ws s s' :
  exec old n ws s = Some s' -> rtc (@dz_step sigs (sync_signals old) n) s s'.
Proof.
  revert s. induction ws as [|w ws IH]; intros s E; cbn in E; [injection E as <-; apply rtc_refl|].
  destruct (exec1 old n w s) as [s1|] eqn:E1; [|done]. eapply rtc_l; [|by apply IH].
  destruct w; cbn in E1; [by apply dz_parent|by apply dz_child| | |].
  - destruct (wait_step old (sync s Parent)) as [p|] eqn:Ep; [|done]. injection E1 as <-. eapply dz_sync; [|done].
    exists Parent, p. split; [by left|]. by intros [].
  - destruct (wait_step old (sync s Child)) as [p|] eqn:Ep; [|done]. injection E1 as <-. eapply dz_sync; [|done].
    exists Child, p. split; [by left|]. by intros [].
  - destruct (deliver (sync s Child)) as [p|] eqn:Ep; [|done]. injection E1 as <-. eapply dz_sync; [|done].
    exists Child, p. split; [by right|]. by intros [].
Qed.

(** The first round, then the parent's second update and tell, which come between the
    child's test and its sigsuspend. *)
Definition schedule : list who :=
  [P; P; C; CW; CW; CW; CW; CW; C; C; C; P; PW; PW; PW; PW; PW; P;
   C; CW; P; P; CD; P; PW].

Lemma schedule_hangs : exists s, exec false 1000 schedule (@dz_init sigs (sync_signals false)) = Some s /\
  area s = 3 /\ par s = PWait 2 /\ chi s = CWait 3 /\ sync s Parent = parent_waits /\ sync s Child = child_missed.
Proof.
  destruct (exec false 1000 schedule (@dz_init sigs (sync_signals false))) as [s|] eqn:E; [|vm_compute in E; done].
  exists s. split; [done|]. vm_compute in E. injection E as <-. by split_and!.
Qed.

Example devzero_signals_hang :
  exists s, rtc (@dz_step sigs (sync_signals false) 1000) (@dz_init sigs (sync_signals false)) s /\
    par s = PWait 2 /\ chi s = CWait 3 /\ forall s', ~ @dz_step sigs (sync_signals false) 1000 s s'.
Proof.
  destruct schedule_hangs as (s & E & _ & Hp & Hc & Sp & Sc). exists s. split_and!; [by eapply exec_steps|done|done|].
  intros s' [E'|E'|y (x & p' & Hx & _) _].
  - unfold parent_step in E'. rewrite Hp in E'. cbn in E'. by rewrite Sp in E'.
  - unfold child_step in E'. rewrite Hc in E'. cbn in E'. by rewrite Sc in E'.
  - destruct x; rewrite ?Sp, ?Sc in Hx; by destruct Hx.
Qed.
