(* ===== verification/Popen.v ===== *)
(** * Popen: pipes to and from commands.

    apue.2e/lib/popen.c with openmax.c.  The descriptors of a process are a map from
    numbers to open files, its streams one from the addresses of their FILE structures
    to descriptors; what the kernel and the stdio library answer to each call is an
    argument, with [None] for an error.  An access out of the bounds of childpid, and
    the use of a stream that has been closed, are [Undef]. *)
From S2P Require Import Prelude.
Local Open Scope Z_scope.

Definition EINVAL : Z := 22.

(** The ends of the pipe of a number, and other files. *)
Inductive file := ReadEnd (k : Z) | WriteEnd (k : Z) | OtherFile (n : Z).

Abbreviation fds := (gmap Z file).

(** ** openmax.c *)

Definition OPEN_MAX_GUESS : Z := 256.

(** The variable openmax before; what sysconf returns and leaves in errno.  [None]:
    err_sys. *)
Definition open_max (openmax : Z) (sysconf : Z * Z) : option Z :=
  if openmax =? 0 then
    let '(v, errno) := sysconf in
    if v <? 0 then if errno =? 0 then Some OPEN_MAX_GUESS else None else Some v
  else Some openmax.

(** ** State *)

Record pst := mkPst {
  childpid : option (list Z);      (* NULL until the first popen *)
  maxfd : Z;
  openmax : Z;
  table : fds;                     (* the descriptors of this process *)
  streams : gmap Z Z;              (* the open streams: the descriptor of each *)
  execs : list (Z * bytes * fds) }.    (* the children: process id, command, descriptors at exec *)

(** What the calls return. *)
Record answers := mkAns {
  a_sysconf : Z * Z; a_calloc : bool; a_pipe : option (Z * Z); a_fork : option Z;
  a_fdopen : option Z  (* the address of the new stream *) }.

Inductive outcome (A : Type) := Got (v : A) (s : pst) | Undef | Fatal.
Arguments Got {A}.
Arguments Undef {A}.
Arguments Fatal {A}.

(** ** popen *)

(** In the child: the pipe becomes the standard output or input. *)
Definition child_pipe (r : bool) (p0 p1 : Z) (t : fds) : fds :=
  if r then
    let t := delete p0 t in
    if p1 =? 1 then t
    else
      let t := match t !! p1 with Some f => <[1 := f]> t | None => t end in
      delete p1 t
  else
    let t := delete p1 t in
    if p0 =? 0 then t
    else
      let t := match t !! p0 with Some f => <[0 := f]> t | None => t end in
      delete p0 t.

(** "close all descriptors in childpid[]". *)
Fixpoint close_all (i : Z) (pids : list Z) (t : fds) : fds :=
  match pids with
  | [] => t
  | p :: pids' => close_all (i + 1) pids' (if 0 <? p then delete i t else t)
  end.

(** The stream, or NULL with errno where popen sets it. *)
Definition popen (cmdstring type : bytes) (a : answers) (s : pst) : outcome (option Z * option Z) :=
  if negb (bool_decide (type = str "r")) && negb (bool_decide (type = str "w")) then Got (None, Some EINVAL) s
  else
    let r := bool_decide (type = str "r") in
    let init :=
      match childpid s with
      | Some pids => Got (Some pids) s
      | None =>
          match open_max (openmax s) (a_sysconf a) with
          | None => Fatal
          | Some m =>
              let m' := wrap_s 32 m in       (* static int maxfd *)
              if a_calloc a then
                Got (Some (replicate (Z.to_nat m') 0)) (mkPst (Some (replicate (Z.to_nat m') 0)) m' m (table s) (streams s) (execs s))
              else Got None (mkPst None m' m (table s) (streams s) (execs s))
          end
      end in
    match init with
    | Undef => Undef
    | Fatal => Fatal
    | Got None s => Got (None, None) s
    | Got (Some pids) s =>
        match a_pipe a with
        | None => Got (None, None) s
        | Some (p0, p1) =>
            let t := <[p1 := WriteEnd p0]> (<[p0 := ReadEnd p0]> (table s)) in
            match a_fork a with
            | None => Got (None, None) (mkPst (childpid s) (maxfd s) (openmax s) t (streams s) (execs s))
            | Some pid =>
                let ct := close_all 0 pids (child_pipe r p0 p1 t) in
                let ex := (pid, cmdstring, ct) :: execs s in
                let '(mine, t) := if r then (p0, delete p1 t) else (p1, delete p0 t) in
                match a_fdopen a with
                | None => Got (None, None) (mkPst (childpid s) (maxfd s) (openmax s) t (streams s) ex)
                | Some fp =>
                    if (0 <=? mine) && (mine <? Z.of_nat (length pids)) then
                      Got (Some fp, None)
                        (mkPst (Some (<[Z.to_nat mine := pid]> pids)) (maxfd s) (openmax s) t (<[fp := mine]> (streams s)) ex)
                    else Undef
                end
            end
        end
    end.

(** ** pclose *)

(** A result of waitpid: an interruption, another error, or a status. *)
Inductive wait := Interrupted | WaitError | Status (st : Z).

Fixpoint wait_loop (rs : list wait) : option Z :=
  match rs with
  | [] => None
  | Interrupted :: rs' => wait_loop rs'
  | WaitError :: _ => Some (-1)
  | Status st :: _ => Some st
  end.

(** [waits] gives what waitpid returns for a process, call by call; the value, errno
    where pclose sets it, and the process waited for. *)
Definition pclose (fp : Z) (fclose_ok : bool) (waits : Z -> list wait) (s : pst) :
    outcome (Z * option Z * option Z) :=
  match childpid s with
  | None => Got (-1, Some EINVAL, None) s
  | Some pids =>
      match streams s !! fp with
      | None => Undef                      (* fileno of a stream that is closed *)
      | Some fd =>
          if (0 <=? fd) && (fd <? Z.of_nat (length pids)) then
            match pids !! Z.to_nat fd with
            | None => Undef
            | Some pid =>
                if pid =? 0 then Got (-1, Some EINVAL, None) s
                else
                  let s := mkPst (Some (<[Z.to_nat fd := 0]> pids)) (maxfd s) (openmax s) (delete fd (table s))
                             (delete fp (streams s)) (execs s) in
                  if negb fclose_ok then Got (-1, None, None) s
                  else
                    match wait_loop (waits pid) with
                    | None => Undef            (* it waits for ever *)
                    | Some st => Got (st, None, Some pid) s
                    end
            end
          else Undef
      end
  end.

(** ** What the table says *)

(** The process of the stream on a descriptor; 0 when there is none. *)
Definition pid_of (pids : list Z) (fd : Z) : Z := if 0 <=? fd then default 0 (pids !! Z.to_nat fd) else 0.
Definition pid_at (s : pst) (fd : Z) : Z := match childpid s with Some pids => pid_of pids fd | None => 0 end.

(** How many descriptors the table is for. *)
Definition slots (s : pst) : Z := match childpid s with Some pids => Z.of_nat (length pids) | None => 0 end.

(** Process ids are not negative, and every stream has its descriptor. *)
Record popen_inv (s : pst) : Prop := {
  v_pids : forall fd, 0 <= pid_at s fd;
  v_open : forall fd, 0 < pid_at s fd -> is_Some (table s !! fd);
}.

(** The kernel's answers: a pipe has two new descriptors below the limit; a process id
    is positive. *)
Definition pipe_ok (p0 p1 lim : Z) (t : fds) : Prop :=
  p0 <> p1 /\ 0 <= p0 < lim /\ 0 <= p1 < lim /\ t !! p0 = None /\ t !! p1 = None.

Lemma pid_of_cons p pids fd : pid_of (p :: pids) fd = if fd =? 0 then p else pid_of pids (fd - 1).
Proof.
  unfold pid_of. destruct (Z.eqb_spec fd 0) as [->|Hn]; [done|].
  destruct (Z.leb_spec 0 fd) as [H|H], (Z.leb_spec 0 (fd - 1)); try lia.
  replace (Z.to_nat fd) with (S (Z.to_nat (fd - 1))) by lia. done.
Qed.

Lemma pid_of_insert pids fd p d :
  0 <= fd < Z.of_nat (length pids) ->
  pid_of (<[Z.to_nat fd := p]> pids) d = if d =? fd then p else pid_of pids d.
Proof.
  intros H. unfold pid_of. destruct (Z.eqb_spec d fd) as [->|Hn].
  - rewrite (proj2 (Z.leb_le _ _)) by lia. by rewrite list_lookup_insert_eq by lia.
  - destruct (Z.leb_spec 0 d); [|done]. rewrite list_lookup_insert_ne by lia. done.
Qed.

Lemma pid_of_zeros n fd : pid_of (replicate n 0) fd = 0.
Proof.
  unfold pid_of. destruct (0 <=? fd); [|done]. destruct (replicate n 0 !! Z.to_nat fd) as [x|] eqn:E; [|done].
  by apply lookup_replicate in E as [-> _].
Qed.

Lemma close_all_lookup i pids t fd :
  close_all i pids t !! fd = if 0 <? pid_of pids (fd - i) then None else t !! fd.
Proof.
  revert i t. induction pids as [|p pids IH]; intros i t; cbn [close_all].
  { unfold pid_of. by destruct (0 <=? fd - i). }
  rewrite IH, pid_of_cons. replace (fd - (i + 1)) with (fd - i - 1) by lia.
  destruct (Z.eqb_spec (fd - i) 0) as [E|E].
  - assert (fd = i) as -> by lia. replace (i - i - 1) with (-1) by lia. cbn. destruct (0 <? p); [by rewrite lookup_delete_eq|done].
  - destruct (0 <? p); [|done]. by rewrite lookup_delete_ne by lia.
Qed.

(** The standard descriptor of the child and the end of the pipe on it. *)
Definition child_std (r : bool) : Z := if r then 1 else 0.
Definition child_end (r : bool) (p0 : Z) : file := if r then WriteEnd p0 else ReadEnd p0.
Definition parent_end (r : bool) (p0 : Z) : file := if r then ReadEnd p0 else WriteEnd p0.

Lemma child_pipe_lookup r p0 p1 lim (t : fds) d :
  pipe_ok p0 p1 lim t -> is_Some (t !! 0) -> is_Some (t !! 1) ->
  child_pipe r p0 p1 (<[p1 := WriteEnd p0]> (<[p0 := ReadEnd p0]> t)) !! d =
    if d =? child_std r then Some (child_end r p0) else t !! d.
Proof.
  intros (Hne & H0 & H1 & F0 & F1) S0 S1.
  assert (N : p0 <> 0 /\ p0 <> 1 /\ p1 <> 0 /\ p1 <> 1).
  { destruct S0 as [? S0], S1 as [? S1]. split_and!; intros ->; congruence. }
  unfold child_pipe, child_std, child_end. destruct r.
  - rewrite (proj2 (Z.eqb_neq p1 1)) by tauto.
    assert (E : delete p0 (<[p1 := WriteEnd p0]> (<[p0 := ReadEnd p0]> t)) !! p1 = Some (WriteEnd p0))
      by (by rewrite lookup_delete_ne, lookup_insert_eq). rewrite E.
    destruct (Z.eqb_spec d 1) as [->|Hd]; [by rewrite lookup_delete_ne, lookup_insert_eq by tauto|].
    destruct (decide (d = p1)) as [->|D1]; [by rewrite lookup_delete_eq|]. rewrite lookup_delete_ne, lookup_insert_ne by done.
    destruct (decide (d = p0)) as [->|D0]; [by rewrite lookup_delete_eq|]. by rewrite lookup_delete_ne, !lookup_insert_ne.
  - rewrite (proj2 (Z.eqb_neq p0 0)) by tauto.
    assert (E : delete p1 (<[p1 := WriteEnd p0]> (<[p0 := ReadEnd p0]> t)) !! p0 = Some (ReadEnd p0))
      by (by rewrite lookup_delete_ne, lookup_insert_ne, lookup_insert_eq by done). rewrite E.
    destruct (Z.eqb_spec d 0) as [->|Hd]; [by rewrite lookup_delete_ne, lookup_insert_eq by tauto|].
    destruct (decide (d = p0)) as [->|D0]; [by rewrite lookup_delete_eq|]. rewrite lookup_delete_ne, lookup_insert_ne by done.
    destruct (decide (d = p1)) as [->|D1]; [by rewrite lookup_delete_eq|]. by rewrite lookup_delete_ne, !lookup_insert_ne.
Qed.

(** The parent keeps one end. *)
Lemma parent_table (r : bool) p0 p1 lim (t : fds) :
  pipe_ok p0 p1 lim t ->
  let t' : fds := <[p1 := WriteEnd p0]> (<[p0 := ReadEnd p0]> t) in
  (if r then (p0, delete p1 t') else (p1, delete p0 t')) =
  (if r then p0 else p1, <[(if r then p0 else p1) := parent_end r p0]> t).
Proof.
  intros (Hne & _ & _ & F0 & F1) t'. unfold t', parent_end. destruct r; f_equal.
  - rewrite delete_insert_id; [done|]. by rewrite lookup_insert_ne.
  - rewrite insert_insert_ne, delete_insert_id; [done|by rewrite lookup_insert_ne|done].
Qed.

(** ** Streams to commands *)

(** How many descriptors the table of process ids is for. *)
Definition limit (s : pst) (a : answers) : option Z :=
  match childpid s with Some pids => Some (Z.of_nat (length pids)) | None => open_max (openmax s) (a_sysconf a) end.

(** pclose of a stream. *)
Lemma pclose_stream fp fd waits st s :
  streams s !! fp = Some fd -> 0 < pid_at s fd -> wait_loop (waits (pid_at s fd)) = Some st ->
  exists s', pclose fp true waits s = Got (st, None, Some (pid_at s fd)) s' /\
    (forall d, pid_at s' d = if d =? fd then 0 else pid_at s d) /\ table s' = delete fd (table s) /\
    streams s' = delete fp (streams s) /\ is_Some (childpid s').
Proof.
  intros Hs Hp Hw. unfold pid_at in *. unfold pclose. destruct (childpid s) as [pids|]; [|lia]. rewrite Hs. unfold pid_of in Hp, Hw.
  destruct (Z.leb_spec 0 fd) as [H0|H0]; [|lia]. destruct (pids !! Z.to_nat fd) as [p|] eqn:E; [|cbn in Hp; lia].
  assert (Hl := lookup_lt_Some _ _ _ E). rewrite (proj2 (Z.ltb_lt _ _)) by lia. cbn in Hp, Hw. cbn [andb].
  rewrite (proj2 (Z.eqb_neq p 0)) by lia. cbn [negb]. unfold pid_of. rewrite (proj2 (Z.leb_le _ _) H0), E. cbn [default]. rewrite Hw.
  eexists. split; [done|]. cbn [childpid table streams]. split_and!; [|done|done|done].
  intros d. apply (pid_of_insert pids fd 0 d). lia.
Qed.

(** pclose of a stream that is closed, and of one that has no child. *)
Lemma pclose_closed fp ok waits s : is_Some (childpid s) -> streams s !! fp = None -> pclose fp ok waits s = Undef.
Proof. unfold pclose. by intros [pids ->] ->. Qed.
Lemma pclose_other fp d ok waits s :
  streams s !! fp = Some d -> 0 <= d < slots s -> pid_at s d = 0 -> pclose fp ok waits s = Got (-1, Some EINVAL, None) s.
Proof.
  unfold pclose, slots, pid_at, pid_of. intros Hs Hd Hp. destruct (childpid s) as [pids|]; [|done]. rewrite Hs.
  rewrite (proj2 (Z.leb_le _ _)) in Hp by lia. rewrite (proj2 (Z.leb_le 0 d)), (proj2 (Z.ltb_lt _ _)) by lia. cbn [andb].
  destruct (lookup_lt_is_Some_2 pids (Z.to_nat d)) as [p E]; [lia|]. rewrite E in Hp |- *. cbn in Hp. by subst.
Qed.

(** popen when the calls it makes succeed. *)
Lemma popen_succeeds cmd (r : bool) a p0 p1 pid fp lim s :
  limit s a = Some lim -> lim < 2 ^ 31 -> pipe_ok p0 p1 lim (table s) ->
  a_calloc a = true -> a_pipe a = Some (p0, p1) -> a_fork a = Some pid -> a_fdopen a = Some fp ->
  exists pids, (forall d, pid_of pids d = pid_at s d) /\ Z.of_nat (length pids) = lim /\
    exists m om, popen cmd (if r then str "r" else str "w") a s =
      Got (Some fp, None)
        (mkPst (Some (<[Z.to_nat (if r then p0 else p1) := pid]> pids)) m om
           (<[(if r then p0 else p1) := parent_end r p0]> (table s)) (<[fp := (if r then p0 else p1)]> (streams s))
           ((pid, cmd, close_all 0 pids (child_pipe r p0 p1 (<[p1 := WriteEnd p0]> (<[p0 := ReadEnd p0]> (table s))))) :: execs s)).
Proof.
  intros Hl Hlim Hp Hc Hpi Hf Hd. assert (Hp' := Hp). destruct Hp as (Hne & H0 & H1 & F0 & F1).
  assert (Hty : bool_decide ((if r then str "r" else str "w") = str "r") = r) by (by destruct r).
  assert (Hck : negb (bool_decide ((if r then str "r" else str "w") = str "r")) &&
    negb (bool_decide ((if r then str "r" else str "w") = str "w")) = false) by (by destruct r).
  unfold popen. rewrite Hck, Hty, Hc, Hpi, Hf, Hd.
  assert (Ht := parent_table r p0 p1 lim (table s) Hp'). cbv zeta in Ht.
  assert (Hb : forall pids : list Z, Z.of_nat (length pids) = lim ->
    (0 <=? (if r then p0 else p1)) && ((if r then p0 else p1) <? Z.of_nat (length pids)) = true).
  { intros pids ->. rewrite (proj2 (Z.leb_le _ _)), (proj2 (Z.ltb_lt _ _)); destruct r; done || lia. }
  unfold limit in Hl. unfold pid_at. destruct (childpid s) as [pids|].
  - injection Hl as Hl. exists pids. split_and!; [done|done|]. rewrite Ht, (Hb pids Hl). by eexists _, _.
  - rewrite Hl. assert (Hw : wrap_s 32 lim = lim) by (unfold wrap_s; change (2 ^ (32 - 1)) with (2 ^ 31); rewrite Z.mod_small; lia).
    rewrite Hw. exists (replicate (Z.to_nat lim) 0). assert (Hlen : Z.of_nat (length (replicate (Z.to_nat lim) 0)) = lim)
      by (rewrite length_replicate; lia).
    split_and!; [intros d; apply pid_of_zeros|done|]. cbn [table execs streams]. rewrite Ht, (Hb _ Hlen). by eexists _, _.
Qed.


(** A process with its three standard files and a stream that popen made before. *)
Definition table0 : fds := <[0 := OtherFile 0]> (<[1 := OtherFile 1]> (<[2 := OtherFile 2]> ∅)).
Definition popen0 : pst := mkPst None 0 0 table0 ∅ [].
Definition answers0 : answers := mkAns (1024, 0) true (Some (3, 4)) (Some 501) (Some 9000).


(** When fork fails, both ends of the pipe stay open. *)
Example popen_fork_leaks :
  exists s', popen (str "ls") (str "r") (mkAns (1024, 0) true (Some (3, 4)) None (Some 9000)) popen0 = Got (None, None) s' /\
    table s' !! 3 = Some (ReadEnd 3) /\ table s' !! 4 = Some (WriteEnd 3).
Proof. eexists. split; [vm_compute; reflexivity|]. split; vm_compute; reflexivity. Qed.

(** When an earlier stream has descriptor 1 (the process had closed its standard
    output), the next child that should write to its pipe has no standard output: it is
    closed with the parent's streams. *)
Example popen_closes_stdout :
  exists s1 s2 ct, popen (str "a") (str "w") (mkAns (8, 0) true (Some (5, 1)) (Some 501) (Some 9000))
      (mkPst None 0 0 (delete 1 table0) ∅ []) = Got (Some 9000, None) s1 /\
    popen (str "b") (str "r") (mkAns (8, 0) true (Some (3, 4)) (Some 502) (Some 9100)) s1 = Got (Some 9100, None) s2 /\
    head (execs s2) = Some (502, str "b", ct) /\ ct !! 1 = None /\ ct !! 4 = None.
Proof.
  eexists _, _, _. split; [vm_compute; reflexivity|]. split; [vm_compute; reflexivity|].
  split; [vm_compute; reflexivity|]. split; vm_compute; reflexivity.
Qed.

(** A descriptor beyond the limit found at the first call is written past the table. *)
Example popen_past_table :
  popen (str "ls") (str "r") (mkAns (4, 0) true (Some (7, 8)) (Some 501) (Some 9000)) popen0 = Undef.
Proof. vm_compute. reflexivity. Qed.
