(* ===== verification/SysFn.v ===== *)
(** * SysFn: two implementations of system(3).

    tlpi-dist/procexec/system.c and apue.2e/signals/system.c.  A process has a
    disposition for SIGINT and SIGQUIT and a set of blocked signals; a command is
    executed with those of the child, where exec turns handlers into the default. *)
From S2P Require Import Prelude Popen.
Local Open Scope Z_scope.

Definition SIGCHLD : Z := 17.

Inductive disp := Dfl | Ign | Handler (h : Z).

#[export] Instance disp_eq_dec : EqDecision disp.
Proof. solve_decision. Defined.

Record sigstate := mkSig { on_int : disp; on_quit : disp; mask : gset Z }.

Definition set_int (d : disp) (s : sigstate) : sigstate := mkSig d (on_quit s) (mask s).
Definition set_quit (d : disp) (s : sigstate) : sigstate := mkSig (on_int s) d (mask s).
Definition set_mask (m : gset Z) (s : sigstate) : sigstate := mkSig (on_int s) (on_quit s) m.

(** What is left of the signal state across exec. *)
Definition exec_disp (d : disp) : disp := match d with Handler _ => Dfl | _ => d end.
Definition exec_state (s : sigstate) : sigstate := mkSig (exec_disp (on_int s)) (exec_disp (on_quit s)) (mask s).

(** The outcome: the value returned ([None]: waitpid never returns), the signal state
    and errno of the caller, and the commands executed with their signal state. *)
Record sysres := mkSys { value : option Z; after : sigstate; errno : Z; ran : list (bytes * sigstate) }.

(** ** system.c of TLPI *)

(** [fork]: the process id, or the errno of a failure; [waits]: what waitpid returns;
    [e], [clobbered]: errno after the wait, and after the calls that restore. *)
Definition tlpi_run (command : bytes) (fork : Z + Z) (waits : list wait) (e clobbered : Z) (s : sigstate) : sysres :=
  let origMask := mask s in
  let s := set_mask (mask s ∪ {[SIGCHLD]}) s in
  let saOrigInt := on_int s in
  let s := set_int Ign s in
  let saOrigQuit := on_quit s in
  let s := set_quit Ign s in
  let '(status, e, ran) :=
    match fork with
    | inr e => (Some (-1), e, [])
    | inl childPid =>
        let c := s in
        let c := if negb (bool_decide (saOrigInt = Ign)) then set_int Dfl c else c in
        let c := if negb (bool_decide (saOrigQuit = Ign)) then set_quit Dfl c else c in
        let c := set_mask origMask c in
        (wait_loop waits, e, [(command, exec_state c)])
    end in
  let savedErrno := e in
  let s := set_mask origMask s in
  let s := set_int saOrigInt s in
  let s := set_quit saOrigQuit s in
  let e := clobbered in
  let e := savedErrno in
  mkSys status s e ran.

Definition tlpi_system (command : option bytes) (fork : Z + Z) (waits : list wait) (e clobbered : Z) (s : sigstate) : sysres :=
  match command with
  | None =>
      let r := tlpi_run (str ":") fork waits e clobbered s in
      mkSys (option_map (fun v => if v =? 0 then 1 else 0) (value r)) (after r) (errno r) (ran r)
  | Some c => tlpi_run c fork waits e clobbered s
  end.

(** ** system.c of APUE *)

(** Whether each of the calls that change the signal state succeeds, in order. *)
Record calls := mkCalls { c1 : bool; c2 : bool; c3 : bool; c4 : bool; c5 : bool; c6 : bool }.
Definition all_ok : calls := mkCalls true true true true true true.

Definition apue_system (k : calls) (cmdstring : option bytes) (fork : Z + Z) (waits : list wait) (e : Z) (s : sigstate) : sysres :=
  match cmdstring with
  | None => mkSys (Some 1) s e []
  | Some cmd =>
      if negb (c1 k) then mkSys (Some (-1)) s e []
      else
        let saveintr := on_int s in
        let s := set_int Ign s in
        if negb (c2 k) then mkSys (Some (-1)) s e []
        else
          let savequit := on_quit s in
          let s := set_quit Ign s in
          if negb (c3 k) then mkSys (Some (-1)) s e []
          else
            let savemask := mask s in
            let s := set_mask (mask s ∪ {[SIGCHLD]}) s in
            let '(status, e, ran) :=
              match fork with
              | inr e => (Some (-1), e, [])
              | inl pid =>
                  let c := set_int saveintr s in
                  let c := set_quit savequit c in
                  let c := set_mask savemask c in
                  (wait_loop waits, e, [(cmd, exec_state c)])
              end in
            if negb (c4 k) then mkSys (Some (-1)) s e ran
            else
              let s := set_int saveintr s in
              if negb (c5 k) then mkSys (Some (-1)) s e ran
              else
                let s := set_quit savequit s in
                if negb (c6 k) then mkSys (Some (-1)) s e ran else mkSys status (set_mask savemask s) e ran
  end.

(** ** What both do *)

(** The caller is as before; the command runs with the caller's signals as exec leaves
    them. *)
Definition system_spec (cmd : bytes) (fork : Z + Z) (waits : list wait) (e : Z) (s : sigstate) : sysres :=
  match fork with
  | inr e => mkSys (Some (-1)) s e []
  | inl _ => mkSys (wait_loop waits) s e [(cmd, exec_state s)]
  end.

Lemma sig_eta s : mkSig (on_int s) (on_quit s) (mask s) = s.
Proof. by destruct s. Qed.

Lemma tlpi_run_spec cmd fork waits e clobbered s : tlpi_run cmd fork waits e clobbered s = system_spec cmd fork waits e s.
Proof.
  unfold tlpi_run, system_spec, set_int, set_quit, set_mask. cbn [on_int on_quit mask]. destruct fork; rewrite sig_eta; [|done].
  do 3 f_equal. unfold exec_state. cbn. destruct (on_int s) eqn:E1, (on_quit s) eqn:E2; cbn; rewrite ?E1, ?E2; done.
Qed.

Lemma apue_system_spec cmd fork waits e s : apue_system all_ok (Some cmd) fork waits e s = system_spec cmd fork waits e s.
Proof.
  unfold apue_system, system_spec, set_int, set_quit, set_mask. cbn. destruct fork; by rewrite ?sig_eta.
Qed.

(** ** The two implementations of system agree *)

(** C38: The two implementations of system do the same.  For every command, outcome of
    fork and sequence of results of waitpid, and whatever the caller's dispositions of
    SIGINT and SIGQUIT and its mask: both return the status of the child, through
    interruptions, or -1 when fork or waitpid fails; both leave the caller's
    dispositions and mask, and errno, as the wait left them, on every path; and in both
    the command runs with the caller's mask, a signal ignored exactly if the caller
    ignored it, and the default otherwise.  (APUE's when its signal calls succeed;
    TLPI's with a null command tells whether the shell ran and returned 0.) *)
Theorem system_equivalent cmd fork waits e clobbered s :
  tlpi_system (Some cmd) fork waits e clobbered s = apue_system all_ok (Some cmd) fork waits e s /\
  (let r := tlpi_system (Some cmd) fork waits e clobbered s in
   after r = s /\
   match fork with
   | inr e' => value r = Some (-1) /\ errno r = e' /\ ran r = []
   | inl _ => value r = wait_loop waits /\ errno r = e /\
       exists c, ran r = [(cmd, c)] /\ mask c = mask s /\
         (on_int c = Ign <-> on_int s = Ign) /\ (on_quit c = Ign <-> on_quit s = Ign) /\
         (forall h, on_int c <> Handler h /\ on_quit c <> Handler h)
   end) /\
  (let r := tlpi_system None fork waits e clobbered s in
   after r = s /\ (value r = Some 1 <-> (exists p, fork = inl p) /\ wait_loop waits = Some 0)).
Proof.
  cbn [tlpi_system]. rewrite !tlpi_run_spec, apue_system_spec. split; [done|]. unfold system_spec. split.
  - destruct fork as [p|e']; cbn; [|done]. split_and!; try done. eexists. split; [done|]. unfold exec_state. cbn.
    split_and!; [done|by destruct (on_int s)|by destruct (on_quit s)|].
    intros h. by destruct (on_int s), (on_quit s).
  - destruct fork as [p|e']; cbn; (split; [done|]).
    + destruct (wait_loop waits) as [v|]; cbn; [|split; [done|by intros [_ ?]]].
      destruct (Z.eqb_spec v 0) as [->|Hn]; cbn; split; try done; [by eauto|]. by intros [_ [= ?]].
    + split; [done|]. by intros [[p ?] _].
Qed.

(** When APUE's second sigaction fails, SIGINT stays ignored in the caller. *)
Example apue_system_not_restored :
  on_int (after (apue_system (mkCalls true false true true true true) (Some (str "ls")) (inl 501) [] 0 (mkSig Dfl Dfl ∅))) = Ign.
Proof. reflexivity. Qed.

(** A handler of SIGINT is the default in the command; a caught interrupt of the wait
    is no error. *)
Example system_status :
  value (tlpi_system (Some (str "ls")) (inl 501) [Interrupted; Interrupted; Status 512] 0 9 (mkSig (Handler 1) Ign ∅)) = Some 512 /\
  ran (tlpi_system (Some (str "ls")) (inl 501) [] 0 9 (mkSig (Handler 1) Ign ∅)) = [(str "ls", mkSig Dfl Ign ∅)].
Proof. split; reflexivity. Qed.
