(* ===== verification/SvInit.v ===== *)
(** * SvInit: who initialises a semaphore.

    tlpi-dist/svsem/svsem_good_init.c and svsem_bad_init.c: any number of processes
    run the program at once, a system call at a time; a process may fail at any call.
    [sem_otime] is whether a semop has been done on the set. *)
From S2P Require Import Prelude.
From stdpp Require Import relations.
Local Open Scope Z_scope.

#[local] Arguments zsum : simpl never.

Definition MAX_TRIES : nat := 10.
Definition SEMVMX : Z := 32767.

Record semset := mkSet { semval : Z; sem_otime : bool }.

(** Where a process is: before semget; it has created the set; after SETVAL; it looks
    at the set, with the tries that are left; before its operation; after it; after an
    error. *)
Inductive ipc := IStart | ICreated | IReset | ITry (left : nat) | IOp | IDone | IError.

Record sys := mkSys { sem : option semset; procs : list (ipc * Z) }.    (* each with its sem-op *)

(** [semop] with one operation: [None] when it blocks, or fails with ERANGE. *)
Definition semop (op : Z) (s : semset) : option semset :=
  if op =? 0 then if semval s =? 0 then Some (mkSet (semval s) true) else None
  else if (0 <=? semval s + op) && (semval s + op <=? SEMVMX) then Some (mkSet (semval s + op) true)
  else None.

(** A call of a process of the good program: the set and where it goes; [junk] is the
    value a new semaphore has. *)
Definition good_call (junk : Z) (pc : ipc) (op : Z) (s : option semset) : option (option semset * ipc) :=
  match pc, s with
  | IStart, None => Some (Some (mkSet junk false), ICreated)
  | IStart, Some s => Some (Some s, ITry MAX_TRIES)
  | ICreated, Some s => Some (Some (mkSet 0 (sem_otime s)), IReset)
  | IReset, Some s => match semop 0 s with Some s' => Some (Some s', IOp) | None => None end
  | ITry (S k), Some s => Some (Some s, if sem_otime s then IOp else ITry k)
  | ITry O, Some s => Some (Some s, IError)                 (* "not initialized" *)
  | IOp, Some s => match semop op s with Some s' => Some (Some s', IDone) | None => None end
  | _, _ => None
  end.

(** The bad program: nothing is waited for. *)
Definition bad_call (junk : Z) (pc : ipc) (op : Z) (s : option semset) : option (option semset * ipc) :=
  match pc, s with
  | IStart, None => Some (Some (mkSet junk false), ICreated)
  | IStart, Some s => Some (Some s, IOp)
  | ICreated, Some s => Some (Some (mkSet 0 (sem_otime s)), IOp)
  | IOp, Some s => match semop op s with Some s' => Some (Some s', IDone) | None => None end
  | _, _ => None
  end.

Section System.
Context (call : ipc -> Z -> option semset -> option (option semset * ipc)).

Inductive step (s : sys) : sys -> Prop :=
| step_call i pc op st pc' :
    procs s !! i = Some (pc, op) -> call pc op (sem s) = Some (st, pc') ->
    step s (mkSys st (<[i := (pc', op)]> (procs s)))
| step_error i pc op :
    procs s !! i = Some (pc, op) -> pc <> IDone -> step s (mkSys (sem s) (<[i := (IError, op)]> (procs s))).

End System.

Definition start_sys (ops : list Z) : sys := mkSys None (map (fun op => (IStart, op)) ops).

(** ** The invariant of the good program *)

(** The operations done. *)
Definition applied (x : ipc * Z) : Z := match x.1 with IDone => x.2 | _ => 0 end.
Definition op_total (l : list (ipc * Z)) : Z := zsum applied l.

(** A process that is initialising, and one that takes the set as initialised. *)
Definition making (pc : ipc) : bool := match pc with ICreated | IReset => true | _ => false end.
Definition ready (pc : ipc) : bool := match pc with IOp | IDone => true | _ => false end.

(** At most one process is initialising. *)
Definition one_maker (l : list (ipc * Z)) : Prop :=
  forall i j x y, l !! i = Some x -> l !! j = Some y -> making x.1 = true -> making y.1 = true -> i = j.

Definition inv (s : sys) : Prop :=
  match sem s with
  | None => Forall (fun x => x.1 = IStart \/ x.1 = IError) (procs s)
  | Some st =>
      one_maker (procs s) /\
      (sem_otime st = false -> Forall (fun x => ready x.1 = false) (procs s) /\
         (forall i op, procs s !! i = Some (IReset, op) -> semval st = 0)) /\
      (sem_otime st = true -> 0 <= semval st <= SEMVMX /\ semval st = op_total (procs s) /\
         Forall (fun x => making x.1 = false) (procs s))
  end.

Lemma semop_spec op s s' : semop op s = Some s' -> semval s' = semval s + op /\ sem_otime s' = true.
Proof.
  unfold semop. destruct (Z.eqb_spec op 0) as [->|Hn].
  - destruct (semval s =? 0); [|done]. intros [= <-]. cbn. split; [lia|done].
  - destruct (_ && _); [|done]. by intros [= <-].
Qed.

Lemma semop_range op s s' : semop op s = Some s' -> 0 <= semval s <= SEMVMX -> 0 <= semval s' <= SEMVMX.
Proof.
  unfold semop. intros H Hr. destruct (op =? 0).
  - destruct (semval s =? 0); [|done]. by injection H as <-.
  - destruct (_ && _) eqn:E; [|done]. injection H as <-. cbn. apply andb_true_iff in E as [?%Z.leb_le ?%Z.leb_le]. lia.
Qed.

Lemma one_maker_insert l i x z :
  one_maker l -> l !! i = Some x -> (making z.1 = true -> making x.1 = true) -> one_maker (<[i := z]> l).
Proof.
  intros H Hi Hz. assert (Hlk : forall j y, <[i := z]> l !! j = Some y -> making y.1 = true ->
    exists y', l !! j = Some y' /\ making y'.1 = true).
  { intros j y Hj Hy. apply list_lookup_insert_Some in Hj as [(<- & <- & _)|(_ & Hj)]; [by eauto|by exists y]. }
  intros j k u v Hj Hk Hu Hv. destruct (Hlk j u Hj Hu) as (? & ? & ?), (Hlk k v Hk Hv) as (? & ? & ?). by eapply H.
Qed.

(** A process moves on and neither makes nor uses the set newly. *)
Lemma set_inv_move s i pc op pc' :
  inv s -> procs s !! i = Some (pc, op) -> sem s <> None ->
  (making pc' = true -> making pc = true) -> (ready pc' = true -> ready pc = true) -> pc' <> IReset ->
  applied (pc', op) = applied (pc, op) ->
  inv (mkSys (sem s) (<[i := (pc', op)]> (procs s))).
Proof.
  intros H Hi Hs Hm Hu Hr Ha. unfold inv in *. cbn [sem procs]. destruct (sem s) as [st|]; [|done].
  destruct H as (H1 & H2 & H3). split_and!; [by eapply one_maker_insert| |].
  - intros Ho. destruct (H2 Ho) as [Hf Hz]. split.
    + apply Forall_insert; [done|]. cbn. assert (Hp : ready pc = false) by (apply (Forall_lookup_1 _ _ _ _ Hf Hi)).
      destruct (ready pc') eqn:E; [|done]. specialize (Hu eq_refl). congruence.
    + intros j op' Hj. apply list_lookup_insert_Some in Hj as [(_ & [= -> _] & _)|(_ & Hj)]; [done|by eapply Hz].
  - intros Ho. destruct (H3 Ho) as (Hr' & Ht & Hf). split_and!; [lia|lia| |].
    + unfold op_total in *. rewrite (zsum_insert applied _ _ _ _ Hi), Ha. lia.
    + apply Forall_insert; [done|]. cbn. assert (Hp : making pc = false) by (apply (Forall_lookup_1 _ _ _ _ Hf Hi)).
      destruct (making pc') eqn:E; [|done]. specialize (Hm eq_refl). congruence.
Qed.

(** A process uses a set that is initialised. *)
Lemma inv_use s i pc op pc' st st' :
  inv s -> sem s = Some st -> sem_otime st = true -> procs s !! i = Some (pc, op) -> making pc' = false ->
  sem_otime st' = true -> 0 <= semval st' <= SEMVMX ->
  semval st' = semval st + applied (pc', op) - applied (pc, op) ->
  inv (mkSys (Some st') (<[i := (pc', op)]> (procs s))).
Proof.
  intros H Es Ho Hi Hm Ho' Hr' Ev. unfold inv in *. rewrite Es in H. cbn [sem procs]. destruct H as (H1 & _ & H3).
  destruct (H3 Ho) as (Hr & Ht & Hf). rewrite Ho'. split_and!; [eapply one_maker_insert; [done|exact Hi|cbn; congruence]|done|].
  intros _. split_and!; [lia|lia| |by apply Forall_insert]. unfold op_total in *. rewrite (zsum_insert applied _ _ _ _ Hi). lia.
Qed.

(** Whoever is initialising, nobody has used the set yet. *)
Lemma maker_first s i pc op st :
  inv s -> sem s = Some st -> procs s !! i = Some (pc, op) -> making pc = true ->
  sem_otime st = false /\ Forall (fun x => ready x.1 = false) (procs s) /\
  (forall j op, procs s !! j = Some (IReset, op) -> semval st = 0) /\
  forall j y, procs s !! j = Some y -> j <> i -> making y.1 = false.
Proof.
  intros H Es Hi Hm. unfold inv in H. rewrite Es in H. destruct H as (H1 & H2 & H3).
  assert (Ho : sem_otime st = false).
  { destruct (sem_otime st); [|done]. destruct (H3 eq_refl) as (_ & _ & Hf).
    assert (Hc := Forall_lookup_1 _ _ _ _ Hf Hi). cbn in Hc. congruence. }
  destruct (H2 Ho) as [Hf Hz]. split_and!; [done|done|done|]. intros j y Hj Hne.
  destruct (making y.1) eqn:Em; [|done]. exfalso. apply Hne. by eapply (H1 j i).
Qed.

(** Nobody having used the set, nothing has been added to it. *)
Lemma unused_op_total l : Forall (fun x => ready x.1 = false) l -> op_total l = 0.
Proof.
  intros H. apply zsum_zero. intros j y Hj. assert (Hu := Forall_lookup_1 _ _ _ _ H Hj). cbn in Hu.
  unfold applied. by destruct (y.1).
Qed.

(** SETVAL by the process that created the set. *)
Lemma inv_setval s i op st :
  inv s -> sem s = Some st -> procs s !! i = Some (ICreated, op) ->
  inv (mkSys (Some (mkSet 0 (sem_otime st))) (<[i := (IReset, op)]> (procs s))).
Proof.
  intros H Es Hi. destruct (maker_first s i ICreated op st H Es Hi eq_refl) as (Ho & Hf & _).
  unfold inv in *. rewrite Es in H. destruct H as (H1 & _). cbn [sem procs sem_otime semval].
  split_and!; [by eapply one_maker_insert|intros _; split; [by apply Forall_insert|done]|congruence].
Qed.

(** Its dummy operation. *)
Lemma inv_dummy s i op st st' :
  inv s -> sem s = Some st -> procs s !! i = Some (IReset, op) -> semop 0 st = Some st' ->
  inv (mkSys (Some st') (<[i := (IOp, op)]> (procs s))).
Proof.
  intros H Es Hi Eo. destruct (maker_first s i IReset op st H Es Hi eq_refl) as (Ho & Hf & Hz & Hm).
  destruct (semop_spec _ _ _ Eo) as [Ev Et]. rewrite (Hz i op Hi) in Ev.
  unfold inv in *. rewrite Es in H. destruct H as (H1 & _). cbn [sem procs]. rewrite Et.
  split_and!; [by eapply one_maker_insert|done|]. intros _. unfold SEMVMX. split_and!; [lia|lia| |].
  - unfold op_total. rewrite (zsum_insert applied _ _ _ _ Hi). fold (op_total (procs s)). rewrite unused_op_total by done. cbn. lia.
  - apply Forall_lookup_2. intros j y Hj. apply list_lookup_insert_Some in Hj as [(_ & <- & _)|(Hne & Hj)]; [done|].
    by apply (Hm j).
Qed.

(** The set is created. *)
Lemma inv_create s i op junk :
  inv s -> sem s = None -> procs s !! i = Some (IStart, op) ->
  inv (mkSys (Some (mkSet junk false)) (<[i := (ICreated, op)]> (procs s))).
Proof.
  intros H Es Hi. unfold inv in *. rewrite Es in H. cbn [sem procs sem_otime].
  assert (Hall : forall j y, procs s !! j = Some y -> making y.1 = false /\ ready y.1 = false /\ y.1 <> IReset).
  { intros j y Hj. by destruct (Forall_lookup_1 _ _ _ _ H Hj) as [-> | ->]. }
  split_and!; [|intros _; split|done].
  - intros j k u v Hj Hk Hu Hv.
    assert (Heq : forall j u, <[i := (ICreated, op)]> (procs s) !! j = Some u -> making u.1 = true -> j = i).
    { intros j' u' Hj' Hu'. apply list_lookup_insert_Some in Hj' as [(<- & _)|(_ & Hj')]; [done|].
      destruct (Hall _ _ Hj') as (? & _). congruence. }
    by rewrite (Heq j u), (Heq k v).
  - apply Forall_insert; [|done]. apply Forall_lookup_2. intros j y Hj. by apply (Hall j).
  - intros j op' Hj. apply list_lookup_insert_Some in Hj as [(_ & [=] & _)|(_ & Hj)]. by destruct (Hall _ _ Hj) as (_ & _ & []).
Qed.

Lemma good_call_inv junk s i pc op st pc' :
  inv s -> procs s !! i = Some (pc, op) -> good_call junk pc op (sem s) = Some (st, pc') ->
  inv (mkSys st (<[i := (pc', op)]> (procs s))).
Proof.
  intros H Hi E. unfold good_call in E. destruct (sem s) as [x|] eqn:Es.
  - assert (Hx : sem s <> None) by congruence.
    destruct pc as [| | |[|k]| | |]; try discriminate E.
    + injection E as <- <-. rewrite <- Es. by eapply set_inv_move.
    + injection E as <- <-. by apply inv_setval.
    + destruct (semop 0 x) as [x'|] eqn:Eo; [|done]. injection E as <- <-. by eapply inv_dummy.
    + injection E as <- <-. rewrite <- Es. by eapply set_inv_move.
    + injection E as <- <-. destruct (sem_otime x) eqn:Eot; [|rewrite <- Es; by eapply set_inv_move].
      assert (Hr : 0 <= semval x <= SEMVMX) by (unfold inv in H; rewrite Es in H; by apply H).
      eapply (inv_use s i _ op IOp x x); try done. cbn. lia.
    + destruct (semop op x) as [x'|] eqn:Eo; [|done]. injection E as <- <-. assert (H' := H). unfold inv in H'. rewrite Es in H'.
      destruct H' as (_ & H2 & H3). destruct (semop_spec _ _ _ Eo) as [Ev Et].
      assert (Ho : sem_otime x = true).
      { destruct (sem_otime x); [done|]. destruct (H2 eq_refl) as [Hf _]. by assert (Hc := Forall_lookup_1 _ _ _ _ Hf Hi). }
      eapply (inv_use s i _ op IDone x x'); try done; [eapply semop_range; [done|by apply H3]|cbn; lia].
  - destruct pc as [| | |[|]| | |]; try discriminate E. injection E as <- <-. by apply inv_create.
Qed.

Lemma good_inv junk s s' : inv s -> step (good_call junk) s s' -> inv s'.
Proof.
  intros H [i pc op st pc' Hi E|i pc op Hi Hpc]; [by eapply good_call_inv|]. destruct (sem s) as [x|] eqn:Es.
  - rewrite <- Es. eapply set_inv_move; [done|exact Hi|congruence|done|done|done|]. unfold applied. cbn. by destruct pc.
  - unfold inv in *. cbn [sem procs]. rewrite Es in H. apply Forall_insert; [done|by right].
Qed.

(** ** A semaphore is initialised before it is used *)

#[local] Arguments zsum : simpl never.

Lemma good_reachable junk ops s : rtc (step (good_call junk)) (start_sys ops) s -> inv s.
Proof.
  intros Hs. assert (H0 : inv (start_sys ops)).
  { unfold inv. cbn. apply Forall_map, Forall_true. by left. }
  revert H0. induction Hs as [|s1 s2 s3 H1 _ IH]; [done|]. intros Hi. apply IH. by eapply good_inv.
Qed.

(** C26: No operation is lost.  Any number of processes run the program at once, each
    with an operation of its own, and may fail at any call.  At every moment, however
    they interleave and whatever value a new semaphore has: when a process has done its
    operation, or is about to, the set is initialised, its value is the sum of the
    operations done so far and between 0 and SEMVMX, and no process is still to set it
    to 0; at most one process ever is. *)
Theorem good_init_sound junk ops s :
  rtc (step (good_call junk)) (start_sys ops) s ->
  (forall i op, procs s !! i = Some (IOp, op) \/ procs s !! i = Some (IDone, op) ->
     exists st, sem s = Some st /\ sem_otime st = true /\ semval st = op_total (procs s) /\ 0 <= semval st <= SEMVMX /\
       forall j x, procs s !! j = Some x -> making x.1 = false) /\
  one_maker (procs s).
Proof.
  intros Hs. assert (H := good_reachable _ _ _ Hs). unfold inv in H. destruct (sem s) as [st|] eqn:Es.
  - destruct H as (H1 & H2 & H3). split; [|done]. intros i op Hi.
    assert (Hu : exists pc, procs s !! i = Some (pc, op) /\ ready pc = true) by (destruct Hi as [Hi|Hi]; eauto).
    destruct Hu as (pc & Hpc & Hu). destruct (sem_otime st) eqn:Eo.
    + destruct (H3 eq_refl) as (Hr & Ht & Hf). exists st. split_and!; try done; try lia.
      intros j x Hj. apply (Forall_lookup_1 _ _ _ _ Hf Hj).
    + destruct (H2 eq_refl) as [Hf _]. assert (Hc := Forall_lookup_1 _ _ _ _ Hf Hpc). cbn in Hc. congruence.
  - split.
    + intros i op [Hi|Hi]; by destruct (Forall_lookup_1 _ _ _ _ H Hi) as [? | ?].
    + intros i j x y Hi _ Hx. by destruct (Forall_lookup_1 _ _ _ _ H Hi) as [E|E]; rewrite E in Hx.
Qed.

(** Two processes: the second finds the set before it is initialised, and waits. *)
Lemma good_init_sound_witness :
  exists s, rtc (step (good_call 77)) (start_sys [5; -2]) s /\ procs s = [(IDone, 5); (IDone, -2)] /\
    exists st, sem s = Some st /\ semval st = 3.
Proof.
  set (s := mkSys (Some (mkSet 3 true)) [(IDone, 5); (IDone, -2)]).
  assert (Hs : rtc (step (good_call 77)) (start_sys [5; -2]) s).
  { eapply rtc_l; [by eapply (step_call _ _ 0)|]. eapply rtc_l; [by eapply (step_call _ _ 1)|].
    eapply rtc_l; [by eapply (step_call _ _ 1)|]. eapply rtc_l; [by eapply (step_call _ _ 0)|].
    eapply rtc_l; [by eapply (step_call _ _ 0)|]. eapply rtc_l; [by eapply (step_call _ _ 1)|].
    eapply rtc_l; [by eapply (step_call _ _ 0)|]. eapply rtc_l; [by eapply (step_call _ _ 1)|]. apply rtc_refl. }
  exists s. split; [exact Hs|]. split; [reflexivity|].
  destruct (proj1 (good_init_sound 77 [5; -2] s Hs) 0%nat 5) as (st & E & _ & Ev & _); [right; reflexivity|].
  exists st. split; [exact E|]. rewrite Ev. reflexivity.
Defined.

(** The bad program: the second process adds 1 before the first sets the value to 0,
    and of two operations one is left. *)
Example bad_init_loses :
  exists s, rtc (step (bad_call 0)) (start_sys [1; 1]) s /\ procs s = [(IDone, 1); (IDone, 1)] /\
    sem s = Some (mkSet 1 true) /\ op_total (procs s) = 2.
Proof.
  exists (mkSys (Some (mkSet 1 true)) [(IDone, 1); (IDone, 1)]). split_and!; [|done|done|done].
  eapply rtc_l; [by eapply (step_call _ _ 0)|]. eapply rtc_l; [by eapply (step_call _ _ 1)|].
  eapply rtc_l; [by eapply (step_call _ _ 1)|]. eapply rtc_l; [by eapply (step_call _ _ 0)|].
  eapply rtc_l; [by eapply (step_call _ _ 0)|]. apply rtc_refl.
Qed.

(** A creator that fails leaves a set that nobody can use: the others give up after
    [MAX_TRIES] tries. *)
Example good_init_orphaned :
  exists s, rtc (step (good_call 0)) (start_sys [1; 1]) s /\ procs s = [(IError, 1); (IError, 1)] /\
    sem s = Some (mkSet 0 false).
Proof.
  exists (mkSys (Some (mkSet 0 false)) [(IError, 1); (IError, 1)]). split_and!; [|done|done].
  eapply rtc_l; [by eapply (step_call _ _ 0)|]. eapply rtc_l; [by eapply (step_error _ _ 0)|].
  do 12 (eapply rtc_l; [by eapply (step_call _ _ 1)|]). apply rtc_refl.
Qed.
