(* ===== verification/Call.v ===== *)
(** * Call: the client of the call daemon, apue.2e/call.

    main.c and call.c (the request to the daemon), loop.poll.c and escape.c (the
    session with the remote system), takeput.c, take.c and put.c (copying files).

    The user's terminal, the line to the remote system, the local files and the
    variables of the program are one state.  What the user types and what the line
    delivers are lists; each write to the line may be cut short. *)
From S2P Require Import Prelude Libc Calld TtyModes Opend.
Local Open Scope Z_scope.

Definition MAXLINE : nat := Z.to_nat 4096.
Definition BUFFSIZE : nat := 512.
Definition CTRLA : Z := 1.
Definition escapec : Z := 126.
Definition VEOF : nat := 4.
Definition VSUSP : nat := 10.
Definition STDIN_FILENO : Z := 0.
#[global] Opaque MAXLINE.

(** ** State *)

(** A byte typed, or a failing read. *)
Inductive key := KByte (c : Z) | KErr.
(** What a read of the line finds; no bytes are the end of the file. *)
Inductive rread := RData (b : bytes) | RErr.
(** What goes to the line. *)
Inductive lev := LByte (c : Z) | LBreak | LDrain | LFlush.

Record cst := mkCst {
  keys : list key;  (* then the end of the file *)
  rin : list rread;  (* then the end of the file *)
  wouts : list (option nat);  (* what the writes to come transfer; [None]: all *)
  line : list lev;
  out : bytes;  (* standard output *)
  err : list (string * list bytes);  (* messages on standard error *)
  stops : nat;  (* times the client has stopped itself *)
  tty : tst;
  files : gmap bytes bytes;
  streams : Z;  (* open streams *)
  src : bytes; dst : bytes;
  rem_buf : bytes  (* the [rem_cnt] bytes from [rem_ptr] on *)
}.

Definition set_keys v s := mkCst v (rin s) (wouts s) (line s) (out s) (err s) (stops s) (tty s) (files s) (streams s) (src s) (dst s) (rem_buf s).
Definition set_rin v s := mkCst (keys s) v (wouts s) (line s) (out s) (err s) (stops s) (tty s) (files s) (streams s) (src s) (dst s) (rem_buf s).
Definition set_wouts v s := mkCst (keys s) (rin s) v (line s) (out s) (err s) (stops s) (tty s) (files s) (streams s) (src s) (dst s) (rem_buf s).
Definition add_line v s := mkCst (keys s) (rin s) (wouts s) (line s ++ v) (out s) (err s) (stops s) (tty s) (files s) (streams s) (src s) (dst s) (rem_buf s).
Definition add_out v s := mkCst (keys s) (rin s) (wouts s) (line s) (out s ++ v) (err s) (stops s) (tty s) (files s) (streams s) (src s) (dst s) (rem_buf s).
Definition add_err v s := mkCst (keys s) (rin s) (wouts s) (line s) (out s) (err s ++ [v]) (stops s) (tty s) (files s) (streams s) (src s) (dst s) (rem_buf s).
Definition add_stop s := mkCst (keys s) (rin s) (wouts s) (line s) (out s) (err s) (S (stops s)) (tty s) (files s) (streams s) (src s) (dst s) (rem_buf s).
Definition set_tty v s := mkCst (keys s) (rin s) (wouts s) (line s) (out s) (err s) (stops s) v (files s) (streams s) (src s) (dst s) (rem_buf s).
Definition set_files v s := mkCst (keys s) (rin s) (wouts s) (line s) (out s) (err s) (stops s) (tty s) v (streams s) (src s) (dst s) (rem_buf s).
Definition add_streams v s := mkCst (keys s) (rin s) (wouts s) (line s) (out s) (err s) (stops s) (tty s) (files s) (streams s + v) (src s) (dst s) (rem_buf s).
Definition set_args a b s := mkCst (keys s) (rin s) (wouts s) (line s) (out s) (err s) (stops s) (tty s) (files s) (streams s) a b (rem_buf s).
Definition set_rem v s := mkCst (keys s) (rin s) (wouts s) (line s) (out s) (err s) (stops s) (tty s) (files s) (streams s) (src s) (dst s) v.

(** A computation returns, ends the process by [err_sys], is undefined, or is cut off
    by its fuel. *)
Inductive mres (A : Type) := MRet (a : A) (s : cst) | MSys (s : cst) | MUndef (why : string) (s : cst) | MFuel.
Arguments MRet {A} a s.
Arguments MSys {A} s.
Arguments MUndef {A} why s.
Arguments MFuel {A}.

Definition M (A : Type) : Type := cst -> mres A.

#[export] Instance M_ret : base.MRet M := fun A a s => MRet a s.
#[export] Instance M_bind : base.MBind M := fun A B k m s =>
  match m s with MRet a s' => k a s' | MSys s' => MSys s' | MUndef w s' => MUndef w s' | MFuel => MFuel end.

Definition get : M cst := fun s => MRet s s.
Definition modify (f : cst -> cst) : M unit := fun s => MRet tt (f s).
Definition undef {A} (why : string) : M A := fun s => MUndef why s.
Definition nofuel {A} : M A := fun _ => MFuel.
Definition err_msg (m : string) (args : list bytes) : M unit := modify (add_err (m, args)).
Definition err_sys {A} (m : string) : M A := fun s => MSys (add_err (m, []) s).
Definition print (b : bytes) : M unit := modify (add_out b).

(** The local system: which files can be opened, whether reading one ends in an
    error, which characters can be stored and whether the last of them are; whether
    the terminal takes what is written; how many pieces of input tcflush discards. *)
Class Local := {
  can_write : bytes -> bool;
  can_read : bytes -> bool;
  read_err : bytes -> bool;
  putc_ok : bytes -> nat -> bool;
  close_ok : bytes -> bool;
  out_ok : nat -> bool;
  flushed : nat;
}.

Section Client.
Context {K : TtyKernel} {L : Local}.

(** ** System calls *)

Definition read_key : M (option bytes) := fun s =>
  match keys s with
  | [] => MRet (Some []) s
  | KByte c :: k => MRet (Some [c]) (set_keys k s)
  | KErr :: k => MRet None (set_keys k s)
  end.

Definition read_rem (n : nat) : M (option bytes) := fun s =>
  match rin s with
  | [] => MRet (Some []) s
  | RErr :: r => MRet None (set_rin r s)
  | RData b :: r => MRet (Some (take n b)) (set_rin (match drop n b with [] => r | b' => RData b' :: r end) s)
  end.

(** A [char] as a byte of the line. *)
Definition byte_of (c : Z) : Z := wrap_u 8 c.
Definition char_of (b : Z) : Z := wrap_s 8 b.

Definition write_rem (b : bytes) : M Z := fun s =>
  match wouts s with
  | Some k :: w =>
      MRet (if (k =? 0)%nat then -1 else Z.of_nat (length (take k b))) (add_line (map LByte (take k b)) (set_wouts w s))
  | None :: w => MRet (Z.of_nat (length b)) (add_line (map LByte b) (set_wouts w s))
  | [] => MRet (Z.of_nat (length b)) (add_line (map LByte b) s)
  end.

Definition tty_call (f : tst -> Z * tst) : M Z := fun s => let '(r, t) := f (tty s) in MRet r (set_tty t s).

(** ** takeput.c *)

(** bufargs.c, with the arguments of this program. *)
Definition buf_args (buf : bytes) (optfunc : list bytes -> M Z) : M Z :=
  let s := cstring buf in
  match tokens (S (length s)) is_white s with
  | [] => mret (-1)
  | t :: ts => if (MAXARGC - 1 <=? length ts)%nat then mret (-1) else optfunc ((leading_white s ++ t) :: ts)
  end.

Definition take_put_args (argv : list bytes) : M Z :=
  match argv with
  | [a] => modify (set_args a a);; mret 0
  | [a; b] => modify (set_args a b);; mret 0
  | _ => mret (-1)
  end.

(** The line typed: at most MAXLINE - 2 of its characters. *)
Fixpoint read_line (fuel : nat) (cmdargs : bytes) : M bytes :=
  match fuel with
  | O => nofuel
  | S fuel' =>
      r ← read_key;
      match r with
      | None => err_sys "read error"
      | Some [] => mret cmdargs
      | Some (c :: _) =>
          if c =? 10 then mret cmdargs
          else read_line fuel' (if (length cmdargs <? MAXLINE - 2)%nat then cmdargs ++ [c] else cmdargs)
      end
  end.

Definition prompt_read (prompt : bytes) (userfunc : list bytes -> M Z) : M Z :=
  tty_call (tty_reset STDIN_FILENO);;
  s ← get;
  if negb (out_ok (length (out s))) then err_sys "write error"
  else
    print prompt;;
    cmdargs ← read_line (S (length (keys s))) [];
    tty_call (tty_raw STDIN_FILENO);;
    buf_args cmdargs userfunc.

(** ** take.c *)

Definition rem_read : M Z :=
  s ← get;
  match rem_buf s with
  | c :: b => modify (set_rem b);; mret (Z.land c 0x7f)
  | [] =>
      r ← read_rem MAXLINE;
      match r with
      | None => err_sys "read error"
      | Some [] => mret 0
      | Some (c :: b) => modify (set_rem b);; mret (Z.land c 0x7f)
      end
  end.

(** Whether the end of the line that is echoed comes. *)
Fixpoint echo_loop (fuel : nat) : M bool :=
  match fuel with
  | O => nofuel
  | S fuel' => c ← rem_read; if c =? 0 then mret false else if c =? 10 then mret true else echo_loop fuel'
  end.

Definition count_line (linecnt : Z) : M unit := print (13 :: fmt_ld linecnt).

Definition putc (c : Z) : M bool :=
  s ← get;
  let f := default [] (files s !! dst s) in
  if putc_ok (dst s) (length f) then modify (set_files (<[dst s := f ++ [c]]> (files s)));; mret true else mret false.

(** Whether all the characters were stored. *)
Fixpoint copy_loop (fuel : nat) (linecnt : Z) : M bool :=
  match fuel with
  | O => nofuel
  | S fuel' =>
      c ← rem_read;
      if (c =? 0) || (c =? CTRLA) then mret true
      else if c =? 13 then copy_loop fuel' linecnt
      else
        let linecnt' := if c =? 10 then linecnt + 1 else linecnt in
        (if c =? 10 then count_line linecnt' else mret tt);;
        ok ← putc c;
        if (ok : bool) then copy_loop fuel' linecnt' else mret false
  end.

(** The bytes that may come from the line, and the reads. *)
Definition rem_size (s : cst) : nat :=
  length (rem_buf s) + sum_list_with (fun r => match r with RData b => S (length b) | RErr => 1%nat end) (rin s).

Definition take_cmd : M unit :=
  r ← prompt_read (str "~[take] ") take_put_args;
  if r <? 0 then print (str "usage: [take] <sourcefile> <destfile>" ++ [10; 13])
  else
    s ← get;
    if negb (can_write (dst s)) then err_msg "can't open %s for writing" [dst s]
    else
      modify (fun s => add_streams 1 (set_files (<[dst s := []]> (files s)) s));;
      let cmd := str "cat " ++ src s ++ str "; echo " ++ [CTRLA; 13] in
      if (MAXLINE <=? length cmd)%nat then undef "write past the end of cmd"
      else
        n ← write_rem cmd;
        if negb (n =? Z.of_nat (length cmd)) then err_sys "write error"
        else
          modify (set_rem []);;
          s ← get;
          more ← echo_loop (S (rem_size s));
          if negb more then mret tt
          else
            s ← get;
            stored ← copy_loop (S (rem_size s)) 0;
            (if (stored : bool) then
               modify (add_streams (-1));;
               if close_ok (dst s) then mret tt else err_msg "output error to local file" []
             else err_msg "output error to local file" []);;
            write_rem [10];;
            mret tt.

(** ** put.c *)

Fixpoint send_file (content : bytes) (linecnt : Z) : M unit :=
  match content with
  | [] => mret tt
  | c :: rest =>
      n ← write_rem [c];
      if negb (n =? 1) then mret tt
      else
        let linecnt' := if c =? 10 then linecnt + 1 else linecnt in
        (if c =? 10 then count_line linecnt' else mret tt);;
        send_file rest linecnt'
  end.

Definition put_cmd : M unit :=
  r ← prompt_read (str "~[put] ") take_put_args;
  if r <? 0 then print (str "usage: [put] <sourcefile> <destfile>" ++ [10; 13])
  else
    s ← get;
    match (if can_read (src s) then files s !! src s else None) with
    | None => err_msg "can't open %s for reading" [src s]
    | Some content =>
        modify (add_streams 1);;
        let cmd := str "stty -echo; cat >" ++ dst s ++ str "; stty echo" ++ [13] in
        if (MAXLINE <=? length cmd)%nat then undef "write past the end of cmd"
        else
          n ← write_rem cmd;
          if negb (n =? Z.of_nat (length cmd)) then err_sys "write error"
          else
            modify (add_line [LDrain]);;
            send_file content 0;;
            s ← get;
            write_rem [cc (tty_termios (tty s)) VEOF];;
            modify (add_line [LDrain]);;
            modify (fun s => add_line [LFlush] (set_rin (drop flushed (rin s)) s));;
            write_rem [10];;
            (if read_err (src s) then err_msg "read error of local file" [] else mret tt);;
            modify (add_streams (-1))
    end.

(** ** escape.c *)

Definition doescape : M Z :=
  r ← read_key;
  match r with
  | Some (b :: _) =>
      let c := char_of b in
      s ← get;
      if c =? escapec then mret escapec
      else if c =? 46 then print (str "~." ++ [10; 13]);; mret (-1)
      else if c =? cc (tty_termios (tty s)) VSUSP then
        tty_call (tty_reset STDIN_FILENO);;
        modify add_stop;;
        tty_call (tty_raw STDIN_FILENO);;
        mret 0
      else if c =? 35 then modify (add_line [LBreak]);; mret 0
      else if c =? 116 then take_cmd;; mret 0
      else if c =? 112 then put_cmd;; mret 0
      else mret c
  | _ => err_sys "read error from stdin"
  end.

(** ** loop.poll.c *)

(** The result of poll: an error, or POLLIN and POLLHUP of both descriptors. *)
Inductive pollres := PErr | PRes (in0 hup0 in1 hup1 : bool).

Inductive uturn := UBreak | UContinue | UGo (bol : bool).

Definition send_char (c : Z) : M uturn :=
  n ← write_rem [byte_of c];
  if negb (n =? 1) then err_sys "write error" else mret (UGo ((c =? 13) || (c =? 10))).

(** Data on standard input. *)
Definition user_turn (bol : bool) : M uturn :=
  r ← read_key;
  match r with
  | Some (b :: _) =>
      let c := char_of b in
      if (c =? escapec) && bol then
        n ← doescape;
        if n <? 0 then mret UBreak else if n =? 0 then mret UContinue else send_char (char_of n)
      else send_char c
  | _ => err_sys "read error from stdin"
  end.

(** Data from the remote system: whether the loop ends. *)
Definition remote_turn : M bool :=
  r ← read_rem BUFFSIZE;
  match r with
  | None | Some [] => mret true
  | Some b =>
      s ← get;
      if negb (out_ok (length (out s))) then err_sys "writen error to stdout" else print b;; mret false
  end.

(** Whether the loop has ended; if not, poll waits. *)
Fixpoint loop (polls : list pollres) (bol : bool) : M bool :=
  match polls with
  | [] => mret false
  | PErr :: _ => err_sys "poll error"
  | PRes in0 hup0 in1 hup1 :: polls' =>
      u ← if in0 then user_turn bol else mret (UGo bol);
      match u with
      | UBreak => mret true
      | UContinue => loop polls' bol
      | UGo bol' =>
          if (hup0 : bool) then mret true
          else
            stop ← if in1 then remote_turn else mret false;
            if (stop : bool) then mret true else if (hup1 : bool) then mret true else loop polls' bol'
      end
  end.

(** ** call.c and main.c *)

(** The options in the order in which getopt(argc, argv, "des:o") returns them. *)
Inductive copt := OptD | OptE | OptO | OptS (optarg : bytes).

Inductive cletters := CDone (os : list copt) | CArg (os : list copt) | CBad.
Definition add_opt (o : copt) (l : cletters) : cletters :=
  match l with CDone os => CDone (o :: os) | CArg os => CArg (o :: os) | CBad => CBad end.
Fixpoint copt_letters (cs : bytes) : cletters :=
  match cs with
  | [] => CDone []
  | c :: cs' =>
      if c =? 100 then add_opt OptD (copt_letters cs')
      else if c =? 101 then add_opt OptE (copt_letters cs')
      else if c =? 111 then add_opt OptO (copt_letters cs')
      else if c =? 115 then match cs' with [] => CArg [] | _ => CDone [OptS cs'] end
      else CBad
  end.

(** The options and the arguments left; [None] after an option that is not known.
    [permute]: an argument that is not an option is moved behind the options and the
    scan goes on (GNU getopt, unless POSIXLY_CORRECT is set); else it ends the
    options. *)
Fixpoint cgetopts (permute : bool) (args : list bytes) : option (list copt * list bytes) :=
  match args with
  | [] => Some ([], [])
  | a :: args' =>
      let operand := if permute then '(os, r) ← cgetopts permute args'; Some (os, a :: r) else Some ([], a :: args') in
      match a with
      | 45 :: c :: cs =>
          if bool_decide (a = str "--") then Some ([], args')
          else match copt_letters (c :: cs) with
               | CDone os => '(os', r) ← cgetopts permute args'; Some (os ++ os', r)
               | CArg os =>
                   match args' with
                   | v :: args'' => '(os', r) ← cgetopts permute args''; Some (os ++ OptS v :: os', r)
                   | [] => None
                   end
               | CBad => None
               end
      | _ => operand
      end
  end.

Definition opt_text (o : copt) : bytes :=
  match o with
  | OptD => str "-d " | OptE => str "-e " | OptO => str "-o "
  | OptS v => str "-s " ++ v ++ str " "
  end.

(** What becomes of args[MAXLINE]. *)
Inductive built := Usage (why : string) | Overflow | Args (args : bytes).

(** strcat: the room for the string and its NUL. *)
Definition strcats (parts : list bytes) : built :=
  let args := concat parts in if (MAXLINE <=? length args)%nat then Overflow else Args args.

Definition build_args (permute : bool) (argv : list bytes) : built :=
  match cgetopts permute argv with
  | None => Usage "unrecognized option"
  | Some (os, h :: _) => strcats (map opt_text os ++ [h])
  | Some (os, []) => match strcats (map opt_text os) with Overflow => Overflow | _ => Usage "missing <hostname> to call" end
  end.

(** The message to the daemon. *)
Definition call_request (args : bytes) : bytes := str "call " ++ args ++ [0].

Inductive callend := CallSys (why : string) | CallEnd (r : rend) (shown : bytes).

Definition call (args : bytes) (conn written : Z) (write : bytes -> Z) (segs : list rmsg) : callend :=
  if conn <? 0 then CallSys "cli_conn error"
  else if negb (written =? Z.of_nat (length (call_request args))) then CallSys "writev error"
  else let '(r, shown) := recv_fd write segs in CallEnd r shown.

(** How the client ends; [Running]: it waits in poll.
    [OutOfFuel] does not occur. *)
Inductive ending := Exit (code : Z) | Dumped | Undefined (why : string) | Running | OutOfFuel.

(** exit, once tty_atexit is registered. *)
Definition at_exit (s : cst) : cst := set_tty (tty_atexit (tty s)) s.

Definition main (permute : bool) (argv : list bytes) (conn written : Z) (write : bytes -> Z) (segs : list rmsg) (atexit_ok : bool)
    (bol : bool) (polls : list pollres) (s : cst) : ending * cst :=
  match build_args permute argv with
  | Usage why => (Exit 1, add_err (why, []) s)
  | Overflow => (Undefined "write past the end of args", s)
  | Args args =>
      match call args conn written write segs with
      | CallSys why => (Exit 1, add_err (why, []) s)
      | CallEnd RSys shown => (Exit 1, add_err ("recvmsg error", [shown]) s)
      | CallEnd (RDump why) shown => (Dumped, add_err (why, [shown]) s)
      | CallEnd (RRet remfd) shown =>
          if remfd <? 0 then (Exit 1, add_err ("", [shown]) s)
          else
            let s := add_out (str "Connected" ++ [10]) s in
            let '(r, t) := tty_raw STDIN_FILENO (tty s) in
            let s := set_tty t s in
            if r <? 0 then (Exit 1, add_err ("tty_raw error", []) s)
            else if negb atexit_ok then (Exit 1, add_err ("atexit error", []) s)
            else
              match loop polls bol s with
              | MRet true s => (Exit 0, at_exit (add_out (str "Disconnected" ++ [10; 13]) s))
              | MRet false s => (Running, s)
              | MSys s => (Exit 1, at_exit s)
              | MUndef why s => (Undefined why, s)
              | MFuel => (OutOfFuel, s)
              end
      end
  end.

End Client.
