(* ===== verification/CallTheorems.v ===== *)
(** * CallTheorems: what the call client does. *)
From S2P Require Import Prelude Libc Calld TtyModes TtyTheorems Opend OpendTheorems Call.
Local Open Scope Z_scope.

(** ** The request, as the daemon understands it *)

Definition opt_apply (o : opts) (c : copt) : opts :=
  match c with
  | OptD => mkOpts true (o_parity o) (o_speed o)
  | OptE => mkOpts (o_Debug o) EVEN (o_speed o)
  | OptO => mkOpts (o_Debug o) ODD (o_speed o)
  | OptS v => mkOpts (o_Debug o) (o_parity o) (Some v)
  end.

(** An argument is an option, or an operand. *)
Lemma option_or_not a :
  (exists c cs, a = 45 :: c :: cs) \/ forall argv,
  cgetopts false (a :: argv) = Some ([], a :: argv) /\ cgetopts true [a] = Some ([], [a]) /\
  forall o, getopts (a :: argv) o = (o, inl (a :: argv)).
Proof.
  destruct a as [|x l]; [by right|]. destruct (decide (x = 45)) as [-> |Hx]; [destruct l as [|c cs]; [by right|left; by eauto]|right].
  destruct x as [|p|p]; try done. do 6 (destruct p as [p|p|]; try done).
Qed.

(** The words of the request. *)
Definition opt_words (o : copt) : list bytes :=
  match o with OptD => [str "-d"] | OptE => [str "-e"] | OptO => [str "-o"] | OptS v => [str "-s"; v] end.
Definition spaced (ws : list bytes) : bytes := concat (map (fun w => w ++ [32]) ws).
Definition opt_word (o : copt) : Prop := match o with OptS v => word v | _ => True end.

Lemma spaced_words os : concat (map opt_text os) = spaced (concat (map opt_words os)).
Proof.
  unfold spaced. induction os as [|o os IH]; [done|]. cbn [map concat]. rewrite map_app, concat_app, <- IH. f_equal.
  destruct o; [done|done|done|]. cbn. by rewrite app_nil_r.
Qed.

Lemma opt_words_ok os : Forall opt_word os -> Forall word (concat (map opt_words os)).
Proof.
  induction 1 as [|o os Ho _ IH]; [done|]. cbn [map concat]. apply Forall_app. split; [|done].
  destruct o; repeat constructor; try done. all: by destruct Ho.
Qed.

Lemma tokens_words ws h k :
  Forall word ws -> word h -> tokens (length ws + S k) is_white (spaced ws ++ h) = ws ++ [h].
Proof.
  intros Hw Hh. induction Hw as [|w ws Hw1 _ IH].
  - cbn [length Nat.add spaced map concat app tokens]. rewrite strtok_last by done. by destruct k.
  - cbn [length Nat.add tokens]. unfold spaced. cbn [map concat]. rewrite <- !app_assoc. cbn [app].
    rewrite strtok_word by done. cbn [app]. f_equal. exact IH.
Qed.

Lemma getopts_words os h o :
  head h <> Some 45 -> getopts (concat (map opt_words os) ++ [h]) o = (foldl opt_apply o os, inl [h]).
Proof.
  intros Hh. revert o. induction os as [|c os IH]; intros o.
  - cbn [map concat app foldl]. destruct (option_or_not h) as [(c & cs & ->)|H]; [done|apply H].
  - cbn [map concat foldl]. rewrite <- app_assoc. destruct c; cbn [opt_words app getopts].
    all: rewrite bool_decide_false by done; cbn [opt_letters str Z.eqb Pos.eqb]; apply IH.
Qed.

(** The words of a request are read alike whether or not getopt permutes them. *)
Lemma cgetopts_opt permute c argv :
  cgetopts permute (opt_words c ++ argv) = '(os, r) ← cgetopts permute argv; Some (c :: os, r).
Proof. by destruct c. Qed.
Lemma cgetopts_words permute os h :
  head h <> Some 45 -> cgetopts permute (concat (map opt_words os) ++ [h]) = Some (os, [h]).
Proof.
  intros Hh. induction os as [|c os IH].
  - cbn [map concat app]. destruct (option_or_not h) as [(c & cs & ->)|H]; [done|]. destruct permute; apply (H []).
  - cbn [map concat]. by rewrite <- app_assoc, cgetopts_opt, IH.
Qed.

Lemma opt_words_length os : (length (concat (map opt_words os)) <= length (concat (map opt_text os)))%nat.
Proof.
  rewrite spaced_words. generalize (concat (map opt_words os)) as ws. induction ws as [|w ws IH]; [done|].
  unfold spaced in *. cbn [map concat length]. rewrite !length_app. cbn [length]. lia.
Qed.

Lemma word_spaced ws : Forall word ws -> Forall (fun c => c <> 0) (spaced ws).
Proof.
  induction 1 as [|w ws Hw _ IH]; [done|]. unfold spaced in *. cbn [map concat]. rewrite <- app_assoc.
  apply Forall_app. split; [by apply word_nonzero|]. by constructor.
Qed.

Definition no_opts : opts := mkOpts false NONE None.

(** C17: The daemon understands the request as the user meant it.  Whether or not the
    client's getopt permutes its arguments, when it finds known options, in any grouping,
    and a host name that does not begin with a dash, when the options make fewer than 48
    words in the request (a speed counts as one of its own; [buf_args] gives up at
    MAXARGC words), the host and the speeds are words without white space, and the
    options and the host have at most 4090 characters together, then [main] builds a
    request that one read of the daemon takes whole, that ends with a NUL, and from which
    the daemon's [buf_args] and [cli_args] recover exactly what getopt found on the
    client's command line: the debugging option, the last parity, the last speed and the
    host; a getopt of the daemon that permutes reads the same options and host. *)
Theorem call_request_understood permute argv os host rest :
  cgetopts permute argv = Some (os, host :: rest) -> Forall opt_word os -> word host -> head host <> Some 45 ->
  (length (concat (map opt_words os)) < 48)%nat -> Z.of_nat (length (concat (map opt_text os) ++ host)) <= 4090 ->
  exists args, build_args permute argv = Args args /\
    List.last (call_request args) 1 = 0 /\ take (Z.to_nat Calld.MAXLINE) (call_request args) = call_request args /\
    (let o := foldl opt_apply no_opts os in
     forall s, Calld.buf_args (call_request args) Calld.cli_args s =
       CRet 0 (upd_sysname host (upd_opts (o_Debug o) (o_parity o) (o_speed o) s))) /\
    forall permute', cgetopts permute' (drop 1 (tokens (S (length (cstring (call_request args)))) is_white (cstring (call_request args)))) =
      Some (os, [host]).
Proof.
  intros Hg Ho Hh Hd Hn Hl. exists (concat (map opt_text os) ++ host).
  assert (Ho' := opt_words_ok _ Ho). set (req := call_request (concat (map opt_text os) ++ host)).
  assert (Hreq : req = (str "call " ++ concat (map opt_text os) ++ host) ++ [0]) by (unfold req, call_request; by rewrite <- !app_assoc).
  assert (Hc : cstring req = str "call " ++ concat (map opt_text os) ++ host).
  { rewrite Hreq. apply cstring_nonzero. apply Forall_app. split; [by repeat constructor|]. apply Forall_app.
    split; [rewrite spaced_words; by apply word_spaced|by apply word_nonzero]. }
  assert (Ht : tokens (S (length (str "call " ++ concat (map opt_text os) ++ host))) is_white
    (str "call " ++ concat (map opt_text os) ++ host) = str "call" :: concat (map opt_words os) ++ [host]).
  { rewrite spaced_words. change (str "call " ++ spaced ?ws ++ host) with (spaced (str "call" :: ws) ++ host).
    destruct (length host) as [|k] eqn:Ek; [destruct host; [by destruct Hh|done]|].
    assert (Hle := opt_words_length os). rewrite spaced_words in Hle.
    replace (S _) with (length (str "call" :: concat (map opt_words os)) +
      S (5 + length (spaced (concat (map opt_words os))) - length (concat (map opt_words os)) + k))%nat.
    2: { change (spaced (str "call" :: ?ws) ++ host) with (str "call " ++ spaced ws ++ host).
         rewrite !length_app, Ek. cbn [length str]. cbn. lia. }
    rewrite tokens_words; [done| |done]. constructor; [|done]. split; [done|]. by repeat constructor. }
  split_and!.
  - unfold build_args. rewrite Hg. unfold strcats. rewrite concat_app. cbn [concat]. rewrite app_nil_r.
    rewrite (proj2 (Nat.leb_gt _ _)); [done|]. with_strategy transparent [MAXLINE] unfold MAXLINE. lia.
  - rewrite Hreq. apply List.last_last.
  - apply take_ge. rewrite Hreq, !length_app. rewrite length_app in Hl. cbn [length str]. unfold Calld.MAXLINE. cbn. lia.
  - intros o s. unfold Calld.buf_args. rewrite Hc, Ht.
    rewrite (proj2 (Nat.leb_gt _ _)) by (rewrite length_app; cbn [length]; unfold MAXARGC; lia).
    assert (Hw : leading_white (str "call " ++ concat (map opt_text os) ++ host) = []).
    { unfold leading_white. change (skip_delims _ ?x) with x. by rewrite Nat.sub_diag. }
    rewrite Hw. cbn [app]. unfold Calld.cli_args. rewrite bool_decide_false by (by destruct (concat (map opt_words os))).
    rewrite getopts_words by done. done.
  - intros permute'. rewrite Hc, Ht. by apply cgetopts_words.
Qed.

(** ** The session *)

Ltac mb := cbv beta iota delta [mbind M_bind mret M_ret get modify print].
Tactic Notation "mb" "in" hyp(H) := cbv beta iota delta [mbind M_bind mret M_ret get modify print] in H.

(** How a user types a text so that no line of it starts with an escape. *)
Definition eol (c : Z) : bool := (c =? 13) || (c =? 10).
Fixpoint quote (bol : bool) (text : bytes) : bytes :=
  match text with
  | [] => []
  | c :: t => (if (c =? escapec) && bol then [escapec; c] else [c]) ++ quote (eol c) t
  end.
Definition bol_after (bol : bool) (text : bytes) : bool := match last text with Some c => eol c | None => bol end.

(** Turns of the loop in which nothing hangs up, and how often each side has data. *)
Definition turns (ps : list (bool * bool)) : list pollres := map (fun p => PRes p.1 false p.2 false) ps.
Definition count (ps : list bool) : nat := length (List.filter id ps).
Definition is_byte (c : Z) : Prop := 0 <= c < 256.
Definition piece (b : bytes) : Prop := b <> [] /\ (length b <= BUFFSIZE)%nat.

Section Session.
Context {K : TtyKernel} {L : Local}.

Lemma char_byte c : is_byte c -> byte_of (char_of c) = c.
Proof.
  unfold is_byte, byte_of, char_of, wrap_s, wrap_u. intros H. change (2 ^ 8) with 256. change (2 ^ (8 - 1)) with 128.
  rewrite Zminus_mod_idemp_l. rewrite Z.mod_small; lia.
Qed.

Lemma char_eqb c k : is_byte c -> 0 <= k < 128 -> (char_of c =? k) = (c =? k).
Proof.
  unfold is_byte, char_of, wrap_s. change (2 ^ 8) with 256. change (2 ^ (8 - 1)) with 128. intros Hc Hk.
  assert ((c + 128) mod 256 = c + 128 \/ (c + 128) mod 256 = c + 128 - 256 /\ 128 <= c) as [E|[E ?]].
  { destruct (Z.lt_ge_cases c 128); [left; apply Z.mod_small; lia|right; split; [|lia]].
    replace (c + 128) with (c + 128 - 256 + 1 * 256) by lia. rewrite Z_mod_plus_full, Z.mod_small; lia. }
  all: rewrite E; destruct (Z.eqb_spec c k), (Z.eqb_spec (c + 128 - 128) k); try lia; try done.
Qed.

Lemma send_char_ok c s :
  is_byte c -> wouts s = [] -> send_char (char_of c) s = MRet (UGo (eol c)) (add_line [LByte c] s).
Proof.
  intros Hc Hw. unfold send_char. rewrite char_byte, !char_eqb by (done || lia). unfold write_rem.
  mb. by rewrite Hw.
Qed.

(** A character that is typed, doubled if need be, goes to the line. *)
Lemma user_turn_quoted bol c t more s :
  is_byte c -> wouts s = [] -> keys s = map KByte (quote bol (c :: t)) ++ more ->
  user_turn bol s = MRet (UGo (eol c)) (add_line [LByte c] (set_keys (map KByte (quote (eol c) t) ++ more) s)).
Proof.
  intros Hc Hw Hk. cbn [quote] in Hk. rewrite map_app, <- app_assoc in Hk. unfold user_turn.
  mb. unfold read_key at 1. destruct ((c =? escapec) && bol) eqn:E.
  - rewrite Hk. cbn [map app]. apply andb_true_iff in E as [->%Z.eqb_eq ->].
    change (char_of escapec) with escapec. cbn [andb]. rewrite Z.eqb_refl. mb.
    unfold doescape. mb. unfold read_key. cbn [keys set_keys]. rewrite <- (send_char_ok escapec); done.
  - rewrite Hk. cbn [map app]. rewrite char_eqb, E by (done || (unfold escapec; lia)). by rewrite send_char_ok.
Qed.

Lemma remote_turn_piece b r s :
  (forall n, out_ok n = true) -> piece b -> rin s = RData b :: r ->
  remote_turn s = MRet false (add_out b (set_rin r s)).
Proof.
  intros Ho [Hne Hl] Hr. unfold remote_turn. mb. unfold read_rem. rewrite Hr.
  rewrite take_ge, drop_ge by done. destruct b; [done|]. unfold get. mb. by rewrite Ho.
Qed.

(** Changes of different parts of the state, in any order. *)
Lemma set_rin_out r b s : set_rin r (add_out b s) = add_out b (set_rin r s).
Proof. done. Qed.
Lemma set_keys_out k b s : set_keys k (add_out b s) = add_out b (set_keys k s).
Proof. done. Qed.
Lemma add_line_out l b s : add_line l (add_out b s) = add_out b (add_line l s).
Proof. done. Qed.
Lemma set_rin_line r l s : set_rin r (add_line l s) = add_line l (set_rin r s).
Proof. done. Qed.
Lemma set_keys_line k l s : set_keys k (add_line l s) = add_line l (set_keys k s).
Proof. done. Qed.
Lemma set_rin_keys r k s : set_rin r (set_keys k s) = set_keys k (set_rin r s).
Proof. done. Qed.
Lemma set_rin_rin r r' s : set_rin r (set_rin r' s) = set_rin r s.
Proof. done. Qed.
Lemma set_keys_keys k k' s : set_keys k (set_keys k' s) = set_keys k s.
Proof. done. Qed.
Lemma add_out_out a b s : add_out a (add_out b s) = add_out (b ++ a) s.
Proof. unfold add_out. cbn. by rewrite app_assoc. Qed.
Lemma add_line_line a b s : add_line a (add_line b s) = add_line (b ++ a) s.
Proof. unfold add_line. cbn. by rewrite app_assoc. Qed.

Ltac sort_state := rewrite ?set_rin_out, ?set_keys_out, ?add_line_out, ?set_rin_line, ?set_keys_line, ?set_rin_keys,
  ?set_rin_rin, ?set_keys_keys, ?add_out_out, ?add_line_line.

(** The loop over such turns. *)
Lemma loop_turns ps rest : forall bol text chunks kmore rmore s,
  (forall n, out_ok n = true) -> Forall is_byte text -> Forall piece chunks -> wouts s = [] ->
  keys s = map KByte (quote bol text) ++ kmore -> rin s = map RData chunks ++ rmore ->
  count (map fst ps) = length text -> count (map snd ps) = length chunks ->
  loop (turns ps ++ rest) bol s =
    loop rest (bol_after bol text) (add_out (concat chunks) (add_line (map LByte text) (set_keys kmore (set_rin rmore s)))).
Proof.
  induction ps as [|[i0 i1] ps IH]; intros bol text chunks kmore rmore s Ho Ht Hc Hw Hk Hr N0 N1.
  { destruct text, chunks; try done. cbn in Hk, Hr |- *. rewrite <- Hk, <- Hr. f_equal.
    destruct s. unfold add_out, add_line, set_keys, set_rin. cbn. by rewrite !app_nil_r. }
  cbn [turns map fst snd app loop]. mb.
  assert (Hrem : forall bol1 text1 s1, Forall is_byte text1 -> wouts s1 = [] ->
    keys s1 = map KByte (quote bol1 text1) ++ kmore -> rin s1 = rin s -> count (map fst ps) = length text1 ->
    mbind (fun stop : bool => if stop then mret true else loop (turns ps ++ rest) bol1)
      (if i1 then remote_turn else mret false) s1 =
    loop rest (bol_after bol1 text1) (add_out (concat chunks) (add_line (map LByte text1) (set_keys kmore (set_rin rmore s1))))).
  { intros bol1 text1 s1 Ht1 Hw1 Hk1 Hr1 M0. unfold count in N1. destruct i1; cbn [map List.filter id snd] in N1.
    - destruct chunks as [|b chunks]; [done|]. apply Forall_cons in Hc as [Hb Hc]. cbn [map app] in Hr.
      mb. rewrite (remote_turn_piece b (map RData chunks ++ rmore)) by (done || congruence). cbv iota.
      rewrite (IH bol1 text1 chunks kmore rmore) by (done || by injection N1).
      by sort_state.
    - mb. rewrite (IH bol1 text1 chunks kmore rmore); congruence || done. }
  unfold count in N0. destruct i0; cbn [map List.filter id fst] in N0.
  - destruct text as [|c text]; [done|]. apply Forall_cons in Ht as [Hb Ht].
    rewrite (user_turn_quoted bol c text kmore s) by done. mb in Hrem.
    rewrite (Hrem (eol c) text _) by (done || by injection N0). sort_state. f_equal.
    unfold bol_after. destruct text as [|c' text]; [done|]. cbn [last]. by destruct (last (c' :: text)) eqn:E; [|rewrite last_None in E].
  - apply Hrem; done.
Qed.

(** C37: The session is transparent: whatever text the user types, with a tilde at the
    start of a line doubled, and whatever the remote system sends, in whatever order
    their data arrive and in pieces of any size, the remote system is sent exactly the
    text, the terminal shows exactly what it sent, and the session goes on; and when the
    text ends a line, a tilde and a dot then end it, and are not sent. *)
Theorem call_session bol text chunks ps kmore rmore s :
  (forall n, out_ok n = true) -> Forall is_byte text -> Forall piece chunks -> wouts s = [] ->
  keys s = map KByte (quote bol text) ++ kmore -> rin s = map RData chunks ++ rmore ->
  count (map fst ps) = length text -> count (map snd ps) = length chunks ->
  let s' k := add_out (concat chunks) (add_line (map LByte text) (set_keys k (set_rin rmore s))) in
  loop (turns ps) bol s = MRet false (s' kmore) /\
  forall k hup0 in1 hup1 rest, bol_after bol text = true -> kmore = KByte 126 :: KByte 46 :: k ->
    loop (turns ps ++ PRes true hup0 in1 hup1 :: rest) bol s = MRet true (add_out (str "~." ++ [10; 13]) (s' k)).
Proof.
  intros Ho Ht Hc Hw Hk Hr N0 N1 s'. split.
  - rewrite <- (app_nil_r (turns ps)). by rewrite (loop_turns ps [] bol text chunks kmore rmore s).
  - intros k h0 i1 h1 rest Hb ->. rewrite (loop_turns ps _ bol text chunks _ rmore s) by done. rewrite Hb.
    cbn [loop]. reflexivity.
Qed.

(** ** The terminal *)

Section Terminal.
Context (orig : gmap Z termios) `{!Restorable orig}.

Definition tgood (s : cst) : Prop :=
  tty_inv orig (tty s) /\ (ttystate (tty s) = RESET \/ ttysavefd (tty s) = STDIN_FILENO).

(** However a computation ends, the terminal is as the session needs it; and it ends. *)
Definition ends_well {A} (r : mres A) : Prop :=
  match r with MRet _ s | MSys s | MUndef _ s => tgood s | MFuel => False end.
Definition tame_tty {A} (m : M A) : Prop := forall s, tgood s -> ends_well (m s).

Lemma ends_well_bind {A B} (m : M A) (k : A -> M B) s :
  ends_well (m s) -> (forall a s', m s = MRet a s' -> tgood s' -> ends_well (k a s')) -> ends_well (mbind k m s).
Proof. intros Hm Hk. unfold mbind, M_bind. destruct (m s) as [a s1|s1|w s1|] eqn:E; try done. by apply Hk. Qed.

Lemma tty_bind_tame {A B} (m : M A) (k : A -> M B) : tame_tty m -> (forall a, tame_tty (k a)) -> tame_tty (mbind k m).
Proof. intros Hm Hk s Hs. apply ends_well_bind; [by apply Hm|]. intros a s' _ Hs'. by apply Hk. Qed.

Lemma tty_get_tame {B} (k : cst -> M B) : (forall s, tgood s -> ends_well (k s s)) -> tame_tty (mbind k get).
Proof. intros H s Hs. by apply H. Qed.

Lemma tty_get_any_tame {B} (k : cst -> M B) : (forall s, tame_tty (k s)) -> tame_tty (mbind k get).
Proof. intros H s Hs. by apply H. Qed.

Lemma tty_ret_tame {A} (a : A) : tame_tty (mret a).
Proof. by intros s Hs. Qed.
Lemma tty_modify_tame f : (forall s, tty (f s) = tty s) -> tame_tty (modify f).
Proof. intros H s Hs. cbn. unfold tgood. by rewrite H. Qed.
Lemma tty_sys_tame {A} m : tame_tty (err_sys (A := A) m).
Proof. by intros s Hs. Qed.
Lemma tty_undef_tame {A} m : tame_tty (undef (A := A) m).
Proof. by intros s Hs. Qed.
Lemma tty_read_key_tame : tame_tty read_key.
Proof. intros s Hs. unfold read_key. by destruct (keys s) as [|[|]]. Qed.
Lemma tty_read_rem_tame n : tame_tty (read_rem n).
Proof. intros s Hs. unfold read_rem. by destruct (rin s) as [|[|]]. Qed.
Lemma tty_write_rem_tame b : tame_tty (write_rem b).
Proof. intros s Hs. unfold write_rem. by destruct (wouts s) as [|[[|]|]]. Qed.

Lemma tty_reset_tame : tame_tty (tty_call (tty_reset STDIN_FILENO)).
Proof.
  intros s [Hi Hfd]. unfold tty_call. destruct (tty_reset _ _) as [r t] eqn:E.
  eapply (tty_reset_inv orig) in E as (_ & Hst & Ht); [|done|].
  - split; cbn [tty set_tty]; [unfold tty_inv; by rewrite Hst|by left].
  - cbn [op_ok]. destruct Hfd as [-> | ->]; [done|]. by rewrite Z.eqb_refl, orb_true_r.
Qed.

(** A call that refuses leaves the descriptor that was saved. *)
Lemma tcgetattr_fd fd s r s' : tcgetattr fd s = (r, s') -> ttysavefd s' = ttysavefd s.
Proof. unfold tcgetattr. destruct (terms s !! fd), (get_err (calls s)); by intros [= _ <-]. Qed.
Lemma tcsetattr_fd fd t s r s' : tcsetattr fd t s = (r, s') -> ttysavefd s' = ttysavefd s.
Proof. unfold tcsetattr. destruct (terms s !! fd) as [old|]; [destruct (set_to (calls s) old t)|]; by intros [= _ <-]. Qed.
Lemma set_mode_fd want failed mode fd s r s' :
  set_mode want failed mode fd s = (r, s') -> r <> 0 -> ttysavefd s' = ttysavefd s.
Proof.
  unfold set_mode. intros E Hr. destruct (negb _); [by injection E as <- <-|].
  destruct (tcgetattr fd s) as [[buf|] s1] eqn:E1; apply tcgetattr_fd in E1; [|by injection E as <- <-].
  destruct (tcsetattr fd _ (upd_save buf s1)) as [r2 s2] eqn:E2. apply tcsetattr_fd in E2.
  change (ttysavefd (upd_save buf s1)) with (ttysavefd s1) in E2. destruct (r2 <? 0); [injection E as <- <-; congruence|].
  destruct (tcgetattr fd s2) as [[buf3|] s3] eqn:E3; apply tcgetattr_fd in E3; [destruct (failed buf3)|].
  2: by injection E as <- <-.
  all: destruct (tcsetattr fd _ s3) as [r4 s4] eqn:E4; apply tcsetattr_fd in E4; injection E as <- <-;
    change (ttysavefd (upd_errno _ s4)) with (ttysavefd s4); congruence.
Qed.

Lemma tty_raw_tame : tame_tty (tty_call (tty_raw STDIN_FILENO)).
Proof.
  intros s [Hi Hfd]. unfold tty_call. destruct (tty_raw _ _) as [r t] eqn:E. assert (Hfd' := set_mode_fd _ _ _ _ _ _ _ E).
  eapply (set_mode_inv orig) in E as (Ht & H0 & H1); [|done|done|done]. split; [done|]. cbn [tty set_tty].
  destruct (decide (r = 0)) as [Hr|Hr]; [right; by apply H0|]. destruct (H1 Hr) as [_ ->]. by rewrite (Hfd' Hr).
Qed.

Ltac keep := repeat first
  [ apply tty_ret_tame | apply tty_sys_tame | apply tty_undef_tame | apply tty_read_key_tame | apply tty_read_rem_tame
  | apply tty_write_rem_tame | apply tty_reset_tame | apply tty_raw_tame | apply tty_modify_tame; done
  | match goal with |- tame_tty (if ?b then _ else _) => destruct b end
  | match goal with |- tame_tty (mbind _ _) => apply tty_bind_tame; [|intros ?] end ].

(** ** Loops that end *)

Lemma read_line_ends fuel : forall cmdargs s, (length (keys s) < fuel)%nat -> tgood s -> ends_well (read_line fuel cmdargs s).
Proof.
  induction fuel as [|fuel IH]; intros cmdargs s Hf Hs; [lia|]. cbn [read_line]. unfold mbind, M_bind, read_key.
  destruct (keys s) as [|[c|] k] eqn:Ek; [done| |done]. destruct (c =? 10); [done|]. apply IH; [|done]. cbn in *. lia.
Qed.

Lemma tty_prompt_tame p userfunc : (forall argv, tame_tty (userfunc argv)) -> tame_tty (prompt_read p userfunc).
Proof.
  intros Hu. unfold prompt_read. apply tty_bind_tame; [apply tty_reset_tame|]. intros _. apply tty_get_tame. intros s Hs.
  destruct (negb _); [done|]. apply ends_well_bind; [done|]. intros [] s1 E1 Hs1. injection E1 as <-.
  apply ends_well_bind; [apply read_line_ends; [cbn; lia|done]|]. intros cmdargs s2 _ Hs2. revert s2 Hs2.
  change (tame_tty (tty_call (tty_raw STDIN_FILENO);; buf_args cmdargs userfunc)).
  apply tty_bind_tame; [apply tty_raw_tame|]. intros _. unfold buf_args. destruct (tokens _ _ _); [apply tty_ret_tame|].
  destruct (_ <=? _)%nat; [apply tty_ret_tame|apply Hu].
Qed.

Lemma tty_args_tame argv : tame_tty (take_put_args argv).
Proof. destruct argv as [|a [|b [|]]]; keep. Qed.

Lemma rem_read_cases s :
  (exists s', rem_read s = MSys s' /\ tty s' = tty s) \/
  exists c s', rem_read s = MRet c s' /\ tty s' = tty s /\ (c = 0 \/ (rem_size s' < rem_size s)%nat).
Proof.
  unfold rem_read. mb. unfold read_rem. destruct (rem_buf s) as [|c b] eqn:Eb.
  - destruct (rin s) as [|[b|] r] eqn:Er; [by eauto 8| |by eauto 8].
    destruct (take MAXLINE b) as [|c t] eqn:Et; [by eauto 8|]. right. do 2 eexists. split_and!; [done|done|right].
    unfold rem_size. cbn [rem_buf rin set_rem set_rin]. rewrite Eb, Er. cbn [length sum_list_with].
    assert (Hl : length b = (S (length t) + length (drop MAXLINE b))%nat).
    { rewrite <- (take_drop MAXLINE b) at 1. by rewrite length_app, Et. }
    destruct (drop MAXLINE b); cbn [length sum_list_with] in *; lia.
  - right. do 2 eexists. split_and!; [done|done|right]. unfold rem_size. cbn. rewrite Eb. cbn. lia.
Qed.

Lemma echo_loop_ends fuel : forall s, (rem_size s < fuel)%nat -> tgood s -> ends_well (echo_loop fuel s).
Proof.
  induction fuel as [|fuel IH]; intros s Hf Hs; [lia|]. cbn [echo_loop]. unfold mbind, M_bind.
  destruct (rem_read_cases s) as [(s' & -> & Ht)|(c & s' & -> & Ht & Hc)]; (assert (Hs' : tgood s') by (unfold tgood; by rewrite Ht)); [done|].
  destruct (Z.eqb_spec c 0); [done|]. destruct (c =? 10); [done|]. apply IH; [|done]. destruct Hc; [done|lia].
Qed.

Lemma tty_count_tame c n : tame_tty (if c =? 10 then count_line n else mret tt).
Proof. unfold count_line, print. keep. Qed.

Lemma putc_size c s : exists b s', putc c s = MRet b s' /\ tty s' = tty s /\ rem_size s' = rem_size s.
Proof. unfold putc. mb. destruct (putc_ok _ _); by eauto 8. Qed.

Lemma copy_loop_ends fuel : forall n s, (rem_size s < fuel)%nat -> tgood s -> ends_well (copy_loop fuel n s).
Proof.
  induction fuel as [|fuel IH]; intros n s Hf Hs; [lia|]. cbn [copy_loop]. unfold mbind at 1, M_bind at 1.
  destruct (rem_read_cases s) as [(s' & -> & Ht)|(c & s' & -> & Ht & Hc)]; (assert (Hs' : tgood s') by (unfold tgood; by rewrite Ht)); [done|].
  destruct (Z.eqb_spec c 0); [done|]. destruct Hc as [|Hc]; [done|]. destruct (c =? CTRLA); [done|]. cbn [orb].
  destruct (c =? 13); [apply IH; [lia|done]|]. apply ends_well_bind; [by apply tty_count_tame|]. intros [] s1 E1 Hs1.
  assert (Hz : rem_size s1 = rem_size s') by (destruct (c =? 10); by injection E1 as <-).
  destruct (putc_size c s1) as (b & s2 & E2 & Ht2 & Hz2). unfold mbind, M_bind. rewrite E2.
  assert (Hs2 : tgood s2) by (unfold tgood; by rewrite Ht2). destruct b; [apply IH; [lia|done]|done].
Qed.

Lemma tty_take_tame : tame_tty take_cmd.
Proof.
  unfold take_cmd. apply tty_bind_tame; [apply tty_prompt_tame, tty_args_tame|]. intros r. destruct (r <? 0); [unfold print; keep|].
  apply tty_get_any_tame. intros s. destruct (negb (can_write _)); [unfold err_msg; keep|]. apply tty_bind_tame; [keep|]. intros _.
  destruct (_ <=? _)%nat; [keep|]. apply tty_bind_tame; [keep|]. intros n. destruct (negb _); [keep|].
  apply tty_bind_tame; [keep|]. intros _. apply tty_get_tame. intros s0 Hs0. apply ends_well_bind; [apply echo_loop_ends; [lia|done]|].
  intros more s1 _ Hs1. destruct (negb more); [done|]. revert s1 Hs1. apply tty_get_tame. intros s2 Hs2.
  apply ends_well_bind; [apply copy_loop_ends; [lia|done]|]. intros stored s3 _. revert s3.
  change (tame_tty ((if stored then modify (add_streams (-1));;
    (if close_ok (dst s2) then mret tt else err_msg "output error to local file" []) else err_msg "output error to local file" []);;
    write_rem [10];; mret tt)).
  unfold err_msg. keep.
Qed.

Lemma tty_send_tame content : forall n, tame_tty (send_file content n).
Proof.
  induction content as [|c rest IH]; intros n; cbn [send_file]; unfold count_line, print; keep. apply IH.
Qed.

Lemma tty_put_tame : tame_tty put_cmd.
Proof.
  unfold put_cmd. apply tty_bind_tame; [apply tty_prompt_tame, tty_args_tame|]. intros r. destruct (r <? 0); [unfold print; keep|].
  apply tty_get_any_tame. intros s. destruct (if can_read _ then _ else _) as [content|]; unfold err_msg; [|keep].
  apply tty_bind_tame; [keep|]. intros _. destruct (_ <=? _)%nat; [keep|]. apply tty_bind_tame; [keep|]. intros n.
  destruct (negb _); [keep|]. apply tty_bind_tame; [keep|]. intros _. apply tty_bind_tame; [apply tty_send_tame|]. intros _.
  apply tty_get_any_tame. intros s1. keep.
Qed.

Lemma tty_escape_tame : tame_tty doescape.
Proof.
  unfold doescape. apply tty_bind_tame; [keep|]. intros [[|b l]|]; [keep| |keep]. apply tty_get_any_tame. intros s. unfold print.
  keep; [apply tty_take_tame|apply tty_put_tame].
Qed.

Lemma tty_user_tame bol : tame_tty (user_turn bol).
Proof.
  unfold user_turn, send_char. apply tty_bind_tame; [keep|]. intros [[|b l]|]; [keep| |keep].
  destruct (_ && bol); [|keep]. apply tty_bind_tame; [apply tty_escape_tame|]. intros n. keep.
Qed.

Lemma tty_remote_tame : tame_tty remote_turn.
Proof.
  unfold remote_turn. apply tty_bind_tame; [keep|]. intros [[|c b]|]; [keep| |keep]. apply tty_get_any_tame. intros s. unfold print. keep.
Qed.

Lemma tty_loop_tame polls : forall bol, tame_tty (loop polls bol).
Proof.
  induction polls as [|[|in0 hup0 in1 hup1] polls IH]; intros bol; cbn [loop]; [keep|keep|].
  apply tty_bind_tame; [destruct in0; [apply tty_user_tame|keep]|]. intros [| |bol1]; [keep|apply IH|]. destruct hup0; [keep|].
  apply tty_bind_tame; [destruct in1; [apply tty_remote_tame|keep]|]. intros [|]; [keep|]. destruct hup1; [keep|apply IH].
Qed.
End Terminal.

(** C36: The terminal is given back: whatever the user types and the remote system
    sends, whichever calls fail, copies of files and stops in between, the client never
    hangs in a loop of its own, and however it exits after the terminal was put in raw
    mode, all terminals then have the settings they had when it was started (provided
    that settings a terminal had can be set again, and that atexit succeeds). *)
Theorem call_restores_terminal (orig : gmap Z termios) `{!Restorable orig} junk permute argv conn written write segs bol polls s e s' :
  tty s = tty_init junk orig -> main permute argv conn written write segs true bol polls s = (e, s') ->
  e <> OutOfFuel /\ forall code, e = Exit code -> terms (tty s') = orig.
Proof.
  intros Hs E. assert (Hg : tgood orig s) by (split; rewrite Hs; [done|by left]).
  assert (Ht : terms (tty s) = orig) by (by rewrite Hs). unfold main in E.
  destruct (build_args permute argv) as [why| |args]; [by injection E as <- <-|by injection E as <- <-|].
  destruct (call _ _ _ _ _) as [why|[fd| |why] shown]; try (by injection E as <- <-).
  destruct (fd <? 0); [by injection E as <- <-|]. assert (Hr := tty_raw_tame orig (add_out (str "Connected" ++ [10]) s) Hg).
  unfold tty_call in Hr. destruct (tty_raw _ _) as [r t] eqn:Er. destruct (r <? 0) eqn:E0.
  - injection E as <- <-. split; [done|]. intros _ _. destruct Hg as [Hi _]. cbn [tty add_out] in Er.
    eapply (set_mode_inv orig) in Er as (Hi' & _ & H1); [|done|done|done]. apply Z.ltb_lt in E0.
    destruct H1 as [_ Hst]; [lia|]. rewrite Hs in Hst. unfold tty_inv in Hi'. by rewrite Hst in Hi'.
  - cbn [negb] in E. assert (Hl := tty_loop_tame orig polls bol _ Hr).
    destruct (loop polls bol _) as [[|] s1|s1|why s1|]; [| | | |done]; injection E as <- <-; split; try done; intros _ _.
    all: apply tty_atexit_inv; [done|apply Hl].
Qed.
End Session.

(** ** Concrete sessions *)

Definition well_local : Local := {|
  can_write _ := true; can_read _ := true; read_err _ := false; putc_ok _ _ := true; close_ok _ := true;
  out_ok _ := true; flushed := 0 |}.

(** A terminal where a user types [k], and a line that delivers [r]. *)
Definition session_start (k : bytes) (r : list bytes) : cst :=
  mkCst (map KByte k) (map RData r) [] [] [] [] 0 (tty_init cooked {[0 := cooked]}) ∅ 0 [] [] [].

Lemma call_request_understood_witness :
  exists args, build_args true [str "-de"; str "host1"; str "-s9600"; str "-o"] = Args args /\
    forall s, Calld.buf_args (call_request args) Calld.cli_args s =
      CRet 0 (upd_sysname (str "host1") (upd_opts true ODD (Some (str "9600")) s)).
Proof.
  destruct (call_request_understood true [str "-de"; str "host1"; str "-s9600"; str "-o"] [OptD; OptE; OptS (str "9600"); OptO]
    (str "host1") []) as (args & E & _ & _ & H & _).
  - reflexivity.
  - repeat constructor; cbn; try done.
  - repeat constructor; done.
  - done.
  - cbn. lia.
  - cbn. lia.
  - exists args. split; [exact E|exact H].
Defined.

(** The user types a line that starts with a tilde; the other side answers in two
    pieces. *)
Lemma call_session_witness :
  @loop demo_tty well_local (turns [(true, false); (true, true); (false, true); (true, false)] ++ [PRes true false false false]) true
    (session_start ([126; 126; 65; 10] ++ [126; 46]) [[66]; [67; 68]]) =
  MRet true (add_out (str "~." ++ [10; 13]) (add_out [66; 67; 68] (add_line (map LByte [126; 65; 10])
    (set_keys [] (set_rin [] (session_start ([126; 126; 65; 10] ++ [126; 46]) [[66]; [67; 68]])))))).
Proof.
  refine (proj2 (@call_session demo_tty well_local true [126; 65; 10] [[66]; [67; 68]]
    [(true, false); (true, true); (false, true); (true, false)] [KByte 126; KByte 46] []
    (session_start ([126; 126; 65; 10] ++ [126; 46]) [[66]; [67; 68]]) _ _ _ _ _ _ _ _) [] false false false [] _ _).
  all: try reflexivity.
  - unfold is_byte. repeat constructor; lia.
  - unfold piece, BUFFSIZE. repeat constructor; cbn; (done || lia).
Defined.

(** A session that the remote system ends. *)
Definition host_session : ending * cst :=
  @main demo_tty well_local true [str "host1"] 3 11 (fun _ => 0) [Seg [0; 0] (Some 4)] true true [PRes true false true true]
    (session_start [65] [[66]]).

Lemma call_restores_terminal_witness :
  host_session.1 = Exit 0 /\ terms (tty host_session.2) = {[0 := cooked]}.
Proof.
  assert (E : host_session.1 = Exit 0) by (vm_compute; reflexivity).
  split; [exact E|].
  eapply (@call_restores_terminal demo_tty well_local {[0 := cooked]} demo_restorable cooked true [str "host1"] 3 11
    (fun _ => 0) [Seg [0; 0] (Some 4)] true [PRes true false true true] (session_start [65] [[66]])).
  - reflexivity.
  - apply surjective_pairing.
  - exact E.
Defined.

(** A host name that starts with a dash reaches the daemon as an option it does not
    know, and ends it. *)
Example dashed_host_ends_daemon i c s :
  build_args true [str "--"; str "-x"] = Args (str "-x") /\
  exists s', Calld.serve i c (RdData (call_request (str "-x"))) s = CQuit s'.
Proof. split; [vm_compute; reflexivity|]. eexists. vm_compute. reflexivity. Qed.

(** A tilde and a character with the eighth bit end the session: the character is
    negative, as is the answer that means the end. *)
Example eighth_bit_ends_session :
  exists s', @loop demo_tty well_local (turns [(true, false)]) true (session_start [126; 233] []) = MRet true s' /\ line s' = [].
Proof. eexists. split; vm_compute; reflexivity. Qed.
