(* ===== verification/CallCopy.v ===== *)
(** * CallCopy: the file that take and put copy. *)
From S2P Require Import Prelude Libc Calld TtyModes TtyTheorems Opend OpendTheorems Call CallTheorems.
Local Open Scope Z_scope.

Section Copy.
Context {K : TtyKernel} {L : Local}.

(** ** What the line delivers *)

(** The bytes still to come are [p], in pieces of any size; then [rmore]. *)
Definition Feed (rmore : list rread) (s : cst) (p : bytes) : Prop :=
  exists chunks, Forall (fun b => b <> []) chunks /\ rin s = map RData chunks ++ rmore /\ rem_buf s ++ concat chunks = p.

(** Only what the line delivers has changed. *)
Definition fed (s s' : cst) : Prop := exists b r, s' = set_rem b (set_rin r s).

Lemma fed_trans s1 s2 s3 : fed s1 s2 -> fed s2 s3 -> fed s1 s3.
Proof. intros (b & r & ->) (b' & r' & ->). by exists b', r'. Qed.

Lemma rem_read_feed rmore s c p :
  Feed rmore s (c :: p) -> exists s', rem_read s = MRet (Z.land c 0x7f) s' /\ fed s s' /\ Feed rmore s' p.
Proof.
  intros (chunks & Hne & Hr & Hp). unfold rem_read. mb. destruct (rem_buf s) as [|c0 b] eqn:Eb.
  - destruct chunks as [|d chunks]; [done|]. apply Forall_cons in Hne as [Hd Hne]. destruct d as [|c1 d]; [done|].
    cbn [app concat] in Hp. injection Hp as -> Hp. unfold read_rem. rewrite Hr. cbn [map app].
    destruct MAXLINE as [|m] eqn:Em; [by with_strategy transparent [MAXLINE] vm_compute in Em|]. cbn [take drop].
    eexists. split; [reflexivity|]. split; [by do 2 eexists|].
    destruct (drop m d) as [|c2 d2] eqn:Ed.
    + exists chunks. split_and!; [done|done|]. cbn [rem_buf set_rem]. rewrite <- (take_drop m d) in Hp. by rewrite Ed, app_nil_r in Hp.
    + exists ((c2 :: d2) :: chunks). split_and!; [by constructor|done|]. cbn [rem_buf set_rem concat].
      rewrite app_assoc, <- Ed, take_drop. done.
  - cbn [app] in Hp. injection Hp as -> Hp. eexists. split; [done|]. split; [exists b, (rin s); by destruct s|]. by exists chunks.
Qed.

Lemma feed_size rmore s p : Feed rmore s p -> (length p <= rem_size s)%nat.
Proof.
  intros (chunks & _ & Hr & <-). unfold rem_size. rewrite length_app, Hr. clear. induction chunks as [|b chunks IH]; cbn; [lia|].
  rewrite length_app. lia.
Qed.

(** The echo of the command. *)
Lemma echo_loop_feed rmore echo p : forall fuel s,
  Forall (fun c => Z.land c 0x7f <> 0 /\ Z.land c 0x7f <> 10) echo -> (length echo < fuel)%nat ->
  Feed rmore s (echo ++ 10 :: p) -> exists s', echo_loop fuel s = MRet true s' /\ fed s s' /\ Feed rmore s' p.
Proof.
  induction echo as [|c echo IH]; intros [|fuel] s He Hf Hs; cbn [length] in Hf; try lia; cbn [echo_loop app] in *;
    destruct (rem_read_feed _ _ _ _ Hs) as (s1 & E1 & H1 & F1); unfold mbind, M_bind; rewrite E1.
  - by exists s1.
  - apply Forall_cons in He as [[? ?] He]. rewrite !(proj2 (Z.eqb_neq _ _)) by done.
    destruct (IH fuel s1) as (s2 & E2 & H2 & F2); [done|lia|done|]. exists s2. split_and!; [done|by eapply fed_trans|done].
Qed.

(** The characters of the file. *)
Definition text (body : bytes) : bytes := List.filter (fun c => negb (c =? 13)) (map (fun c => Z.land c 0x7f) body).

(** The parts of the state that copying leaves. *)
Definition kept (s s' : cst) : Prop :=
  keys s' = keys s /\ wouts s' = wouts s /\ line s' = line s /\ streams s' = streams s /\ src s' = src s /\ dst s' = dst s.

Lemma fed_kept s s' : fed s s' -> kept s s' /\ files s' = files s.
Proof. by intros (b & r & ->). Qed.

Lemma putc_stores c s f :
  (forall n, putc_ok (dst s) n = true) -> files s !! dst s = Some f ->
  exists s', putc c s = MRet true s' /\ kept s s' /\ files s' = <[dst s := f ++ [c]]> (files s) /\
    rin s' = rin s /\ rem_buf s' = rem_buf s.
Proof. intros Hp Hf. unfold putc. mb. rewrite Hf. cbn [default]. rewrite Hp. by eexists. Qed.

Lemma kept_trans s1 s2 s3 : kept s1 s2 -> kept s2 s3 -> kept s1 s3.
Proof. unfold kept. intros (? & ? & ? & ? & ? & ?) (? & ? & ? & ? & ? & ?). by split_and!; etrans. Qed.

Lemma count_line_kept (b : bool) n s :
  exists s', (if b then count_line n else mret tt) s = MRet tt s' /\ kept s s' /\ files s' = files s /\
    rin s' = rin s /\ rem_buf s' = rem_buf s.
Proof. destruct b; by eexists. Qed.

Lemma Feed_same rmore s s' p : rin s' = rin s -> rem_buf s' = rem_buf s -> Feed rmore s p -> Feed rmore s' p.
Proof. intros H1 H2. unfold Feed. by rewrite H1, H2. Qed.

Lemma copy_loop_feed rmore body p : forall fuel n s f,
  Forall (fun c => Z.land c 0x7f <> 0 /\ Z.land c 0x7f <> 1) body -> (length body < fuel)%nat ->
  (forall n, putc_ok (dst s) n = true) -> files s !! dst s = Some f -> Feed rmore s (body ++ 1 :: p) ->
  exists s', copy_loop fuel n s = MRet true s' /\ kept s s' /\ files s' = <[dst s := f ++ text body]> (files s).
Proof.
  induction body as [|c body IH]; intros [|fuel] n s f Hb Hf Hp Hs HF; cbn [length] in Hf; try lia; cbn [copy_loop app] in *;
    destruct (rem_read_feed _ _ _ _ HF) as (s1 & E1 & H1 & F1); apply fed_kept in H1 as [H1 Hf1];
    unfold mbind at 1, M_bind at 1; rewrite E1.
  - exists s1. split_and!; [done|done|]. by rewrite Hf1, app_nil_r, insert_id.
  - apply Forall_cons in Hb as [[? ?] Hb]. unfold text, CTRLA. cbn [map List.filter].
    destruct (Z.eqb_spec (Z.land c 0x7f) 0); [done|]. destruct (Z.eqb_spec (Z.land c 0x7f) 1); [done|]. cbn [orb].
    assert (Hd1 : dst s1 = dst s) by apply H1.
    destruct (Z.eqb_spec (Z.land c 0x7f) 13); cbn [negb].
    + destruct (IH fuel n s1 f) as (s2 & E2 & H2 & F2); [done|lia|by rewrite Hd1|by rewrite Hf1, Hd1|done|].
      exists s2. split_and!; [done|by eapply kept_trans|by rewrite F2, Hd1, Hf1].
    + unfold mbind, M_bind. destruct (count_line_kept (Z.land c 0x7f =? 10) (if Z.land c 0x7f =? 10 then n + 1 else n) s1)
        as (s2 & -> & H2 & Hf2 & Hr2 & Hb2). assert (Hd2 : dst s2 = dst s) by (rewrite <- Hd1; apply H2).
      destruct (putc_stores (Z.land c 0x7f) s2 f) as (s3 & -> & H3 & Hf3 & Hr3 & Hb3); [by rewrite Hd2|by rewrite Hf2, Hf1, Hd2|].
      assert (Hd3 : dst s3 = dst s) by (rewrite <- Hd2; apply H3).
      destruct (IH fuel (if Z.land c 0x7f =? 10 then n + 1 else n) s3 (f ++ [Z.land c 0x7f])) as (s4 & E4 & H4 & F4);
        [done|lia|by rewrite Hd3|by rewrite Hf3, Hd3, Hd2, lookup_insert_eq| |].
      { apply (Feed_same rmore s2); [done|done|]. by apply (Feed_same rmore s1). }
      exists s4. split_and!; [done|eapply kept_trans; [exact H1|]; eapply kept_trans; [exact H2|]; by eapply kept_trans|].
      rewrite F4, Hf3, Hd3, Hd2, insert_insert_eq, Hf2, Hf1, <- app_assoc. done.
Qed.

(** ** The names that the user types *)

Lemma read_line_typed l kmore : forall acc fuel s,
  Forall (fun c => c <> 10) l -> (length acc + length l < MAXLINE - 1)%nat -> (length l < fuel)%nat ->
  keys s = map KByte (l ++ [10]) ++ kmore -> read_line fuel acc s = MRet (acc ++ l) (set_keys kmore s).
Proof.
  induction l as [|c l IH]; intros acc [|fuel] s Hl Hm Hf Hk; cbn [length] in Hf; try lia; cbn [read_line];
    unfold mbind, M_bind, read_key; rewrite Hk; cbn [map app].
  - by rewrite app_nil_r.
  - apply Forall_cons in Hl as [Hc Hl]. rewrite (proj2 (Z.eqb_neq _ _)) by done. cbn [length] in Hm.
    rewrite (proj2 (Nat.ltb_lt _ _)) by lia. rewrite (IH (acc ++ [c]) fuel (set_keys (map KByte (l ++ [10]) ++ kmore) s)).
    + by rewrite <- app_assoc.
    + done.
    + rewrite length_app. cbn [length]. lia.
    + lia.
    + done.
Qed.

Lemma word_no_newline w : word w -> Forall (fun c => c <> 10) w.
Proof. intros [_ H]. eapply Forall_impl; [exact H|]. by intros c [_ Hc] ->. Qed.

Lemma leading_word w rest : word w -> leading_white (w ++ rest) = [].
Proof.
  intros [Hne Hw]. destruct w as [|c w]; [done|]. apply Forall_cons in Hw as [[_ Hc] _]. unfold leading_white.
  cbn [app skip_delims]. by rewrite Hc, Nat.sub_diag.
Qed.

(** The names are recovered from the line. *)
Lemma prompt_typed p a b kmore s :
  word a -> word b -> (length a + length b < 4000)%nat -> (forall n, out_ok n = true) ->
  keys s = map KByte ((a ++ 32 :: b) ++ [10]) ++ kmore ->
  exists s', prompt_read p take_put_args s = MRet 0 s' /\ keys s' = kmore /\ src s' = a /\ dst s' = b /\
    wouts s' = wouts s /\ line s' = line s /\ streams s' = streams s /\ files s' = files s /\ rin s' = rin s.
Proof.
  intros Ha Hb Hl Ho Hk. unfold prompt_read. unfold mbind, M_bind, tty_call at 1. destruct (tty_reset _ _) as [r t].
  unfold get. rewrite Ho. cbn [negb]. unfold print, modify.
  rewrite (read_line_typed (a ++ 32 :: b) kmore [] _ (add_out p (set_tty t s))).
  2: { apply Forall_app. split; [by apply word_no_newline|]. constructor; [done|by apply word_no_newline]. }
  2: { with_strategy transparent [MAXLINE] unfold MAXLINE. rewrite length_app. cbn [length]. lia. }
  2: { change (keys (set_tty t s)) with (keys s). rewrite Hk, !length_app, length_map, !length_app. lia. }
  2: done.
  unfold tty_call. destruct (tty_raw _ _) as [r' t']. unfold buf_args. cbn [app].
  assert (Hc : cstring (a ++ 32 :: b) = a ++ 32 :: b).
  { apply cstring_all_nonzero, Forall_app. split; [by apply word_nonzero|]. constructor; [done|by apply word_nonzero]. }
  assert (Ht : tokens (S (length (a ++ 32 :: b))) is_white (a ++ 32 :: b) = [a; b]).
  { change (a ++ 32 :: b) with (a ++ [32] ++ b). rewrite app_assoc.
    replace ((a ++ [32]) ++ b) with (spaced [a] ++ b) by (unfold spaced; cbn; by rewrite app_nil_r).
    replace (S _) with (length [a] + S (length (spaced [a] ++ b) - 1))%nat.
    2: { unfold spaced. cbn [map concat]. rewrite !length_app. cbn [length]. lia. }
    by rewrite tokens_words by (done || by constructor). }
  rewrite Hc, Ht, leading_word by done. cbn [app length]. by eexists.
Qed.

(** A write that is not cut short. *)
Lemma write_rem_all b s : wouts s = [] -> write_rem b s = MRet (Z.of_nat (length b)) (add_line (map LByte b) s).
Proof. intros H. unfold write_rem. by rewrite H. Qed.

Definition take_command (a : bytes) : bytes := str "cat " ++ a ++ str "; echo " ++ [CTRLA; 13].
Definition put_command (b : bytes) : bytes := str "stty -echo; cat >" ++ b ++ str "; stty echo" ++ [13].

Lemma fits_line (a pre post : bytes) :
  (length a < 4000)%nat -> (length pre < 40)%nat -> (length post < 40)%nat -> (MAXLINE <=? length (pre ++ a ++ post))%nat = false.
Proof. intros. apply Nat.leb_gt. with_strategy transparent [MAXLINE] unfold MAXLINE. rewrite !length_app. lia. Qed.

(** ** take *)

(** take copies the remote file: when the user types the names of two files, and the
    remote system answers, in pieces of any size, with the echo of the command, a line
    end, the contents of the file and control-A, none of them with a NUL, then the local
    file holds exactly these contents, without carriage returns and the eighth bits, the
    stream is closed, and the remote system is sent the command and one newline. *)
Lemma take_receives a b echo body rest chunks kmore rmore s :
  word a -> word b -> (length a + length b < 4000)%nat ->
  (forall n, out_ok n = true) -> can_write b = true -> close_ok b = true -> (forall n, putc_ok b n = true) ->
  wouts s = [] -> keys s = map KByte ((a ++ 32 :: b) ++ [10]) ++ kmore ->
  rin s = map RData chunks ++ rmore -> Forall (fun d => d <> []) chunks ->
  concat chunks = echo ++ 10 :: body ++ CTRLA :: rest ->
  Forall (fun c => Z.land c 0x7f <> 0 /\ Z.land c 0x7f <> 10) echo ->
  Forall (fun c => Z.land c 0x7f <> 0 /\ Z.land c 0x7f <> CTRLA) body ->
  exists s', take_cmd s = MRet tt s' /\ files s' = <[b := text body]> (files s) /\
    line s' = line s ++ map LByte (take_command a ++ [10]) /\ streams s' = streams s /\ keys s' = kmore.
Proof.
  intros Ha Hb Hl Ho Hw Hc Hp Hwo Hk Hr Hne Hcat He Hbody.
  destruct (prompt_typed (str "~[take] ") a b kmore s) as (s1 & E1 & K1 & S1 & D1 & W1 & L1 & T1 & F1 & R1); try done.
  unfold take_cmd. unfold mbind, M_bind. rewrite E1. cbn [Z.ltb Z.compare]. unfold get. rewrite D1, Hw. cbn [negb]. unfold modify at 1.
  rewrite D1, S1. fold (take_command a).
  assert (Hfit : (MAXLINE <=? length (take_command a))%nat = false) by (apply fits_line; cbn; lia). rewrite Hfit.
  set (s2 := add_streams 1 (set_files (<[b := []]> (files s1)) s1)).
  rewrite (write_rem_all _ s2) by (unfold s2; cbn; congruence). rewrite Z.eqb_refl. cbn [negb]. unfold modify at 1.
  set (s3 := set_rem [] (add_line (map LByte (take_command a)) s2)).
  assert (HF : Feed rmore s3 (echo ++ 10 :: body ++ CTRLA :: rest)).
  { exists chunks. split_and!; [done| |done]. unfold s3, s2. cbn. congruence. }
  assert (Hsz := feed_size _ _ _ HF). rewrite !length_app in Hsz. cbn [length] in Hsz. rewrite length_app in Hsz.
  destruct (echo_loop_feed rmore echo _ (S (rem_size s3)) s3 He ltac:(lia) HF) as (s4 & -> & H4 & F4). cbn [negb].
  apply fed_kept in H4 as [(K4 & W4 & L4 & T4 & S4 & D4) Fi4]. assert (Hd4 : dst s4 = b) by (rewrite D4; exact D1).
  assert (Hs4 := feed_size _ _ _ F4). rewrite !length_app in Hs4.
  destruct (copy_loop_feed rmore body rest (S (rem_size s4)) 0 s4 []) as (s5 & -> & (K5 & W5 & L5 & T5 & S5 & D5) & Fi5);
    [done|lia|by rewrite Hd4|rewrite Fi4, Hd4; apply lookup_insert_eq|done|].
  rewrite Hd4, Hc. unfold modify, mret, M_ret. cbv beta iota. rewrite (write_rem_all [10]).
  2: { change (wouts (add_streams (-1) s5)) with (wouts s5). rewrite W5, W4. unfold s3, s2. cbn. congruence. }
  eexists. split; [reflexivity|]. cbn [files line streams keys add_streams add_line]. split_and!.
  - rewrite Fi5, Hd4, Fi4. unfold s3, s2. cbn [files set_rem add_line add_streams set_files]. by rewrite insert_insert_eq, F1.
  - rewrite L5, L4. unfold s3, s2. cbn [line set_rem add_line add_streams set_files]. by rewrite L1, map_app, app_assoc.
  - rewrite T5, T4. unfold s3, s2. cbn [streams set_rem add_line add_streams set_files]. lia.
  - rewrite K5, K4. exact K1.
Qed.

(** ** put *)

Lemma send_file_all content : forall n s, wouts s = [] ->
  exists s', send_file content n s = MRet tt s' /\ line s' = line s ++ map LByte content /\ files s' = files s /\
    streams s' = streams s /\ keys s' = keys s /\ wouts s' = [] /\ tty s' = tty s /\ src s' = src s.
Proof.
  induction content as [|c content IH]; intros n s Hw; cbn [send_file].
  - exists s. by rewrite app_nil_r.
  - unfold mbind, M_bind. rewrite write_rem_all by done. cbn [length].
    change (negb (Z.of_nat 1 =? 1)) with false. cbv iota.
    destruct (c =? 10); [unfold count_line, print, modify|unfold mret, M_ret]; cbv beta iota.
    all: edestruct IH as (s' & -> & H1 & H2 & H3 & H4 & H5 & H6 & H7);
      [|exists s'; split_and!; [done|rewrite H1; cbn; by rewrite <- app_assoc|done..]]; done.
Qed.

(** put sends the command, every byte of the local file, and the character that ends
    the remote cat. *)
Lemma put_sends a b content kmore s :
  word a -> word b -> (length a + length b < 4000)%nat -> (forall n, out_ok n = true) ->
  can_read a = true -> read_err a = false -> files s !! a = Some content ->
  wouts s = [] -> keys s = map KByte ((a ++ 32 :: b) ++ [10]) ++ kmore ->
  exists s' veof, put_cmd s = MRet tt s' /\ streams s' = streams s /\ files s' = files s /\ keys s' = kmore /\
    line s' = line s ++ map LByte (put_command b) ++ [LDrain] ++ map LByte content ++
              [LByte veof; LDrain; LFlush; LByte 10].
Proof.
  intros Ha Hb Hl Ho Hrd Hre Hf Hwo Hk.
  destruct (prompt_typed (str "~[put] ") a b kmore s) as (s1 & E1 & K1 & S1 & D1 & W1 & L1 & T1 & F1 & R1); try done.
  unfold put_cmd. unfold mbind, M_bind. rewrite E1. cbn [Z.ltb Z.compare]. unfold get. rewrite S1, Hrd, F1, Hf. unfold modify at 1.
  rewrite D1. fold (put_command b).
  assert (Hfit : (MAXLINE <=? length (put_command b))%nat = false) by (apply fits_line; cbn; lia). rewrite Hfit.
  rewrite write_rem_all by (cbn; congruence). rewrite Z.eqb_refl. cbn [negb]. unfold modify at 1.
  edestruct (send_file_all content 0) as (s2 & -> & L2 & F2 & T2 & K2 & W2 & Y2 & S2); [|].
  2: { rewrite write_rem_all by done. unfold modify at 1 2. rewrite write_rem_all by done.
       rewrite S2. cbn [src add_line add_streams]. rewrite S1, Hre. unfold mret, M_ret, modify.
       do 2 eexists. split; [reflexivity|]. cbn. rewrite T2, F2, K2, L2. cbn. split_and!; [lia|congruence|congruence|].
       rewrite L1, <- !app_assoc. done. }
  cbn. congruence.
Qed.
End Copy.

(** The user copies remote [f] to local [g]. *)
Definition take_session : cst :=
  session_start (str "f g" ++ [10]) [str "cat f; ec"; str "ho" ++ [13; 10; 65]; [13; 10; 1; 36]].

Lemma take_receives_witness :
  exists s', @take_cmd demo_tty well_local take_session = MRet tt s' /\ files s' = <[str "g" := [65; 10]]> ∅ /\
    line s' = map LByte (take_command (str "f") ++ [10]).
Proof.
  edestruct (@take_receives demo_tty well_local (str "f") (str "g") (str "cat f; echo" ++ [13]) [65; 13; 10] [36]
    [str "cat f; ec"; str "ho" ++ [13; 10; 65]; [13; 10; 1; 36]] [] [] take_session) as (s' & H1 & H2 & H3 & _).
  all: try (vm_compute; lia); try reflexivity; try (repeat constructor; done).
  - by exists s'.
Defined.

(** A NUL from the line before the end of the echo counts as the end of the call, and
    leaves the local file open. *)
Example take_nul_leaks :
  exists s', @take_cmd demo_tty well_local (session_start (str "f g" ++ [10]) [[99; 0; 97; 10]]) = MRet tt s' /\ streams s' = 1.
Proof. eexists. split; vm_compute; reflexivity. Qed.
