(* ===== verification/Daemon.v ===== *)
(** * Daemon: how a process becomes a daemon.

    apue.2e/lib/daemonize.c and tlpi-dist/daemons/become_daemon.c, as functions of the
    process that calls them: its identity, session and terminal, its file descriptors,
    its directory, file mode mask and disposition of SIGHUP.  The answers of the system
    calls are arguments.  The main functions of calld and opend call [daemonize] before
    their loops. *)
From S2P Require Import Prelude.
Local Open Scope Z_scope.

Definition BD_NO_CHDIR : Z := 1.
Definition BD_NO_CLOSE_FILES : Z := 2.
Definition BD_NO_REOPEN_STD_FDS : Z := 4.
Definition BD_NO_UMASK0 : Z := 8.
Definition BD_MAX_CLOSE : Z := 8192.
Definition RLIM_INFINITY : Z := 2 ^ 64 - 1.
Definition INT_MAX : Z := 2 ^ 31 - 1.

Record proc := mkProc {
  pid : Z; pgid : Z; sid : Z;
  ctty : bool;  (* its session has a controlling terminal *)
  hup_ign : bool;  (* SIGHUP is ignored *)
  fmask : Z; cwd : bytes;
  fds : gmap Z bytes  (* the open file of each descriptor *)
}.

Definition set_hup v p := mkProc (pid p) (pgid p) (sid p) (ctty p) v (fmask p) (cwd p) (fds p).
Definition set_fmask v p := mkProc (pid p) (pgid p) (sid p) (ctty p) (hup_ign p) v (cwd p) (fds p).
Definition set_cwd v p := mkProc (pid p) (pgid p) (sid p) (ctty p) (hup_ign p) (fmask p) v (fds p).
Definition set_fds v p := mkProc (pid p) (pgid p) (sid p) (ctty p) (hup_ign p) (fmask p) (cwd p) v.

(** ** System calls *)

(** The child of fork. *)
Definition child (id : Z) (p : proc) : proc := mkProc id (pgid p) (sid p) (ctty p) (hup_ign p) (fmask p) (cwd p) (fds p).

(** [None]: the leader of a process group cannot. *)
Definition setsid (p : proc) : option proc :=
  if pid p =? pgid p then None else Some (mkProc (pid p) (pid p) (pid p) false (hup_ign p) (fmask p) (cwd p) (fds p)).

(** The lowest descriptor that is not open, from [i] on. *)
Fixpoint lowest (fuel : nat) (i : Z) (m : gmap Z bytes) : Z :=
  match fuel with
  | O => i
  | S fuel' => match m !! i with None => i | Some _ => lowest fuel' (i + 1) m end
  end.

(** A file on the lowest descriptor; -1 when the call fails. *)
Definition open_file (ok : bool) (f : bytes) (m : gmap Z bytes) : Z * gmap Z bytes :=
  if ok then let fd := lowest (S (size m)) 0 m in (fd, <[fd := f]> m) else (-1, m).
Definition dup (ok : bool) (fd : Z) (m : gmap Z bytes) : Z * gmap Z bytes :=
  match m !! fd with Some f => open_file ok f m | None => (-1, m) end.
Definition dup2 (ok : bool) (fd fd2 : Z) (m : gmap Z bytes) : Z * gmap Z bytes :=
  match m !! fd with Some f => if ok then (fd2, <[fd2 := f]> m) else (-1, m) | None => (-1, m) end.

(** [for (i = 0; i < n; i++) close(i);] *)
Fixpoint close_loop (n : nat) (i : Z) (m : gmap Z bytes) : gmap Z bytes :=
  match n with O => m | S n' => close_loop n' (i + 1) (delete i m) end.

(** ** daemonize.c *)

Record answers := mkAns {
  a_rlim : option Z;  (* getrlimit: the hard limit *)
  a_fork1 : option Z; a_fork2 : option Z;  (* the ids of the children *)
  a_sigaction : bool; a_chdir : bool; a_open : bool; a_dup1 : bool; a_dup2 : bool
}.

(** The last child goes on, or one of the processes exits with an error. *)
Inductive dend := Daemon (p : proc) | DExit (code : Z) (p : proc) | DUndef (why : string).

Definition devnull : bytes := str "/dev/null".

Definition daemonize (a : answers) (p : proc) : dend :=
  let p := set_fmask 0 p in
  match a_rlim a with
  | None => DExit 1 p
  | Some rlim_max =>
      match a_fork1 a with
      | None => DExit 1 p
      | Some id1 =>
          let p := child id1 p in
          let p := default p (setsid p) in
          if negb (a_sigaction a) then DExit 1 p
          else
            let p := set_hup true p in
            match a_fork2 a with
            | None => DExit 1 p
            | Some id2 =>
                let p := child id2 p in
                if negb (a_chdir a) then DExit 1 p
                else
                  let p := set_cwd (str "/") p in
                  let rlim_max := if rlim_max =? RLIM_INFINITY then 1024 else rlim_max in
                  if INT_MAX <? rlim_max then DUndef "the counter of type int overflows"
                  else
                    let m := close_loop (Z.to_nat rlim_max) 0 (fds p) in
                    let '(fd0, m) := open_file (a_open a) devnull m in
                    let '(fd1, m) := dup (a_dup1 a) 0 m in
                    let '(fd2, m) := dup (a_dup2 a) 0 m in
                    let p := set_fds m p in
                    if negb (fd0 =? 0) || negb (fd1 =? 1) || negb (fd2 =? 2) then DExit 1 p else Daemon p
            end
      end
  end.

(** ** become_daemon.c *)

(** The value returned in the last process. *)
Definition flag (flags f : Z) : bool := negb (Z.land flags f =? 0).

(** [sysconf]: the limit, or -1. *)
Definition becomeDaemon (a : answers) (sysconf : Z) (flags : Z) (p : proc) : Z * proc :=
  match a_fork1 a with
  | None => (-1, p)
  | Some id1 =>
      let p := child id1 p in
      match setsid p with
      | None => (-1, p)
      | Some p =>
          match a_fork2 a with
          | None => (-1, p)
          | Some id2 =>
              let p := child id2 p in
              let p := if negb (flag flags BD_NO_UMASK0) then set_fmask 0 p else p in
              let p := if negb (flag flags BD_NO_CHDIR) && a_chdir a then set_cwd (str "/") p else p in
              let p :=
                if negb (flag flags BD_NO_CLOSE_FILES) then
                  let maxfd := if sysconf =? -1 then BD_MAX_CLOSE else sysconf in
                  set_fds (close_loop (Z.to_nat maxfd) 0 (fds p)) p
                else p in
              if negb (flag flags BD_NO_REOPEN_STD_FDS) then
                let m := delete 0 (fds p) in
                let '(fd, m) := open_file (a_open a) devnull m in
                if negb (fd =? 0) then (-1, set_fds m p)
                else
                  let '(r, m) := dup2 (a_dup1 a) 0 1 m in
                  if negb (r =? 1) then (-1, set_fds m p)
                  else
                    let '(r, m) := dup2 (a_dup2 a) 0 2 m in
                    if negb (r =? 2) then (-1, set_fds m p) else (0, set_fds m p)
              else (0, p)
          end
      end
  end.

(** ** calld/main.c and opend/main.c *)

(** getopt(argc, argv, "d"): whether -d was given, or the letter that is not known. *)
Fixpoint d_letters (cs : bytes) : option Z :=
  match cs with [] => None | c :: cs' => if c =? 100 then d_letters cs' else Some c end.
Fixpoint getopt_d (args : list bytes) (debug : bool) : bool + Z :=
  match args with
  | (45 :: c :: cs) :: args' =>
      if bool_decide (c :: cs = [45]) then inl debug
      else match d_letters (c :: cs) with Some bad => inr bad | None => getopt_d args' true end
  | _ => inl debug
  end.

(** The process in which the loop of the server runs, or the end before it. *)
Definition server_start (args : list bytes) (a : answers) (p : proc) : dend :=
  match getopt_d args false with
  | inr _ => DExit 1 p
  | inl log_to_stderr => if negb log_to_stderr then daemonize a p else Daemon p
  end.

(** ** Lemmas *)

Lemma close_loop_lookup n : forall i m fd,
  close_loop n i m !! fd = if decide (i <= fd < i + Z.of_nat n) then None else m !! fd.
Proof.
  induction n as [|n IH]; intros i m fd; cbn [close_loop].
  - rewrite decide_False by lia. done.
  - rewrite IH. destruct (decide (fd = i)) as [-> |Hne].
    + rewrite lookup_delete_eq, (decide_True (P := i <= i < _)) by lia. by case_decide.
    + rewrite lookup_delete_ne by done. repeat case_decide; done || lia.
Qed.

Lemma open_file_0 f m : m !! 0 = None -> open_file true f m = (0, <[0 := f]> m).
Proof. intros H. unfold open_file. cbn [lowest]. by rewrite H. Qed.

Lemma lowest_0 n i m : m !! i = None -> lowest n i m = i.
Proof. intros H. destruct n; [done|]. cbn [lowest]. by rewrite H. Qed.

(** The three standard descriptors on one file. *)
Definition std_fds (f : bytes) (m : gmap Z bytes) : gmap Z bytes := <[2 := f]> (<[1 := f]> (<[0 := f]> m)).

Lemma dup_1 f m : m !! 1 = None -> dup true 0 (<[0 := f]> m) = (1, <[1 := f]> (<[0 := f]> m)).
Proof.
  intros H1. unfold dup. rewrite lookup_insert_eq. unfold open_file. cbn [lowest]. rewrite lookup_insert_eq.
  by rewrite lowest_0 by (rewrite lookup_insert_ne; done).
Qed.

Lemma dup_2 f m : m !! 1 = None -> m !! 2 = None ->
  dup true 0 (<[1 := f]> (<[0 := f]> m)) = (2, std_fds f m).
Proof.
  intros H1 H2. unfold dup. rewrite lookup_insert_ne, lookup_insert_eq by done. unfold open_file.
  rewrite map_size_insert_None by (rewrite lookup_insert_ne; done). cbn [lowest].
  rewrite lookup_insert_ne, lookup_insert_eq by done. change (0 + 1) with 1. rewrite lookup_insert_eq.
  by rewrite lowest_0 by (rewrite !lookup_insert_ne; done).
Qed.

(** ** A daemon is detached *)

(** The descriptors that are closed. *)
Definition limit (rlim_max : Z) : Z := if rlim_max =? RLIM_INFINITY then 1024 else rlim_max.

(** The process [q] that process [p] has become through children [id1] and [id2]. *)
Definition detached (id1 id2 n : Z) (p q : proc) : Prop :=
  pid q = id2 /\ sid q = id1 /\ pgid q = id1 /\ ctty q = false /\ hup_ign q = true /\ fmask q = 0 /\ cwd q = str "/" /\
  forall fd, fds q !! fd = if decide (0 <= fd <= 2) then Some devnull else if decide (0 <= fd < n) then None else fds p !! fd.

Lemma open_file_lowest ok f m r m' :
  open_file ok f m = (r, m') -> 0 <= r -> m' = <[r := f]> m.
Proof. unfold open_file. destruct ok; intros [= <- <-] H; [done|lia]. Qed.

Lemma dup_file ok f m r m' : dup ok 0 m = (r, m') -> m !! 0 = Some f -> 0 <= r -> m' = <[r := f]> m.
Proof. unfold dup. intros E Hf. rewrite Hf in E. by apply open_file_lowest with ok. Qed.

Lemma std_fds_lookup f m fd : std_fds f m !! fd = if decide (0 <= fd <= 2) then Some f else m !! fd.
Proof.
  unfold std_fds. destruct (decide (fd = 2)) as [-> |]; [by rewrite lookup_insert_eq|rewrite lookup_insert_ne by done].
  destruct (decide (fd = 1)) as [-> |]; [by rewrite lookup_insert_eq|rewrite lookup_insert_ne by done].
  destruct (decide (fd = 0)) as [-> |]; [by rewrite lookup_insert_eq|rewrite lookup_insert_ne by done].
  by rewrite decide_False by lia.
Qed.

(** When the checks of the descriptors pass. *)
Lemma opened_std a m fd0 fd1 fd2 m0 m1 m2 :
  open_file (a_open a) devnull m = (fd0, m0) -> dup (a_dup1 a) 0 m0 = (fd1, m1) -> dup (a_dup2 a) 0 m1 = (fd2, m2) ->
  negb (fd0 =? 0) || negb (fd1 =? 1) || negb (fd2 =? 2) = false -> m2 = std_fds devnull m.
Proof.
  intros E0 E1 E2 H. apply orb_false_iff in H as [H H2]. apply orb_false_iff in H as [H0 H1].
  apply negb_false_iff, Z.eqb_eq in H0, H1, H2. subst fd0 fd1 fd2.
  apply open_file_lowest in E0 as ->; [|lia]. apply (dup_file _ devnull) in E1 as ->; [|by rewrite lookup_insert_eq|lia].
  apply (dup_file _ devnull) in E2 as ->; [done| |lia]. by rewrite lookup_insert_ne, lookup_insert_eq.
Qed.

Lemma child_setsid id1 p : id1 <> pgid p ->
  setsid (child id1 p) = Some (mkProc id1 id1 id1 false (hup_ign p) (fmask p) (cwd p) (fds p)).
Proof. intros H. unfold setsid. cbn [pid pgid child]. by rewrite (proj2 (Z.eqb_neq _ _)). Qed.

(** C25: A process that becomes a daemon is detached: if the process ids of its children
    are new, then whatever fails, the process that returns from [daemonize] is in a
    session without a controlling terminal that it does not lead (so it cannot get one),
    ignores SIGHUP, is in the root directory with an empty file mode mask, has
    descriptors 0, 1 and 2 on /dev/null and no other below the limit; and if no call
    fails there is such a process.  [becomeDaemon] without flags then makes the same
    process, but that it leaves SIGHUP as it was. *)
Theorem daemon_detached a p id1 id2 rlim_max :
  a_rlim a = Some rlim_max -> a_fork1 a = Some id1 -> a_fork2 a = Some id2 -> id1 <> pgid p -> id2 <> id1 ->
  (forall q, daemonize a p = Daemon q -> detached id1 id2 (limit rlim_max) p q /\ sid q <> pid q) /\
  (a_sigaction a && a_chdir a && a_open a && a_dup1 a && a_dup2 a = true -> 3 <= limit rlim_max <= INT_MAX ->
   exists q, daemonize a p = Daemon q /\ becomeDaemon a (limit rlim_max) 0 p = (0, set_hup (hup_ign p) q)).
Proof.
  intros Hr H1 H2 Hp Hid. unfold daemonize. rewrite Hr, H1, H2. rewrite child_setsid by done. fold (limit rlim_max). split.
  - intros q E. destruct (a_sigaction a); [|done]. cbn [negb] in E. destruct (a_chdir a); [|done]. cbn [negb] in E.
    destruct (INT_MAX <? limit rlim_max); [done|]. cbn [default fds set_cwd child set_hup] in E.
    destruct (open_file _ _ _) as [fd0 m0] eqn:E0. destruct (dup (a_dup1 a) 0 m0) as [fd1 m1] eqn:E1.
    destruct (dup (a_dup2 a) 0 m1) as [fd2 m2] eqn:E2. destruct (_ || _ || _) eqn:Eo; [done|]. injection E as <-.
    rewrite (opened_std a _ _ _ _ _ _ _ E0 E1 E2 Eo). split; [|cbn; congruence]. unfold detached.
    cbn [pid sid pgid ctty hup_ign fmask cwd fds set_fds set_cwd set_hup set_fmask child]. split_and!; [done..|].
    intros fd. rewrite std_fds_lookup, close_loop_lookup. case_decide; [done|]. repeat case_decide; done || lia.
  - intros Hok [Hl Hm]. repeat (apply andb_true_iff in Hok as [Hok ?]). rewrite Hok.
    replace (a_chdir a) with true by done. replace (a_open a) with true by done.
    replace (a_dup1 a) with true by done. replace (a_dup2 a) with true by done. cbn [negb].
    rewrite (proj2 (Z.ltb_ge _ _)) by lia. cbn [default fds set_cwd child set_hup set_fmask].
    set (m := close_loop (Z.to_nat (limit rlim_max)) 0 (fds p)).
    assert (Hn : forall i, 0 <= i <= 2 -> m !! i = None).
    { intros i Hi. unfold m. rewrite close_loop_lookup. by rewrite decide_True by lia. }
    rewrite open_file_0, dup_1, dup_2 by (apply Hn; lia). cbn [Z.eqb Pos.eqb negb orb]. eexists. split; [done|].
    unfold becomeDaemon. rewrite H1, H2, child_setsid by done. change (flag 0 _) with false. cbn [negb andb].
    replace (a_chdir a) with true by done. replace (a_open a) with true by done.
    replace (a_dup1 a) with true by done. replace (a_dup2 a) with true by done.
    replace (limit rlim_max =? -1) with false by (symmetry; apply Z.eqb_neq; lia).
    cbn [default fds set_cwd child set_hup set_fmask set_fds]. fold m.
    assert (Hd : delete 0 m = m) by (apply delete_id, Hn; lia). rewrite Hd, open_file_0 by (apply Hn; lia).
    cbn [Z.eqb Pos.eqb negb]. unfold dup2. rewrite lookup_insert_eq. cbn [Z.eqb Pos.eqb negb].
    rewrite lookup_insert_ne, lookup_insert_eq by done. done.
Qed.

(** The flags keep what they name. *)
Lemma becomeDaemon_flags a p id1 id2 sysconf flags q :
  a_fork1 a = Some id1 -> a_fork2 a = Some id2 -> becomeDaemon a sysconf flags p = (0, q) ->
  pid q = id2 /\ sid q = id1 /\ ctty q = false /\ hup_ign q = hup_ign p /\
  fmask q = (if flag flags BD_NO_UMASK0 then fmask p else 0) /\
  (flag flags BD_NO_CHDIR = true -> cwd q = cwd p) /\
  (flag flags BD_NO_CLOSE_FILES && flag flags BD_NO_REOPEN_STD_FDS = true -> fds q = fds p).
Proof.
  intros H1 H2 E. unfold becomeDaemon in E. rewrite H1, H2 in E. unfold setsid in E. destruct (_ =? _); [done|].
  destruct (flag flags BD_NO_UMASK0), (flag flags BD_NO_CHDIR), (a_chdir a); cbn [negb andb] in E |- *.
  all: destruct (flag flags BD_NO_CLOSE_FILES), (flag flags BD_NO_REOPEN_STD_FDS); cbn [negb andb] in E |- *.
  all: try (injection E as <-; cbn; split_and!; done).
  all: destruct (open_file _ _ _) as [fd m]; destruct (negb (fd =? 0)); [done|].
  all: destruct (dup2 _ 0 1 m) as [r1 m1]; destruct (negb (r1 =? 1)); [done|].
  all: destruct (dup2 _ 0 2 m1) as [r2 m2]; destruct (negb (r2 =? 2)); [done|].
  all: injection E as <-; cbn; split_and!; done.
Qed.

(** A shell's child with its terminal on 0, 1 and 2 and a file on 5. *)
Definition shell_child : proc :=
  mkProc 310 310 300 true false 18 (str "/home") ({[0 := str "tty"; 1 := str "tty"; 2 := str "tty"; 5 := str "f"]}).
Definition all_well (rlim : Z) : answers := mkAns (Some rlim) (Some 311) (Some 312) true true true true true.

Lemma daemon_detached_witness :
  exists q, daemonize (all_well 64) shell_child = Daemon q /\ sid q <> pid q /\ ctty q = false /\ fds q !! 5 = None /\
    becomeDaemon (all_well 64) 64 0 shell_child = (0, set_hup false q).
Proof.
  destruct (daemon_detached (all_well 64) shell_child 311 312 64 eq_refl eq_refl eq_refl ltac:(done) ltac:(done)) as [H1 H2].
  destruct (H2 eq_refl ltac:(vm_compute; done)) as (q & E & Eb). exists q. destruct (H1 q E) as [Hd Hs].
  destruct Hd as (_ & _ & _ & Ht & _ & _ & _ & Hf). split; [exact E|]. split; [exact Hs|]. split; [exact Ht|].
  split; [rewrite Hf; reflexivity|exact Eb].
Defined.

(** With no limit only the first 1024 descriptors are closed. *)
Example high_descriptor_kept :
  exists q, daemonize (all_well RLIM_INFINITY) (set_fds {[1500 := str "f"]} shell_child) = Daemon q /\ fds q !! 1500 = Some (str "f").
Proof. eexists. split; vm_compute; reflexivity. Qed.
