(* ===== verification/PrintMain.v ===== *)
(** * PrintMain: start-up and main loop of the print daemon.

    main of apue.2e/ipp/printd.c, over [daemonize] (Daemon.v) and the functions it calls
    (Print.v: [init_request], [init_printer], [build_qonstart]); sockets/initsrv2.c,
    which makes the sockets it listens on, and sockets/clconn.c, which the spooler
    connects with.  The answers of the system calls are arguments. *)
From S2P Require Import Prelude Libc Files PrintQueue Print Daemon PrintTheorems.
Local Open Scope Z_scope.

(** ** initsrv2.c *)

Record server_answers := mkServer { v_socket : option Z; v_setsockopt : bool; v_bind : bool; v_listen : bool }.

(** The descriptor or -1, and the socket that was closed again; [stream]: the type is
    SOCK_STREAM or SOCK_SEQPACKET. *)
Definition initserver (stream : bool) (v : server_answers) : Z * option Z :=
  match v_socket v with
  | None => (-1, None)
  | Some fd =>
      if negb (v_setsockopt v) then (-1, Some fd)
      else if negb (v_bind v) then (-1, Some fd)
      else if stream && negb (v_listen v) then (-1, Some fd)
      else (fd, None)
  end.

(** ** clconn.c *)

Definition MAXSLEEP : Z := 128.

(** [conns]: whether each connect succeeds, those beyond the list do not.  The seconds
    slept are part of the result. *)
Fixpoint retry_loop (fuel : nat) (nsec : Z) (conns : list bool) : Z * list Z :=
  match fuel with
  | O => (-1, [])
  | S fuel' =>
      if nsec <=? MAXSLEEP then
        if default false (head conns) then (0, [])
        else
          let '(r, t) := retry_loop fuel' (Z.shiftl nsec 1) (tail conns) in
          (r, if nsec <=? MAXSLEEP / 2 then nsec :: t else t)
      else (-1, [])
  end.
Definition connect_retry (conns : list bool) : Z * list Z := retry_loop 9 1 conns.

(** ** printd.c *)

Inductive thread := PrinterThread | SignalThread | ClientThread (sockfd : Z).

(** A thread that is started, with what it inherits: the user, whether SIGPIPE is
    ignored, whether SIGHUP and SIGTERM are blocked. *)
Record started := mkStarted { t_thread : thread; t_uid : Z; t_pipe_ign : bool; t_blocked : bool }.

Record mst := mkM { uid : Z; pipe_ign : bool; blocked : bool; penv : env; rendezvous : list Z; threads : list started }.

Definition pthread_create (t : thread) (s : mst) : mst :=
  mkM (uid s) (pipe_ign s) (blocked s) (penv s) (rendezvous s) (threads s ++ [mkStarted t (uid s) (pipe_ign s) (blocked s)]).
Definition set_penv (e : env) (s : mst) : mst := mkM (uid s) (pipe_ign s) (blocked s) e (rendezvous s) (threads s).

Record main_answers := mkMain {
  x_daemon : answers;
  x_sigaction : bool; x_sigmask : bool;
  x_locked : bool;  (* another daemon holds the lock of the job file *)
  x_malloc : bool; x_gethostname : bool;
  x_addrs : option (list server_answers);  (* getaddrlist, and what follows for each address *)
  x_lp : option Z;  (* the user id of lp *)
  x_setuid : bool;
  x_reqs : option (list bytes)  (* the directory of requests *)
}.

(** How it goes on: the daemon waits for connections, or the process has ended or is
    in a state of Print.v that is not a return. *)
Inductive pend := PWaits (s : mst) | PEnded (why : string) (s : mst) | PDaemonEnd (d : dend) | PStuck (s : mst).

(** The sockets that could be made. *)
Definition sockets (vs : list server_answers) : list Z := List.filter (fun fd => 0 <=? fd) (map (fun v => (initserver true v).1) vs).
Definition maxfd (fds : list Z) : Z := foldr Z.max (-1) fds.

Section Main.
Context (getaddrinfo : bytes -> Z * option bytes).

(** Run a function of Print.v. *)
Definition call {A} (m : P A) (s : mst) (k : mst -> pend) : pend :=
  match m (penv s) with
  | PRet _ e => k (set_penv e s)
  | PQuit e => PEnded "log_quit" (set_penv e s)
  | _ => PStuck s
  end.

(** From the start to the message "daemon initialized". *)
Definition start (argc : Z) (x : main_answers) (p : proc) (s : mst) : pend :=
  if negb (argc =? 1) then PEnded "usage: printd" s
  else
    match daemonize (x_daemon x) p with
    | Daemon _ =>
        if negb (x_sigaction x) then PEnded "sigaction failed" s
        else
          let s := mkM (uid s) true (blocked s) (penv s) (rendezvous s) (threads s) in
          if negb (x_sigmask x) then PEnded "pthread_sigmask failed" s
          else
            let s := mkM (uid s) (pipe_ign s) true (penv s) (rendezvous s) (threads s) in
            call (init_request (x_locked x)) s (fun s =>
            call (init_printer getaddrinfo) s (fun s =>
              if negb (x_malloc x) then PEnded "malloc error" s
              else if negb (x_gethostname x) then PEnded "gethostname error" s
              else
                match x_addrs x with
                | None => PEnded "getaddrinfo error: %s" s
                | Some vs =>
                    let s := mkM (uid s) (pipe_ign s) (blocked s) (penv s) (sockets vs) (threads s) in
                    if maxfd (rendezvous s) =? -1 then PEnded "service not enabled" s
                    else
                      match x_lp x with
                      | None => PEnded "can't find user lp" s
                      | Some pw_uid =>
                          if pw_uid =? 0 then PEnded "user lp is privileged" s
                          else if negb (x_setuid x) then PEnded "can't change IDs to user lp" s
                          else
                            let s := mkM pw_uid (pipe_ign s) (blocked s) (penv s) (rendezvous s) (threads s) in
                            let s := pthread_create PrinterThread s in
                            let s := pthread_create SignalThread s in
                            call (build_qonstart (x_reqs x)) s PWaits
                      end
                end))
    | d => PDaemonEnd d
    end.

(** A result of select: an error, or the ready descriptors and what accept answers for
    them, in order. *)
Inductive selres := SelErr | SelOk (ready : list Z) (accepts : list (option Z)).

(** [for (i = 0; i <= maxfd; i++)]. *)
Fixpoint accept_loop (n : nat) (i : Z) (ready : list Z) (accepts : list (option Z)) (s : mst) : mst :=
  match n with
  | O => s
  | S n' =>
      if bool_decide (i ∈ ready) then
        let sockfd := default (-1) (default None (head accepts)) in
        let s := if sockfd <? 0 then set_penv (set_logs (("accept failed", []) :: logs (penv s)) (penv s)) s else s in
        accept_loop n' (i + 1) ready (tail accepts) (pthread_create (ClientThread sockfd) s)
      else accept_loop n' (i + 1) ready accepts s
  end.

Fixpoint serve (sels : list selres) (s : mst) : pend :=
  match sels with
  | [] => PWaits s
  | SelErr :: _ => PEnded "select failed" s
  | SelOk ready accepts :: sels' =>
      serve sels' (accept_loop (Z.to_nat (maxfd (rendezvous s) + 1)) 0 (filter (fun fd => fd ∈ rendezvous s) ready) accepts s)
  end.

Definition main (argc : Z) (x : main_answers) (p : proc) (sels : list selres) (s : mst) : pend :=
  match start argc x p s with PWaits s => serve sels s | e => e end.

End Main.

(** The process as it is started. *)
Definition at_start (u : Z) (e : env) : mst := mkM u false false e [] [].

(** ** The print daemon serves without privileges *)

Definition state_of (r : pend) : option mst := match r with PWaits s | PEnded _ s | PStuck s => Some s | PDaemonEnd _ => None end.

(** What the accepts give for a sequence of selects over the listening sockets
    [fds], up to a select that fails: for each select as many answers as listening
    sockets are ready, -1 for an accept that failed. *)
Fixpoint accepted (fds : list Z) (sels : list selres) : list Z :=
  match sels with
  | [] | SelErr :: _ => []
  | SelOk ready accepts :: sels' =>
      let n := size (list_to_set ready ∩ list_to_set fds : gset Z) in
      map (default (-1)) (take n (accepts ++ replicate n None)) ++ accepted fds sels'
  end.

(** The answers used for the descriptors [n] from [i] on that are in [rset]. *)
Definition used (n : nat) (i : Z) (rset : list Z) (accepts : list (option Z)) : list Z :=
  let k := length (filter (fun j => j ∈ rset) (seqZ i (Z.of_nat n))) in
  map (default (-1)) (take k (accepts ++ replicate k None)).

Lemma used_cons n i rset accepts :
  used (S n) i rset accepts =
    if bool_decide (i ∈ rset) then default (-1) (default None (head accepts)) :: used n (i + 1) rset (tail accepts)
    else used n (i + 1) rset accepts.
Proof.
  unfold used. rewrite seqZ_cons by lia. replace (Z.pred (Z.of_nat (S n))) with (Z.of_nat n) by lia. rewrite filter_cons.
  replace (Z.succ i) with (i + 1) by lia. case_decide; case_bool_decide; try done.
  set (l := filter _ _). destruct accepts as [|a accepts]; [done|]. cbn. f_equal. f_equal. set (k := length l).
  change (None :: replicate k None) with (replicate (S k) (@None Z)). rewrite replicate_S_end, app_assoc, take_app_le; [done|]. rewrite length_app, length_replicate. lia.
Qed.

Lemma accept_loop_spec n : forall i rset accepts s,
  exists e, accept_loop n i rset accepts s =
    mkM (uid s) (pipe_ign s) (blocked s) e (rendezvous s)
      (threads s ++ map (fun c => mkStarted (ClientThread c) (uid s) (pipe_ign s) (blocked s)) (used n i rset accepts)).
Proof.
  induction n as [|n IH]; intros i rset accepts s; cbn [accept_loop].
  - exists (penv s). rewrite app_nil_r. by destruct s.
  - rewrite used_cons. case_bool_decide; [|apply IH]. destruct (default (-1) (default None (head accepts)) <? 0).
    all: edestruct IH as [e ->]; exists e; cbn; by rewrite <- app_assoc.
Qed.

Lemma maxfd_le fds fd : fd ∈ fds -> fd <= maxfd fds.
Proof.
  induction fds as [|x fds IH]; [by intros H%not_elem_of_nil|]. rewrite elem_of_cons.
  change (maxfd (x :: fds)) with (Z.max x (maxfd fds)). intros [->|H]; [lia|]. specialize (IH H). lia.
Qed.

(** The loop over all descriptors finds each ready listening socket once. *)
Lemma used_ready fds ready accepts :
  Forall (fun fd => 0 <= fd) fds ->
  used (Z.to_nat (maxfd fds + 1)) 0 (filter (fun fd => fd ∈ fds) ready) accepts =
    let n := size (list_to_set ready ∩ list_to_set fds : gset Z) in map (default (-1)) (take n (accepts ++ replicate n None)).
Proof.
  intros Hp. unfold used.
  set (l := filter (fun j => j ∈ filter (fun fd => fd ∈ fds) ready) (seqZ 0 (Z.of_nat (Z.to_nat (maxfd fds + 1))))).
  assert (Hset : list_to_set l = (list_to_set ready ∩ list_to_set fds : gset Z)).
  { apply set_eq. intros x. unfold l. rewrite elem_of_intersection, !elem_of_list_to_set, !list_elem_of_filter, elem_of_seqZ.
    split; [naive_solver|]. intros [Hr Hf]. split; [done|]. pose proof (maxfd_le fds x Hf).
    apply (proj1 (Forall_forall _ _) Hp) in Hf. lia. }
  assert (Hn : NoDup l) by (apply NoDup_filter, NoDup_seqZ). by rewrite <- Hset, size_list_to_set.
Qed.

Lemma serve_started sels : forall s s', Forall (fun fd => 0 <= fd) (rendezvous s) -> state_of (serve sels s) = Some s' ->
  threads s' = threads s ++ map (fun c => mkStarted (ClientThread c) (uid s) (pipe_ign s) (blocked s)) (accepted (rendezvous s) sels).
Proof.
  induction sels as [|[|ready accepts] sels IH]; intros s s' Hp E; cbn [serve accepted] in E |- *.
  1-2: injection E as <-; by rewrite app_nil_r.
  edestruct accept_loop_spec as [e Ee]. rewrite Ee in E. apply IH in E; [|done]. rewrite E. cbn [threads uid pipe_ign blocked rendezvous].
  by rewrite used_ready, map_app, app_assoc.
Qed.

Lemma call_inv {A} (m : P A) s k r : call m s k = r ->
  (exists a e, m (penv s) = PRet a e /\ k (set_penv e s) = r) \/
  (exists e, r = PEnded "log_quit" (set_penv e s)) \/ r = PStuck s.
Proof. unfold call. intros <-. destruct (m (penv s)); eauto 8. Qed.

(** What is known of a start. *)
Definition safe_start (x : main_answers) (s : mst) : Prop :=
  threads s = [] \/
  x_locked x = false /\ (exists u, x_lp x = Some u /\ u <> 0 /\ uid s = u) /\ pipe_ign s = true /\ blocked s = true /\
  threads s = [mkStarted PrinterThread (uid s) true true; mkStarted SignalThread (uid s) true true] /\
  exists vs, x_addrs x = Some vs /\ rendezvous s = sockets vs.

(** The process has ended before it started a thread. *)
Ltac not_started := try subst; intros [= <-]; split; [by left|done].

Lemma start_safe g argc x p u e s :
  state_of (start g argc x p (at_start u e)) = Some s -> safe_start x s /\ (start g argc x p (at_start u e) = PWaits s -> threads s <> []).
Proof.
  unfold start. destruct (negb (argc =? 1)); [not_started|].
  destruct (daemonize _ _) as [q| |]; [|done|done]. destruct (negb (x_sigaction x)); [not_started|].
  destruct (negb (x_sigmask x)); [not_started|]. cbn [uid pipe_ign blocked penv rendezvous threads at_start].
  match goal with |- state_of ?r = _ -> _ => remember r as r0 eqn:E0 end. symmetry in E0.
  apply call_inv in E0 as [(a1 & e1 & E1 & E0)|[[e1 ->]| ->]]; [|not_started|not_started].
  assert (Hl : x_locked x = false) by (destruct (x_locked x); [done|done]).
  apply call_inv in E0 as [(a2 & e2 & _ & E0)|[[e2 ->]| ->]]; [|not_started|not_started].
  destruct (negb (x_malloc x)); [not_started|].
  destruct (negb (x_gethostname x)); [not_started|].
  destruct (x_addrs x) as [vs|] eqn:Ev; [|not_started].
  destruct (_ =? -1); [not_started|].
  destruct (x_lp x) as [w|] eqn:El; [|not_started].
  destruct (Z.eqb_spec w 0) as [|Hw]; [not_started|].
  destruct (negb (x_setuid x)); [not_started|].
  intros Hs. assert (Hr : exists e3, s = set_penv e3 (pthread_create SignalThread (pthread_create PrinterThread
    (mkM w true true (penv s) (sockets vs) [])))).
  { apply call_inv in E0 as [(a3 & e3 & _ & <-)|[[e3 ->]| ->]]; injection Hs as <-; by eexists. }
  destruct Hr as [e3 ->]. split; [|done]. right. split_and!; [done|by exists w|done|done|done|by exists vs].
Qed.

Lemma sockets_nonneg vs : Forall (fun fd => 0 <= fd) (sockets vs).
Proof. apply Forall_forall. intros fd Hfd. apply list_elem_of_In, filter_In in Hfd as [_ H]. by apply Z.leb_le. Qed.

(** C14: The print daemon serves without privileges: whatever the calls of the start-up
    answer and whatever connections come, every thread that main starts runs as the user
    lp, who is not the super-user, with SIGPIPE ignored and SIGHUP and SIGTERM blocked
    (they are left to the signal thread), and only when no other daemon held the lock.
    The printer thread and the signal thread are started first, one each; then, if the
    start-up gets as far as waiting for connections, one thread for every accept: for
    each select, in order, as many as there are ready listening sockets, with the
    descriptor that accept returned, or with -1 for an accept that failed (which is
    logged, but gets a thread nevertheless). *)
Theorem printd_unprivileged getaddrinfo argc x p sels u e s :
  state_of (main getaddrinfo argc x p sels (at_start u e)) = Some s -> threads s <> [] ->
  x_locked x = false /\ exists lp vs, x_lp x = Some lp /\ lp <> 0 /\ x_addrs x = Some vs /\
    let cs := match start getaddrinfo argc x p (at_start u e) with PWaits _ => accepted (sockets vs) sels | _ => [] end in
    threads s = map (fun t => mkStarted t lp true true) (PrinterThread :: SignalThread :: map ClientThread cs).
Proof.
  unfold main. intros Hs Hne. assert (Hst := start_safe getaddrinfo argc x p u e).
  destruct (start getaddrinfo argc x p (at_start u e)) as [s0|w s0|d|s0]; cbn [state_of] in Hs; try done.
  all: destruct (Hst s0 eq_refl) as [[H0|(Hl & (lp & Hlp & Hz & Hu) & Hp & Hb & Ht & vs & Hvs & Hrv)] Hw].
  - by destruct (Hw eq_refl).
  - apply serve_started in Hs; [|rewrite Hrv; apply sockets_nonneg]. split; [done|]. exists lp, vs. split_and!; [done..|].
    rewrite Hs, Ht, Hp, Hb, Hu, Hrv. cbn [map app]. by rewrite map_map.
  - injection Hs as <-. done.
  - injection Hs as <-. split; [done|]. exists lp, vs. split_and!; [done..|]. by rewrite Ht, Hu.
  - injection Hs as <-. done.
  - injection Hs as <-. split; [done|]. exists lp, vs. split_and!; [done..|]. by rewrite Ht, Hu.
Qed.

(** ** connect_retry *)

(** It tries eight times, waiting twice as long each time, and about two minutes
    together. *)
Lemma connect_retry_spec conns :
  connect_retry conns =
    match list_find (fun b => b = true) (take 8 conns) with
    | Some (n, _) => (0, take n [1; 2; 4; 8; 16; 32; 64])
    | None => (-1, [1; 2; 4; 8; 16; 32; 64])
    end.
Proof.
  unfold connect_retry. do 8 (destruct conns as [|[|] conns]; [reflexivity|reflexivity|]). reflexivity.
Qed.

(** A daemon with one listening socket that gets a connection, and one that fails. *)
Definition one_server : main_answers :=
  mkMain (all_well 64) true true false true true
    (Some [mkServer (Some 3) true true true; mkServer (Some 4) true false true]) (Some 7) true None.
Definition printer_env : env :=
  mkEnv 0 (jobfile (str "41")) no_jobs 8 (mkWorkers ∅ NULL) false [] [str "printer lp1"] ∅ [] [] [] [] [] 0 [].
Definition two_calls : list selres := [SelOk [3] [Some 5]; SelOk [3; 9] [None]].

Lemma printd_unprivileged_witness :
  exists s, main resolve0 1 one_server shell_child two_calls (at_start 0 printer_env) = PWaits s /\
    threads s = map (fun t => mkStarted t 7 true true) [PrinterThread; SignalThread; ClientThread 5; ClientThread (-1)].
Proof.
  destruct (main resolve0 1 one_server shell_child two_calls (at_start 0 printer_env)) as [s| | |] eqn:E;
    [|exfalso; vm_compute in E; discriminate E..]. exists s. split; [reflexivity|].
  destruct (printd_unprivileged resolve0 1 one_server shell_child two_calls 0 printer_env s) as (_ & lp & vs & H1 & _ & H2 & H3).
  - by rewrite E.
  - intros H. vm_compute in E. injection E as <-. discriminate H.
  - injection H1 as <-. injection H2 as <-. rewrite H3. vm_compute. reflexivity.
Defined.

(** A connection that could not be accepted gets a thread too. *)
Example thread_without_connection :
  option_map (fun s => map t_thread (threads s)) (state_of (main resolve0 1 one_server shell_child two_calls (at_start 0 printer_env))) =
  Some [PrinterThread; SignalThread; ClientThread 5; ClientThread (-1)].
Proof. vm_compute. reflexivity. Qed.
