(* ===== verification/OpenFe.v ===== *)
(** * OpenFe: the open server that the client starts itself.

    apue.2e/open.fe (open.c, main.c) and apue.2e/opend.fe (main.c, request.c).  The
    messages, [recv_fd], [send_err], [send_fd], [buf_args] and [cli_args] are those of
    Opend.v; here the server reads requests from one stream pipe, its standard input and
    output, and the client prints the files that are named on its standard input. *)
From S2P Require Import Prelude Libc Calld Opend OpendTheorems.
Local Open Scope Z_scope.

Definition STDIN_FILENO : Z := 0.
Definition STDOUT_FILENO : Z := 1.
Definition O_RDONLY : Z := 0.

(** ** opend.fe *)

Section Server.

(** As in Opend.v. *)
Context (sys_open : bytes -> Z -> Z + bytes).

Definition request_fe (buf : bytes) (fd : Z) : SM unit :=
  if negb (default 0 (last buf) =? 0) then
    Opend.set_errmsg (str "request not null terminated: " ++ fmt_prec (length buf) buf ++ [10]);;
    s ← Opend.get; send_err fd (-1) (Opend.errmsg s);; mret tt
  else
    r ← Opend.buf_args buf Opend.cli_args;
    if r <? 0 then s ← Opend.get; send_err fd (-1) (Opend.errmsg s);; mret tt
    else
      s ← Opend.get;
      match sys_open (pathname s) (oflag s) with
      | inr strerror =>
          Opend.set_errmsg (str "can't open " ++ pathname s ++ str ": " ++ strerror ++ [10]);;
          s ← Opend.get; send_err fd (-1) (Opend.errmsg s);; mret tt
      | inl newfd =>
          Opend.emit (EOpened (pathname s) (oflag s) newfd);;
          send_fd fd newfd;;
          Opend.emit (EShut newfd)
      end.

(** The successive reads of at most MAXLINE bytes that take [b] from the pipe. *)
Fixpoint pieces (fuel : nat) (b : bytes) : list bytes :=
  match fuel, b with
  | S f, _ :: _ => take (Z.to_nat MAXLINE) b :: pieces f (drop (Z.to_nat MAXLINE) b)
  | _, _ => []
  end.
Definition read_all (b : bytes) : list bytes := pieces (length b) b.

Fixpoint serve_reads (bufs : list bytes) : SM unit :=
  match bufs with
  | [] => mret tt
  | buf :: bufs' => request_fe buf STDOUT_FILENO;; serve_reads bufs'
  end.

(** The loop of main: [RGot b] says that the bytes [b] are in the pipe when the server
    has served what came before, [RGot []] that the client has closed the pipe (then the
    result is [true]); at the end of the list the server waits. *)
Fixpoint server_main (arrived : list oread) : SM bool :=
  match arrived with
  | [] => mret false
  | RFail :: _ => Opend.quit "read error on stream pipe"
  | RGot [] :: _ => mret true
  | RGot b :: arrived' => serve_reads (read_all b);; server_main arrived'
  end.

End Server.

(** ** open.fe: the client *)

(** The descriptors of a process, by what they refer to. *)
Inductive pend := ClientEnd | ServerEnd | Other (name : bytes).

(** The child before exec: [None] when it ends by err_sys. *)
Definition server_fds (fd0 fd1 : Z) (dup_in dup_out : bool) (m : gmap Z pend) : option (gmap Z pend) :=
  let m := delete fd0 m in
  let dup2 (ok : bool) (t : Z) (m : gmap Z pend) : option (gmap Z pend) :=
    if negb (fd1 =? t) then if ok then Some (<[t := ServerEnd]> m) else None else Some m in
  match dup2 dup_in STDIN_FILENO m with
  | None => None
  | Some m => dup2 dup_out STDOUT_FILENO m
  end.

(** How the server is started: the stream pipe, the fork and the calls of the child. *)
Record spawn_answers := mkSpawn { s_pipe : option (Z * Z); s_fork : bool; s_dup_in : bool; s_dup_out : bool }.

Inductive spawned := SpawnErr (why : string) | Spawned (fd0 : Z) (parent : gmap Z pend) (server : option (gmap Z pend)).

Definition spawn (a : spawn_answers) (m : gmap Z pend) : spawned :=
  match s_pipe a with
  | None => SpawnErr "s_pipe error"
  | Some (fd0, fd1) =>
      let m := <[fd1 := ServerEnd]> (<[fd0 := ClientEnd]> m) in
      if negb (s_fork a) then SpawnErr "fork error"
      else Spawned fd0 (delete fd1 m) (server_fds fd0 fd1 (s_dup_in a) (s_dup_out a) m)
  end.

(** [csopen] of this client is that of Opend.v with the pipe in place of a connection;
    [fd0] is the static variable. *)
Definition csopen_fe (a : spawn_answers) (fd0 : Z) (m : gmap Z pend) (written : Z) (name : bytes) (flags : Z)
    (write : bytes -> Z) (segs : list rmsg) : csend * Z * gmap Z pend :=
  match (if fd0 <? 0 then spawn a m else Spawned fd0 m None) with
  | SpawnErr why => (CsSys why, fd0, m)
  | Spawned fd0 m _ =>
      match csopen_request name flags with
      | None => (CsUndef, fd0, m)
      | Some req =>
          if negb (written =? Z.of_nat (length req)) then (CsSys "writev error", fd0, m)
          else let '(r, shown) := recv_fd write segs in (CsEnd r shown, fd0, m)
      end
  end.

(** The line without its newline; undefined when the string is empty. *)
Definition chomp (line : bytes) : option bytes :=
  let s := cstring line in
  match last s with
  | None => None
  | Some c => Some (if c =? 10 then removelast s else s)
  end.

(** The copy of an open file: what each read gives (nothing at the end), and whether the
    writes succeed; [None]: err_sys. *)
Fixpoint cat_loop (reads : list (option bytes)) (write_ok : bool) : option bytes :=
  match reads with
  | [] | Some [] :: _ => Some []
  | None :: _ => None
  | Some b :: reads' =>
      if negb write_ok then None
      else match cat_loop reads' write_ok with Some out => Some (b ++ out) | None => None end
  end.

(** ** Printing files through an open server of one's own *)

(** The stream pipe: how what is sent arrives. *)
Class Pipe := deliver : list cell -> list rmsg.
Class PipeOk `{Pipe} : Prop := deliver_ok t f :
  Z.of_nat (length t) < MAXLINE ->
  arrives_as (text_cells t ++ fd_message f) (deliver (text_cells t ++ fd_message f)) /\
  last_whole (deliver (text_cells t ++ fd_message f)).

Section Cat.
Context (sys_open : bytes -> Z -> Z + bytes) (reads : Z -> list (option bytes)) (a : spawn_answers) `{Pipe}.

Definition write_all (b : bytes) : Z := Z.of_nat (length b).

(** Whether there is a server to answer: one that was started before, or one whose
    calls before the exec succeed now. *)
Definition server_up (fd0 : Z) (m : gmap Z pend) : bool :=
  if fd0 <? 0 then match spawn a m with Spawned _ _ (Some _) => true | _ => false end else true.

(** main of the client, with [input] on its standard input, against the server: what is
    printed and what csopen writes, the requests, and the server's state at the end;
    [None] when either side ends early or is undefined.  A turn takes at least one byte,
    so that as many turns as there are bytes are enough. *)
Fixpoint cat_turns (turns : nat) (input : bytes) (fd0 : Z) (m : gmap Z pend) (s : ost) :
    option (bytes * bytes * list bytes * ost) :=
  match turns, input with
  | _, [] => Some ([], [], [], s)
  | 0%nat, _ => None
  | S turns', _ =>
      let line := line_of (Z.to_nat (MAXLINE - 1)) input in
      match chomp line with
      | None => None
      | Some name =>
          match csopen_request name O_RDONLY with
          | None => None
          | Some req =>
              if negb (server_up fd0 m) then None
              else match server_main sys_open [RGot req] s with
              | ORet _ s' =>
                  let new := take (length (Opend.evs s') - length (Opend.evs s)) (Opend.evs s') in
                  match csopen_fe a fd0 m (Z.of_nat (length req)) name O_RDONLY write_all (deliver (output STDOUT_FILENO new)) with
                  | (CsEnd (RRet fd) shown, fd0', m') =>
                      match (if fd <? 0 then Some [] else cat_loop (reads fd) true),
                        cat_turns turns' (drop (length line) input) fd0' m' s' with
                      | Some o, Some (out, err, reqs, s'') => Some (o ++ out, shown ++ err, req :: reqs, s'')
                      | _, _ => None
                      end
                  | _ => None
                  end
              | _ => None
              end
          end
      end
  end.

Definition cat_session (input : bytes) := cat_turns (length input) input.

(** What should be printed for a file, and reported. *)
Definition printed (name : bytes) : bytes :=
  match sys_open name O_RDONLY with inl fd => default [] (cat_loop (reads fd) true) | inr _ => [] end.
Definition reported (name : bytes) : bytes :=
  match sys_open name O_RDONLY with inl _ => [] | inr err => cant_open name err end.

(** A name that can be asked for, with a request and an answer that fit: "open ", the
    name, " 0" and the NUL are read at once. *)
Definition file_ok (name : bytes) : Prop :=
  word name /\ Z.of_nat (length name) + 8 <= MAXLINE /\
  match sys_open name O_RDONLY with
  | inl fd => 0 <= fd /\ is_Some (cat_loop (reads fd) true)
  | inr err => Z.of_nat (length (cant_open name err)) < MAXLINE /\ Forall (fun c => c <> 0) err
  end.

(** The server's answer to a request. *)
Lemma request_fe_answers name s :
  file_ok name -> STDOUT_FILENO ∉ gone s ->
  exists req s' new, csopen_request name O_RDONLY = Some req /\ req <> [] /\
    request_fe sys_open req STDOUT_FILENO s = ORet tt s' /\ Opend.evs s' = new ++ Opend.evs s /\ gone s' = gone s /\
    output STDOUT_FILENO new =
      text_cells (reported name) ++ fd_message (match sys_open name O_RDONLY with inl fd => fd | inr _ => -1 end).
Proof.
  intros (Hw & _ & Hf) Hg. destruct (request_args name O_RDONLY Hw) as (req & Ereq & Hlast & Hcs & Hargs); [unfold O_RDONLY; lia|].
  exists req. unfold request_fe, reported, Opend.emit, Opend.modify, Opend.get, mbind, SM_bind.
  rewrite Hlast. cbn [from_option id negb Z.eqb]. rewrite Hargs. cbn [Z.ltb Z.compare pathname oflag upd_args].
  destruct (sys_open name O_RDONLY) as [fd|err].
  - unfold send_fd, transmit, mbind, SM_bind. cbn [gone upd_args Opend.upd_evs]. rewrite bool_decide_false by done.
    cbn. eexists _, [_; _; _]. split; [done|]. split; [by destruct req|]. split; [reflexivity|]. split; [reflexivity|].
    split; [done|]. unfold output. cbn [rev app map concat]. by rewrite Z.eqb_refl, !app_nil_r.
  - destruct Hf as [Hlen _]. fold (cant_open name err). unfold Opend.set_errmsg. rewrite (proj2 (Z.ltb_lt _ _)) by done.
    unfold Opend.modify. cbn [Opend.errmsg Opend.upd_errmsg].
    rewrite send_err_sent; [|done|by destruct name]. cbn.
    eexists _, [_; _]. split; [done|]. split; [by destruct req|]. split; [reflexivity|]. split; [reflexivity|].
    split; [done|]. unfold output. cbn [rev app map concat]. by rewrite !Z.eqb_refl, app_nil_r.
Qed.

(** The server is there, or can be started. *)
Definition can_serve (fd0 : Z) : Prop :=
  0 <= fd0 \/
  exists fd1 fd2, s_pipe a = Some (fd1, fd2) /\ 0 <= fd1 /\ s_fork a = true /\ s_dup_in a = true /\ s_dup_out a = true.

Lemma can_serve_up fd0 m : can_serve fd0 -> server_up fd0 m = true.
Proof.
  intros H1. unfold server_up. destruct (Z.ltb_spec fd0 0) as [Hn|Hn]; [|done].
  destruct H1 as [Hp|(fd1 & fd2 & E1 & Hp & E2 & E3 & E4)]; [lia|].
  unfold spawn, server_fds. rewrite E1, E2, E3, E4. cbn [negb].
  by destruct (fd2 =? STDIN_FILENO), (fd2 =? STDOUT_FILENO).
Qed.

(** The client's side, once it has the pipe or can make it. *)
Lemma csopen_fe_receives `{!PipeOk} fd0 m name req t f :
  can_serve fd0 ->
  csopen_request name O_RDONLY = Some req -> Z.of_nat (length t) < MAXLINE -> Forall (fun c => c <> 0) t ->
  exists fd0' m', 0 <= fd0' /\
    csopen_fe a fd0 m (Z.of_nat (length req)) name O_RDONLY write_all (deliver (text_cells t ++ fd_message f)) =
    (CsEnd (RRet (fd_value f)) t, fd0', m').
Proof.
  intros Hfd Hreq Hlen Ht. destruct (deliver_ok t f Hlen) as [Ha Hl]. unfold csopen_fe.
  assert (Hsp : exists fd0' m' sv, 0 <= fd0' /\ (if fd0 <? 0 then spawn a m else Spawned fd0 m None) = Spawned fd0' m' sv).
  { destruct (Z.ltb_spec fd0 0) as [Hn|Hn]; [|by eauto 6]. destruct Hfd as [Hp|(fd1 & fd2 & E1 & Hp & E2 & _)]; [lia|].
    unfold spawn. rewrite E1, E2. cbn [negb]. by eauto 6. }
  destruct Hsp as (fd0' & m' & sv & Hp & ->). rewrite Hreq, Z.eqb_refl. cbn [negb].
  rewrite (recv_cells write_all _ _ Ha t f eq_refl Hl Ht) by done. by eauto.
Qed.

(** A request that fits the server's buffer is read at once. *)
Lemma server_main_one req rest s s' :
  req <> [] -> Z.of_nat (length req) <= MAXLINE -> request_fe sys_open req STDOUT_FILENO s = ORet tt s' ->
  server_main sys_open (RGot req :: rest) s = server_main sys_open rest s'.
Proof.
  intros Hne Hl Er. cbn [server_main]. destruct req as [|c req]; [done|].
  assert (Ep : read_all (c :: req) = [c :: req]).
  { unfold read_all. cbn [length pieces]. rewrite take_ge, drop_ge by (unfold MAXLINE in *; lia).
    by destruct (length req). }
  rewrite Ep. cbn [serve_reads]. unfold mbind, SM_bind. by rewrite Er.
Qed.

Lemma request_length name req : csopen_request name O_RDONLY = Some req -> length req = (length name + 8)%nat.
Proof.
  unfold csopen_request. change (fmt_ld O_RDONLY) with [48]. cbn [length Nat.ltb Nat.leb]. intros E.
  assert (Er : req = str "open " ++ name ++ [32; 48] ++ [0]) by congruence. rewrite Er, !length_app.
  change (length (str "open ")) with 5%nat. cbn [length]. lia.
Qed.

(** A line that fits the buffer of fgets. *)
Lemma line_of_word n name rest :
  Forall (fun c => c <> 0 /\ is_white c = false) name -> (length name < n)%nat ->
  line_of n (name ++ 10 :: rest) = name ++ [10].
Proof.
  intros Hw. revert n. induction Hw as [|c name [_ Hc] _ IH]; intros n Hn; destruct n as [|n]; cbn in Hn; try lia; [done|].
  cbn [app line_of]. assert (is_newline c = false) as ->.
  { unfold is_newline, is_white in *. by destruct (c =? 10); rewrite ?orb_true_r in Hc. }
  by rewrite IH by lia.
Qed.

(** C24: Files are printed through the server: for any file names without white space, one
    on a line of the standard input, the client, which starts the server with the first,
    prints the contents of exactly the files that can be opened, in order, and reports
    every other with its name and the reason; the server has then handled exactly these
    requests in this order and goes on.  (Provided that each request fits the MAXLINE bytes
    of the server's buffer, that is, names have at most MAXLINE - 8 bytes; the server runs
    already or the calls that start it succeed, and neither side closes the pipe; contents
    can be read, and the writes of the client succeed; the messages fit their buffer; the
    pipe delivers the last two bytes of a
    message together.) *)
Theorem cat_through_server `{!PipeOk} names fd0 m s :
  Forall file_ok names -> STDOUT_FILENO ∉ gone s ->
  can_serve fd0 ->
  exists reqs s', cat_session (concat (map (fun n => n ++ [10]) names)) fd0 m s =
      Some (concat (map printed names), concat (map reported names), reqs, s') /\
    Forall2 (fun n r => csopen_request n O_RDONLY = Some r) names reqs /\
    server_main sys_open (map RGot reqs) s = ORet false s'.
Proof.
  intros Hn. unfold cat_session.
  assert (Ht : (length names <= length (concat (map (fun n => n ++ [10%Z]) names)))%nat).
  { clear Hn. induction names as [|n names IH]; [done|]. cbn [map concat length]. rewrite !length_app. cbn. lia. }
  revert Ht. generalize (length (concat (map (fun n => n ++ [10%Z]) names))) as turns.
  revert fd0 m s. induction Hn as [|name names H1 Hn IH]; intros fd0 m s turns Ht Hg Hfd; [by exists [], s; destruct turns|].
  destruct turns as [|turns]; [cbn in Ht; lia|].
  destruct (request_fe_answers name s H1 Hg) as (req & s1 & new & Ereq & Hne & Er & Ev & Hg1 & Eo).
  assert (Hlen := request_length _ _ Ereq). destruct H1 as (Hw & Hfit & Hf).
  assert (Hrep : Z.of_nat (length (reported name)) < MAXLINE /\ Forall (fun c => c <> 0) (reported name)).
  { unfold reported. destruct (sys_open name O_RDONLY) as [fd|err]; [done|]. split; [apply Hf|].
    unfold cant_open. repeat (apply Forall_app; split); first [by apply word_nonzero|apply Hf|by repeat constructor]. }
  assert (Hc : chomp (name ++ [10]) = Some name).
  { unfold chomp. rewrite cstring_all_nonzero, last_snoc; [by rewrite removelast_last|].
    apply Forall_app. split; [by apply word_nonzero|by repeat constructor]. }
  destruct (csopen_fe_receives fd0 m name req (reported name) (match sys_open name O_RDONLY with inl fd => fd | inr _ => -1 end)) as (fd1 & m1 & Hp1 & Ec); [exact Hfd|exact Ereq|apply Hrep|apply Hrep|].
  destruct (IH fd1 m1 s1 turns) as (reqs & s2 & Es & El & Em); [cbn in Ht; lia|by rewrite Hg1|by left|].
  assert (Hmain : forall rest, server_main sys_open (RGot req :: rest) s = server_main sys_open rest s1).
  { intros rest. apply server_main_one; [done|lia|done]. }
  exists (req :: reqs), s2. cbn [map concat]. rewrite <- (app_assoc name). cbn [app].
  assert (Hl : line_of (Z.to_nat (MAXLINE - 1)) (name ++ 10 :: concat (map (fun n => n ++ [10]) names)) = name ++ [10]).
  { apply line_of_word; [apply Hw|unfold MAXLINE in *; lia]. }
  assert (Hd : drop (length (name ++ [10])) (name ++ 10 :: concat (map (fun n => n ++ [10]) names)) =
    concat (map (fun n => n ++ [10]) names)).
  { rewrite length_app, <- drop_drop, drop_app_length. done. }
  destruct (name ++ 10 :: concat _) as [|c input] eqn:Ein; [by destruct name|].
  cbn [cat_turns]. rewrite Hl, Hc, Ereq, (can_serve_up fd0 m Hfd), Hmain, Hd. cbn [negb].
  change (server_main sys_open [] s1) with (ORet false s1).
  assert (Hnew : take (length (Opend.evs s1) - length (Opend.evs s)) (Opend.evs s1) = new).
  { rewrite Ev, length_app, Nat.add_sub. by rewrite take_app_length. }
  cbv beta iota zeta. rewrite Hnew, Eo, Ec, Es. split_and!; [|by constructor|by rewrite Hmain].
  unfold printed at 2. destruct (sys_open name O_RDONLY) as [fd|err].
  - destruct Hf as [Hfd0 [o Ho]]. unfold fd_value. rewrite (proj2 (Z.ltb_ge fd 0)) by lia.
    by rewrite (proj2 (Z.ltb_ge fd 0)), Ho by lia.
  - done.
Qed.

(** The limit is sharp: the request for a longer name (one of up to MAXLINE - 2 bytes still fits a line) is read in
    two parts, the first of which is not terminated and is copied past the end of errmsg. *)
Lemma long_name_overflows name req s :
  word name -> MAXLINE < Z.of_nat (length name) + 8 ->
  csopen_request name O_RDONLY = Some req ->
  server_main sys_open [RGot req] s = OUndef "write past the end of errmsg".
Proof.
  intros Hw Hlong Ereq. assert (Hlen := request_length _ _ Ereq).
  assert (Er : req = (str "open " ++ name ++ [32; 48]) ++ [0]).
  { unfold csopen_request in Ereq. change (fmt_ld O_RDONLY) with [48] in Ereq. cbn [length Nat.ltb Nat.leb] in Ereq.
    rewrite <- !app_assoc. congruence. }
  assert (Hnz : Forall (fun c => c <> 0) (str "open " ++ name ++ [32; 48])).
  { repeat (apply Forall_app; split); [by repeat constructor|by apply word_nonzero|by repeat constructor]. }
  assert (Hfull : length (take (Z.to_nat MAXLINE) req) = Z.to_nat MAXLINE) by (rewrite length_take; lia).
  assert (Hlast : default 0 (last (take (Z.to_nat MAXLINE) req)) <> 0).
  { rewrite last_lookup, Hfull, lookup_take_lt by (unfold MAXLINE; lia).
    assert (Hi : (pred (Z.to_nat MAXLINE) < length (str "open " ++ name ++ [32%Z; 48%Z]))%nat).
    { rewrite Er, length_app in Hlen. cbn [length] in Hlen. unfold MAXLINE in *. lia. }
    rewrite Er, lookup_app_l by done. destruct (lookup_lt_is_Some_2 _ _ Hi) as [c Hc]. rewrite Hc.
    by eapply (Forall_lookup_1 (fun c => c <> 0)). }
  cbn [server_main]. destruct req as [|c req']; [done|]. unfold read_all. cbn [length pieces serve_reads].
  unfold mbind, SM_bind. set (buf := take (Z.to_nat MAXLINE) (c :: req')) in *.
  unfold request_fe, mbind, SM_bind. rewrite (proj2 (Z.eqb_neq _ _)) by done. cbn [negb].
  unfold Opend.set_errmsg. rewrite (proj2 (Z.ltb_ge _ _)); [done|].
  pose proof (fmt_prec_length (length buf) buf) as Hp. rewrite !length_app. lia.
Qed.

End Cat.

(** The server that is started has its end of the pipe as standard input and output and
    not the client's end; the client has only its own. *)
Lemma spawn_fds a m fd0 parent server fd1 :
  spawn a m = Spawned fd0 parent (Some server) -> s_pipe a = Some (fd0, fd1) -> fd0 <> fd1 ->
  server !! STDIN_FILENO = Some ServerEnd /\ server !! STDOUT_FILENO = Some ServerEnd /\
  server !! fd0 <> Some ClientEnd /\ parent !! fd0 = Some ClientEnd /\ parent !! fd1 = None.
Proof.
  unfold spawn, server_fds, STDIN_FILENO, STDOUT_FILENO. intros E Hp Hne. rewrite Hp in E. destruct (s_fork a); [|done]. cbn [negb] in E.
  injection E as <- Hs.
  assert (Hpar : delete fd1 (<[fd1 := ServerEnd]> (<[fd0 := ClientEnd]> m)) !! fd0 = Some ClientEnd).
  { by rewrite lookup_delete_ne, lookup_insert_ne, lookup_insert_eq by done. }
  destruct (Z.eqb_spec fd1 0) as [E0|H0], (Z.eqb_spec fd1 1) as [E1|H1]; cbn [negb] in Hs; try lia; try subst fd1.
  all: destruct (s_dup_in a); try (destruct (s_dup_out a)); simplify_eq/=; split_and!; try done;
    repeat (first [rewrite lookup_insert_eq | rewrite lookup_insert_ne by done | rewrite lookup_delete_eq |
                   rewrite lookup_delete_ne by done]); try done.
  all: destruct (decide (fd0 = 0)) as [-> |]; [|destruct (decide (fd0 = 1)) as [-> |]];
    repeat (first [rewrite lookup_insert_eq | rewrite lookup_insert_ne by done | rewrite lookup_delete_eq |
                   rewrite lookup_delete_ne by done]); done.
Qed.

(** A pipe that keeps the text and the end of a message apart. *)
Definition two_parts : Pipe := fun cells =>
  let k := (length cells - 2)%nat in
  let seg cs := Seg (map c_byte cs) (rights_of cs) in
  if (k =? 0)%nat then [seg cells] else [seg (take k cells); seg (drop k cells)].

Lemma two_parts_ok : @PipeOk two_parts.
Proof.
  intros t f Hl. unfold deliver, two_parts. rewrite length_app, fd_message_length. rewrite Nat.add_sub.
  assert (Hlt : length (text_cells t) = length t) by (unfold text_cells; apply length_map).
  assert (Hfm := fd_message_length f).
  destruct (Nat.eqb_spec (length (text_cells t)) 0) as [E|E].
  - apply length_zero_iff_nil in E as ->. cbn [app]. split; [|unfold last_whole; cbn [last]; rewrite length_map; lia].
    rewrite <- (app_nil_r (fd_message f)) at 1.
    apply arrives_seg; [by destruct (fd_message f)|unfold MAXLINE; lia|apply arrives_nil].
  - rewrite take_app_length, drop_app_length. split; [|unfold last_whole; cbn [last]; rewrite length_map; lia].
    apply arrives_seg; [by destruct (text_cells t)|lia|]. rewrite <- (app_nil_r (fd_message f)) at 1.
    apply arrives_seg; [by destruct (fd_message f)|unfold MAXLINE; lia|apply arrives_nil].
Qed.

Definition motd_reads (fd : Z) : list (option bytes) := [Some (str "hello "); Some (str "world"); Some []].
Definition pipe_34 : spawn_answers := mkSpawn (Some (3, 4)) true true true.

Lemma cat_through_server_witness :
  exists reqs s', @cat_session one_file motd_reads pipe_34 two_parts (str "/x" ++ [10] ++ str "/etc/motd" ++ [10])
        (-1) ∅ (select_init true 9 []) =
      Some (str "hello world", str "can't open /x: No such file or directory" ++ [10], reqs, s') /\
    Forall2 (fun n r => csopen_request n O_RDONLY = Some r) [str "/x"; str "/etc/motd"] reqs /\
    server_main one_file (map RGot reqs) (select_init true 9 []) = ORet false s'.
Proof.
  apply (@cat_through_server one_file motd_reads pipe_34 two_parts two_parts_ok [str "/x"; str "/etc/motd"] (-1) ∅ (select_init true 9 [])).
  - repeat constructor; vm_compute; try done. by eexists.
  - apply not_elem_of_nil.
  - right. exists 3, 4. split; [reflexivity|]. split; [lia|]. split_and!; reflexivity.
Defined.
